(* ===== verification/_CoqProject ===== *)
-Q . S2P
Prelude.v
Bytes.v
LinOp.v
GF.v
Galois.v
InputCols.v
GfCoeff.v
GfLookup.v
GfMul.v
RecElim.v
RecMatrix.v
RecOps.v
RecInvert.v
RecApply.v
RecProcess.v
RecConstruct.v
RecCompute.v
RecComplete.v
ReedSolomon.v
RSGauss.v
RSCompute.v
RSProcess.v
Par1Matrix.v
Crc.v
HashCrc.v
Md5.v
Md5Spec.v
Md5Single.v
Hasher.v
HasherSpec.v
Md5Crc.v
DiskFile.v
CheckSummer.v
CheckSummerSpec.v
HashTable.v
HashTableSpec.v
FileName.v
Packets.v
PacketsSpec.v
PacketScan.v
PacketScanSpec.v
Parameters.v
ParametersSpec.v
CreatorLayout.v
CreatorAllocSpec.v
CreatorNamesSpec.v
CreatorPlanSpec.v
CreatorWrite.v
CreatorWriteSpec.v
CreatorSpec.v
CreatorRoundtrip.v
SourceFile.v
SourceFileSpec.v
SourceBlocksSpec.v
RepairFiles.v
RepairFilesSpec.v
RepairScan.v
RepairScanSpec.v
RepairVerifySpec.v
RepairProcess.v
RepairProcessSpec.v
RepairCreateSpec.v
RepairSpec.v
RepairVerifiedSpec.v
RepairIntactSpec.v
RepairRenameSpec.v
RepairWholeSpec.v
GfChecksum.v
GfPacked.v
GfPackedSpec.v
BackendCpu.v
BackendThreads.v
BackendWorkSpec.v
BackendPlanSpec.v
BackendStepSpec.v
BackendSpec.v
BackendSetupSpec.v
BackendInstance.v
CreatorProcess.v
