(* ===== verification/Prelude.v ===== *)
(** * Verification of par2cmdline-turbo

    The program creates and uses PAR 2.0 recovery files: the source files of a set are cut
    into blocks, recovery blocks are linear combinations of them over GF(2^16), and packets in
    the recovery files describe the files and hold the recovery blocks.  It repairs PAR 1.0
    sets too, over GF(2^8).  This development models the algorithms of the program as
    executable functions that follow the code, and proves what they do.  This file is also the
    prelude: the notation [⊕], integers of a width ([in_range], [wrap]), arrays, the hint
    databases [par2] and [bits] and the lemmas that the components share.

    ** How the code is modelled

    - An unsigned integer of w bits is a [Z] in [in_range w]; operations that can wrap around
      are written with [wrap w].  Signed shifts and truncations are written out.
    - Memory that is indexed is a map ([array], [Zmap]) or a list; an access outside is [None],
      and so is everything else that C++ leaves undefined or that throws: a null pointer, an
      iterator past the end, a division by zero, [at] of a missing key.  A theorem that says
      "= Some ..." therefore says that none of this happens.  A value [Some false] or
      [Some (false, ...)] is the code's own error.
    - Loops are [Fixpoint]s over the data, or take fuel.  Theorems state that the fuel given in
      the definition is enough ([scan_loop]: the length of the file, since every step moves
      on; [free_name]: one more than there are names; [process_chunks]: the block size;
      [ComputeBlockSize]: see Parameters.v), or that a loop does not end
      ([PacketScanSpec.packet_search_endless]).
    - The C++ objects that other objects point to (open files, data blocks, source files) are
      numbered, and the store they live in is passed along: [World] in RepairProcess.v.
    - Memory that is not initialised is a parameter ([fresh], [scratch], [matchtype0], ...), so
      that a theorem holds for any contents of it.
    - Parts that can be exchanged are interfaces with laws: the GF(2^16) kernels are the
      record [kernel] with the class [KernelLaws] (instances: [lookup_kernel], the portable
      kernel, and [wide_kernel], which has the optional functions too); the backend that
      computes the missing blocks is the class [Backend] with [BackendLaws] (instances:
      [direct_backend], and [cpu_backend], the model of the backend on CPU threads); opening
      a file is a function from names.
    - Threads that work together are a step relation ([BackendThreads.step]): each thread is a
      partial function on the shared state, a run is any interleaving of steps.

    The program is built with NDEBUG, PARPAR_INVERT_SUPPORT, PARPAR_SLIM_GF16 and
    LONGMULTIPLY, for a little-endian 64-bit system that is not Windows; this is the
    preprocessor branch that is modelled.

    ** The parts

    Arithmetic.  [LinOp], [GF]: the fields as polynomials modulo a generator, and that
    multiplication is a field.  [Galois]: include/par2/galois.h.
    [GfCoeff]: parpar/gf16/gfmat_coeff.c, the constants of the input blocks, exponents and
    reciprocals.  [GfLookup]: parpar/gf16/gf16_lookup.c.  [GfMul]: the class Galois16Mul.

    Recovery matrix.  [RecMatrix] models parpar/gf16/gfmat_inv.cpp; [RecElim], [RecOps],
    [RecInvert], [RecApply], [RecProcess] prove that the in-place elimination, which groups
    rows and works on stripes, keeps the equations; [RecConstruct] that the matrix is the one
    of the specification; [RecCompute] that a result of [Compute] recovers the missing blocks,
    and that when it fails the rows are dependent; [RecComplete] that it does not fail for
    consecutive exponents from 0.  [InputCols] numbers the available and missing blocks.

    PAR 1.0.  [ReedSolomon], [RSGauss], [RSCompute], [RSProcess]: include/par2/reedsolomon.h
    and src/reedsolomon.cpp; [Par1Matrix]: the repair of src/par1repairer.cpp.

    Hashes.  [Crc]: src/crc.cpp with the sliding window; [HashCrc], [Md5], [Md5Crc],
    [Hasher]: the portable hashers under parpar/hasher and include/par2/hasher, which compute
    the MD5 of a file and MD5 and CRC of its blocks in two lanes; [Md5Spec] states MD5 as RFC
    1321 does; [Md5Single] and [HasherSpec] prove that the incremental hashers refine it.

    Files and scanning.  [DiskFile]: src/diskfile.cpp and src/datablock.cpp, in two layers: the
    stream of a file, which the other parts use in the one mode they need, and the object
    with its pointer to a stream that is open for reading or for writing.  [CheckSummer]
    and [CheckSummerSpec]: src/filechecksummer.cpp, a window that slides over a file, refines
    a function of the file and the position.  [HashTable] and [HashTableSpec]:
    include/par2/verificationhashtable.h, the trees of block hashes.

    Packets.  [FileName]: file names; [Packets], [PacketsSpec]: creation, loading and writing
    of all packets; [PacketScan], [PacketScanSpec]: the search for packets in a file
    (LoadPacketsFromFile).

    Creator.  [Parameters], [ParametersSpec]: sizes and counts from src/commandline.cpp,
    src/libpar2.cpp and src/par2creator.cpp.  [CreatorLayout], [CreatorAllocSpec],
    [CreatorNamesSpec], [CreatorPlanSpec]: which recovery blocks and packets go where.
    [CreatorWrite], [CreatorWriteSpec], [CreatorSpec]: writing them.  [SourceFile],
    [SourceFileSpec], [SourceBlocksSpec]: src/par2creatorsourcefile.cpp and the reading of the
    blocks.  [CreatorRoundtrip] puts the creator and the packet search together.
    [CreatorProcess]: the loop of Par2Creator::Process over the parts of the blocks with the
    CPU backend, and creation from the source files to the written recovery blocks.

    Repairer (src/par2repairer.cpp, src/par2repairersourcefile.cpp).  [RepairFiles],
    [RepairFilesSpec]: consistency, list of files, data blocks, table, results.  [RepairScan],
    [RepairScanSpec], [RepairVerifySpec]: ScanDataFile and VerifyDataFile.  [RepairProcess]
    models everything from VerifySourceFiles to the end of Process; [RepairProcessSpec],
    [RepairCreateSpec] and [RepairSpec] prove that the loops over chunks and blocks restore
    the files; [RepairVerifiedSpec] that verification finds files that are right;
    [RepairRenameSpec] what RenameTargetFiles does to the names; [RepairIntactSpec] and
    [RepairWholeSpec] put them together for a set that is intact and one that is damaged.

    Backend (parpar/gf16/controller_cpu.cpp).  [GfChecksum]: the checksum of a region,
    include/par2/gf16/gf16_checksum_generic.h; [GfPacked]: the layout of packed regions,
    include/par2/gf16/gf16_global.h as gf16_lookup.c uses it, and the operations on them;
    [GfPackedSpec]: packing and unpacking.  [BackendCpu]: the class PAR2ProcCPU, its sizes, the
    staging areas, run_kernel and the work of compute_worker; [BackendThreads]: the main
    thread, the transfer thread and the workers as a step relation.  [BackendWorkSpec]: what a
    request computes; [BackendPlanSpec]: how run_kernel cuts the work up, with the rounding
    of its float; [BackendStepSpec]: the invariant of a run and the steps that keep it;
    [BackendSpec]: the steps of the workers, the end of a run, progress, and the measure that every
    step makes smaller; [BackendSetupSpec]: sizes and memory; [BackendInstance]: every run, a
    scheduler with fuel [enough] (two requests for a thread and command and two more), and the
    instance of the interface.

    ** The theorems

    A theorem that is a property of the program carries a number C<n> in its comment, in the
    order of importance, and is followed by a witness, an instance with concrete data.  In
    short: a repair from right data restores every file ([repair_succeeds],
    [repair_restores]), an intact set is accepted ([intact_set_succeeds]); the backend gives the right outputs in every interleaving and
    always ends ([backend_outputs], [backend_runs_end]), so that the repair can use it
    ([cpu_backend_keeps_promise]); the matrix recovers the missing blocks ([Compute_correct]) and its algorithms keep the equations
    ([processRows_correct], [Construct_correct]); the creator computes the recovery blocks of
    the specification ([created_recovery_blocks]); the arithmetic is that of the fields; the
    hashers are MD5 and CRC-32; the creator's files hold every recovery block once, contain
    only intact packets and are read back completely ([created_files_found]); what a scan
    finds is there ([scan_sound]) and what is there is found ([scan_finds_intact]); loops end;
    sizes are within bounds; and some theorems state how the code misbehaves.

    ** Not modelled

    - The GF(2^16), hashing and addition kernels for SIMD units, generated code, the OpenCL
      code, and the choice between kernels: they compute the same functions as the portable
      ones, which are modelled, but are written in intrinsics and assembler.
    - Threads elsewhere.  Loops that hand their iterations to threads are modelled as taking them in
      some order, and theorems hold for every order; the code protects what the iterations
      share by locks, the hash table and the blocks apart, which ScanDataFile uses without.
    - In the backend a thread handles a message in one step: the threads share nothing but the
      queues, the counters of the staging areas and memory that the plan keeps apart, and the
      code uses locks and atomics for the former.  Buffers are passed by value: the caller
      waits for the future before it uses one again.  The method is GF16_LOOKUP of the 64-bit
      little-endian build without libuv.  The controller that distributes a slice over several
      backends (controller.cpp) is left out; par2 uses one.
    - Full disks and failing system calls other than those for missing, existing or short
      files; progress, messages, cancellation; time limits.
    - The parsing of options, file name patterns, the library's entry points, the removal of
      the PAR2 files, and the reading of PAR 1.0 files.
    - Source files that the main packet lists twice, which the code represents by one object
      in two places.  File names are bytes; directories are part of the name.

    The reasons for each component are in the list of components of the manifest. *)

From stdpp Require Export base list numbers option sets fin_maps zmap.
From Stdlib Require Export ZArith Lia.
From Stdlib Require Import Btauto.

#[global] Open Scope Z_scope.

(** ** Hint databases and tactics *)

Create HintDb par2 discriminated.
Create HintDb bits.

(** ** Machine integers: a [w]-bit unsigned value is a [Z] in [0, 2^w) *)

Definition in_range (w a : Z) : Prop := 0 ≤ a < 2 ^ w.

#[global] Instance in_range_dec w a : Decision (in_range w a).
Proof. unfold in_range. apply _. Defined.

Definition wrap (w a : Z) : Z := a mod 2 ^ w.

Declare Scope par2_scope.
Delimit Scope par2_scope with par2.
Notation "a '⊕' b" := (Z.lxor a b) (at level 50, left associativity) : par2_scope.
#[global] Open Scope par2_scope.

Lemma testbit_above w a i : in_range w a → 0 ≤ w ≤ i → Z.testbit a i = false.
Proof.
  intros [H1 H2] Hi. rewrite <- (Z.mod_small a (2 ^ w)) by lia.
  apply Z.mod_pow2_bits_high. lia.
Qed.

Lemma in_range_bits w a :
  0 ≤ w → 0 ≤ a → (∀ i, w ≤ i → Z.testbit a i = false) → in_range w a.
Proof.
  intros Hw Ha H. split; [done|].
  replace a with (a mod 2 ^ w); [apply Z.mod_pos_bound; lia|].
  apply Z.bits_inj'. intros n Hn. destruct (Z.lt_ge_cases n w).
  - by rewrite Z.mod_pow2_bits_low by lia.
  - rewrite Z.mod_pow2_bits_high by lia. by rewrite H.
Qed.

Lemma in_range_0 w : 0 ≤ w → in_range w 0.
Proof. unfold in_range. lia. Qed.

Lemma in_range_lxor w a b : 0 ≤ w → in_range w a → in_range w b → in_range w (a ⊕ b).
Proof.
  intros Hw Ha Hb. apply in_range_bits; [done| |].
  - apply Z.lxor_nonneg. unfold in_range in *. lia.
  - intros i Hi. rewrite Z.lxor_spec, !(testbit_above w) by (done || lia). done.
Qed.

Lemma in_range_land w a b : 0 ≤ w → in_range w b → in_range w (Z.land a b).
Proof.
  intros Hw Hb. apply in_range_bits; [done| |].
  - apply Z.land_nonneg. unfold in_range in *. lia.
  - intros i Hi. rewrite Z.land_spec, (testbit_above w b) by (done || lia). btauto.
Qed.

Lemma in_range_lor w a b : 0 ≤ w → in_range w a → in_range w b → in_range w (Z.lor a b).
Proof.
  intros Hw Ha Hb. apply in_range_bits; [done| |].
  - apply Z.lor_nonneg. unfold in_range in *. lia.
  - intros i Hi. rewrite Z.lor_spec, !(testbit_above w) by (done || lia). done.
Qed.

Lemma in_range_wrap w a : 0 ≤ w → in_range w (wrap w a).
Proof. intros. unfold in_range, wrap. apply Z.mod_pos_bound. lia. Qed.

Lemma wrap_small w a : in_range w a → wrap w a = a.
Proof. apply Z.mod_small. Qed.

Lemma wrap_lxor w a b : 0 ≤ w → wrap w (a ⊕ b) = wrap w a ⊕ wrap w b.
Proof.
  intros Hw. unfold wrap. apply Z.bits_inj'. intros i Hi. rewrite Z.lxor_spec.
  destruct (Z.lt_ge_cases i w).
  - by rewrite !Z.mod_pow2_bits_low, Z.lxor_spec by lia.
  - by rewrite !Z.mod_pow2_bits_high by lia.
Qed.

(** A word is the exclusive or of its high and low parts. *)
Lemma split_high_low k a : 0 ≤ k → a = Z.shiftl (Z.shiftr a k) k ⊕ a mod 2 ^ k.
Proof.
  intros Hk. apply Z.bits_inj'. intros i Hi. rewrite Z.lxor_spec.
  destruct (Z.lt_ge_cases i k).
  - rewrite Z.mod_pow2_bits_low, Z.shiftl_spec_low by lia. done.
  - rewrite Z.mod_pow2_bits_high, Z.shiftl_spec_high, Z.shiftr_spec by lia.
    rewrite xorb_false_r. f_equal. lia.
Qed.

(** Disjoint bit fields: [or] and [xor] are addition. *)
Lemma lxor_disjoint k a b : 0 ≤ k → in_range k a → a ⊕ Z.shiftl b k = a + b * 2 ^ k.
Proof.
  intros Hk Ha. rewrite Z.shiftl_mul_pow2 by lia. symmetry. apply Z.add_nocarry_lxor.
  apply Z.bits_inj'. intros i Hi. rewrite Z.land_spec, Z.bits_0.
  destruct (Z.lt_ge_cases i k).
  - rewrite Z.mul_pow2_bits_low by lia. apply andb_false_r.
  - rewrite (testbit_above k) by (done || lia). done.
Qed.

Lemma lor_disjoint k a b : 0 ≤ k → in_range k a → Z.lor a (Z.shiftl b k) = a + b * 2 ^ k.
Proof.
  intros Hk Ha. rewrite <- lxor_disjoint by done.
  apply Z.bits_inj'. intros i Hi. rewrite Z.lor_spec, Z.lxor_spec.
  destruct (Z.lt_ge_cases i k).
  - rewrite Z.shiftl_spec_low by lia. btauto.
  - rewrite (testbit_above k a) by (done || lia). btauto.
Qed.

Lemma land_lxor_distr_r a b c : Z.land (a ⊕ b) c = Z.land a c ⊕ Z.land b c.
Proof. apply Z.bits_inj'. intros i Hi. rewrite ?Z.land_spec, ?Z.lxor_spec, ?Z.land_spec. btauto. Qed.

Lemma in_range_shiftr w a k : 0 ≤ k → in_range w a → in_range w (Z.shiftr a k).
Proof.
  intros Hk [H1 H2]. rewrite Z.shiftr_div_pow2 by done. split.
  - apply Z.div_pos; lia.
  - eapply Z.le_lt_trans; [|exact H2]. apply Z.div_le_upper_bound; [lia|]. nia.
Qed.

Lemma in_range_mono w w' a : 0 ≤ w ≤ w' → in_range w a → in_range w' a.
Proof.
  intros Hw [H1 H2]. split; [done|]. eapply Z.lt_le_trans; [exact H2|].
  apply Z.pow_le_mono_r; lia.
Qed.

#[export] Hint Resolve in_range_0 in_range_lxor in_range_land in_range_lor
  in_range_wrap in_range_shiftr : par2.
#[export] Hint Extern 1 (0 ≤ _) => lia : par2.

(** Exclusive-or identities are decided bitwise. *)
Ltac xor_solve :=
  apply Z.bits_inj'; intros ?i ?Hi;
  rewrite ?Z.lxor_spec, ?Z.bits_0; btauto.

Lemma lxor_nilpotent_l a b : a ⊕ (a ⊕ b) = b.
Proof. xor_solve. Qed.

Lemma lxor_comm_l a b c : a ⊕ (b ⊕ c) = b ⊕ (a ⊕ c).
Proof. xor_solve. Qed.

Lemma lxor_interchange a b c d : (a ⊕ b) ⊕ (c ⊕ d) = (a ⊕ c) ⊕ (b ⊕ d).
Proof. xor_solve. Qed.

(** ** Arrays

    A C array or heap block is a finite map from indices to values: an index that
    was never written, or lies outside, is unmapped, so reading it is an error
    ([None]). *)
Abbreviation array := (Zmap Z).

(** ** Counted loops: [for (i = lo; i < hi; i++) s = body(i, s)] *)

Definition for_loop {S} (lo hi : Z) (body : Z → S → S) (s : S) : S :=
  foldl (λ s i, body i s) s (seqZ lo (hi - lo)).

Lemma for_loop_nil {S} lo hi (body : Z → S → S) s :
  hi ≤ lo → for_loop lo hi body s = s.
Proof.
  intros H. unfold for_loop. rewrite seqZ_nil by lia. done.
Qed.

Lemma for_loop_snoc {S} lo hi (body : Z → S → S) s :
  lo ≤ hi → for_loop lo (hi + 1) body s = body hi (for_loop lo hi body s).
Proof.
  intros H. unfold for_loop. replace (hi + 1 - lo) with ((hi - lo) + 1) by lia.
  rewrite seqZ_app by lia. rewrite foldl_app.
  replace (lo + (hi - lo)) with hi by lia. done.
Qed.

Lemma for_loop_cons {S} lo hi (body : Z → S → S) s :
  lo < hi → for_loop lo hi body s = for_loop (lo + 1) hi body (body lo s).
Proof.
  intros H. unfold for_loop. rewrite seqZ_cons by lia. simpl.
  replace (Z.succ lo) with (lo + 1) by lia.
  by replace (Z.pred (hi - lo)) with (hi - (lo + 1)) by lia.
Qed.

(** Invariant rule for counted loops. *)
Lemma for_loop_ind {S} (P : Z → S → Prop) lo hi (body : Z → S → S) s :
  lo ≤ hi → P lo s →
  (∀ i s, lo ≤ i < hi → P i s → P (i + 1) (body i s)) →
  P hi (for_loop lo hi body s).
Proof.
  intros Hle H0 Hstep.
  assert (∀ n : nat, lo + Z.of_nat n ≤ hi →
    P (lo + Z.of_nat n) (for_loop lo (lo + Z.of_nat n) body s)) as Hn.
  { induction n as [|n IH]; intros Hn.
    - rewrite for_loop_nil by lia. by replace (lo + Z.of_nat 0) with lo by lia.
    - replace (lo + Z.of_nat (Datatypes.S n)) with (lo + Z.of_nat n + 1) by lia.
      rewrite for_loop_snoc by lia. apply Hstep; [lia|]. apply IH. lia. }
  specialize (Hn (Z.to_nat (hi - lo))). rewrite Z2Nat.id in Hn by lia.
  replace (lo + (hi - lo)) with hi in Hn by lia. apply Hn. lia.
Qed.

(** The same loop when the body can fail. *)
Definition for_loopM {S} (lo hi : Z) (body : Z → S → option S) (s : S) : option S :=
  for_loop lo hi (λ i os, os ≫= body i) (Some s).

Lemma for_loopM_nil {S} lo hi (body : Z → S → option S) s :
  hi ≤ lo → for_loopM lo hi body s = Some s.
Proof. apply for_loop_nil. Qed.

Lemma for_loopM_ind {S} (P : Z → S → Prop) lo hi (body : Z → S → option S) s :
  lo ≤ hi → P lo s →
  (∀ i s, lo ≤ i < hi → P i s → ∃ s', body i s = Some s' ∧ P (i + 1) s') →
  ∃ s', for_loopM lo hi body s = Some s' ∧ P hi s'.
Proof.
  intros Hle H0 Hstep. unfold for_loopM.
  apply (for_loop_ind (λ i os, ∃ s', os = Some s' ∧ P i s')); [done|by eauto|].
  intros i os Hi (s' & -> & HP). simpl. by apply Hstep.
Qed.

Lemma for_loopM_inv {S} (P : Z → S → Prop) lo hi (body : Z → S → option S) s s' :
  lo ≤ hi → P lo s → for_loopM lo hi body s = Some s' →
  (∀ i s s', lo ≤ i < hi → P i s → body i s = Some s' → P (i + 1) s') →
  P hi s'.
Proof.
  intros Hle H0 Hrun Hstep. revert s' Hrun. unfold for_loopM.
  apply (for_loop_ind (λ i os, ∀ s', os = Some s' → P i s')); [done|by intros ? [= <-]|].
  intros i [s1|] Hi HP s'; simpl; [|done]. intros. by eapply Hstep; [| apply HP|].
Qed.
