(* ===== verification/Bytes.v ===== *)
(** * Bytes.v: words as little-endian bytes *)

From Stdlib Require Import Btauto.
From S2P Require Import Prelude.

(** Byte number [k] of a word. *)
Definition byte_of (k v : Z) : Z := Z.land (Z.shiftr v (8 * k)) 255.

Lemma byte_of_range k v : in_range 8 (byte_of k v).
Proof. apply in_range_land; [lia|done]. Qed.

Lemma byte_of_lxor k a b : byte_of k (a ⊕ b) = byte_of k a ⊕ byte_of k b.
Proof. unfold byte_of. by rewrite Z.shiftr_lxor, land_lxor_distr_r. Qed.

Lemma byte_of_testbit k v i : 0 ≤ k → 0 ≤ i →
  Z.testbit (byte_of k v) i = (i <? 8) && Z.testbit v (i + 8 * k).
Proof.
  intros Hk Hi. unfold byte_of. change 255 with (Z.ones 8).
  rewrite Z.land_spec, Z.shiftr_spec, Z.testbit_ones_nonneg by lia. btauto.
Qed.

Lemma byte_of_shiftl k j b : 0 ≤ k → 0 ≤ j → in_range 8 b →
  byte_of k (Z.shiftl b (8 * j)) = if decide (k = j) then b else 0.
Proof.
  intros Hk Hj Hb. apply Z.bits_inj'. intros i Hi. rewrite byte_of_testbit by done.
  rewrite Z.shiftl_spec by lia. destruct (Z.ltb_spec i 8) as [H8|H8]; simpl.
  - case_decide as E.
    + subst j. f_equal. lia.
    + rewrite Z.bits_0. destruct (decide (k < j)); [apply Z.testbit_neg_r; lia|].
      apply (testbit_above 8); [done|lia].
  - case_decide; [|by rewrite Z.bits_0]. symmetry. by apply (testbit_above 8).
Qed.

Lemma lor_shiftl_lxor n a b : 0 ≤ n → in_range n a → Z.lor a (Z.shiftl b n) = a ⊕ Z.shiftl b n.
Proof. intros. by rewrite lor_disjoint, lxor_disjoint. Qed.

(** The word with the given bytes, lowest first. *)
Fixpoint le_join (bs : list Z) : Z :=
  match bs with [] => 0 | b :: bs => b + 256 * le_join bs end.

Definition le_split (n : nat) (v : Z) : list Z := (λ k, byte_of (Z.of_nat k) v) <$> seq 0 n.

Lemma length_le_split n v : length (le_split n v) = n.
Proof. unfold le_split. by rewrite length_fmap, length_seq. Qed.

Lemma le_join_range bs : Forall (λ b, in_range 8 b) bs → in_range (8 * Z.of_nat (length bs)) (le_join bs).
Proof.
  induction 1 as [|b bs Hb Hbs IH]; simpl; [done|].
  unfold in_range in *. change (2 ^ 8) with 256 in Hb.
  replace (8 * Z.of_nat (S (length bs))) with (8 + 8 * Z.of_nat (length bs)) by lia.
  rewrite Z.pow_add_r by lia. change (2 ^ 8) with 256. lia.
Qed.

Lemma byte_of_div k v : 0 ≤ k → byte_of k v = (v / 256 ^ k) mod 256.
Proof.
  intros Hk. unfold byte_of. change 255 with (Z.ones 8). rewrite Z.land_ones, Z.shiftr_div_pow2 by lia.
  rewrite Z.pow_mul_r by lia. done.
Qed.

Lemma le_split_succ n v : le_split (S n) v = byte_of 0 v :: le_split n (v / 256).
Proof.
  unfold le_split. cbn [seq fmap list_fmap]. f_equal. rewrite <- fmap_S_seq, <- list_fmap_compose.
  apply list_fmap_ext. intros _ k _. unfold compose. rewrite !byte_of_div by lia.
  rewrite Z.div_div by lia. do 2 f_equal.
  rewrite Nat2Z.inj_succ, Z.pow_succ_r by lia. done.
Qed.

(** Round trips. *)
Lemma le_join_split n v : in_range (8 * Z.of_nat n) v → le_join (le_split n v) = v.
Proof.
  revert v. induction n as [|n IH]; intros v Hv.
  - unfold in_range in Hv. simpl in *. lia.
  - rewrite le_split_succ. cbn [le_join]. rewrite IH.
    + rewrite byte_of_div, Z.pow_0_r, Z.div_1_r by lia. pose proof (Z.div_mod v 256). lia.
    + unfold in_range in *. replace (8 * Z.of_nat (S n)) with (8 + 8 * Z.of_nat n) in Hv by lia.
      rewrite Z.pow_add_r in Hv by lia. change (2 ^ 8) with 256 in Hv.
      split; [apply Z.div_pos; lia|]. apply Z.div_lt_upper_bound; lia.
Qed.

Lemma le_split_join bs : Forall (λ b, in_range 8 b) bs → le_split (length bs) (le_join bs) = bs.
Proof.
  induction 1 as [|b bs Hb Hbs IH]; [done|]. cbn [length le_join]. rewrite le_split_succ.
  unfold in_range in Hb. change (2 ^ 8) with 256 in Hb. f_equal.
  - rewrite byte_of_div, Z.pow_0_r, Z.div_1_r by lia.
    replace (b + 256 * le_join bs) with (b + le_join bs * 256) by lia. rewrite Z.mod_add, Z.mod_small by lia. done.
  - replace (b + 256 * le_join bs) with (b + le_join bs * 256) by lia.
    by rewrite Z.div_add, Z.div_small by lia.
Qed.
