(* ===== verification/LinOp.v ===== *)
(** * Polynomials in a GF(2)-linear shift operator

    GF(2^w) in the code is always the space of w-bit words with exclusive or,
    together with one linear operator: "multiply by x" (a left shift reduced by
    the generator in [galois.h] and [gfmat_coeff.c], a right shift reduced by the
    reflected polynomial in [crc.cpp]).  Multiplication by a word is a polynomial
    in that operator.  This file develops that view once, for both. *)

From Stdlib Require Import Btauto.
From S2P Require Import Prelude.

(** The finite exclusive-or sum of [f] over a list of indices. *)
Definition xsum {A} (f : A → Z) (l : list A) : Z := foldr (λ i acc, f i ⊕ acc) 0 l.

Section Xsum.
Context {A : Type}.
Implicit Types (f g : A → Z) (l : list A).

Lemma xsum_cons f x l : xsum f (x :: l) = f x ⊕ xsum f l.
Proof. done. Qed.

Lemma xsum_app f l1 l2 : xsum f (l1 ++ l2) = xsum f l1 ⊕ xsum f l2.
Proof. induction l1 as [|x l IH]; simpl; [done|]. rewrite IH. xor_solve. Qed.

Lemma xsum_ext f g l : (∀ x, x ∈ l → f x = g x) → xsum f l = xsum g l.
Proof.
  induction l as [|x l IH]; intros H; simpl; [done|].
  rewrite H by set_solver. f_equal. apply IH. intros. apply H. set_solver.
Qed.

Lemma xsum_lxor f g l : xsum (λ x, f x ⊕ g x) l = xsum f l ⊕ xsum g l.
Proof. induction l as [|x l IH]; simpl; [done|]. rewrite IH. xor_solve. Qed.

Lemma xsum_0 l : xsum (λ _, 0) l = 0.
Proof. induction l as [|x l IH]; simpl; [done|]. rewrite IH. done. Qed.

Lemma xsum_hom (h : Z → Z) f l :
  h 0 = 0 → (∀ a b, h (a ⊕ b) = h a ⊕ h b) → h (xsum f l) = xsum (λ x, h (f x)) l.
Proof. intros H0 H. induction l as [|x l IH]; simpl; [done|]. by rewrite H, IH. Qed.

Lemma xsum_in_range w f l :
  0 ≤ w → (∀ x, x ∈ l → in_range w (f x)) → in_range w (xsum f l).
Proof.
  intros Hw. induction l as [|x l IH]; intros H; simpl; [auto with par2|].
  apply in_range_lxor; [done| |apply IH]; intros; apply H; set_solver.
Qed.

(** Reordering the indices. *)
Lemma xsum_perm f l l' : l ≡ₚ l' → xsum f l = xsum f l'.
Proof. induction 1; simpl; [done|congruence|xor_solve|congruence]. Qed.

Lemma xsum_map {B} (g : B → A) f (l : list B) : xsum f (g <$> l) = xsum (λ y, f (g y)) l.
Proof. induction l as [|y l IH]; [done|]. rewrite fmap_cons. simpl. by rewrite IH. Qed.

Lemma xsum_zeros f l : (∀ x, x ∈ l → f x = 0) → xsum f l = 0.
Proof. intros H. by rewrite (xsum_ext f (λ _, 0)), xsum_0. Qed.

(** Splitting off the indices in [s]. *)
Lemma xsum_split `{EqDecision A} f l s :
  NoDup l → NoDup s → (∀ x, x ∈ s → x ∈ l) →
  xsum f l = xsum f s ⊕ xsum (λ x, if decide (x ∈ s) then 0 else f x) l.
Proof.
  intros Hl Hs Hsub. revert l Hl Hsub. induction s as [|y s IH]; intros l Hl Hsub.
  - change (xsum f []) with 0. rewrite Z.lxor_0_l. apply xsum_ext. intros x _. by rewrite decide_False by set_solver.
  - apply NoDup_cons in Hs as [Hy Hs]. rewrite (IH Hs l Hl) by set_solver. rewrite xsum_cons.
    assert (y ∈ l) as (l1 & l2 & ->)%list_elem_of_split by set_solver.
    apply NoDup_app in Hl as (_ & Hl1 & [Hl2 _]%NoDup_cons).
    rewrite !xsum_app, !xsum_cons. rewrite decide_False, decide_True by set_solver.
    assert (∀ l, y ∉ l → xsum (λ x, if decide (x ∈ y :: s) then 0 else f x) l
                       = xsum (λ x, if decide (x ∈ s) then 0 else f x) l) as E.
    { intros l Hn. apply xsum_ext. intros x Hx. assert (x ≠ y) by set_solver.
      destruct (decide (x ∈ y :: s)), (decide (x ∈ s)); set_solver. }
    rewrite !E by set_solver. xor_solve.
Qed.

(** The selected sub-sum: every index contributes [f] or nothing. *)
Definition xsel (b : A → bool) f l : Z := xsum (λ x, if b x then f x else 0) l.

Lemma xsel_xorb (b c : A → bool) f l :
  xsel (λ x, xorb (b x) (c x)) f l = xsel b f l ⊕ xsel c f l.
Proof.
  unfold xsel. rewrite <- xsum_lxor. apply xsum_ext. intros x _.
  destruct (b x), (c x); simpl; xor_solve.
Qed.

End Xsum.

Lemma xsum_zip_fmap_l {A B C} (f : B * C → Z) (g : A → B) (l : list A) (l' : list C) :
  xsum f (zip (g <$> l) l') = xsum (λ '(x, y), f (g x, y)) (zip l l').
Proof.
  revert l'. induction l as [|x l IH]; intros [|y l']; [done..|]. simpl. by rewrite <- IH.
Qed.

Lemma xsum_zip_fmap {A B} (f : A * B → Z) (g : A → B) (l : list A) :
  xsum f (zip l (g <$> l)) = xsum (λ x, f (x, g x)) l.
Proof. induction l as [|x l IH]; [done|]. simpl. by rewrite <- IH. Qed.

(** A sum over a list, by position. *)
Lemma xsum_index (f : Z → Z) (l : list Z) :
  xsum f l = xsum (λ c, f (default 0 (l !! Z.to_nat c))) (seqZ 0 (Z.of_nat (length l))).
Proof.
  unfold seqZ. rewrite xsum_map, Nat2Z.id. induction l as [|x l IH] using rev_ind; [done|].
  rewrite length_app, Nat.add_comm. cbn [length Nat.add]. rewrite seq_S, !xsum_app, IH. f_equal.
  - apply xsum_ext. intros i Hi%elem_of_seq. rewrite Z.add_0_r, Nat2Z.id.
    by rewrite lookup_app_l by lia.
  - rewrite !xsum_cons. cbn [xsum foldr]. rewrite Nat.add_0_l, Z.add_0_r, Nat2Z.id.
    by rewrite list_lookup_middle.
Qed.

Lemma xsum_seqZ (f : Z → Z) n : xsum f (seqZ 0 (Z.of_nat n)) = xsum (λ i, f (Z.of_nat i)) (seq 0 n).
Proof. unfold seqZ. rewrite Nat2Z.id, xsum_map. apply xsum_ext. intros x _. cbn [compose]. f_equal. lia. Qed.

Lemma xsum_seqZ_shift (f : Z → Z) k n : xsum f (seqZ k n) = xsum (λ c, f (k + c)) (seqZ 0 n).
Proof.
  replace (seqZ k n) with (Z.add k <$> seqZ 0 n); [by rewrite xsum_map|].
  rewrite fmap_add_seqZ. f_equal. lia.
Qed.

(** A sum with a single nonzero term. *)
Lemma xsum_single (f : Z → Z) x n : 0 ≤ x < n →
  xsum (λ c, if decide (c = x) then f c else 0) (seqZ 0 n) = f x.
Proof.
  intros Hx. rewrite (xsum_split _ (seqZ 0 n) [x]).
  - rewrite xsum_cons. cbn [xsum foldr]. rewrite decide_True, Z.lxor_0_r by done.
    rewrite xsum_zeros, Z.lxor_0_r; [done|]. intros c _.
    destruct (decide (c ∈ [x])) as [|E]; [done|]. rewrite list_elem_of_singleton in E. by rewrite decide_False.
  - apply NoDup_seqZ.
  - apply NoDup_singleton.
  - intros y ->%list_elem_of_singleton. apply elem_of_seqZ. lia.
Qed.

Lemma xsum_swap {A B} (f : A → B → Z) (l : list A) (m : list B) :
  xsum (λ x, xsum (f x) m) l = xsum (λ y, xsum (λ x, f x y) l) m.
Proof.
  induction l as [|x l IH]; simpl.
  - by rewrite xsum_0.
  - by rewrite IH, <- xsum_lxor.
Qed.

(** A linear operator with a unit and coordinates relative to the iterates of
    the unit. *)
Class LinOp (w : nat) (T : Z → Z) (u : Z) (sel : Z → nat → bool) : Prop := {
  lin_xor a b : T (a ⊕ b) = T a ⊕ T b;
  lin_range a : in_range (Z.of_nat w) a → in_range (Z.of_nat w) (T a);
  lin_unit_range : in_range (Z.of_nat w) u;
  lin_sel_xor a b i : sel (a ⊕ b) i = xorb (sel a i) (sel b i);
  lin_sel_0 i : sel 0 i = false;
  lin_coord a : in_range (Z.of_nat w) a →
    xsel (sel a) (λ i, Nat.iter i T u) (seq 0 w) = a;
}.

Section LinOp.
Context (w : nat) (T : Z → Z) (u : Z) (sel : Z → nat → bool) `{L : !LinOp w T u sel}.

Abbreviation rng a := (in_range (Z.of_nat w) a).

Lemma lin_0 : T 0 = 0.
Proof.
  pose proof (lin_xor 0 0) as H. by rewrite Z.lxor_0_l, Z.lxor_nilpotent in H.
Qed.

Lemma iter_xor n a b : Nat.iter n T (a ⊕ b) = Nat.iter n T a ⊕ Nat.iter n T b.
Proof. induction n as [|n IH]; simpl; [done|]. by rewrite IH, lin_xor. Qed.

Lemma iter_0 n : Nat.iter n T 0 = 0.
Proof. induction n as [|n IH]; simpl; [done|]. by rewrite IH, lin_0. Qed.

Lemma iter_range n a : rng a → rng (Nat.iter n T a).
Proof. intros Ha. induction n as [|n IH]; simpl; [done|]. by apply lin_range. Qed.

Lemma iter_add n m a : Nat.iter (n + m) T a = Nat.iter n T (Nat.iter m T a).
Proof. induction n as [|n IH]; simpl; [done|]. by rewrite IH. Qed.

Lemma iter_comm n m a : Nat.iter n T (Nat.iter m T a) = Nat.iter m T (Nat.iter n T a).
Proof. by rewrite <- !iter_add, Nat.add_comm. Qed.

(** The polynomial with coefficients [sel b], evaluated at [T], applied to [a]:
    shift-and-add multiplication of [a] by [b]. *)
Definition peasant (a b : Z) : Z := xsel (sel b) (λ i, Nat.iter i T a) (seq 0 w).

(** Reduction to the w-bit representative. *)
Definition norm (a : Z) : Z := peasant u a.

(** The field product. *)
Definition gmul (a b : Z) : Z := peasant (norm a) b.

Lemma peasant_xor_l a b c : peasant (a ⊕ b) c = peasant a c ⊕ peasant b c.
Proof.
  unfold peasant, xsel. rewrite <- xsum_lxor. apply xsum_ext. intros i _.
  rewrite iter_xor. destruct (sel c i); xor_solve.
Qed.

Lemma peasant_xor_r a b c : peasant a (b ⊕ c) = peasant a b ⊕ peasant a c.
Proof.
  unfold peasant. rewrite <- xsel_xorb. unfold xsel. apply xsum_ext.
  intros i _. by rewrite lin_sel_xor.
Qed.

Lemma peasant_0_l b : peasant 0 b = 0.
Proof.
  unfold peasant, xsel. etrans; [|apply (xsum_0 (seq 0 w))]. apply xsum_ext.
  intros i _. rewrite iter_0. by destruct (sel b i).
Qed.

Lemma peasant_0_r a : peasant a 0 = 0.
Proof.
  unfold peasant, xsel. etrans; [|apply (xsum_0 (seq 0 w))]. apply xsum_ext.
  intros i _. by rewrite lin_sel_0.
Qed.

Lemma peasant_T a b : peasant (T a) b = T (peasant a b).
Proof.
  unfold peasant, xsel. rewrite (xsum_hom T) by (apply lin_0 || apply lin_xor).
  apply xsum_ext. intros i _. rewrite <- Nat.iter_succ_r. simpl.
  destruct (sel b i); [done|]. by rewrite lin_0.
Qed.

Lemma peasant_iter n a b : peasant (Nat.iter n T a) b = Nat.iter n T (peasant a b).
Proof. induction n as [|n IH]; simpl; [done|]. by rewrite peasant_T, IH. Qed.

Lemma peasant_comm_ops a b c : peasant (peasant a b) c = peasant (peasant a c) b.
Proof.
  transitivity (xsel (sel b) (λ i, Nat.iter i T (peasant a c)) (seq 0 w)); [|done].
  unfold peasant at 2. unfold xsel at 1.
  rewrite (xsum_hom (λ x, peasant x c)).
  - unfold xsel. apply xsum_ext. intros i _.
    destruct (sel b i); [apply peasant_iter|apply peasant_0_l].
  - apply peasant_0_l.
  - intros. apply peasant_xor_l.
Qed.

Lemma peasant_range a b : rng a → rng (peasant a b).
Proof.
  intros Ha. apply xsum_in_range; [lia|]. intros i _.
  destruct (sel b i); [by apply iter_range|apply in_range_0; lia].
Qed.

Lemma norm_range a : rng (norm a).
Proof. apply peasant_range, lin_unit_range. Qed.

Lemma norm_id a : rng a → norm a = a.
Proof. apply lin_coord. Qed.

Lemma norm_idem a : norm (norm a) = norm a.
Proof. apply norm_id, norm_range. Qed.

Lemma norm_xor a b : norm (a ⊕ b) = norm a ⊕ norm b.
Proof. apply peasant_xor_r. Qed.

Lemma norm_0 : norm 0 = 0.
Proof. apply peasant_0_r. Qed.

Lemma gmul_peasant a b : rng a → gmul a b = peasant a b.
Proof. intros. unfold gmul. by rewrite norm_id. Qed.

Lemma gmul_range a b : rng (gmul a b).
Proof. apply peasant_range, norm_range. Qed.

Lemma gmul_comm a b : gmul a b = gmul b a.
Proof. apply peasant_comm_ops. Qed.

Lemma gmul_xor_r a b c : gmul a (b ⊕ c) = gmul a b ⊕ gmul a c.
Proof. apply peasant_xor_r. Qed.

Lemma gmul_xor_l a b c : gmul (a ⊕ b) c = gmul a c ⊕ gmul b c.
Proof. rewrite !(gmul_comm _ c). apply gmul_xor_r. Qed.

Lemma gmul_0_r a : gmul a 0 = 0.
Proof. apply peasant_0_r. Qed.

Lemma gmul_0_l a : gmul 0 a = 0.
Proof. rewrite gmul_comm. apply gmul_0_r. Qed.

Lemma gmul_assoc a b c : gmul a (gmul b c) = gmul (gmul a b) c.
Proof.
  rewrite (gmul_comm a (gmul b c)). unfold gmul.
  rewrite !(norm_id (peasant _ _)) by apply peasant_range, norm_range.
  rewrite (peasant_comm_ops _ c a). f_equal. apply (gmul_comm b a).
Qed.

Lemma gmul_unit_l a : gmul u a = norm a.
Proof. unfold gmul. rewrite (norm_id u) by apply lin_unit_range. done. Qed.

Lemma gmul_unit_r a : gmul a u = norm a.
Proof. rewrite gmul_comm. apply gmul_unit_l. Qed.

Lemma gmul_T_l a b : rng a → gmul (T a) b = T (gmul a b).
Proof.
  intros Ha. rewrite !gmul_peasant by (done || by apply lin_range). apply peasant_T.
Qed.

Lemma gmul_iter_l n a b : rng a → gmul (Nat.iter n T a) b = Nat.iter n T (gmul a b).
Proof.
  intros Ha. rewrite !gmul_peasant by (done || by apply iter_range). apply peasant_iter.
Qed.

(** Multiplying by the [n]-th power of x is [n] applications of the operator. *)
Lemma gmul_iter_unit n a : rng a → gmul (Nat.iter n T u) a = Nat.iter n T a.
Proof.
  intros Ha. rewrite gmul_iter_l by apply lin_unit_range.
  by rewrite gmul_unit_l, norm_id.
Qed.

Lemma gmul_powers n m :
  gmul (Nat.iter n T u) (Nat.iter m T u) = Nat.iter (n + m) T u.
Proof. rewrite gmul_iter_unit by apply iter_range, lin_unit_range. by rewrite iter_add. Qed.

(** Powers by repeated multiplication. *)
Fixpoint gpow (a : Z) (n : nat) : Z :=
  match n with O => u | S n => gmul a (gpow a n) end.

Lemma gpow_range a n : rng (gpow a n).
Proof. destruct n; simpl; [apply lin_unit_range|apply gmul_range]. Qed.

Lemma gpow_add a n m : gpow a (n + m) = gmul (gpow a n) (gpow a m).
Proof.
  induction n as [|n IH]; simpl.
  - rewrite gmul_unit_l, norm_id; [done|apply gpow_range].
  - by rewrite IH, gmul_assoc.
Qed.

Lemma gpow_power k n : gpow (Nat.iter k T u) n = Nat.iter (k * n) T u.
Proof.
  induction n as [|n IH]; simpl.
  - by rewrite Nat.mul_0_r.
  - rewrite IH, gmul_powers. f_equal. lia.
Qed.

Lemma gmul_xsum_l {A} (f : A → Z) l b : gmul (xsum f l) b = xsum (λ x, gmul (f x) b) l.
Proof.
  apply (xsum_hom (λ a, gmul a b)); [apply gmul_0_l|]. intros. apply gmul_xor_l.
Qed.

Lemma gmul_xsum_r {A} (f : A → Z) l b : gmul b (xsum f l) = xsum (λ x, gmul b (f x)) l.
Proof.
  apply (xsum_hom (λ a, gmul b a)); [apply gmul_0_r|]. intros. apply gmul_xor_r.
Qed.

(** ** The multiplicative group: x has full order *)

Section Order.
(** [N = 2^w - 1]; [x^N = 1] and no smaller positive power is 1. *)
Context (N : nat).
Hypothesis HN : Z.of_nat N = 2 ^ Z.of_nat w - 1.
Hypothesis HNpos : (0 < N)%nat.
Hypothesis u_nz : u ≠ 0.
Hypothesis cycle : Nat.iter N T u = u.
Hypothesis primitive : ∀ d, (0 < d < N)%nat → Nat.iter d T u ≠ u.

Lemma iter_cycle_mul k : Nat.iter (N * k) T u = u.
Proof.
  induction k as [|k IH]; [by rewrite Nat.mul_0_r|].
  replace (N * S k)%nat with (N + N * k)%nat by lia. by rewrite iter_add, IH.
Qed.

(** Exponents of x only matter modulo [N]. *)
Lemma iter_mod k : Nat.iter k T u = Nat.iter (k mod N) T u.
Proof.
  transitivity (Nat.iter (k mod N + N * (k / N)) T u).
  - by rewrite Nat.add_comm, <- Nat.div_mod_eq.
  - by rewrite iter_add, iter_cycle_mul.
Qed.

Lemma power_nz k : Nat.iter k T u ≠ 0.
Proof.
  intros H. apply u_nz. rewrite <- (iter_cycle_mul k).
  replace (N * k)%nat with ((N * k - k) + k)%nat by nia.
  by rewrite iter_add, H, iter_0.
Qed.

Lemma power_inj i j : (i < N)%nat → (j < N)%nat →
  Nat.iter i T u = Nat.iter j T u → i = j.
Proof.
  assert (∀ i j, (i < j)%nat → (j < N)%nat → Nat.iter i T u ≠ Nat.iter j T u) as Haux.
  { intros i' j' Hij Hj Heq. apply (primitive (N - (j' - i'))); [lia|].
    replace (N - (j' - i'))%nat with (N - j' + i')%nat by lia.
    rewrite iter_add, Heq, <- iter_add.
    by replace (N - j' + j')%nat with N by lia. }
  intros Hi Hj Heq. destruct (Nat.lt_total i j) as [Hlt|[->|Hlt]]; [|done|].
  - by destruct (Haux i j).
  - by destruct (Haux j i).
Qed.

(** Every non-zero word is a power of x. *)
Lemma power_surj a : rng a → a ≠ 0 → ∃ i, (i < N)%nat ∧ a = Nat.iter i T u.
Proof.
  intros Ha Hnz.
  set (l := map (λ i, Nat.iter i T u) (List.seq 0 N)).
  assert (List.NoDup l) as Hnd.
  { apply List.NoDup_map_NoDup_ForallPairs; [|apply List.seq_NoDup].
    intros i j Hi Hj. apply power_inj; apply List.in_seq in Hi, Hj; lia. }
  assert (List.incl l (seqZ 1 (Z.of_nat N))) as Hincl.
  { intros b Hb. apply List.in_map_iff in Hb as (i & <- & _).
    apply list_elem_of_In, elem_of_seqZ.
    pose proof (iter_range i u lin_unit_range) as [? ?].
    pose proof (power_nz i). lia. }
  assert (List.In a l) as Hin.
  { apply (@List.NoDup_length_incl _ l (seqZ 1 (Z.of_nat N)) Hnd); [|exact Hincl|].
    - unfold l. rewrite List.length_map, List.length_seq, length_seqZ. lia.
    - apply list_elem_of_In, elem_of_seqZ. destruct Ha. lia. }
  apply List.in_map_iff in Hin as (i & <- & Hi). exists i.
  apply List.in_seq in Hi. split; [lia|done].
Qed.

Lemma inverse_exists a : rng a → a ≠ 0 → ∃ b, rng b ∧ b ≠ 0 ∧ gmul a b = u.
Proof.
  intros Ha Hnz. destruct (power_surj a Ha Hnz) as (i & Hi & ->).
  exists (Nat.iter (N - i) T u). split_and!.
  - apply iter_range, lin_unit_range.
  - apply power_nz.
  - rewrite gmul_powers. replace (i + (N - i))%nat with N by lia. apply cycle.
Qed.

Lemma gmul_eq_0 a b : rng a → rng b → gmul a b = 0 → a = 0 ∨ b = 0.
Proof.
  intros Ha Hb H. destruct (decide (a = 0)) as [|Hnz]; [by left|right].
  destruct (inverse_exists a Ha Hnz) as (c & Hc & _ & Hac).
  assert (gmul c (gmul a b) = 0) as H0 by (rewrite H; apply gmul_0_r).
  rewrite gmul_assoc, (gmul_comm c a), Hac, gmul_unit_l, norm_id in H0; done.
Qed.

Lemma gmul_cancel_l a b c : rng a → a ≠ 0 → rng b → rng c → gmul a b = gmul a c → b = c.
Proof.
  intros Ha Hnz Hb Hc H. apply Z.lxor_eq.
  destruct (gmul_eq_0 a (b ⊕ c)); [done|auto with par2|..|done|done].
  rewrite gmul_xor_r, H. apply Z.lxor_nilpotent.
Qed.
End Order.
End LinOp.
