(* ===== verification/GF.v ===== *)
(** * GF(2^w) with "multiply by two" as the shift operator

    The field used by [galois.h] (w = 8, generator 0x11D) and by
    [gfmat_coeff.c]/[gf16_lookup.c] (w = 16, generator 0x1100B): w-bit words,
    exclusive or as addition, and doubling reduced by the generator. *)

From Stdlib Require Import Btauto.
From S2P Require Import Prelude LinOp.

(** [b <<= 1; if (b & Count) b ^= Generator;] *)
Definition multby_two (bits : nat) (generator : Z) (b : Z) : Z :=
  let b := Z.shiftl b 1 in
  if Z.testbit b (Z.of_nat bits) then b ⊕ generator else b.

(** Coordinates relative to the powers of two. *)
Definition bit_of (a : Z) (i : nat) : bool := Z.testbit a (Z.of_nat i).

Section Field.
Context (bits : nat) (generator : Z).

(** The generator is monic of degree [bits]. *)
Class GoodGenerator : Prop := {
  gen_bits_pos : (0 < bits)%nat;
  gen_lead : 2 ^ Z.of_nat bits ≤ generator < 2 ^ (Z.of_nat bits + 1);
}.
Context `{G : !GoodGenerator}.

Abbreviation T := (multby_two bits generator).
Abbreviation rng a := (in_range (Z.of_nat bits) a).

Lemma multby_two_xor a b : T (a ⊕ b) = T a ⊕ T b.
Proof.
  unfold multby_two. rewrite Z.shiftl_lxor, Z.lxor_spec.
  destruct (Z.testbit (Z.shiftl a 1) _), (Z.testbit (Z.shiftl b 1) _); simpl; xor_solve.
Qed.

Lemma generator_testbit_high i : Z.of_nat bits < i → Z.testbit generator i = false.
Proof.
  intros Hi. apply (testbit_above (Z.of_nat bits + 1)); [|lia].
  pose proof gen_lead. pose proof (Z.pow_nonneg 2 (Z.of_nat bits)). unfold in_range. lia.
Qed.

Lemma generator_testbit_lead : Z.testbit generator (Z.of_nat bits) = true.
Proof.
  pose proof gen_lead as H. rewrite Z.pow_add_r in H by lia.
  rewrite Z.testbit_true by lia.
  replace (generator / 2 ^ Z.of_nat bits) with 1; [done|].
  apply (Z.div_unique _ _ 1 (generator - 2 ^ Z.of_nat bits)); lia.
Qed.

Lemma multby_two_range a : rng a → rng (T a).
Proof.
  intros Ha. pose proof gen_lead. pose proof gen_bits_pos.
  assert (in_range (Z.of_nat bits + 1) (Z.shiftl a 1)) as Hs.
  { unfold in_range in *. rewrite Z.shiftl_mul_pow2, Z.pow_add_r by lia. lia. }
  assert (0 ≤ generator) by (pose proof (Z.pow_nonneg 2 (Z.of_nat bits)); lia).
  unfold multby_two. destruct (Z.testbit _ _) eqn:E.
  - apply in_range_bits; [lia|apply Z.lxor_nonneg; split; unfold in_range in Hs; lia|].
    intros i Hi. rewrite Z.lxor_spec.
    destruct (decide (i = Z.of_nat bits)) as [->|].
    + by rewrite E, generator_testbit_lead.
    + rewrite generator_testbit_high by lia.
      rewrite (testbit_above (Z.of_nat bits + 1)) by (done || lia). done.
  - apply in_range_bits; [lia|unfold in_range in Hs; lia|].
    intros i Hi. destruct (decide (i = Z.of_nat bits)) as [->|]; [done|].
    apply (testbit_above (Z.of_nat bits + 1)); (done || lia).
Qed.

Lemma multby_two_small a : rng a → a < 2 ^ (Z.of_nat bits - 1) → T a = 2 * a.
Proof.
  intros Ha Hlt. pose proof gen_bits_pos. unfold multby_two.
  rewrite Z.shiftl_mul_pow2 by lia. rewrite (testbit_above (Z.of_nat bits)).
  - lia.
  - unfold in_range in *. replace (Z.of_nat bits) with (Z.of_nat bits - 1 + 1) by lia.
    rewrite Z.pow_add_r by lia. lia.
  - lia.
Qed.

Lemma iter_multby_two_small i : (i < bits)%nat → Nat.iter i T 1 = 2 ^ Z.of_nat i.
Proof.
  induction i as [|i IH]; intros Hi; [done|].
  simpl Nat.iter. rewrite IH by lia.
  rewrite multby_two_small.
  - rewrite Nat2Z.inj_succ, Z.pow_succ_r by lia. lia.
  - split; [lia|]. apply Z.pow_lt_mono_r; lia.
  - apply Z.pow_lt_mono_r; lia.
Qed.

(** Shifts that do not overflow are plain. *)
Lemma iter_multby_two_shiftl k a :
  0 ≤ a → a * 2 ^ Z.of_nat k < 2 ^ Z.of_nat bits → Nat.iter k T a = Z.shiftl a (Z.of_nat k).
Proof.
  revert a. induction k as [|k IH]; intros a Ha Hlt; [by rewrite Z.shiftl_0_r|].
  rewrite Nat2Z.inj_succ, Z.pow_succ_r in Hlt by lia.
  rewrite Nat.iter_succ_r. rewrite multby_two_small.
  - rewrite IH by lia. rewrite !Z.shiftl_mul_pow2, Nat2Z.inj_succ, Z.pow_succ_r by lia. lia.
  - unfold in_range. nia.
  - pose proof gen_bits_pos. replace (Z.of_nat bits) with (Z.of_nat bits - 1 + 1) in Hlt by lia.
    rewrite Z.pow_add_r in Hlt by lia. nia.
Qed.

Lemma xsel_powers_testbit a n j :
  Z.testbit (xsel (bit_of a) (λ i, 2 ^ Z.of_nat i) (seq 0 n)) j
  = if decide (0 ≤ j < Z.of_nat n) then Z.testbit a j else false.
Proof.
  induction n as [|n IH].
  - simpl. rewrite Z.bits_0. by case_decide; [lia|].
  - unfold xsel. rewrite seq_S, xsum_app, Z.lxor_spec. fold (xsel (bit_of a) (λ i, 2 ^ Z.of_nat i) (seq 0 n)).
    rewrite IH. unfold xsum. cbn [foldr]. rewrite Nat.add_0_l, Z.lxor_0_r. unfold bit_of.
    destruct (decide (j = Z.of_nat n)) as [->|Hj].
    + rewrite decide_False, decide_True by lia.
      destruct (Z.testbit a _); [by rewrite Z.pow2_bits_true by lia|by rewrite Z.bits_0].
    + assert (Z.testbit (if Z.testbit a (Z.of_nat n) then 2 ^ Z.of_nat n else 0) j = false) as ->.
      { destruct (Z.testbit a (Z.of_nat n)); [by rewrite Z.pow2_bits_false by lia|by rewrite Z.bits_0]. }
      rewrite xorb_false_r. repeat case_decide; (done || lia).
Qed.

#[export] Instance multby_two_LinOp : LinOp bits T 1 bit_of.
Proof.
  split.
  - apply multby_two_xor.
  - apply multby_two_range.
  - pose proof gen_bits_pos. split; [lia|]. apply Z.pow_gt_1; lia.
  - intros. apply Z.lxor_spec.
  - intros. apply Z.bits_0.
  - intros a Ha.
    transitivity (xsel (bit_of a) (λ i, 2 ^ Z.of_nat i) (seq 0 bits)).
    { unfold xsel. apply xsum_ext. intros i Hi. apply elem_of_seq in Hi.
      rewrite iter_multby_two_small by lia. done. }
    apply Z.bits_inj'. intros j Hj. rewrite xsel_powers_testbit. case_decide; [done|].
    symmetry. apply (testbit_above (Z.of_nat bits)); [done|lia].
Qed.

(** Two functions that are linear on words and agree on the powers of two agree
    on all words. *)
Lemma linear_ext (f g : Z → Z) :
  f 0 = 0 → g 0 = 0 →
  (∀ a b, rng a → rng b → f (a ⊕ b) = f a ⊕ f b) →
  (∀ a b, rng a → rng b → g (a ⊕ b) = g a ⊕ g b) →
  (∀ i, (i < bits)%nat → f (2 ^ Z.of_nat i) = g (2 ^ Z.of_nat i)) →
  ∀ a, rng a → f a = g a.
Proof.
  intros Hf0 Hg0 Hf Hg H a Ha.
  rewrite <- (lin_coord (T := T) (u := 1) (sel := bit_of) a Ha). unfold xsel.
  assert (∀ i, i ∈ seq 0 bits → (i < bits)%nat) as Hl
    by (intros i Hi; apply elem_of_seq in Hi; lia).
  induction (seq 0 bits) as [|i l IH]; simpl; [by rewrite Hf0, Hg0|].
  assert (rng (if bit_of a i then Nat.iter i T 1 else 0)).
  { destruct (bit_of a i); [|apply in_range_0; lia].
    apply (iter_range bits T 1 bit_of), (lin_unit_range (T := T) (sel := bit_of)). }
  assert (rng (xsum (λ i, if bit_of a i then Nat.iter i T 1 else 0) l)).
  { apply xsum_in_range; [lia|]. intros k _. destruct (bit_of a k); [|apply in_range_0; lia].
    apply (iter_range bits T 1 bit_of), (lin_unit_range (T := T) (sel := bit_of)). }
  rewrite Hf, Hg by done. rewrite IH by (intros; apply Hl; set_solver). f_equal.
  destruct (bit_of a i); [|by rewrite Hf0, Hg0].
  rewrite iter_multby_two_small by (apply Hl; set_solver). apply H, Hl. set_solver.
Qed.

(** The reference product of the field. *)
Definition gf_mul (a b : Z) : Z := gmul bits T 1 bit_of a b.

Definition gf_pow (a : Z) (n : nat) : Z := gpow bits T 1 bit_of a n.

(** [x^n]. *)
Definition alpha (n : nat) : Z := Nat.iter n T 1.
End Field.

(** ** Checking that x generates the multiplicative group

    [order_check] walks the powers of x once; [xpow_walk n] visits
    [x^1 .. x^n] and reports whether 1 was met. *)

Definition walk_step (bits : nat) (generator : Z) (st : Z * bool) : Z * bool :=
  let v := multby_two bits generator (fst st) in (v, snd st && negb (v =? 1)).

Definition order_check (bits : nat) (generator : Z) (n : N) : bool :=
  let '(v, ok) := N.iter n (walk_step bits generator) (1, true) in
  ok && (multby_two bits generator v =? 1).

Lemma walk_spec bits generator n :
  let st := Nat.iter n (walk_step bits generator) (1, true) in
  fst st = alpha bits generator n ∧
  (snd st = true → ∀ d, (0 < d ≤ n)%nat → alpha bits generator d ≠ 1).
Proof.
  unfold alpha. induction n as [|n [IH1 IH2]]; simpl; [split; [done|intros; lia]|].
  rewrite IH1. split; [done|]. intros [Hok Hv]%andb_prop d Hd.
  destruct (decide (d = S n)) as [->|]; [|apply IH2; [done|lia]].
  by apply negb_true_iff, Z.eqb_neq in Hv.
Qed.

Lemma order_check_spec bits generator n :
  order_check bits generator (N.of_nat n) = true →
  alpha bits generator (S n) = 1 ∧
  ∀ d, (0 < d < S n)%nat → alpha bits generator d ≠ 1.
Proof.
  unfold order_check. rewrite N2Nat.inj_iter, Nat2N.id.
  pose proof (walk_spec bits generator n) as [H1 H2].
  destruct (Nat.iter n (walk_step bits generator) (1, true)) as [v ok]. simpl in *.
  intros [-> Hv]%andb_prop. apply Z.eqb_eq in Hv. split.
  - unfold alpha. simpl. unfold alpha in H1. by rewrite <- H1.
  - intros d Hd. apply H2; [done|lia].
Qed.

(** ** The fields: all laws, without side hypotheses *)

Definition group_order (bits : nat) : nat := Z.to_nat (2 ^ Z.of_nat bits - 1).
Arguments group_order : simpl never.

Class PrimitiveField (bits : nat) (generator : Z) : Prop := {
  pf_generator :: GoodGenerator bits generator;
  pf_check : order_check bits generator (Z.to_N (2 ^ Z.of_nat bits - 2)) = true;
}.

Section FieldLaws.
Context (bits : nat) (generator : Z) `{F : !PrimitiveField bits generator}.

Abbreviation T := (multby_two bits generator).
Abbreviation mul := (gf_mul bits generator).
Abbreviation rng a := (in_range (Z.of_nat bits) a).
Abbreviation x := (alpha bits generator).
Abbreviation N := (group_order bits).

Lemma pow2_bits_ge_2 : 2 ≤ 2 ^ Z.of_nat bits.
Proof.
  pose proof (gen_bits_pos bits generator).
  change 2 with (2 ^ 1) at 1. apply Z.pow_le_mono_r; lia.
Qed.

Lemma group_order_Z : Z.of_nat N = 2 ^ Z.of_nat bits - 1.
Proof. unfold group_order. pose proof pow2_bits_ge_2. lia. Qed.

Lemma group_order_pos : (0 < N)%nat.
Proof. pose proof group_order_Z. pose proof pow2_bits_ge_2. lia. Qed.

Lemma alpha_order : x N = 1 ∧ ∀ d, (0 < d < N)%nat → x d ≠ 1.
Proof.
  pose proof group_order_Z. pose proof pow2_bits_ge_2.
  destruct (order_check_spec bits generator (Nat.pred N)) as [H1 H2].
  - rewrite <- pf_check. f_equal. lia.
  - rewrite Nat.succ_pred in H1, H2 by lia. done.
Qed.

Lemma alpha_cycle : x N = 1.
Proof. apply alpha_order. Qed.

Lemma alpha_range n : rng (x n).
Proof. apply (iter_range _ _ 1 bit_of). apply (lin_unit_range (sel := bit_of) (T := T)). Qed.

Ltac order_side := first [done | by apply group_order_pos | by apply group_order_Z | by apply alpha_order].

Lemma alpha_nz n : x n ≠ 0.
Proof.
  apply (power_nz bits T 1 bit_of N); order_side.
Qed.

Lemma alpha_mod n : x n = x (n mod N).
Proof. apply (iter_mod bits T 1 N); order_side. Qed.

Lemma alpha_add n m : x (n + m) = mul (x n) (x m).
Proof. symmetry. apply (gmul_powers bits T 1 bit_of). Qed.

Lemma alpha_inj i j : (i < N)%nat → (j < N)%nat → x i = x j → i = j.
Proof. apply (power_inj bits T 1 N); order_side. Qed.

Lemma alpha_surj a : rng a → a ≠ 0 → ∃ i, (i < N)%nat ∧ a = x i.
Proof.
  apply (power_surj bits T 1 bit_of N); order_side.
Qed.

Lemma gf_mul_range a b : rng (mul a b).
Proof. apply (gmul_range bits T 1 bit_of). Qed.
Lemma gf_mul_comm a b : mul a b = mul b a.
Proof. apply (gmul_comm bits T 1 bit_of). Qed.
Lemma gf_mul_assoc a b c : mul a (mul b c) = mul (mul a b) c.
Proof. apply (gmul_assoc bits T 1 bit_of). Qed.
Lemma gf_mul_xor_l a b c : mul (a ⊕ b) c = mul a c ⊕ mul b c.
Proof. apply (gmul_xor_l bits T 1 bit_of). Qed.
Lemma gf_mul_xor_r a b c : mul a (b ⊕ c) = mul a b ⊕ mul a c.
Proof. apply (gmul_xor_r bits T 1 bit_of). Qed.
Lemma gf_mul_0_l a : mul 0 a = 0.
Proof. apply (gmul_0_l bits T 1 bit_of). Qed.
Lemma gf_mul_0_r a : mul a 0 = 0.
Proof. apply (gmul_0_r bits T 1 bit_of). Qed.
Lemma gf_mul_1_l a : rng a → mul 1 a = a.
Proof.
  intros. unfold gf_mul. rewrite (gmul_unit_l bits T 1 bit_of).
  by apply (norm_id bits T 1 bit_of).
Qed.
Lemma gf_mul_1_r a : rng a → mul a 1 = a.
Proof. rewrite gf_mul_comm. apply gf_mul_1_l. Qed.
Lemma gf_mul_xsum_l {A} (f : A → Z) l b : mul (xsum f l) b = xsum (λ i, mul (f i) b) l.
Proof. apply (gmul_xsum_l bits T 1 bit_of). Qed.
Lemma gf_mul_xsum_r {A} (f : A → Z) l b : mul b (xsum f l) = xsum (λ i, mul b (f i)) l.
Proof. apply (gmul_xsum_r bits T 1 bit_of). Qed.
Lemma gf_inverse_exists a : rng a → a ≠ 0 → ∃ b, rng b ∧ b ≠ 0 ∧ mul a b = 1.
Proof.
  apply (inverse_exists bits T 1 bit_of N); order_side.
Qed.

Lemma gf_mul_eq_0 a b : rng a → rng b → mul a b = 0 → a = 0 ∨ b = 0.
Proof.
  apply (gmul_eq_0 bits T 1 bit_of N); order_side.
Qed.

Lemma gf_mul_cancel_l a b c : rng a → a ≠ 0 → rng b → rng c → mul a b = mul a c → b = c.
Proof.
  apply (gmul_cancel_l bits T 1 bit_of N); order_side.
Qed.

Lemma gf_pow_range a n : rng (gf_pow bits generator a n).
Proof. apply (gpow_range bits T 1 bit_of). Qed.

Lemma gf_pow_0 a : gf_pow bits generator a 0 = 1.
Proof. done. Qed.

Lemma gf_pow_S a n : gf_pow bits generator a (S n) = mul a (gf_pow bits generator a n).
Proof. done. Qed.

Lemma gf_pow_1 a : rng a → gf_pow bits generator a 1 = a.
Proof. intros. rewrite gf_pow_S, gf_pow_0. by apply gf_mul_1_r. Qed.

Lemma gf_pow_alpha k n : gf_pow bits generator (x k) n = x (k * n).
Proof. apply (gpow_power bits T 1 bit_of). Qed.
End FieldLaws.

#[export] Instance galois8_field : PrimitiveField 8 0x11D.
Proof. split; [split; [lia|vm_compute; intuition discriminate]|vm_compute; reflexivity]. Qed.

#[export] Instance galois16_field : PrimitiveField 16 0x1100B.
Proof. split; [split; [lia|vm_compute; intuition discriminate]|vm_compute; reflexivity]. Qed.
