(* ===== verification/Galois.v ===== *)
(** * Galois.v: [GaloisTable], [Galois] and [GaloisLongMultiplyTable] of
    include/par2/galois.h

    The templates are modelled with their parameters [bits] and [generator];
    [ValueType] is the unsigned type of width [bits] (as for [Galois8], the only
    instantiation in the repository).  Table reads return [None] when they fall
    outside what the constructor wrote. *)

From S2P Require Import Prelude LinOp GF.

Record GaloisTable := { log : array; antilog : array }.

Section Galois.
Context (bits : nat) (generator : Z).

Definition Count : Z := Z.shiftl 1 (Z.of_nat bits).
Definition Limit : Z := Count - 1.

(** [(ValueType) v] *)
Definition ValueType (v : Z) : Z := wrap (Z.of_nat bits) v.

(** One iteration of the constructor's loop; the state is [b] and the tables. *)
Definition GaloisTable_step (l : Z) (st : Z * GaloisTable) : Z * GaloisTable :=
  let '(b, t) := st in
  (multby_two bits generator b,
   {| log := <[b := ValueType l]> (log t); antilog := <[l := ValueType b]> (antilog t) |}).

(** [GaloisTable::GaloisTable] *)
Definition mkGaloisTable : GaloisTable :=
  let '(_, t) := for_loop 0 Limit GaloisTable_step (1, {| log := ∅; antilog := ∅ |}) in
  {| log := <[0 := ValueType Limit]> (log t); antilog := <[Limit := 0]> (antilog t) |}.

Section Operators.
Context (table : GaloisTable).

(** [operator +], [operator -] (and their assignment forms) *)
Definition add (value right : Z) : Z := value ⊕ right.
Definition sub (value right : Z) : Z := value ⊕ right.

(** [operator *], [operator *=] *)
Definition mul (value right : Z) : option Z :=
  if (value =? 0) || (right =? 0) then Some 0 else
  l1 ← log table !! value;
  l2 ← log table !! right;
  let sum := l1 + l2 in
  if Limit <=? sum then antilog table !! (sum - Limit) else antilog table !! sum.

(** [operator /]: division by zero yields 0. *)
Definition div (value right : Z) : option Z :=
  if value =? 0 then Some 0 else
  if right =? 0 then Some 0 else
  l1 ← log table !! value;
  l2 ← log table !! right;
  let sum := l1 - l2 in
  if sum <? 0 then antilog table !! (sum + Limit) else antilog table !! sum.

(** [operator /=]: division by zero leaves the value unchanged. *)
Definition div_assign (value right : Z) : option Z :=
  if value =? 0 then Some value else
  if right =? 0 then Some value else
  l1 ← log table !! value;
  l2 ← log table !! right;
  let sum := l1 - l2 in
  if sum <? 0 then antilog table !! (sum + Limit) else antilog table !! sum.

(** [pow], [operator ^]: the exponent product is an [unsigned int]. *)
Definition pow (value right : Z) : option Z :=
  if right =? 0 then Some 1 else
  if value =? 0 then Some 0 else
  l1 ← log table !! value;
  let sum := wrap 32 (l1 * right) in
  let sum := wrap 32 (Z.shiftr sum (Z.of_nat bits) + Z.land sum Limit) in
  if Limit <=? sum then antilog table !! (sum - Limit) else antilog table !! sum.

(** [Log], [ALog] *)
Definition Log (value : Z) : option Z := log table !! value.
Definition ALog (value : Z) : option Z := antilog table !! value.
End Operators.

(** *** [GaloisLongMultiplyTable]: products of byte-shifted bytes *)

Definition Bytes : Z := Z.shiftr (Z.of_nat bits + 7) 3.

(** The innermost assignment [*table++ = G(ii << (8*i)) * G(jj << (8*j));] *)
Definition long_entry (t : GaloisTable) (i j ii jj : Z) (st : Z * array) : option (Z * array) :=
  let '(k, tables) := st in
  v ← mul t (ValueType (Z.shiftl ii (8 * i))) (ValueType (Z.shiftl jj (8 * j)));
  Some (k + 1, <[k := v]> tables).

(** [GaloisLongMultiplyTable::GaloisLongMultiplyTable] *)
Definition GaloisLongMultiplyTable (t : GaloisTable) : option array :=
  snd <$> for_loopM 0 Bytes (λ i,
    for_loopM i Bytes (λ j,
      for_loopM 0 256 (λ ii,
        for_loopM 0 256 (λ jj, long_entry t i j ii jj)))) (0, ∅).
End Galois.

(** ** Correctness *)

Section GaloisCorrect.
Context (bits : nat) (generator : Z) `{F : !PrimitiveField bits generator}.

Abbreviation rng a := (in_range (Z.of_nat bits) a).
Abbreviation x i := (alpha bits generator (Z.to_nat i)).
Abbreviation lim := (Limit bits).

Lemma Limit_eq : lim = 2 ^ Z.of_nat bits - 1.
Proof. unfold Limit, Count. rewrite Z.shiftl_mul_pow2 by lia. lia. Qed.

Lemma Limit_order : lim = Z.of_nat (group_order bits).
Proof. rewrite Limit_eq, (group_order_Z bits generator). done. Qed.

Lemma Limit_pos : 1 ≤ lim.
Proof. rewrite Limit_eq. pose proof (pow2_bits_ge_2 bits generator). lia. Qed.

Lemma ValueType_id v : rng v → ValueType bits v = v.
Proof. apply wrap_small. Qed.

(** What the constructor establishes. *)
Record table_ok (t : GaloisTable) : Prop := {
  antilog_ok i : 0 ≤ i < lim → antilog t !! i = Some (x i);
  log_ok i : 0 ≤ i < lim → log t !! (x i) = Some i;
  log_0 : log t !! 0 = Some lim;
  antilog_limit : antilog t !! lim = Some 0;
}.

Lemma x_range i : rng (x i).
Proof. apply (alpha_range bits generator). Qed.
Lemma x_nz i : x i ≠ 0.
Proof. apply (alpha_nz bits generator). Qed.
Lemma x_inj i j : 0 ≤ i < lim → 0 ≤ j < lim → x i = x j → i = j.
Proof.
  rewrite Limit_order. intros Hi Hj H.
  apply (alpha_inj bits generator) in H; lia.
Qed.
Lemma x_surj a : rng a → a ≠ 0 → ∃ i, 0 ≤ i < lim ∧ a = x i.
Proof.
  intros Ha Hnz. destruct (alpha_surj bits generator a Ha Hnz) as (i & Hi & ->).
  exists (Z.of_nat i). rewrite Limit_order, Nat2Z.id. split; [lia|done].
Qed.
Lemma x_add i j : 0 ≤ i → 0 ≤ j → gf_mul bits generator (x i) (x j) = x (i + j).
Proof. intros. by rewrite <- (alpha_add bits generator), Z2Nat.inj_add. Qed.
Lemma x_mod i : 0 ≤ i → x i = x (i mod lim).
Proof.
  intros. rewrite (alpha_mod bits generator), Limit_order, Z2Nat.inj_mod by lia.
  by rewrite Nat2Z.id.
Qed.

Lemma lim_range i : 0 ≤ i ≤ lim → rng i.
Proof. rewrite Limit_eq. unfold in_range. lia. Qed.

Lemma mkGaloisTable_ok : table_ok (mkGaloisTable bits generator).
Proof.
  unfold mkGaloisTable. pose proof Limit_pos.
  set (init := (1, _)).
  pose proof (for_loop_ind (λ l st,
    st.1 = x l ∧ ∀ i, 0 ≤ i < l →
      antilog st.2 !! i = Some (x i) ∧ log st.2 !! (x i) = Some i)
    0 lim (GaloisTable_step bits generator) init) as Hind.
  destruct (for_loop _ _ _ init) as [b t].
  destruct Hind as [_ Hinv]; [lia|split; [done|intros; lia]| |].
  { intros l [b' t'] Hl [Hb IH]. simpl in *. subst b'. split.
    - unfold alpha. rewrite Z2Nat.inj_add by lia. rewrite Nat.add_comm. done.
    - intros i Hi. rewrite !ValueType_id by (apply x_range || apply lim_range; lia).
      destruct (decide (i = l)) as [->|Hne].
      + by rewrite !lookup_insert_eq.
      + rewrite !lookup_insert_ne by (done || intros Heq; apply x_inj in Heq; lia).
        apply IH. lia. }
  split; simpl.
  - intros i Hi. rewrite lookup_insert_ne by lia. by apply Hinv.
  - intros i Hi. rewrite lookup_insert_ne by (symmetry; apply x_nz). by apply Hinv.
  - rewrite lookup_insert_eq, ValueType_id; [done|]. apply lim_range. lia.
  - by rewrite lookup_insert_eq.
Qed.

Section Ops.
Context (t : GaloisTable) (Ht : table_ok t).

(** Reading the anti-logarithm of a sum reduced once, as the operators do. *)
Lemma antilog_reduced sum : 0 ≤ sum < 2 * lim →
  (if lim <=? sum then antilog t !! (sum - lim) else antilog t !! sum) = Some (x sum).
Proof.
  intros Hs. destruct (Z.leb_spec lim sum).
  - rewrite (antilog_ok _ Ht) by lia. rewrite (x_mod sum) by lia.
    do 3 f_equal. rewrite <- (Z.mod_small (sum - lim) lim) by lia.
    rewrite <- (Z.mod_add (sum - lim) 1 lim) by lia. f_equal. lia.
  - by rewrite (antilog_ok _ Ht) by lia.
Qed.

Lemma mul_ok a b : rng a → rng b → mul bits t a b = Some (gf_mul bits generator a b).
Proof.
  intros Ha Hb. unfold mul.
  destruct (Z.eqb_spec a 0) as [->|Ha0]; simpl.
  { by rewrite (gf_mul_0_l bits generator). }
  destruct (Z.eqb_spec b 0) as [->|Hb0]; simpl.
  { by rewrite (gf_mul_0_r bits generator). }
  destruct (x_surj a Ha Ha0) as (i & Hi & ->), (x_surj b Hb Hb0) as (j & Hj & ->).
  rewrite !(log_ok _ Ht) by done. simpl. rewrite antilog_reduced by lia.
  by rewrite x_add by lia.
Qed.

Lemma div_ok a b : rng a → rng b → b ≠ 0 →
  ∃ q, div bits t a b = Some q ∧ rng q ∧ gf_mul bits generator q b = a.
Proof.
  intros Ha Hb Hb0. unfold div.
  destruct (Z.eqb_spec a 0) as [->|Ha0].
  { exists 0. split_and!; [done|apply in_range_0; lia|apply (gf_mul_0_l bits generator)]. }
  destruct (Z.eqb_spec b 0) as [|_]; [done|].
  destruct (x_surj a Ha Ha0) as (i & Hi & ->), (x_surj b Hb Hb0) as (j & Hj & ->).
  rewrite !(log_ok _ Ht) by done. simpl. destruct (Z.ltb_spec (i - j) 0).
  - rewrite (antilog_ok _ Ht) by lia. eexists. split_and!; [done|apply x_range|].
    rewrite x_add by lia. rewrite (x_mod (i - j + lim + j)), (x_mod i) by lia.
    do 2 f_equal. rewrite <- (Z.mod_add i 1 lim) by lia. f_equal. lia.
  - rewrite (antilog_ok _ Ht) by lia. eexists. split_and!; [done|apply x_range|].
    rewrite x_add by lia. do 2 f_equal. lia.
Qed.

Lemma div_assign_div a b : b ≠ 0 → div_assign bits t a b = div bits t a b.
Proof.
  intros Hb. unfold div_assign, div. destruct (Z.eqb_spec a 0) as [->|]; [done|].
  by destruct (Z.eqb_spec b 0).
Qed.

(** Folding the high half onto the low half keeps the residue modulo 2^bits - 1. *)
Lemma fold_high_mod s : 0 ≤ s →
  (Z.shiftr s (Z.of_nat bits) + Z.land s lim) mod lim = s mod lim.
Proof.
  intros Hs. pose proof Limit_pos. rewrite Limit_eq in *.
  rewrite Z.shiftr_div_pow2 by lia.
  replace (2 ^ Z.of_nat bits - 1) with (Z.ones (Z.of_nat bits)) at 1
    by (rewrite Z.ones_equiv; lia).
  rewrite Z.land_ones by lia.
  rewrite (Z.div_mod s (2 ^ Z.of_nat bits)) at 3 by lia.
  rewrite <- (Z.mod_add (s / _ + _) (s / 2 ^ Z.of_nat bits)) by lia.
  f_equal. ring.
Qed.

Lemma fold_high_bound s : 0 ≤ s ≤ (lim - 1) * 2 ^ Z.of_nat bits →
  0 ≤ Z.shiftr s (Z.of_nat bits) + Z.land s lim < 2 * lim.
Proof.
  intros Hs. pose proof Limit_pos. rewrite Z.shiftr_div_pow2 by lia.
  assert (s / 2 ^ Z.of_nat bits ≤ lim - 1).
  { apply Z.div_le_upper_bound; [apply Z.pow_pos_nonneg; lia|]. lia. }
  assert (0 ≤ s / 2 ^ Z.of_nat bits) by (apply Z.div_pos; [lia|apply Z.pow_pos_nonneg; lia]).
  assert (rng (Z.land s lim)) as Hl.
  { apply in_range_land; [lia|]. apply lim_range. lia. }
  unfold in_range in Hl. rewrite Limit_eq in *. lia.
Qed.

Lemma gf_pow_zero_base n : (0 < n)%nat → gf_pow bits generator 0 n = 0.
Proof. destruct n; [lia|]. intros _. apply (gf_mul_0_l bits generator). Qed.

Lemma pow_ok a right : (bits ≤ 16)%nat → rng a → 0 ≤ right ≤ 2 ^ Z.of_nat bits →
  pow bits t a right = Some (gf_pow bits generator a (Z.to_nat right)).
Proof.
  intros Hbits Ha Hr. unfold pow. pose proof Limit_pos.
  assert (2 ^ Z.of_nat bits ≤ 2 ^ 16) by (apply Z.pow_le_mono_r; lia).
  destruct (Z.eqb_spec right 0) as [->|Hr0]; [done|].
  destruct (Z.eqb_spec a 0) as [->|Ha0]; [by rewrite gf_pow_zero_base by lia|].
  destruct (x_surj a Ha Ha0) as (i & Hi & ->).
  rewrite (log_ok _ Ht) by done. simpl.
  assert (0 ≤ i * right ≤ (lim - 1) * 2 ^ Z.of_nat bits) as Hb by nia.
  pose proof Limit_eq as Hlim.
  rewrite (wrap_small 32 (i * right)) by (unfold in_range; change (2 ^ 32) with (2^16*2^16); nia).
  pose proof (fold_high_bound (i * right) Hb) as Hf.
  rewrite wrap_small by (unfold in_range; change (2 ^ 32) with (2^16*2^16); nia).
  rewrite antilog_reduced by done. f_equal.
  rewrite (gf_pow_alpha bits generator), <- Z2Nat.inj_mul by lia.
  rewrite (x_mod (_ + _)), fold_high_mod, <- (x_mod (i * right)) by lia. done.
Qed.
End Ops.
End GaloisCorrect.

(** ** [Galois8] *)

Definition galois8_table : GaloisTable := mkGaloisTable 8 0x11D.
Abbreviation mul8 := (gf_mul 8 0x11D).
Abbreviation pow8 := (gf_pow 8 0x11D).

Lemma galois8_table_ok : table_ok 8 0x11D galois8_table.
Proof. apply (mkGaloisTable_ok 8 0x11D). Qed.

(** The long multiplication table after [n] of its entries were written. *)
Definition long_rows (n : Z) (tables : array) : Prop :=
  ∀ ii jj, 0 ≤ ii < 256 → 0 ≤ jj < 256 → ii * 256 + jj < n →
    tables !! (ii * 256 + jj) = Some (mul8 ii jj).

Lemma galois8_byte_range a : 0 ≤ a < 256 → in_range (Z.of_nat 8) a.
Proof. done. Qed.

Lemma long_entry_ok ii jj tables :
  0 ≤ ii < 256 → 0 ≤ jj < 256 → long_rows (ii * 256 + jj) tables →
  ∃ tables', long_entry 8 galois8_table 0 0 ii jj (ii * 256 + jj, tables)
    = Some (ii * 256 + (jj + 1), tables') ∧ long_rows (ii * 256 + (jj + 1)) tables'.
Proof.
  intros Hii Hjj Hrows. unfold long_entry. rewrite !Z.shiftl_0_r.
  rewrite !ValueType_id by (by apply galois8_byte_range).
  rewrite (mul_ok 8 0x11D) by (apply galois8_table_ok || by apply galois8_byte_range).
  simpl. replace (ii * 256 + jj + 1) with (ii * 256 + (jj + 1)) by lia.
  eexists. split; [done|].
  intros i' j' Hi' Hj' Hlt. destruct (decide (i' * 256 + j' = ii * 256 + jj)) as [E|].
  - assert (i' = ii ∧ j' = jj) as [-> ->] by lia. by rewrite lookup_insert_eq.
  - rewrite lookup_insert_ne by done. apply Hrows; lia.
Qed.

Lemma GaloisLongMultiplyTable_ok :
  ∃ tables, GaloisLongMultiplyTable 8 galois8_table = Some tables ∧ long_rows 65536 tables.
Proof.
  unfold GaloisLongMultiplyTable. change (Bytes 8) with 1.
  destruct (for_loopM_ind (λ i st, (i = 0 ∧ st = (0, ∅)) ∨ (i = 1 ∧ long_rows 65536 st.2))
    0 1 (λ i, for_loopM i 1 (λ j,
      for_loopM 0 256 (λ ii, for_loopM 0 256 (λ jj, long_entry 8 galois8_table i j ii jj))))
    (0, ∅)) as (st & -> & Hst); [lia|by left| |].
  2: { destruct Hst as [[]|[_ H]]; [lia|]. eexists. by split. }
  intros i st Hi [[-> ->]|[-> _]]; [|lia].
  unfold for_loopM at 1. rewrite for_loop_cons by lia. rewrite for_loop_nil by lia.
  cbn [mbind option_bind].
  destruct (for_loopM_ind (λ ii st, st.1 = ii * 256 ∧ long_rows (ii * 256) st.2)
    0 256 (λ ii, for_loopM 0 256 (λ jj, long_entry 8 galois8_table 0 0 ii jj)) (0, ∅))
    as (st & -> & _ & Hst); [lia|split; [done|intros ?; lia]| |eauto].
  intros ii [k tb] Hii [Hk Hrows]. simpl in Hk. subst k.
  destruct (for_loopM_ind (λ jj st, st.1 = ii * 256 + jj ∧ long_rows (ii * 256 + jj) st.2)
    0 256 (λ jj, long_entry 8 galois8_table 0 0 ii jj) (ii * 256, tb))
    as (st & -> & Hk & Hst); [lia|by rewrite !Z.add_0_r| |].
  - intros jj [k tb'] Hjj [Hk Hr]. simpl in Hk. subst k.
    destruct (long_entry_ok ii jj tb' Hii Hjj Hr) as (tb'' & -> & H). eauto.
  - exists st. split; [done|]. by replace ((ii + 1) * 256) with (ii * 256 + 256) by lia.
Qed.

(** ** Theorems *)

(** C17: The operators of [Galois<8,0x11D>], running on the log/antilog tables built by
    the [GaloisTable] constructor, never read outside the tables and compute the
    operations of GF(2^8): [*] is the field product, [/] the quotient, [/=] agrees with
    [/] for a nonzero divisor, and [pow] is exponentiation for every exponent up to 256. *)
Theorem galois8_operators_correct (a b : Z) :
  in_range 8 a → in_range 8 b →
  mul 8 galois8_table a b = Some (gf_mul 8 0x11D a b) ∧
  (b ≠ 0 → ∃ q, div 8 galois8_table a b = Some q ∧ div_assign 8 galois8_table a b = Some q ∧
     in_range 8 q ∧ gf_mul 8 0x11D q b = a) ∧
  (∀ e, 0 ≤ e ≤ 256 → pow 8 galois8_table a e = Some (gf_pow 8 0x11D a (Z.to_nat e))).
Proof.
  intros Ha Hb. split_and!.
  - by apply (mul_ok 8 0x11D galois8_table galois8_table_ok).
  - intros Hb0. destruct (div_ok 8 0x11D galois8_table galois8_table_ok a b Ha Hb Hb0) as (q & Hq & Hr).
    exists q. by rewrite div_assign_div, Hq.
  - intros e He. by apply (pow_ok 8 0x11D galois8_table galois8_table_ok); [lia|..].
Qed.

Lemma galois8_operators_correct_witness :
  mul 8 galois8_table 0x53 0xCA = Some (gf_mul 8 0x11D 0x53 0xCA).
Proof.
  destruct (galois8_operators_correct 0x53 0xCA) as [H _]; [by unfold in_range..|]. exact H.
Defined.

(** The constructor of [GaloisLongMultiplyTable<8,0x11D>] succeeds and entry
    [256 * ii + jj] of its table is the field product of the bytes [ii] and [jj]. *)
Theorem long_multiply_table_correct :
  ∃ tables, GaloisLongMultiplyTable 8 galois8_table = Some tables ∧
    ∀ ii jj, 0 ≤ ii < 256 → 0 ≤ jj < 256 → tables !! (ii * 256 + jj) = Some (gf_mul 8 0x11D ii jj).
Proof.
  destruct GaloisLongMultiplyTable_ok as (tables & Ht & Hrows). exists tables. split; [done|].
  intros ii jj Hi Hj. apply Hrows; lia.
Qed.
