(* ===== verification/InputCols.v ===== *)
(** * InputCols.v: available and missing input blocks

    Both matrices (gfmat_inv.cpp, reedsolomon.h) number the available inputs first and
    the missing ones last, each in increasing order. *)

From S2P Require Import Prelude.

(** ** Columns *)

Section Columns.
Context (inputValid : list bool).

Definition is_valid (i : Z) : bool := default false (inputValid !! Z.to_nat i).

Definition inputs_with (b : bool) (n : Z) : list Z := filter (λ i, is_valid i = b) (seqZ 0 n).

Abbreviation inputs := (Z.of_nat (length inputValid)).
Abbreviation valid_total := (Z.of_nat (length (inputs_with true inputs))).

(** The input block each column stands for. *)
Definition column_inputs : list Z := inputs_with true inputs ++ inputs_with false inputs.

(** The column of an input block, as [Construct] counts it. *)
Definition col_of (i : Z) : Z :=
  if is_valid i then Z.of_nat (length (inputs_with true i))
  else valid_total + Z.of_nat (length (inputs_with false i)).

Lemma inputs_with_succ b i : 0 ≤ i →
  inputs_with b (i + 1) = inputs_with b i ++ (if decide (is_valid i = b) then [i] else []).
Proof.
  intros Hi. unfold inputs_with. rewrite seqZ_app by lia. rewrite filter_app. f_equal.
Qed.

Lemma inputs_with_lookup b i n : 0 ≤ i < n → is_valid i = b →
  inputs_with b n !! length (inputs_with b i) = Some i.
Proof.
  intros Hi Hb. unfold inputs_with. replace n with (i + (n - i)) by lia. rewrite seqZ_app by lia.
  rewrite filter_app, Z.add_0_l, lookup_app_r, Nat.sub_diag by lia.
  rewrite seqZ_cons, filter_cons, decide_True by (done || lia). done.
Qed.

Lemma column_inputs_perm : column_inputs ≡ₚ seqZ 0 inputs.
Proof.
  unfold column_inputs, inputs_with. induction (seqZ 0 inputs) as [|i l IH]; [done|].
  rewrite !filter_cons. destruct (is_valid i) eqn:E.
  - rewrite decide_True, decide_False by congruence. simpl. by rewrite IH.
  - rewrite decide_False, decide_True by congruence. rewrite <- Permutation_middle. by rewrite IH.
Qed.

Lemma length_column_inputs : Z.of_nat (length column_inputs) = inputs.
Proof. rewrite (Permutation_length column_inputs_perm), length_seqZ. lia. Qed.

Lemma col_of_lookup i : 0 ≤ i < inputs → column_inputs !! Z.to_nat (col_of i) = Some i.
Proof.
  intros Hi. unfold column_inputs, col_of. destruct (is_valid i) eqn:E.
  - rewrite Nat2Z.id. apply lookup_app_l_Some. by apply inputs_with_lookup.
  - rewrite <- Nat2Z.inj_add, Nat2Z.id, lookup_app_r by lia.
    rewrite Nat.add_comm, Nat.add_sub. by apply inputs_with_lookup.
Qed.

Lemma col_of_bounds i : 0 ≤ i < inputs → 0 ≤ col_of i < inputs.
Proof.
  intros Hi. pose proof (col_of_lookup i Hi) as H%lookup_lt_Some.
  pose proof length_column_inputs. assert (0 ≤ col_of i); [|lia].
  unfold col_of. case_match; lia.
Qed.

Lemma col_of_inj i j : 0 ≤ i < inputs → 0 ≤ j < inputs → col_of i = col_of j → i = j.
Proof.
  intros Hi Hj H. pose proof (col_of_lookup i Hi) as H1. pose proof (col_of_lookup j Hj) as H2.
  rewrite H in H1. congruence.
Qed.

(** Every column is the column of the input it stands for. *)
Lemma col_of_column_inputs c i : 0 ≤ c → column_inputs !! Z.to_nat c = Some i →
  0 ≤ i < inputs ∧ col_of i = c.
Proof.
  intros Hc H. assert (0 ≤ i < inputs) as Hi.
  { apply list_elem_of_lookup_2 in H. rewrite column_inputs_perm, elem_of_seqZ in H. lia. }
  split; [done|]. pose proof (col_of_lookup i Hi) as H2. pose proof (col_of_bounds i Hi).
  assert (NoDup column_inputs) as Hnd by (rewrite column_inputs_perm; apply NoDup_seqZ).
  pose proof (NoDup_lookup _ _ _ _ Hnd H H2). lia.
Qed.
End Columns.
