(* ===== verification/GfCoeff.v ===== *)
(** * GfCoeff.v: parpar/gf16/gfmat_coeff.c

    The tables behind the recovery coefficients of GF(2^16) with polynomial
    0x1100B: the logarithm of every input constant, a compressed exponential
    table, and the reciprocals.  The three [malloc]ed tables are arrays that
    start unmapped. *)

From S2P Require Import Prelude LinOp GF.

Abbreviation poly16 := 0x1100B.
Abbreviation mul16 := (gf_mul 16 poly16).
Abbreviation pow16 := (gf_pow 16 poly16).
Abbreviation u16 a := (in_range 16 a).

(** [n <<= 1; if(n > 65535) n ^= 0x1100B;] *)
Definition gf_double (n : Z) : Z :=
  let n := Z.shiftl n 1 in
  if 65535 <? n then n ⊕ 0x1100B else n.

(** [(int8_t) v] *)
Definition to_int8 (v : Z) : Z := wrap 8 (v + 128) - 128.

Record gfmat_tables := {
  input_diff : array;
  gf_exp : array;
  gf16_recip : array;
}.

(** The variables of the first loop of [gfmat_init]. *)
Record init_state := {
  st_exp : Z;
  st_n : Z;
  st_tables : gfmat_tables;
}.

(** [!(exp%3) || !(exp%5) || !(exp%17) || !(exp%257)] *)
Definition not_coprime (exp : Z) : bool :=
  (exp mod 3 =? 0) || (exp mod 5 =? 0) || (exp mod 17 =? 0) || (exp mod 257 =? 0).

(** The body of the [do ... while] loop. *)
Definition init_step (st : init_state) : init_state :=
  let t := st_tables st in
  {| st_exp := st_exp st + 1;
     st_n := gf_double (st_n st);
     st_tables :=
       {| input_diff := input_diff t;
          gf_exp := if Z.land (st_exp st) 7 =? 0
                    then <[Z.shiftr (st_exp st) 3 := wrap 16 (st_n st)]> (gf_exp t)
                    else gf_exp t;
          gf16_recip := <[st_n st := wrap 16 (st_exp st)]> (gf16_recip t) |} |}.

(** The [do ... while] loop; [fuel] bounds the length of a run of exponents
    divisible by 3, 5, 17 or 257. *)
Fixpoint init_skip (fuel : nat) (st : init_state) : option init_state :=
  let st := init_step st in
  if not_coprime (st_exp st) then
    match fuel with O => None | S fuel => init_skip fuel st end
  else Some st.

Definition skip_fuel : nat := 16.

(** One iteration of the loop over input blocks. *)
Definition init_input (i : Z) (st : init_state) : option init_state :=
  st ← init_skip skip_fuel st;
  let t := st_tables st in
  Some {| st_exp := st_exp st; st_n := st_n st;
          st_tables := {| input_diff := <[i := to_int8 (st_exp st - i * 2)]> (input_diff t);
                          gf_exp := gf_exp t; gf16_recip := gf16_recip t |} |}.

(** The correction value for the upper bits of a shifted exponential. *)
Definition init_correction (i : Z) (E : array) : array :=
  let n := for_loop 0 7 (λ _ n, gf_double n) (Z.shiftl i 9) in
  <[8192 + i := wrap 16 n]> E.

(** [gf16_exp] *)
Definition gf16_exp (t : gfmat_tables) (v : Z) : option Z :=
  r ← gf_exp t !! Z.shiftr v 3;
  let result := Z.shiftl r (Z.land v 7) in
  c ← gf_exp t !! (8192 + Z.shiftr result 16);
  Some (wrap 16 (result ⊕ c)).

(** One iteration of the loop that turns logarithms into reciprocals. *)
Definition init_recip (i : Z) (t : gfmat_tables) : option gfmat_tables :=
  l ← gf16_recip t !! i;
  e ← gf16_exp t (65535 - l);
  Some {| input_diff := input_diff t; gf_exp := gf_exp t;
          gf16_recip := <[i := e]> (gf16_recip t) |}.

Definition empty_tables : gfmat_tables := {| input_diff := ∅; gf_exp := ∅; gf16_recip := ∅ |}.

(** [gfmat_init], with [PARPAR_INVERT_SUPPORT] as the build defines it; it runs
    once, on unallocated tables. *)
Definition gfmat_init : option gfmat_tables :=
  st ← for_loopM 0 32768 init_input
         {| st_exp := 0; st_n := 1; st_tables := empty_tables |};
  let t := st_tables st in
  let recip := <[st_n st := wrap 16 (st_exp st)]> (gf16_recip t) in
  let E := for_loop 0 128 init_correction (gf_exp t) in
  let recip := <[1 := 65535]> recip in
  for_loopM 1 65536 init_recip
    {| input_diff := input_diff t; gf_exp := E; gf16_recip := recip |}.

(** [gfmat_input_log] *)
Definition gfmat_input_log (t : gfmat_tables) (inputBlock : Z) : option Z :=
  d ← input_diff t !! inputBlock;
  Some (wrap 16 (inputBlock * 2 + d)).

(** [gfmat_coeff_log] *)
Definition gfmat_coeff_log (inputLog recoveryBlock : Z) : Z :=
  let result := wrap 32 (inputLog * recoveryBlock) in
  let result := Z.shiftr result 16 + Z.land result 65535 in
  let result := result + Z.shiftr result 16 in
  wrap 16 result.

(** [gfmat_coeff_from_log] *)
Definition gfmat_coeff_from_log (t : gfmat_tables) (inputLog recoveryBlock : Z) : option Z :=
  gf16_exp t (gfmat_coeff_log inputLog recoveryBlock).

(** [gfmat_coeff] *)
Definition gfmat_coeff (t : gfmat_tables) (inputBlock recoveryBlock : Z) : option Z :=
  l ← gfmat_input_log t inputBlock;
  gfmat_coeff_from_log t l recoveryBlock.

(** ** The exponents of the input constants *)

(** The effect of [init_skip] on the exponent alone. *)
Fixpoint next_log (fuel : nat) (e : Z) : option Z :=
  let e := e + 1 in
  if not_coprime e then
    match fuel with O => None | S fuel => next_log fuel e end
  else Some e.

Arguments next_log : simpl never.
Arguments init_skip : simpl never.

Definition elog_step (e : Z) : Z := default 0 (next_log skip_fuel e).

(** The exponent reached after [n] input blocks. *)
Definition elog (n : nat) : Z := Nat.iter n elog_step 0.

(** A single walk over the 32768 inputs: the run lengths stay within the fuel,
    the differences fit in a signed byte. *)
Definition log_walk_step (s : Z * Z * bool) : Z * Z * bool :=
  let '(e, i, ok) := s in
  (elog_step e, i + 1,
   ok && match next_log skip_fuel e with
         | Some e' => (-128 <=? e' - i * 2) && (e' - i * 2 <=? 127)
         | None => false
         end).

Lemma log_walk_check :
  N.iter 32768 log_walk_step (0, 0, true) = (65534, 32768, true).
Proof. vm_compute. reflexivity. Qed.

Lemma log_walk_spec n :
  let s := Nat.iter n log_walk_step (0, 0, true) in
  s.1.1 = elog n ∧ s.1.2 = Z.of_nat n ∧
  (s.2 = true → ∀ k, (k < n)%nat →
     next_log skip_fuel (elog k) = Some (elog (S k)) ∧
     -128 ≤ elog (S k) - Z.of_nat k * 2 ≤ 127).
Proof.
  unfold elog. cbv zeta. induction n as [|n IH].
  { simpl. split_and!; [done|done|]. intros _ k Hk. lia. }
  rewrite !Nat.iter_succ.
  destruct (Nat.iter n log_walk_step (0, 0, true)) as [[e i] ok]. simpl in IH.
  destruct IH as (-> & -> & IH). unfold log_walk_step. simpl fst. simpl snd.
  split_and!; [done|lia|]. intros [Hok Hn]%andb_prop k Hk.
  destruct (decide (k = n)) as [->|]; [|apply IH; [done|lia]].
  rewrite Nat.iter_succ. set (e := Nat.iter n elog_step 0) in *.
  change (elog_step e) with (default 0 (next_log skip_fuel e)).
  destruct (next_log skip_fuel e) as [e'|]; [|discriminate]. simpl.
  split; [reflexivity|]. lia.
Qed.

Lemma elog_step_ok k : Z.of_nat k < 32768 →
  next_log skip_fuel (elog k) = Some (elog (S k)) ∧
  -128 ≤ elog (S k) - Z.of_nat k * 2 ≤ 127.
Proof.
  intros Hk. pose proof log_walk_check as Hc.
  rewrite N2Nat.inj_iter in Hc.
  pose proof (log_walk_spec (N.to_nat 32768)) as (_ & _ & H).
  rewrite Hc in H. apply H; [done|]. clear -Hk. lia.
Qed.

Lemma elog_last n : Z.of_nat n = 32768 → elog n = 65534.
Proof.
  intros Hn. assert (n = N.to_nat 32768) as -> by lia.
  pose proof log_walk_check as Hc. rewrite N2Nat.inj_iter in Hc.
  pose proof (log_walk_spec (N.to_nat 32768)) as (H & _).
  rewrite Hc in H. symmetry. exact H.
Qed.

Lemma next_log_gt fuel e e' : next_log fuel e = Some e' → e < e' ∧ not_coprime e' = false.
Proof.
  revert e. induction fuel as [|fuel IH]; intros e; unfold next_log; fold next_log;
    destruct (not_coprime (e + 1)) eqn:E; try done.
  - intros [= <-]. split; [lia|done].
  - intros [? ?]%IH. split; [lia|done].
  - intros [= <-]. split; [lia|done].
Qed.

Lemma elog_lt k : Z.of_nat k < 32768 → elog k < elog (S k).
Proof. intros Hk. by eapply next_log_gt, elog_step_ok. Qed.

Lemma elog_mono i j : (i ≤ j)%nat → Z.of_nat j ≤ 32768 → elog i ≤ elog j.
Proof.
  induction 1 as [|j Hij IH]; [lia|]. intros Hj.
  pose proof (elog_lt j). lia.
Qed.

Lemma elog_bounds k : Z.of_nat k ≤ 32768 → 0 ≤ elog k ≤ 65534.
Proof.
  intros Hk. split.
  - change 0 with (elog 0). apply elog_mono; lia.
  - rewrite <- (elog_last (Z.to_nat 32768)) by lia. apply elog_mono; lia.
Qed.

(** ** Correctness of the tables *)

Abbreviation T16 := (multby_two 16 poly16).
Abbreviation x16 e := (alpha 16 poly16 (Z.to_nat e)).

Lemma gf_double_eq n : u16 n → gf_double n = T16 n.
Proof.
  intros Hn. unfold gf_double, multby_two. change (Z.of_nat 16) with 16.
  unfold in_range in Hn. rewrite Z.shiftl_mul_pow2 by lia.
  assert (Z.testbit (n * 2 ^ 1) 16 = (65535 <? n * 2 ^ 1)) as ->; [|done].
  rewrite Z.testbit_eqb by lia. change (2 ^ 1) with 2. change (2 ^ 16) with 65536 in *.
  destruct (Z.ltb_spec 65535 (n * 2)).
  - replace (n * 2 / 65536) with 1; [done|]. apply Z.div_unique with (n * 2 - 65536); lia.
  - rewrite Z.div_small by lia. done.
Qed.

Lemma x16_range e : u16 (x16 e).
Proof. apply (alpha_range 16 poly16). Qed.

Lemma x16_succ e : 0 ≤ e → x16 (e + 1) = T16 (x16 e).
Proof. intros. unfold alpha. rewrite Z2Nat.inj_add, Nat.add_comm by lia. done. Qed.

Lemma group_order_16 : group_order 16 = Z.to_nat 65535.
Proof. done. Qed.

Lemma x16_inj i j : 0 ≤ i < 65535 → 0 ≤ j < 65535 → x16 i = x16 j → i = j.
Proof.
  intros Hi Hj H. apply (alpha_inj 16 poly16) in H; rewrite ?group_order_16; lia.
Qed.

Lemma x16_surj a : 1 ≤ a ≤ 65535 → ∃ i, 0 ≤ i < 65535 ∧ a = x16 i.
Proof.
  intros Ha. destruct (alpha_surj 16 poly16 a) as (i & Hi & ->).
  - unfold in_range. change (2 ^ Z.of_nat 16) with 65536. lia.
  - lia.
  - exists (Z.of_nat i). rewrite Nat2Z.id. split; [|done].
    rewrite group_order_16 in Hi. lia.
Qed.

Lemma x16_add i j : 0 ≤ i → 0 ≤ j → mul16 (x16 i) (x16 j) = x16 (i + j).
Proof. intros. by rewrite <- (alpha_add 16 poly16), Z2Nat.inj_add. Qed.

Lemma x16_mod i : 0 ≤ i → x16 i = x16 (i mod 65535).
Proof.
  intros. rewrite (alpha_mod 16 poly16), group_order_16, Z2Nat.inj_mod by lia. done.
Qed.

Lemma x16_cycle : x16 65535 = 1.
Proof. rewrite <- group_order_16. apply (alpha_cycle 16 poly16). Qed.

(** *** The first loop *)

Record init_inv (st : init_state) : Prop := {
  inv_exp : 0 ≤ st_exp st;
  inv_n : st_n st = x16 (st_exp st);
  inv_recip e : 0 ≤ e < st_exp st → gf16_recip (st_tables st) !! x16 e = Some e;
  inv_gf_exp k : 0 ≤ k → 8 * k < st_exp st → gf_exp (st_tables st) !! k = Some (x16 (8 * k));
}.

Lemma init_step_inv st : init_inv st → st_exp st < 65535 → init_inv (init_step st).
Proof.
  intros [H0 Hn Hr He] Hlt. pose proof (x16_range (st_exp st)) as Hx.
  assert (u16 (st_exp st)) by (unfold in_range; lia).
  split; simpl; [lia|..].
  - rewrite Hn, gf_double_eq, x16_succ; done.
  - intros e Hlt'. rewrite Hn, (wrap_small 16 (st_exp st)) by done.
    destruct (decide (e = st_exp st)) as [->|Hne]; [by rewrite lookup_insert_eq|].
    rewrite lookup_insert_ne; [apply Hr; lia|]. intros Heq. apply x16_inj in Heq; lia.
  - intros k Hk Hlt'. rewrite Hn, (wrap_small 16 (x16 _)) by done.
    change 7 with (Z.ones 3). rewrite Z.land_ones, Z.shiftr_div_pow2 by lia.
    change (2 ^ 3) with 8.
    destruct (Z.eqb_spec (st_exp st mod 8) 0) as [Hm|Hm].
    + destruct (decide (8 * k = st_exp st)) as [E|].
      * replace (st_exp st / 8) with k by (Z.div_mod_to_equations; lia).
        by rewrite lookup_insert_eq, E.
      * rewrite lookup_insert_ne by (Z.div_mod_to_equations; lia). apply He; lia.
    + apply He; [lia|]. Z.div_mod_to_equations. lia.
Qed.

Lemma init_step_exp st : st_exp (init_step st) = st_exp st + 1.
Proof. done. Qed.

Lemma init_step_diff st : input_diff (st_tables (init_step st)) = input_diff (st_tables st).
Proof. done. Qed.

Lemma init_skip_ok fuel st e' :
  init_inv st → next_log fuel (st_exp st) = Some e' → e' ≤ 65535 →
  ∃ st', init_skip fuel st = Some st' ∧ init_inv st' ∧ st_exp st' = e' ∧
    input_diff (st_tables st') = input_diff (st_tables st).
Proof.
  revert st. induction fuel as [|fuel IH]; intros st Hinv Hnext He';
    pose proof (next_log_gt _ _ _ Hnext) as [Hgt _];
    pose proof (init_step_inv st Hinv ltac:(lia)) as Hinv';
    unfold init_skip; fold init_skip; cbv zeta; rewrite init_step_exp;
    unfold next_log in Hnext; fold next_log in Hnext; cbv zeta in Hnext;
    destruct (not_coprime (st_exp st + 1)); try done.
  - injection Hnext as <-. eauto using init_step_exp.
  - destruct (IH _ Hinv' Hnext He') as (st' & -> & ?). eauto.
  - injection Hnext as <-. eauto using init_step_exp.
Qed.

Record loop_inv (i : Z) (st : init_state) : Prop := {
  loop_init :> init_inv st;
  loop_exp : st_exp st = elog (Z.to_nat i);
  loop_diff k : 0 ≤ k < i →
    input_diff (st_tables st) !! k = Some (elog (Z.to_nat (k + 1)) - k * 2);
}.

Lemma to_int8_id v : -128 ≤ v ≤ 127 → to_int8 v = v.
Proof. intros. unfold to_int8. rewrite wrap_small; [lia|]. unfold in_range. lia. Qed.

Lemma init_input_ok i st : 0 ≤ i < 32768 → loop_inv i st →
  ∃ st', init_input i st = Some st' ∧ loop_inv (i + 1) st'.
Proof.
  intros Hi [Hinit Hexp Hdiff].
  destruct (elog_step_ok (Z.to_nat i)) as [Hnext Hd]; [lia|].
  assert (S (Z.to_nat i) = Z.to_nat (i + 1)) as HS by lia. rewrite HS in *.
  rewrite <- Hexp in Hnext.
  pose proof (elog_bounds (Z.to_nat (i + 1)) ltac:(lia)).
  destruct (init_skip_ok _ _ _ Hinit Hnext) as (st' & Hst' & [] & Hexp' & Hd'); [lia|].
  unfold init_input. rewrite Hst'. simpl. eexists. split; [done|].
  split; simpl; [by split|done|].
  intros k Hk. rewrite Hexp', to_int8_id by (rewrite Z2Nat.id in Hd by lia; lia).
  destruct (decide (k = i)) as [->|]; [by rewrite lookup_insert_eq|].
  rewrite lookup_insert_ne, Hd' by done. apply Hdiff. lia.
Qed.

(** *** The compressed exponential *)

(** What [gfmat_init] writes at 8192 + i: the reduction of i * x^16. *)
Definition correction (i : Z) : Z := Nat.iter 7 T16 (Z.shiftl i 9).

Lemma T16_xor_iter k a b : Nat.iter k T16 (a ⊕ b) = Nat.iter k T16 a ⊕ Nat.iter k T16 b.
Proof. apply (iter_xor 16 T16 1 bit_of). Qed.

Lemma T16_iter_range k a : u16 a → u16 (Nat.iter k T16 a).
Proof. apply (iter_range 16 T16 1 bit_of). Qed.

Lemma correction_range i : 0 ≤ i < 128 → u16 (correction i).
Proof.
  intros. apply T16_iter_range. unfold in_range.
  rewrite Z.shiftl_mul_pow2 by lia. lia.
Qed.

Lemma init_correction_eq i E : 0 ≤ i < 128 →
  init_correction i E = <[8192 + i := correction i]> E.
Proof.
  intros Hi. unfold init_correction.
  assert (u16 (Z.shiftl i 9)) as Hr.
  { unfold in_range. rewrite Z.shiftl_mul_pow2 by lia. lia. }
  rewrite wrap_small.
  - f_equal. destruct (for_loop_ind (λ j n, u16 n ∧ n = Nat.iter (Z.to_nat j) T16 (Z.shiftl i 9))
      0 7 (λ _ n, gf_double n) (Z.shiftl i 9)) as [_ H]; [lia|by split| |exact H].
    intros j n Hj [Hn ->]. rewrite gf_double_eq by done. split.
    + by apply (T16_iter_range 1).
    + replace (Z.to_nat (j + 1)) with (S (Z.to_nat j)) by lia. done.
  - apply (for_loop_ind (λ _ n, u16 n)); [lia|done|].
    intros j n _ Hn. rewrite gf_double_eq by done. by apply (T16_iter_range 1).
Qed.

Lemma corrections_ok E :
  let E' := for_loop 0 128 init_correction E in
  (∀ i, 0 ≤ i < 128 → E' !! (8192 + i) = Some (correction i)) ∧
  (∀ k, k < 8192 → E' !! k = E !! k).
Proof.
  apply (for_loop_ind (λ n E', (∀ i, 0 ≤ i < n → E' !! (8192 + i) = Some (correction i)) ∧
    (∀ k, k < 8192 → E' !! k = E !! k))); [lia|split; [lia|done]|].
  intros n E' Hn [H1 H2]. rewrite init_correction_eq by done. split.
  - intros i Hi. destruct (decide (i = n)) as [->|]; [by rewrite lookup_insert_eq|].
    rewrite lookup_insert_ne by lia. apply H1. lia.
  - intros k Hk. rewrite lookup_insert_ne by lia. by apply H2.
Qed.

(** Shifting a reduced power by at most seven bits and folding the overflow back. *)
Lemma shift_correct r k : u16 r → (k ≤ 7)%nat →
  wrap 16 (Z.shiftl r (Z.of_nat k)) ⊕ correction (Z.shiftr (Z.shiftl r (Z.of_nat k)) 16)
  = Nat.iter k T16 r.
Proof.
  intros Hr Hk. unfold in_range in Hr. change (2 ^ 16) with 65536 in Hr.
  set (m := 16 - Z.of_nat k). set (h := Z.shiftr r m). set (lo := r mod 2 ^ m).
  assert (Hp : 2 ^ m * 2 ^ Z.of_nat k = 65536).
  { rewrite <- Z.pow_add_r by lia. unfold m. by replace (16 - Z.of_nat k + Z.of_nat k) with 16 by lia. }
  assert (Hpm : 0 < 2 ^ m) by (apply Z.pow_pos_nonneg; lia).
  assert (Hh : 0 ≤ h ∧ h < 2 ^ Z.of_nat k).
  { unfold h. rewrite Z.shiftr_div_pow2 by lia. split; [apply Z.div_pos; lia|].
    apply Z.div_lt_upper_bound; lia. }
  assert (Hlo : 0 ≤ lo < 2 ^ m) by (apply Z.mod_pos_bound; lia).
  assert (Z.shiftr (Z.shiftl r (Z.of_nat k)) 16 = h) as ->.
  { unfold h. rewrite Z.shiftr_shiftl_r by lia. f_equal; lia. }
  assert (wrap 16 (Z.shiftl r (Z.of_nat k)) = Z.shiftl lo (Z.of_nat k)) as ->.
  { unfold wrap, lo. rewrite !Z.shiftl_mul_pow2 by lia. change (2 ^ 16) with 65536.
    rewrite <- Hp, Z.mul_mod_distr_r by lia. done. }
  rewrite (split_high_low m r) at 1 by lia. fold h lo. rewrite T16_xor_iter.
  rewrite (iter_multby_two_shiftl 16 poly16 k lo) by (change (2 ^ Z.of_nat 16) with 65536; nia).
  rewrite Z.lxor_comm. f_equal. unfold correction.
  assert (Z.of_nat (7 - k) = 7 - Z.of_nat k) as E7 by lia.
  replace (Z.shiftl h m) with (Nat.iter (7 - k) T16 (Z.shiftl h 9)).
  { rewrite <- (iter_add T16). by replace (k + (7 - k))%nat with 7%nat by lia. }
  rewrite (iter_multby_two_shiftl 16 poly16).
  - rewrite E7, Z.shiftl_shiftl by lia. f_equal. lia.
  - apply Z.shiftl_nonneg. lia.
  - rewrite Z.shiftl_mul_pow2, E7 by lia. change (2 ^ Z.of_nat 16) with 65536.
    assert (h * 2 ^ m < 65536) by nia.
    replace (h * 2 ^ 9 * 2 ^ (7 - Z.of_nat k)) with (h * 2 ^ m); [done|].
    rewrite <- Z.mul_assoc, <- Z.pow_add_r by lia. do 2 f_equal. lia.
Qed.

(** The exponential table as [gfmat_init] leaves it. *)
Record exp_table (E : array) : Prop := {
  exp_entries k : 0 ≤ k < 8192 → E !! k = Some (x16 (8 * k));
  exp_corrections i : 0 ≤ i < 128 → E !! (8192 + i) = Some (correction i);
}.

Lemma gf16_exp_ok t v : exp_table (gf_exp t) → 0 ≤ v ≤ 65535 → gf16_exp t v = Some (x16 v).
Proof.
  intros [He Hc] Hv. unfold gf16_exp.
  rewrite Z.shiftr_div_pow2 by lia. change (2 ^ 3) with 8.
  change 7 with (Z.ones 3). rewrite Z.land_ones by lia. change (2 ^ 3) with 8.
  rewrite He by (Z.div_mod_to_equations; lia). simpl.
  set (r := x16 (8 * (v / 8))). set (k := v mod 8).
  assert (0 ≤ k ≤ 7) by (unfold k; Z.div_mod_to_equations; lia).
  assert (u16 r) as Hr by apply x16_range.
  assert (0 ≤ Z.shiftr (Z.shiftl r k) 16 < 128).
  { unfold in_range in Hr. rewrite Z.shiftr_div_pow2, Z.shiftl_mul_pow2 by lia.
    assert (2 ^ k ≤ 2 ^ 7) by (apply Z.pow_le_mono_r; lia).
    assert (0 < 2 ^ k) by (apply Z.pow_pos_nonneg; lia).
    split; [apply Z.div_pos; nia|]. apply Z.div_lt_upper_bound; nia. }
  rewrite Hc by done. simpl. f_equal. rewrite wrap_lxor by lia.
  rewrite (wrap_small 16 (correction _)) by (by apply correction_range).
  replace k with (Z.of_nat (Z.to_nat k)) by lia. rewrite shift_correct by (done || lia).
  unfold r, alpha. rewrite <- (iter_add T16). f_equal.
  rewrite <- Z2Nat.inj_add by (Z.div_mod_to_equations; lia). f_equal. unfold k.
  Z.div_mod_to_equations. lia.
Qed.

(** *** Reciprocals and the whole initialisation *)

Record tables_ok (t : gfmat_tables) : Prop := {
  tables_exp : exp_table (gf_exp t);
  tables_diff i : 0 ≤ i < 32768 →
    input_diff t !! i = Some (elog (Z.to_nat (i + 1)) - i * 2);
  tables_recip a : 1 ≤ a ≤ 65535 →
    ∃ b, gf16_recip t !! a = Some b ∧ u16 b ∧ mul16 a b = 1;
}.

(** The reciprocal loop at position [i]: below it entries are reciprocals, from
    it on they are still logarithms (with that of 1 replaced by 65535). *)
Record recip_inv (i : Z) (t : gfmat_tables) : Prop := {
  recip_done a : 1 ≤ a < i → ∃ b, gf16_recip t !! a = Some b ∧ u16 b ∧ mul16 a b = 1;
  recip_todo a : i ≤ a ≤ 65535 →
    ∃ l, gf16_recip t !! a = Some l ∧ 0 ≤ l ≤ 65535 ∧ x16 l = a;
}.

Lemma init_recip_ok i t : exp_table (gf_exp t) → 1 ≤ i < 65536 → recip_inv i t →
  ∃ t', init_recip i t = Some t' ∧ recip_inv (i + 1) t' ∧
    gf_exp t' = gf_exp t ∧ input_diff t' = input_diff t.
Proof.
  intros He Hi [Hdone Htodo]. destruct (Htodo i) as (l & Hl & Hlr & Hx); [lia|].
  unfold init_recip. rewrite Hl. simpl. rewrite gf16_exp_ok by (done || lia). simpl.
  eexists. split; [done|]. split; [|done]. split; simpl.
  - intros a Ha. destruct (decide (a = i)) as [->|].
    + rewrite lookup_insert_eq. eexists. split_and!; [done|apply x16_range|].
      rewrite <- Hx at 1. rewrite x16_add by lia.
      replace (l + (65535 - l)) with 65535 by lia. apply x16_cycle.
    + rewrite lookup_insert_ne by lia. apply Hdone. lia.
  - intros a Ha. rewrite lookup_insert_ne by lia. apply Htodo. lia.
Qed.

Lemma recip_start st : loop_inv 32768 st →
  recip_inv 1 {| input_diff := input_diff (st_tables st);
    gf_exp := for_loop 0 128 init_correction (gf_exp (st_tables st));
    gf16_recip := <[1 := 65535]> (<[st_n st := wrap 16 (st_exp st)]> (gf16_recip (st_tables st))) |}.
Proof.
  intros [[H0 Hn Hr _] Hexp _]. rewrite elog_last in Hexp by lia.
  split; [lia|]. simpl. intros a Ha.
  destruct (decide (a = 1)) as [->|Ha1].
  { rewrite lookup_insert_eq. exists 65535. split_and!; [done|lia|lia|apply x16_cycle]. }
  rewrite lookup_insert_ne by done.
  destruct (x16_surj a Ha) as (e & He & ->). exists e. split; [|split; [lia|done]].
  rewrite Hn, Hexp, (wrap_small 16 65534) by done.
  destruct (decide (e = 65534)) as [->|]; [by rewrite lookup_insert_eq|].
  rewrite lookup_insert_ne by (intros E; apply x16_inj in E; lia). apply Hr. lia.
Qed.

Lemma gfmat_init_ok : ∃ t, gfmat_init = Some t ∧ tables_ok t.
Proof.
  unfold gfmat_init.
  destruct (for_loopM_ind loop_inv 0 32768 init_input
    {| st_exp := 0; st_n := 1; st_tables := empty_tables |}) as (st & -> & Hst).
  - lia.
  - split; [split; simpl; [lia|done|lia|lia]|done|lia].
  - intros i st Hi Hst. by apply init_input_ok.
  - cbv beta iota zeta delta [mbind option_bind].
    pose proof (recip_start st Hst) as Hrec. destruct Hst as [[H0 Hn Hr He] Hexp Hdiff].
    rewrite elog_last in Hexp by lia.
    set (t0 := {| input_diff := _; gf_exp := _; gf16_recip := _ |}) in *.
    assert (exp_table (gf_exp t0)) as Ht0.
    { destruct (corrections_ok (gf_exp (st_tables st))) as [Hc Hk]. split; simpl.
      - intros k Hk'. rewrite Hk by lia. apply He; lia.
      - done. }
    destruct (for_loopM_ind (λ i t, recip_inv i t ∧ gf_exp t = gf_exp t0 ∧
      input_diff t = input_diff t0) 1 65536 init_recip t0) as (t & -> & Hrt & Het & Hdt).
    + lia.
    + done.
    + intros i t Hi (Hrt & Het & Hdt).
      destruct (init_recip_ok i t) as (t' & ? & ? & E1 & E2); [by rewrite Het|done|done|].
      exists t'. rewrite E1, E2. done.
    + exists t. split; [done|]. split.
      * by rewrite Het.
      * rewrite Hdt. apply Hdiff.
      * intros a Ha. apply Hrt. lia.
Qed.

(** ** Coefficients *)

Lemma gfmat_input_log_ok t i : tables_ok t → 0 ≤ i < 32768 →
  gfmat_input_log t i = Some (elog (Z.to_nat (i + 1))).
Proof.
  intros Ht Hi. unfold gfmat_input_log. rewrite (tables_diff _ Ht) by done. simpl.
  f_equal. pose proof (elog_bounds (Z.to_nat (i + 1)) ltac:(lia)).
  rewrite wrap_small; [lia|unfold in_range; lia].
Qed.

Lemma land_65535 a : Z.land a 65535 = a mod 65536.
Proof. apply (Z.land_ones a 16). lia. Qed.

Lemma gfmat_coeff_log_ok l r : 0 ≤ l ≤ 65535 → 0 ≤ r ≤ 65535 →
  0 ≤ gfmat_coeff_log l r ≤ 65535 ∧ gfmat_coeff_log l r mod 65535 = (l * r) mod 65535.
Proof.
  intros Hl Hr. unfold gfmat_coeff_log.
  assert (0 ≤ l * r ≤ 65535 * 65535) as Hs by nia.
  rewrite (wrap_small 32) by (unfold in_range; lia).
  rewrite !Z.shiftr_div_pow2, land_65535 by lia. change (2 ^ 16) with 65536.
  set (s := l * r) in *.
  unfold wrap. change (2 ^ 16) with 65536. clearbody s. clear Hl Hr l r.
  set (q := s / 65536). set (m := s mod 65536).
  assert (s = q * 65536 + m ∧ 0 ≤ m < 65536 ∧ 0 ≤ q ≤ 65534) as (E & Hm & Hq)
    by (unfold q, m; Z.div_mod_to_equations; lia).
  clearbody q m. subst s.
  destruct (Z.lt_ge_cases (q + m) 65536).
  - rewrite (Z.div_small (q + m)), (Z.mod_small (q + m + 0)) by lia. split; [lia|].
    rewrite <- (Z.mod_add (q + m + 0) q) by lia. f_equal. lia.
  - assert ((q + m) / 65536 = 1) as -> by (Z.div_mod_to_equations; lia).
    assert ((q + m + 1) mod 65536 = q + m + 1 - 65536) as -> by (Z.div_mod_to_equations; lia).
    split; [lia|].
    rewrite <- (Z.mod_add (q + m + 1 - 65536) (q + 1)) by lia. f_equal. lia.
Qed.

Lemma gfmat_coeff_from_log_ok t l r : tables_ok t → 0 ≤ l ≤ 65535 → 0 ≤ r ≤ 65535 →
  gfmat_coeff_from_log t l r = Some (pow16 (x16 l) (Z.to_nat r)).
Proof.
  intros Ht Hl Hr. unfold gfmat_coeff_from_log.
  destruct (gfmat_coeff_log_ok l r Hl Hr) as [Hb Hm].
  rewrite gf16_exp_ok by (apply Ht || done). f_equal.
  rewrite (gf_pow_alpha 16 poly16), <- Z2Nat.inj_mul by lia.
  rewrite (x16_mod (gfmat_coeff_log l r)), Hm, <- x16_mod by lia. done.
Qed.

(** The constant of an input block: x raised to the block's exponent. *)
Definition input_constant (i : Z) : Z := x16 (elog (Z.to_nat (i + 1))).

Lemma input_constant_range i : u16 (input_constant i).
Proof. apply x16_range. Qed.

Lemma gfmat_coeff_ok t i r : tables_ok t → 0 ≤ i < 32768 → 0 ≤ r ≤ 65535 →
  gfmat_coeff t i r = Some (pow16 (input_constant i) (Z.to_nat r)).
Proof.
  intros Ht Hi Hr. unfold gfmat_coeff. rewrite gfmat_input_log_ok by done. simpl.
  pose proof (elog_bounds (Z.to_nat (i + 1)) ltac:(lia)).
  apply gfmat_coeff_from_log_ok; (done || lia).
Qed.

(** Number of usable exponents (not divisible by 3, 5, 17, 257) in [1, n]. *)
Definition usable_upto (n : Z) : Z :=
  Z.of_nat (length (List.filter (λ e, negb (not_coprime e)) (seqZ 1 n))).

Lemma usable_upto_succ n : 0 ≤ n →
  usable_upto (n + 1) = usable_upto n + (if not_coprime (n + 1) then 0 else 1).
Proof.
  intros Hn. unfold usable_upto. rewrite seqZ_app by lia.
  rewrite List.filter_app, length_app, Nat2Z.inj_add. f_equal.
  rewrite seqZ_cons, seqZ_nil by lia. replace (1 + n) with (n + 1) by lia.
  cbn [List.filter]. by destruct (not_coprime (n + 1)).
Qed.

Lemma usable_next fuel e e' : 0 ≤ e → next_log fuel e = Some e' →
  usable_upto e' = usable_upto e + 1.
Proof.
  revert e. induction fuel as [|fuel IH]; intros e He;
    unfold next_log; fold next_log; cbv zeta;
    pose proof (usable_upto_succ e He) as Hs; destruct (not_coprime (e + 1)); try done.
  - intros [= <-]. lia.
  - intros H%IH; lia.
  - intros [= <-]. lia.
Qed.

Lemma usable_elog k : Z.of_nat k ≤ 32768 → usable_upto (elog k) = Z.of_nat k.
Proof.
  induction k as [|k IH]; intros Hk; [done|].
  destruct (elog_step_ok k) as [Hn _]; [lia|].
  apply usable_next in Hn; [|apply elog_bounds; lia]. lia.
Qed.

Lemma elog_usable k : Z.of_nat k < 32768 → not_coprime (elog (S k)) = false.
Proof. intros Hk. by eapply next_log_gt, elog_step_ok. Qed.

Lemma elog_lt_mono i j : (i < j)%nat → Z.of_nat j ≤ 32768 → elog i < elog j.
Proof.
  intros Hij Hj. pose proof (elog_lt i ltac:(lia)).
  pose proof (elog_mono (S i) j ltac:(lia) Hj). lia.
Qed.

Lemma input_constant_inj i j : 0 ≤ i < 32768 → 0 ≤ j < 32768 →
  input_constant i = input_constant j → i = j.
Proof.
  intros Hi Hj H.
  pose proof (elog_bounds (Z.to_nat (i + 1)) ltac:(lia)).
  pose proof (elog_bounds (Z.to_nat (j + 1)) ltac:(lia)).
  apply x16_inj in H; [|lia|lia].
  destruct (Z.lt_trichotomy i j) as [Hlt|[->|Hlt]]; [|done|].
  - pose proof (elog_lt_mono (Z.to_nat (i + 1)) (Z.to_nat (j + 1))). lia.
  - pose proof (elog_lt_mono (Z.to_nat (j + 1)) (Z.to_nat (i + 1))). lia.
Qed.

Lemma gfmat_init_tables t : gfmat_init = Some t → tables_ok t.
Proof.
  destruct gfmat_init_ok as (t' & -> & Hok). intros H. apply (inj Some) in H. by rewrite <- H.
Qed.

#[global] Opaque gfmat_init.

(** ** Theorems *)

(** C15: [gfmat_init] terminates and builds the tables; then [gfmat_coeff] gives, for
    every input block below 32768 and every recovery exponent, the power
    [constant(input) ^ exponent] in GF(2^16), where the constant of input block [i] is
    [2^e] with [e] the [(i+1)]-th positive exponent not divisible by 3, 5, 17 or 257, as
    the PAR2 specification prescribes. *)
Theorem gfmat_coeff_correct :
  ∃ t, gfmat_init = Some t ∧ ∀ i r, 0 ≤ i < 32768 → 0 ≤ r ≤ 65535 →
    ∃ e, 0 ≤ e ≤ 65534 ∧ usable_upto e = i + 1 ∧ not_coprime e = false ∧
      gfmat_input_log t i = Some e ∧
      gfmat_coeff t i r = Some (pow16 (alpha 16 poly16 (Z.to_nat e)) (Z.to_nat r)).
Proof.
  destruct gfmat_init_ok as (t & Ht & Hok). exists t. split; [done|]. intros i r Hi Hr.
  exists (elog (Z.to_nat (i + 1))). pose proof (elog_bounds (Z.to_nat (i + 1)) ltac:(lia)).
  split_and!; try lia.
  - rewrite usable_elog by lia. lia.
  - replace (Z.to_nat (i + 1)) with (S (Z.to_nat i)) by lia. apply elog_usable. lia.
  - by apply gfmat_input_log_ok.
  - by apply gfmat_coeff_ok.
Qed.

(** The table [gf16_recip] filled by [gfmat_init] holds the multiplicative inverse
    of every nonzero element. *)
Theorem gf16_recip_correct :
  ∃ t, gfmat_init = Some t ∧ ∀ a, 1 ≤ a ≤ 65535 →
    ∃ b, gf16_recip t !! a = Some b ∧ u16 b ∧ mul16 a b = 1.
Proof.
  destruct gfmat_init_ok as (t & Ht & Hok). exists t. split; [done|]. apply Hok.
Qed.

(** Different input blocks have different constants, so no two columns of the
    coefficient matrix coincide. *)
Theorem input_constants_distinct t i j c : gfmat_init = Some t →
  0 ≤ i < 32768 → 0 ≤ j < 32768 → gfmat_coeff t i 1 = Some c → gfmat_coeff t j 1 = Some c → i = j.
Proof.
  destruct gfmat_init_ok as (t' & Ht & Hok). rewrite Ht. clear Ht. intros Et Hi Hj.
  apply (inj Some) in Et as ->. rewrite (gfmat_coeff_ok t i), (gfmat_coeff_ok t j) by (assumption || lia). change (Z.to_nat 1) with 1%nat.
  rewrite !(gf_pow_1 16 poly16) by apply input_constant_range. intros Hc Hc'.
  apply (input_constant_inj i j Hi Hj), (inj Some). exact (eq_trans Hc (eq_sym Hc')).
Qed.

Lemma input_constants_distinct_witness :
  ∃ t c, gfmat_init = Some t ∧ gfmat_coeff t 7 1 = Some c ∧ (gfmat_coeff t 7 1 = Some c → 7 = 7).
Proof.
  destruct gfmat_init_ok as (t & Ht & Hok). exists t. eexists. split; [exact Ht|].
  split; [apply (gfmat_coeff_ok t 7 1 Hok); lia|].
  intros H. eapply (input_constants_distinct t 7 7 _ Ht); [lia|lia|exact H|exact H].
Defined.
