(* ===== verification/GfLookup.v ===== *)
(** * GfLookup.v: the table-lookup kernel of parpar/gf16/gf16_lookup.c

    Multiplication of a region of 16-bit words by a constant through two
    256-entry tables, in the 64-bit little-endian build: the tables are filled
    four entries at a time with 64-bit writes, and the data is processed eight
    bytes at a time. *)

From Stdlib Require Import Btauto.
From S2P Require Import Prelude LinOp GF GfCoeff.

(** ** Memory: a byte array; the words that 64-bit accesses see *)

(** A byte of memory ([uint8_t]). *)
Definition byte (m : array) (a : Z) : Z := wrap 8 (default 0 (m !! a)).

(** [write64(p, v)], little endian *)
Definition write64 (m : array) (p v : Z) : array :=
  for_loop 0 8 (λ k m, <[p + k := Z.land (Z.shiftr v (8 * k)) 255]> m) m.

(** [read64(p)], little endian *)
Definition read64 (m : array) (p : Z) : Z :=
  for_loop 0 8 (λ k v, Z.lor v (Z.shiftl (byte m (p + k)) (8 * k))) 0.

(** The 16-bit word at word address [a] (byte address [2 * a]). *)
Definition word (m : array) (a : Z) : Z := byte m (2 * a) + 256 * byte m (2 * a + 1).

(** ** Doubling several packed words at once *)

(** [GF16_MULTBY_TWO_X2] on a [uint32_t] *)
Definition GF16_MULTBY_TWO_X2 (p : Z) : Z :=
  Z.land (Z.shiftl p 1) 0xffffffff
  ⊕ Z.land (0x1100b ⊕ Z.shiftl (Z.land 0x1100b 0xffff) 16) (wrap 32 (- Z.shiftr p 31)).

(** [GF16_MULTBY_TWO_X4] on a [uint64_t] *)
Definition GF16_MULTBY_TWO_X4 (p : Z) : Z :=
  Z.land (Z.shiftl p 1) 0xffffffffffffffff
  ⊕ Z.land (0x1100b ⊕ Z.shiftl 0x1100b 16 ⊕ Z.shiftl 0x1100b 32
             ⊕ Z.shiftl (Z.land 0x1100b 0xffff) 48)
           (wrap 64 (- Z.shiftr p 63)).

(** ** [calc_table] *)

(** A table of [uint16_t] written through 64-bit stores: entries [e .. e+3]. *)
Definition table_write64 (lhtable : array) (e v : Z) : array :=
  for_loop 0 4 (λ k t, <[e + k := Z.land (Z.shiftr v (16 * k)) 0xffff]> t) lhtable.

Definition table_read64 (lhtable : array) (e : Z) : option Z :=
  a ← lhtable !! e; b ← lhtable !! (e + 1); c ← lhtable !! (e + 2); d ← lhtable !! (e + 3);
  Some (Z.lor (Z.lor (Z.lor a (Z.shiftl b 16)) (Z.shiftl c 32)) (Z.shiftl d 48)).

(** [for(k = 0; k < j; k++) write64(lhtable + base + 4*(k+j), coefficient4 ^ read64(lhtable + base + k*4));
    coefficient4 = GF16_MULTBY_TWO_X4(coefficient4);] *)
Definition calc_table_round (base : Z) (j : Z) (st : array * Z) : option (array * Z) :=
  let '(lhtable, coefficient4) := st in
  lhtable ← for_loopM 0 j (λ k t,
    old ← table_read64 t (base + k * 4);
    Some (table_write64 t (base + 4 * (k + j)) (coefficient4 ⊕ old))) lhtable;
  Some (lhtable, GF16_MULTBY_TWO_X4 coefficient4).

(** [for (j = 1; j < 64; j <<= 1)] *)
Definition calc_table_half (base : Z) (st : array * Z) : option (array * Z) :=
  foldl (λ st j, st ≫= calc_table_round base j) (Some st) [1; 2; 4; 8; 16; 32].

(** [calc_table], little endian, [sizeof(uintptr_t) >= 8] *)
Definition calc_table (coefficient : Z) : option array :=
  let coefficient2 := Z.shiftl coefficient 16 in
  let tmp := GF16_MULTBY_TWO_X2 (Z.lor coefficient2 coefficient) in
  let lhtable := table_write64 ∅ 0 (Z.lor coefficient2 (Z.shiftl (tmp ⊕ coefficient2) 32)) in
  let coefficient4 := GF16_MULTBY_TWO_X4 (Z.lor tmp (Z.shiftl tmp 32)) in
  '(lhtable, coefficient4) ← calc_table_half 0 (lhtable, coefficient4);
  let tmp2 := Z.land coefficient4 0xffff0000ffff0000 in
  let coefficient4 := GF16_MULTBY_TWO_X4 coefficient4 in
  let lhtable := table_write64 lhtable 256 (tmp2 ⊕ wrap 64 (Z.shiftl coefficient4 32)) in
  let coefficient4 := GF16_MULTBY_TWO_X4 coefficient4 in
  '(lhtable, _) ← calc_table_half 256 (lhtable, coefficient4);
  Some lhtable.

(** ** The kernels *)

(** [PACK_4X16] *)
Definition PACK_4X16 (a b c d : Z) : Z :=
  Z.lor (Z.lor (Z.lor (Z.shiftl d 48) (Z.shiftl c 32)) (Z.shiftl b 16)) a.

(** [lhtable[_src[ptr]] ^ lhtable[256 + _src[ptr + 1]]] *)
Definition lookup_word (lhtable : array) (lo hi : Z) : option Z :=
  a ← lhtable !! lo; b ← lhtable !! (256 + hi); Some (a ⊕ b).

(** The four products of the eight bytes at [p]. *)
Definition lookup_chunk (lhtable m : array) (p : Z) : option Z :=
  w0 ← lookup_word lhtable (byte m p) (byte m (p + 1));
  w1 ← lookup_word lhtable (byte m (p + 2)) (byte m (p + 3));
  w2 ← lookup_word lhtable (byte m (p + 4)) (byte m (p + 5));
  w3 ← lookup_word lhtable (byte m (p + 6)) (byte m (p + 7));
  Some (PACK_4X16 w0 w1 w2 w3).

(** [gf16_lookup_mul]: addresses and [len] in bytes, [len] a multiple of 8. *)
Definition gf16_lookup_mul (m : array) (dst src len coefficient : Z) : option array :=
  lhtable ← calc_table coefficient;
  for_loopM 0 (len / 8) (λ i m,
    v ← lookup_chunk lhtable m (src + 8 * i);
    Some (write64 m (dst + 8 * i) v)) m.

(** [gf16_lookup_muladd], with [writeXor64] *)
Definition gf16_lookup_muladd (m : array) (dst src len coefficient : Z) : option array :=
  lhtable ← calc_table coefficient;
  for_loopM 0 (len / 8) (λ i m,
    v ← lookup_chunk lhtable m (src + 8 * i);
    Some (write64 m (dst + 8 * i) (v ⊕ read64 m (dst + 8 * i)))) m.

(** [gf16_lookup_stride] for a 64-bit build *)
Definition gf16_lookup_stride : Z := 8.

(** ** Correctness of the tables *)

Definition slice16 (v k : Z) : Z := Z.land (Z.shiftr v (16 * k)) 0xffff.

Lemma slice16_lxor a b k : slice16 (a ⊕ b) k = slice16 a k ⊕ slice16 b k.
Proof. unfold slice16. by rewrite Z.shiftr_lxor, land_lxor_distr_r. Qed.

Lemma slice16_range v k : u16 (slice16 v k).
Proof. unfold slice16. rewrite land_65535. apply Z.mod_pos_bound. lia. Qed.

Lemma slice16_testbit v k i : 0 ≤ k → 0 ≤ i →
  Z.testbit (slice16 v k) i = (i <? 16) && Z.testbit v (16 * k + i).
Proof.
  intros Hk Hi. unfold slice16. rewrite land_65535. change 65536 with (2 ^ 16).
  destruct (Z.ltb_spec i 16).
  - rewrite Z.mod_pow2_bits_low, Z.shiftr_spec by lia. simpl. f_equal. lia.
  - by rewrite Z.mod_pow2_bits_high by lia.
Qed.

Lemma slice16_land a b k : 0 ≤ k → slice16 (Z.land a b) k = Z.land (slice16 a k) (slice16 b k).
Proof.
  intros Hk. apply Z.bits_inj'. intros i Hi.
  rewrite Z.land_spec, !slice16_testbit, Z.land_spec by lia. btauto.
Qed.

(** Shifting a 64-bit word up by two lanes. *)
Lemma slice16_shift_two v k : 0 ≤ k < 4 →
  slice16 (wrap 64 (Z.shiftl v 32)) k = if k <? 2 then 0 else slice16 v (k - 2).
Proof.
  intros Hk. apply Z.bits_inj'. intros i Hi. rewrite slice16_testbit by lia.
  unfold wrap. destruct (Z.ltb_spec i 16) as [Hi16|Hi16]; simpl.
  - rewrite Z.mod_pow2_bits_low, Z.shiftl_spec by lia.
    destruct (Z.ltb_spec k 2).
    + by rewrite Z.bits_0, Z.testbit_neg_r by lia.
    + rewrite slice16_testbit by lia. destruct (Z.ltb_spec i 16); [|lia]. simpl. f_equal. lia.
  - destruct (Z.ltb_spec k 2); [by rewrite Z.bits_0|].
    rewrite slice16_testbit by lia. by destruct (Z.ltb_spec i 16); [lia|].
Qed.

(** Four equal lanes. *)
Definition dup4 (v : Z) : Z := v ⊕ Z.shiftl v 16 ⊕ Z.shiftl v 32 ⊕ Z.shiftl v 48.

Lemma dup4_lxor a b : dup4 (a ⊕ b) = dup4 a ⊕ dup4 b.
Proof. unfold dup4. rewrite !Z.shiftl_lxor. xor_solve. Qed.

Lemma lanes_sum a b c d : u16 a → u16 b → u16 c → u16 d →
  a ⊕ Z.shiftl b 16 ⊕ Z.shiftl c 32 ⊕ Z.shiftl d 48
  = a + b * 2 ^ 16 + c * 2 ^ 32 + d * 2 ^ 48.
Proof.
  unfold in_range. intros. rewrite (lxor_disjoint 16) by (unfold in_range; lia).
  rewrite (lxor_disjoint 32) by (unfold in_range; lia).
  rewrite (lxor_disjoint 48) by (unfold in_range; lia). done.
Qed.

Lemma lanes_sum_lor a b c d : u16 a → u16 b → u16 c → u16 d →
  Z.lor (Z.lor (Z.lor a (Z.shiftl b 16)) (Z.shiftl c 32)) (Z.shiftl d 48)
  = a + b * 2 ^ 16 + c * 2 ^ 32 + d * 2 ^ 48.
Proof.
  unfold in_range. intros. rewrite (lor_disjoint 16) by (unfold in_range; lia).
  rewrite (lor_disjoint 32) by (unfold in_range; lia).
  rewrite (lor_disjoint 48) by (unfold in_range; lia). done.
Qed.

Lemma slice16_lanes a b c d k : u16 a → u16 b → u16 c → u16 d → 0 ≤ k < 4 →
  slice16 (a + b * 2 ^ 16 + c * 2 ^ 32 + d * 2 ^ 48) k
  = if k =? 0 then a else if k =? 1 then b else if k =? 2 then c else d.
Proof.
  unfold in_range, slice16. intros Ha Hb Hc Hd Hk. rewrite land_65535, Z.shiftr_div_pow2 by lia.
  assert (k = 0 ∨ k = 1 ∨ k = 2 ∨ k = 3) as [->|[->|[->| ->]]] by lia; simpl;
    Z.div_mod_to_equations; lia.
Qed.

Lemma dup4_range v : u16 v → in_range 64 (dup4 v).
Proof. intros Hv. unfold dup4. rewrite lanes_sum by done. unfold in_range in *. lia. Qed.

Lemma slice16_dup4 v k : u16 v → 0 ≤ k < 4 → slice16 (dup4 v) k = v.
Proof.
  intros Hv Hk. unfold dup4. rewrite lanes_sum, slice16_lanes by done.
  by repeat case_match.
Qed.

(** The negated top bit is an all-ones mask. *)
Lemma neg_top_mask w c p : 0 < w → in_range w p → in_range w c →
  Z.land c (wrap w (- Z.shiftr p (w - 1))) = if Z.testbit p (w - 1) then c else 0.
Proof.
  intros Hw Hp Hc. unfold in_range in Hp.
  assert (2 ^ w = 2 * 2 ^ (w - 1)) as Hpow.
  { rewrite <- Z.pow_succ_r by lia. f_equal. lia. }
  rewrite Z.testbit_eqb, Z.shiftr_div_pow2 by lia.
  assert (p / 2 ^ (w - 1) = 0 ∨ p / 2 ^ (w - 1) = 1) as [-> | ->].
  { assert (0 ≤ p / 2 ^ (w - 1)) by (apply Z.div_pos; lia).
    assert (p / 2 ^ (w - 1) < 2) by (apply Z.div_lt_upper_bound; lia). lia. }
  - unfold wrap. change (- (0)) with 0. rewrite Z.mod_0_l by lia. apply Z.land_0_r.
  - assert (wrap w (- (1)) = Z.ones w) as ->.
    { unfold wrap. change (- (1)) with (-1). rewrite Z.ones_equiv.
      rewrite <- (Z.mod_add (-1) 1) by lia. rewrite Z.mod_small by lia. lia. }
    rewrite Z.land_ones by lia. by apply Z.mod_small.
Qed.

Lemma X4_alt p : in_range 64 p →
  GF16_MULTBY_TWO_X4 p
  = Z.land (Z.shiftl p 1) 0xffffffffffffffff
    ⊕ (if Z.testbit p 63 then 0x100a100a100a100b else 0).
Proof.
  intros Hp. unfold GF16_MULTBY_TWO_X4. f_equal. by apply (neg_top_mask 64).
Qed.

Lemma X2_alt p : in_range 32 p →
  GF16_MULTBY_TWO_X2 p
  = Z.land (Z.shiftl p 1) 0xffffffff ⊕ (if Z.testbit p 31 then 0x100a100b else 0).
Proof.
  intros Hp. unfold GF16_MULTBY_TWO_X2. f_equal. by apply (neg_top_mask 32).
Qed.

Lemma double_mask_lxor (c M : Z) (i : Z) a b :
  Z.land (Z.shiftl (a ⊕ b) 1) M ⊕ (if Z.testbit (a ⊕ b) i then c else 0)
  = (Z.land (Z.shiftl a 1) M ⊕ (if Z.testbit a i then c else 0))
    ⊕ (Z.land (Z.shiftl b 1) M ⊕ (if Z.testbit b i then c else 0)).
Proof.
  rewrite Z.shiftl_lxor, land_lxor_distr_r, Z.lxor_spec.
  destruct (Z.testbit a i), (Z.testbit b i); simpl; xor_solve.
Qed.

Lemma basis_16 (f g : Z → Z) :
  forallb (λ i, f (2 ^ Z.of_nat i) =? g (2 ^ Z.of_nat i)) (seq 0 16) = true →
  ∀ i, (i < 16)%nat → f (2 ^ Z.of_nat i) = g (2 ^ Z.of_nat i).
Proof.
  rewrite List.forallb_forall. intros H i Hi. apply Z.eqb_eq, H, List.in_seq. lia.
Qed.

(** Doubling four equal lanes at once is doubling the lane. *)
Lemma X4_dup4 v : u16 v → GF16_MULTBY_TWO_X4 (dup4 v) = dup4 (T16 v).
Proof.
  apply (linear_ext 16 poly16 (λ v, GF16_MULTBY_TWO_X4 (dup4 v)) (λ v, dup4 (T16 v))).
  - done.
  - done.
  - intros a b Ha Hb. rewrite dup4_lxor, !X4_alt, double_mask_lxor; eauto using dup4_range with par2.
  - intros a b Ha Hb. by rewrite (multby_two_xor 16 poly16), dup4_lxor.
  - apply (basis_16 (λ a, GF16_MULTBY_TWO_X4 (dup4 a)) (λ a, dup4 (T16 a))).
    vm_compute. reflexivity.
Qed.

Lemma X2_lanes v : u16 v →
  GF16_MULTBY_TWO_X2 (Z.lor (Z.shiftl v 16) v) = T16 v ⊕ Z.shiftl (T16 v) 16.
Proof.
  intros Hv. rewrite Z.lor_comm, (lor_disjoint 16), <- (lxor_disjoint 16) by done.
  revert v Hv. apply (linear_ext 16 poly16 (λ v, GF16_MULTBY_TWO_X2 (v ⊕ Z.shiftl v 16))
    (λ v, T16 v ⊕ Z.shiftl (T16 v) 16)); [done|done|..].
  - assert (∀ v, u16 v → in_range 32 (v ⊕ Z.shiftl v 16)) as Hr.
    { intros v Hv. rewrite (lxor_disjoint 16) by done. unfold in_range in *. lia. }
    intros a b Ha Hb. rewrite (Z.shiftl_lxor a b 16), (lxor_interchange a b).
    rewrite !X2_alt, double_mask_lxor; eauto with par2.
  - intros a b Ha Hb. rewrite (multby_two_xor 16 poly16), Z.shiftl_lxor. xor_solve.
  - apply (basis_16 (λ a, GF16_MULTBY_TWO_X2 (a ⊕ Z.shiftl a 16))
      (λ a, T16 a ⊕ Z.shiftl (T16 a) 16)). vm_compute. reflexivity.
Qed.

Lemma table_write64_lookup t e v i :
  table_write64 t e v !! i = if decide (e ≤ i < e + 4) then Some (slice16 v (i - e)) else t !! i.
Proof.
  apply (for_loop_ind (λ n (t' : array),
    t' !! i = if decide (e ≤ i < e + n) then Some (slice16 v (i - e)) else t !! i) 0 4); [lia| |].
  - by rewrite decide_False by lia.
  - intros n t' Hn IH. destruct (decide (i = e + n)) as [->|].
    + rewrite lookup_insert_eq, decide_True by lia. unfold slice16. do 4 f_equal. lia.
    + rewrite lookup_insert_ne, IH by done. repeat case_decide; (done || lia).
Qed.

Section CalcTable.
Context (coef : Z).

(** Entries [base .. base + n - 1] hold the products of [coef] with [e << s]. *)
Definition products (base s n : Z) (t : array) : Prop :=
  ∀ e, 0 ≤ e < n → t !! (base + e) = Some (mul16 coef (Z.shiftl e s)).

Lemma mul16_range a b : u16 (mul16 a b).
Proof. apply (gf_mul_range 16 poly16). Qed.

Lemma table_read64_products base s n t k :
  products base s n t → 0 ≤ k → 4 * k + 4 ≤ n →
  ∃ old, table_read64 t (base + k * 4) = Some old ∧
    ∀ l, 0 ≤ l < 4 → slice16 old l = mul16 coef (Z.shiftl (4 * k + l) s).
Proof.
  intros Hp Hk Hn. unfold table_read64.
  replace (base + k * 4) with (base + 4 * k) by lia.
  rewrite <- !Z.add_assoc, !Hp by lia. simpl. eexists. split; [done|]. intros l Hl.
  rewrite lanes_sum_lor by apply mul16_range. rewrite slice16_lanes by (done || apply mul16_range).
  assert (l = 0 ∨ l = 1 ∨ l = 2 ∨ l = 3) as [->|[->|[->| ->]]] by lia; simpl; repeat f_equal; lia.
Qed.

(** Adding a power of two above all bits in use. *)
Lemma mul16_add_pow e q s : 0 ≤ e < 2 ^ q → 0 ≤ q → 0 ≤ s →
  mul16 coef (Z.shiftl (e + 2 ^ q) s)
  = mul16 coef (Z.shiftl (2 ^ q) s) ⊕ mul16 coef (Z.shiftl e s).
Proof.
  intros He Hq Hs. rewrite <- (gf_mul_xor_r 16 poly16), <- Z.shiftl_lxor. do 2 f_equal.
  rewrite Z.lxor_comm. rewrite <- (Z.mul_1_l (2 ^ q)), <- Z.shiftl_mul_pow2 by done.
  rewrite (lxor_disjoint q) by done. rewrite Z.shiftl_mul_pow2 by done. done.
Qed.

Lemma mul16_double a : 0 ≤ a → 2 * a < 2 ^ 16 → T16 (mul16 coef a) = mul16 coef (2 * a).
Proof.
  intros Ha Hlt. rewrite !(gf_mul_comm 16 poly16 coef).
  assert (2 * a = T16 a) as ->.
  { symmetry. apply (multby_two_small 16 poly16); [unfold in_range|]; simpl; lia. }
  symmetry. apply (gmul_T_l 16 T16 1 bit_of). unfold in_range. simpl. lia.
Qed.

Lemma calc_table_round_ok base s q n j t :
  n = 2 ^ q → n = 4 * j → 0 ≤ q → 0 < j → 0 ≤ base → 0 ≤ s → products base s n t →
  ∃ t', calc_table_round base j (t, dup4 (mul16 coef (Z.shiftl n s)))
        = Some (t', dup4 (T16 (mul16 coef (Z.shiftl n s)))) ∧
    products base s (2 * n) t' ∧ (∀ i, i < base → t' !! i = t !! i).
Proof.
  intros En E Hq Hj Hb Hs Hp. unfold calc_table_round.
  destruct (for_loopM_ind (λ k t', products base s (n + 4 * k) t' ∧ ∀ i, i < base → t' !! i = t !! i)
    0 j (λ k t', old ← table_read64 t' (base + k * 4);
      Some (table_write64 t' (base + 4 * (k + j)) (dup4 (mul16 coef (Z.shiftl n s)) ⊕ old))) t)
    as (t' & -> & Ht' & Hlow).
  - lia.
  - by rewrite Z.mul_0_r, Z.add_0_r.
  - intros k t1 Hk [Hp1 Hl1].
    destruct (table_read64_products base s n t1 k) as (old & -> & Hold); [|lia|lia|].
    { intros e He. apply Hp1. lia. }
    simpl. eexists. split; [done|]. split.
    + intros e He. rewrite table_write64_lookup. case_decide as Hd; [|apply Hp1; lia].
      f_equal. rewrite slice16_lxor, slice16_dup4 by (apply mul16_range || lia).
      rewrite Hold by lia. pose proof (mul16_add_pow (e - n) q s) as Hadd.
      rewrite <- En in Hadd. replace (e - n + n) with e in Hadd by lia.
      rewrite Hadd by lia. do 3 f_equal. lia.
    + intros i Hi. rewrite table_write64_lookup, decide_False by lia. by apply Hl1.
  - exists t'. simpl. rewrite X4_dup4 by apply mul16_range. split; [done|]. split; [|done].
    intros e He. apply Ht'. lia.
Qed.

(** A half of the table, six doublings starting from four entries. *)
Lemma calc_table_half_ok base s t :
  0 ≤ base → 0 ≤ s ≤ 8 → products base s 4 t →
  ∃ t', calc_table_half base (t, dup4 (mul16 coef (Z.shiftl 4 s)))
        = Some (t', dup4 (T16 (mul16 coef (Z.shiftl 128 s)))) ∧
    products base s 256 t' ∧ (∀ i, i < base → t' !! i = t !! i).
Proof.
  intros Hb Hs Hp.
  assert (∀ n, 0 ≤ n ≤ 64 → T16 (mul16 coef (Z.shiftl n s)) = mul16 coef (Z.shiftl (2 * n) s)) as HX.
  { intros n Hn. assert (2 ^ s ≤ 2 ^ 8) by (apply Z.pow_le_mono_r; lia).
    rewrite mul16_double; rewrite ?Z.shiftl_mul_pow2 by lia; [f_equal; lia|nia..]. }
  unfold calc_table_half. cbn [foldl].
  destruct (calc_table_round_ok base s 2 4 1 t) as (t1 & H1 & Hp1 & Hl1); [done || lia..|].
  destruct (calc_table_round_ok base s 3 8 2 t1) as (t2 & H2 & Hp2 & Hl2); [done || lia..|].
  destruct (calc_table_round_ok base s 4 16 4 t2) as (t3 & H3 & Hp3 & Hl3); [done || lia..|].
  destruct (calc_table_round_ok base s 5 32 8 t3) as (t4 & H4 & Hp4 & Hl4); [done || lia..|].
  destruct (calc_table_round_ok base s 6 64 16 t4) as (t5 & H5 & Hp5 & Hl5); [done || lia..|].
  destruct (calc_table_round_ok base s 7 128 32 t5) as (t6 & H6 & Hp6 & Hl6); [done || lia..|].
  rewrite HX in H1, H2, H3, H4, H5 by lia. change (2 * 4) with 8 in H1.
  change (2 * 8) with 16 in H2. change (2 * 16) with 32 in H3.
  change (2 * 32) with 64 in H4. change (2 * 64) with 128 in H5.
  cbn [mbind option_bind]. rewrite H1. cbn [mbind option_bind]. rewrite H2.
  cbn [mbind option_bind]. rewrite H3. cbn [mbind option_bind]. rewrite H4.
  cbn [mbind option_bind]. rewrite H5. cbn [mbind option_bind]. rewrite H6.
  exists t6. split; [done|]. split; [done|].
  intros i Hi. by rewrite Hl6, Hl5, Hl4, Hl3, Hl2, Hl1.
Qed.
End CalcTable.

(** [calc_table] never reads an entry it has not written, and yields the products
    of the coefficient with every low byte and every high byte. *)
Lemma calc_table_ok coef : u16 coef →
  ∃ t, calc_table coef = Some t ∧
    (∀ b, 0 ≤ b < 256 → t !! b = Some (mul16 coef b)) ∧
    (∀ b, 0 ≤ b < 256 → t !! (256 + b) = Some (mul16 coef (256 * b))).
Proof.
  intros Hc. unfold calc_table.
  assert (mul16 coef 0 = 0) as M0 by apply (gf_mul_0_r 16 poly16).
  assert (mul16 coef 1 = coef) as M1 by (apply (gf_mul_1_r 16 poly16); done).
  assert (T16 coef = mul16 coef 2) as M2.
  { rewrite <- M1 at 1. by rewrite mul16_double by lia. }
  assert (∀ a, mul16 coef (Z.lxor a 1) = mul16 coef a ⊕ coef) as M3.
  { intros a. by rewrite (gf_mul_xor_r 16 poly16), M1. }
  rewrite X2_lanes by done. rewrite M2.
  set (t0 := table_write64 ∅ 0 _).
  assert (products coef 0 0 4 t0) as Hp0.
  { intros e He. unfold t0. rewrite table_write64_lookup, decide_True by lia. f_equal.
    rewrite Z.shiftl_0_r, Z.sub_0_r, Z.add_0_l.
    rewrite (lor_disjoint 32) by (unfold in_range in *; rewrite ?Z.shiftl_mul_pow2 by lia; lia).
    replace (mul16 coef 2 ⊕ Z.shiftl (mul16 coef 2) 16 ⊕ Z.shiftl coef 16)
      with (mul16 coef 2 ⊕ Z.shiftl (mul16 coef 3) 16).
    - rewrite (lxor_disjoint 16) by (lia || apply mul16_range). rewrite Z.shiftl_mul_pow2 by lia.
      replace (coef * 2 ^ 16 + (mul16 coef 2 + mul16 coef 3 * 2 ^ 16) * 2 ^ 32)
        with (0 + coef * 2 ^ 16 + mul16 coef 2 * 2 ^ 32 + mul16 coef 3 * 2 ^ 48) by lia.
      rewrite slice16_lanes by (done || apply mul16_range || apply in_range_0; lia).
      assert (e = 0 ∨ e = 1 ∨ e = 2 ∨ e = 3) as [->|[->|[->| ->]]] by lia; done.
    - change 3 with (Z.lxor 2 1). rewrite M3, Z.shiftl_lxor. xor_solve. }
  replace (Z.lor (mul16 coef 2 ⊕ Z.shiftl (mul16 coef 2) 16) (Z.shiftl (mul16 coef 2 ⊕ Z.shiftl (mul16 coef 2) 16) 32))
    with (dup4 (mul16 coef 2)).
  2: { pose proof (mul16_range coef 2) as Hr. unfold dup4. rewrite lanes_sum by done.
       rewrite (lxor_disjoint 16), (lor_disjoint 32) by (unfold in_range in *; lia). lia. }
  rewrite X4_dup4, mul16_double by (apply mul16_range || lia).
  destruct (calc_table_half_ok coef 0 0 t0) as (t1 & Ht1 & Hp1 & _); [lia..|done|].
  rewrite Z.shiftl_0_r in Ht1. change (2 * 2) with 4. rewrite Ht1. cbn [mbind option_bind].
  rewrite Z.shiftl_0_r, mul16_double by lia. change (2 * 128) with 256.
  rewrite !X4_dup4, !mul16_double by (apply mul16_range || lia).
  change (2 * 256) with 512.
  set (t2 := table_write64 t1 256 _).
  assert (products coef 256 8 4 t2) as Hp2.
  { intros e He. unfold t2. rewrite table_write64_lookup, decide_True by lia. f_equal.
    replace (256 + e - 256) with e by lia.
    rewrite slice16_lxor, slice16_land, slice16_shift_two, slice16_dup4
      by (apply mul16_range || lia).
    assert (∀ a, Z.land (mul16 coef a) 0xffff = mul16 coef a) as Hm.
    { intros a. rewrite land_65535. apply Z.mod_small, (mul16_range coef a). }
    assert (e = 0 ∨ e = 1 ∨ e = 2 ∨ e = 3) as [->|[->|[->| ->]]] by lia;
      rewrite ?slice16_dup4 by (apply mul16_range || lia).
    - change (Z.shiftl 0 8) with 0. rewrite M0.
      change (slice16 _ 0) with 0. by rewrite Z.land_0_r.
    - change (slice16 _ 1) with 0xffff. rewrite Hm. apply Z.lxor_0_r.
    - change (slice16 _ 2) with 0. rewrite Z.land_0_r. apply Z.lxor_0_l.
    - change (slice16 _ 3) with 0xffff. rewrite Hm. symmetry.
      apply (gf_mul_xor_r 16 poly16 coef 256 512). }
  destruct (calc_table_half_ok coef 256 8 t2) as (t3 & Ht3 & Hp3 & Hl3); [lia..|done|].
  change (Z.shiftl 4 8) with (2 * 512) in Ht3.
  rewrite X4_dup4, mul16_double by (apply mul16_range || lia). rewrite Ht3. cbn [mbind option_bind].
  exists t3. split; [done|]. split.
  - intros b Hb. rewrite Hl3 by lia. unfold t2.
    rewrite table_write64_lookup, decide_False by lia.
    specialize (Hp1 b Hb). by rewrite Z.shiftl_0_r, Z.add_0_l in Hp1.
  - intros b Hb. rewrite Hp3 by done. do 2 f_equal. rewrite Z.shiftl_mul_pow2 by lia. lia.
Qed.

(** ** Correctness of the kernels *)

Lemma byte_range m a : 0 ≤ byte m a < 256.
Proof. apply Z.mod_pos_bound. lia. Qed.

Lemma word_range m a : u16 (word m a).
Proof.
  unfold word, in_range. pose proof (byte_range m (2 * a)).
  pose proof (byte_range m (2 * a + 1)). lia.
Qed.

Lemma land_255 a : Z.land a 255 = a mod 256.
Proof. apply (Z.land_ones a 8). lia. Qed.

Lemma write64_byte m p v a :
  byte (write64 m p v) a
  = if decide (p ≤ a < p + 8) then Z.land (Z.shiftr v (8 * (a - p))) 255 else byte m a.
Proof.
  apply (for_loop_ind (λ n (m' : array), byte m' a
    = if decide (p ≤ a < p + n) then Z.land (Z.shiftr v (8 * (a - p))) 255 else byte m a) 0 8);
    [lia| |].
  - by rewrite decide_False by lia.
  - intros n m' Hn IH. destruct (decide (a = p + n)) as [->|].
    + unfold byte. rewrite lookup_insert_eq, decide_True by lia. simpl default.
      rewrite wrap_small; [do 2 f_equal; lia|].
      rewrite land_255. apply Z.mod_pos_bound. lia.
    + unfold byte in *. rewrite lookup_insert_ne, IH by done. repeat case_decide; (done || lia).
Qed.

(** A 64-bit store at an even address replaces four words by its lanes. *)
Lemma write64_word m q v a :
  word (write64 m (2 * q) v) a
  = if decide (q ≤ a < q + 4) then slice16 v (a - q) else word m a.
Proof.
  unfold word. rewrite !write64_byte. case_decide as Hd; repeat case_decide; try lia.
  unfold slice16. rewrite !land_255, land_65535, !Z.shiftr_div_pow2 by lia.
  replace (8 * (2 * a - 2 * q)) with (16 * (a - q)) by lia.
  replace (8 * (2 * a + 1 - 2 * q)) with (16 * (a - q) + 8) by lia.
  rewrite (Z.pow_add_r 2 (16 * (a - q)) 8), <- Z.div_div by lia.
  change (2 ^ 8) with 256. Z.div_mod_to_equations. lia.
Qed.

Lemma read64_word m q k : 0 ≤ k < 4 → slice16 (read64 m (2 * q)) k = word m (q + k).
Proof.
  intros Hk.
  assert (read64 m (2 * q) = word m q + word m (q + 1) * 2 ^ 16
    + word m (q + 2) * 2 ^ 32 + word m (q + 3) * 2 ^ 48) as ->.
  { unfold read64.
    destruct (for_loop_ind (λ n v, in_range (8 * n) v ∧
      v = (if 1 <=? n then byte m (2 * q) else 0) + (if 2 <=? n then byte m (2 * q + 1) * 2 ^ 8 else 0)
      + (if 3 <=? n then byte m (2 * q + 2) * 2 ^ 16 else 0) + (if 4 <=? n then byte m (2 * q + 3) * 2 ^ 24 else 0)
      + (if 5 <=? n then byte m (2 * q + 4) * 2 ^ 32 else 0) + (if 6 <=? n then byte m (2 * q + 5) * 2 ^ 40 else 0)
      + (if 7 <=? n then byte m (2 * q + 6) * 2 ^ 48 else 0) + (if 8 <=? n then byte m (2 * q + 7) * 2 ^ 56 else 0))
      0 8 (λ k v, Z.lor v (Z.shiftl (byte m (2 * q + k)) (8 * k))) 0) as [_ ->].
    - lia.
    - split; [unfold in_range; lia|done].
    - intros n v Hn [Hr ->]. rewrite (lor_disjoint (8 * n)) by (done || lia).
      pose proof (byte_range m (2 * q + n)). split.
      + unfold in_range in *. replace (8 * (n + 1)) with (8 * n + 8) by lia.
        rewrite Z.pow_add_r by lia. nia.
      + assert (n = 0 ∨ n = 1 ∨ n = 2 ∨ n = 3 ∨ n = 4 ∨ n = 5 ∨ n = 6 ∨ n = 7)
          as [->|[->|[->|[->|[->|[->|[->| ->]]]]]]] by lia; simpl; rewrite ?Z.add_0_r; lia.
    - unfold word. replace (2 * (q + 1)) with (2 * q + 2) by lia.
      replace (2 * (q + 2)) with (2 * q + 4) by lia. replace (2 * (q + 3)) with (2 * q + 6) by lia.
      replace (2 * q + 2 + 1) with (2 * q + 3) by lia.
      replace (2 * q + 4 + 1) with (2 * q + 5) by lia.
      replace (2 * q + 6 + 1) with (2 * q + 7) by lia.
      cbn [Z.leb Z.compare Pos.compare Pos.compare_cont]. lia. }
  rewrite slice16_lanes by (done || apply word_range).
  assert (k = 0 ∨ k = 1 ∨ k = 2 ∨ k = 3) as [->|[->|[->| ->]]] by lia; simpl;
    rewrite ?Z.add_0_r; done.
Qed.

Section Kernels.
Context (coef : Z) (t : array).
Hypothesis t_lo : ∀ b, 0 ≤ b < 256 → t !! b = Some (mul16 coef b).
Hypothesis t_hi : ∀ b, 0 ≤ b < 256 → t !! (256 + b) = Some (mul16 coef (256 * b)).

Lemma lookup_word_ok m a :
  lookup_word t (byte m (2 * a)) (byte m (2 * a + 1)) = Some (mul16 coef (word m a)).
Proof.
  pose proof (byte_range m (2 * a)). pose proof (byte_range m (2 * a + 1)).
  unfold lookup_word. rewrite (t_lo (byte m (2 * a))), t_hi by done. simpl.
  rewrite <- (gf_mul_xor_r 16 poly16). do 2 f_equal. unfold word.
  transitivity (byte m (2 * a) ⊕ Z.shiftl (byte m (2 * a + 1)) 8).
  - f_equal. rewrite Z.shiftl_mul_pow2 by lia. lia.
  - rewrite (lxor_disjoint 8) by (unfold in_range; lia). lia.
Qed.

Lemma PACK_4X16_slice a b c d k : u16 a → u16 b → u16 c → u16 d → 0 ≤ k < 4 →
  slice16 (PACK_4X16 a b c d) k = if k =? 0 then a else if k =? 1 then b else if k =? 2 then c else d.
Proof.
  intros. rewrite <- slice16_lanes, <- lanes_sum_lor by done. f_equal. unfold PACK_4X16.
  apply Z.bits_inj'. intros i Hi. rewrite !Z.lor_spec. btauto.
Qed.

Lemma lookup_chunk_ok m q :
  ∃ v, lookup_chunk t m (2 * q) = Some v ∧
    ∀ k, 0 ≤ k < 4 → slice16 v k = mul16 coef (word m (q + k)).
Proof.
  unfold lookup_chunk. replace (2 * q + 2) with (2 * (q + 1)) by lia.
  replace (2 * q + 3) with (2 * (q + 1) + 1) by lia.
  replace (2 * q + 4) with (2 * (q + 2)) by lia.
  replace (2 * q + 5) with (2 * (q + 2) + 1) by lia.
  replace (2 * q + 6) with (2 * (q + 3)) by lia.
  replace (2 * q + 7) with (2 * (q + 3) + 1) by lia.
  rewrite !lookup_word_ok. simpl. eexists. split; [done|]. intros k Hk.
  rewrite PACK_4X16_slice by (done || apply mul16_range).
  assert (k = 0 ∨ k = 1 ∨ k = 2 ∨ k = 3) as [->|[->|[->| ->]]] by lia; simpl;
    rewrite ?Z.add_0_r; done.
Qed.

(** The loop over the chunks of a region, for any way [f] of combining the product
    with the previous contents of the destination. *)
Lemma lookup_loop_ok (f : array → Z → Z → Z) (g : Z → Z → Z) m d s n :
  (∀ m q v k, 0 ≤ k < 4 → slice16 (f m (2 * q) v) k = g (slice16 v k) (word m (q + k))) →
  0 ≤ n → (d = s ∨ d + 4 * n ≤ s ∨ s + 4 * n ≤ d) →
  ∃ m', for_loopM 0 n (λ i m,
      v ← lookup_chunk t m (2 * s + 8 * i);
      Some (write64 m (2 * d + 8 * i) (f m (2 * d + 8 * i) v))) m = Some m' ∧
    ∀ a, word m' a = if decide (d ≤ a < d + 4 * n)
      then g (mul16 coef (word m (s + (a - d)))) (word m a) else word m a.
Proof.
  intros Hf Hn Hdisj.
  apply (for_loopM_ind (λ i m', ∀ a, word m' a = if decide (d ≤ a < d + 4 * i)
      then g (mul16 coef (word m (s + (a - d)))) (word m a) else word m a) 0 n); [done| |].
  - intros a. by rewrite decide_False by lia.
  - intros i m1 Hi IH. replace (2 * s + 8 * i) with (2 * (s + 4 * i)) by lia.
    destruct (lookup_chunk_ok m1 (s + 4 * i)) as (v & -> & Hv). simpl.
    eexists. split; [done|]. intros a.
    replace (2 * d + 8 * i) with (2 * (d + 4 * i)) by lia. rewrite write64_word.
    case_decide as Hd.
    + rewrite Hf, Hv by lia. rewrite !IH.
      rewrite (decide_False (P := d ≤ s + 4 * i + (a - (d + 4 * i)) < d + 4 * i)) by lia.
      rewrite decide_False, decide_True by lia. f_equal; [do 2 f_equal; lia|f_equal; lia].
    + rewrite IH. repeat case_decide; (done || lia).
Qed.
End Kernels.

(** Multiplying a region in place, or into a disjoint region; word addresses. *)
Lemma gf16_lookup_mul_ok m d s n c :
  u16 c → 0 ≤ n → n mod 4 = 0 → (d = s ∨ d + n ≤ s ∨ s + n ≤ d) →
  ∃ m', gf16_lookup_mul m (2 * d) (2 * s) (2 * n) c = Some m' ∧
    ∀ a, word m' a = if decide (d ≤ a < d + n) then mul16 c (word m (s + (a - d))) else word m a.
Proof.
  intros Hc Hn Hm Hdisj. destruct (calc_table_ok c Hc) as (t & Ht & Hlo & Hhi).
  unfold gf16_lookup_mul. rewrite Ht. cbn [mbind option_bind].
  assert (2 * n / 8 = n / 4) as -> by (Z.div_mod_to_equations; lia).
  destruct (lookup_loop_ok c t Hlo Hhi (λ _ _ v, v) (λ p _, p) m d s (n / 4)) as (m' & Hm' & Hw).
  - done.
  - Z.div_mod_to_equations; lia.
  - Z.div_mod_to_equations; lia.
  - exists m'. split; [exact Hm'|]. intros a. rewrite Hw.
    replace (4 * (n / 4)) with n by (Z.div_mod_to_equations; lia). done.
Qed.

Lemma gf16_lookup_muladd_ok m d s n c :
  u16 c → 0 ≤ n → n mod 4 = 0 → (d + n ≤ s ∨ s + n ≤ d) →
  ∃ m', gf16_lookup_muladd m (2 * d) (2 * s) (2 * n) c = Some m' ∧
    ∀ a, word m' a = if decide (d ≤ a < d + n)
      then mul16 c (word m (s + (a - d))) ⊕ word m a else word m a.
Proof.
  intros Hc Hn Hm Hdisj. destruct (calc_table_ok c Hc) as (t & Ht & Hlo & Hhi).
  unfold gf16_lookup_muladd. rewrite Ht. cbn [mbind option_bind].
  assert (2 * n / 8 = n / 4) as -> by (Z.div_mod_to_equations; lia).
  destruct (lookup_loop_ok c t Hlo Hhi (λ m p v, v ⊕ read64 m p) (λ p w, p ⊕ w) m d s (n / 4))
    as (m' & Hm' & Hw).
  - intros. by rewrite slice16_lxor, read64_word.
  - Z.div_mod_to_equations; lia.
  - Z.div_mod_to_equations; lia.
  - exists m'. split; [exact Hm'|]. intros a. rewrite Hw.
    replace (4 * (n / 4)) with n by (Z.div_mod_to_equations; lia). done.
Qed.

(** ** Theorems *)

(** [calc_table] builds the two halves of the lookup table: entry [b] is the
    product of the coefficient with the byte [b], entry [256 + b] with [b << 8]. *)
Theorem calc_table_correct coef : u16 coef →
  ∃ t, calc_table coef = Some t ∧ ∀ b, 0 ≤ b < 256 →
    t !! b = Some (mul16 coef b) ∧ t !! (256 + b) = Some (mul16 coef (256 * b)).
Proof.
  intros Hc. destruct (calc_table_ok coef Hc) as (t & Ht & Hlo & Hhi). exists t. split; [done|].
  intros b Hb. split; [by apply Hlo|by apply Hhi].
Qed.

Lemma calc_table_correct_witness :
  ∃ t, calc_table 0x1234 = Some t ∧ t !! 2 = Some (mul16 0x1234 2).
Proof.
  destruct (calc_table_correct 0x1234) as (t & Ht & Hb); [done|]. exists t. split; [exact Ht|].
  apply (Hb 2). lia.
Defined.

(** C16: The portable region multiply-add of gf16_lookup.c adds the coefficient times the
    source words to the destination words, on a region of whole 8-byte chunks disjoint
    from the source, and changes nothing else. *)
Theorem gf16_lookup_muladd_correct m d s n c :
  u16 c → 0 ≤ n → n mod 4 = 0 → (d + n ≤ s ∨ s + n ≤ d) →
  ∃ m', gf16_lookup_muladd m (2 * d) (2 * s) (2 * n) c = Some m' ∧
    ∀ a, word m' a = if decide (d ≤ a < d + n)
      then mul16 c (word m (s + (a - d))) ⊕ word m a else word m a.
Proof. apply gf16_lookup_muladd_ok. Qed.

Lemma gf16_lookup_muladd_correct_witness :
  ∃ m', gf16_lookup_muladd (<[9 := 0x12]> (<[8 := 0x34]> ∅)) 0 8 8 0x1111 = Some m' ∧
    word m' 0 = mul16 0x1111 0x1234.
Proof.
  destruct (gf16_lookup_muladd_correct (<[9 := 0x12]> (<[8 := 0x34]> ∅)) 0 4 4 0x1111)
    as (m' & Hm' & Hw); [done|lia|done|lia|].
  exists m'. split; [exact Hm'|]. rewrite Hw. vm_compute. reflexivity.
Defined.
