(* ===== verification/GfMul.v ===== *)
(** * GfMul.v: [Galois16Mul] of include/par2/gf16/gf16mul.h

    [Galois16Mul] is a table of function pointers to a region-multiplication
    kernel plus thin wrappers around them.  [kernel] is that table; [KernelLaws]
    is what a kernel promises to its clients (the matrix inversion), and
    [lookup_kernel] discharges it for the portable kernel of gf16_lookup.c.

    Addresses and lengths are in 16-bit words relative to the buffer.  A kernel
    may keep data in a transformed layout: [view] is the word a kernel's operations
    see, [k_read] the plain word of memory. *)

From S2P Require Import Prelude LinOp GF GfCoeff GfLookup.

Record kernel (M : Type) := {
  k_stride : Z;              (* [_info.stride], in words *)
  k_idealChunkSize : Z;      (* [_info.idealChunkSize], in bytes *)
  k_idealInputMultiple : Z;  (* [_info.idealInputMultiple] *)
  k_read : M → Z → Z;
  k_write : M → Z → Z → M;
  k_memset0 : M → Z → Z → M;
  k_mul : M → Z → Z → Z → Z → option M;      (* [_mul]: dst src len coefficient *)
  k_mul_add : M → Z → Z → Z → Z → option M;  (* [_mul_add] *)
  k_mul_add_multi : option (M → Z → list Z → Z → list Z → option M);
  k_replace_word : M → Z → Z → Z → Z * M;    (* [replace_word]: data index newValue *)
  k_needPrepare : bool;
  k_prepare : M → Z → M;
  k_finish : M → Z → M;
  k_pmul : option (M → Z → Z → Z → Z → option M);  (* [gf16pmul]: dst src1 src2 len *)
  k_pmul_blocklen : Z;       (* [gf16pmul_blocklen], in words *)
}.
Arguments k_stride {M}. Arguments k_idealChunkSize {M}. Arguments k_idealInputMultiple {M}.
Arguments k_read {M}. Arguments k_write {M}. Arguments k_memset0 {M}. Arguments k_mul {M}.
Arguments k_mul_add {M}. Arguments k_mul_add_multi {M}. Arguments k_replace_word {M}.
Arguments k_needPrepare {M}. Arguments k_prepare {M}. Arguments k_finish {M}. Arguments k_pmul {M}.
Arguments k_pmul_blocklen {M}.

(** ** The wrappers *)

Section Galois16Mul.
Context {M : Type} (k : kernel M).

(** [Galois16Mul::mul] in place ([dst == src], the only way it is called) *)
Definition gf_mul_inplace (m : M) (dst len coefficient : Z) : option M :=
  if Z.land coefficient 0xfffe =? 0 then
    if coefficient =? 0 then Some (k_memset0 k m dst len) else Some m
  else k_mul k m dst dst len coefficient.

(** [Galois16Mul::mul_add] (and [mul_add_pf], whose prefetch is a hint) *)
Definition gf_mul_add (m : M) (dst src len coefficient : Z) : option M :=
  if coefficient =? 0 then Some m else k_mul_add k m dst src len coefficient.

(** The fallback loop of [mul_add_multi] *)
Fixpoint mul_add_regions (m : M) (dst : Z) (srcs : list Z) (len : Z) (coefficients : list Z) : option M :=
  match srcs, coefficients with
  | src :: srcs, c :: cs =>
      m ← k_mul_add k m dst src len c;
      mul_add_regions m dst srcs len cs
  | _, _ => Some m
  end.

(** [Galois16Mul::mul_add_multi] (and [mul_add_multi_stridepf]) *)
Definition gf_mul_add_multi (m : M) (dst : Z) (srcs : list Z) (len : Z) (coefficients : list Z) : option M :=
  match k_mul_add_multi k with
  | Some f => f m dst srcs len coefficients
  | None => mul_add_regions m dst srcs len coefficients
  end.

(** [Galois16Mul::alignToStride], in bytes; [stride] is a power of two. *)
Definition alignToStride (len : Z) : Z :=
  let alignMask := 2 * k_stride k - 1 in
  Z.land (len + alignMask) (Z.lnot alignMask).
End Galois16Mul.

(** ** The interface *)

Definition disjoint_regions (d s n : Z) : Prop := d + n ≤ s ∨ s + n ≤ d.

(** The exclusive-or sum of the products that a multi-region operation adds. *)
Definition products_at {M} (view : M → Z → Z) (m : M) (off : Z) (srcs cs : list Z) : Z :=
  xsum (λ '(s, c), mul16 c (view m (s + off))) (zip srcs cs).

Class KernelLaws {M} (k : kernel M) (view : M → Z → Z) : Prop := {
  kl_stride : ∃ n, 0 ≤ n ∧ k_stride k = 2 ^ n;
  kl_chunk : 0 < k_idealChunkSize k;
  kl_multiple : 1 ≤ k_idealInputMultiple k;
  kl_view_range m a : u16 (view m a);
  kl_read_range m a : u16 (k_read k m a);
  kl_write m a v b : u16 v → k_read k (k_write k m a v) b = if decide (a = b) then v else k_read k m b;
  kl_memset m d n a : d mod k_stride k = 0 → n mod k_stride k = 0 → 0 ≤ n →
    view (k_memset0 k m d n) a = if decide (d ≤ a < d + n) then 0 else view m a;
  kl_mul m d n c : d mod k_stride k = 0 → n mod k_stride k = 0 → 0 ≤ n → u16 c →
    ∃ m', k_mul k m d d n c = Some m' ∧
      ∀ a, view m' a = if decide (d ≤ a < d + n) then mul16 c (view m a) else view m a;
  kl_mul_add m d s n c :
    d mod k_stride k = 0 → s mod k_stride k = 0 → n mod k_stride k = 0 → 0 ≤ n → u16 c →
    disjoint_regions d s n →
    ∃ m', k_mul_add k m d s n c = Some m' ∧
      ∀ a, view m' a = if decide (d ≤ a < d + n)
        then mul16 c (view m (s + (a - d))) ⊕ view m a else view m a;
  kl_mul_add_multi f : k_mul_add_multi k = Some f → ∀ m d srcs n cs,
    d mod k_stride k = 0 → Forall (λ s, s mod k_stride k = 0) srcs → n mod k_stride k = 0 → 0 ≤ n →
    Forall (λ c, u16 c) cs → length srcs = length cs →
    Forall (λ s, disjoint_regions d s n) srcs →
    ∃ m', f m d srcs n cs = Some m' ∧
      ∀ a, view m' a = if decide (d ≤ a < d + n)
        then products_at view m (a - d) srcs cs ⊕ view m a else view m a;
  kl_replace m base i v : base mod k_stride k = 0 → 0 ≤ i → u16 v →
    fst (k_replace_word k m base i v) = view m (base + i) ∧
    ∀ a, view (snd (k_replace_word k m base i v)) a
         = if decide (a = base + i) then v else view m a;
  kl_plain m a : k_needPrepare k = false → view m a = k_read k m a;
  kl_prepare m n a : k_needPrepare k = true → n mod k_stride k = 0 → 0 ≤ a < n →
    view (k_prepare k m n) a = k_read k m a;
  kl_finish m n a : k_needPrepare k = true → n mod k_stride k = 0 → 0 ≤ a < n →
    k_read k (k_finish k m n) a = view m a;
  kl_pmul f : k_pmul k = Some f → ∀ m d s1 s2 n,
    d mod k_stride k = 0 → s1 mod k_stride k = 0 → s2 mod k_stride k = 0 →
    n mod k_stride k = 0 → n mod k_pmul_blocklen k = 0 → 0 ≤ n →
    disjoint_regions d s1 n → disjoint_regions d s2 n →
    ∃ m', f m d s1 s2 n = Some m' ∧
      ∀ a, k_read k m' a = if decide (d ≤ a < d + n)
        then mul16 (k_read k m (s1 + (a - d))) (k_read k m (s2 + (a - d))) else k_read k m a;
}.

Section Wrappers.
Context {M : Type} (k : kernel M) (view : M → Z → Z) `{L : !KernelLaws k view}.

Lemma land_fffe c : u16 c → Z.land c 0xfffe = 0 → c = 0 ∨ c = 1.
Proof.
  intros Hc H. assert (Z.land (Z.shiftr c 1) 0x7fff = 0) as H1.
  { change 0x7fff with (Z.shiftr 0xfffe 1). by rewrite <- Z.shiftr_land, H. }
  change 0x7fff with (Z.ones 15) in H1. rewrite Z.land_ones, Z.shiftr_div_pow2 in H1 by lia.
  unfold in_range in Hc. change (2 ^ 1) with 2 in H1. change (2 ^ 15) with 32768 in H1.
  change (2 ^ 16) with 65536 in Hc. Z.div_mod_to_equations. lia.
Qed.

Lemma gf_mul_inplace_ok m d n c :
  d mod k_stride k = 0 → n mod k_stride k = 0 → 0 ≤ n → u16 c →
  ∃ m', gf_mul_inplace k m d n c = Some m' ∧
    ∀ a, view m' a = if decide (d ≤ a < d + n) then mul16 c (view m a) else view m a.
Proof.
  intros Hd Hn Hn0 Hc. unfold gf_mul_inplace. destruct (Z.eqb_spec (Z.land c 0xfffe) 0) as [E|E].
  - destruct (land_fffe c Hc E) as [-> | ->]; simpl; eexists; (split; [done|]); intros a.
    + rewrite kl_memset by done. by rewrite (gf_mul_0_l 16 poly16).
    + rewrite (gf_mul_1_l 16 poly16) by apply kl_view_range. by case_decide.
  - by apply kl_mul.
Qed.

Lemma gf_mul_add_ok m d s n c :
  d mod k_stride k = 0 → s mod k_stride k = 0 → n mod k_stride k = 0 → 0 ≤ n → u16 c →
  disjoint_regions d s n →
  ∃ m', gf_mul_add k m d s n c = Some m' ∧
    ∀ a, view m' a = if decide (d ≤ a < d + n)
      then mul16 c (view m (s + (a - d))) ⊕ view m a else view m a.
Proof.
  intros. unfold gf_mul_add. destruct (Z.eqb_spec c 0) as [->|]; [|by apply kl_mul_add].
  eexists. split; [done|]. intros a. rewrite (gf_mul_0_l 16 poly16), Z.lxor_0_l. by case_decide.
Qed.

Lemma mul_add_regions_ok m d srcs n cs :
  d mod k_stride k = 0 → Forall (λ s, s mod k_stride k = 0) srcs → n mod k_stride k = 0 → 0 ≤ n →
  Forall (λ c, u16 c) cs → length srcs = length cs → Forall (λ s, disjoint_regions d s n) srcs →
  ∃ m', mul_add_regions k m d srcs n cs = Some m' ∧
    ∀ a, view m' a = if decide (d ≤ a < d + n)
      then products_at view m (a - d) srcs cs ⊕ view m a else view m a.
Proof.
  intros Hd Hs Hn Hn0 Hc Hlen Hdisj. revert m cs Hc Hlen.
  induction srcs as [|s srcs IH]; intros m [|c cs] Hc Hlen; try done.
  - exists m. split; [done|]. intros a. unfold products_at. simpl. by case_decide.
  - apply Forall_cons in Hs as [Hs1 Hs]. apply Forall_cons in Hc as [Hc1 Hc].
    apply Forall_cons in Hdisj as [Hd1 Hdisj]. simpl.
    destruct (kl_mul_add m d s n c) as (m1 & -> & Hm1); [done..|]. simpl.
    destruct (IH Hs Hdisj m1 cs Hc) as (m' & -> & Hm'); [by injection Hlen|].
    exists m'. split; [done|]. intros a. rewrite Hm', Hm1. case_decide as Ha; [|done].
    unfold products_at in *. simpl. rewrite (xsum_ext _ (λ '(s0, c0), mul16 c0 (view m (s0 + (a - d))))).
    + xor_solve.
    + intros [s' c'] Hin. rewrite Hm1, decide_False; [done|].
      apply elem_of_zip_l in Hin. rewrite Forall_forall in Hdisj.
      specialize (Hdisj s' Hin). unfold disjoint_regions in Hdisj. lia.
Qed.

Lemma gf_mul_add_multi_ok m d srcs n cs :
  d mod k_stride k = 0 → Forall (λ s, s mod k_stride k = 0) srcs → n mod k_stride k = 0 → 0 ≤ n →
  Forall (λ c, u16 c) cs → length srcs = length cs → Forall (λ s, disjoint_regions d s n) srcs →
  ∃ m', gf_mul_add_multi k m d srcs n cs = Some m' ∧
    ∀ a, view m' a = if decide (d ≤ a < d + n)
      then products_at view m (a - d) srcs cs ⊕ view m a else view m a.
Proof.
  intros. unfold gf_mul_add_multi. destruct (k_mul_add_multi k) as [f|] eqn:E.
  - by apply (kl_mul_add_multi f E).
  - by apply mul_add_regions_ok.
Qed.

Lemma stride_pos : 0 < k_stride k.
Proof. destruct kl_stride as (n & Hn & ->). apply Z.pow_pos_nonneg; lia. Qed.

Lemma alignToStride_ok len : 0 ≤ len →
  alignToStride k len mod (2 * k_stride k) = 0 ∧ len ≤ alignToStride k len.
Proof.
  intros Hlen. unfold alignToStride. destruct kl_stride as (n & Hn & ->).
  replace (2 * 2 ^ n) with (2 ^ (n + 1)) by (rewrite Z.pow_add_r by lia; lia).
  replace (2 ^ (n + 1) - 1) with (Z.ones (n + 1)) by (rewrite Z.ones_equiv; lia).
  rewrite <- Z.ldiff_land, Z.ldiff_ones_r by lia.
  rewrite Z.shiftl_mul_pow2, Z.shiftr_div_pow2 by lia.
  assert (0 < 2 ^ (n + 1)) by (apply Z.pow_pos_nonneg; lia).
  rewrite Z.ones_equiv. split; [by apply Z.mod_mul; lia|].
  Z.div_mod_to_equations. nia.
Qed.
End Wrappers.

(** ** The portable kernel *)

(** Storing a 16-bit word, little endian. *)
Definition write_word (m : array) (a v : Z) : array :=
  <[2 * a + 1 := Z.shiftr v 8]> (<[2 * a := Z.land v 0xff]> m).

(** [Galois16Mul::_replace_word] *)
Definition _replace_word (m : array) (data index newValue : Z) : Z * array :=
  let p := 2 * data + index * 2 in
  let oldValue := Z.lor (byte m p) (Z.shiftl (byte m (p + 1)) 8) in
  let m := <[p := Z.land newValue 0xff]> m in
  let m := <[p + 1 := Z.shiftr newValue 8]> m in
  (oldValue, m).

(** [memset(dst, 0, len)] *)
Definition memset0 (m : array) (d n : Z) : array :=
  for_loop (2 * d) (2 * (d + n)) (λ a m, <[a := 0]> m) m.

(** The entries [setupMethod] installs for [GF16_LOOKUP]. *)
Definition lookup_kernel : kernel array := {|
  k_stride := gf16_lookup_stride / 2;
  k_idealChunkSize := 32 * 1024;
  k_idealInputMultiple := 1;
  k_read := word;
  k_write := write_word;
  k_memset0 := memset0;
  k_mul := λ m d s n c, gf16_lookup_mul m (2 * d) (2 * s) (2 * n) c;
  k_mul_add := λ m d s n c, gf16_lookup_muladd m (2 * d) (2 * s) (2 * n) c;
  k_mul_add_multi := None;
  k_replace_word := _replace_word;
  k_needPrepare := false;
  k_prepare := λ m _, m;
  k_finish := λ m _, m;
  k_pmul := None;
  k_pmul_blocklen := 0;
|}.

Lemma byte_insert m a v b :
  byte (<[a := v]> m) b = if decide (a = b) then wrap 8 v else byte m b.
Proof.
  unfold byte. destruct (decide (a = b)) as [->|]; [by rewrite lookup_insert_eq|].
  by rewrite lookup_insert_ne.
Qed.

Lemma write_word_word m a v b : u16 v →
  word (write_word m a v) b = if decide (a = b) then v else word m b.
Proof.
  intros Hv. unfold word, write_word. rewrite !byte_insert.
  destruct (decide (a = b)) as [->|].
  - repeat case_decide; try lia.
    unfold wrap. change 0xff with (Z.ones 8). rewrite Z.land_ones, Z.shiftr_div_pow2 by lia.
    unfold in_range in Hv. change (2 ^ 8) with 256. change (2 ^ 16) with 65536 in Hv.
    Z.div_mod_to_equations. lia.
  - by rewrite !decide_False by lia.
Qed.

Lemma _replace_word_eq m data index v :
  _replace_word m data index v = (word m (data + index), write_word m (data + index) v).
Proof.
  unfold _replace_word, word, write_word.
  replace (2 * data + index * 2) with (2 * (data + index)) by lia. f_equal.
  rewrite (lor_disjoint 8) by (lia || apply byte_range). lia.
Qed.

Lemma memset0_word m d n a : 0 ≤ n →
  word (memset0 m d n) a = if decide (d ≤ a < d + n) then 0 else word m a.
Proof.
  intros Hn.
  assert (∀ b, byte (memset0 m d n) b = if decide (2 * d ≤ b < 2 * (d + n)) then 0 else byte m b) as H.
  { intros b. pose (P := λ (i : Z) (m' : array),
      byte m' b = if decide (2 * d ≤ b < i) then 0 else byte m b).
    apply (for_loop_ind P); unfold P; [lia| |].
    - by rewrite decide_False by lia.
    - intros i m' Hi IH. rewrite byte_insert, IH. repeat case_decide; (done || lia). }
  unfold word. rewrite !H. repeat case_decide; (done || lia).
Qed.

#[export] Instance lookup_kernel_laws : KernelLaws lookup_kernel word.
Proof.
  split.
  - exists 2. done.
  - done.
  - done.
  - apply word_range.
  - apply word_range.
  - intros. by apply write_word_word.
  - intros m d n a Hd Hn H0. by apply memset0_word.
  - intros m d n c Hd Hn H0 Hc. simpl.
    destruct (gf16_lookup_mul_ok m d d n c) as (m' & Hm' & Hw); [done..|by left|].
    exists m'. split; [done|]. intros a. rewrite Hw. by replace (d + (a - d)) with a by lia.
  - intros m d s n c Hd Hs Hn H0 Hc Hdisj. simpl. by apply gf16_lookup_muladd_ok.
  - done.
  - intros m base i v Hb Hi Hv. cbn [k_replace_word lookup_kernel].
    rewrite _replace_word_eq. cbn [fst snd]. split; [done|].
    intros a. rewrite write_word_word by done. repeat case_decide; (done || lia).
  - done.
  - done.
  - done.
  - done.
Qed.

(** A kernel with the optional entries: the portable one with a function for several regions
    and one for point-wise products, as the vector kernels have them *)
Definition point_products (m : array) (d s1 s2 n : Z) : array :=
  for_loop 0 n (λ i m', write_word m' (d + i) (mul16 (word m' (s1 + i)) (word m' (s2 + i)))) m.
Definition wide_kernel : kernel array := {|
  k_stride := k_stride lookup_kernel;
  k_idealChunkSize := k_idealChunkSize lookup_kernel;
  k_idealInputMultiple := 3;
  k_read := word;
  k_write := write_word;
  k_memset0 := memset0;
  k_mul := k_mul lookup_kernel;
  k_mul_add := k_mul_add lookup_kernel;
  k_mul_add_multi := Some (mul_add_regions lookup_kernel);
  k_replace_word := _replace_word;
  k_needPrepare := false;
  k_prepare := λ m _, m;
  k_finish := λ m _, m;
  k_pmul := Some (λ m d s1 s2 n, Some (point_products m d s1 s2 n));
  k_pmul_blocklen := 4;
|}.

Lemma point_products_word m d s1 s2 n a : 0 ≤ n → disjoint_regions d s1 n → disjoint_regions d s2 n →
  word (point_products m d s1 s2 n) a = if decide (d ≤ a < d + n) then mul16 (word m (s1 + (a - d))) (word m (s2 + (a - d))) else word m a.
Proof.
  intros Hn H1 H2. unfold disjoint_regions in *. unfold point_products.
  assert (∀ a, word (for_loop 0 n (λ i m', write_word m' (d + i) (mul16 (word m' (s1 + i)) (word m' (s2 + i)))) m) a
    = if decide (d ≤ a < d + n) then mul16 (word m (s1 + (a - d))) (word m (s2 + (a - d))) else word m a) as H; [|apply H].
  pose (P := λ (i : Z) (m' : array), ∀ a, word m' a = if decide (d ≤ a < d + i) then mul16 (word m (s1 + (a - d))) (word m (s2 + (a - d))) else word m a).
  apply (for_loop_ind P); unfold P; [lia| |].
  - intros b. by rewrite decide_False by lia.
  - intros i m' Hi IH b. rewrite write_word_word by apply (gf_mul_range 16 poly16). destruct (decide (d + i = b)) as [<-|Hne].
    + rewrite !IH, !decide_False by lia. rewrite decide_True by lia. by replace (d + i - d) with i by lia.
    + rewrite IH. repeat case_decide; (done || lia).
Qed.

#[export] Instance wide_kernel_laws : KernelLaws wide_kernel word.
Proof.
  destruct lookup_kernel_laws. split; try done.
  - intros f [= <-] m d srcs n cs Hd Hs Hn H0 Hc Hl HF. by apply (mul_add_regions_ok lookup_kernel word).
  - intros f [= <-] m d s1 s2 n _ _ _ _ _ H0 H1 H2. eexists. split; [reflexivity|]. intros a. by apply point_products_word.
Qed.
