(* ===== verification/RecElim.v ===== *)
(** * RecElim.v: the algebra of in-place Gauss-Jordan inversion

    A row of the recovery matrix always states one linear equation between three
    vectors: the available inputs [V], the recovery blocks [X] and the missing
    blocks [Y].  Before row [r] is scaled it expresses [X r], afterwards [Y r]; and
    because the inversion is done in place, the column of missing block [k] stands
    for [Y k] until it has been substituted and for [X k] from then on.  [row_ok a S r]
    says that the coefficients [a] satisfy that reading, [S] being the set of columns
    already substituted.  The three row operations of gfmat_inv.cpp are shown to
    preserve it. *)

From S2P Require Import Prelude LinOp GF GfCoeff.

Section Elim.
Context (numRec validCount : Z).
(** The data the equations are about: any [V], [X], [Y] related by the
    coefficients of the recovery blocks. *)
Context (Sys : (Z → Z) → (Z → Z) → (Z → Z) → Prop).
Hypothesis Sys_range : ∀ V X Y, Sys V X Y → ∀ i, u16 (V i) ∧ u16 (X i) ∧ u16 (Y i).
Hypothesis validCount_nonneg : 0 ≤ validCount.

Definition columns : list Z := seqZ 0 (validCount + numRec).

Definition colval (V X Y : Z → Z) (S : Z → bool) (c : Z) : Z :=
  if c <? validCount then V c
  else if S (c - validCount) then X (c - validCount) else Y (c - validCount).

Definition row_ok (a : Z → Z) (S : Z → bool) (r : Z) : Prop :=
  ∀ V X Y, Sys V X Y →
    (if S r then Y r else X r) = xsum (λ c, mul16 (a c) (colval V X Y S c)) columns.

Lemma colval_ext V X Y S S' c : (∀ k, 0 ≤ k < numRec → S k = S' k) → c ∈ columns →
  colval V X Y S c = colval V X Y S' c.
Proof.
  unfold columns, colval. intros HS Hc%elem_of_seqZ. case_match eqn:E; [done|].
  by rewrite HS by lia.
Qed.

Lemma row_ok_ext a a' S S' r : 0 ≤ r < numRec →
  (∀ c, c ∈ columns → a c = a' c) → (∀ k, 0 ≤ k < numRec → S k = S' k) →
  row_ok a S r → row_ok a' S' r.
Proof.
  intros Hr Ha HS H V X Y HD. rewrite <- HS by done. rewrite (H V X Y HD).
  apply xsum_ext. intros c Hc. by rewrite Ha, (colval_ext V X Y S S').
Qed.

Lemma columns_missing k : 0 ≤ k < numRec → validCount + k ∈ columns.
Proof. intros. apply elem_of_seqZ. lia. Qed.

Lemma colval_missing V X Y S k : 0 ≤ k → colval V X Y S (validCount + k) = if S k then X k else Y k.
Proof.
  intros. unfold colval. rewrite (proj2 (Z.ltb_ge _ _)) by lia.
  by replace (validCount + k - validCount) with k by lia.
Qed.

(** Splitting the columns of the missing blocks [srcs] off a row sum. *)
Lemma columns_split f srcs : NoDup srcs → (∀ s, s ∈ srcs → 0 ≤ s < numRec) →
  xsum f columns = xsum (λ s, f (validCount + s)) srcs
    ⊕ xsum (λ c, if decide (c - validCount ∈ srcs) then 0 else f c) columns.
Proof.
  intros Hnd Hs. rewrite (xsum_split f columns (Z.add validCount <$> srcs)).
  - rewrite xsum_map. f_equal. apply xsum_ext. intros c _.
    assert (c ∈ Z.add validCount <$> srcs ↔ c - validCount ∈ srcs) as E.
    { rewrite list_elem_of_fmap. split.
      - intros (s & -> & H). by replace (validCount + s - validCount) with s by lia.
      - intros. exists (c - validCount). split; [lia|done]. }
    by destruct (decide (c - validCount ∈ srcs)), (decide (c ∈ Z.add validCount <$> srcs)); try tauto.
  - apply NoDup_seqZ.
  - apply NoDup_fmap_2; [|done]. intros x y. lia.
  - intros c (s & -> & H)%list_elem_of_fmap. apply columns_missing. by apply Hs.
Qed.

Lemma columns_pivot f r : 0 ≤ r < numRec →
  xsum f columns = f (validCount + r)
    ⊕ xsum (λ c, if decide (c = validCount + r) then 0 else f c) columns.
Proof.
  intros Hr. rewrite (columns_split f [r]).
  - rewrite xsum_cons. change (xsum _ []) with 0. rewrite Z.lxor_0_r. f_equal.
    apply xsum_ext. intros c _.
    destruct (decide (c - validCount ∈ [r])) as [E|E], (decide (c = validCount + r));
      rewrite list_elem_of_singleton in E; (done || lia).
  - apply NoDup_singleton.
  - intros s ->%list_elem_of_singleton. done.
Qed.

(** Substituting [srcs] does not change the other columns. *)
Lemma colval_subst V X Y S S' (srcs : list Z) c :
  (∀ k, 0 ≤ k < numRec → S' k = bool_decide (k ∈ srcs) || S k) → c ∈ columns →
  c - validCount ∉ srcs → colval V X Y S' c = colval V X Y S c.
Proof.
  intros HS Hc%elem_of_seqZ Hn. unfold colval. destruct (Z.ltb_spec c validCount); [done|].
  by rewrite HS, bool_decide_false by (done || lia).
Qed.

(** Scaling the pivot row: the pivot is replaced by one and the row multiplied by
    the reciprocal of the pivot. *)
Lemma row_scale a S r inv : 0 ≤ r < numRec → S r = false → mul16 inv (a (validCount + r)) = 1 →
  row_ok a S r →
  row_ok (λ c, mul16 inv (if decide (c = validCount + r) then 1 else a c)) (λ k, (k =? r) || S k) r.
Proof.
  intros Hr HS Hinv H V X Y HD. rewrite Z.eqb_refl. simpl.
  destruct (Sys_range V X Y HD r) as (_ & HX & HY).
  specialize (H V X Y HD). rewrite HS in H.
  rewrite (columns_pivot _ r) in H by done. rewrite (columns_pivot _ r) by done.
  rewrite colval_missing, HS in H by lia. rewrite colval_missing, Z.eqb_refl, decide_True by (done || lia).
  cbn [orb]. rewrite <- (gf_mul_assoc 16 poly16), (gf_mul_1_l 16 poly16) by done.
  rewrite H, (gf_mul_xor_r 16 poly16), (gf_mul_assoc 16 poly16), Hinv, (gf_mul_1_l 16 poly16) by done.
  rewrite (gf_mul_xsum_r 16 poly16), Z.lxor_assoc, <- xsum_lxor.
  rewrite xsum_zeros; [by rewrite Z.lxor_0_r|]. intros c Hc. case_decide as Hcr.
  - by rewrite (gf_mul_0_r 16 poly16).
  - rewrite (colval_subst V X Y S (λ k, (k =? r) || S k) [r]); [|intros k _|done|].
    + by rewrite (gf_mul_assoc 16 poly16), Z.lxor_nilpotent.
    + f_equal. apply eq_true_iff_eq. rewrite Z.eqb_eq, bool_decide_eq_true. set_solver.
    + rewrite list_elem_of_singleton. lia.
Qed.

(** Eliminating the columns [srcs] of row [d] with the scaled rows [b s]. *)
Lemma row_eliminate a b S S' d (srcs : list Z) :
  NoDup srcs → d ∉ srcs → (∀ s, s ∈ srcs → 0 ≤ s < numRec ∧ S s = false ∧ row_ok (b s) S' s) →
  0 ≤ d < numRec → (∀ k, 0 ≤ k < numRec → S' k = bool_decide (k ∈ srcs) || S k) →
  row_ok a S d →
  row_ok (λ c, xsum (λ s, mul16 (a (validCount + s)) (b s c)) srcs
               ⊕ (if decide (c - validCount ∈ srcs) then 0 else a c)) S' d.
Proof.
  intros Hnd Hds Hs Hd HS' H V X Y HD.
  rewrite HS', bool_decide_false by done. simpl. rewrite (H V X Y HD).
  rewrite (columns_split _ srcs) by (naive_solver).
  rewrite (xsum_ext (λ c, mul16 (_ ⊕ _) _)
    (λ c, xsum (λ s, mul16 (a (validCount + s)) (mul16 (b s c) (colval V X Y S' c))) srcs
          ⊕ (if decide (c - validCount ∈ srcs) then 0 else mul16 (a c) (colval V X Y S c)))).
  2:{ intros c Hc. rewrite (gf_mul_xor_l 16 poly16), (gf_mul_xsum_l 16 poly16). f_equal.
      - apply xsum_ext. intros s _. by rewrite (gf_mul_assoc 16 poly16).
      - case_decide; [by rewrite (gf_mul_0_l 16 poly16)|].
        by rewrite (colval_subst V X Y S S' srcs). }
  rewrite xsum_lxor, xsum_swap. f_equal. apply xsum_ext. intros s Hin.
  destruct (Hs s Hin) as (Hsr & Hss & Hrow).
  rewrite <- (gf_mul_xsum_r 16 poly16), <- (Hrow V X Y HD).
  rewrite colval_missing, Hss, HS', bool_decide_true by (done || lia). done.
Qed.

(** What a zero pivot means: row [r] is a combination of the available inputs, the
    recovery blocks already substituted and the missing blocks other than [r]. *)
Definition dependent (r : Z) : Prop :=
  ∃ a S, (∀ c, u16 (a c)) ∧ row_ok a S r ∧ a (validCount + r) = 0
    ∧ ∀ k, 0 ≤ k < numRec → S k = (k <? r).

(** All rows of a matrix. *)
Definition rows_ok (A : Z → Z → Z) (sub : Z → Z → bool) : Prop :=
  ∀ r, 0 ≤ r < numRec → row_ok (A r) (sub r) r.
End Elim.

(** The system of a matrix: the recovery blocks are what its rows say *)
Definition matrix_system (numRec validCount : Z) (A : Z → Z → Z) (V X Y : Z → Z) : Prop :=
  (∀ i, u16 (V i) ∧ u16 (X i) ∧ u16 (Y i)) ∧
  ∀ r, 0 ≤ r < numRec → X r = xsum (λ c, mul16 (A r c) (colval validCount V X Y (λ _, false) c)) (columns numRec validCount).

Lemma matrix_system_range numRec validCount A V X Y : matrix_system numRec validCount A V X Y → ∀ i, u16 (V i) ∧ u16 (X i) ∧ u16 (Y i).
Proof. by intros []. Qed.

Lemma matrix_system_rows_ok numRec validCount A : rows_ok numRec validCount (matrix_system numRec validCount A) A (λ _ j, j <? 0).
Proof.
  intros r Hr V X Y [_ H]. rewrite (proj2 (Z.ltb_ge r 0)) by lia. rewrite (H r Hr). apply xsum_ext. intros c Hc. f_equal.
  apply (colval_ext numRec); [|done]. intros k Hk. symmetry. apply Z.ltb_ge. lia.
Qed.

(** The system whose only solution is zero: every matrix satisfies its equations. *)
Definition zero_system (V X Y : Z → Z) : Prop := ∀ i, V i = 0 ∧ X i = 0 ∧ Y i = 0.

Lemma zero_system_range V X Y : zero_system V X Y → ∀ i, u16 (V i) ∧ u16 (X i) ∧ u16 (Y i).
Proof. intros H i. destruct (H i) as (-> & -> & ->). done. Qed.

Lemma zero_system_rows_ok numRec validCount A sub : rows_ok numRec validCount zero_system A sub.
Proof.
  intros r Hr V X Y H. destruct (H r) as (_ & HX & HY).
  transitivity 0; [by case_match|]. symmetry. apply xsum_zeros. intros c _.
  replace (colval validCount V X Y (sub r) c) with 0; [apply (gf_mul_0_r 16 poly16)|].
  unfold colval. destruct (H c) as (-> & _), (H (c - validCount)) as (_ & -> & ->). by repeat case_match.
Qed.
