(* ===== verification/RecMatrix.v ===== *)
(** * RecMatrix.v: [Galois16RecMatrix] of parpar/gf16/gfmat_inv.cpp

    The recovery matrix: one row per recovery block in use, one column per input
    block (the available inputs first, the missing ones last), stored in vertical
    stripes.  [Compute] fills it with the coefficients of the recovery blocks and
    inverts the missing part in place, several rows at a time.  This file holds the
    definitions; RecMatrixProofs.v shows that the result solves for the missing
    blocks.

    The model follows the single-threaded path ([state.workers.empty()]); prefetch
    arguments and progress callbacks have no effect on the matrix and are left out. *)

From stdpp Require Import sorting.
From S2P Require Import Prelude LinOp GF GfCoeff GfLookup GfMul.

(** ** Results: a value, a row whose pivot is zero, or an access the code must
    not make (an unwritten table or buffer entry) *)

Inductive res (A : Type) : Type :=
| Ok (a : A)
| BadRow (row : Z)
| Fault.
Arguments Ok {A}. Arguments BadRow {A}. Arguments Fault {A}.

#[export] Instance res_ret : MRet res := @Ok.
#[export] Instance res_bind : MBind res := λ A B f x,
  match x with Ok a => f a | BadRow r => BadRow r | Fault => Fault end.

Definition of_option {A} (o : option A) : res A :=
  match o with Some a => Ok a | None => Fault end.

(** A loop over the elements of a list. *)
Fixpoint for_each {A S} (l : list A) (body : A → S → res S) (s : S) : res S :=
  match l with
  | [] => Ok s
  | x :: l => s ← body x s; for_each l body s
  end.

Definition for_range {S} (lo hi : Z) (body : Z → S → res S) (s : S) : res S :=
  for_each (seqZ lo (hi - lo)) body s.

Definition CEIL_DIV (a b : Z) : Z := (a + b - 1) / b.
Definition ROUND_DIV (a b : Z) : Z := (a + Z.shiftr b 1) / b.

Definition PP_INVERT_MAX_MULTI_ROWS : Z := 6.

Section RecMatrix.
Context {M : Type} (k : kernel M) (tables : gfmat_tables).
(** Dimensions; [sw16] is the stripe width in words. *)
Context (numRec validCount sw16 numStripes : Z).

(** [MAT_ROW(s, r)] *)
Definition MAT_ROW (s r : Z) : Z := (s * numRec + r) * sw16.

(** [REPLACE_WORD(r, c, v)] *)
Definition REPLACE_WORD (m : M) (r c v : Z) : Z * M :=
  k_replace_word k m (MAT_ROW (c / sw16) r) (c mod sw16) v.

(** ** [scaleRows] *)

(** The row operations of [scaleRows], with rows relative to [rec]. *)
Inductive rowop :=
| SCALE_ROW (row : Z)
| MULADD_ROW (rowDst rowSrc : Z)
| MULADD_MULTI_ROW (rowDst srcOffs numRows : Z).

(** Read and clear the coefficients of columns [missingCol + c], for [c] in [cs],
    of row [r]. *)
Fixpoint replace_words (m : M) (r missingCol : Z) (cs : list Z) : list Z * M :=
  match cs with
  | [] => ([], m)
  | c :: cs =>
      let '(v, m) := REPLACE_WORD m r (missingCol + c) 0 in
      let '(vs, m) := replace_words m r missingCol cs in
      (v :: vs, m)
  end.

(** The macros [SCALE_ROW], [MULADD_ROW] and [MULADD_MULTI_ROW]. *)
Definition exec_rowop (rec : Z) (op : rowop) (m : M) : res M :=
  let missingCol := validCount + rec in
  match op with
  | SCALE_ROW row =>
      let '(tmpCoeff, m) := REPLACE_WORD m (rec + row) (missingCol + row) 1 in
      if tmpCoeff =? 0 then BadRow row else
      if tmpCoeff =? 1 then Ok m else
      inv ← of_option (gf16_recip tables !! tmpCoeff);
      for_range 0 numStripes (λ stripe m,
        of_option (gf_mul_inplace k m (MAT_ROW stripe (rec + row)) sw16 inv)) m
  | MULADD_ROW rowDst rowSrc =>
      let '(tmpCoeff, m) := REPLACE_WORD m (rec + rowDst) (missingCol + rowSrc) 0 in
      if tmpCoeff =? 0 then Ok m else
      for_range 0 numStripes (λ stripe m,
        of_option (gf_mul_add k m (MAT_ROW stripe (rec + rowDst))
                     (MAT_ROW stripe (rec + rowSrc)) sw16 tmpCoeff)) m
  | MULADD_MULTI_ROW rowDst srcOffs numRows =>
      let srcs := seqZ srcOffs numRows in
      let '(coeff, m) := replace_words m (rec + rowDst) missingCol srcs in
      for_range 0 numStripes (λ stripe m,
        of_option (gf_mul_add_multi k m (MAT_ROW stripe (rec + rowDst))
                     ((λ s, MAT_ROW stripe (rec + s)) <$> srcs) sw16 coeff)) m
  end.

(** The straight-line body of [scaleRows<rows>].  The [..._LASTROW] forms differ
    from the plain ones only in the row they prefetch, and return early only where
    nothing follows. *)
Definition scale_program (rows : Z) : list rowop :=
  [SCALE_ROW 0]
  ++ (if 2 <=? rows then [MULADD_ROW 1 0; SCALE_ROW 1; MULADD_ROW 0 1] else [])
  ++ (if 3 <=? rows then
        if 4 <=? rows then
          [MULADD_MULTI_ROW 2 0 2; SCALE_ROW 2; MULADD_MULTI_ROW 3 0 2; MULADD_ROW 3 2;
           SCALE_ROW 3; MULADD_ROW 2 3; MULADD_MULTI_ROW 0 2 2; MULADD_MULTI_ROW 1 2 2]
        else
          [MULADD_MULTI_ROW 2 0 2; SCALE_ROW 2; MULADD_ROW 0 2; MULADD_ROW 1 2]
      else [])
  ++ (if 5 <=? rows then
        if 6 <=? rows then
          [MULADD_MULTI_ROW 4 0 4; SCALE_ROW 4; MULADD_MULTI_ROW 5 0 4; MULADD_ROW 5 4;
           SCALE_ROW 5; MULADD_ROW 4 5]
          ++ ((λ r, MULADD_MULTI_ROW r 4 2) <$> [0; 1; 2]) ++ [MULADD_MULTI_ROW 3 4 2]
        else
          [MULADD_MULTI_ROW 4 0 4; SCALE_ROW 4]
          ++ ((λ r, MULADD_ROW r 4) <$> [0; 1; 2]) ++ [MULADD_ROW 3 4]
      else []).

Definition scaleRows (rows rec : Z) (m : M) : res M :=
  for_each (scale_program rows) (exec_rowop rec) m.

(** ** [fillCoeffs] *)

(** The rows [for(r=recFirst; r<recLast; r++) if(r == rec) r += rows-1; else ...]
    visits; [fuel] is the length of the range. *)
Fixpoint fill_visit (fuel : nat) (r recLast rec rows : Z) : list Z :=
  match fuel with
  | O => []
  | S fuel =>
      if r <? recLast then
        if r =? rec then fill_visit fuel (r + (rows - 1) + 1) recLast rec rows
        else r :: fill_visit fuel (r + 1) recLast rec rows
      else []
  end.

(** [fillCoeffs]; the coefficient buffer is part of the state. *)
Definition fillCoeffs (rows recFirst recLast rec coeffWidth : Z) (st : M * array) : M * array :=
  let missingCol := validCount + rec in
  foldl (λ st r,
    for_loop 0 rows (λ c '(m, coeff),
      let '(v, m) := REPLACE_WORD m r (missingCol + c) 0 in
      (m, <[(r - recFirst) * coeffWidth + c := v]> coeff)) st)
    st (fill_visit (Z.to_nat (recLast - recFirst)) recFirst recLast rec rows).

(** ** [invertLoop] and [applyRows] *)

(** The rows the loop [for(rec2=recFirst; rec2<recLast; ) { curRec2 = rec2++;
    if(rec2 == rec) rec2 += rows; ... }] visits. *)
Fixpoint invert_visit (fuel : nat) (rec2 recLast rec rows : Z) : list Z :=
  match fuel with
  | O => []
  | S fuel =>
      if rec2 <? recLast then
        let next := rec2 + 1 in
        rec2 :: invert_visit fuel (if next =? rec then next + rows else next) recLast rec rows
      else []
  end.

(** One region operation of [invertLoop]: add [rows] source rows, scaled, to row
    [curRec2] of the stripe. *)
Definition invert_target (rows stripe recFirst recSrc recI coeffWidth : Z) (coeff : array)
    (curRec2 : Z) (m : M) : res M :=
  let rec := recI + recSrc in
  let target := MAT_ROW stripe curRec2 in
  cs ← of_option (mapM (λ i, coeff !! ((curRec2 - recFirst) * coeffWidth + recI + i)) (seqZ 0 rows));
  if 1 <? rows then
    of_option (gf_mul_add_multi k m target ((λ i, MAT_ROW stripe (rec + i)) <$> seqZ 0 rows) sw16 cs)
  else
    c ← of_option (head cs);
    of_option (gf_mul_add k m target (MAT_ROW stripe rec) sw16 c).

Definition invertLoop (rows stripeStart stripeEnd recFirst recLast recSrc recSrcCount : Z)
    (coeff : array) (coeffWidth : Z) (m : M) : res M :=
  for_range stripeStart stripeEnd (λ stripe,
    for_range 0 (CEIL_DIV recSrcCount rows) (λ i,
      let recI := i * rows in
      for_each (invert_visit (Z.to_nat (recLast - recFirst)) recFirst recLast (recI + recSrc) rows)
        (invert_target rows stripe recFirst recSrc recI coeffWidth coeff))) m.

(** [applyRows] without workers *)
Definition applyRows (rows rec recCount recFirst recLast coeffWidth : Z) (coeff : array) (m : M) : res M :=
  invertLoop rows 0 numStripes recFirst recLast rec recCount coeff coeffWidth m.

(** ** [processRows] *)

(** One step of the loop that normalizes the rows of a group. *)
Definition normalize_step (rows recStart curRowGroupSize rec : Z) (st : M * array) : res (M * array) :=
  let '(m, coeff) := st in
  let recFirst := if recStart =? rec then recStart + rows else recStart in
  let recLast := curRowGroupSize + recStart in
  match scaleRows rows rec m with
  | BadRow badRowOffset => BadRow (rec + badRowOffset)
  | Fault => Fault
  | Ok m =>
      if recFirst =? recLast then Ok (m, coeff) else
      let '(m, coeff) := fillCoeffs rows recFirst recLast rec rows (m, coeff) in
      m ← applyRows rows rec rows recFirst recLast rows coeff m;
      Ok (m, coeff)
  end.

(** The loop that applies the finished group to all other rows. *)
Fixpoint apply_groups (fuel : nat) (rows rowGroupSize recStart curRowGroupSize recGroup : Z)
    (st : M * array) : res (M * array) :=
  match fuel with
  | O => Fault
  | S fuel =>
      if recGroup <? numRec then
        if recGroup =? recStart then
          apply_groups fuel rows rowGroupSize recStart curRowGroupSize (recGroup + curRowGroupSize) st
        else
          let size2 := rowGroupSize in
          let size2 := if numRec - recGroup <? size2 then numRec - recGroup else size2 in
          let size2 := if (recGroup <? recStart) && (recStart <? recGroup + size2)
                       then recStart - recGroup else size2 in
          let '(m, coeff) := fillCoeffs curRowGroupSize recGroup (recGroup + size2) recStart
                               curRowGroupSize st in
          m ← applyRows rows recStart curRowGroupSize recGroup (recGroup + size2) curRowGroupSize coeff m;
          apply_groups fuel rows rowGroupSize recStart curRowGroupSize (recGroup + size2) (m, coeff)
      else Ok st
  end.

(** [processRows<rows>]: returns the row reached and the state. *)
Fixpoint processRows (fuel : nat) (rows rowGroupSize rec : Z) (st : M * array) : res (Z * (M * array)) :=
  match fuel with
  | O => Fault
  | S fuel =>
      let alignedRowGroupSize := (rowGroupSize / rows) * rows in
      if rec <=? numRec - rows then
        let curRowGroupSize :=
          if numRec - rec <? alignedRowGroupSize
          then (numRec - rec) - (numRec - rec) mod rows
          else alignedRowGroupSize in
        let recStart := rec in
        st ← for_range 0 (CEIL_DIV curRowGroupSize rows) (λ i,
               normalize_step rows recStart curRowGroupSize (recStart + i * rows)) st;
        st ← apply_groups (S (Z.to_nat numRec)) rows rowGroupSize recStart curRowGroupSize 0 st;
        processRows fuel rows rowGroupSize (recStart + CEIL_DIV curRowGroupSize rows * rows) st
      else Ok (rec, st)
  end.

(** ** [Construct] *)

Section Construct.
Context (inputValid : list bool) (recovery : list Z).

(** The body of [CONSTRUCT_VIA_EXP] for one input block and the rows [recs]
    (the source unrolls it four inputs at a time). *)
Definition construct_input (recs : list Z) (input : Z) (st : M * Z * Z) : res (M * Z * Z) :=
  let '(m, validCol, missingCol) := st in
  inputLog ← of_option (gfmat_input_log tables input);
  valid ← of_option (inputValid !! Z.to_nat input);
  let '(col, validCol, missingCol) :=
    if (valid : bool) then (validCol, validCol + 1, missingCol)
    else (missingCol, validCol, missingCol + 1) in
  let targetCol := (col / sw16) * sw16 * numRec + col mod sw16 in
  m ← for_each recs (λ rec m,
        exp ← of_option (recovery !! Z.to_nat rec);
        v ← of_option (gfmat_coeff_from_log tables inputLog exp);
        Ok (k_write k m (rec * sw16 + targetCol) v)) m;
  Ok (m, validCol, missingCol).

Definition construct_via_exp (recs : list Z) (m : M) : res M :=
  '(m, _, _) ← for_range 0 (Z.of_nat (length inputValid)) (construct_input recs) (m, 0, validCount);
  Ok m.

(** The row of a recovery block with exponent 0. *)
Definition construct_ones (m : M) : M :=
  for_loop 0 numStripes (λ stripe,
    for_loop 0 sw16 (λ i m, k_write k m (stripe * numRec * sw16 + i) 1)) m.

(** The rows that do not follow their predecessor in the exponent sequence; the
    search stops when there are [maxSkips] of them. *)
Fixpoint find_skips (recs : list Z) (maxSkips lastExp : Z) (recSkips : list Z) : option (list Z) :=
  match recs with
  | [] => Some recSkips
  | rec :: recs =>
      exp ← recovery !! Z.to_nat rec;
      if exp =? lastExp + 1 then find_skips recs maxSkips exp recSkips
      else
        let recSkips := recSkips ++ [rec] in
        if maxSkips <=? Z.of_nat (length recSkips) then Some recSkips
        else find_skips recs maxSkips exp recSkips
  end.

(** The remaining rows of a stripe, each the product of the exponent-1 row and its
    predecessor. *)
Definition construct_products (pmul : M → Z → Z → Z → Z → option M) (recStart stripe : Z) (m : M) : res M :=
  let matStripe := stripe * numRec * sw16 in
  '(m, _) ← for_range (recStart + 1) numRec (λ rec '(m, lastExp),
    exp ← of_option (recovery !! Z.to_nat rec);
    if exp =? lastExp + 1 then
      m ← of_option (pmul m (matStripe + rec * sw16) (matStripe + recStart * sw16)
                       (matStripe + (rec - 1) * sw16) sw16);
      Ok (m, exp)
    else Ok (m, exp)) (m, 1);
  Ok m.

Definition Construct (m : M) : res M :=
  exp0 ← of_option (recovery !! 0%nat);
  let '(m, recStart) := if exp0 =? 0 then (construct_ones m, 1) else (m, 0) in
  if Z.of_nat (length recovery) <=? recStart then Ok m else
  exp1 ← of_option (recovery !! Z.to_nat recStart);
  let slow := construct_via_exp (seqZ recStart (numRec - recStart)) m in
  match k_pmul k with
  | Some pmul =>
      if (exp1 =? 1) && (sw16 mod k_pmul_blocklen k =? 0) then
        let maxSkips := numRec / 2 in
        recSkips ← of_option (find_skips (seqZ (recStart + 1) (numRec - (recStart + 1)))
                                maxSkips 1 [recStart]);
        if Z.of_nat (length recSkips) <? maxSkips then
          m ← construct_via_exp recSkips m;
          for_range 0 numStripes (construct_products pmul recStart) m
        else slow
      else slow
  | None => slow
  end.
End Construct.

(** ** One attempt: construct, transform, invert *)

(** [INVERT_GROUP(rows)] *)
Definition invert_group (rowGroupSize rows : Z) (st : Z * (M * array)) : res (Z * (M * array)) :=
  let '(rec, st) := st in
  if (rows <=? k_idealInputMultiple k) && (rows <=? numRec)
  then processRows (S (Z.to_nat numRec)) rows rowGroupSize rec st
  else Ok (rec, st).

Definition invert_attempt (rowGroupSize : Z) (inputValid : list bool) (recovery : list Z) (m : M) : res M :=
  let matSize := numRec * sw16 * numStripes in
  m ← Construct inputValid recovery m;
  let m := if k_needPrepare k then k_prepare k m matSize else m in
  '(_, (m, _)) ← for_each [6; 5; 4; 3; 2; 1] (invert_group rowGroupSize) (0, (m, ∅));
  Ok (if k_needPrepare k then k_finish k m matSize else m).

(** The loop [invert_loop], which drops a recovery block whose row cannot be
    pivoted and starts again.  [None] is a fault, [Some None] is [return false]. *)
Fixpoint invert_retry (fuel : nat) (rowGroupSize : Z) (inputValid : list bool) (recovery : list Z) (m : M)
    : option (option (M * list Z)) :=
  if Z.of_nat (length recovery) <? numRec then Some None else
  match invert_attempt rowGroupSize inputValid recovery m with
  | Ok m => Some (Some (m, take (Z.to_nat numRec) recovery))
  | BadRow badRow =>
      match fuel with
      | O => None
      | S fuel => invert_retry fuel rowGroupSize inputValid (delete (Z.to_nat badRow) recovery) m
      end
  | Fault => None
  end.

(** [GetFactor] *)
Definition GetFactor (m : M) (inIdx recIdx : Z) : Z :=
  let stripe := inIdx / sw16 in
  k_read k m (stripe * numRec * sw16 + recIdx * sw16 + inIdx mod sw16).
End RecMatrix.

(** ** [Compute] *)

(** The dimensions [Compute] chooses, in bytes as in the source. *)
Definition stripe_layout {M} (k : kernel M) (inputs : Z) : Z * Z :=
  let matWidth := inputs * 2 in
  let numStripes := ROUND_DIV matWidth (k_idealChunkSize k) in
  let numStripes := if numStripes <? 1 then 1 else numStripes in
  let stripeWidth := alignToStride k (CEIL_DIV matWidth numStripes) in
  let numStripes := CEIL_DIV matWidth stripeWidth in
  (stripeWidth, numStripes).

Definition row_group_size {M} (k : kernel M) (stripeWidth numRec : Z) : Z :=
  let rowGroupSize := 512 * 1024 / stripeWidth in
  let rowMultiple := Z.min (k_idealInputMultiple k) PP_INVERT_MAX_MULTI_ROWS in
  let rowGroupSize := if rowGroupSize <? rowMultiple * 2 then rowMultiple * 2 else rowGroupSize in
  if numRec <? rowGroupSize then numRec else rowGroupSize.

(** [Compute], single threaded, on the freshly allocated buffer [mat0]. *)
Definition Compute {M} (k : kernel M) (tables : gfmat_tables) (mat0 : M)
    (inputValid : list bool) (validCount : Z) (recovery : list Z)
    : option (option (M * list Z)) :=
  let inputs := Z.of_nat (length inputValid) in
  let numRec := inputs - validCount in
  if Z.of_nat (length recovery) <? numRec then Some None else
  let '(stripeWidth, numStripes) := stripe_layout k inputs in
  let recovery := merge_sort Z.le recovery in
  invert_retry k tables numRec validCount (stripeWidth / 2) numStripes (length recovery)
    (row_group_size k stripeWidth numRec) inputValid recovery mat0.
