(* ===== verification/RecOps.v ===== *)
(** * RecOps.v: the row operations of the recovery matrix

    The matrix is stored in stripes; [cell m r c] is the coefficient of row [r],
    column [c], wherever it is stored.  Every region operation of gfmat_inv.cpp is
    shown to act on cells as the row operation it stands for. *)

From S2P Require Import Prelude LinOp GF GfCoeff GfLookup GfMul RecMatrix.

(** ** Reasoning about results: [wp x Q E] says that [x] is no fault, that a value
    satisfies [Q] and a bad row satisfies [E]. *)

Definition wp {A} (x : res A) (Q : A → Prop) (E : Z → Prop) : Prop :=
  match x with Ok a => Q a | BadRow r => E r | Fault => False end.

Lemma wp_bind {A B} (x : res A) (f : A → res B) Q E :
  wp x (λ a, wp (f a) Q E) E → wp (x ≫= f) Q E.
Proof. by destruct x. Qed.

Lemma wp_mono {A} (x : res A) (Q Q' : A → Prop) (E E' : Z → Prop) :
  wp x Q E → (∀ a, Q a → Q' a) → (∀ r, E r → E' r) → wp x Q' E'.
Proof. destruct x; simpl; auto. Qed.

Lemma wp_of_option {A} (o : option A) Q E : (∃ a, o = Some a ∧ Q a) → wp (of_option o) Q E.
Proof. by intros (a & -> & H). Qed.

(** Loop rule: [P] is indexed by the elements already done. *)
Lemma wp_for_each {A S} (P : list A → S → Prop) l (body : A → S → res S) s E :
  P [] s →
  (∀ l1 x l2 s, l = l1 ++ x :: l2 → P l1 s → wp (body x s) (P (l1 ++ [x])) E) →
  wp (for_each l body s) (P l) E.
Proof.
  intros H0 Hstep.
  assert (∀ l2 l1 s, l = l1 ++ l2 → P l1 s → wp (for_each l2 body s) (P l) E) as H.
  { clear s H0. induction l2 as [|x l2 IH]; intros l1 s Hl HP; simpl.
    - by rewrite Hl, app_nil_r.
    - apply wp_bind. eapply wp_mono; [by eapply Hstep| |done]. intros s' Hs'.
      apply (IH (l1 ++ [x])); [|done]. by rewrite <- (assoc (++)). }
  by apply (H l []).
Qed.

Lemma wp_for_range {S} (P : Z → S → Prop) lo hi (body : Z → S → res S) s E :
  lo ≤ hi → P lo s →
  (∀ i s, lo ≤ i < hi → P i s → wp (body i s) (P (i + 1)) E) →
  wp (for_range lo hi body s) (P hi) E.
Proof.
  intros Hle H0 Hstep. unfold for_range.
  eapply (wp_mono _ (λ s, P (lo + Z.of_nat (length (seqZ lo (hi - lo)))) s)); [| |done].
  - apply (wp_for_each (λ l s, P (lo + Z.of_nat (length l)) s)).
    + by replace (lo + Z.of_nat (length (@nil Z))) with lo by (simpl; lia).
    + intros l1 x l2 s' Hl HP.
      assert (seqZ lo (hi - lo) !! length l1 = Some x) as Hx.
      { by rewrite Hl, list_lookup_middle. }
      apply lookup_seqZ in Hx as [-> Hx].
      rewrite length_app. simpl. rewrite Nat2Z.inj_add.
      replace (lo + (Z.of_nat (length l1) + Z.of_nat 1)) with (lo + Z.of_nat (length l1) + 1) by lia.
      apply Hstep; [lia|done].
  - intros s'. rewrite length_seqZ, Z2Nat.id by lia. by replace (lo + (hi - lo)) with hi by lia.
Qed.

Section Ops.
Context {M : Type} (k : kernel M) (view : M → Z → Z) `{L : !KernelLaws k view}.
Context (tables : gfmat_tables).
Context (numRec validCount sw16 numStripes : Z).

(** The dimensions [Compute] establishes. *)
Record dims_ok : Prop := {
  dim_rec : 0 < numRec;
  dim_valid : 0 ≤ validCount;
  dim_width : 0 < sw16;
  dim_stride : sw16 mod k_stride k = 0;
  dim_stripes : 0 ≤ numStripes;
  dim_fit : validCount + numRec ≤ sw16 * numStripes;
}.
Hypothesis D : dims_ok.

Abbreviation ROW := (MAT_ROW numRec sw16).

(** Where row [r], column [c] is stored. *)
Definition addr (r c : Z) : Z := ROW (c / sw16) r + c mod sw16.

Definition cell (m : M) (r c : Z) : Z := view m (addr r c).

(** Positions inside the matrix, padding columns included. *)
Definition inside (r c : Z) : Prop := 0 ≤ r < numRec ∧ 0 ≤ c < sw16 * numStripes.

Lemma row_stride s r : ROW s r mod k_stride k = 0.
Proof.
  unfold MAT_ROW. pose proof (stride_pos k view).
  rewrite Z.mul_mod, (dim_stride D), Z.mul_0_r, Z.mod_0_l by lia. done.
Qed.

(** A row of a stripe occupies its own region. *)
Lemma row_region s d r c : 0 ≤ d < numRec → 0 ≤ r < numRec → 0 ≤ c →
  ROW s d ≤ addr r c < ROW s d + sw16 ↔ r = d ∧ c / sw16 = s.
Proof.
  intros Hd Hr Hc. unfold addr, MAT_ROW. pose proof (dim_width D) as Hw.
  pose proof (Z.mod_pos_bound c sw16 Hw) as Hm. set (q := c / sw16) in *. set (t := c mod sw16) in *.
  split.
  - intros [H1 H2].
    assert (s * numRec + d = q * numRec + r) as E by nia.
    assert (s = q) by nia. split; nia.
  - intros [-> ->]. nia.
Qed.

Lemma row_offset s d r c : 0 ≤ d < numRec → c / sw16 = s →
  ROW s r + (addr d c - ROW s d) = addr r c.
Proof. intros Hd <-. unfold addr. lia. Qed.

Lemma addr_inj r c r' c' : 0 ≤ r < numRec → 0 ≤ r' < numRec → 0 ≤ c → 0 ≤ c' →
  addr r c = addr r' c' → r = r' ∧ c = c'.
Proof.
  intros Hr Hr' Hc Hc' E. pose proof (dim_width D) as Hw.
  pose proof (Z.mod_pos_bound c' sw16 Hw). pose proof (Z.mod_pos_bound c sw16 Hw).
  assert (r' = r ∧ c' / sw16 = c / sw16) as [-> Eq].
  { apply (row_region (c / sw16) r r' c'); [done..|]. rewrite <- E. unfold addr. lia. }
  split; [done|]. unfold addr in E. rewrite Eq in E.
  rewrite (Z.div_mod c sw16), (Z.div_mod c' sw16) by lia. rewrite Eq. lia.
Qed.

Lemma addr_bounds r c : inside r c → 0 ≤ addr r c < numRec * sw16 * numStripes.
Proof.
  intros [Hr Hc]. unfold addr, MAT_ROW. pose proof (dim_width D) as Hw.
  pose proof (Z.mod_pos_bound c sw16 Hw) as Hm.
  assert (0 ≤ c / sw16 < numStripes) as Hq.
  { split; [apply Z.div_pos; lia|]. apply Z.div_lt_upper_bound; nia. }
  set (q := c / sw16) in *. set (t := c mod sw16) in *.
  assert (0 ≤ q * numRec + r) by nia. assert (q * numRec + r + 1 ≤ numStripes * numRec) as Hle by nia.
  apply (Z.mul_le_mono_nonneg_r _ _ sw16) in Hle; [|lia]. nia.
Qed.

Lemma rows_disjoint s d r : d ≠ r → disjoint_regions (ROW s d) (ROW s r) sw16.
Proof.
  intros H. unfold disjoint_regions, MAT_ROW.
  pose proof (dim_width D).
  assert (d + 1 ≤ r ∨ r + 1 ≤ d) as [|] by lia; [left|right]; nia.
Qed.

Lemma cell_range m r c : u16 (cell m r c).
Proof. unfold cell. apply kl_view_range. Qed.

(** [REPLACE_WORD] reads and replaces one cell. *)
Lemma REPLACE_WORD_ok m r c v : inside r c → u16 v →
  fst (REPLACE_WORD k numRec sw16 m r c v) = cell m r c ∧
  ∀ r' c', inside r' c' → cell (snd (REPLACE_WORD k numRec sw16 m r c v)) r' c'
    = if decide (r' = r ∧ c' = c) then v else cell m r' c'.
Proof.
  intros [Hr Hc] Hv. unfold REPLACE_WORD. pose proof (dim_width D) as Hw.
  pose proof (Z.mod_pos_bound c sw16 Hw).
  destruct (kl_replace m (ROW (c / sw16) r) (c mod sw16) v) as [H1 H2];
    [apply row_stride|lia|done|]. split; [done|].
  intros r' c' [Hr' Hc']. unfold cell. rewrite H2.
  change (ROW (c / sw16) r + c mod sw16) with (addr r c).
  destruct (decide (addr r' c' = addr r c)) as [E|E], (decide (r' = r ∧ c' = c)) as [E'|E']; try done.
  - apply addr_inj in E; (done || lia).
  - destruct E' as [-> ->]. done.
Qed.

(** A loop over the stripes that changes row [d] of each stripe changes the whole
    row. *)
Lemma stripes_ok (body : Z → M → res M) (f : (Z → Z) → Z → Z) d m E :
  0 ≤ d < numRec →
  (∀ s m, wp (body s m) (λ m', ∀ r c, inside r c →
     cell m' r c = if decide (r = d ∧ c / sw16 = s) then f (λ r, cell m r c) (cell m d c) else cell m r c) E) →
  (∀ g g' v, (∀ r, 0 ≤ r < numRec → r ≠ d → g r = g' r) → f g v = f g' v) →
  wp (for_range 0 numStripes body m) (λ m', ∀ r c, inside r c →
     cell m' r c = if decide (r = d) then f (λ r, cell m r c) (cell m d c) else cell m r c) E.
Proof.
  intros Hd Hbody Hf. pose proof (dim_width D) as Hw. pose proof (dim_stripes D).
  eapply wp_mono; [apply (wp_for_range (λ s m', ∀ r c, inside r c →
     cell m' r c = if decide (r = d ∧ c / sw16 < s) then f (λ r, cell m r c) (cell m d c) else cell m r c))| |done].
  - lia.
  - intros r c [_ Hc]. rewrite decide_False; [done|]. intros [_ H1].
    pose proof (Z.div_pos c sw16). lia.
  - intros s m1 Hs IH. eapply wp_mono; [apply Hbody| |done]. intros m2 H2 r c Hi. rewrite H2 by done.
    assert (inside d c) by (by split; [|apply Hi]).
    destruct (decide (r = d ∧ c / sw16 = s)) as [[-> Hcs]|Hn].
    + rewrite decide_True by lia. rewrite (IH d c), decide_False by (done || lia).
      apply Hf. intros r Hr Hne. rewrite IH, decide_False by (tauto || (split; [done|apply Hi])). done.
    + rewrite IH by done. do 2 case_decide; (done || lia).
  - intros m' Hm r c Hi. rewrite Hm by done. destruct Hi as [_ Hc].
    assert (c / sw16 < numStripes) by (apply Z.div_lt_upper_bound; lia).
    do 2 case_decide; (done || lia).
Qed.

(** ** Whole-row operations *)

Lemma scale_stripes_ok d v m E : 0 ≤ d < numRec → u16 v →
  wp (for_range 0 numStripes (λ stripe m, of_option (gf_mul_inplace k m (ROW stripe d) sw16 v)) m)
    (λ m', ∀ r c, inside r c →
       cell m' r c = if decide (r = d) then mul16 v (cell m d c) else cell m r c) E.
Proof.
  intros Hd Hv. apply (stripes_ok _ (λ _, mul16 v)); [done| |done]. intros s m1. apply wp_of_option.
  destruct (gf_mul_inplace_ok k view m1 (ROW s d) sw16 v) as (m2 & -> & H2);
    [apply row_stride|apply D|pose proof (dim_width D); lia|done|].
  exists m2. split; [done|]. intros r c [Hr Hc]. unfold cell. rewrite H2.
  destruct (decide (r = d ∧ c / sw16 = s)) as [E'|E'].
  - rewrite decide_True by (apply row_region; (done || lia)). by destruct E' as [-> _].
  - rewrite decide_False by (rewrite row_region by (done || lia); done). done.
Qed.

(** What adding the rows [srcs], times [cs], to row [d] does. *)
Definition row_added (m m' : M) (d : Z) (srcs cs : list Z) : Prop :=
  ∀ r c, inside r c → cell m' r c =
    if decide (r = d) then xsum (λ '(s, v), mul16 v (cell m s c)) (zip srcs cs) ⊕ cell m d c
    else cell m r c.

(** The same within stripe [s]. *)
Definition row_added_in (s : Z) (m m' : M) (d : Z) (srcs cs : list Z) : Prop :=
  ∀ r c, inside r c → cell m' r c =
    if decide (r = d ∧ c / sw16 = s)
    then xsum (λ '(s, v), mul16 v (cell m s c)) (zip srcs cs) ⊕ cell m d c
    else cell m r c.

Lemma stripe_muladd_multi_ok stripe m d srcs cs :
  0 ≤ d < numRec → Forall (λ s, 0 ≤ s < numRec ∧ s ≠ d) srcs →
  Forall (λ v, u16 v) cs → length srcs = length cs →
  ∃ m', gf_mul_add_multi k m (ROW stripe d) (ROW stripe <$> srcs) sw16 cs = Some m'
    ∧ row_added_in stripe m m' d srcs cs.
Proof.
  intros Hd Hs Hcs Hlen.
  destruct (gf_mul_add_multi_ok k view m (ROW stripe d) (ROW stripe <$> srcs) sw16 cs)
    as (m2 & -> & H2).
  - apply row_stride.
  - apply Forall_fmap, Forall_true. intros. apply row_stride.
  - apply D.
  - pose proof (dim_width D). lia.
  - done.
  - by rewrite length_fmap.
  - apply Forall_fmap. eapply Forall_impl; [done|]. intros s [_ Hne]. simpl. by apply rows_disjoint.
  - exists m2. split; [done|]. intros r c [Hr Hc]. unfold cell at 1. rewrite H2.
    destruct (decide (r = d ∧ c / sw16 = stripe)) as [[-> Hst]|E'].
    + rewrite decide_True by (apply row_region; (done || lia)). f_equal. unfold products_at.
      rewrite xsum_zip_fmap_l. apply xsum_ext. intros [s v] Hin. simpl. unfold cell.
      by rewrite row_offset.
    + rewrite decide_False by (rewrite row_region by (done || lia); done). done.
Qed.

Lemma stripe_muladd_ok stripe m d s v :
  0 ≤ d < numRec → 0 ≤ s < numRec → s ≠ d → u16 v →
  ∃ m', gf_mul_add k m (ROW stripe d) (ROW stripe s) sw16 v = Some m'
    ∧ row_added_in stripe m m' d [s] [v].
Proof.
  intros Hd Hs Hne Hv.
  destruct (gf_mul_add_ok k view m (ROW stripe d) (ROW stripe s) sw16 v) as (m2 & -> & H2);
    [apply row_stride..|apply D|pose proof (dim_width D); lia|done|by apply rows_disjoint|].
  exists m2. split; [done|]. intros r c [Hr Hc]. unfold cell at 1. rewrite H2. simpl.
  rewrite Z.lxor_0_r. destruct (decide (r = d ∧ c / sw16 = stripe)) as [[-> Hst]|E'].
  - rewrite decide_True by (apply row_region; (done || lia)). unfold cell. by rewrite row_offset.
  - rewrite decide_False by (rewrite row_region by (done || lia); done). done.
Qed.

(** Adding rows in every stripe. *)
Lemma stripes_added (body : Z → M → res M) m d srcs cs E :
  0 ≤ d < numRec → Forall (λ s, 0 ≤ s < numRec ∧ s ≠ d) srcs →
  (∀ s m, wp (body s m) (λ m', row_added_in s m m' d srcs cs) E) →
  wp (for_range 0 numStripes body m) (λ m', row_added m m' d srcs cs) E.
Proof.
  intros Hd Hs Hbody.
  apply (stripes_ok body (λ g v, xsum (λ '(s, v), mul16 v (g s)) (zip srcs cs) ⊕ v)); [done..|].
  intros g g' v Hg. f_equal. apply xsum_ext. intros [s w] Hin.
  apply elem_of_zip_l in Hin. rewrite Forall_forall in Hs. by rewrite Hg by (apply Hs; done).
Qed.
End Ops.
