(* ===== verification/RecInvert.v ===== *)
(** * RecInvert.v: the inversion solves for the missing blocks

    [rows_ok] (RecElim.v) is the invariant of the whole inversion; this file
    follows it through [scaleRows], [fillCoeffs]/[applyRows] and [processRows]. *)

From S2P Require Import Prelude LinOp GF GfCoeff GfLookup GfMul RecElim RecMatrix RecOps.

(** ** A checker for straight-line elimination programs

    For each row of the block, a mask of the block's columns already substituted. *)

Definition mask_of (srcs : list Z) : Z := foldr (λ s acc, Z.lor (2 ^ s) acc) 0 srcs.

Definition check_elim (rows : Z) (masks : list Z) (d : Z) (srcs : list Z) : option (list Z) :=
  md ← masks !! Z.to_nat d;
  let after := Z.lor md (mask_of srcs) in
  if bool_decide (NoDup srcs) && bool_decide (d ∉ srcs) && (0 <=? d) && (d <? rows)
     && forallb (λ s, (0 <=? s) && (s <? rows) && negb (Z.testbit md s)
                      && bool_decide (masks !! Z.to_nat s = Some after)) srcs
  then Some (<[Z.to_nat d := after]> masks) else None.

Definition check_op (rows : Z) (masks : list Z) (op : rowop) : option (list Z) :=
  match op with
  | SCALE_ROW i =>
      if (0 <=? i) && (i <? rows) && bool_decide (masks !! Z.to_nat i = Some (Z.ones i))
      then Some (<[Z.to_nat i := Z.ones (i + 1)]> masks) else None
  | MULADD_ROW d s => check_elim rows masks d [s]
  | MULADD_MULTI_ROW d off n => check_elim rows masks d (seqZ off n)
  end.

Definition check_program (rows : Z) : option (list Z) :=
  foldl (λ st op, st ≫= λ masks, check_op rows masks op)
    (Some (replicate (Z.to_nat rows) 0)) (scale_program rows).

(** The body of every [scaleRows<rows>] substitutes all columns in all rows. *)
Lemma scale_programs_checked :
  forallb (λ rows, bool_decide (check_program rows
                                = Some (replicate (Z.to_nat rows) (Z.ones rows)))) [1; 2; 3; 4; 5; 6] = true.
Proof. vm_compute. reflexivity. Qed.

Lemma mask_of_testbit srcs j : Forall (λ s, 0 ≤ s) srcs → 0 ≤ j →
  Z.testbit (mask_of srcs) j = bool_decide (j ∈ srcs).
Proof.
  intros Hs Hj. induction Hs as [|s srcs Hs1 Hs IH]; simpl.
  - by rewrite Z.bits_0.
  - rewrite Z.lor_spec, IH, Z.pow2_bits_eqb by done.
    apply eq_true_iff_eq. rewrite orb_true_iff, Z.eqb_eq, !bool_decide_eq_true, elem_of_cons.
    intuition.
Qed.

Section Invert.
Context {M : Type} (k : kernel M) (view : M → Z → Z) `{L : !KernelLaws k view}.
Context (tables : gfmat_tables) (Htab : tables_ok tables).
Context (numRec validCount sw16 numStripes : Z).
Context (D : dims_ok k numRec validCount sw16 numStripes).
Context (Sys : (Z → Z) → (Z → Z) → (Z → Z) → Prop).
Context (Sys_range : ∀ V X Y, Sys V X Y → ∀ i, u16 (V i) ∧ u16 (X i) ∧ u16 (Y i)).

Abbreviation cellm := (cell view numRec sw16).
Abbreviation ins := (inside numRec sw16 numStripes).
Abbreviation rows_inv m sub := (rows_ok numRec validCount Sys (cellm m) sub).
Abbreviation Bad := (λ r, 0 ≤ r < numRec ∧ dependent numRec validCount Sys r).

Lemma cell_u16 m r c : u16 (cellm m r c).
Proof. apply (cell_range k view). Qed.

Lemma inside_missing r j : 0 ≤ r < numRec → 0 ≤ j < numRec → ins r (validCount + j).
Proof. intros. split; [done|]. destruct D. lia. Qed.

Lemma inside_column r c : 0 ≤ r < numRec → c ∈ columns numRec validCount → ins r c.
Proof. intros Hr Hc%elem_of_seqZ. split; [done|]. destruct D. lia. Qed.

Lemma rows_inv_ext m m' sub sub' :
  (∀ r c, ins r c → cellm m r c = cellm m' r c) →
  (∀ r j, 0 ≤ r < numRec → 0 ≤ j < numRec → sub r j = sub' r j) →
  rows_inv m sub → rows_inv m' sub'.
Proof.
  intros Hc Hs H r Hr. eapply row_ok_ext; [done| | |by apply H].
  - intros c Hin. by apply Hc, inside_column.
  - intros j Hj. by apply Hs.
Qed.

(** ** The two row operations *)

(** The rows [T] have the columns of [srcs] eliminated. *)
Definition eliminated (m m' : M) (T srcs : list Z) : Prop :=
  ∀ r c, ins r c → cellm m' r c =
    if decide (r ∈ T) then
      xsum (λ s, mul16 (cellm m r (validCount + s)) (cellm m s c)) srcs
      ⊕ (if decide (c - validCount ∈ srcs) then 0 else cellm m r c)
    else cellm m r c.

Lemma eliminated_ok m m' T (srcs : list Z) sub :
  NoDup srcs → (∀ s, s ∈ srcs → 0 ≤ s < numRec) →
  (∀ d, d ∈ T → d ∉ srcs) →
  (∀ d s, 0 ≤ d < numRec → d ∈ T → s ∈ srcs → sub d s = false ∧
     ∀ j, 0 ≤ j < numRec → sub s j = bool_decide (j ∈ srcs) || sub d j) →
  eliminated m m' T srcs → rows_inv m sub →
  rows_inv m' (λ r j, if decide (r ∈ T) then bool_decide (j ∈ srcs) || sub r j else sub r j).
Proof.
  intros Hnd Hs Hdisj Hsub Hel Hrows r Hr. destruct (decide (r ∈ T)) as [HT|HT].
  - eapply row_ok_ext; [done| |reflexivity|apply (row_eliminate numRec validCount Sys Sys_range (dim_valid _ _ _ _ _ D)
      (cellm m r) (cellm m) (sub r) (λ j, bool_decide (j ∈ srcs) || sub r j) r srcs)]; try done.
    + intros c Hc. cbv beta. rewrite Hel by (apply inside_column; done). by destruct (decide (r ∈ T)).
    + by apply Hdisj.
    + intros s Hin. destruct (Hsub r s Hr HT Hin) as [H1 H2]. split; [by apply Hs|]. split; [done|].
      eapply row_ok_ext; [by apply Hs|reflexivity| |by apply Hrows, Hs]; done.
    + by apply Hrows.
  - eapply row_ok_ext; [done| |done|by apply Hrows].
    intros c Hc. rewrite Hel by (apply inside_column; done). by rewrite decide_False.
Qed.

(** Clearing the coefficients and adding the rows eliminates the columns. *)
Lemma eliminated_of_added m m1 m' d srcs :
  d ∉ srcs → 0 ≤ d < numRec → (∀ s, s ∈ srcs → 0 ≤ s < numRec) →
  (∀ r c, ins r c → cellm m1 r c
     = if decide (r = d ∧ c - validCount ∈ srcs) then 0 else cellm m r c) →
  row_added view numRec sw16 numStripes m1 m' d srcs ((λ s, cellm m d (validCount + s)) <$> srcs) →
  eliminated m m' [d] srcs.
Proof.
  intros Hd Hdr Hs H1 Hadd r c Hi. rewrite Hadd by done. rewrite xsum_zip_fmap.
  destruct (decide (r = d)) as [->|Hne].
  - rewrite decide_True by set_solver. f_equal.
    + apply xsum_ext. intros s Hin. rewrite H1 by (split; [by apply Hs|apply Hi]).
      rewrite decide_False by set_solver. done.
    + rewrite H1 by done. do 2 case_decide; tauto.
  - rewrite H1, !decide_False by (done || set_solver). done.
Qed.

(** Row [d] is divided by its pivot. *)
Definition scaled (m m' : M) (d : Z) : Prop :=
  ∃ inv, mul16 inv (cellm m d (validCount + d)) = 1 ∧
    ∀ r c, ins r c → cellm m' r c =
      if decide (r = d) then mul16 inv (if decide (c = validCount + d) then 1 else cellm m d c)
      else cellm m r c.

Lemma scaled_ok m m' d sub : 0 ≤ d < numRec → sub d d = false → scaled m m' d → rows_inv m sub →
  rows_inv m' (λ r j, if decide (r = d) then (j =? d) || sub d j else sub r j).
Proof.
  intros Hd Hsub (inv & Hinv & Hm) Hrows r Hr. destruct (decide (r = d)) as [->|Hne].
  - eapply row_ok_ext; [done| |reflexivity|apply (row_scale numRec validCount Sys Sys_range (dim_valid _ _ _ _ _ D)
      (cellm m d) (sub d) d inv)]; try done.
    + intros c Hc. cbv beta. rewrite Hm by (apply inside_column; done). by destruct (decide (d = d)).
    + by apply Hrows.
  - eapply row_ok_ext; [done| |done|by apply Hrows].
    intros c Hc. rewrite Hm by (apply inside_column; done). by rewrite decide_False.
Qed.

(** ** [scaleRows] *)

Abbreviation RW := (REPLACE_WORD k numRec sw16).

(** Reading and clearing several coefficients of a row. *)
Lemma replace_words_ok m r base cs : NoDup cs → (∀ j, j ∈ cs → ins r (base + j)) →
  fst (replace_words k numRec sw16 m r base cs) = (λ j, cellm m r (base + j)) <$> cs ∧
  ∀ r' c, ins r' c → cellm (snd (replace_words k numRec sw16 m r base cs)) r' c
    = if decide (r' = r ∧ c - base ∈ cs) then 0 else cellm m r' c.
Proof.
  revert m. induction cs as [|j cs IH]; intros m Hnd Hin; simpl.
  - split; [done|]. intros r' c _. rewrite decide_False by set_solver. done.
  - apply NoDup_cons in Hnd as [Hj Hnd].
    destruct (REPLACE_WORD_ok k view numRec validCount sw16 numStripes D m r (base + j) 0)
      as [H1 H2]; [apply Hin; set_solver|done|].
    destruct (RW m r (base + j) 0) as [v m1]. simpl in *.
    destruct (IH m1 Hnd) as [H3 H4]; [intros; apply Hin; set_solver|].
    destruct (replace_words k numRec sw16 m1 r base cs) as [vs m2]. simpl in *. split.
    + rewrite H1, H3. f_equal. apply list_fmap_ext. intros i j' Hj'.
      apply list_elem_of_lookup_2 in Hj'. rewrite H2 by (apply Hin; set_solver).
      rewrite decide_False; [done|]. intros [_ E]. apply Hj. by replace j with j' by lia.
    + intros r' c Hi. rewrite H4, H2 by done.
      destruct (decide (r' = r ∧ c = base + j)) as [[-> ->]|E].
      * replace (base + j - base) with j by lia. rewrite (decide_False (P := r = r ∧ j ∈ cs)) by tauto.
        by rewrite decide_True by (split; [done|left]).
      * destruct (decide (r' = r ∧ c - base ∈ cs)), (decide (r' = r ∧ c - base ∈ j :: cs)); try done.
        -- exfalso. rewrite elem_of_cons in *. tauto.
        -- exfalso. destruct a as [-> [?|?]%elem_of_cons]; [apply E; split; [done|lia]|tauto].
Qed.

Lemma SCALE_ROW_ok rec row m : 0 ≤ rec + row < numRec →
  wp (exec_rowop k tables numRec validCount sw16 numStripes rec (SCALE_ROW row) m)
    (λ m', scaled m m' (rec + row))
    (λ r, r = row ∧ cellm m (rec + row) (validCount + (rec + row)) = 0).
Proof.
  intros Hr. simpl. replace (validCount + rec + row) with (validCount + (rec + row)) by lia.
  set (d := rec + row) in *.
  destruct (REPLACE_WORD_ok k view numRec validCount sw16 numStripes D m d (validCount + d) 1) as [H1 H2];
    [by apply inside_missing|done|].
  destruct (RW m d (validCount + d) 1) as [v m1]. simpl in *. subst v.
  pose proof (cell_u16 m d (validCount + d)) as Hrange.
  set (t := cellm m d (validCount + d)) in *.
  destruct (Z.eqb_spec t 0) as [E0|E0]; [done|]. destruct (Z.eqb_spec t 1) as [E1|E1].
  - exists 1. fold t. rewrite E1. split; [done|]. intros r c Hi. rewrite H2 by done.
    destruct (decide (r = d)) as [->|]; [|rewrite decide_False by tauto; done].
    destruct (decide (c = validCount + d)) as [->|].
    + by rewrite decide_True by done.
    + rewrite decide_False by tauto. by rewrite (gf_mul_1_l 16 poly16) by apply cell_u16.
  - destruct (tables_recip _ Htab t) as (inv & -> & Hinv & Hmul).
    { unfold in_range in Hrange. change (2 ^ 16) with 65536 in Hrange. lia. }
    simpl. eapply wp_mono; [apply (scale_stripes_ok k view numRec validCount sw16 numStripes D d inv m1 (λ _, False)); done| |done].
    intros m' Hm'. exists inv. fold t. split; [by rewrite (gf_mul_comm 16 poly16)|].
    intros r c Hi. rewrite Hm' by done. destruct (decide (r = d)) as [->|].
    + rewrite H2 by done. f_equal. destruct (decide (c = validCount + d)) as [->|].
      * by rewrite decide_True by done.
      * by rewrite decide_False by tauto.
    + rewrite H2 by done. rewrite decide_False by tauto. done.
Qed.

(** The multiply-add forms, single and multiple. *)
Definition elim_op (op : rowop) : option (Z * list Z) :=
  match op with
  | SCALE_ROW _ => None
  | MULADD_ROW d s => Some (d, [s])
  | MULADD_MULTI_ROW d off n => Some (d, seqZ off n)
  end.

Lemma elim_op_ok rec op d srcs m : elim_op op = Some (d, srcs) → NoDup srcs → d ∉ srcs →
  0 ≤ rec + d < numRec → (∀ s, s ∈ srcs → 0 ≤ rec + s < numRec) →
  wp (exec_rowop k tables numRec validCount sw16 numStripes rec op m)
    (λ m', eliminated m m' [rec + d] (Z.add rec <$> srcs)) (λ _, False).
Proof.
  intros Hop Hnd Hds Hd Hs.
  assert (∀ c : Z, c - (validCount + rec) ∈ srcs ↔ c - validCount ∈ Z.add rec <$> srcs) as Hcol.
  { intros c. rewrite list_elem_of_fmap. split; [exists (c - (validCount + rec)); split; [lia|done]|].
    intros (s & Hs1 & Hs2). by replace (c - (validCount + rec)) with s by lia. }
  assert (rec + d ∉ Z.add rec <$> srcs) as Hdn.
  { intros (s & Hs1 & Hs2)%list_elem_of_fmap. apply Hds. by replace d with s by lia. }
  assert (∀ s, s ∈ Z.add rec <$> srcs → 0 ≤ s < numRec) as Hsr.
  { intros s (s' & -> & Hin)%list_elem_of_fmap. by apply Hs. }
  assert (Forall (λ s, 0 ≤ s < numRec ∧ s ≠ rec + d) (Z.add rec <$> srcs)) as Hfor.
  { apply Forall_forall. intros s Hin. split; [by apply Hsr|]. intros ->. done. }
  destruct (replace_words_ok m (rec + d) (validCount + rec) srcs Hnd) as [H1 H2].
  { intros s Hin. replace (validCount + rec + s) with (validCount + (rec + s)) by lia.
    apply inside_missing; [done|by apply Hs]. }
  set (rw := replace_words k numRec sw16 m (rec + d) (validCount + rec) srcs) in *.
  assert (∀ m', row_added view numRec sw16 numStripes (snd rw) m' (rec + d) (Z.add rec <$> srcs) (fst rw) →
    eliminated m m' [rec + d] (Z.add rec <$> srcs)) as Hfin.
  { intros m' Hadd. apply (eliminated_of_added m (snd rw)); [done..| |].
    - intros r c Hi. rewrite H2 by done. specialize (Hcol c). do 2 case_decide; tauto.
    - rewrite H1 in Hadd. rewrite <- list_fmap_compose.
      rewrite (list_fmap_ext (_ ∘ _) (λ j, cellm m (rec + d) (validCount + rec + j))); [exact Hadd|].
      intros _ s _. unfold compose. f_equal. lia. }
  destruct op as [row|d' s'|d' off n]; simplify_eq/=.
  - unfold rw in *. simpl in *. destruct (RW m (rec + d) (validCount + rec + s') 0) as [v m1]. simpl in *.
    assert (u16 v) as Hv by (simplify_eq; apply cell_u16).
    destruct (Z.eqb_spec v 0) as [->|Hv0].
    + apply Hfin. intros r c Hi. simpl. rewrite (gf_mul_0_l 16 poly16). by destruct (decide (r = rec + d)) as [->|].
    + eapply wp_mono; [apply (stripes_added k view numRec validCount sw16 numStripes D _ m1 (rec + d) [rec + s'] [v] (λ _, False)); [done|exact Hfor|]| |done].
      * intros stripe m2. apply wp_of_option. apply (stripe_muladd_ok k view numRec validCount sw16 numStripes D); try done.
        -- apply Hs. set_solver.
        -- intros E. apply Hds. replace d with s' by lia. set_solver.
      * done.
  - fold rw. destruct rw as [coeff m1]. simpl in *.
    eapply wp_mono; [apply (stripes_added k view numRec validCount sw16 numStripes D _ m1 (rec + d) (Z.add rec <$> seqZ off n) coeff (λ _, False)); [done..|]| |done].
    + intros stripe m2. apply wp_of_option.
      destruct (stripe_muladd_multi_ok k view numRec validCount sw16 numStripes D stripe m2 (rec + d) (Z.add rec <$> seqZ off n) coeff)
        as (m3 & Hm3 & Hadd); [done..| | |].
      * rewrite H1. apply Forall_fmap, Forall_true. intros. apply cell_u16.
      * by rewrite H1, !length_fmap.
      * exists m3. rewrite <- list_fmap_compose in Hm3. done.
    + done.
Qed.

Section Scale.
Context (rows rec : Z) (frozen : Z → Z → bool).
Hypothesis Hrec : 0 ≤ rec ∧ 0 ≤ rows ∧ rec + rows ≤ numRec.

(** The substituted columns: everything before the block, and the mask. *)
Definition block_sub (masks : list Z) (r j : Z) : bool :=
  if (rec <=? r) && (r <? rec + rows)
  then (j <? rec) || Z.testbit (default 0 (masks !! Z.to_nat (r - rec))) (j - rec)
  else frozen r j.

Lemma block_sub_in masks i mask j : 0 ≤ i < rows → masks !! Z.to_nat i = Some mask →
  block_sub masks (rec + i) j = (j <? rec) || Z.testbit mask (j - rec).
Proof.
  intros Hi Hm. unfold block_sub. rewrite (proj2 (Z.leb_le _ _)), (proj2 (Z.ltb_lt _ _)) by lia.
  replace (rec + i - rec) with i by lia. by rewrite Hm.
Qed.

Lemma block_sub_insert masks i v r j : 0 ≤ i < rows → length masks = Z.to_nat rows →
  block_sub (<[Z.to_nat i := v]> masks) r j
  = if decide (r = rec + i) then (j <? rec) || Z.testbit v (j - rec) else block_sub masks r j.
Proof.
  intros Hi Hlen. destruct (decide (r = rec + i)) as [->|Hne].
  - apply block_sub_in; [done|]. apply list_lookup_insert_eq. lia.
  - unfold block_sub. destruct (Z.leb_spec rec r); [|done]. destruct (Z.ltb_spec r (rec + rows)); [|done].
    simpl. by rewrite list_lookup_insert_ne by lia.
Qed.

Lemma check_elim_ok op d srcs masks masks' m :
  elim_op op = Some (d, srcs) → check_elim rows masks d srcs = Some masks' → length masks = Z.to_nat rows →
  rows_inv m (block_sub masks) →
  wp (exec_rowop k tables numRec validCount sw16 numStripes rec op m)
    (λ m', rows_inv m' (block_sub masks')) (λ r, Bad (rec + r)).
Proof.
  intros Hop Hchk Hlen Hinv. unfold check_elim in Hchk.
  destruct (masks !! Z.to_nat d) as [md|] eqn:Hmd; [|done]. simpl in Hchk.
  case_match eqn:E; [|done]. simplify_eq. rewrite !andb_true_iff, !bool_decide_eq_true, Z.leb_le, Z.ltb_lt in E.
  destruct E as [[[[Hnd Hdn] Hd0] Hdr] Hall]. rewrite forallb_forall in Hall.
  assert (∀ s, s ∈ srcs → 0 ≤ s < rows ∧ Z.testbit md s = false
            ∧ masks !! Z.to_nat s = Some (Z.lor md (mask_of srcs))) as Hs.
  { intros s Hin%list_elem_of_In. specialize (Hall s Hin).
    rewrite !andb_true_iff, Z.leb_le, Z.ltb_lt, negb_true_iff, bool_decide_eq_true in Hall. tauto. }
  assert (Forall (λ s, 0 ≤ s) srcs) as Hnn.
  { apply Forall_forall. intros s Hin. destruct (Hs s Hin). lia. }
  assert (∀ j, bool_decide (j ∈ Z.add rec <$> srcs) || ((j <? rec) || Z.testbit md (j - rec))
             = (j <? rec) || Z.testbit (Z.lor md (mask_of srcs)) (j - rec)) as Hmask.
  { intros j. destruct (Z.ltb_spec j rec) as [Hj|Hj]; [by rewrite orb_true_r|].
    rewrite Z.lor_spec, mask_of_testbit by (done || lia). simpl. rewrite orb_comm. f_equal.
    apply bool_decide_ext. rewrite list_elem_of_fmap. split.
    - intros (s & -> & H). by replace (rec + s - rec) with s by lia.
    - intros. exists (j - rec). split; [lia|done]. }
  eapply wp_mono; [apply (elim_op_ok rec op d srcs m); [done..|lia|]| |done].
  { intros s Hin. destruct (Hs s Hin). lia. }
  intros m' Hm'. eapply rows_inv_ext; [done| |eapply (eliminated_ok m m' [rec + d]); [| | | |exact Hm'|exact Hinv]].
  - intros r j Hr Hj. cbv beta. rewrite block_sub_insert by (done || lia).
    destruct (decide (r ∈ [rec + d])) as [->%list_elem_of_singleton|Hne].
    + rewrite decide_True by done. by rewrite (block_sub_in masks d md) by (done || lia).
    + rewrite decide_False; [done|]. set_solver.
  - apply NoDup_fmap_2; [|done]. intros x y. lia.
  - intros s (s' & -> & Hin)%list_elem_of_fmap. destruct (Hs s' Hin). lia.
  - intros r ->%list_elem_of_singleton (s' & Heq & Hin)%list_elem_of_fmap. apply Hdn.
    by replace d with s' by lia.
  - intros r s Hr ->%list_elem_of_singleton (s' & -> & Hin)%list_elem_of_fmap.
    destruct (Hs s' Hin) as (Hs1 & Hs2 & Hs3). rewrite (block_sub_in masks d md) by (done || lia). split.
    + replace (rec + s' - rec) with s' by lia. rewrite Hs2, orb_false_r. apply Z.ltb_ge. lia.
    + intros j Hj. rewrite (block_sub_in masks s' _ j Hs1 Hs3), (block_sub_in masks d md) by (done || lia).
      by rewrite Hmask.
Qed.

Lemma check_scale_ok i masks masks' m :
  check_op rows masks (SCALE_ROW i) = Some masks' → length masks = Z.to_nat rows →
  rows_inv m (block_sub masks) →
  wp (exec_rowop k tables numRec validCount sw16 numStripes rec (SCALE_ROW i) m)
    (λ m', rows_inv m' (block_sub masks')) (λ r, Bad (rec + r)).
Proof.
  intros Hchk Hlen Hinv. cbn [check_op] in Hchk. case_match eqn:E; [|done]. simplify_eq.
  rewrite !andb_true_iff, bool_decide_eq_true, Z.leb_le, Z.ltb_lt in E. destruct E as [Hi Hmask].
  assert (∀ j, (j <? rec) || Z.testbit (Z.ones i) (j - rec) = (j <? rec + i)) as Hones.
  { intros j. destruct (Z.ltb_spec j rec).
    - symmetry. apply Z.ltb_lt. lia.
    - simpl. rewrite Z.testbit_ones_nonneg by lia. apply eq_true_iff_eq. rewrite !Z.ltb_lt. lia. }
  eapply wp_mono; [apply (SCALE_ROW_ok rec i m); lia| |].
  - intros m' Hm'. eapply rows_inv_ext; [done| |apply (scaled_ok m m' (rec + i) (block_sub masks))]; try done.
    + intros r j Hr Hj. cbv beta. rewrite block_sub_insert by (done || lia). case_decide as Hd; [|done].
      rewrite (block_sub_in masks i _ j Hi Hmask), Hones.
      destruct (Z.ltb_spec j rec); [rewrite (proj2 (Z.ltb_lt j (rec + i))) by lia; by rewrite orb_true_r|].
      simpl. rewrite Z.testbit_ones_nonneg by lia. apply eq_true_iff_eq.
      rewrite orb_true_iff, Z.eqb_eq, !Z.ltb_lt. lia.
    + lia.
    + rewrite (block_sub_in masks i _ _ Hi Hmask), Hones. apply Z.ltb_ge. lia.
  - intros r [-> Hz]. split; [lia|]. exists (cellm m (rec + i)), (block_sub masks (rec + i)).
    split; [intros; apply cell_u16|]. split; [apply Hinv; lia|]. split; [done|].
    intros j Hj. by rewrite (block_sub_in masks i _ _ Hi Hmask), Hones.
Qed.

Lemma check_op_ok op masks masks' m :
  check_op rows masks op = Some masks' → length masks = Z.to_nat rows → rows_inv m (block_sub masks) →
  wp (exec_rowop k tables numRec validCount sw16 numStripes rec op m)
    (λ m', rows_inv m' (block_sub masks')) (λ r, Bad (rec + r)).
Proof.
  intros Hchk Hlen Hinv. destruct op as [i|d s|d off n].
  - by eapply check_scale_ok.
  - by apply (check_elim_ok (MULADD_ROW d s) d [s] masks).
  - by apply (check_elim_ok (MULADD_MULTI_ROW d off n) d (seqZ off n) masks).
Qed.

Lemma check_op_length op masks masks' : check_op rows masks op = Some masks' → length masks' = length masks.
Proof.
  assert (∀ d srcs, check_elim rows masks d srcs = Some masks' → length masks' = length masks).
  { intros d srcs H. unfold check_elim in H. destruct (masks !! Z.to_nat d); [|done]. simpl in H.
    case_match; [|done]. simplify_eq. apply length_insert. }
  destruct op; cbn [check_op]; intros Hop; [|by eauto..].
  case_match; [|done]. simplify_eq. apply length_insert.
Qed.

Lemma check_ops_ok ops masks masks' m :
  foldl (λ st op, st ≫= λ masks, check_op rows masks op) (Some masks) ops = Some masks' →
  length masks = Z.to_nat rows → rows_inv m (block_sub masks) →
  wp (for_each ops (exec_rowop k tables numRec validCount sw16 numStripes rec) m)
    (λ m', rows_inv m' (block_sub masks')) (λ r, Bad (rec + r)).
Proof.
  revert masks m. induction ops as [|op ops IH]; intros masks m Hchk Hlen Hinv; simpl in *.
  { by simplify_eq. }
  destruct (check_op rows masks op) as [masks1|] eqn:E; simpl in Hchk.
  - apply wp_bind. eapply wp_mono; [by eapply check_op_ok| |done]. intros m1 Hm1.
    apply (IH masks1); [done| |done]. erewrite check_op_length; done.
  - exfalso. clear -Hchk. induction ops; simpl in *; [done|]. by apply IHops.
Qed.

(** [scaleRows] turns the rows of the block into expressions for the missing
    blocks, with all the block's columns substituted, or finds a dependent row. *)
Lemma scaleRows_ok m : 1 ≤ rows ≤ 6 → 
  (∀ r j, rec ≤ r < rec + rows → 0 ≤ j < numRec → frozen r j = (j <? rec)) →
  rows_inv m frozen →
  wp (scaleRows k tables numRec validCount sw16 numStripes rows rec m)
    (λ m', rows_inv m' (λ r j, if (rec <=? r) && (r <? rec + rows) then j <? rec + rows else frozen r j))
    (λ r, Bad (rec + r)).
Proof.
  intros Hrows Hfr Hinv.
  assert (check_program rows = Some (replicate (Z.to_nat rows) (Z.ones rows))) as Hchk.
  { pose proof scale_programs_checked as H. rewrite forallb_forall in H.
    specialize (H rows). rewrite bool_decide_eq_true in H. apply H. simpl. lia. }
  unfold scaleRows. eapply wp_mono; [eapply check_ops_ok; [exact Hchk|apply length_replicate|]| |done].
  - eapply rows_inv_ext; [done| |exact Hinv]. intros r j Hr Hj. unfold block_sub.
    case_match eqn:E; [|done]. rewrite andb_true_iff, Z.leb_le, Z.ltb_lt in E.
    rewrite lookup_replicate_2 by lia. simpl. rewrite Z.bits_0, orb_false_r. by apply Hfr.
  - intros m'. apply rows_inv_ext; [done|]. intros r j Hr Hj. unfold block_sub.
    case_match eqn:E; [|done]. rewrite andb_true_iff, Z.leb_le, Z.ltb_lt in E.
    rewrite lookup_replicate_2 by lia. simpl.
    destruct (Z.ltb_spec j rec).
    + symmetry. apply Z.ltb_lt. lia.
    + simpl. rewrite Z.testbit_ones_nonneg by lia. apply eq_true_iff_eq. rewrite !Z.ltb_lt. lia.
Qed.
End Scale.
End Invert.

(** ** Theorems *)

(** The unrolled body of [scaleRows<rows>], for [rows] from 1 to 6, never reads
    outside its tables.  If the rows of the block [rec .. rec + rows) express recovery
    blocks with exactly the columns before [rec] substituted, then afterwards they
    express the missing blocks of the block with the block's columns substituted too,
    and every other row still states the equation it stated before; or a row is reported
    whose pivot is zero, and that row depends on the rows before it. *)
Theorem scaleRows_correct {M} (k : kernel M) (view : M → Z → Z) `{!KernelLaws k view} tables
    numRec validCount sw16 numStripes Sys rows rec sub m :
  gfmat_init = Some tables → dims_ok k numRec validCount sw16 numStripes →
  (∀ V X Y, Sys V X Y → ∀ i, u16 (V i) ∧ u16 (X i) ∧ u16 (Y i)) →
  1 ≤ rows ≤ 6 → 0 ≤ rec → rec + rows ≤ numRec →
  (∀ r j, rec ≤ r < rec + rows → 0 ≤ j < numRec → sub r j = (j <? rec)) →
  rows_ok numRec validCount Sys (cell view numRec sw16 m) sub →
  match scaleRows k tables numRec validCount sw16 numStripes rows rec m with
  | Ok m' => rows_ok numRec validCount Sys (cell view numRec sw16 m')
      (λ r j, if (rec <=? r) && (r <? rec + rows) then j <? rec + rows else sub r j)
  | BadRow row => 0 ≤ rec + row < numRec ∧ dependent numRec validCount Sys (rec + row)
  | Fault => False
  end.
Proof.
  intros Ht%gfmat_init_tables D HSys Hrows Hrec Hfit Hsub Hinv.
  apply (scaleRows_ok k view tables Ht numRec validCount sw16 numStripes D Sys HSys rows rec sub); (done || lia).
Qed.

Lemma scaleRows_correct_witness :
  ∃ tables, gfmat_init = Some tables ∧
    scaleRows lookup_kernel tables 2 1 4 1 2 0 ∅ ≠ Fault.
Proof.
  destruct gfmat_init_ok as (tables & Ht & _). exists tables. split; [exact Ht|].
  assert (dims_ok lookup_kernel 2 1 4 1) as D by (split; vm_compute; congruence).
  pose proof (scaleRows_correct lookup_kernel word tables 2 1 4 1 zero_system 2 0 (λ _ j, j <? 0) ∅ Ht D
    zero_system_range ltac:(lia) ltac:(lia) ltac:(lia) (λ _ _ _ _, eq_refl) (zero_system_rows_ok _ _ _ _)) as H.
  intros E. rewrite E in H. exact H.
Defined.
