(* ===== verification/RecApply.v ===== *)
(** * RecApply.v: eliminating a group of rows from other rows

    [fillCoeffs] moves the coefficients of a set of rows into the coefficient
    buffer, [applyRows] adds the source rows times those coefficients; together they
    eliminate the source columns ([eliminated] of RecInvert.v).  [processRows] is then
    followed group by group. *)

From S2P Require Import Prelude LinOp GF GfCoeff GfLookup GfMul RecElim RecMatrix RecOps RecInvert.

(** ** The rows the two loops visit *)

Lemma fill_visit_spec fuel r recLast rec rows :
  1 ≤ rows → recLast - r ≤ Z.of_nat fuel → r ≤ rec ∨ rec + rows ≤ r →
  NoDup (fill_visit fuel r recLast rec rows) ∧
  ∀ x, x ∈ fill_visit fuel r recLast rec rows ↔ r ≤ x < recLast ∧ ¬ (rec ≤ x < rec + rows).
Proof.
  intros Hrows. revert r. induction fuel as [|fuel IH]; intros r Hfuel Hr; simpl.
  - split; [apply NoDup_nil_2|]. intros x. rewrite elem_of_nil. lia.
  - destruct (Z.ltb_spec r recLast); [|split; [apply NoDup_nil_2|intros x; rewrite elem_of_nil; lia]].
    destruct (Z.eqb_spec r rec) as [->|].
    + destruct (IH (rec + (rows - 1) + 1)) as [H1 H2]; [lia..|]. split; [done|].
      intros x. rewrite H2. lia.
    + destruct (IH (r + 1)) as [H1 H2]; [lia..|]. split.
      * apply NoDup_cons. split; [|done]. rewrite H2. lia.
      * intros x. rewrite elem_of_cons, H2. lia.
Qed.

Lemma invert_visit_spec fuel r recLast rec rows :
  1 ≤ rows → recLast - r ≤ Z.of_nat fuel → r < rec ∨ rec + rows ≤ r →
  NoDup (invert_visit fuel r recLast rec rows) ∧
  ∀ x, x ∈ invert_visit fuel r recLast rec rows ↔ r ≤ x < recLast ∧ ¬ (rec ≤ x < rec + rows).
Proof.
  intros Hrows. revert r. induction fuel as [|fuel IH]; intros r Hfuel Hr; simpl.
  - split; [apply NoDup_nil_2|]. intros x. rewrite elem_of_nil. lia.
  - destruct (Z.ltb_spec r recLast); [|split; [apply NoDup_nil_2|intros x; rewrite elem_of_nil; lia]].
    set (next := if r + 1 =? rec then r + 1 + rows else r + 1).
    assert (next = if decide (r + 1 = rec) then r + 1 + rows else r + 1) as Hnext.
    { unfold next. destruct (Z.eqb_spec (r + 1) rec); case_decide; done. }
    destruct (IH next) as [H1 H2]; [case_decide; lia..|]. split.
    + apply NoDup_cons. split; [|done]. rewrite H2. case_decide; lia.
    + intros x. rewrite elem_of_cons, H2. case_decide; lia.
Qed.

Section Apply.
Context {M : Type} (k : kernel M) (view : M → Z → Z) `{L : !KernelLaws k view}.
Context (numRec validCount sw16 numStripes : Z).
Context (D : dims_ok k numRec validCount sw16 numStripes).

Abbreviation cellm := (cell view numRec sw16).
Abbreviation ins := (inside numRec sw16 numStripes).
Abbreviation RW := (REPLACE_WORD k numRec sw16).

(** ** [fillCoeffs] *)

(** The row loop: coefficients [base .. base + width) of row [r] move to the buffer. *)
Lemma fill_row_ok m coeff r base width off :
  0 ≤ width → (∀ c, base ≤ c < base + width → ins r c) →
  let st := for_loop 0 width (λ c '(m, coeff),
      let '(v, m) := RW m r (base + c) 0 in (m, <[off + c := v]> coeff)) (m, coeff) in
  (∀ r' c, ins r' c → cellm (fst st) r' c
     = if decide (r' = r ∧ base ≤ c < base + width) then 0 else cellm m r' c) ∧
  (∀ a, (snd st : array) !! a
     = if decide (off ≤ a < off + width) then Some (cellm m r (base + (a - off))) else coeff !! a).
Proof.
  intros Hw Hin. 
  pose (P := λ (i : Z) (st : M * array),
    (∀ r' c, ins r' c → cellm (fst st) r' c
     = if decide (r' = r ∧ base ≤ c < base + i) then 0 else cellm m r' c) ∧
    (∀ a, snd st !! a
     = if decide (off ≤ a < off + i) then Some (cellm m r (base + (a - off))) else coeff !! a)).
  apply (for_loop_ind P 0 width); [done| |].
  - split.
    + intros r' c _. by rewrite decide_False by lia.
    + intros a. by rewrite decide_False by lia.
  - intros i [m1 c1] Hi [H1 H2]. simpl in *.
    destruct (REPLACE_WORD_ok k view numRec validCount sw16 numStripes D m1 r (base + i) 0)
      as [H3 H4]; [apply Hin; lia|done|].
    destruct (RW m1 r (base + i) 0) as [v m2]. simpl in *. split; simpl.
    + intros r' c Hc. rewrite H4, H1 by done. repeat case_decide; (done || lia).
    + intros a. destruct (decide (a = off + i)) as [->|Hne].
      * rewrite lookup_insert_eq, decide_True by lia. f_equal. rewrite H3, H1 by (apply Hin; lia).
        rewrite decide_False by lia. f_equal. lia.
      * rewrite lookup_insert_ne, H2 by done. repeat case_decide; (done || lia).
Qed.

(** Two rows of the buffer do not overlap. *)
Lemma buffer_rows r r' width a : r ≠ r' → 
  r * width ≤ a < r * width + width → ¬ (r' * width ≤ a < r' * width + width).
Proof. intros Hne H1 H2. assert (r + 1 ≤ r' ∨ r' + 1 ≤ r) as [|] by lia; nia. Qed.

Lemma fill_rows_ok T m coeff recFirst base width :
  0 ≤ width → NoDup T → (∀ r c, r ∈ T → base ≤ c < base + width → ins r c) →
  let st := foldl (λ st r, for_loop 0 width (λ c '(m, coeff),
      let '(v, m) := RW m r (base + c) 0 in
      (m, <[(r - recFirst) * width + c := v]> coeff)) st) (m, coeff) T in
  (∀ r c, ins r c → cellm (fst st) r c
     = if decide (r ∈ T ∧ base ≤ c < base + width) then 0 else cellm m r c) ∧
  (∀ r j, r ∈ T → 0 ≤ j < width →
     (snd st : array) !! ((r - recFirst) * width + j) = Some (cellm m r (base + j))) ∧
  (∀ a, (∀ r, r ∈ T → ¬ ((r - recFirst) * width ≤ a < (r - recFirst) * width + width)) →
     (snd st : array) !! a = coeff !! a).
Proof.
  intros Hw Hnd. revert m coeff. induction T as [|r T IH]; intros m coeff Hin; cbn [foldl].
  - split_and!; [|by intros ? ? ?%elem_of_nil|done]. intros r c _.
    rewrite decide_False; [done|]. intros [?%elem_of_nil _]. done.
  - apply NoDup_cons in Hnd as [Hr Hnd].
    destruct (fill_row_ok m coeff r base width ((r - recFirst) * width) Hw) as [H1 H2];
      [intros c; apply Hin; left|].
    destruct (for_loop 0 width _ (m, coeff)) as [m1 c1]. cbn [fst snd] in H1, H2.
    destruct (IH Hnd m1 c1) as (H3 & H4 & H5); [intros; apply Hin; [by right|done]|].
    split_and!.
    + intros r' c Hc. rewrite H3, H1 by done. destruct (decide (r' = r)) as [->|Hne].
      * destruct (decide (base ≤ c < base + width)).
        -- rewrite decide_False, !decide_True by (done || tauto || (split; [left|done])). done.
        -- rewrite !decide_False by tauto. done.
      * rewrite (decide_False (P := r' = r ∧ _)) by tauto.
        destruct (decide (r' ∈ T ∧ base ≤ c < base + width)) as [E|E],
          (decide (r' ∈ r :: T ∧ base ≤ c < base + width)) as [E'|E'];
          rewrite elem_of_cons in E'; tauto.
    + intros r' j [->|Hin']%elem_of_cons Hj.
      * rewrite H5, H2.
        -- rewrite decide_True by lia. do 2 f_equal. lia.
        -- intros r' Hr'. apply (buffer_rows (r - recFirst)); [|lia]. intros E. apply Hr.
           by replace r with r' by lia.
      * rewrite H4 by done. f_equal. rewrite H1 by (apply Hin; [by right|lia]).
        rewrite decide_False; [done|]. intros [-> _]. done.
    + intros a Ha. rewrite H5, H2.
      * rewrite decide_False; [done|]. apply Ha. left.
      * intros r' Hr'. apply Ha. by right.
Qed.

(** ** [invertLoop] *)

Section Loop.
(** [cf r j]: the coefficient of source row [recSrc + j] in row [r], stored in the
    buffer for the rows of [T]. *)
Context (rows recFirst recSrc coeffWidth : Z) (coeff : array) (cf : Z → Z → Z) (T : list Z) (n : Z).
Hypothesis Hrows : 1 ≤ rows.
Hypothesis Hn : 0 ≤ n.
Hypothesis HT : ∀ r, r ∈ T → 0 ≤ r < numRec ∧ ¬ (recSrc ≤ r < recSrc + n * rows).
Hypothesis Hsrc : 0 ≤ recSrc ∧ recSrc + n * rows ≤ numRec.
Hypothesis Hcf : ∀ r j, u16 (cf r j).
Hypothesis Hbuf : ∀ r j, r ∈ T → 0 ≤ j < n * rows →
  coeff !! ((r - recFirst) * coeffWidth + j) = Some (cf r j).

(** The products added to row [r] for the sources [js]. *)
Definition added (m : M) (js : list Z) (r c : Z) : Z :=
  xsum (λ j, mul16 (cf r j) (cellm m (recSrc + j) c)) js.

Lemma invert_target_ok stripe i d m : 0 ≤ i < n → d ∈ T →
  wp (invert_target k numRec sw16 rows stripe recFirst recSrc (i * rows) coeffWidth coeff d m)
    (λ m', ∀ r c, ins r c → cellm m' r c =
      if decide (r = d ∧ c / sw16 = stripe)
      then added m (seqZ (i * rows) rows) d c ⊕ cellm m d c else cellm m r c) (λ _, False).
Proof.
  intros Hi Hd. destruct (HT d Hd) as [Hdr Hds]. unfold invert_target.
  set (js := seqZ (i * rows) rows). set (srcs := Z.add recSrc <$> js).
  assert (js = Z.add (i * rows) <$> seqZ 0 rows) as Hjs.
  { unfold js. rewrite fmap_add_seqZ. f_equal. lia. }
  rewrite (mapM_Some_2 _ _ (cf d <$> js)).
  2:{ rewrite Hjs, <- list_fmap_compose.
      apply Forall2_fmap_r, Forall_Forall2_diag, Forall_seqZ. intros j Hj. unfold compose.
      rewrite <- Hbuf by (done || nia). f_equal. lia. }
  simpl. 
  assert (∀ m', row_added_in view numRec sw16 numStripes stripe m m' d srcs (cf d <$> js) →
     ∀ r c, ins r c → cellm m' r c =
      if decide (r = d ∧ c / sw16 = stripe) then added m js d c ⊕ cellm m d c else cellm m r c) as Hfin.
  { intros m' Hm' r c Hc. rewrite Hm' by done. unfold srcs, added. by rewrite xsum_zip_fmap_l, xsum_zip_fmap. }
  assert (Forall (λ s, 0 ≤ s < numRec ∧ s ≠ d) srcs) as Hs.
  { apply Forall_fmap, Forall_seqZ. intros j Hj. simpl. nia. }
  destruct (Z.ltb_spec 1 rows).
  - apply wp_of_option.
    destruct (stripe_muladd_multi_ok k view numRec validCount sw16 numStripes D stripe m d srcs (cf d <$> js))
      as (m' & Hm' & Hadd); [done..| | |].
    + apply Forall_fmap, Forall_true. intros. apply Hcf.
    + unfold srcs. by rewrite !length_fmap.
    + exists m'. split; [|by apply Hfin]. rewrite <- Hm'. f_equal. unfold srcs.
      rewrite Hjs, <- !list_fmap_compose.
      apply list_fmap_ext. intros _ j _. unfold compose. f_equal. lia.
  - assert (js = [i * rows]) as Ejs.
    { unfold js. replace rows with 1 by lia. by rewrite seqZ_cons, seqZ_nil by lia. }
    unfold srcs in *. rewrite Ejs in *. simpl in *. apply wp_of_option.
    destruct (stripe_muladd_ok k view numRec validCount sw16 numStripes D stripe m d (recSrc + i * rows) (cf d (i * rows)))
      as (m' & Hm' & Hadd); [done|by apply Forall_cons in Hs as [[] _]..|done|].
    exists m'. split; [|by apply Hfin]. rewrite <- Hm'. f_equal. f_equal. lia.
Qed.

Lemma invert_targets_ok stripe i vs m : 0 ≤ i < n → NoDup vs → (∀ r, r ∈ vs ↔ r ∈ T) →
  wp (for_each vs (invert_target k numRec sw16 rows stripe recFirst recSrc (i * rows) coeffWidth coeff) m)
    (λ m', ∀ r c, ins r c → cellm m' r c =
      if decide (r ∈ T ∧ c / sw16 = stripe)
      then added m (seqZ (i * rows) rows) r c ⊕ cellm m r c else cellm m r c) (λ _, False).
Proof.
  intros Hi Hnd Hvs. 
  eapply wp_mono; [apply (wp_for_each (λ l m', ∀ r c, ins r c → cellm m' r c =
      if decide (r ∈ l ∧ c / sw16 = stripe)
      then added m (seqZ (i * rows) rows) r c ⊕ cellm m r c else cellm m r c) _ _ _ (λ _, False))| |done].
  - intros r c _. rewrite decide_False; [done|]. intros [?%elem_of_nil _]. done.
  - intros l1 d l2 m1 Hl IH. assert (d ∈ T) as Hd by (apply Hvs; rewrite Hl; set_solver).
    assert (d ∉ l1) as Hd1.
    { rewrite Hl in Hnd. apply NoDup_app in Hnd as (_ & Hx & _). intros Hx'. apply (Hx d Hx'). left. }
    eapply wp_mono; [by apply invert_target_ok| |done]. intros m2 H2 r c Hc. rewrite H2 by done.
    destruct (decide (r = d ∧ c / sw16 = stripe)) as [[-> Hst]|Hne].
    + rewrite decide_True by (split; [set_solver|done]). 
      rewrite (IH d c), decide_False by (done || tauto). f_equal.
      unfold added. apply xsum_ext. intros j Hj%elem_of_seqZ. f_equal.
      assert (recSrc + j ∉ T) by (intros Hx; destruct (HT _ Hx) as [_ Hx']; apply Hx'; nia).
      rewrite IH, decide_False; [done| |].
      * intros [Hx _]. apply H. apply Hvs. rewrite Hl. set_solver.
      * split; [nia|apply Hc].
    + rewrite IH by done. destruct (decide (r ∈ l1 ∧ c / sw16 = stripe)) as [E|E],
        (decide (r ∈ l1 ++ [d] ∧ c / sw16 = stripe)) as [E'|E']; try done;
        rewrite elem_of_app, list_elem_of_singleton in E'; tauto.
  - intros m' Hm' r c Hc. rewrite Hm' by done. specialize (Hvs r). do 2 case_decide; tauto.
Qed.

(** All source groups of one stripe. *)
Lemma invert_stripe_ok stripe recLast m :
  (∀ i, 0 ≤ i < n → let l := invert_visit (Z.to_nat (recLast - recFirst)) recFirst recLast (i * rows + recSrc) rows in
     NoDup l ∧ ∀ r, r ∈ l ↔ r ∈ T) →
  wp (for_range 0 n (λ i,
      let recI := i * rows in
      for_each (invert_visit (Z.to_nat (recLast - recFirst)) recFirst recLast (recI + recSrc) rows)
        (invert_target k numRec sw16 rows stripe recFirst recSrc recI coeffWidth coeff)) m)
    (λ m', ∀ r c, ins r c → cellm m' r c =
      if decide (r ∈ T ∧ c / sw16 = stripe)
      then added m (seqZ 0 (n * rows)) r c ⊕ cellm m r c else cellm m r c) (λ _, False).
Proof.
  intros Hvis. apply (wp_for_range (λ i m', ∀ r c, ins r c → cellm m' r c =
      if decide (r ∈ T ∧ c / sw16 = stripe)
      then added m (seqZ 0 (i * rows)) r c ⊕ cellm m r c else cellm m r c)); [done| |].
  - intros r c _. unfold added. simpl. by case_decide.
  - intros i m1 Hi IH. destruct (Hvis i Hi) as [Hnd Hmem].
    eapply wp_mono; [by apply invert_targets_ok| |done]. intros m2 H2 r c Hc. rewrite H2 by done.
    rewrite IH by done. case_decide as E; [|done].
    replace ((i + 1) * rows) with (i * rows + rows) by lia. rewrite seqZ_app by nia. rewrite Z.add_0_l.
    unfold added. rewrite xsum_app.
    rewrite (xsum_ext (λ j, mul16 (cf r j) (cellm m1 (recSrc + j) c))
      (λ j, mul16 (cf r j) (cellm m (recSrc + j) c))); [xor_solve|].
    intros j Hj%elem_of_seqZ. f_equal. rewrite IH, decide_False; [done| |].
    + intros [Hx _]. destruct (HT _ Hx) as [_ Hx']. apply Hx'. nia.
    + split; [nia|apply Hc].
Qed.

Lemma invertLoop_ok recLast m :
  (∀ i, 0 ≤ i < n → let l := invert_visit (Z.to_nat (recLast - recFirst)) recFirst recLast (i * rows + recSrc) rows in
     NoDup l ∧ ∀ r, r ∈ l ↔ r ∈ T) →
  wp (invertLoop k numRec sw16 rows 0 numStripes recFirst recLast recSrc (n * rows) coeff coeffWidth m)
    (λ m', ∀ r c, ins r c → cellm m' r c =
      if decide (r ∈ T) then added m (seqZ 0 (n * rows)) r c ⊕ cellm m r c else cellm m r c) (λ _, False).
Proof.
  intros Hvis. unfold invertLoop.
  assert (CEIL_DIV (n * rows) rows = n) as ->.
  { unfold CEIL_DIV. replace (n * rows + rows - 1) with (rows - 1 + n * rows) by lia.
    rewrite Z.div_add, Z.div_small by lia. lia. }
  pose proof (dim_width _ _ _ _ _ D). pose proof (dim_stripes _ _ _ _ _ D).
  eapply wp_mono; [apply (wp_for_range (λ s m', ∀ r c, ins r c → cellm m' r c =
      if decide (r ∈ T ∧ c / sw16 < s) then added m (seqZ 0 (n * rows)) r c ⊕ cellm m r c else cellm m r c) _ _ _ _ (λ _, False))| |done].
  - done.
  - intros r c [_ Hc]. rewrite decide_False; [done|]. intros [_ Hx]. pose proof (Z.div_pos c sw16). lia.
  - intros s m1 Hs IH. eapply wp_mono; [by apply invert_stripe_ok| |done]. intros m2 H2 r c Hc.
    rewrite H2 by done. destruct (decide (r ∈ T ∧ c / sw16 = s)) as [[HrT Hst]|Hne].
    + rewrite IH, decide_False, decide_True by (done || (split; [done|lia]) || lia). f_equal.
      unfold added. apply xsum_ext. intros j Hj%elem_of_seqZ. f_equal.
      rewrite IH, decide_False by (lia || (split; [lia|apply Hc])). done.
    + rewrite IH by done. do 2 case_decide; (done || (exfalso; intuition lia)).
  - intros m' Hm' r c Hc. rewrite Hm' by done. destruct Hc as [_ Hc].
    assert (c / sw16 < numStripes) by (apply Z.div_lt_upper_bound; lia).
    do 2 case_decide; (done || (exfalso; intuition lia)).
Qed.
End Loop.

(** ** [fillCoeffs] followed by [applyRows] *)

(** The rows of [recFirst, recLast) outside the sources. *)
Definition targets (recFirst recLast rec width : Z) : list Z :=
  fill_visit (Z.to_nat (recLast - recFirst)) recFirst recLast rec width.

Section FillApply.
Context (rows n recFirst recLast rec : Z).
Hypothesis Hrows : 1 ≤ rows.
Hypothesis Hn : 1 ≤ n.
Hypothesis Hlast : 0 ≤ recFirst < recLast ∧ recLast ≤ numRec.
Hypothesis Hrec : 0 ≤ rec ∧ rec + n * rows ≤ numRec.
(** Either one block, possibly inside the range, or a group outside the range. *)
Hypothesis Hpos : (n = 1 ∧ (recFirst < rec ∨ rec + rows ≤ recFirst))
                  ∨ recLast ≤ rec ∨ rec + n * rows ≤ recFirst.

Abbreviation width := (n * rows).
Abbreviation T := (targets recFirst recLast rec width).

Lemma targets_spec : NoDup T ∧ ∀ x, x ∈ T ↔ recFirst ≤ x < recLast ∧ ¬ (rec ≤ x < rec + width).
Proof. apply fill_visit_spec; nia. Qed.

Lemma invert_visit_targets i : 0 ≤ i < n →
  let l := invert_visit (Z.to_nat (recLast - recFirst)) recFirst recLast (i * rows + rec) rows in
  NoDup l ∧ ∀ r, r ∈ l ↔ r ∈ T.
Proof.
  intros Hi. destruct targets_spec as [_ HT].
  destruct (invert_visit_spec (Z.to_nat (recLast - recFirst)) recFirst recLast (i * rows + rec) rows)
    as [H1 H2]; [lia..|nia|].
  split; [done|]. intros r. rewrite H2, HT. nia.
Qed.

Lemma fill_apply_ok m coeff :
  let st := fillCoeffs k numRec validCount sw16 width recFirst recLast rec width (m, coeff) in
  wp (applyRows k numRec sw16 numStripes rows rec width recFirst recLast width (snd st) (fst st))
    (λ m', eliminated view numRec validCount sw16 numStripes m m' T (seqZ rec width)) (λ _, False)
  ∧ ∀ a, (snd st : array) !! a ≠ coeff !! a → 0 ≤ a < (recLast - recFirst) * width.
Proof.
  destruct targets_spec as [Hnd HT]. unfold fillCoeffs.
  destruct (fill_rows_ok T m coeff recFirst (validCount + rec) width) as (H1 & H2 & H3); [nia|done| |].
  { intros r c Hr%HT Hc. split; [lia|]. pose proof (dim_fit _ _ _ _ _ D). pose proof (dim_valid _ _ _ _ _ D). lia. }
  set (st := foldl _ _ _) in *. split.
  - unfold applyRows.
    eapply wp_mono; [apply (invertLoop_ok rows recFirst rec width (snd st)
      (λ r j, cellm m r (validCount + rec + j)) T n); try lia| |done].
    + intros r Hr%HT. lia.
    + intros. apply (cell_range k view).
    + done.
    + apply invert_visit_targets.
    + intros m' Hm' r c Hc. rewrite Hm', H1 by done. destruct (decide (r ∈ T)) as [Hr|Hr].
      * f_equal.
        -- unfold added. assert (seqZ rec width = Z.add rec <$> seqZ 0 width) as ->
             by (rewrite fmap_add_seqZ; f_equal; lia). rewrite xsum_map.
           apply xsum_ext. intros j Hj%elem_of_seqZ. f_equal; [f_equal; lia|].
           rewrite H1, decide_False; [done| |].
           ++ intros [Hx%HT _]. lia.
           ++ split; [lia|apply Hc].
        -- destruct (decide (r ∈ T ∧ validCount + rec ≤ c < validCount + rec + width)) as [E|E],
             (decide (c - validCount ∈ seqZ rec width)) as [E'|E']; try done; rewrite elem_of_seqZ in E';
             [lia|exfalso; apply E; split; [done|lia]].
      * rewrite decide_False by tauto. done.
  - intros a Ha. destruct (decide (0 ≤ a < (recLast - recFirst) * width)) as [|Hout]; [done|].
    exfalso. apply Ha, H3. intros r Hr%HT Hx. apply Hout. nia.
Qed.
End FillApply.
End Apply.
