(* ===== verification/RecProcess.v ===== *)
(** * RecProcess.v: [processRows] and the complete inversion

    Between groups every row has the same columns substituted, those before [rec];
    within a group the rows of the group are ahead of the others.  The invariant is
    [frontier m F]: row [r] has the columns below [F r] substituted. *)

From S2P Require Import Prelude LinOp GF GfCoeff GfLookup GfMul RecElim RecMatrix RecOps RecInvert RecApply.

Section Process.
Context {M : Type} (k : kernel M) (view : M → Z → Z) `{L : !KernelLaws k view}.
Context (tables : gfmat_tables) (Htab : tables_ok tables).
Context (numRec validCount sw16 numStripes : Z).
Context (D : dims_ok k numRec validCount sw16 numStripes).
Context (Sys : (Z → Z) → (Z → Z) → (Z → Z) → Prop).
Context (Sys_range : ∀ V X Y, Sys V X Y → ∀ i, u16 (V i) ∧ u16 (X i) ∧ u16 (Y i)).

Abbreviation cellm := (cell view numRec sw16).
Abbreviation Bad := (λ r, 0 ≤ r < numRec ∧ dependent numRec validCount Sys r).

Definition frontier (m : M) (F : Z → Z) : Prop :=
  rows_ok numRec validCount Sys (cellm m) (λ r j, j <? F r).

Lemma frontier_ext m F F' : (∀ r, 0 ≤ r < numRec → F r = F' r) → frontier m F → frontier m F'.
Proof.
  intros HF. apply (rows_inv_ext k view numRec validCount sw16 numStripes D); [done|].
  intros r j Hr Hj. by rewrite HF.
Qed.

(** The coefficient buffer has [size * size] entries. *)
Definition buffer_ok (size : Z) (coeff : array) : Prop :=
  ∀ a, coeff !! a ≠ None → 0 ≤ a < size * size.

Lemma buffer_ok_empty size : buffer_ok size ∅.
Proof. intros a Ha. by rewrite lookup_empty in Ha. Qed.

(** Eliminating the columns [rec, rec + width) from the targets, all at the
    frontier [rec], with source rows that have reached [rec + width]. *)
Lemma eliminate_frontier m m' F recFirst recLast rec width :
  0 ≤ rec → 0 ≤ width → rec + width ≤ numRec →
  (∀ r, r ∈ targets recFirst recLast rec width ↔ recFirst ≤ r < recLast ∧ ¬ (rec ≤ r < rec + width)) →
  (∀ r, rec ≤ r < rec + width → F r = rec + width) →
  (∀ r, recFirst ≤ r < recLast → ¬ (rec ≤ r < rec + width) → F r = rec) →
  eliminated view numRec validCount sw16 numStripes m m' (targets recFirst recLast rec width) (seqZ rec width) →
  frontier m F →
  frontier m' (λ r, if decide (recFirst ≤ r < recLast) then rec + width else F r).
Proof.
  intros H0 Hw Hle HT Hsrc Hdst Hel HF.
  eapply (rows_inv_ext k view numRec validCount sw16 numStripes D); [done| |
    apply (eliminated_ok k view numRec validCount sw16 numStripes D Sys Sys_range m m'
      (targets recFirst recLast rec width) (seqZ rec width) (λ r j, j <? F r))]; try done.
  - intros r j Hr Hj. cbv beta.
    destruct (decide (r ∈ targets recFirst recLast rec width)) as [Ht|Ht]; rewrite HT in Ht.
    + rewrite (decide_True (P := recFirst ≤ r < recLast)), Hdst by tauto.
      apply eq_true_iff_eq. rewrite orb_true_iff, bool_decide_eq_true, elem_of_seqZ, !Z.ltb_lt. lia.
    + case_decide; [|done]. by rewrite Hsrc by lia.
  - apply NoDup_seqZ.
  - intros s Hs%elem_of_seqZ. lia.
  - intros d Hd%HT Hs%elem_of_seqZ. tauto.
  - intros d s Hd Ht%HT Hs%elem_of_seqZ. rewrite Hdst by tauto. split; [apply Z.ltb_ge; lia|].
    intros j Hj. rewrite Hsrc by lia. apply eq_true_iff_eq.
    rewrite orb_true_iff, bool_decide_eq_true, elem_of_seqZ, !Z.ltb_lt. lia.
Qed.

Section Group.
Context (rows rowGroupSize recStart cur : Z).
Hypothesis Hrows : 1 ≤ rows ≤ 6.
Hypothesis Hstart : 0 ≤ recStart.
Hypothesis Hcur : 0 < cur ≤ rowGroupSize.
Hypothesis Hfit : recStart + cur ≤ numRec.

Abbreviation in_group r := (recStart ≤ r < recStart + cur).

(** Frontier while the group is being normalized: its rows are at [rec]. *)
Abbreviation group_at rec := (λ r, if decide (in_group r) then rec else recStart).

Lemma normalize_step_ok i st : 0 ≤ i → recStart + i * rows + rows ≤ recStart + cur →
  frontier (fst st) (group_at (recStart + i * rows)) → buffer_ok rowGroupSize (snd st) →
  wp (normalize_step k tables numRec validCount sw16 numStripes rows recStart cur (recStart + i * rows) st)
    (λ st', frontier (fst st') (group_at (recStart + (i + 1) * rows)) ∧ buffer_ok rowGroupSize (snd st')) Bad.
Proof.
  intros Hi Hle Hinv Hbuf. destruct st as [m coeff]. cbn [fst snd] in *. unfold normalize_step.
  set (rec := recStart + i * rows) in *. assert (recStart ≤ rec) by nia.
  replace (recStart + (i + 1) * rows) with (rec + rows) by lia.
  assert (wp (scaleRows k tables numRec validCount sw16 numStripes rows rec m)
    (λ m', frontier m' (λ r, if decide (rec ≤ r < rec + rows) then rec + rows else group_at rec r))
    (λ r, Bad (rec + r))) as Hscale.
  { eapply wp_mono; [apply (scaleRows_ok k view tables Htab numRec validCount sw16 numStripes D Sys Sys_range
      rows rec (λ r j, j <? group_at rec r)); try lia| |done].
    - intros r j Hr Hj. by rewrite decide_True by lia.
    - done.
    - intros m'. apply (rows_inv_ext k view numRec validCount sw16 numStripes D); [done|].
      intros r j Hr Hj. destruct (Z.leb_spec rec r), (Z.ltb_spec r (rec + rows)); simpl;
        repeat case_decide; (done || lia). }
  destruct (scaleRows _ _ _ _ _ _ _ _ _) as [m1|r|]; simpl in Hscale; [|done|done].
  set (recFirst := if recStart =? rec then recStart + rows else recStart) in *.
  set (recLast := cur + recStart).
  assert (recFirst = if decide (recStart = rec) then recStart + rows else recStart) as Hfirst.
  { unfold recFirst. destruct (Z.eqb_spec recStart rec); case_decide; done. }
  destruct (Z.eqb_spec recFirst recLast) as [Hend|Hend].
  { split; [|done]. eapply frontier_ext; [|exact Hscale]. intros r Hr. cbv beta.
    repeat case_decide; unfold recLast in *; lia. }
  assert (recFirst < recLast) by (unfold recLast in *; case_decide; lia).
  destruct (fill_apply_ok k view numRec validCount sw16 numStripes D rows 1 recFirst recLast rec) with m1 coeff
    as [Happ Hb]; try (unfold recLast in *; case_decide; lia).
  rewrite !Z.mul_1_l in Happ, Hb.
  destruct (fillCoeffs _ _ _ _ _ _ _ _ _ _) as [m2 coeff2]. cbn [fst snd] in *.
  apply wp_bind. eapply wp_mono; [exact Happ| |done]. intros m3 Hel. simpl. split.
  - eapply frontier_ext; [|eapply (eliminate_frontier m1 m3 _ recFirst recLast rec rows); [..|exact Hel|exact Hscale]].
    + intros r Hr. cbv beta. repeat case_decide; unfold recLast in *; lia.
    + lia.
    + lia.
    + unfold recLast in *. lia.
    + pose proof (targets_spec numRec rows 1 recFirst recLast rec) as Ht. rewrite Z.mul_1_l in Ht.
      apply Ht; unfold recLast in *; case_decide; lia.
    + intros r Hr. cbv beta. by rewrite decide_True by done.
    + intros r Hr Hn. cbv beta. rewrite (decide_False (P := rec ≤ r < rec + rows)), decide_True by
        (done || (unfold recLast in *; repeat case_decide; lia)). done.
  - intros a Ha. destruct (decide (coeff2 !! a = coeff !! a)) as [E|E].
    + apply Hbuf. by rewrite <- E.
    + specialize (Hb a E). unfold recLast in *.
      assert (cur + recStart - recFirst ≤ rowGroupSize) by (case_decide; lia).
      assert (rows ≤ rowGroupSize) by nia. nia.
Qed.

(** After the group: its rows, and the rows before [recGroup], are done. *)
Abbreviation groups_at recGroup :=
  (λ r, if decide (in_group r ∨ r < recGroup) then recStart + cur else recStart).

Lemma apply_groups_ok fuel n recGroup st :
  cur = n * rows → numRec - recGroup < Z.of_nat fuel → 0 ≤ recGroup ≤ numRec →
  recGroup ≤ recStart ∨ recStart + cur ≤ recGroup →
  frontier (fst st) (groups_at recGroup) → buffer_ok rowGroupSize (snd st) →
  wp (apply_groups k numRec validCount sw16 numStripes fuel rows rowGroupSize recStart cur recGroup st)
    (λ st', frontier (fst st') (λ _, recStart + cur) ∧ buffer_ok rowGroupSize (snd st')) Bad.
Proof.
  intros Hn. revert recGroup st. induction fuel as [|fuel IH]; intros recGroup st Hfuel H0 Hpos Hinv Hbuf; simpl.
  - lia.
  - destruct (Z.ltb_spec recGroup numRec) as [Hlt|Hge].
    2:{ split; [|done]. eapply frontier_ext; [|exact Hinv]. intros r Hr. cbv beta.
        rewrite decide_True by lia. done. }
    destruct (Z.eqb_spec recGroup recStart) as [->|Hne].
    { apply IH; [lia..| |done]. eapply frontier_ext; [|exact Hinv]. intros r Hr. cbv beta.
      repeat case_decide; (done || lia). }
    set (size1 := if numRec - recGroup <? rowGroupSize then numRec - recGroup else rowGroupSize).
    set (size2 := if (recGroup <? recStart) && (recStart <? recGroup + size1) then recStart - recGroup else size1).
    assert (0 < size2 ≤ rowGroupSize ∧ recGroup + size2 ≤ numRec ∧
            (recGroup + size2 ≤ recStart ∨ recStart + cur ≤ recGroup)) as (Hs1 & Hs2 & Hs3).
    { unfold size2, size1. destruct (Z.ltb_spec (numRec - recGroup) rowGroupSize);
        destruct (Z.ltb_spec recGroup recStart); simpl; try lia; case_match eqn:E; lia. }
    assert (1 ≤ n) by nia.
    destruct (fill_apply_ok k view numRec validCount sw16 numStripes D rows n recGroup (recGroup + size2) recStart)
      with (fst st) (snd st) as [Happ Hb]; try lia.
    rewrite <- Hn in Happ, Hb. rewrite <- surjective_pairing in Happ, Hb.
    destruct (fillCoeffs _ _ _ _ _ _ _ _ _ _) as [m2 coeff2]. cbn [fst snd] in *.
    apply wp_bind. eapply wp_mono; [exact Happ| |done]. intros m3 Hel. apply IH; [lia|lia|lia| |].
    + cbn [fst]. eapply frontier_ext; [|eapply (eliminate_frontier (fst st) m3 _ recGroup (recGroup + size2) recStart cur);
        [..|exact Hel|exact Hinv]].
      * intros r Hr. cbv beta. repeat case_decide; (done || lia).
      * lia.
      * lia.
      * lia.
      * rewrite Hn. apply (targets_spec numRec); lia.
      * intros r Hr. cbv beta. by rewrite decide_True by lia.
      * intros r Hr Hx. cbv beta. by rewrite decide_False by lia.
    + cbn [snd]. intros a Ha. destruct (decide (coeff2 !! a = snd st !! a)) as [E|E].
      * apply Hbuf. by rewrite <- E.
      * specialize (Hb a E). nia.
Qed.
End Group.

(** The size of the next group: a positive multiple of [rows]. *)
Lemma group_size_ok rows rowGroupSize rec : 1 ≤ rows ≤ rowGroupSize → rec + rows ≤ numRec →
  let aligned := rowGroupSize / rows * rows in
  let cur := if numRec - rec <? aligned then numRec - rec - (numRec - rec) mod rows else aligned in
  ∃ n, 1 ≤ n ∧ cur = n * rows ∧ cur ≤ rowGroupSize ∧ rec + cur ≤ numRec ∧ CEIL_DIV cur rows = n.
Proof.
  intros Hrows Hrec aligned cur.
  assert (∀ n, CEIL_DIV (n * rows) rows = n) as Hceil.
  { intros n. unfold CEIL_DIV. replace (n * rows + rows - 1) with (rows - 1 + n * rows) by lia.
    rewrite Z.div_add, Z.div_small by lia. lia. }
  unfold cur. destruct (Z.ltb_spec (numRec - rec) aligned) as [H|H].
  - exists ((numRec - rec) / rows).
    assert (numRec - rec - (numRec - rec) mod rows = (numRec - rec) / rows * rows) as E.
    { rewrite (Z.mod_eq (numRec - rec) rows) by lia. lia. }
    rewrite E, Hceil. split_and!; [|done| | |done].
    + apply Z.div_le_lower_bound; lia.
    + rewrite <- E. pose proof (Z.mod_pos_bound (numRec - rec) rows). unfold aligned in *.
      pose proof (Z.mul_div_le rowGroupSize rows). lia.
    + rewrite <- E. pose proof (Z.mod_pos_bound (numRec - rec) rows). lia.
  - exists (rowGroupSize / rows). unfold aligned. rewrite Hceil. split_and!; [|done| | |done].
    + apply Z.div_le_lower_bound; lia.
    + pose proof (Z.mul_div_le rowGroupSize rows). lia.
    + unfold aligned in H. lia.
Qed.

(** [processRows<rows>] reaches a row from which no block of [rows] is left, with
    every row substituted up to there. *)
Lemma processRows_ok fuel rows rowGroupSize rec st :
  1 ≤ rows ≤ 6 → rows ≤ rowGroupSize → 0 ≤ rec ≤ numRec → numRec - rec < Z.of_nat fuel →
  frontier (fst st) (λ _, rec) → buffer_ok rowGroupSize (snd st) →
  wp (processRows k tables numRec validCount sw16 numStripes fuel rows rowGroupSize rec st)
    (λ '(rec', st'), rec ≤ rec' ≤ numRec ∧ numRec - rows < rec'
       ∧ frontier (fst st') (λ _, rec') ∧ buffer_ok rowGroupSize (snd st')) Bad.
Proof.
  intros Hrows Hsize. revert rec st.
  induction fuel as [|fuel IH]; intros rec st Hrec Hfuel Hinv Hbuf; cbn [processRows]; [lia|].
  destruct (Z.leb_spec rec (numRec - rows)) as [Hle|Hgt]; [|simpl; split_and!; (done || lia)].
  destruct (group_size_ok rows rowGroupSize rec) as (n & Hn & Hcur & Hc1 & Hc2 & Hceil); [lia..|].
  set (cur := if numRec - rec <? rowGroupSize / rows * rows
    then numRec - rec - (numRec - rec) mod rows else rowGroupSize / rows * rows) in *.
  rewrite Hceil. apply wp_bind. eapply wp_mono;
    [apply (wp_for_range (λ i st, frontier (fst st) (λ r, if decide (rec ≤ r < rec + cur) then rec + i * rows else rec)
       ∧ buffer_ok rowGroupSize (snd st)) _ _ _ _ Bad)| |done].
  - lia.
  - split; [|done]. eapply frontier_ext; [|exact Hinv]. intros r Hr. cbv beta. case_decide; lia.
  - intros i st' Hi [H1 H2]. apply normalize_step_ok; (done || nia).
  - intros st1 [H1 H2]. apply wp_bind. eapply wp_mono; [apply (apply_groups_ok rows rowGroupSize rec cur) with n; try (done || lia || nia)| |done].
    + eapply frontier_ext; [|exact H1]. intros r Hr. cbv beta. repeat case_decide; (done || lia).
    + intros st2 [H3 H4]. rewrite <- Hcur. eapply wp_mono; [apply IH; (done || lia)| |done].
      intros [rec' st'] Hpost. intuition lia.
Qed.

(** ** The groups of [Compute] *)

Lemma invert_groups_ok rowGroupSize m : 
  (∀ rows, 1 ≤ rows ≤ 6 → rows ≤ k_idealInputMultiple k → rows ≤ numRec → rows ≤ rowGroupSize) →
  frontier m (λ _, 0) →
  wp (for_each [6; 5; 4; 3; 2; 1] (invert_group k tables numRec validCount sw16 numStripes rowGroupSize) (0, (m, ∅)))
    (λ '(_, (m', coeff)), frontier m' (λ _, numRec) ∧ buffer_ok rowGroupSize coeff) Bad.
Proof.
  intros Hsize Hinv. pose proof (dim_rec _ _ _ _ _ D) as Hpos.
  pose (P := λ (l : list Z) (st : Z * (M * array)), 0 ≤ fst st ≤ numRec ∧ frontier (fst (snd st)) (λ _, fst st)
      ∧ buffer_ok rowGroupSize (snd (snd st)) ∧ (1 ∈ l → fst st = numRec)).
  eapply wp_mono; [apply (wp_for_each P _ _ _ Bad)| |done].
  - unfold P. simpl. split_and!; [lia|lia|done| |by intros ?%elem_of_nil].
    apply buffer_ok_empty.
  - intros l1 rows l2 [rec st] Hl (H1 & H2 & H3 & H4). cbn [fst snd] in *.
    assert (rows ∈ [6; 5; 4; 3; 2; 1]) as Hin by (rewrite Hl; set_solver).
    assert (1 ≤ rows ≤ 6) as Hr by (repeat (apply elem_of_cons in Hin as [->|Hin]; [lia|]); by apply elem_of_nil in Hin).
    assert (1 ∈ l1 ++ [rows] → 1 ∈ l1 ∨ rows = 1) as Hone.
    { rewrite elem_of_app, list_elem_of_singleton. intros [|]; auto. }
    unfold invert_group.
    destruct (Z.leb_spec rows (k_idealInputMultiple k)) as [Hi1|Hi1]; cbn [andb].
    2:{ unfold P. simpl. split_and!; try done; try lia. intros [|]%Hone; [auto|]. pose proof (kl_multiple (k:=k) (view:=view)). lia. }
    destruct (Z.leb_spec rows numRec) as [Hi2|Hi2]; cbn [andb].
    2:{ unfold P. simpl. split_and!; try done; try lia. intros [|]%Hone; [auto|]. lia. }
    eapply wp_mono; [apply processRows_ok; try done; try lia| |done].
    + by apply Hsize.
    + intros [rec' st'] (H5 & H6 & H7 & H8). unfold P. simpl. split_and!; try done; try lia.
      intros [Hx|Hx]%Hone; [specialize (H4 Hx)|]; lia.
  - intros [rec [m' coeff]] (H1 & H2 & H3 & H4). simpl in *. split; [|done].
    eapply frontier_ext; [|exact H2]. intros r Hr. apply H4. set_solver.
Qed.
End Process.

(** ** Theorems *)

(** C13: [processRows<rows>] terminates without a fault: either it reports a row that
    depends on the rows before it, or it stops at a row [rec'] from which fewer than
    [rows] rows are left, with all the columns before [rec'] substituted in every row.
    It only ever writes the [rowGroupSize * rowGroupSize] entries of the coefficient
    buffer. *)
Theorem processRows_correct {M} (k : kernel M) (view : M → Z → Z) `{!KernelLaws k view} tables
    numRec validCount sw16 numStripes Sys rows rowGroupSize rec m coeff :
  gfmat_init = Some tables → dims_ok k numRec validCount sw16 numStripes →
  (∀ V X Y, Sys V X Y → ∀ i, u16 (V i) ∧ u16 (X i) ∧ u16 (Y i)) →
  1 ≤ rows ≤ 6 → rows ≤ rowGroupSize → 0 ≤ rec ≤ numRec →
  frontier view numRec validCount sw16 Sys m (λ _, rec) → buffer_ok rowGroupSize coeff →
  match processRows k tables numRec validCount sw16 numStripes (S (Z.to_nat numRec)) rows rowGroupSize rec (m, coeff) with
  | Ok (rec', (m', coeff')) => rec ≤ rec' ≤ numRec ∧ numRec - rows < rec' ∧
      frontier view numRec validCount sw16 Sys m' (λ _, rec') ∧ buffer_ok rowGroupSize coeff'
  | BadRow row => 0 ≤ row < numRec ∧ dependent numRec validCount Sys row
  | Fault => False
  end.
Proof.
  intros Ht%gfmat_init_tables D HSys Hrows Hsize Hrec Hinv Hbuf.
  pose proof (processRows_ok k view tables Ht numRec validCount sw16 numStripes D Sys HSys
    (S (Z.to_nat numRec)) rows rowGroupSize rec (m, coeff) Hrows Hsize Hrec ltac:(lia) Hinv Hbuf) as H.
  destruct (processRows _ _ _ _ _ _ _ _ _ _ _) as [[rec' [m' coeff']]|r|]; [exact H|exact H|exact H].
Qed.

(** Two recovery blocks, one available input and two missing ones: the rows 1 1 1 and 1 2 3 *)
Definition example_matrix : array :=
  foldl (λ m '(a, v), write_word m a v) ∅ [(0, 1); (1, 1); (2, 1); (4, 1); (5, 2); (6, 3)].
Definition example_system : (Z → Z) → (Z → Z) → (Z → Z) → Prop := matrix_system 2 1 (cell word 2 4 example_matrix).

Lemma processRows_correct_witness :
  (λ c, cell word 2 4 example_matrix 1 c) <$> [0; 1; 2] = [1; 2; 3] ∧
  ∃ tables, gfmat_init = Some tables ∧
    match processRows lookup_kernel tables 2 1 4 1 3 1 2 0 (example_matrix, ∅) with
    | Ok (rec', (m', coeff')) => 0 ≤ rec' ≤ 2 ∧ 2 - 1 < rec' ∧ frontier word 2 1 4 example_system m' (λ _, rec') ∧ buffer_ok 2 coeff'
    | BadRow row => 0 ≤ row < 2 ∧ dependent 2 1 example_system row
    | Fault => False
    end.
Proof.
  split; [reflexivity|]. destruct gfmat_init_ok as (tables & Ht & _). exists tables. split; [exact Ht|].
  assert (dims_ok lookup_kernel 2 1 4 1) as D by (split; vm_compute; congruence).
  exact (processRows_correct lookup_kernel word tables 2 1 4 1 example_system 1 2 0 example_matrix ∅ Ht D
    (matrix_system_range 2 1 _) ltac:(lia) ltac:(lia) ltac:(lia) (matrix_system_rows_ok 2 1 _) (buffer_ok_empty 2)).
Defined.
