(* ===== verification/RecConstruct.v ===== *)
(** * RecConstruct.v: the recovery matrix before inversion

    [Construct] stores, for every recovery block in use and every input block, the
    coefficient [constant(input) ^ exponent]; available inputs take the first
    columns and missing ones the last, both in order.  The shortcut for consecutive
    exponents (point-wise products of rows) builds the same matrix. *)

From S2P Require Import Prelude LinOp GF GfCoeff GfLookup GfMul InputCols RecMatrix RecOps.

Section Construct.
Context {M : Type} (k : kernel M) (view : M → Z → Z) `{L : !KernelLaws k view}.
Context (tables : gfmat_tables) (Htab : tables_ok tables).
Context (inputValid : list bool) (recovery : list Z).
Context (numRec validCount sw16 numStripes : Z).
Context (D : dims_ok k numRec validCount sw16 numStripes).

Abbreviation inputs := (Z.of_nat (length inputValid)).
Hypothesis Hinputs : inputs ≤ 32768.
Hypothesis Hvalid : validCount = Z.of_nat (length (inputs_with inputValid true inputs)).
Hypothesis Hmissing : validCount + numRec = inputs.
Hypothesis Hexps : Forall (λ e, 0 ≤ e ≤ 65535) recovery.
Hypothesis Hlen : numRec ≤ Z.of_nat (length recovery).

Abbreviation ins := (inside numRec sw16 numStripes).
Abbreviation column := (col_of inputValid).

Definition rcell (m : M) (r c : Z) : Z := k_read k m (addr numRec sw16 r c).

Definition rexp (r : Z) : Z := default 0 (recovery !! Z.to_nat r).

(** The coefficient of input [i] in recovery row [r]. *)
Definition coeff_at (r i : Z) : Z := pow16 (input_constant i) (Z.to_nat (rexp r)).

Lemma recovery_lookup r : 0 ≤ r < numRec → recovery !! Z.to_nat r = Some (rexp r) ∧ 0 ≤ rexp r ≤ 65535.
Proof.
  intros Hr. unfold rexp. destruct (lookup_lt_is_Some_2 recovery (Z.to_nat r)) as [e He]; [lia|].
  rewrite He. split; [done|]. rewrite Forall_forall in Hexps. apply Hexps.
  by apply list_elem_of_lookup_2 in He.
Qed.

Lemma inside_input r i : 0 ≤ r < numRec → 0 ≤ i < inputs → ins r (column i).
Proof.
  intros Hr Hi. split; [done|]. pose proof (col_of_bounds inputValid i Hi).
  pose proof (dim_fit _ _ _ _ _ D). lia.
Qed.

Lemma rcell_write m r c v r' c' : ins r c → ins r' c' → u16 v →
  rcell (k_write k m (addr numRec sw16 r c) v) r' c'
  = if decide (r' = r ∧ c' = c) then v else rcell m r' c'.
Proof.
  intros [Hr Hc] [Hr' Hc'] Hv. unfold rcell. rewrite (kl_write (view := view)) by done.
  destruct (decide (addr numRec sw16 r c = addr numRec sw16 r' c')) as [E|E].
  - apply (addr_inj k numRec validCount sw16 numStripes D) in E as [-> ->]; try lia. by rewrite decide_True.
  - rewrite decide_False; [done|]. intros [-> ->]. done.
Qed.

(** One input block: its column in the rows [recs]. *)
Lemma construct_input_ok recs i m E : 0 ≤ i < inputs → (∀ r, r ∈ recs → 0 ≤ r < numRec) →
  wp (construct_input k tables numRec sw16 inputValid recovery recs i
        (m, Z.of_nat (length (inputs_with inputValid true i)),
         validCount + Z.of_nat (length (inputs_with inputValid false i))))
    (λ '(m', vc, mc),
       vc = Z.of_nat (length (inputs_with inputValid true (i + 1))) ∧
       mc = validCount + Z.of_nat (length (inputs_with inputValid false (i + 1))) ∧
       ∀ r c, ins r c → rcell m' r c
         = if decide (r ∈ recs ∧ c = column i) then coeff_at r i else rcell m r c) E.
Proof.
  intros Hi Hrecs. unfold construct_input. rewrite (gfmat_input_log_ok tables i Htab) by lia.
  cbn [mbind res_bind of_option].
  destruct (lookup_lt_is_Some_2 inputValid (Z.to_nat i)) as [b Hb]; [lia|]. rewrite Hb.
  cbn [mbind res_bind of_option].
  assert (is_valid inputValid i = b) as Hvi by (unfold is_valid; by rewrite Hb).
  rewrite !inputs_with_succ by lia. rewrite Hvi.
  assert (∃ vc mc, (if b then
      (Z.of_nat (length (inputs_with inputValid true i)), Z.of_nat (length (inputs_with inputValid true i)) + 1,
       validCount + Z.of_nat (length (inputs_with inputValid false i)))
     else (validCount + Z.of_nat (length (inputs_with inputValid false i)), Z.of_nat (length (inputs_with inputValid true i)),
       validCount + Z.of_nat (length (inputs_with inputValid false i)) + 1)) = (column i, vc, mc)
     ∧ vc = Z.of_nat (length (inputs_with inputValid true i ++ (if decide (b = true) then [i] else [])))
     ∧ mc = validCount + Z.of_nat (length (inputs_with inputValid false i ++ (if decide (b = false) then [i] else []))))
    as (vc & mc & -> & -> & ->).
  { unfold col_of. rewrite Hvi. rewrite !length_app, Hvalid. destruct b; simpl; eexists _, _; split_and!; done || lia. }
  apply wp_bind. eapply wp_mono; [apply (wp_for_each (λ l m', ∀ r c, ins r c → rcell m' r c
         = if decide (r ∈ l ∧ c = column i) then coeff_at r i else rcell m r c) recs)| |done].
  - intros r c _. rewrite decide_False; [done|]. intros [?%elem_of_nil _]. done.
  - intros l1 rec l2 m1 Hl IH.
    assert (0 ≤ rec < numRec) as Hrec by (apply Hrecs; rewrite Hl; set_solver).
    destruct (recovery_lookup rec Hrec) as [-> He]. cbn [mbind res_bind of_option].
    pose proof (elog_bounds (Z.to_nat (i + 1)) ltac:(lia)).
    rewrite (gfmat_coeff_from_log_ok tables _ _ Htab) by lia. cbn [mbind res_bind of_option wp]. intros r c Hc.
    replace (rec * sw16 + (column i / sw16 * sw16 * numRec + column i mod sw16))
      with (addr numRec sw16 rec (column i)) by (unfold addr, MAT_ROW; lia).
    rewrite rcell_write by (done || apply (gf_pow_range 16 poly16) || by apply inside_input).
    destruct (decide (r = rec ∧ c = column i)) as [[-> ->]|Hne].
    + rewrite decide_True by (split; [set_solver|done]). done.
    + rewrite IH by done. destruct (decide (r ∈ l1 ∧ c = column i)) as [E1|E1],
        (decide (r ∈ l1 ++ [rec] ∧ c = column i)) as [E2|E2]; try done;
        rewrite elem_of_app, list_elem_of_singleton in E2; tauto.
  - intros m' Hm'. simpl. done.
Qed.

Lemma construct_via_exp_ok recs m E : (∀ r, r ∈ recs → 0 ≤ r < numRec) →
  wp (construct_via_exp k tables numRec validCount sw16 inputValid recovery recs m)
    (λ m', (∀ r i, r ∈ recs → 0 ≤ i < inputs → rcell m' r (column i) = coeff_at r i) ∧
           (∀ r c, r ∉ recs → ins r c → rcell m' r c = rcell m r c)) E.
Proof.
  intros Hrecs. unfold construct_via_exp. apply wp_bind.
  eapply wp_mono; [apply (wp_for_range (λ i '(m', vc, mc),
       vc = Z.of_nat (length (inputs_with inputValid true i)) ∧
       mc = validCount + Z.of_nat (length (inputs_with inputValid false i)) ∧
       (∀ r j, r ∈ recs → 0 ≤ j < i → rcell m' r (column j) = coeff_at r j) ∧
       (∀ r c, r ∉ recs → ins r c → rcell m' r c = rcell m r c)))| |done].
  - lia.
  - simpl. split_and!; [done|lia|lia|done].
  - intros i [[m1 vc] mc] Hi (-> & -> & H1 & H2). eapply wp_mono; [by apply construct_input_ok| |done].
    intros [[m2 vc'] mc'] (-> & -> & H3). split_and!; [done..| |].
    + intros r j Hr Hj. rewrite H3 by (apply inside_input; [by apply Hrecs|lia]).
      destruct (decide (j = i)) as [->|Hne]; [by rewrite decide_True|].
      rewrite decide_False; [apply H1; (done || lia)|]. intros [_ Hx].
      apply Hne, (col_of_inj inputValid); (done || lia).
    + intros r c Hr Hc. rewrite H3, decide_False by (done || tauto). by apply H2.
  - intros [[m' vc] mc] (_ & _ & H1 & H2). simpl. done.
Qed.

(** ** The row of exponent 0 *)

Lemma construct_ones_ok m r c : ins r c →
  rcell (construct_ones k numRec sw16 numStripes m) r c = if decide (r = 0) then 1 else rcell m r c.
Proof.
  intros Hc. pose proof (dim_width _ _ _ _ _ D) as Hw. pose proof (dim_stripes _ _ _ _ _ D).
  pose proof (dim_rec _ _ _ _ _ D). unfold construct_ones.
  assert (∀ s m r c, ins r c →
    rcell (for_loop 0 sw16 (λ i m, k_write k m (s * numRec * sw16 + i) 1) m) r c
    = if decide (r = 0 ∧ c / sw16 = s) then 1 else rcell m r c) as Hrow.
  { clear m r c Hc. intros s m r c [Hr Hc].
    pose (P := λ (i : Z) (m' : M), rcell m' r c
      = if decide (MAT_ROW numRec sw16 s 0 ≤ addr numRec sw16 r c < MAT_ROW numRec sw16 s 0 + i) then 1 else rcell m r c).
    assert (P sw16 (for_loop 0 sw16 (λ i m, k_write k m (s * numRec * sw16 + i) 1) m)) as HP.
    { apply (for_loop_ind P 0 sw16); [lia| |]; unfold P.
      - by rewrite decide_False by lia.
      - intros i m' Hi IH. unfold rcell at 1. rewrite (kl_write (view := view)) by done.
        fold (rcell m' r c). rewrite IH. unfold MAT_ROW in *. repeat case_decide; (done || lia). }
    unfold P in HP. rewrite HP.
    pose proof (row_region k numRec validCount sw16 numStripes D s 0 r c) as Hreg.
    do 2 case_decide; try done; exfalso; intuition lia. }
  pose (Q := λ (s : Z) (m' : M), ∀ r c, ins r c → rcell m' r c
    = if decide (r = 0 ∧ c / sw16 < s) then 1 else rcell m r c).
  assert (Q numStripes (construct_ones k numRec sw16 numStripes m)) as HQ.
  { apply (for_loop_ind Q 0 numStripes); [lia| |]; unfold Q.
    - intros r' c' [_ Hc']. rewrite decide_False; [done|]. pose proof (Z.div_pos c' sw16). lia.
    - intros s m' Hs IH r' c' Hc'. rewrite Hrow, IH by done. repeat case_decide; (done || lia). }
  unfold construct_ones in HQ. rewrite HQ by done. destruct Hc as [_ Hc].
  assert (c / sw16 < numStripes) by (apply Z.div_lt_upper_bound; lia).
  do 2 case_decide; (done || lia).
Qed.

(** ** Consecutive exponents *)

(** If the search was not cut short, every row is in the list or continues its
    predecessor. *)
Lemma find_skips_ok n first maxSkips skips : 0 < first → first + Z.of_nat n ≤ numRec →
  (∀ r, r ∈ skips → 0 ≤ r < first) →
  ∃ l, find_skips recovery (seqZ first (Z.of_nat n)) maxSkips (rexp (first - 1)) skips = Some l ∧
    (∀ r, r ∈ l → 0 ≤ r < numRec) ∧ (∀ r, r ∈ skips → r ∈ l) ∧
    (Z.of_nat (length l) < maxSkips →
     ∀ r, first ≤ r < first + Z.of_nat n → r ∈ l ∨ rexp r = rexp (r - 1) + 1).
Proof.
  revert first skips. induction n as [|n IH]; intros first skips H0 Hle Hsk.
  - exists skips. rewrite seqZ_nil by lia. split_and!; try done; [|lia].
    intros r Hr. specialize (Hsk r Hr). lia.
  - rewrite seqZ_cons by lia. simpl.
    destruct (recovery_lookup first ltac:(lia)) as [-> He]. simpl.
    replace (Z.succ first) with (first + 1) by lia.
    replace (Z.pred (Z.of_nat (S n))) with (Z.of_nat n) by lia.
    specialize (IH (first + 1)). replace (first + 1 - 1) with first in IH by lia.
    destruct (Z.eqb_spec (rexp first) (rexp (first - 1) + 1)) as [Hc|Hc].
    + destruct (IH skips) as (l & Hl & H1 & H2 & H3); [lia..| |].
      { intros r Hr. specialize (Hsk r Hr). lia. }
      exists l. split_and!; try done. intros Hlen' r Hr.
      destruct (decide (r = first)) as [->|]; [by right|]. apply H3; [done|lia].
    + destruct (Z.leb_spec maxSkips (Z.of_nat (length (skips ++ [first])))) as [Hm|Hm].
      * exists (skips ++ [first]). split_and!; [done| |set_solver|lia].
        intros r [Hr|Hr]%elem_of_app; [specialize (Hsk r Hr)|apply list_elem_of_singleton in Hr]; lia.
      * destruct (IH (skips ++ [first])) as (l & Hl & H1 & H2 & H3); [lia..| |].
        { intros r [Hr|Hr%list_elem_of_singleton]%elem_of_app; [specialize (Hsk r Hr)|]; lia. }
        exists l. split_and!; [done..|set_solver|]. intros Hlen' r Hr.
        destruct (decide (r = first)) as [->|]; [left; apply H2; set_solver|]. apply H3; [done|lia].
Qed.

(** The point-wise product of two rows of a stripe. *)
Lemma pmul_row_ok pmul m stripe d s1 s2 : k_pmul k = Some pmul → sw16 mod k_pmul_blocklen k = 0 →
  0 ≤ d < numRec → d ≠ s1 → d ≠ s2 →
  ∃ m', pmul m (MAT_ROW numRec sw16 stripe d) (MAT_ROW numRec sw16 stripe s1) (MAT_ROW numRec sw16 stripe s2) sw16 = Some m' ∧
    ∀ r c, ins r c → rcell m' r c
      = if decide (r = d ∧ c / sw16 = stripe) then mul16 (rcell m s1 c) (rcell m s2 c) else rcell m r c.
Proof.
  intros Hp Hb Hd H1 H2. pose proof (dim_width _ _ _ _ _ D).
  destruct (kl_pmul pmul Hp m (MAT_ROW numRec sw16 stripe d) (MAT_ROW numRec sw16 stripe s1)
    (MAT_ROW numRec sw16 stripe s2) sw16) as (m' & Hm' & Hr);
    [eapply (row_stride k view); exact D..|apply D|done|lia| | |].
  1-2: by apply (rows_disjoint k numRec validCount sw16 numStripes D).
  exists m'. split; [done|]. intros r c [Hr' Hc]. unfold rcell. rewrite Hr.
  pose proof (row_region k numRec validCount sw16 numStripes D stripe d r c) as Hreg.
  destruct (decide (r = d ∧ c / sw16 = stripe)) as [[-> E]|E].
  - rewrite decide_True by (apply Hreg; (done || lia)). by rewrite !row_offset.
  - rewrite decide_False by (rewrite Hreg by (done || lia); done). done.
Qed.

(** Row [r] of a stripe, or the whole row, holds its coefficients. *)
Definition row_good (m : M) (r : Z) : Prop := ∀ i, 0 ≤ i < inputs → rcell m r (column i) = coeff_at r i.
Definition row_good_in (m : M) (r stripe : Z) : Prop :=
  ∀ i, 0 ≤ i < inputs → column i / sw16 = stripe → rcell m r (column i) = coeff_at r i.

Lemma coeff_at_succ r r' i : rexp r' = 1 → 0 ≤ rexp (r - 1) → rexp r = rexp (r - 1) + 1 →
  mul16 (coeff_at r' i) (coeff_at (r - 1) i) = coeff_at r i.
Proof.
  intros H1 H0 H. unfold coeff_at. rewrite H1, H.
  replace (Z.to_nat (rexp (r - 1) + 1)) with (S (Z.to_nat (rexp (r - 1)))) by lia.
  change (Z.to_nat 1) with 1%nat.
  rewrite (gf_pow_1 16 poly16), (gf_pow_S 16 poly16); [done|apply input_constant_range].
Qed.

Lemma construct_products_ok pmul (skips : list Z) recStart stripe m E :
  k_pmul k = Some pmul → sw16 mod k_pmul_blocklen k = 0 →
  0 ≤ recStart < numRec → rexp recStart = 1 → recStart ∈ skips → (∀ r, r ∈ skips → 0 ≤ r < numRec) →
  (∀ r, recStart < r < numRec → r ∈ skips ∨ rexp r = rexp (r - 1) + 1) →
  (∀ r, r ∈ skips ∨ 0 ≤ r < recStart → row_good_in m r stripe) →
  wp (construct_products numRec sw16 recovery pmul recStart stripe m)
    (λ m', (∀ r, 0 ≤ r < numRec → row_good_in m' r stripe) ∧
           ∀ r c, ins r c → c / sw16 ≠ stripe → rcell m' r c = rcell m r c) E.
Proof.
  intros Hp Hb Hs He Hin Hsk Hrun Hgood. unfold construct_products. apply wp_bind.
  eapply wp_mono; [apply (wp_for_range (λ rec '(m', lastExp),
    lastExp = rexp (rec - 1) ∧ (∀ r, r ∈ skips ∨ 0 ≤ r < rec → row_good_in m' r stripe) ∧
    ∀ r c, ins r c → c / sw16 ≠ stripe → rcell m' r c = rcell m r c))| |done].
  - lia.
  - simpl. split_and!; [by replace (recStart + 1 - 1) with recStart by lia| |done].
    intros r [Hr|Hr]; [by apply Hgood; left|]. destruct (decide (r = recStart)) as [->|]; [by apply Hgood; left|].
    apply Hgood. right. lia.
  - intros rec [m1 lastExp] Hrec (-> & H1 & H2).
    destruct (recovery_lookup rec ltac:(lia)) as [-> _]. cbn [of_option mbind res_bind].
    destruct (recovery_lookup (rec - 1) ltac:(lia)) as [_ Hprev].
    destruct (Z.eqb_spec (rexp rec) (rexp (rec - 1) + 1)) as [Hc|Hc].
    + replace (stripe * numRec * sw16 + rec * sw16) with (MAT_ROW numRec sw16 stripe rec) by (unfold MAT_ROW; lia).
      replace (stripe * numRec * sw16 + recStart * sw16) with (MAT_ROW numRec sw16 stripe recStart) by (unfold MAT_ROW; lia).
      replace (stripe * numRec * sw16 + (rec - 1) * sw16) with (MAT_ROW numRec sw16 stripe (rec - 1)) by (unfold MAT_ROW; lia).
      destruct (pmul_row_ok pmul m1 stripe rec recStart (rec - 1)) as (m2 & -> & Hm2); [done..|lia|lia|lia|].
      cbn [of_option mbind res_bind wp]. split_and!; [by replace (rec + 1 - 1) with rec by lia| |].
      * intros r Hr i Hi Hst. destruct (decide (r = rec)) as [->|Hne].
        -- rewrite Hm2, decide_True by (done || by apply inside_input; [lia|]).
           rewrite (H1 recStart), (H1 (rec - 1)) by first [done | by left | right; lia].
           apply coeff_at_succ; (done || lia).
        -- assert (0 ≤ r < numRec) by (destruct Hr; [by apply Hsk|lia]).
           rewrite Hm2, decide_False by (tauto || by apply inside_input).
           apply H1; [destruct Hr; [by left|right; lia]|done..].
      * intros r c Hc' Hst. rewrite Hm2, decide_False by (done || tauto). by apply H2.
    + cbn [wp]. split_and!; [by replace (rec + 1 - 1) with rec by lia| |done].
      intros r [Hr|Hr]; [by apply H1; left|]. destruct (decide (r = rec)) as [->|]; [|apply H1; right; lia].
      apply H1. left. destruct (Hrun rec ltac:(lia)); [done|lia].
  - intros [m' lastExp] (_ & H1 & H2). simpl. split; [|done]. intros r Hr. apply H1. by right.
Qed.

(** The shortcut. *)
Lemma construct_fast_ok pmul (skips : list Z) recStart m E :
  k_pmul k = Some pmul → sw16 mod k_pmul_blocklen k = 0 →
  0 ≤ recStart < numRec → rexp recStart = 1 → recStart ∈ skips → (∀ r, r ∈ skips → 0 ≤ r < numRec) →
  (∀ r, recStart < r < numRec → r ∈ skips ∨ rexp r = rexp (r - 1) + 1) →
  (∀ r, r ∈ skips ∨ 0 ≤ r < recStart → row_good m r) →
  wp (for_range 0 numStripes (construct_products numRec sw16 recovery pmul recStart) m)
    (λ m', ∀ r, 0 ≤ r < numRec → row_good m' r) E.
Proof.
  intros Hp Hb Hs He Hin Hsk Hrun Hgood. pose proof (dim_width _ _ _ _ _ D).
  eapply wp_mono; [apply (wp_for_range (λ s m',
    (∀ r s', 0 ≤ r < numRec → 0 ≤ s' < s → row_good_in m' r s') ∧
    (∀ r, r ∈ skips ∨ 0 ≤ r < recStart → row_good m' r)))| |done].
  - apply D.
  - split; [intros; lia|done].
  - intros s m1 Hst [H1 H2]. eapply wp_mono; [apply (construct_products_ok pmul skips); try done| |done].
    + intros r Hr i Hi _. by apply H2.
    + intros m2 [H3 H4]. split.
      * intros r s' Hr Hs' i Hi Hcol. destruct (decide (s' = s)) as [->|]; [by apply H3|].
        rewrite H4 by (lia || by apply inside_input). apply (H1 r s'); (done || lia).
      * intros r Hr i Hi. assert (0 ≤ r < numRec) by (destruct Hr; [by apply Hsk|lia]).
        destruct (decide (column i / sw16 = s)) as [E'|E'].
        -- by apply H3.
        -- rewrite H4 by (done || by apply inside_input). by apply H2.
  - intros m' [H1 _] r Hr i Hi. destruct (inside_input r i Hr Hi) as [_ Hc].
    apply (H1 r (column i / sw16)); try done.
    split; [apply Z.div_pos; lia|apply Z.div_lt_upper_bound; lia].
Qed.

Lemma Construct_ok m E :
  wp (Construct k tables numRec validCount sw16 numStripes inputValid recovery m)
    (λ m', ∀ r, 0 ≤ r < numRec → row_good m' r) E.
Proof.
  pose proof (dim_rec _ _ _ _ _ D) as Hpos. unfold Construct.
  destruct (recovery_lookup 0 ltac:(lia)) as [H0 _]. change (Z.to_nat 0) with 0%nat in H0. rewrite H0.
  cbn [of_option mbind res_bind].
  assert (∃ m1 recStart, (if rexp 0 =? 0 then (construct_ones k numRec sw16 numStripes m, 1) else (m, 0)) = (m1, recStart)
    ∧ 0 ≤ recStart ≤ 1 ∧ ∀ r, 0 ≤ r < recStart → row_good m1 r) as (m1 & recStart & -> & Hst & Hg).
  { destruct (Z.eqb_spec (rexp 0) 0) as [He|He]; eexists _, _; (split; [done|]); (split; [lia|]); intros r Hr; [|lia].
    intros i Hi. assert (r = 0) as -> by lia. rewrite construct_ones_ok by (apply inside_input; lia).
    rewrite decide_True by done. unfold coeff_at. by rewrite He. }
  destruct (Z.leb_spec (Z.of_nat (length recovery)) recStart) as [Hl|Hl].
  { simpl. intros r Hr. apply Hg. lia. }
  assert (∀ recs m2, (∀ r, r ∈ recs → recStart ≤ r < numRec) →
    wp (construct_via_exp k tables numRec validCount sw16 inputValid recovery recs m2)
      (λ m', (∀ r, r ∈ recs → row_good m' r) ∧ ((∀ r, 0 ≤ r < recStart → row_good m2 r) → ∀ r, 0 ≤ r < recStart → row_good m' r)) E) as Hvia.
  { intros recs m2 Hrecs. eapply wp_mono; [apply construct_via_exp_ok| |done].
    - intros r Hr. specialize (Hrecs r Hr). lia.
    - intros m' [H1 H2]. split; [intros r Hr i Hi; by apply H1|]. intros Hm2 r Hr i Hi.
      destruct (decide (r < numRec)) as [Hlt|Hge]; [|lia].
      rewrite H2; [by apply Hm2| |apply inside_input; lia]. intros Hx. specialize (Hrecs r Hx). lia. }
  destruct (lookup_lt_is_Some_2 recovery (Z.to_nat recStart)) as [exp1 Hexp1]; [lia|].
  rewrite Hexp1. cbn [of_option mbind res_bind].
  set (slow := construct_via_exp _ _ _ _ _ _ _ (seqZ recStart (numRec - recStart)) m1).
  assert (wp slow (λ m', ∀ r, 0 ≤ r < numRec → row_good m' r) E) as Hslow.
  { eapply wp_mono; [apply Hvia| |done].
    - intros r Hr%elem_of_seqZ. lia.
    - intros m' [H1 H2] r Hr. destruct (decide (r < recStart)) as [Hlt|Hge]; [apply H2; (done || lia)|].
      apply H1, elem_of_seqZ. lia. }
  destruct (k_pmul k) as [pmul|] eqn:Hpm; [|done].
  destruct (Z.eqb_spec exp1 1) as [->|]; [|done].
  destruct (Z.eqb_spec (sw16 mod k_pmul_blocklen k) 0) as [Hblk|]; [|done]. cbn [andb].
  destruct (decide (recStart < numRec)) as [Hlt|Hge].
  2:{ rewrite seqZ_nil by lia. cbn [find_skips of_option mbind res_bind length].
      rewrite (proj2 (Z.ltb_ge _ _)); [done|]. assert (numRec = 1) as -> by lia. done. }
  assert (rexp recStart = 1) as He1 by (unfold rexp; by rewrite Hexp1).
  destruct (find_skips_ok (Z.to_nat (numRec - (recStart + 1))) (recStart + 1) (numRec / 2) [recStart])
    as (l & Hl' & H1 & H2 & H3); [lia|lia| |].
  { intros r ->%list_elem_of_singleton. lia. }
  rewrite Z2Nat.id in Hl', H3 by lia. replace (recStart + 1 - 1) with recStart in Hl' by lia.
  rewrite He1 in Hl'. rewrite Hl'. cbn [of_option mbind res_bind].
  destruct (Z.ltb_spec (Z.of_nat (length l)) (numRec / 2)) as [Hshort|]; [|done].
  apply wp_bind. eapply wp_mono; [apply construct_via_exp_ok; done| |done].
  intros m2 [Hm2 Hsame]. apply (construct_fast_ok pmul l); try done.
  - lia.
  - apply H2. by apply list_elem_of_singleton.
  - intros r Hr. apply H3; [done|lia].
  - intros r Hr i Hi. destruct (decide (r ∈ l)) as [Hin|Hnin]; [by apply Hm2|].
    destruct Hr as [Hr|Hr]; [done|]. rewrite Hsame by (done || apply inside_input; (done || lia)). by apply Hg.
Qed.
End Construct.

(** ** Theorems *)

(** C14: [Construct] never fails and leaves, for every recovery row and every input block,
    the coefficient [constant(input) ^ exponent] in the row of the recovery block and the
    column of the input (available inputs first, missing inputs last), whichever of its
    two strategies it takes (powers from logarithms, or point-wise products of rows for
    runs of consecutive exponents). *)
Theorem Construct_correct {M} (k : kernel M) (view : M → Z → Z) `{!KernelLaws k view} tables
    inputValid recovery numRec validCount sw16 numStripes m :
  gfmat_init = Some tables → dims_ok k numRec validCount sw16 numStripes →
  Z.of_nat (length inputValid) ≤ 32768 →
  validCount = Z.of_nat (length (inputs_with inputValid true (Z.of_nat (length inputValid)))) →
  validCount + numRec = Z.of_nat (length inputValid) →
  Forall (λ e, 0 ≤ e ≤ 65535) recovery → numRec ≤ Z.of_nat (length recovery) →
  ∃ m', Construct k tables numRec validCount sw16 numStripes inputValid recovery m = Ok m' ∧
    ∀ r i e, 0 ≤ r < numRec → 0 ≤ i < Z.of_nat (length inputValid) → recovery !! Z.to_nat r = Some e →
      GetFactor k numRec sw16 m' (col_of inputValid i) r = pow16 (input_constant i) (Z.to_nat e).
Proof.
  intros Ht%gfmat_init_tables D H1 H2 H3 H4 H5.
  pose proof (Construct_ok k view tables Ht inputValid recovery numRec validCount sw16 numStripes D
    H1 H2 H3 H4 H5 m (λ _, False)) as Hwp.
  destruct (Construct _ _ _ _ _ _ _ _ _) as [m'|r|]; [|done|done]. exists m'. split; [done|].
  intros r i e Hr Hi He. specialize (Hwp r Hr i Hi). unfold coeff_at, rexp in Hwp. rewrite He in Hwp.
  etrans; [|exact Hwp]. unfold GetFactor, rcell, addr, MAT_ROW. f_equal. lia.
Qed.

(** Both strategies: the portable kernel has no point-wise products; with the other one the
    rows of the exponents 2 to 4 are products, of which the last cell is checked. *)
Lemma Construct_correct_witness :
  ∃ tables, gfmat_init = Some tables ∧
    (∃ m', Construct lookup_kernel tables 2 1 4 1 [false; true; false] [1; 2] ∅ = Ok m' ∧
      GetFactor lookup_kernel 2 4 m' 0 0 = pow16 (input_constant 1) 1) ∧
    (find_skips [1; 2; 3; 4] (seqZ 1 3) (4 / 2) 1 [0] = Some [0] ∧
     ∃ m', Construct wide_kernel tables 4 1 8 1 [false; true; false; false; false] [1; 2; 3; 4] ∅ = Ok m' ∧
      GetFactor wide_kernel 4 8 m' 4 3 = pow16 (input_constant 4) 4).
Proof.
  destruct gfmat_init_ok as (tables & Ht & _). exists tables. split; [exact Ht|]. split; [|split; [reflexivity|]].
  - assert (dims_ok lookup_kernel 2 1 4 1) as D by (split; vm_compute; congruence).
    assert (Forall (λ e, 0 ≤ e ≤ 65535) [1; 2]) as He by (repeat constructor; lia).
    destruct (Construct_correct lookup_kernel word tables [false; true; false] [1; 2] 2 1 4 1 ∅ Ht D
      ltac:(vm_compute; congruence) ltac:(vm_compute; reflexivity) ltac:(vm_compute; reflexivity) He
      ltac:(vm_compute; congruence)) as (m' & Hm' & Hcell).
    exists m'. split; [exact Hm'|]. apply (Hcell 0 1 1); [lia|simpl; lia|reflexivity].
  - assert (dims_ok wide_kernel 4 1 8 1) as D by (split; vm_compute; congruence).
    assert (Forall (λ e, 0 ≤ e ≤ 65535) [1; 2; 3; 4]) as He by (repeat constructor; lia).
    destruct (Construct_correct wide_kernel word tables [false; true; false; false; false] [1; 2; 3; 4] 4 1 8 1 ∅ Ht D
      ltac:(vm_compute; congruence) ltac:(vm_compute; reflexivity) ltac:(vm_compute; reflexivity) He
      ltac:(vm_compute; congruence)) as (m' & Hm' & Hcell).
    exists m'. split; [exact Hm'|]. apply (Hcell 3 4 4); [lia|simpl; lia|reflexivity].
Defined.
