(* ===== verification/RecCompute.v ===== *)
(** * RecCompute.v: [Galois16RecMatrix::Compute] recovers the missing blocks

    The matrix [Compute] leaves behind expresses every missing block as a
    combination of the available blocks and of the recovery blocks kept in
    [recovery], for every content of the blocks. *)

From stdpp Require Import sorting.
From S2P Require Import Prelude LinOp GF GfCoeff GfLookup GfMul InputCols RecElim RecMatrix RecOps RecInvert RecApply RecProcess RecConstruct.

(** ** The specification *)

Section Spec.
Context (inputValid : list bool).
Abbreviation inputs := (Z.of_nat (length inputValid)).

(** The word of the recovery block with exponent [e] when the input blocks hold [B]. *)
Definition recovery_word (B : Z → Z) (e : Z) : Z :=
  xsum (λ i, mul16 (pow16 (input_constant i) (Z.to_nat e)) (B i)) (seqZ 0 inputs).

Definition column_input (c : Z) : Z := default 0 (column_inputs inputValid !! Z.to_nat c).

(** The factors [f column row] recover the missing blocks. *)
Definition recovers (validCount numRec : Z) (f : Z → Z → Z) (recovery : list Z) : Prop :=
  ∀ B, (∀ i, u16 (B i)) → ∀ r, 0 ≤ r < numRec →
    B (column_input (validCount + r))
    = xsum (λ c, mul16 (f c r) (B (column_input c))) (seqZ 0 validCount)
      ⊕ xsum (λ j, mul16 (f (validCount + j) r)
                     (recovery_word B (default 0 (recovery !! Z.to_nat j)))) (seqZ 0 numRec).
End Spec.

Section Attempt.
Context {M : Type} (k : kernel M) (view : M → Z → Z) `{L : !KernelLaws k view}.
Context (tables : gfmat_tables) (Htab : tables_ok tables).
Context (inputValid : list bool).
Context (numRec validCount sw16 numStripes rowGroupSize : Z).
Context (D : dims_ok k numRec validCount sw16 numStripes).

Abbreviation inputs := (Z.of_nat (length inputValid)).
Hypothesis Hinputs : inputs ≤ 32768.
Hypothesis Hvalid : validCount = Z.of_nat (length (inputs_with inputValid true inputs)).
Hypothesis Hmissing : validCount + numRec = inputs.
Hypothesis Hgroup : ∀ rows, 1 ≤ rows ≤ 6 → rows ≤ k_idealInputMultiple k → rows ≤ numRec → rows ≤ rowGroupSize.

Abbreviation col_in := (column_input inputValid).
Abbreviation coefs recovery := (coeff_at recovery).
Abbreviation matSize := (numRec * sw16 * numStripes).

(** The equations of the recovery blocks of [recovery]. *)
Definition recovery_system (recovery : list Z) (V X Y : Z → Z) : Prop :=
  (∀ i, u16 (V i) ∧ u16 (X i) ∧ u16 (Y i)) ∧
  ∀ r, 0 ≤ r < numRec → X r
    = xsum (λ c, mul16 (coefs recovery r (col_in c)) (if c <? validCount then V c else Y (c - validCount)))
        (columns numRec validCount).

Abbreviation Bad recovery :=
  (λ r, 0 ≤ r < numRec ∧ dependent numRec validCount (recovery_system recovery) r).

Lemma matSize_stride : matSize mod k_stride k = 0.
Proof.
  pose proof (stride_pos k view). replace matSize with (numRec * numStripes * sw16) by lia.
  rewrite Z.mul_mod, (dim_stride _ _ _ _ _ D), Z.mul_0_r, Z.mod_0_l by lia. done.
Qed.

Lemma prepared_cell m r c : inside numRec sw16 numStripes r c →
  cell view numRec sw16 (if k_needPrepare k then k_prepare k m matSize else m) r c
  = rcell k numRec sw16 m r c.
Proof.
  intros Hc. unfold cell, rcell. destruct (k_needPrepare k) eqn:E.
  - apply kl_prepare; [done|apply matSize_stride|]. by apply (addr_bounds k numRec validCount sw16 numStripes D).
  - by apply kl_plain.
Qed.

Lemma finished_cell m r c : inside numRec sw16 numStripes r c →
  rcell k numRec sw16 (if k_needPrepare k then k_finish k m matSize else m) r c
  = cell view numRec sw16 m r c.
Proof.
  intros Hc. unfold cell, rcell. destruct (k_needPrepare k) eqn:E.
  - apply (kl_finish (view := view)); [done|apply matSize_stride|].
    by apply (addr_bounds k numRec validCount sw16 numStripes D).
  - symmetry. by apply kl_plain.
Qed.

Lemma GetFactor_rcell m c r : GetFactor k numRec sw16 m c r = rcell k numRec sw16 m r c.
Proof. unfold GetFactor, rcell, addr, MAT_ROW. f_equal. lia. Qed.

(** The constructed matrix satisfies the equations before any substitution. *)
Lemma construct_frontier recovery m :
  (∀ r, 0 ≤ r < numRec → row_good k inputValid recovery numRec sw16 m r) →
  frontier view numRec validCount sw16 (recovery_system recovery)
    (if k_needPrepare k then k_prepare k m matSize else m) (λ _, 0).
Proof.
  intros Hg r Hr V X Y [_ HX]. rewrite (proj2 (Z.ltb_ge r 0)) by lia. rewrite HX by done.
  apply xsum_ext. intros c Hc. f_equal.
  - rewrite prepared_cell by (eapply (inside_column k numRec validCount); done).
    apply elem_of_seqZ in Hc. unfold column_input.
    destruct (lookup_lt_is_Some_2 (column_inputs inputValid) (Z.to_nat c)) as [i Hi].
    { pose proof (length_column_inputs inputValid). lia. }
    rewrite Hi. destruct (col_of_column_inputs inputValid c i) as [H1 <-]; [lia|done|].
    symmetry. by apply Hg.
  - unfold colval. apply elem_of_seqZ in Hc. destruct (Z.ltb_spec c validCount); [done|].
    by rewrite (proj2 (Z.ltb_ge (c - validCount) 0)) by lia.
Qed.

Lemma system_range recovery V X Y : recovery_system recovery V X Y → ∀ i, u16 (V i) ∧ u16 (X i) ∧ u16 (Y i).
Proof. by intros [H _]. Qed.

(** The list of inputs by column. *)
Lemma column_inputs_fmap : column_inputs inputValid = col_in <$> seqZ 0 inputs.
Proof.
  pose proof (length_column_inputs inputValid) as Hlen. apply list_eq. intros i.
  rewrite list_lookup_fmap. destruct (decide (Z.of_nat i < inputs)) as [Hi|Hi].
  - rewrite lookup_seqZ_lt by done. cbn [fmap option_fmap option_map].
    unfold column_input. rewrite Z.add_0_l, Nat2Z.id.
    destruct (lookup_lt_is_Some_2 (column_inputs inputValid) i) as [v ->]; [lia|done].
  - rewrite lookup_seqZ_ge by lia. simpl. apply lookup_ge_None_2. lia.
Qed.

(** Every content of the blocks gives a solution of the equations. *)
Lemma data_system recovery B : (∀ i, u16 (B i)) →
  recovery_system recovery (λ c, B (col_in c)) (λ r, recovery_word inputValid B (rexp recovery r))
    (λ j, B (col_in (validCount + j))).
Proof.
  intros HB. split.
  - intros i. split_and!; [apply HB| |apply HB]. apply xsum_in_range; [lia|]. intros. apply (gf_mul_range 16 poly16).
  - intros r Hr. unfold recovery_word, columns. rewrite Hmissing.
    rewrite <- (xsum_perm _ _ _ (column_inputs_perm inputValid)), column_inputs_fmap, xsum_map.
    apply xsum_ext. intros c _. unfold coeff_at. f_equal. case_match; [done|]. do 2 f_equal. lia.
Qed.

Lemma frontier_recovers recovery m :
  frontier view numRec validCount sw16 (recovery_system recovery) m (λ _, numRec) →
  recovers inputValid validCount numRec
    (GetFactor k numRec sw16 (if k_needPrepare k then k_finish k m matSize else m)) recovery.
Proof.
  intros Hf B HB r Hr. pose proof (dim_valid _ _ _ _ _ D). pose proof (dim_rec _ _ _ _ _ D).
  pose proof (Hf r Hr _ _ _ (data_system recovery B HB)) as E. cbv beta in E.
  rewrite (proj2 (Z.ltb_lt r numRec)) in E by lia. rewrite E.
  unfold columns. rewrite seqZ_app, xsum_app, Z.add_0_l by lia. f_equal.
  - apply xsum_ext. intros c Hc%elem_of_seqZ. rewrite GetFactor_rcell, finished_cell.
    + f_equal. unfold colval. by rewrite (proj2 (Z.ltb_lt c validCount)) by lia.
    + apply (inside_column k numRec validCount sw16 numStripes D); [done|]. apply elem_of_seqZ. lia.
  - replace (seqZ validCount numRec) with (Z.add validCount <$> seqZ 0 numRec)
      by (rewrite fmap_add_seqZ; f_equal; lia).
    rewrite xsum_map. apply xsum_ext. intros j Hj%elem_of_seqZ. rewrite GetFactor_rcell, finished_cell.
    + f_equal. rewrite colval_missing by (done || lia). by rewrite (proj2 (Z.ltb_lt j numRec)) by lia.
    + by apply (inside_missing k numRec validCount sw16 numStripes D).
Qed.

Lemma invert_attempt_ok recovery m :
  Forall (λ e, 0 ≤ e ≤ 65535) recovery → numRec ≤ Z.of_nat (length recovery) →
  wp (invert_attempt k tables numRec validCount sw16 numStripes rowGroupSize inputValid recovery m)
    (λ m', recovers inputValid validCount numRec (GetFactor k numRec sw16 m') recovery) (Bad recovery).
Proof.
  intros Hexps Hlen. unfold invert_attempt. apply wp_bind.
  eapply (wp_mono _ _ _ (λ _, False)); [eapply (Construct_ok k view tables Htab inputValid recovery numRec validCount sw16 numStripes D); done| |done].
  intros m1 Hm1. apply wp_bind.
  eapply wp_mono; [apply (invert_groups_ok k view tables Htab numRec validCount sw16 numStripes D
    (recovery_system recovery) (system_range recovery)); [done|by apply construct_frontier]| |done].
  intros [rec [m2 coeff]] [Hm2 _]. by apply frontier_recovers.
Qed.
End Attempt.

(** ** [Compute] *)

Section Compute.
Context {M : Type} (k : kernel M) (view : M → Z → Z) `{L : !KernelLaws k view}.
Context (tables : gfmat_tables) (Htab : tables_ok tables).
Context (inputValid : list bool) (validCount : Z).

Abbreviation inputs := (Z.of_nat (length inputValid)).
Abbreviation numRec := (inputs - validCount).

(** What the caller promises (the assertions at the top of [Compute]). *)
Hypothesis Hinputs : inputs ≤ 32768.
Hypothesis Hvalid : validCount = Z.of_nat (length (inputs_with inputValid true inputs)).
Hypothesis Hmissing : validCount < inputs.

(** The row [r] of [recovery] cannot be used: restricted to the missing blocks up to
    [r] it is a combination of the rows before it. *)
Abbreviation unusable recovery r :=
  (0 ≤ r < numRec ∧ dependent numRec validCount (recovery_system inputValid numRec validCount recovery) r).

(** Recovery blocks are dropped one by one, each because its row is unusable. *)
Inductive dropped : list Z → list Z → Prop :=
| dropped_none l : dropped l l
| dropped_row l r l' : unusable l r → dropped (delete (Z.to_nat r) l) l' → dropped l l'.

Lemma stripe_layout_ok stripeWidth numStripes : stripe_layout k inputs = (stripeWidth, numStripes) →
  dims_ok k numRec validCount (stripeWidth / 2) numStripes.
Proof.
  unfold stripe_layout. set (chunk := k_idealChunkSize k). set (n0 := ROUND_DIV (inputs * 2) chunk).
  set (n1 := if n0 <? 1 then 1 else n0). assert (1 ≤ n1) as Hn1.
  { unfold n1. destruct (Z.ltb_spec n0 1); lia. }
  intros [= <- <-]. set (len := CEIL_DIV (inputs * 2) n1).
  assert (1 ≤ len) as Hlen.
  { unfold len, CEIL_DIV. apply Z.div_le_lower_bound; lia. }
  destruct (alignToStride_ok k view len) as [H1 H2]; [lia|].
  pose proof (stride_pos k view) as Hstride.
  set (w := alignToStride k len) in *. apply Z.mod_divide in H1 as [q Hq]; [|lia].
  replace w with (q * k_stride k * 2) in * by lia. rewrite Z.div_mul by lia.
  assert (0 < q * k_stride k) by lia.
  set (u := q * k_stride k) in *.
  assert (0 ≤ CEIL_DIV (inputs * 2) (u * 2) ∧ inputs ≤ u * CEIL_DIV (inputs * 2) (u * 2)) as [Hc1 Hc2].
  { unfold CEIL_DIV. split; [apply Z.div_pos; lia|].
    pose proof (Z.div_mod (inputs * 2 + u * 2 - 1) (u * 2)). pose proof (Z.mod_pos_bound (inputs * 2 + u * 2 - 1) (u * 2)). lia. }
  split; try lia. unfold u. apply Z.mod_mul. lia.
Qed.

Lemma row_group_size_ok stripeWidth rows :
  1 ≤ rows ≤ 6 → rows ≤ k_idealInputMultiple k → rows ≤ numRec → rows ≤ row_group_size k stripeWidth numRec.
Proof.
  intros H1 H2 H3. unfold row_group_size, PP_INVERT_MAX_MULTI_ROWS.
  set (w := 512 * 1024 / stripeWidth). set (mult := Z.min (k_idealInputMultiple k) 6).
  assert (rows ≤ mult) by lia.
  destruct (Z.ltb_spec w (mult * 2)); case_match; lia.
Qed.

Section Retry.
Context (sw16 numStripes rowGroupSize : Z).
Context (D : dims_ok k numRec validCount sw16 numStripes).
Hypothesis Hgroup : ∀ rows, 1 ≤ rows ≤ 6 → rows ≤ k_idealInputMultiple k → rows ≤ numRec → rows ≤ rowGroupSize.

Abbreviation attempt := (invert_attempt k tables numRec validCount sw16 numStripes rowGroupSize inputValid).
Abbreviation retry fuel := (invert_retry k tables numRec validCount sw16 numStripes fuel rowGroupSize inputValid).

Lemma recovers_take f recovery :
  recovers inputValid validCount numRec f recovery →
  recovers inputValid validCount numRec f (take (Z.to_nat numRec) recovery).
Proof.
  intros H B HB r Hr. rewrite (H B HB r Hr). f_equal. apply xsum_ext. intros j Hj%elem_of_seqZ.
  by rewrite lookup_take_lt by lia.
Qed.

Lemma invert_retry_ok fuel recovery m :
  (length recovery ≤ fuel)%nat → Forall (λ e, 0 ≤ e ≤ 65535) recovery →
  ∃ res, retry fuel recovery m = Some res ∧
    match res with
    | Some (m', recovery') => ∃ l, dropped recovery l ∧ recovery' = take (Z.to_nat numRec) l
        ∧ numRec ≤ Z.of_nat (length l)
        ∧ recovers inputValid validCount numRec (GetFactor k numRec sw16 m') recovery'
    | None => ∃ l, dropped recovery l ∧ Z.of_nat (length l) < numRec
    end.
Proof.
  revert recovery m. induction fuel as [|fuel IH]; intros recovery m Hlen Hexps; cbn [invert_retry].
  { rewrite (proj2 (Z.ltb_lt _ _)) by lia. exists None. split; [done|]. exists recovery. split; [constructor|lia]. }
  destruct (Z.ltb_spec (Z.of_nat (length recovery)) numRec) as [Hs|Hs].
  { exists None. split; [done|]. exists recovery. split; [constructor|lia]. }
  pose proof (invert_attempt_ok k view tables Htab inputValid numRec validCount sw16 numStripes rowGroupSize D
    Hinputs Hvalid ltac:(lia) Hgroup recovery m Hexps Hs) as Hwp.
  destruct (attempt recovery m) as [m'|r|]; simpl in Hwp; [| |done].
  - eexists. split; [done|]. exists recovery. split_and!; [constructor|done|done|]. by apply recovers_take.
  - destruct (IH (delete (Z.to_nat r) recovery) m) as (res & -> & Hres).
    + rewrite length_delete; [lia|]. apply lookup_lt_is_Some. lia.
    + by apply Forall_delete.
    + exists res. split; [done|]. destruct res as [[m' recovery']|];
        destruct Hres as (l & Hd & Hl); exists l; (split; [by eapply dropped_row|done]).
Qed.
End Retry.

Lemma Compute_run mat0 recovery : Forall (λ e, 0 ≤ e ≤ 65535) recovery →
  ∃ res, Compute k tables mat0 inputValid validCount recovery = Some res ∧
    match res with
    | Some (m', recovery') => ∃ l, dropped (merge_sort Z.le recovery) l ∧ recovery' = take (Z.to_nat numRec) l
        ∧ numRec ≤ Z.of_nat (length l)
        ∧ recovers inputValid validCount numRec
            (GetFactor k numRec (fst (stripe_layout k inputs) / 2) m') recovery'
    | None => ∃ l, dropped (merge_sort Z.le recovery) l ∧ Z.of_nat (length l) < numRec
    end.
Proof.
  intros Hexps. unfold Compute.
  pose proof (merge_sort_Permutation Z.le recovery) as Hperm.
  destruct (Z.ltb_spec (Z.of_nat (length recovery)) numRec) as [Hs|Hs].
  { exists None. split; [done|]. exists (merge_sort Z.le recovery). split; [constructor|].
    by rewrite (Permutation_length Hperm). }
  destruct (stripe_layout k inputs) as [w n] eqn:E. cbn [fst].
  apply invert_retry_ok; [by apply stripe_layout_ok| |done|].
  - intros. by apply row_group_size_ok.
  - by rewrite Hperm.
Qed.
End Compute.

(** ** Theorems *)

(** C11: [Compute] always terminates without a fault, for any kernel that keeps its
    interface.  When it returns true, the factors [GetFactor] reads from the matrix
    recover every missing input block from the available input blocks and the recovery
    blocks left in [recovery], whatever the blocks contain.  Recovery blocks are dropped
    only for a row that depends on the rows before it, and it returns false only when
    fewer blocks are left than there are missing inputs. *)
Theorem Compute_correct {M} (k : kernel M) (view : M → Z → Z) `{!KernelLaws k view} tables mat0
    inputValid validCount recovery :
  let inputs := Z.of_nat (length inputValid) in
  let numRec := inputs - validCount in
  gfmat_init = Some tables → inputs ≤ 32768 →
  validCount = Z.of_nat (length (inputs_with inputValid true inputs)) → validCount < inputs →
  Forall (λ e, 0 ≤ e ≤ 65535) recovery →
  ∃ res l, Compute k tables mat0 inputValid validCount recovery = Some res ∧
    dropped inputValid validCount (merge_sort Z.le recovery) l ∧
    match res with
    | Some (m', recovery') => recovery' = take (Z.to_nat numRec) l ∧ numRec ≤ Z.of_nat (length l) ∧
        recovers inputValid validCount numRec
          (GetFactor k numRec (fst (stripe_layout k inputs) / 2) m') recovery'
    | None => Z.of_nat (length l) < numRec
    end.
Proof.
  intros inputs numRec Ht%gfmat_init_tables H1 H2 H3 H4.
  destruct (Compute_run k view tables Ht inputValid validCount H1 H2 H3 mat0 recovery H4) as (res & Hrun & Hres).
  destruct res as [[m' recovery']|]; destruct Hres as (l & Hd & Hl);
    eexists _, l; (split; [exact Hrun|]); done.
Qed.

Lemma Compute_correct_witness :
  ∃ tables res, gfmat_init = Some tables ∧
    Compute lookup_kernel tables ∅ [true; false; false] 1 [3; 0; 1] = Some res.
Proof.
  destruct gfmat_init_ok as (tables & Ht & _). exists tables.
  assert (Forall (λ e, 0 ≤ e ≤ 65535) [3; 0; 1]) as He by (repeat constructor; lia).
  destruct (Compute_correct lookup_kernel word tables ∅ [true; false; false] 1 [3; 0; 1] Ht
    ltac:(vm_compute; congruence) ltac:(vm_compute; reflexivity) ltac:(vm_compute; reflexivity) He)
    as (res & l & Hrun & _).
  exists res. split; [exact Ht|exact Hrun].
Defined.
