(* ===== verification/RecComplete.v ===== *)
(** * RecComplete.v: when [Compute] succeeds

    A row is dropped only if its coefficients depend on those of the rows before
    it.  Coefficients of consecutive exponents never do, so with consecutive
    recovery blocks (the usual case) the first attempt succeeds: their coefficients form
    Vandermonde matrices, and polynomials over the field have few roots. *)

From stdpp Require Import sorting.
From S2P Require Import Prelude LinOp GF InputCols GfCoeff GfLookup GfMul RecElim RecMatrix RecOps RecInvert RecApply RecProcess RecConstruct RecCompute.

(** ** Polynomials over the field *)

Section Poly.
Context (bits : nat) (generator : Z) `{F : !PrimitiveField bits generator}.

Abbreviation mul := (gf_mul bits generator).
Abbreviation pow := (gf_pow bits generator).
Abbreviation rng a := (in_range (Z.of_nat bits) a).

(** Coefficients from the constant one up. *)
Fixpoint eval (p : list Z) (x : Z) : Z :=
  match p with [] => 0 | c :: p => c ⊕ mul x (eval p x) end.

(** Synthetic division by [x - a]. *)
Fixpoint quotient (a : Z) (p : list Z) : list Z :=
  match p with
  | [] => []
  | c :: p' => match p' with [] => [] | _ => eval p' a :: quotient a p' end
  end.

Lemma eval_range p x : Forall (λ c, rng c) p → rng (eval p x).
Proof.
  induction 1; simpl; [apply in_range_0; lia|]. apply in_range_lxor; [lia|done|apply gf_mul_range; apply _].
Qed.

Lemma quotient_range a p : Forall (λ c, rng c) p → Forall (λ c, rng c) (quotient a p).
Proof.
  induction 1 as [|c p Hc Hp IH]; simpl; [constructor|]. destruct p; [constructor|].
  constructor; [by apply eval_range|done].
Qed.

Lemma eval_quotient a p x : eval p x = eval p a ⊕ mul (x ⊕ a) (eval (quotient a p) x).
Proof.
  induction p as [|c p IH]; cbn [eval quotient].
  - rewrite gf_mul_0_r by apply _. done.
  - destruct p as [|c' p'].
    + cbn [eval]. rewrite !gf_mul_0_r by apply _. by rewrite !Z.lxor_0_r.
    + remember (c' :: p') as p eqn:Ep. cbn [eval]. rewrite IH at 1.
      set (q := eval (quotient a p) x). set (pa := eval p a).
      repeat first [rewrite gf_mul_xor_l by apply _ | rewrite gf_mul_xor_r by apply _].
      rewrite !gf_mul_assoc by apply _.
      rewrite (gf_mul_comm _ _ a x). xor_solve.
Qed.

Lemma length_quotient a p : length (quotient a p) = pred (length p).
Proof. induction p as [|c p IH]; simpl; [done|]. destruct p; [done|]. simpl in *. lia. Qed.

Lemma last_quotient a p : (2 ≤ length p)%nat → last (quotient a p) = last p.
Proof.
  induction p as [|c p IH]; simpl; intros H; [lia|]. destruct p as [|c' p]; simpl in *; [lia|].
  destruct p as [|c'' p].
  - simpl. rewrite gf_mul_0_r by apply _. by rewrite Z.lxor_0_r.
  - rewrite <- IH by (simpl; lia). done.
Qed.

(** A polynomial with as many roots as coefficients has leading coefficient 0. *)
Lemma roots_bound p xs c : Forall (λ c, rng c) p → NoDup xs → Forall (λ x, rng x) xs →
  (∀ x, x ∈ xs → eval p x = 0) → (length p ≤ length xs)%nat → last p = Some c → c = 0.
Proof.
  revert p. induction xs as [|a xs IH]; intros p Hp Hnd Hxs Hroots Hlen Hlast.
  { destruct p; [done|simpl in Hlen; lia]. }
  apply NoDup_cons in Hnd as [Ha Hnd]. apply Forall_cons in Hxs as [Hra Hxs].
  destruct (decide (2 ≤ length p)%nat) as [H2|H2].
  - apply (IH (quotient a p)); try done.
    + by apply quotient_range.
    + intros x Hx. rewrite Forall_forall in Hxs. assert (x ≠ a) by set_solver.
      assert (mul (x ⊕ a) (eval (quotient a p) x) = 0) as Hz.
      { pose proof (eval_quotient a p x) as E.
        rewrite (Hroots x), (Hroots a) in E by set_solver. by rewrite Z.lxor_0_l in E. }
      apply gf_mul_eq_0 in Hz as [Hz|Hz]; [|done| | |].
      * apply Z.lxor_eq in Hz. done.
      * apply _.
      * apply in_range_lxor; [lia|by apply Hxs|done].
      * by apply eval_range, quotient_range.
    + rewrite length_quotient. simpl in Hlen. lia.
    + by rewrite last_quotient.
  - destruct p as [|c' [|]]; simpl in *; [done| |lia]. simplify_eq.
    specialize (Hroots a ltac:(left)). by rewrite gf_mul_0_r, Z.lxor_0_r in Hroots.
Qed.

(** Evaluation as a sum of powers. *)
Lemma eval_powers (f : nat → Z) n x : (∀ i, rng (f i)) →
  eval (f <$> seq 0 n) x = xsum (λ i, mul (f i) (pow x i)) (seq 0 n).
Proof.
  intros Hf. assert (∀ n s, mul (pow x s) (eval (f <$> seq s n) x) = xsum (λ i, mul (f i) (pow x i)) (seq s n)) as H.
  { clear n. induction n as [|n IH]; intros s; [by rewrite gf_mul_0_r|].
    simpl. rewrite <- IH, gf_pow_S, gf_mul_xor_r by apply _. f_equal; [by rewrite gf_mul_comm|].
    by rewrite gf_mul_assoc, (gf_mul_comm _ _ _ x). }
  rewrite <- H, gf_pow_0, gf_mul_1_l; [done|apply _|]. apply eval_range, Forall_fmap, Forall_true. done.
Qed.
End Poly.

Section Complete.
Context (inputValid : list bool) (validCount : Z).
Abbreviation inputs := (Z.of_nat (length inputValid)).
Abbreviation numRec := (inputs - validCount).
Hypothesis Hinputs : inputs ≤ 32768.
Hypothesis Hvalid : validCount = Z.of_nat (length (inputs_with inputValid true inputs)).
Hypothesis Hmissing : validCount < inputs.

(** The missing block number [j]. *)
Abbreviation missing j := (column_input inputValid (validCount + j)).

Lemma missing_bounds j : 0 ≤ j < numRec → 0 ≤ missing j < inputs.
Proof.
  intros Hj. unfold column_input.
  destruct (lookup_lt_is_Some_2 (column_inputs inputValid) (Z.to_nat (validCount + j))) as [i Hi].
  { pose proof (length_column_inputs inputValid). lia. }
  rewrite Hi. simpl. apply (col_of_column_inputs inputValid (validCount + j)); [lia|done].
Qed.

Lemma missing_inj i j : 0 ≤ i < numRec → 0 ≤ j < numRec → missing i = missing j → i = j.
Proof.
  intros Hi Hj. unfold column_input. pose proof (length_column_inputs inputValid) as Hlen.
  destruct (lookup_lt_is_Some_2 (column_inputs inputValid) (Z.to_nat (validCount + i))) as [x Hx]; [lia|].
  destruct (lookup_lt_is_Some_2 (column_inputs inputValid) (Z.to_nat (validCount + j))) as [y Hy]; [lia|].
  rewrite Hx, Hy. simpl. intros ->.
  assert (NoDup (column_inputs inputValid)) as Hnd by (rewrite column_inputs_perm; apply NoDup_seqZ).
  pose proof (NoDup_lookup _ _ _ _ Hnd Hx Hy). lia.
Qed.

(** What a dependent row means for the coefficients. *)
Lemma dependent_combination recovery r : 0 ≤ r < numRec →
  dependent numRec validCount (recovery_system inputValid numRec validCount recovery) r →
  ∃ a, (∀ i, u16 (a i)) ∧ ∀ j, 0 ≤ j ≤ r →
    coeff_at recovery r (missing j) = xsum (λ i, mul16 (a i) (coeff_at recovery i (missing j))) (seqZ 0 r).
Proof.
  intros Hr (a & S & Ha & Hrow & Hz & HS). exists (λ i, a (validCount + i)). split; [intros; apply Ha|].
  intros j Hj.
  set (X := λ i, coeff_at recovery i (missing j)).
  set (Y := λ i, if decide (i = j) then 1 else 0).
  assert (recovery_system inputValid numRec validCount recovery (λ _, 0) X Y) as Hsys.
  { split.
    - intros i. split_and!; [done|apply (gf_pow_range 16 poly16)|unfold Y; by case_decide].
    - intros i Hi. rewrite (columns_pivot numRec validCount ltac:(lia) _ j) by lia.
      rewrite (proj2 (Z.ltb_ge (validCount + j) validCount)) by lia.
      unfold Y at 1. rewrite decide_True by lia. rewrite (gf_mul_1_r 16 poly16) by apply (gf_pow_range 16 poly16).
      rewrite xsum_zeros; [by rewrite Z.lxor_0_r|]. intros c Hc%elem_of_seqZ. case_decide; [done|].
      destruct (Z.ltb_spec c validCount); [by rewrite (gf_mul_0_r 16 poly16)|].
      unfold Y. rewrite decide_False by lia. by rewrite (gf_mul_0_r 16 poly16). }
  specialize (Hrow _ _ _ Hsys). rewrite HS, Z.ltb_irrefl in Hrow by done. fold (X r). rewrite Hrow.
  rewrite (columns_split numRec validCount ltac:(lia) _ (seqZ 0 r)).
  - rewrite xsum_zeros with (l := columns _ _), Z.lxor_0_r.
    + apply xsum_ext. intros i Hi%elem_of_seqZ. f_equal. rewrite colval_missing by lia.
      by rewrite HS, (proj2 (Z.ltb_lt i r)) by lia.
    + intros c Hc%elem_of_seqZ. case_decide as Hn; [done|]. rewrite elem_of_seqZ in Hn.
      unfold colval. destruct (Z.ltb_spec c validCount); [by rewrite (gf_mul_0_r 16 poly16)|].
      rewrite HS, (proj2 (Z.ltb_ge (c - validCount) r)) by lia. unfold Y.
      destruct (decide (c = validCount + r)) as [->|]; [by rewrite Hz, (gf_mul_0_l 16 poly16)|].
      rewrite decide_False by lia. by rewrite (gf_mul_0_r 16 poly16).
  - apply NoDup_seqZ.
  - intros s Hs%elem_of_seqZ. lia.
Qed.

(** Coefficients of consecutive exponents are independent. *)
Lemma consecutive_independent recovery e0 r : 0 ≤ r < numRec → 0 ≤ e0 →
  (∀ i, 0 ≤ i < numRec → rexp recovery i = e0 + i) →
  ¬ dependent numRec validCount (recovery_system inputValid numRec validCount recovery) r.
Proof.
  intros Hr He0 Hexp Hdep. destruct (dependent_combination recovery r Hr Hdep) as (a & Ha & Hcomb).
  set (p := (λ i, if decide (Z.of_nat i = r) then 1 else a (Z.of_nat i)) <$> seq 0 (S (Z.to_nat r))).
  set (xs := (λ j, input_constant (missing j)) <$> seqZ 0 (r + 1)).
  assert (1 = 0); [|done]. apply (roots_bound 16 poly16 p xs).
  - apply Forall_fmap, Forall_true. intros i. simpl. by case_decide.
  - apply NoDup_fmap_2_strong; [|apply NoDup_seqZ]. intros i j Hi%elem_of_seqZ Hj%elem_of_seqZ E.
    apply input_constant_inj in E; [|pose proof (missing_bounds i); lia|pose proof (missing_bounds j); lia].
    apply missing_inj in E; lia.
  - apply Forall_fmap, Forall_true. intros. apply input_constant_range.
  - intros x (j & -> & Hj%elem_of_seqZ)%list_elem_of_fmap. set (x := input_constant (missing j)).
    unfold p. rewrite (eval_powers 16 poly16).
    2:{ intros i. simpl. by case_decide. }
    apply (gf_mul_cancel_l 16 poly16 (pow16 x (Z.to_nat e0))).
    + apply (gf_pow_range 16 poly16).
    + unfold x, input_constant. rewrite (gf_pow_alpha 16 poly16). apply (alpha_nz 16 poly16).
    + apply xsum_in_range; [lia|]. intros. apply (gf_mul_range 16 poly16).
    + done.
    + rewrite (gf_mul_0_r 16 poly16), (gf_mul_xsum_r 16 poly16), seq_S, xsum_app.
      rewrite xsum_cons. simpl (xsum _ []). rewrite Z.lxor_0_r, Nat.add_0_l, decide_True by lia.
      assert (∀ i, 0 ≤ i < numRec → mul16 (pow16 x (Z.to_nat e0)) (pow16 x (Z.to_nat i)) = coeff_at recovery i (missing j)) as Hpow.
      { intros i Hi. unfold coeff_at. rewrite (Hexp i Hi), Z2Nat.inj_add by lia.
        symmetry. apply (gpow_add 16 (multby_two 16 poly16) 1 bit_of). }
      rewrite (gf_mul_1_l 16 poly16), Hpow by (lia || apply (gf_pow_range 16 poly16)).
      rewrite Hcomb by lia. unfold seqZ. rewrite xsum_map, <- xsum_lxor. apply xsum_zeros.
      intros i Hi%elem_of_seq. rewrite decide_False by lia. rewrite Z.add_0_r, <- Hpow, Nat2Z.id by lia.
      rewrite !(gf_mul_assoc 16 poly16), (gf_mul_comm 16 poly16 (a (Z.of_nat i))). apply Z.lxor_nilpotent.
  - unfold p, xs. rewrite !length_fmap, length_seq, length_seqZ. lia.
  - unfold p. rewrite seq_S, fmap_app. simpl. rewrite last_snoc, decide_True by lia. done.
Qed.
End Complete.

Section Success.
Context {M : Type} (k : kernel M) (view : M → Z → Z) `{L : !KernelLaws k view}.
Context (tables : gfmat_tables) (Htab : tables_ok tables).
Context (inputValid : list bool) (validCount : Z).
Abbreviation inputs := (Z.of_nat (length inputValid)).
Abbreviation numRec := (inputs - validCount).
Hypothesis Hinputs : inputs ≤ 32768.
Hypothesis Hvalid : validCount = Z.of_nat (length (inputs_with inputValid true inputs)).
Hypothesis Hmissing : validCount < inputs.

(** Sorting a permutation of a run of exponents gives the run. *)
Lemma sort_run recovery e0 n : recovery ≡ₚ seqZ e0 n → merge_sort Z.le recovery = seqZ e0 n.
Proof.
  intros Hp. apply (Sorted_unique Z.le).
  - apply (Sorted_merge_sort Z.le).
  - apply StronglySorted_Sorted. clear Hp. unfold seqZ. generalize 0%nat.
    induction (Z.to_nat n) as [|m IH]; intros s; simpl; constructor; [apply IH|].
    apply Forall_fmap, Forall_seq. intros j Hj. simpl. lia.
  - by rewrite merge_sort_Permutation.
Qed.

Lemma run_rexp e0 n i : 0 ≤ i < n → rexp (seqZ e0 n) i = e0 + i.
Proof. intros Hi. unfold rexp. rewrite lookup_seqZ_lt by lia. simpl. lia. Qed.

(** No recovery block of a run is ever dropped. *)
Lemma run_dropped e0 n l : 0 ≤ e0 → numRec ≤ n → dropped inputValid validCount (seqZ e0 n) l → l = seqZ e0 n.
Proof.
  intros He Hn Hd. inversion Hd as [|? r ? [Hr Hdep]]; [congruence|]. exfalso.
  apply (consecutive_independent inputValid validCount Hinputs Hvalid Hmissing (seqZ e0 n) e0 r Hr He); [|done].
  intros i Hi. apply run_rexp. lia.
Qed.

Lemma Compute_run_succeeds mat0 recovery e0 n :
  0 ≤ e0 → e0 + n ≤ 65536 → numRec ≤ n → recovery ≡ₚ seqZ e0 n →
  ∃ m', Compute k tables mat0 inputValid validCount recovery = Some (Some (m', seqZ e0 numRec)) ∧
    recovers inputValid validCount numRec
      (GetFactor k numRec (fst (stripe_layout k inputs) / 2) m') (seqZ e0 numRec).
Proof.
  intros He Hmax Hn Hp. pose proof (sort_run _ _ _ Hp) as Hsort.
  destruct (Compute_run k view tables Htab inputValid validCount Hinputs Hvalid Hmissing mat0 recovery)
    as (res & Hrun & Hres).
  { rewrite Hp. apply Forall_seqZ. lia. }
  rewrite Hsort in Hres. destruct res as [[m' recovery']|]; destruct Hres as (l & Hd & Hl);
    pose proof (run_dropped e0 n l He Hn Hd) as ->.
  - destruct Hl as (-> & _ & Hrec). assert (take (Z.to_nat numRec) (seqZ e0 n) = seqZ e0 numRec) as E.
    { replace n with (numRec + (n - numRec)) by lia. rewrite seqZ_app by lia.
      rewrite take_app_length'; [done|]. by rewrite length_seqZ. }
    rewrite E in *. by exists m'.
  - exfalso. rewrite length_seqZ in Hl. lia.
Qed.
End Success.

(** ** Theorems *)

(** C12: If the exponents of the available recovery blocks form a run of consecutive
    numbers, in any order, at least as long as the number of missing input blocks, then
    [Compute] succeeds, keeps the first of them, and its factors recover every missing
    block. *)
Theorem Compute_consecutive_succeeds {M} (k : kernel M) (view : M → Z → Z) `{!KernelLaws k view} tables mat0
    inputValid validCount recovery e0 n :
  let inputs := Z.of_nat (length inputValid) in
  let numRec := inputs - validCount in
  gfmat_init = Some tables → inputs ≤ 32768 →
  validCount = Z.of_nat (length (inputs_with inputValid true inputs)) → validCount < inputs →
  0 ≤ e0 → e0 + n ≤ 65536 → numRec ≤ n → recovery ≡ₚ seqZ e0 n →
  ∃ m', Compute k tables mat0 inputValid validCount recovery = Some (Some (m', seqZ e0 numRec)) ∧
    recovers inputValid validCount numRec
      (GetFactor k numRec (fst (stripe_layout k inputs) / 2) m') (seqZ e0 numRec).
Proof.
  intros inputs numRec Ht%gfmat_init_tables H1 H2 H3 H4 H5 H6 H7.
  by apply (Compute_run_succeeds k view tables Ht inputValid validCount H1 H2 H3 mat0 recovery e0 n).
Qed.

Lemma Compute_consecutive_succeeds_witness :
  ∃ tables m', gfmat_init = Some tables ∧
    Compute lookup_kernel tables ∅ [true; false; false] 1 [6; 5; 7] = Some (Some (m', [5; 6])).
Proof.
  assert ([6; 5; 7] ≡ₚ seqZ 5 3) as Hp by apply perm_swap.
  destruct gfmat_init_ok as (tables & Ht & _). exists tables.
  destruct (Compute_consecutive_succeeds lookup_kernel word tables ∅ [true; false; false] 1 [6; 5; 7] 5 3 Ht
    ltac:(vm_compute; congruence) ltac:(vm_compute; reflexivity) ltac:(vm_compute; reflexivity)
    ltac:(lia) ltac:(lia) ltac:(vm_compute; congruence) Hp) as (m' & Hrun & _).
  exists m'. split; [exact Ht|exact Hrun].
Defined.
