(* ===== verification/ReedSolomon.v ===== *)
(** * ReedSolomon.v: [ReedSolomon<Galois8>] of include/par2/reedsolomon.h and
    src/reedsolomon.cpp, the matrix arithmetic of PAR 1.0 repair

    The object is a record of the class's fields; allocated arrays are finite maps, so
    reading an entry that was not written is [None].  Messages to the output streams
    and progress reports are left out. *)

From S2P Require Import Prelude LinOp GF Galois.

(** [gcd]: the fuel bounds the number of iterations of the loop. *)
Fixpoint gcd_loop (fuel : nat) (a b : Z) : option (Z * Z) :=
  match fuel with
  | O => None
  | S fuel =>
      if negb (a =? 0) && negb (b =? 0) then
        if b <? a then gcd_loop fuel (a mod b) b else gcd_loop fuel a (b mod a)
      else Some (a, b)
  end.

Definition gcd (a b : Z) : option Z :=
  if negb (a =? 0) && negb (b =? 0) then
    '(a, b) ← gcd_loop (Z.to_nat (a + b) + 1) a b;
    Some (wrap 32 (a + b))
  else Some 0.

Record RSOutputRow := { present : bool; exponent : Z }.

Record ReedSolomon := {
  inputcount : Z;
  datapresent : Z;
  datamissing : Z;
  datapresentindex : array;
  datamissingindex : array;
  database : array;
  outputcount : Z;
  parpresent : Z;
  parmissing : Z;
  outputrows : list RSOutputRow;
  leftmatrix : array;
  glmt : array;
}.

(** [ReedSolomon::ReedSolomon] *)
Definition mkReedSolomon : option ReedSolomon :=
  tables ← GaloisLongMultiplyTable 8 galois8_table;
  Some {| inputcount := 0; datapresent := 0; datamissing := 0; datapresentindex := ∅;
          datamissingindex := ∅; database := ∅; outputcount := 0; parpresent := 0;
          parmissing := 0; outputrows := []; leftmatrix := ∅; glmt := tables |}.

(** One iteration of [SetInput]; the state is the object and [base]. *)
Definition SetInput_step (index : Z) (is_present : bool) (st : ReedSolomon * Z) : ReedSolomon * Z :=
  let '(rs, base) := st in
  let dp := datapresent rs in
  let dm := datamissing rs in
  ({| inputcount := inputcount rs;
      datapresent := if is_present then dp + 1 else dp;
      datamissing := if is_present then dm else dm + 1;
      datapresentindex := if is_present then <[dp := index]> (datapresentindex rs) else datapresentindex rs;
      datamissingindex := if is_present then datamissingindex rs else <[dm := index]> (datamissingindex rs);
      database := <[index := base]> (database rs);
      outputcount := outputcount rs; parpresent := parpresent rs; parmissing := parmissing rs;
      outputrows := outputrows rs; leftmatrix := leftmatrix rs; glmt := glmt rs |},
   wrap 8 (base + 1)).

Fixpoint SetInput_loop (index : Z) (flags : list bool) (st : ReedSolomon * Z) : ReedSolomon * Z :=
  match flags with
  | [] => st
  | f :: flags => SetInput_loop (index + 1) flags (SetInput_step index f st)
  end.

Definition set_inputcount (rs : ReedSolomon) (n : Z) : ReedSolomon :=
  {| inputcount := n; datapresent := datapresent rs; datamissing := datamissing rs;
     datapresentindex := ∅; datamissingindex := ∅; database := ∅;
     outputcount := outputcount rs; parpresent := parpresent rs; parmissing := parmissing rs;
     outputrows := outputrows rs; leftmatrix := leftmatrix rs; glmt := glmt rs |}.

(** [SetInput(const std::vector<bool> &present, ...)] *)
Definition SetInput (rs : ReedSolomon) (flags : list bool) : ReedSolomon :=
  fst (SetInput_loop 0 flags (set_inputcount rs (wrap 32 (Z.of_nat (length flags))), 1)).

(** [SetInput(u32 count, ...)] *)
Definition SetInput_all (rs : ReedSolomon) (count : Z) : ReedSolomon :=
  fst (SetInput_loop 0 (replicate (Z.to_nat count) true) (set_inputcount rs count, 1)).

(** [SetOutput(bool present, u16 exponent)] *)
Definition SetOutput (rs : ReedSolomon) (p : bool) (e : Z) : ReedSolomon :=
  {| inputcount := inputcount rs; datapresent := datapresent rs; datamissing := datamissing rs;
     datapresentindex := datapresentindex rs; datamissingindex := datamissingindex rs;
     database := database rs; outputcount := outputcount rs + 1;
     parpresent := if p then parpresent rs + 1 else parpresent rs;
     parmissing := if p then parmissing rs else parmissing rs + 1;
     outputrows := outputrows rs ++ [{| present := p; exponent := e |}];
     leftmatrix := leftmatrix rs; glmt := glmt rs |}.

(** [SetOutput(bool present, u16 lowexponent, u16 highexponent)] *)
Definition SetOutput_range (rs : ReedSolomon) (p : bool) (low high : Z) : ReedSolomon :=
  for_loop low (high + 1) (λ e rs, SetOutput rs p (wrap 16 e)) rs.

(** ** [Compute] *)

Abbreviation gdiv := (div_assign 8 galois8_table).
Abbreviation gmul8 := (mul 8 galois8_table).
Abbreviation gpow8 := (pow 8 galois8_table).

(** [std::fill(m, m + n, G(0))] *)
Definition zeros (n : Z) : array := for_loop 0 n (λ i m, <[i := 0]> m) ∅.

(** [while (outputrow->present != p) outputrow++;] and the step past the row found;
    running past the end of the vector is an error. *)
Fixpoint next_output (p : bool) (rows : list RSOutputRow) : option (Z * list RSOutputRow) :=
  match rows with
  | [] => None
  | r :: rows => if Bool.eqb (present r) p then Some (exponent r, rows) else next_output p rows
  end.

(** [for (col = 0; col < n; col++) m[base + col] = f(col);] *)
Definition fill_columns (base n : Z) (f : Z → option Z) (m : array) : option array :=
  for_loopM 0 n (λ col m, v ← f col; Some (<[base + col := v]> m)) m.

(** [G(database[index[col]]).pow(exponent)] *)
Definition base_power (rs : ReedSolomon) (index : array) (e col : Z) : option Z :=
  i ← index !! col;
  b ← database rs !! i;
  gpow8 b e.

Section Compute.
Context (rs : ReedSolomon).
Abbreviation outcount := (datamissing rs + parmissing rs).
Abbreviation incount := (datapresent rs + datamissing rs).

(** A row for a present recovery block that will be used for a missing data block. *)
Definition fill_used_row (row : Z) (st : array * array * list RSOutputRow)
    : option (array * array * list RSOutputRow) :=
  let '(leftm, rightm, rows) := st in
  '(e, rows) ← next_output true rows;
  leftm ← fill_columns (row * incount) (datapresent rs) (base_power rs (datapresentindex rs) e) leftm;
  leftm ← fill_columns (row * incount + datapresent rs) (datamissing rs)
           (λ col, Some (if row =? col then 1 else 0)) leftm;
  rightm ← (if 0 <? datamissing rs then
             rightm ← fill_columns (row * outcount) (datamissing rs)
                       (base_power rs (datamissingindex rs) e) rightm;
             fill_columns (row * outcount + datamissing rs) (parmissing rs) (λ _, Some 0) rightm
           else Some rightm);
  Some (leftm, rightm, rows).

(** A row for a recovery block being computed. *)
Definition fill_computed_row (row : Z) (st : array * array * list RSOutputRow)
    : option (array * array * list RSOutputRow) :=
  let '(leftm, rightm, rows) := st in
  '(e, rows) ← next_output false rows;
  let r := row + datamissing rs in
  leftm ← fill_columns (r * incount) (datapresent rs) (base_power rs (datapresentindex rs) e) leftm;
  leftm ← fill_columns (r * incount + datapresent rs) (datamissing rs) (λ _, Some 0) leftm;
  rightm ← (if 0 <? datamissing rs then
             rightm ← fill_columns (r * outcount) (datamissing rs)
                       (base_power rs (datamissingindex rs) e) rightm;
             fill_columns (r * outcount + datamissing rs) (parmissing rs)
               (λ col, Some (if row =? col then 1 else 0)) rightm
           else Some rightm);
  Some (leftm, rightm, rows).

(** The two matrices before elimination. *)
Definition fill_matrices : option (array * array) :=
  let leftm := zeros (outcount * incount) in
  let rightm := if 0 <? datamissing rs then zeros (outcount * outcount) else ∅ in
  '(leftm, rightm, _) ← for_loopM 0 (datamissing rs) fill_used_row (leftm, rightm, outputrows rs);
  '(leftm, rightm, _) ← for_loopM 0 (parmissing rs) fill_computed_row (leftm, rightm, outputrows rs);
  Some (leftm, rightm).
End Compute.

(** ** [GaussElim] *)

(** [for (col = lo; col < hi; col++) if (m[base+col] != 0) m[base+col] /= pivotvalue;] *)
Definition scale_entries (base lo hi pivotvalue : Z) (m : array) : option array :=
  for_loopM lo hi (λ col m,
    v ← m !! (base + col);
    if v =? 0 then Some m else
    q ← gdiv v pivotvalue;
    Some (<[base + col := q]> m)) m.

(** [for (col = lo; col < hi; col++) if (m[src+col] != 0) m[dst+col] -= m[src+col] * scale;],
    without the multiplication when the scale is 1 *)
Definition subtract_entries (src dst lo hi scalevalue : Z) (m : array) : option array :=
  for_loopM lo hi (λ col m,
    v ← m !! (src + col);
    if v =? 0 then Some m else
    w ← m !! (dst + col);
    p ← (if scalevalue =? 1 then Some v else gmul8 v scalevalue);
    Some (<[dst + col := sub w p]> m)) m.

Section GaussElim.
Context (rows leftcols : Z).

(** The pivot row. *)
Definition scale_pivot (row pivotvalue : Z) (leftm rightm : array) : option (array * array) :=
  if pivotvalue =? 1 then Some (leftm, rightm) else
  leftm ← scale_entries (row * leftcols) 0 leftcols pivotvalue leftm;
  rightm ← scale_entries (row * rows) (row + 1) rows pivotvalue (<[row * rows + row := 1]> rightm);
  Some (leftm, rightm).

(** Every other row. *)
Definition eliminate_row (row row2 : Z) (st : array * array) : option (array * array) :=
  let '(leftm, rightm) := st in
  if row =? row2 then Some (leftm, rightm) else
  scalevalue ← rightm !! (row2 * rows + row);
  if scalevalue =? 0 then Some (leftm, rightm) else
  leftm ← subtract_entries (row * leftcols) (row2 * leftcols) 0 leftcols scalevalue leftm;
  rightm ← subtract_entries (row * rows) (row2 * rows) row rows scalevalue rightm;
  Some (leftm, rightm).

(** The rows still to be solved; the result says whether every pivot was nonzero. *)
Fixpoint solve_rows (todo : list Z) (leftm rightm : array) : option (bool * array * array) :=
  match todo with
  | [] => Some (true, leftm, rightm)
  | row :: todo =>
      pivotvalue ← rightm !! (row * rows + row);
      if pivotvalue =? 0 then Some (false, leftm, rightm) else
      '(leftm, rightm) ← scale_pivot row pivotvalue leftm rightm;
      '(leftm, rightm) ← for_loopM 0 rows (eliminate_row row) (leftm, rightm);
      solve_rows todo leftm rightm
  end.

Definition GaussElim (datamissing : Z) (leftm rightm : array) : option (bool * array * array) :=
  solve_rows (seqZ 0 datamissing) leftm rightm.
End GaussElim.

Definition set_leftmatrix (rs : ReedSolomon) (m : array) : ReedSolomon :=
  {| inputcount := inputcount rs; datapresent := datapresent rs; datamissing := datamissing rs;
     datapresentindex := datapresentindex rs; datamissingindex := datamissingindex rs;
     database := database rs; outputcount := outputcount rs; parpresent := parpresent rs;
     parmissing := parmissing rs; outputrows := outputrows rs; leftmatrix := m; glmt := glmt rs |}.

(** [Compute]: the value returned and the object. *)
Definition Compute (rs : ReedSolomon) : option (bool * ReedSolomon) :=
  let outcount := datamissing rs + parmissing rs in
  let incount := datapresent rs + datamissing rs in
  if parpresent rs <? datamissing rs then Some (false, rs) else
  if outcount =? 0 then Some (false, rs) else
  '(leftm, rightm) ← fill_matrices rs;
  if 0 <? datamissing rs then
    '(ok, leftm, _) ← GaussElim outcount incount (datamissing rs) leftm rightm;
    Some (ok, set_leftmatrix rs leftm)
  else Some (true, set_leftmatrix rs leftm).

(** ** [Process] *)

Definition GetFactor (rs : ReedSolomon) (inputindex outputindex : Z) : option Z :=
  leftmatrix rs !! (outputindex * (datapresent rs + datamissing rs) + inputindex).

(** A 32-bit load and store, little endian. *)
Definition load32 (m : array) (p : Z) : option Z :=
  a ← m !! p; b ← m !! (p + 1); c ← m !! (p + 2); d ← m !! (p + 3);
  Some (Z.lor (Z.lor (Z.lor a (Z.shiftl b 8)) (Z.shiftl c 16)) (Z.shiftl d 24)).

Definition store32 (m : array) (p v : Z) : array :=
  <[p + 3 := Z.land (Z.shiftr v 24) 0xff]> (<[p + 2 := Z.land (Z.shiftr v 16) 0xff]>
    (<[p + 1 := Z.land (Z.shiftr v 8) 0xff]> (<[p := Z.land v 0xff]> m))).

(** [*dst4++ ^= L[s & 0xff] ^ (L[(s >> 8) & 0xff] << 8) ^ ...] *)
Definition process_word (L : array) (inputbuffer : array) (i : Z) (outputbuffer : array) : option array :=
  s ← load32 inputbuffer (4 * i);
  d ← load32 outputbuffer (4 * i);
  l0 ← L !! Z.land s 0xff;
  l1 ← L !! Z.land (Z.shiftr s 8) 0xff;
  l2 ← L !! Z.land (Z.shiftr s 16) 0xff;
  l3 ← L !! Z.land (Z.shiftr s 24) 0xff;
  Some (store32 outputbuffer (4 * i)
    (d ⊕ (l0 ⊕ wrap 32 (Z.shiftl l1 8) ⊕ wrap 32 (Z.shiftl l2 16) ⊕ wrap 32 (Z.shiftl l3 24)))).

(** [*dst1++ ^= L[s]] *)
Definition process_byte (L : array) (inputbuffer : array) (p : Z) (outputbuffer : array) : option array :=
  s ← inputbuffer !! p;
  d ← outputbuffer !! p;
  l ← L !! s;
  Some (<[p := wrap 8 (d ⊕ l)]> outputbuffer).

(** [InternalProcess] with the long multiplication table *)
Definition InternalProcess (glmt : array) (factor size : Z) (inputbuffer outputbuffer : array) : option array :=
  let fl := Z.land factor 0xff in
  L ← for_loopM 0 256 (λ i L, v ← glmt !! (fl * 256 + i); Some (<[i := v]> L)) ∅;
  outputbuffer ← for_loopM 0 (size / 4) (process_word L inputbuffer) outputbuffer;
  if size mod 4 =? 0 then Some outputbuffer else
  for_loopM (size / 4 * 4) size (process_byte L inputbuffer) outputbuffer.

(** [Process] *)
Definition Process (rs : ReedSolomon) (size inputindex : Z) (inputbuffer : array) (outputindex : Z)
    (outputbuffer : array) : option array :=
  factor ← GetFactor rs inputindex outputindex;
  if factor =? 0 then Some outputbuffer else
  InternalProcess (glmt rs) factor size inputbuffer outputbuffer.
