(* ===== verification/RSGauss.v ===== *)
(** * RSGauss.v: [ReedSolomon::GaussElim] preserves the equations

    A pair of matrices states, for every row, the equation
    [sum_c L[row][c] * In[c] = sum_c R[row][c] * Out[c]].  Elimination keeps these
    equations and turns the first [datamissing] columns of [R] into unit columns. *)

From S2P Require Import Prelude LinOp GF Galois ReedSolomon.

Abbreviation u8 a := (in_range 8 a).

(** [m] holds the [rows] x [cols] matrix [f], row by row. *)
Definition rep (m : array) (rows cols : Z) (f : Z → Z → Z) : Prop :=
  ∀ r c, 0 ≤ r < rows → 0 ≤ c < cols → m !! (r * cols + c) = Some (f r c).

Lemma rep_ext m rows cols f g : (∀ r c, 0 ≤ r < rows → 0 ≤ c < cols → f r c = g r c) →
  rep m rows cols f → rep m rows cols g.
Proof. intros H Hr r c Hrr Hc. rewrite (Hr r c Hrr Hc). by rewrite H. Qed.

Lemma index_inj cols r c r' c' : 0 ≤ c < cols → 0 ≤ c' < cols →
  r * cols + c = r' * cols + c' → r = r' ∧ c = c'.
Proof. intros. assert (r = r') by nia. subst. lia. Qed.

Lemma rep_insert m rows cols f r c v : 0 ≤ c < cols →
  rep m rows cols f →
  rep (<[r * cols + c := v]> m) rows cols (λ r' c', if decide (r' = r ∧ c' = c) then v else f r' c').
Proof.
  intros Hc Hm r' c' Hr' Hc'. destruct (decide (r' = r ∧ c' = c)) as [[-> ->]|Hne].
  - by rewrite lookup_insert_eq.
  - rewrite lookup_insert_ne; [by apply Hm|]. intros E. apply Hne.
    apply index_inj in E as [-> ->]; done.
Qed.

(** A loop over the columns [lo .. hi) of row [d] that replaces entry [c] by [g c]. *)
Lemma rep_columns m rows cols f (body : Z → array → option array) d lo hi (g : Z → Z) :
  0 ≤ lo ≤ hi → hi ≤ cols → 0 ≤ d < rows → rep m rows cols f →
  (∀ c m f', lo ≤ c < hi → rep m rows cols f' → (∀ c', 0 ≤ c' < cols → lo ≤ c' < c ∨ f' d c' = f d c') →
     (∀ r c', r ≠ d → f' r c' = f r c') →
     ∃ m', body c m = Some m' ∧
       rep m' rows cols (λ r' c', if decide (r' = d ∧ c' = c) then g c else f' r' c')) →
  ∃ m', for_loopM lo hi body m = Some m' ∧
    rep m' rows cols (λ r c, if decide (r = d ∧ lo ≤ c < hi) then g c else f r c).
Proof.
  intros Hlo Hhi Hd Hm Hbody.
  destruct (for_loopM_ind (λ i m', rep m' rows cols (λ r c, if decide (r = d ∧ lo ≤ c < i) then g c else f r c))
    lo hi body m) as (m' & Hrun & Hm').
  - lia.
  - eapply rep_ext; [|exact Hm]. intros r c _ _. cbv beta. by rewrite decide_False by lia.
  - intros i m1 Hi IH. destruct (Hbody i m1 _ Hi IH) as (m2 & -> & H2).
    + intros c' Hc'. cbv beta. case_decide; [left; lia|by right].
    + intros r c' Hr. cbv beta. by rewrite decide_False by tauto.
    + exists m2. split; [done|]. eapply rep_ext; [|exact H2]. intros r c _ _. cbv beta.
      repeat case_decide; try done; try (exfalso; lia). f_equal. lia.
  - by exists m'.
Qed.

Lemma mul8_range a b : u8 (mul8 a b).
Proof. apply (gf_mul_range 8 0x11D). Qed.

Section Entries.
Context (rows cols : Z).

Lemma scale_entries_ok m f d lo hi pv pinv :
  0 ≤ lo ≤ hi → hi ≤ cols → 0 ≤ d < rows → u8 pv → pv ≠ 0 → u8 pinv → mul8 pv pinv = 1 →
  rep m rows cols f → (∀ r c, u8 (f r c)) →
  ∃ m', scale_entries (d * cols) lo hi pv m = Some m' ∧
    rep m' rows cols (λ r c, if decide (r = d ∧ lo ≤ c < hi) then mul8 (f r c) pinv else f r c).
Proof.
  intros Hlo Hhi Hd Hpv Hpv0 Hpi Hinv Hm Hf.
  destruct (rep_columns m rows cols f (λ col m, v ← m !! (d * cols + col);
    if v =? 0 then Some m else q ← gdiv v pv; Some (<[d * cols + col := q]> m)) d lo hi
    (λ c, mul8 (f d c) pinv)) as (m' & Hrun & Hm'); [done..| |].
  - intros c m1 f' Hc H1 H2 H3. rewrite (H1 d c) by lia. cbn [mbind option_bind].
    destruct (H2 c) as [|Hfd]; [lia|lia|]. rewrite Hfd.
    destruct (Z.eqb_spec (f d c) 0) as [E|E].
    + exists m1. split; [done|]. eapply rep_ext; [|exact H1]. intros r c' Hr Hc'. cbv beta.
      case_decide as Hd'; [|done]. destruct Hd' as [-> ->]. by rewrite Hfd, E, (gf_mul_0_l 8 0x11D).
    + rewrite div_assign_div by done.
      destruct (div_ok 8 0x11D galois8_table galois8_table_ok (f d c) pv) as (q & -> & Hq & Hqv); [apply Hf|done|done|].
      cbn [mbind option_bind]. eexists. split; [done|].
      replace (mul8 (f d c) pinv) with q; [by apply rep_insert; [lia|]|].
      rewrite <- Hqv, <- (gf_mul_assoc 8 0x11D), Hinv, (gf_mul_1_r 8 0x11D); done.
  - exists m'. split; [done|]. eapply rep_ext; [|exact Hm']. intros r c _ _. cbv beta.
    case_decide as E; [|done]. by destruct E as [-> _].
Qed.

Lemma subtract_entries_ok m f s d lo hi scale :
  0 ≤ lo ≤ hi → hi ≤ cols → 0 ≤ d < rows → 0 ≤ s < rows → s ≠ d → u8 scale →
  rep m rows cols f → (∀ r c, u8 (f r c)) →
  ∃ m', subtract_entries (s * cols) (d * cols) lo hi scale m = Some m' ∧
    rep m' rows cols (λ r c, if decide (r = d ∧ lo ≤ c < hi) then f d c ⊕ mul8 (f s c) scale else f r c).
Proof.
  intros Hlo Hhi Hd Hs Hsd Hsc Hm Hf. unfold subtract_entries.
  apply (rep_columns m rows cols f _ d lo hi (λ c, f d c ⊕ mul8 (f s c) scale)); [done..|].
  intros c m1 f' Hc H1 H2 H3. rewrite (H1 s c) by lia. cbn [mbind option_bind]. rewrite (H3 s c) by done.
  destruct (H2 c) as [|Hfd]; [lia|lia|].
  destruct (Z.eqb_spec (f s c) 0) as [E|E].
  - exists m1. split; [done|]. eapply rep_ext; [|exact H1]. intros r c' Hr Hc'. cbv beta.
    case_decide as Hd'; [|done]. destruct Hd' as [-> ->]. by rewrite E, (gf_mul_0_l 8 0x11D), Z.lxor_0_r.
  - rewrite (H1 d c) by lia. cbn [mbind option_bind]. rewrite Hfd.
    assert ((if scale =? 1 then Some (f s c) else gmul8 (f s c) scale) = Some (mul8 (f s c) scale)) as ->.
    { destruct (Z.eqb_spec scale 1) as [->|]; [by rewrite (gf_mul_1_r 8 0x11D) by apply Hf|].
      apply (mul_ok 8 0x11D galois8_table galois8_table_ok); [apply Hf|done]. }
    cbn [mbind option_bind]. eexists. split; [done|]. by apply rep_insert; [lia|].
Qed.
End Entries.

Section Gauss.
(** The columns from [solved] on are unit columns from the start. *)
Context (rows leftcols solved : Z) (Sys : (Z → Z) → (Z → Z) → Prop).
Hypothesis Hrows : 0 ≤ rows.
Hypothesis Hcols : 0 ≤ leftcols.

Definition row_eq (a b : Z → Z) : Prop := ∀ In Out, Sys In Out →
  xsum (λ c, mul8 (a c) (In c)) (seqZ 0 leftcols) = xsum (λ c, mul8 (b c) (Out c)) (seqZ 0 rows).

Lemma row_eq_ext a a' b b' : (∀ c, 0 ≤ c < leftcols → a c = a' c) → (∀ c, 0 ≤ c < rows → b c = b' c) →
  row_eq a b → row_eq a' b'.
Proof.
  intros Ha Hb H In Out HS. rewrite (xsum_ext (λ c, mul8 (a' c) (In c)) (λ c, mul8 (a c) (In c))).
  - rewrite (H In Out HS). apply xsum_ext. intros c Hc%elem_of_seqZ. by rewrite Hb by lia.
  - intros c Hc%elem_of_seqZ. by rewrite Ha by lia.
Qed.

Lemma row_eq_scale a b p : row_eq a b → row_eq (λ c, mul8 (a c) p) (λ c, mul8 (b c) p).
Proof.
  intros H In Out HS.
  assert (∀ (f g : Z → Z) l, xsum (λ c, mul8 (mul8 (f c) p) (g c)) l = mul8 p (xsum (λ c, mul8 (f c) (g c)) l)) as E.
  { intros f g l. rewrite (gf_mul_xsum_r 8 0x11D). apply xsum_ext. intros c _.
    by rewrite (gf_mul_comm 8 0x11D (f c)), <- (gf_mul_assoc 8 0x11D). }
  by rewrite !E, (H In Out HS).
Qed.

Lemma row_eq_add a b a' b' : row_eq a b → row_eq a' b' → row_eq (λ c, a c ⊕ a' c) (λ c, b c ⊕ b' c).
Proof.
  intros H H' In Out HS.
  assert (∀ (f f' g : Z → Z) l, xsum (λ c, mul8 (f c ⊕ f' c) (g c)) l
    = xsum (λ c, mul8 (f c) (g c)) l ⊕ xsum (λ c, mul8 (f' c) (g c)) l) as E.
  { intros f f' g l. rewrite <- xsum_lxor. apply xsum_ext. intros c _. apply (gf_mul_xor_l 8 0x11D). }
  by rewrite !E, (H In Out HS), (H' In Out HS).
Qed.

(** The state of the elimination: the arrays hold [L] and [R], every row is an
    equation of the system, and the first [n] columns of [R] are unit columns. *)
Record gauss_inv (n : Z) (l r : array) (L R : Z → Z → Z) : Prop := {
  gi_left : rep l rows leftcols L;
  gi_right : rep r rows rows R;
  gi_L_range a c : u8 (L a c);
  gi_R_range a c : u8 (R a c);
  gi_eq a : 0 ≤ a < rows → row_eq (L a) (R a);
  gi_unit a c : 0 ≤ a < rows → 0 ≤ c < n → R a c = if decide (a = c) then 1 else 0;
  gi_tail a c : 0 ≤ a < rows → solved ≤ c < rows → R a c = if decide (a = c) then 1 else 0;
}.

(** The row [row] divided by the pivot. *)
Definition pivot_scaled (F : Z → Z → Z) (row pinv : Z) : Z → Z → Z :=
  λ a c, if decide (a = row) then mul8 (F a c) pinv else F a c.

Lemma scale_pivot_ok row l r L R pinv : 0 ≤ row < rows → row < solved →
  gauss_inv row l r L R → R row row ≠ 0 → u8 pinv → mul8 (R row row) pinv = 1 →
  ∃ l' r', scale_pivot rows leftcols row (R row row) l r = Some (l', r') ∧
    gauss_inv row l' r' (pivot_scaled L row pinv) (pivot_scaled R row pinv).
Proof.
  intros Hrow Hsolved [H1 H2 H3 H4 H5 H6 H7] Hnz Hpi Hinv.
  assert (∃ l' r', scale_pivot rows leftcols row (R row row) l r = Some (l', r') ∧
    rep l' rows leftcols (pivot_scaled L row pinv) ∧ rep r' rows rows (pivot_scaled R row pinv)) as (l' & r' & Hrun & Hl & Hr).
  { unfold scale_pivot. destruct (Z.eqb_spec (R row row) 1) as [E|E].
    - assert (pinv = 1) as -> by (rewrite E, (gf_mul_1_l 8 0x11D) in Hinv; done).
      exists l, r. split; [done|]. split; (eapply rep_ext; [|eassumption]); intros a c _ _; unfold pivot_scaled;
        case_decide; try done; by rewrite (gf_mul_1_r 8 0x11D).
    - destruct (scale_entries_ok rows leftcols l L row 0 leftcols (R row row) pinv) as (l' & -> & Hl); try done.
      destruct (scale_entries_ok rows rows (<[row * rows + row := 1]> r)
        (λ a c, if decide (a = row ∧ c = row) then 1 else R a c) row (row + 1) rows (R row row) pinv)
        as (r' & Hr' & Hr); try done; try lia.
      + by apply rep_insert.
      + intros a c. case_decide; [done|apply H4].
      + cbn [mbind option_bind]. rewrite Hr'. cbn [mbind option_bind]. exists l', r'. split; [done|]. split.
        * eapply rep_ext; [|exact Hl]. intros a c Ha Hc. unfold pivot_scaled. cbv beta. repeat case_decide; (done || lia).
        * eapply rep_ext; [|exact Hr]. intros a c Ha Hc. unfold pivot_scaled. cbv beta.
          destruct (decide (a = row)) as [->|]; [|by rewrite !decide_False by tauto].
          destruct (decide (c = row)) as [->|].
          -- rewrite decide_False by lia. by rewrite decide_True, Hinv.
          -- destruct (decide (row + 1 ≤ c)).
             ++ rewrite decide_True by lia. by rewrite decide_False by tauto.
             ++ rewrite !decide_False by lia. rewrite H6, decide_False by lia. by rewrite (gf_mul_0_l 8 0x11D). }
  exists l', r'. split; [done|]. split; try done.
  - intros a c. unfold pivot_scaled. case_decide; [apply mul8_range|apply H3].
  - intros a c. unfold pivot_scaled. case_decide; [apply mul8_range|apply H4].
  - intros a Ha. unfold pivot_scaled. destruct (decide (a = row)) as [->|]; [by apply row_eq_scale, H5|by apply H5].
  - intros a c Ha Hc. unfold pivot_scaled. rewrite H6 by done. destruct (decide (a = row)) as [->|]; [|done].
    rewrite decide_False by lia. apply (gf_mul_0_l 8 0x11D).
  - intros a c Ha Hc. unfold pivot_scaled. rewrite H7 by done. destruct (decide (a = row)) as [->|]; [|done].
    rewrite decide_False by lia. apply (gf_mul_0_l 8 0x11D).
Qed.

(** The rows below [i], other than the pivot row, have the pivot column eliminated. *)
Definition eliminated_below (F R : Z → Z → Z) (row i : Z) : Z → Z → Z :=
  λ a c, if decide (a < i ∧ a ≠ row) then F a c ⊕ mul8 (F row c) (R a row) else F a c.

Lemma eliminate_rows_ok row l r L R : 0 ≤ row < rows → row < solved → gauss_inv row l r L R → R row row = 1 →
  ∃ st, for_loopM 0 rows (eliminate_row rows leftcols row) (l, r) = Some st ∧
    gauss_inv (row + 1) (fst st) (snd st) (eliminated_below L R row rows) (eliminated_below R R row rows).
Proof.
  intros Hrow Hsolved [H1 H2 H3 H4 H5 H6 H7] Hone.
  destruct (for_loopM_ind (λ i st, rep (fst st) rows leftcols (eliminated_below L R row i) ∧
    rep (snd st) rows rows (eliminated_below R R row i)) 0 rows (eliminate_row rows leftcols row) (l, r))
    as (st & Hrun & Hl & Hr).
  - lia.
  - split; (eapply rep_ext; [|eassumption]); intros a c Ha _; unfold eliminated_below; by rewrite decide_False by lia.
  - intros i [l1 r1] Hi [Hl1 Hr1]. cbn [fst snd] in *. unfold eliminate_row.
    destruct (Z.eqb_spec row i) as [->|Hne].
    { eexists. split; [done|]. split; (eapply rep_ext; [|eassumption]); intros a c _ _; unfold eliminated_below;
        repeat case_decide; (done || lia). }
    assert (eliminated_below R R row i i row = R i row) as Ei.
    { unfold eliminated_below. by rewrite decide_False by lia. }
    rewrite (Hr1 i row) by lia. cbn [mbind option_bind]. rewrite Ei.
    assert (∀ F, (∀ a c, u8 (F a c)) → ∀ a c, u8 (eliminated_below F R row i a c)) as Hrange.
    { intros F HF a c. unfold eliminated_below. case_decide; [|apply HF].
      apply in_range_lxor; [lia|apply HF|apply mul8_range]. }
    assert (∀ F a c lo hi, (∀ c', 0 ≤ c' < lo → F row c' = 0) → 0 ≤ c < hi →
      (if decide (a = i ∧ lo ≤ c < hi) then eliminated_below F R row i i c ⊕ mul8 (eliminated_below F R row i row c) (R i row)
       else eliminated_below F R row i a c) = eliminated_below F R row (i + 1) a c) as Hstep.
    { intros F a c lo hi Hz Hc. unfold eliminated_below. destruct (decide (a = i)) as [->|].
      - rewrite (decide_False (P := i < i ∧ _)), (decide_False (P := row < i ∧ _)), (decide_True (P := i < i + 1 ∧ _)) by lia.
        destruct (decide (lo ≤ c)); [by rewrite decide_True by lia|]. rewrite decide_False by lia.
        by rewrite (Hz c), (gf_mul_0_l 8 0x11D), Z.lxor_0_r by lia.
      - rewrite (decide_False (P := a = i ∧ _)) by tauto. repeat case_decide; (done || lia). }
    destruct (Z.eqb_spec (R i row) 0) as [E|E].
    { eexists. split; [done|]. split; (eapply rep_ext; [|eassumption]); intros a c _ _; unfold eliminated_below;
        repeat case_decide; try done; try lia; assert (a = i) as -> by lia; by rewrite E, (gf_mul_0_r 8 0x11D), Z.lxor_0_r. }
    destruct (subtract_entries_ok rows leftcols l1 (eliminated_below L R row i) row i 0 leftcols (R i row))
      as (l2 & -> & Hl2); try done; [by apply Hrange|].
    destruct (subtract_entries_ok rows rows r1 (eliminated_below R R row i) row i row rows (R i row))
      as (r2 & Hr2' & Hr2); try done; try lia; [by apply Hrange|].
    cbn [mbind option_bind]. rewrite Hr2'. cbn [mbind option_bind]. eexists. split; [done|]. cbn [fst snd]. split.
    + eapply rep_ext; [|exact Hl2]. intros a c Ha Hc. cbv beta. apply Hstep; [lia|done].
    + eapply rep_ext; [|exact Hr2]. intros a c Ha Hc. cbv beta. apply Hstep; [|done].
      intros c' Hc'. by rewrite H6, decide_False by lia.
  - exists st. split; [done|]. unfold eliminated_below in *. split; try done.
    + intros a c. case_decide; [apply in_range_lxor; [lia|apply H3|apply mul8_range]|apply H3].
    + intros a c. case_decide; [apply in_range_lxor; [lia|apply H4|apply mul8_range]|apply H4].
    + intros a Ha. destruct (decide (a < rows ∧ a ≠ row)).
      * apply row_eq_add; [by apply H5|]. by apply row_eq_scale, H5.
      * by apply H5.
    + intros a c Ha Hc. destruct (decide (c = row)) as [->|Hcr].
      * rewrite Hone, (gf_mul_1_l 8 0x11D) by apply H4. destruct (decide (a < rows ∧ a ≠ row)).
        -- rewrite Z.lxor_nilpotent, decide_False by tauto. done.
        -- assert (a = row) as -> by lia. by rewrite decide_True, Hone.
      * rewrite (H6 row c), H6 by lia. rewrite (decide_False (P := row = c)), (gf_mul_0_l 8 0x11D), Z.lxor_0_r by lia.
        by destruct (decide (a < rows ∧ a ≠ row)).
    + intros a c Ha Hc. rewrite (H7 row c), H7 by lia. rewrite (decide_False (P := row = c)), (gf_mul_0_l 8 0x11D), Z.lxor_0_r by lia.
      by destruct (decide (a < rows ∧ a ≠ row)).
Qed.

(** Elimination never reads outside the matrices; it either meets a zero pivot or
    solves the first [n] columns. *)
Lemma solve_rows_ok k row l r L R : 0 ≤ row → row + Z.of_nat k ≤ rows → row + Z.of_nat k ≤ solved → gauss_inv row l r L R →
  ∃ ok l' r', solve_rows rows leftcols (seqZ row (Z.of_nat k)) l r = Some (ok, l', r') ∧
    (ok = true → ∃ L' R', gauss_inv (row + Z.of_nat k) l' r' L' R').
Proof.
  revert row l r L R. induction k as [|k IH]; intros row l r L R H0 Hk Hs Hinv.
  - rewrite seqZ_nil by lia. exists true, l, r. split; [done|]. intros _. exists L, R.
    by replace (row + Z.of_nat 0) with row by lia.
  - rewrite seqZ_cons by lia. cbn [solve_rows]. rewrite (gi_right _ _ _ _ _ Hinv) by lia. cbn [mbind option_bind].
    destruct (Z.eqb_spec (R row row) 0) as [E|E]; [by eexists false, _, _|].
    destruct (gf_inverse_exists 8 0x11D (R row row)) as (pinv & Hpi & _ & Hmul); [apply Hinv|done|].
    destruct (scale_pivot_ok row l r L R pinv) as (l1 & r1 & -> & H1); try done; [lia..|]. cbn [mbind option_bind].
    destruct (eliminate_rows_ok row l1 r1 _ _ ltac:(lia) ltac:(lia) H1) as ([l2 r2] & -> & H2).
    { unfold pivot_scaled. by rewrite decide_True. }
    cbn [mbind option_bind fst snd] in *.
    replace (Z.succ row) with (row + 1) by lia. replace (Z.pred (Z.of_nat (S k))) with (Z.of_nat k) by lia.
    destruct (IH (row + 1) l2 r2 _ _ ltac:(lia) ltac:(lia) ltac:(lia) H2) as (ok & l' & r' & Hrun & Hok).
    exists ok, l', r'. split; [done|]. by replace (row + Z.of_nat (S k)) with (row + 1 + Z.of_nat k) by lia.
Qed.
End Gauss.
