(* ===== verification/RSCompute.v ===== *)
(** * RSCompute.v: [ReedSolomon::Compute] and [Process] recover missing PAR 1.0 data

    [SetInput] and [SetOutput] build a well-formed object ([rs_wf]); [Compute] on it
    never reads outside its arrays, and when it succeeds the matrix expresses the missing
    data files and recovery volumes in terms of the available ones; [Process] adds one
    input, scaled, to one output. *)

From S2P Require Import Prelude LinOp GF Galois InputCols ReedSolomon RSGauss.

(** ** Building the object *)

(** The exponents of the recovery volumes that are present ([true]) or to be computed. *)
Definition exps_with (p : bool) (rows : list RSOutputRow) : list Z :=
  exponent <$> filter (λ r, present r = p) rows.

Record inputs_wf (flags : list bool) (n : Z) (rs : ReedSolomon) : Prop := {
  iw_present : datapresent rs = Z.of_nat (length (inputs_with flags true n));
  iw_missing : datamissing rs = Z.of_nat (length (inputs_with flags false n));
  iw_pindex c i : inputs_with flags true n !! c = Some i → datapresentindex rs !! Z.of_nat c = Some i;
  iw_mindex c i : inputs_with flags false n !! c = Some i → datamissingindex rs !! Z.of_nat c = Some i;
  iw_base i : 0 ≤ i < n → database rs !! i = Some (wrap 8 (i + 1));
}.

Lemma lookup_snoc_cases {A} (l : list A) x c i : (l ++ [x]) !! c = Some i →
  l !! c = Some i ∨ (c = length l ∧ i = x).
Proof.
  intros H. apply lookup_app_Some in H as [H|[Hle H]]; [by left|right].
  destruct (c - length l)%nat eqn:E; simpl in H; [|done]. split; [lia|congruence].
Qed.

Lemma SetInput_step_ok flags i f rs : 0 ≤ i → flags !! Z.to_nat i = Some f → inputs_wf flags i rs →
  inputs_wf flags (i + 1) (fst (SetInput_step i f (rs, wrap 8 (i + 1)))).
Proof.
  intros Hi Hf [H1 H2 H3 H4 H5].
  assert (is_valid flags i = f) as Hv by (unfold is_valid; by rewrite Hf).
  split; simpl; rewrite ?inputs_with_succ, ?Hv by done.
  - destruct f; [rewrite decide_True by done|rewrite decide_False by done]; rewrite length_app; simpl; lia.
  - destruct f; [rewrite decide_False by done|rewrite decide_True by done]; rewrite length_app; simpl; lia.
  - intros c j. destruct f; [rewrite decide_True by done|rewrite decide_False, app_nil_r by done; apply H3].
    intros [Hc|[-> ->]]%lookup_snoc_cases.
    + rewrite lookup_insert_ne; [by apply H3|]. apply lookup_lt_Some in Hc. lia.
    + by rewrite H1, lookup_insert_eq.
  - intros c j. destruct f; [rewrite decide_False, app_nil_r by done; apply H4|rewrite decide_True by done].
    intros [Hc|[-> ->]]%lookup_snoc_cases.
    + rewrite lookup_insert_ne; [by apply H4|]. apply lookup_lt_Some in Hc. lia.
    + by rewrite H2, lookup_insert_eq.
  - intros j Hj. destruct (decide (j = i)) as [->|]; [by rewrite lookup_insert_eq|].
    rewrite lookup_insert_ne by done. apply H5. lia.
Qed.

Lemma SetInput_loop_ok flags rest i rs : 0 ≤ i → drop (Z.to_nat i) flags = rest →
  inputs_wf flags i rs →
  let rs' := fst (SetInput_loop i rest (rs, wrap 8 (i + 1))) in
  inputs_wf flags (i + Z.of_nat (length rest)) rs' ∧
  outputrows rs' = outputrows rs ∧ parpresent rs' = parpresent rs ∧ parmissing rs' = parmissing rs ∧ glmt rs' = glmt rs.
Proof.
  revert i rs. induction rest as [|f rest IH]; intros i rs Hi Hd Hwf; cbn [SetInput_loop length].
  - cbn [fst]. by rewrite Z.add_0_r.
  - assert (flags !! Z.to_nat i = Some f) as Hf.
    { rewrite <- (Nat.add_0_r (Z.to_nat i)), <- lookup_drop, Hd. done. }
    assert (drop (Z.to_nat (i + 1)) flags = rest) as Hd'.
    { replace (Z.to_nat (i + 1)) with (Z.to_nat i + 1)%nat by lia. by rewrite <- drop_drop, Hd. }
    pose proof (SetInput_step_ok flags i f rs Hi Hf Hwf) as Hstep.
    assert (snd (SetInput_step i f (rs, wrap 8 (i + 1))) = wrap 8 (i + 1 + 1)) as Hbase.
    { simpl. unfold wrap. by rewrite Z.add_mod_idemp_l. }
    destruct (SetInput_step i f (rs, wrap 8 (i + 1))) as [rs1 base1] eqn:E1. simpl in Hstep, Hbase. subst base1.
    destruct (IH (i + 1) rs1 ltac:(lia) Hd' Hstep) as (H1 & H2 & H3 & H4 & H5).
    replace (i + Z.of_nat (S (length rest))) with (i + 1 + Z.of_nat (length rest)) by lia.
    assert (outputrows rs1 = outputrows rs ∧ parpresent rs1 = parpresent rs ∧ parmissing rs1 = parmissing rs ∧ glmt rs1 = glmt rs)
      as (E2 & E3 & E4 & E5) by (unfold SetInput_step in E1; by simplify_eq).
    by rewrite <- E2, <- E3, <- E4, <- E5.
Qed.

Record outputs_wf (rs : ReedSolomon) : Prop := {
  ow_present : parpresent rs = Z.of_nat (length (exps_with true (outputrows rs)));
  ow_missing : parmissing rs = Z.of_nat (length (exps_with false (outputrows rs)));
  ow_range : Forall (λ r, 0 ≤ exponent r ≤ 256) (outputrows rs);
}.

(** The objects the repairer builds: the constructor, [SetInput] for at most 255 files,
    any number of [SetOutput] calls. *)
Record rs_wf (flags : list bool) (rs : ReedSolomon) : Prop := {
  wf_count : Z.of_nat (length flags) ≤ 255;
  wf_inputs : inputs_wf flags (Z.of_nat (length flags)) rs;
  wf_outputs : outputs_wf rs;
  wf_glmt : long_rows 65536 (glmt rs);
}.

Lemma mkReedSolomon_ok : ∃ rs, mkReedSolomon = Some rs ∧ outputs_wf rs ∧ long_rows 65536 (glmt rs)
  ∧ datapresent rs = 0 ∧ datamissing rs = 0 ∧ outputrows rs = [].
Proof.
  destruct GaloisLongMultiplyTable_ok as (t & Ht & Hrows). unfold mkReedSolomon. rewrite Ht.
  eexists. split; [done|]. split_and!; [|done..]. split; [done..|constructor].
Qed.

Lemma SetInput_ok flags rs : datapresent rs = 0 → datamissing rs = 0 →
  Z.of_nat (length flags) ≤ 255 → outputs_wf rs → long_rows 65536 (glmt rs) →
  rs_wf flags (SetInput rs flags) ∧ outputrows (SetInput rs flags) = outputrows rs.
Proof.
  intros H1 H2 Hlen [O1 O2 O3] Hg.
  destruct (SetInput_loop_ok flags flags 0 (set_inputcount rs (wrap 32 (Z.of_nat (length flags)))))
    as (W & W2 & W3 & W4 & W5); [lia|done| |].
  { split; simpl; [done..| |]; [by intros|intros; lia]. }
  change (wrap 8 (0 + 1)) with 1 in *. rewrite Z.add_0_l in W. unfold SetInput.
  set (rs' := fst _) in *. split; [|done]. split; [done|done| |].
  - split; by rewrite ?W3, ?W4, ?W2.
  - by rewrite W5.
Qed.

Lemma exps_with_snoc b rows r :
  exps_with b (rows ++ [r]) = exps_with b rows ++ (if Bool.eqb (present r) b then [exponent r] else []).
Proof.
  unfold exps_with. rewrite filter_app, fmap_app. f_equal. rewrite filter_cons, filter_nil.
  by destruct (present r), b.
Qed.

Lemma SetOutput_ok flags rs p e : 0 ≤ e ≤ 256 → rs_wf flags rs → rs_wf flags (SetOutput rs p e).
Proof.
  intros He [H1 [I1 I2 I3 I4 I5] [O1 O2 O3] H4]. split; [done| | |done].
  - split; done.
  - split; cbn [parpresent parmissing outputrows SetOutput].
    + rewrite exps_with_snoc, length_app. destruct p; simpl; lia.
    + rewrite exps_with_snoc, length_app. destruct p; simpl; lia.
    + apply Forall_app. split; [done|]. by apply Forall_singleton.
Qed.

(** ** Filling the matrices *)

Lemma zeros_ok rows cols : 0 ≤ rows → 0 ≤ cols → rep (zeros (rows * cols)) rows cols (λ _ _, 0).
Proof.
  intros Hr Hc r c Hrr Hcc. unfold zeros.
  pose (P := λ (i : Z) (m : array), ∀ a, 0 ≤ a < i → m !! a = Some 0).
  assert (P (rows * cols) (for_loop 0 (rows * cols) (λ i m, <[i := 0]> m) ∅)) as HP.
  { apply (for_loop_ind P 0 (rows * cols)); [nia|intros a; lia|]. intros i m Hi IH a Ha.
    destruct (decide (a = i)) as [->|]; [by rewrite lookup_insert_eq|].
    rewrite lookup_insert_ne by done. apply IH. lia. }
  apply HP. nia.
Qed.

Lemma fill_columns_ok m rows cols F r off n f g :
  0 ≤ r < rows → 0 ≤ off → 0 ≤ n → off + n ≤ cols → rep m rows cols F →
  (∀ c, 0 ≤ c < n → f c = Some (g c)) →
  ∃ m', fill_columns (r * cols + off) n f m = Some m' ∧
    rep m' rows cols (λ r' c', if decide (r' = r ∧ off ≤ c' < off + n) then g (c' - off) else F r' c').
Proof.
  intros Hr Hoff Hn Hle Hm Hf. unfold fill_columns.
  destruct (for_loopM_ind (λ i m', rep m' rows cols
    (λ r' c', if decide (r' = r ∧ off ≤ c' < off + i) then g (c' - off) else F r' c')) 0 n
    (λ col m, v ← f col; Some (<[r * cols + off + col := v]> m)) m) as (m' & Hrun & Hm').
  - done.
  - eapply rep_ext; [|exact Hm]. intros r' c' _ _. cbv beta. by rewrite decide_False by lia.
  - intros i m1 Hi IH. rewrite Hf by done. cbn [mbind option_bind]. eexists. split; [done|].
    replace (r * cols + off + i) with (r * cols + (off + i)) by lia.
    eapply rep_ext; [|apply rep_insert; [lia|exact IH]]. intros r' c' _ _. cbv beta.
    repeat case_decide; try done; try lia. f_equal. lia.
  - by exists m'.
Qed.

Lemma next_output_ok p rows e es : exps_with p rows = e :: es →
  ∃ rows', next_output p rows = Some (e, rows') ∧ exps_with p rows' = es.
Proof.
  induction rows as [|r rows IH]; [done|]. unfold exps_with. rewrite filter_cons. simpl.
  destruct (present r) eqn:E, p; simpl; try (rewrite decide_True by done); try (rewrite decide_False by done);
    intros H; try (simpl in H; simplify_eq; by eexists); by apply IH.
Qed.

Section Fill.
Context (flags : list bool) (rs : ReedSolomon) (Hwf : rs_wf flags rs).
Abbreviation n := (Z.of_nat (length flags)).
Abbreviation dp := (datapresent rs).
Abbreviation dm := (datamissing rs).
Abbreviation pm := (parmissing rs).
Abbreviation outcount := (dm + pm).
Abbreviation incount := (dp + dm).
Hypothesis Henough : dm ≤ parpresent rs.

(** The files and exponents by position. *)
Definition file_at (b : bool) (c : Z) : Z := default 0 (inputs_with flags b n !! Z.to_nat c).
Definition exp_at (p : bool) (r : Z) : Z := default 0 (exps_with p (outputrows rs) !! Z.to_nat r).

Definition Lspec (r c : Z) : Z :=
  if r <? dm then
    if c <? dp then pow8 (file_at true c + 1) (Z.to_nat (exp_at true r))
    else if r =? c - dp then 1 else 0
  else
    if c <? dp then pow8 (file_at true c + 1) (Z.to_nat (exp_at false (r - dm))) else 0.

Definition Rspec (r c : Z) : Z :=
  if r <? dm then
    if c <? dm then pow8 (file_at false c + 1) (Z.to_nat (exp_at true r)) else 0
  else
    if c <? dm then pow8 (file_at false c + 1) (Z.to_nat (exp_at false (r - dm)))
    else if r - dm =? c - dm then 1 else 0.

Lemma counts_nonneg : 0 ≤ dp ∧ 0 ≤ dm ∧ 0 ≤ pm.
Proof.
  destruct Hwf as [_ [H1 H2 _ _ _] [_ H3 _] _]. lia.
Qed.

Lemma file_at_lookup b c : 0 ≤ c < Z.of_nat (length (inputs_with flags b n)) →
  inputs_with flags b n !! Z.to_nat c = Some (file_at b c) ∧ 0 ≤ file_at b c < n.
Proof.
  intros Hc. unfold file_at.
  destruct (lookup_lt_is_Some_2 (inputs_with flags b n) (Z.to_nat c)) as [i Hi]; [lia|]. rewrite Hi.
  split; [done|]. apply list_elem_of_lookup_2 in Hi. unfold inputs_with in Hi.
  apply list_elem_of_filter in Hi as [_ Hi]. apply elem_of_seqZ in Hi. simpl. lia.
Qed.

Lemma base_power_ok b e c : 0 ≤ e ≤ 256 → 0 ≤ c < Z.of_nat (length (inputs_with flags b n)) →
  base_power rs (if b then datapresentindex rs else datamissingindex rs) e c
  = Some (pow8 (file_at b c + 1) (Z.to_nat e)).
Proof.
  intros He Hc. destruct Hwf as [Hcount [_ _ H3 H4 H5] _ _].
  destruct (file_at_lookup b c Hc) as [Hi Hr]. unfold base_power.
  assert ((if b then datapresentindex rs else datamissingindex rs) !! c = Some (file_at b c)) as ->.
  { destruct b; [apply H3 in Hi|apply H4 in Hi]; by rewrite Z2Nat.id in Hi by lia. }
  cbn [mbind option_bind]. rewrite H5 by done. cbn [mbind option_bind].
  assert (wrap 8 (file_at b c + 1) = file_at b c + 1) as -> by (apply wrap_small; split; simpl; lia).
  apply (pow_ok 8 0x11D galois8_table galois8_table_ok); [lia|split; simpl; lia|simpl; lia].
Qed.

Lemma exp_at_lookup p r : 0 ≤ r < Z.of_nat (length (exps_with p (outputrows rs))) →
  ∃ es, drop (Z.to_nat r) (exps_with p (outputrows rs)) = exp_at p r :: es ∧
    es = drop (Z.to_nat (r + 1)) (exps_with p (outputrows rs)) ∧ 0 ≤ exp_at p r ≤ 256.
Proof.
  intros Hr. destruct (lookup_lt_is_Some_2 (exps_with p (outputrows rs)) (Z.to_nat r)) as [e He]; [lia|].
  exists (drop (Z.to_nat (r + 1)) (exps_with p (outputrows rs))). unfold exp_at. rewrite He. split_and!; [|done| |].
  - rewrite (drop_S _ _ _ He). simpl. do 2 f_equal. lia.
  - destruct Hwf as [_ _ [_ _ Hr'] _]. apply list_elem_of_lookup_2 in He.
    apply list_elem_of_fmap in He as (row & -> & Hin). apply list_elem_of_filter in Hin as [_ Hin].
    rewrite Forall_forall in Hr'. simpl. apply Hr' in Hin. lia.
  - destruct Hwf as [_ _ [_ _ Hr'] _]. apply list_elem_of_lookup_2 in He.
    apply list_elem_of_fmap in He as (row & -> & Hin). apply list_elem_of_filter in Hin as [_ Hin].
    rewrite Forall_forall in Hr'. simpl. apply Hr' in Hin. lia.
Qed.

(** The matrices with the rows accepted by [P] filled in. *)
Definition filled (P : Z → bool) (l r : array) : Prop :=
  (∃ FL, rep l outcount incount FL ∧ ∀ a c, 0 ≤ a → P a = true → 0 ≤ c < incount → FL a c = Lspec a c) ∧
  (0 < dm → ∃ FR, rep r outcount outcount FR ∧ ∀ a c, 0 ≤ a → P a = true → 0 ≤ c < outcount → FR a c = Rspec a c).

(** One row of the left matrix: powers, then the columns of the recovery volumes. *)
Lemma fill_left_ok R e idl l FL : 0 ≤ R < outcount → 0 ≤ e ≤ 256 → rep l outcount incount FL →
  ∃ l1 l2, fill_columns (R * incount) dp (base_power rs (datapresentindex rs) e) l = Some l1 ∧
    fill_columns (R * incount + dp) dm (λ col, Some (idl col)) l1 = Some l2 ∧
    rep l2 outcount incount (λ a c, if decide (a = R) then
      (if c <? dp then pow8 (file_at true c + 1) (Z.to_nat e) else idl (c - dp)) else FL a c).
Proof.
  intros HR He Hl. pose proof counts_nonneg. pose proof (iw_present _ _ _ (wf_inputs _ _ Hwf)) as Hdp.
  destruct (fill_columns_ok l outcount incount FL R 0 dp (base_power rs (datapresentindex rs) e)
    (λ c, pow8 (file_at true c + 1) (Z.to_nat e))) as (l1 & H1 & Hl1); try done; try lia.
  { intros c Hc. apply (base_power_ok true); [done|lia]. }
  rewrite Z.add_0_r in H1. rewrite H1.
  destruct (fill_columns_ok l1 outcount incount _ R dp dm (λ col, Some (idl col)) idl HR ltac:(lia) ltac:(lia) ltac:(lia) Hl1
    (λ c _, eq_refl)) as (l2 & H2 & Hl2).
  exists l1, l2. split; [done|]. split; [done|]. eapply rep_ext; [|exact Hl2]. intros a c Ha Hc. cbv beta.
  rewrite Z.sub_0_r. destruct (decide (a = R)) as [->|]; [|by rewrite !decide_False by tauto].
  destruct (Z.ltb_spec c dp).
  - rewrite decide_False, decide_True by lia. done.
  - by rewrite decide_True by lia.
Qed.

(** One row of the right matrix. *)
Lemma fill_right_ok R e idr r FR : 0 ≤ R < outcount → 0 ≤ e ≤ 256 → rep r outcount outcount FR →
  ∃ r1 r2, fill_columns (R * outcount) dm (base_power rs (datamissingindex rs) e) r = Some r1 ∧
    fill_columns (R * outcount + dm) pm (λ col, Some (idr col)) r1 = Some r2 ∧
    rep r2 outcount outcount (λ a c, if decide (a = R) then
      (if c <? dm then pow8 (file_at false c + 1) (Z.to_nat e) else idr (c - dm)) else FR a c).
Proof.
  intros HR He Hl. pose proof counts_nonneg. pose proof (iw_missing _ _ _ (wf_inputs _ _ Hwf)) as Hdm.
  destruct (fill_columns_ok r outcount outcount FR R 0 dm (base_power rs (datamissingindex rs) e)
    (λ c, pow8 (file_at false c + 1) (Z.to_nat e))) as (r1 & H1 & Hr1); try done; try lia.
  { intros c Hc. apply (base_power_ok false); [done|lia]. }
  rewrite Z.add_0_r in H1. rewrite H1.
  destruct (fill_columns_ok r1 outcount outcount _ R dm pm (λ col, Some (idr col)) idr HR ltac:(lia) ltac:(lia) ltac:(lia) Hr1
    (λ c _, eq_refl)) as (r2 & H2 & Hr2).
  exists r1, r2. split; [done|]. split; [done|]. eapply rep_ext; [|exact Hr2]. intros a c Ha Hc. cbv beta.
  rewrite Z.sub_0_r. destruct (decide (a = R)) as [->|]; [|by rewrite !decide_False by tauto].
  destruct (Z.ltb_spec c dm).
  - rewrite decide_False, decide_True by lia. done.
  - by rewrite decide_True by lia.
Qed.

Lemma fill_used_row_ok row l r rows : 0 ≤ row < dm → filled (λ a, a <? row) l r →
  exps_with true rows = drop (Z.to_nat row) (exps_with true (outputrows rs)) →
  ∃ l' r' rows', fill_used_row rs row (l, r, rows) = Some (l', r', rows') ∧
    filled (λ a, a <? row + 1) l' r' ∧ exps_with true rows' = drop (Z.to_nat (row + 1)) (exps_with true (outputrows rs)).
Proof.
  intros Hrow [(FL & Hl & HFL) HR] Hrows. pose proof counts_nonneg as Hnn.
  destruct (exp_at_lookup true row) as (es & He1 & He2 & He3).
  { rewrite <- (ow_present _ (wf_outputs _ _ Hwf)). lia. }
  destruct (HR ltac:(lia)) as (FR & Hr & HFR). rewrite He1 in Hrows.
  destruct (next_output_ok true rows _ _ Hrows) as (rows' & Hnext & Hrows').
  destruct (fill_left_ok row (exp_at true row) (λ col, if row =? col then 1 else 0) l FL ltac:(lia) He3 Hl)
    as (l1 & l2 & Hl1 & Hl2 & Hl').
  destruct (fill_right_ok row (exp_at true row) (λ _, 0) r FR ltac:(lia) He3 Hr) as (r1 & r2 & Hr1 & Hr2 & Hr').
  exists l2, r2, rows'. unfold fill_used_row. rewrite Hnext. cbn [mbind option_bind].
  rewrite Hl1. cbn [mbind option_bind]. rewrite Hl2. cbn [mbind option_bind].
  rewrite (proj2 (Z.ltb_lt 0 dm)) by lia. rewrite Hr1. cbn [mbind option_bind]. rewrite Hr2. cbn [mbind option_bind].
  split; [done|]. split; [|by rewrite Hrows', He2]. split; [|intros _].
  - eexists. split; [exact Hl'|]. intros a c Ha0 Ha%Z.ltb_lt Hc. cbv beta. destruct (decide (a = row)) as [->|].
    + unfold Lspec. by rewrite (proj2 (Z.ltb_lt row dm)) by lia.
    + apply HFL; [done|apply Z.ltb_lt; lia|done].
  - eexists. split; [exact Hr'|]. intros a c Ha0 Ha%Z.ltb_lt Hc. cbv beta. destruct (decide (a = row)) as [->|].
    + unfold Rspec. by rewrite (proj2 (Z.ltb_lt row dm)) by lia.
    + apply HFR; [done|apply Z.ltb_lt; lia|done].
Qed.

Lemma fill_computed_row_ok row l r rows : 0 ≤ row < pm → filled (λ a, a <? row + dm) l r →
  exps_with false rows = drop (Z.to_nat row) (exps_with false (outputrows rs)) →
  ∃ l' r' rows', fill_computed_row rs row (l, r, rows) = Some (l', r', rows') ∧
    filled (λ a, a <? row + 1 + dm) l' r' ∧ exps_with false rows' = drop (Z.to_nat (row + 1)) (exps_with false (outputrows rs)).
Proof.
  intros Hrow [(FL & Hl & HFL) HR] Hrows. pose proof counts_nonneg as Hnn.
  destruct (exp_at_lookup false row) as (es & He1 & He2 & He3).
  { rewrite <- (ow_missing _ (wf_outputs _ _ Hwf)). lia. }
  rewrite He1 in Hrows. destruct (next_output_ok false rows _ _ Hrows) as (rows' & Hnext & Hrows').
  destruct (fill_left_ok (row + dm) (exp_at false row) (λ _, 0) l FL ltac:(lia) He3 Hl)
    as (l1 & l2 & Hl1 & Hl2 & Hl').
  assert (∃ r', (if 0 <? dm then
             rightm ← fill_columns ((row + dm) * outcount) dm (base_power rs (datamissingindex rs) (exp_at false row)) r;
             fill_columns ((row + dm) * outcount + dm) pm (λ col, Some (if row =? col then 1 else 0)) rightm
           else Some r) = Some r' ∧
     (0 < dm → ∃ FR, rep r' outcount outcount FR ∧ ∀ a c, 0 ≤ a → (a <? row + 1 + dm) = true → 0 ≤ c < outcount → FR a c = Rspec a c))
    as (r' & Hr1 & Hr').
  { destruct (Z.ltb_spec 0 dm) as [Hdm|Hdm]; [|exists r; split; [done|lia]].
    destruct (HR Hdm) as (FR & Hr & HFR).
    destruct (fill_right_ok (row + dm) (exp_at false row) (λ col, if row =? col then 1 else 0) r FR ltac:(lia) He3 Hr)
      as (r1 & r2 & -> & Hr2 & Hr'). cbn [mbind option_bind]. exists r2. split; [done|]. intros _.
    eexists. split; [exact Hr'|]. intros a c Ha0 Ha%Z.ltb_lt Hc. cbv beta. destruct (decide (a = row + dm)) as [->|].
    + unfold Rspec. rewrite (proj2 (Z.ltb_ge (row + dm) dm)) by lia. by replace (row + dm - dm) with row by lia.
    + apply HFR; [done|apply Z.ltb_lt; lia|done]. }
  exists l2, r', rows'. unfold fill_computed_row. rewrite Hnext. cbn [mbind option_bind].
  rewrite Hl1. cbn [mbind option_bind]. rewrite Hl2. cbn [mbind option_bind]. rewrite Hr1. cbn [mbind option_bind].
  split; [done|]. split; [|by rewrite Hrows', He2]. split; [|done].
  eexists. split; [exact Hl'|]. intros a c Ha0 Ha%Z.ltb_lt Hc. cbv beta. destruct (decide (a = row + dm)) as [->|].
  - unfold Lspec. rewrite (proj2 (Z.ltb_ge (row + dm) dm)) by lia. by replace (row + dm - dm) with row by lia.
  - apply HFL; [done|apply Z.ltb_lt; lia|done].
Qed.

Lemma fill_matrices_ok : ∃ l r, fill_matrices rs = Some (l, r) ∧
  rep l outcount incount Lspec ∧ (0 < dm → rep r outcount outcount Rspec).
Proof.
  pose proof counts_nonneg as Hnn. unfold fill_matrices.
  destruct (for_loopM_ind (λ row '(l, r, rows), filled (λ a, a <? row) l r ∧
    exps_with true rows = drop (Z.to_nat row) (exps_with true (outputrows rs))) 0 dm (fill_used_row rs)
    (zeros (outcount * incount), if 0 <? dm then zeros (outcount * outcount) else ∅, outputrows rs))
    as ([[l r] rows] & -> & Hf & _).
  - lia.
  - split; [|done]. split.
    + eexists. split; [apply zeros_ok; lia|]. intros a c Ha0 Ha%Z.ltb_lt. lia.
    + intros Hdm. rewrite (proj2 (Z.ltb_lt 0 dm)) by lia. eexists. split; [apply zeros_ok; lia|].
      intros a c Ha0 Ha%Z.ltb_lt. lia.
  - intros row [[l r] rows] Hrow [Hf Hr].
    destruct (fill_used_row_ok row l r rows Hrow Hf Hr) as (l' & r' & rows' & Hrun & Hf' & Hr').
    by exists (l', r', rows').
  - cbn [mbind option_bind].
    destruct (for_loopM_ind (λ row '(l, r, rows), filled (λ a, a <? row + dm) l r ∧
      exps_with false rows = drop (Z.to_nat row) (exps_with false (outputrows rs))) 0 pm (fill_computed_row rs)
      (l, r, outputrows rs)) as ([[l' r'] rows'] & -> & [(FL & Hl & HFL) HR] & _).
    + lia.
    + by split.
    + intros row [[l1 r1] rows1] Hrow [Hf1 Hr1].
      destruct (fill_computed_row_ok row l1 r1 rows1 Hrow Hf1 Hr1) as (l' & r' & rows' & Hrun & Hf' & Hr').
      by exists (l', r', rows').
    + cbn [mbind option_bind]. exists l', r'. split; [done|]. split.
      * eapply rep_ext; [|exact Hl]. intros a c Ha Hc. apply HFL; [lia|apply Z.ltb_lt; lia|done].
      * intros Hdm. destruct (HR Hdm) as (FR & Hr & HFR). eapply rep_ext; [|exact Hr].
        intros a c Ha Hc. apply HFR; [lia|apply Z.ltb_lt; lia|done].
Qed.

(** ** The equations *)

(** The byte of the recovery volume with exponent [e] when the files hold [B]. *)
Definition volume (B : Z → Z) (e : Z) : Z :=
  xsum (λ i, mul8 (pow8 (i + 1) (Z.to_nat e)) (B i)) (seqZ 0 n).

(** The available and the wanted bytes, by column and row. *)
Definition in_data (B : Z → Z) (c : Z) : Z :=
  if c <? dp then B (file_at true c) else volume B (exp_at true (c - dp)).
Definition out_data (B : Z → Z) (r : Z) : Z :=
  if r <? dm then B (file_at false r) else volume B (exp_at false (r - dm)).

Definition par1_system (In Out : Z → Z) : Prop :=
  ∃ B, (∀ i, u8 (B i)) ∧ (∀ c, In c = in_data B c) ∧ (∀ r, Out r = out_data B r).

Lemma volume_range B e : u8 (volume B e).
Proof. apply xsum_in_range; [lia|]. intros. apply mul8_range. Qed.

Lemma volume_split B e : volume B e =
  xsum (λ c, mul8 (pow8 (file_at true c + 1) (Z.to_nat e)) (B (file_at true c))) (seqZ 0 dp)
  ⊕ xsum (λ c, mul8 (pow8 (file_at false c + 1) (Z.to_nat e)) (B (file_at false c))) (seqZ 0 dm).
Proof.
  unfold volume. rewrite <- (xsum_perm _ _ _ (column_inputs_perm flags)). unfold column_inputs. rewrite xsum_app.
  destruct Hwf as [_ [-> -> _ _ _] _ _]. f_equal; by rewrite xsum_index.
Qed.

(** Sums over the two column groups. *)
Lemma xsum_groups (f : Z → Z) a b : 0 ≤ a → 0 ≤ b →
  xsum f (seqZ 0 (a + b)) = xsum f (seqZ 0 a) ⊕ xsum (λ c, f (a + c)) (seqZ 0 b).
Proof. intros. rewrite seqZ_app, xsum_app, Z.add_0_l by done. f_equal. apply xsum_seqZ_shift. Qed.

Lemma spec_row_eq r : 0 ≤ r < outcount → row_eq outcount incount par1_system (Lspec r) (Rspec r).
Proof.
  intros Hr In Out (B & HB & HIn & HOut). pose proof counts_nonneg as (H1 & H2 & H3).
  rewrite !xsum_groups by done.
  set (e := if r <? dm then exp_at true r else exp_at false (r - dm)).
  assert (xsum (λ c, mul8 (Lspec r c) (In c)) (seqZ 0 dp)
    = xsum (λ c, mul8 (pow8 (file_at true c + 1) (Z.to_nat e)) (B (file_at true c))) (seqZ 0 dp)) as ->.
  { apply xsum_ext. intros c Hc%elem_of_seqZ. rewrite HIn. unfold in_data, Lspec, e.
    rewrite (proj2 (Z.ltb_lt c dp)) by lia. by destruct (r <? dm). }
  assert (xsum (λ c, mul8 (Rspec r c) (Out c)) (seqZ 0 dm)
    = xsum (λ c, mul8 (pow8 (file_at false c + 1) (Z.to_nat e)) (B (file_at false c))) (seqZ 0 dm)) as ->.
  { apply xsum_ext. intros c Hc%elem_of_seqZ. rewrite HOut. unfold out_data, Rspec, e.
    rewrite (proj2 (Z.ltb_lt c dm)) by lia. by destruct (r <? dm). }
  pose proof (volume_split B e) as Hvol.
  set (sp := xsum _ (seqZ 0 dp)) in *. set (sm := xsum _ (seqZ 0 dm)) in Hvol |- *.
  destruct (Z.ltb_spec r dm) as [Hlt|Hge].
  - assert (xsum (λ c, mul8 (Lspec r (dp + c)) (In (dp + c))) (seqZ 0 dm) = volume B e) as ->.
    { etrans; [|apply (xsum_single (λ c, volume B (exp_at true c)) r dm); lia]. apply xsum_ext. intros c Hc%elem_of_seqZ.
      rewrite HIn. unfold in_data, Lspec. rewrite (proj2 (Z.ltb_lt r dm)), (proj2 (Z.ltb_ge (dp + c) dp)) by lia.
      replace (dp + c - dp) with c by lia. destruct (Z.eqb_spec r c) as [->|]; case_decide; try done; try lia.
      - apply (gf_mul_1_l 8 0x11D), volume_range.
      - apply (gf_mul_0_l 8 0x11D). }
    rewrite (xsum_zeros (λ c, mul8 (Rspec r (dm + c)) (Out (dm + c)))).
    + rewrite Hvol. xor_solve.
    + intros c Hc%elem_of_seqZ. unfold Rspec. rewrite (proj2 (Z.ltb_lt r dm)), (proj2 (Z.ltb_ge (dm + c) dm)) by lia.
      apply (gf_mul_0_l 8 0x11D).
  - assert (xsum (λ c, mul8 (Rspec r (dm + c)) (Out (dm + c))) (seqZ 0 pm) = volume B e) as ->.
    { etrans; [|apply (xsum_single (λ c, volume B (exp_at false c)) (r - dm) pm); lia]. apply xsum_ext. intros c Hc%elem_of_seqZ.
      rewrite HOut. unfold out_data, Rspec. rewrite (proj2 (Z.ltb_ge r dm)), (proj2 (Z.ltb_ge (dm + c) dm)) by lia.
      replace (dm + c - dm) with c by lia. destruct (Z.eqb_spec (r - dm) c) as [<-|]; case_decide; try done; try lia.
      - apply (gf_mul_1_l 8 0x11D), volume_range.
      - apply (gf_mul_0_l 8 0x11D). }
    rewrite (xsum_zeros (λ c, mul8 (Lspec r (dp + c)) (In (dp + c)))).
    + rewrite Hvol. xor_solve.
    + intros c Hc%elem_of_seqZ. unfold Lspec. rewrite (proj2 (Z.ltb_ge r dm)), (proj2 (Z.ltb_ge (dp + c) dp)) by lia.
      apply (gf_mul_0_l 8 0x11D).
Qed.

Lemma Lspec_range r c : u8 (Lspec r c).
Proof. unfold Lspec. repeat case_match; (done || apply (gf_pow_range 8 0x11D)). Qed.
Lemma Rspec_range r c : u8 (Rspec r c).
Proof. unfold Rspec. repeat case_match; (done || apply (gf_pow_range 8 0x11D)). Qed.

Lemma start_inv l r : rep l outcount incount Lspec → rep r outcount outcount Rspec →
  gauss_inv outcount incount dm par1_system 0 l r Lspec Rspec.
Proof.
  intros Hl Hr. pose proof counts_nonneg. split; try done.
  - apply Lspec_range.
  - apply Rspec_range.
  - apply spec_row_eq.
  - intros. lia.
  - intros a c Ha Hc. unfold Rspec. rewrite (proj2 (Z.ltb_ge c dm)) by lia.
    destruct (Z.ltb_spec a dm); [by rewrite decide_False by lia|].
    destruct (Z.eqb_spec (a - dm) (c - dm)); case_decide; (done || lia).
Qed.

(** The factors recover everything that is wanted. *)
Definition par1_recovers (m : array) : Prop :=
  ∀ B, (∀ i, u8 (B i)) → ∀ r, 0 ≤ r < outcount →
    out_data B r = xsum (λ c, mul8 (default 0 (m !! (r * incount + c))) (in_data B c)) (seqZ 0 incount).

Lemma solved_recovers l r L R :
  gauss_inv outcount incount dm par1_system dm l r L R → par1_recovers l.
Proof.
  intros [H1 H2 H3 H4 H5 H6 H7] B HB a Ha. pose proof counts_nonneg.
  assert (par1_system (in_data B) (out_data B)) as HS by (by exists B).
  pose proof (H5 a Ha _ _ HS) as E.
  rewrite (xsum_ext (λ c, mul8 (default 0 (l !! (a * incount + c))) (in_data B c)) (λ c, mul8 (L a c) (in_data B c))).
  - rewrite E. rewrite <- (xsum_single (out_data B) a outcount) at 1 by lia.
    apply xsum_ext. intros c Hc%elem_of_seqZ.
    assert (R a c = if decide (a = c) then 1 else 0) as ->.
    { destruct (decide (c < dm)); [apply H6|apply H7]; (done || lia). }
    destruct (decide (c = a)) as [->|]; [rewrite decide_True by done|rewrite decide_False by done].
    + rewrite (gf_mul_1_l 8 0x11D); [done|]. unfold out_data. case_match; [apply HB|apply volume_range].
    + by rewrite (gf_mul_0_l 8 0x11D).
  - intros c Hc%elem_of_seqZ. by rewrite H1 by lia.
Qed.
End Fill.

(** [Compute] never fails on a well-formed object. *)
Lemma RS_Compute_ok flags rs : rs_wf flags rs →
  ∃ ok rs', Compute rs = Some (ok, rs') ∧
    (ok = true → datamissing rs ≤ parpresent rs ∧ 0 < datamissing rs + parmissing rs ∧
       rs' = set_leftmatrix rs (leftmatrix rs') ∧ par1_recovers flags rs (leftmatrix rs') ∧
       ∃ L, rep (leftmatrix rs') (datamissing rs + parmissing rs) (datapresent rs + datamissing rs) L ∧ ∀ r c, u8 (L r c)).
Proof.
  intros Hwf. unfold Compute. destruct (Z.ltb_spec (parpresent rs) (datamissing rs)) as [H1|H1]; [by eexists false, _|].
  destruct (Z.eqb_spec (datamissing rs + parmissing rs) 0) as [H2|H2]; [by eexists false, _|].
  pose proof (counts_nonneg flags rs Hwf) as (N1 & N2 & N3).
  destruct (fill_matrices_ok flags rs Hwf H1) as (l & r & -> & Hl & Hr). cbn [mbind option_bind].
  destruct (Z.ltb_spec 0 (datamissing rs)) as [Hdm|Hdm].
  - pose proof (start_inv flags rs Hwf l r Hl (Hr Hdm)) as Hinv. unfold GaussElim.
    destruct (solve_rows_ok (datamissing rs + parmissing rs) (datapresent rs + datamissing rs) (datamissing rs)
      (par1_system flags rs) ltac:(lia) ltac:(lia) (Z.to_nat (datamissing rs)) 0 l r _ _ ltac:(lia) ltac:(lia) ltac:(lia) Hinv)
      as (ok & l' & r' & Hrun & Hok).
    rewrite Z2Nat.id in Hrun by lia. rewrite Hrun. cbn [mbind option_bind]. eexists ok, _. split; [done|].
    intros ->. split; [done|]. split; [lia|]. split; [done|]. destruct (Hok eq_refl) as (L' & R' & Hinv').
    rewrite Z2Nat.id in Hinv' by lia. split; [by apply (solved_recovers flags rs Hwf l' r' L' R')|].
    exists L'. by destruct Hinv' as [G1 G2 G3 G4 G5 G6 G7].
  - eexists true, _. split; [done|]. intros _. split; [done|]. split; [lia|]. split; [done|]. cbn [leftmatrix set_leftmatrix].
    split; [|exists (Lspec flags rs); split; [done|apply Lspec_range]].
    intros B HB a Ha. assert (datamissing rs = 0) as Hz by lia.
    pose proof (spec_row_eq flags rs Hwf a Ha (in_data flags rs B) (out_data flags rs B)) as E.
    rewrite (xsum_ext _ (λ c, mul8 (Lspec flags rs a c) (in_data flags rs B c))).
    + rewrite E by (by exists B). rewrite <- (xsum_single (out_data flags rs B) a (datamissing rs + parmissing rs)) at 1 by lia.
      apply xsum_ext. intros c Hc%elem_of_seqZ. unfold Rspec.
      rewrite (proj2 (Z.ltb_ge a _)), (proj2 (Z.ltb_ge c _)) by lia. rewrite Hz, !Z.sub_0_r.
      destruct (Z.eqb_spec a c) as [->|]; case_decide; try done.
      * rewrite (gf_mul_1_l 8 0x11D); [done|]. unfold out_data. case_match; [apply HB|apply volume_range].
      * by rewrite (gf_mul_0_l 8 0x11D).
    + intros c Hc%elem_of_seqZ. by rewrite Hl by lia.
Qed.
