(* ===== verification/RSProcess.v ===== *)
(** * RSProcess.v: [ReedSolomon::Process] and decoding

    [InternalProcess] adds [factor * input] to the output, byte by byte, although it
    works on 32-bit words; processing every input block therefore produces exactly the
    combination of [Compute]'s factors, and repair recovers the missing data. *)

From S2P Require Import Prelude Bytes LinOp GF Galois InputCols ReedSolomon RSGauss RSCompute.

(** A buffer holding the bytes [f] in [0, size). *)
Definition holds (m : array) (size : Z) (f : Z → Z) : Prop :=
  ∀ i, 0 ≤ i < size → m !! i = Some (f i).

Lemma load32_xor m p a b c d :
  m !! p = Some a → m !! (p + 1) = Some b → m !! (p + 2) = Some c → m !! (p + 3) = Some d →
  u8 a → u8 b → u8 c → u8 d →
  load32 m p = Some (a ⊕ Z.shiftl b (8 * 1) ⊕ Z.shiftl c (8 * 2) ⊕ Z.shiftl d (8 * 3)).
Proof.
  intros H1 H2 H3 H4 Ha Hb Hc Hd. unfold load32. rewrite H1, H2, H3, H4. cbn [mbind option_bind]. f_equal.
  change (8 * 1) with 8. change (8 * 2) with 16. change (8 * 3) with 24.
  unfold in_range in *. change (2 ^ 8) with 256 in *.
  rewrite (lor_shiftl_lxor 8) by (done || split; simpl; lia). rewrite (lor_shiftl_lxor 16), (lor_shiftl_lxor 24); try done.
  - rewrite <- (lor_shiftl_lxor 8), lor_disjoint by (done || split; simpl; lia).
    rewrite lxor_disjoint; [split; simpl; lia|lia|split; simpl; lia].
  - rewrite lxor_disjoint; [split; simpl; lia|lia|split; simpl; lia].
Qed.

(** The bytes of a word given as an exclusive or of shifted bytes. *)
Lemma byte_of_word k a b c d : 0 ≤ k < 4 → u8 a → u8 b → u8 c → u8 d →
  byte_of k (a ⊕ Z.shiftl b (8 * 1) ⊕ Z.shiftl c (8 * 2) ⊕ Z.shiftl d (8 * 3))
  = if decide (k = 0) then a else if decide (k = 1) then b else if decide (k = 2) then c else d.
Proof.
  intros Hk Ha Hb Hc Hd. rewrite !byte_of_lxor.
  rewrite <- (Z.shiftl_0_r a) at 1. change 0 with (8 * 0) at 1. rewrite !byte_of_shiftl by (done || lia).
  repeat case_decide; try lia; xor_solve.
Qed.

Section Internal.
Context (glmt : array) (Hg : long_rows 65536 glmt).
Context (factor : Z) (Hf : u8 factor).
Context (inputbuffer : array) (size : Z) (a b : Z → Z) (outputbuffer : array).
Hypothesis Hsize : 0 ≤ size.
Hypothesis Hin : holds inputbuffer size a.
Hypothesis Hout : holds outputbuffer size b.
Hypothesis Ha : ∀ i, u8 (a i).
Hypothesis Hb : ∀ i, u8 (b i).

Abbreviation result i := (b i ⊕ mul8 factor (a i)).

Lemma result_range i : u8 (result i).
Proof. apply in_range_lxor; [lia|apply Hb|apply mul8_range]. Qed.

(** The bytes below [n] are done. *)
Definition processed (n : Z) (m : array) : Prop :=
  ∀ i, m !! i = if decide (0 ≤ i < n) then Some (result i) else outputbuffer !! i.

Lemma factor_table : ∃ L : array,
  for_loopM 0 256 (λ i (L : array), v ← glmt !! (Z.land factor 0xff * 256 + i); Some (<[i := v]> L)) ∅ = Some L
  ∧ ∀ s, u8 s → L !! s = Some (mul8 factor s).
Proof.
  assert (Z.land factor 0xff = factor) as ->.
  { change 0xff with (Z.ones 8). rewrite Z.land_ones, Z.mod_small by (done || lia). done. }
  destruct (for_loopM_ind (λ i (L : array), ∀ s, 0 ≤ s < i → L !! s = Some (mul8 factor s)) 0 256
    (λ i (L : array), v ← glmt !! (factor * 256 + i); Some (<[i := v]> L)) ∅) as (L & HL & HL').
  - lia.
  - intros s. lia.
  - intros i L Hi IH. unfold in_range in Hf. change (2 ^ 8) with 256 in Hf.
    rewrite Hg by lia. cbn [mbind option_bind]. eexists. split; [done|]. intros s Hs.
    destruct (decide (s = i)) as [->|]; [by rewrite lookup_insert_eq|]. rewrite lookup_insert_ne by done. apply IH. lia.
  - exists L. split; [done|]. intros s Hs. apply HL'. apply Hs.
Qed.

Section Loops.
Context (L : array) (HL : ∀ s, u8 s → L !! s = Some (mul8 factor s)).

Lemma process_byte_ok p m : 0 ≤ p < size → processed p m →
  ∃ m', process_byte L inputbuffer p m = Some m' ∧ processed (p + 1) m'.
Proof.
  intros Hp Hm. unfold process_byte. rewrite Hin by done. cbn [mbind option_bind].
  rewrite Hm, decide_False, Hout by lia. cbn [mbind option_bind]. rewrite HL by apply Ha. cbn [mbind option_bind].
  eexists. split; [done|]. intros i. rewrite wrap_small by apply result_range.
  destruct (decide (i = p)) as [->|Hne].
  - by rewrite lookup_insert_eq, decide_True by lia.
  - rewrite lookup_insert_ne, Hm by done. repeat case_decide; (done || lia).
Qed.

Lemma process_word_ok w m : 0 ≤ w → 4 * w + 4 ≤ size → processed (4 * w) m →
  ∃ m', process_word L inputbuffer w m = Some m' ∧ processed (4 * (w + 1)) m'.
Proof.
  intros Hw Hle Hm. set (p := 4 * w) in *.
  assert (∀ k, 0 ≤ k < 4 → m !! (p + k) = Some (b (p + k))) as Hmk.
  { intros k Hk. rewrite Hm, decide_False, Hout by lia. done. }
  assert (m !! p = Some (b p)) as Hm0 by (rewrite Hm, decide_False, Hout by lia; done).
  unfold process_word. fold p.
  rewrite (load32_xor inputbuffer p (a p) (a (p + 1)) (a (p + 2)) (a (p + 3)));
    [|apply Hin; lia..|apply Ha|apply Ha|apply Ha|apply Ha]. cbn [mbind option_bind].
  rewrite (load32_xor m p (b p) (b (p + 1)) (b (p + 2)) (b (p + 3)));
    [|done|apply Hmk; lia..|apply Hb|apply Hb|apply Hb|apply Hb]. cbn [mbind option_bind].
  set (sw := a p ⊕ _ ⊕ _ ⊕ _). set (dw := b p ⊕ _ ⊕ _ ⊕ _).
  assert (∀ k, 0 ≤ k < 4 → byte_of k sw = a (p + k)) as Hsw.
  { intros k Hk. unfold sw. rewrite byte_of_word by (done || apply Ha).
    repeat case_decide; f_equal; lia. }
  assert (∀ k, 0 ≤ k < 4 → byte_of k dw = b (p + k)) as Hdw.
  { intros k Hk. unfold dw. rewrite byte_of_word by (done || apply Hb).
    repeat case_decide; f_equal; lia. }
  assert (Z.land sw 0xff = byte_of 0 sw) as ->. { unfold byte_of. by rewrite Z.shiftr_0_r. }
  change (Z.land (Z.shiftr sw 8) 0xff) with (byte_of 1 sw). change (Z.land (Z.shiftr sw 16) 0xff) with (byte_of 2 sw).
  change (Z.land (Z.shiftr sw 24) 0xff) with (byte_of 3 sw). rewrite !Hsw by lia.
  rewrite Z.add_0_r. rewrite !HL by apply Ha. cbn [mbind option_bind]. eexists. split; [done|].
  assert (∀ v j, u8 v → 0 ≤ j < 4 → wrap 32 (Z.shiftl v (8 * j)) = Z.shiftl v (8 * j)) as Hwrap.
  { intros v j Hv Hj. apply wrap_small. rewrite Z.shiftl_mul_pow2 by lia. unfold in_range in *.
    assert (0 < 2 ^ (8 * j) ≤ 2 ^ 24) by (split; [apply Z.pow_pos_nonneg; lia|apply Z.pow_le_mono_r; lia]).
    change (2 ^ 8) with 256 in Hv. change (2 ^ 32) with (256 * 2 ^ 24). nia. }
  change 8 with (8 * 1) at 1. change 16 with (8 * 2) at 1. change 24 with (8 * 3) at 1.
  rewrite !Hwrap by (lia || apply mul8_range).
  set (lw := mul8 factor (a p) ⊕ _ ⊕ _ ⊕ _).
  assert (∀ k, 0 ≤ k < 4 → byte_of k (dw ⊕ lw) = result (p + k)) as Hres.
  { intros k Hk. rewrite byte_of_lxor, Hdw by done. f_equal. unfold lw. rewrite byte_of_word by (done || apply mul8_range).
    repeat case_decide; do 2 f_equal; lia. }
  set (v := dw ⊕ lw) in *. unfold store32.
  assert (Z.land v 0xff = byte_of 0 v) as ->. { unfold byte_of. by rewrite Z.shiftr_0_r. }
  change (Z.land (Z.shiftr v 8) 0xff) with (byte_of 1 v). change (Z.land (Z.shiftr v 16) 0xff) with (byte_of 2 v).
  change (Z.land (Z.shiftr v 24) 0xff) with (byte_of 3 v). rewrite !Hres by lia. rewrite Z.add_0_r.
  intros i. destruct (decide (i = p + 3)) as [->|H3]; [by rewrite lookup_insert_eq, decide_True by lia|].
  rewrite lookup_insert_ne by done. destruct (decide (i = p + 2)) as [->|H2]; [by rewrite lookup_insert_eq, decide_True by lia|].
  rewrite lookup_insert_ne by done. destruct (decide (i = p + 1)) as [->|H1]; [by rewrite lookup_insert_eq, decide_True by lia|].
  rewrite lookup_insert_ne by done. destruct (decide (i = p)) as [->|H0]; [by rewrite lookup_insert_eq, decide_True by lia|].
  rewrite lookup_insert_ne, Hm by done. repeat case_decide; (done || lia).
Qed.
End Loops.

Lemma InternalProcess_ok : ∃ m', InternalProcess glmt factor size inputbuffer outputbuffer = Some m' ∧ processed size m'.
Proof.
  unfold InternalProcess. destruct factor_table as (L & -> & HL). cbn [mbind option_bind].
  assert (0 ≤ size / 4) by (apply Z.div_pos; lia). pose proof (Z.div_mod size 4). pose proof (Z.mod_pos_bound size 4) as Hmod.
  destruct (for_loopM_ind (λ w m, processed (4 * w) m) 0 (size / 4) (process_word L inputbuffer) outputbuffer)
    as (m1 & -> & Hm1).
  - done.
  - intros i. by rewrite decide_False by lia.
  - intros w m Hw Hm. apply process_word_ok; (done || lia).
  - cbn [mbind option_bind]. destruct (Z.eqb_spec (size mod 4) 0) as [E|E].
    + exists m1. split; [done|]. by replace size with (4 * (size / 4)) by lia.
    + apply (for_loopM_ind processed); [lia| |].
      * by replace (size / 4 * 4) with (4 * (size / 4)) by lia.
      * intros p m Hp Hm. apply process_byte_ok; (done || lia).
Qed.
End Internal.

(** Adding nothing leaves the buffer as it is. *)
Lemma holds_ext m size f g : (∀ i, 0 ≤ i < size → f i = g i) → holds m size f → holds m size g.
Proof. intros H Hm i Hi. by rewrite Hm, H. Qed.

(** One call adds the input, multiplied by the matrix entry. *)
Lemma Process_ok rs size c inputbuffer r outputbuffer f a b :
  long_rows 65536 (glmt rs) → GetFactor rs c r = Some f → u8 f → 0 ≤ size →
  holds inputbuffer size a → holds outputbuffer size b → (∀ i, u8 (a i)) → (∀ i, u8 (b i)) →
  ∃ m, Process rs size c inputbuffer r outputbuffer = Some m ∧ holds m size (λ i, b i ⊕ mul8 f (a i)).
Proof.
  intros Hg Hfac Hf Hsize Hin Hout Ha Hb. unfold Process. rewrite Hfac. cbn [mbind option_bind].
  destruct (Z.eqb_spec f 0) as [->|Hne].
  - eexists. split; [done|]. eapply holds_ext; [|exact Hout]. intros i _. simpl.
    by rewrite (gf_mul_0_l 8 0x11D), Z.lxor_0_r.
  - destruct (InternalProcess_ok (glmt rs) Hg f Hf inputbuffer size a b outputbuffer Hsize Hin Hout Ha Hb) as (m & -> & Hm).
    exists m. split; [done|]. intros i Hi. by rewrite Hm, decide_True by lia.
Qed.

(** ** [gcd] *)

Lemma gcd_loop_ok fuel a b : 0 ≤ a → 0 ≤ b → a + b < Z.of_nat fuel →
  ∃ a' b', gcd_loop fuel a b = Some (a', b') ∧ a' + b' = Z.gcd a b ∧ 0 ≤ a' ∧ 0 ≤ b'.
Proof.
  revert a b. induction fuel as [|fuel IH]; intros a b Ha Hb Hf; [lia|]. cbn [gcd_loop].
  destruct (Z.eqb_spec a 0) as [->|Ha0]; cbn [negb andb].
  { exists 0, b. by rewrite Z.gcd_0_l, Z.abs_eq by lia. }
  destruct (Z.eqb_spec b 0) as [->|Hb0]; cbn [negb].
  { exists a, 0. rewrite Z.gcd_0_r, Z.abs_eq by lia. split; [done|]. lia. }
  destruct (Z.ltb_spec b a).
  - pose proof (Z.mod_pos_bound a b). destruct (IH (a mod b) b) as (a' & b' & -> & E & ?); [lia..|].
    exists a', b'. split; [done|]. split; [|done]. by rewrite E, Z.gcd_mod, Z.gcd_comm.
  - pose proof (Z.mod_pos_bound b a). destruct (IH a (b mod a)) as (a' & b' & -> & E & ?); [lia..|].
    exists a', b'. split; [done|]. split; [|done]. by rewrite E, Z.gcd_comm, Z.gcd_mod.
Qed.

Lemma gcd_ok a b : in_range 32 a → in_range 32 b →
  gcd a b = Some (if decide (a = 0 ∨ b = 0) then 0 else Z.gcd a b).
Proof.
  intros [Ha Ha'] [Hb Hb']. unfold gcd.
  destruct (Z.eqb_spec a 0) as [->|Ha0]; cbn [negb andb]; [by rewrite decide_True by auto|].
  destruct (Z.eqb_spec b 0) as [->|Hb0]; cbn [negb]; [by rewrite decide_True by auto|]. rewrite decide_False by lia.
  destruct (gcd_loop_ok (Z.to_nat (a + b) + 1) a b) as (a' & b' & -> & E & ?); [lia..|]. cbn [mbind option_bind].
  rewrite E, wrap_small; [done|]. split; [apply Z.gcd_nonneg|].
  assert (Z.gcd a b ≤ a); [|lia]. apply Z.divide_pos_le; [lia|apply Z.gcd_divide_l].
Qed.

(** C36: [InternalProcess] adds the product of the factor and each input byte to the
    corresponding output byte and changes nothing else, although it works on 32-bit words
    with a final byte loop and reads the product from a table. *)
Theorem InternalProcess_correct (t : array) (factor size : Z) (inputbuffer outputbuffer : array) (a b : Z → Z) :
  GaloisLongMultiplyTable 8 galois8_table = Some t → u8 factor → 0 ≤ size →
  holds inputbuffer size a → holds outputbuffer size b → (∀ i, u8 (a i)) → (∀ i, u8 (b i)) →
  ∃ m, InternalProcess t factor size inputbuffer outputbuffer = Some m ∧
    ∀ i, m !! i = if decide (0 ≤ i < size) then Some (b i ⊕ mul8 factor (a i)) else outputbuffer !! i.
Proof.
  intros Ht Hf Hs Hin Hout Ha Hb. destruct GaloisLongMultiplyTable_ok as (t' & Ht' & Hrows).
  rewrite Ht in Ht'. apply Some_inj in Ht'. subst t'. clear Ht.
  exact (InternalProcess_ok t Hrows factor Hf inputbuffer size a b outputbuffer Hs Hin Hout Ha Hb).
Qed.

Lemma InternalProcess_correct_witness : ∃ t m,
  GaloisLongMultiplyTable 8 galois8_table = Some t ∧
  InternalProcess t 3 1 (<[0 := 200]> ∅) (<[0 := 5]> ∅) = Some m ∧ m !! 0 = Some (5 ⊕ mul8 3 200).
Proof.
  destruct GaloisLongMultiplyTable_ok as (t & Ht & _). exists t.
  destruct (InternalProcess_correct t 3 1 (<[0 := 200]> ∅) (<[0 := 5]> ∅) (λ _, 200) (λ _, 5) Ht) as (m & Hm & Hlk).
  - split; lia.
  - lia.
  - clear Ht. intros i Hi. by replace i with 0 by lia.
  - clear Ht. intros i Hi. by replace i with 0 by lia.
  - intros i. split; lia.
  - intros i. split; lia.
  - exists m. split; [exact Ht|]. split; [exact Hm|]. exact (Hlk 0).
Defined.
