(* ===== verification/Par1Matrix.v ===== *)
(** * Par1Matrix.v: the repair computation of [Par1Repairer] (src/par1repairer.cpp)

    [ComputeRSmatrix] selects the blocks to read and builds the matrix,
    [AllocateBuffers] chooses the chunk size, the loop of [Process] cuts the block into
    chunks and the inner loops of [ProcessData] run every input block through the matrix.
    Blocks are abstract ([Block]) in the selection and buffers in the processing. *)

From S2P Require Import Prelude Bytes LinOp GF Galois InputCols ReedSolomon RSGauss RSCompute RSProcess.

(** ** [ComputeRSmatrix] *)

Section ComputeRSmatrix.
Context {Block : Type} (Open : Block → bool).

(** The loop over the source files: which are present, and the blocks to read; [None]
    when a block cannot be opened. *)
Fixpoint scan_sources (sources : list (option Block)) : option (list bool * list Block) :=
  match sources with
  | [] => Some ([], [])
  | Some b :: sources =>
      if Open b then '(pres, ins) ← scan_sources sources; Some (true :: pres, b :: ins) else None
  | None :: sources => '(pres, ins) ← scan_sources sources; Some (false :: pres, ins)
  end.

(** The loop over the recovery blocks, in ascending exponent order, until the list of
    input blocks is full ([todo] more); [None] when the map is exhausted, where the code
    dereferences its end. *)
Fixpoint use_recovery (todo : nat) (recoveryblocks : list (Z * Block)) (rs : ReedSolomon) (ins : list Block)
    : option (bool * ReedSolomon * list Block) :=
  match todo with
  | O => Some (true, rs, ins)
  | S todo =>
      match recoveryblocks with
      | [] => None
      | (e, b) :: recoveryblocks =>
          if Open b then use_recovery todo recoveryblocks (SetOutput rs true (wrap 16 e)) (ins ++ [b])
          else Some (false, rs, ins)
      end
  end.

Definition ComputeRSmatrix (rs : ReedSolomon) (sources : list (option Block)) (recoveryblocks : list (Z * Block))
    (verifylist : nat) : option (bool * ReedSolomon * list Block) :=
  match scan_sources sources with
  | None => Some (false, rs, [])
  | Some (pres, ins) =>
      let rs := SetInput rs pres in
      '(ok, rs, ins) ← use_recovery (length sources - length ins) recoveryblocks rs ins;
      if negb ok then Some (false, rs, ins) else
      if Nat.eqb verifylist 0 then Some (true, rs, ins) else
      '(ok, rs) ← Compute rs;
      Some (ok, rs, ins)
  end.
End ComputeRSmatrix.

(** ** [AllocateBuffers] and the chunk loop of [Process] *)

(** [chunksize]: [~3 & (memorylimit / verifylist.size())] when one pass is too large; the
    product is 64 bits wide. *)
Definition AllocateBuffers_chunksize (blocksize verifylist memorylimit : Z) : Z :=
  if memorylimit <? wrap 64 (blocksize * verifylist) then
    Z.land (wrap 64 (Z.lnot 3)) (memorylimit / verifylist)
  else blocksize.

(** [(inputbuffersize + sizeof(u32)-1) & ~(sizeof(u32)-1)] *)
Definition outputbufferalignment (inputbuffersize : Z) : Z :=
  Z.land (inputbuffersize + 3) (wrap 64 (Z.lnot 3)).

(** [while (blockoffset < blocksize) { ... blockoffset += blocklength; }]: the chunks
    processed, as offset and length; [None] when the fuel runs out. *)
Fixpoint chunk_loop (fuel : nat) (chunksize blocksize blockoffset : Z) : option (list (Z * Z)) :=
  if blockoffset <? blocksize then
    match fuel with
    | O => None
    | S fuel =>
        let blocklength := Z.min chunksize (blocksize - blockoffset) in
        rest ← chunk_loop fuel chunksize blocksize (blockoffset + blocklength);
        Some ((blockoffset, blocklength) :: rest)
    end
  else Some [].

(** ** [ProcessData] *)

(** The loop over the output blocks. *)
Fixpoint process_outputs (rs : ReedSolomon) (size inputindex : Z) (inputbuffer : array) (outputindex : Z)
    (outs : list array) : option (list array) :=
  match outs with
  | [] => Some []
  | o :: outs =>
      o ← Process rs size inputindex inputbuffer outputindex o;
      outs ← process_outputs rs size inputindex inputbuffer (outputindex + 1) outs;
      Some (o :: outs)
  end.

(** The loop over the input blocks, each given by the buffer [ReadData] fills. *)
Fixpoint process_inputs (rs : ReedSolomon) (size inputindex : Z) (ins : list array) (outs : list array)
    : option (list array) :=
  match ins with
  | [] => Some outs
  | i :: ins =>
      outs ← process_outputs rs size inputindex i 0 outs;
      process_inputs rs size (inputindex + 1) ins outs
  end.

(** The processing of one chunk: the output buffers start cleared. *)
Definition ProcessData (rs : ReedSolomon) (size : Z) (ins : list array) (verifylist : nat) : option (list array) :=
  if Nat.eqb verifylist 0 then Some [] else
  process_inputs rs size 0 ins (replicate verifylist (zeros (outputbufferalignment size))).

(** ** The chunks *)

(** The chunks cover [lo, hi) without gap or overlap, each of them non-empty and no longer
    than the buffer. *)
Inductive chunks_cover (chunksize : Z) : Z → Z → list (Z * Z) → Prop :=
  | cover_nil hi : chunks_cover chunksize hi hi []
  | cover_cons lo len hi rest : 0 < len ≤ chunksize → chunks_cover chunksize (lo + len) hi rest →
      chunks_cover chunksize lo hi ((lo, len) :: rest).

Lemma chunk_loop_ok fuel chunksize blocksize off : 0 < chunksize → off ≤ blocksize →
  blocksize - off ≤ Z.of_nat fuel * chunksize →
  ∃ l, chunk_loop fuel chunksize blocksize off = Some l ∧ chunks_cover chunksize off blocksize l.
Proof.
  intros Hc. revert off. induction fuel as [|fuel IH]; intros off Hoff Hf; cbn [chunk_loop].
  - rewrite (proj2 (Z.ltb_ge off blocksize)) by lia. exists []. split; [done|].
    replace off with blocksize by lia. constructor.
  - destruct (Z.ltb_spec off blocksize).
    + destruct (IH (off + Z.min chunksize (blocksize - off))) as (l & -> & Hl); [lia|nia|].
      cbn [mbind option_bind]. eexists. split; [done|]. constructor; [lia|done].
    + exists []. split; [done|]. replace off with blocksize by lia. constructor.
Qed.

(** ** One input block *)

Lemma process_outputs_ok rs size c inputbuffer a L :
  long_rows 65536 (glmt rs) → 0 ≤ size → holds inputbuffer size a → (∀ i, u8 (a i)) →
  ∀ outs r0 (b : nat → Z → Z),
  (∀ r, (r < length outs)%nat → GetFactor rs c (r0 + Z.of_nat r) = Some (L (r0 + Z.of_nat r)) ∧ u8 (L (r0 + Z.of_nat r))) →
  (∀ r o, outs !! r = Some o → holds o size (b r)) → (∀ r i, u8 (b r i)) →
  ∃ outs', process_outputs rs size c inputbuffer r0 outs = Some outs' ∧ length outs' = length outs ∧
    ∀ r o, outs' !! r = Some o → holds o size (λ i, b r i ⊕ mul8 (L (r0 + Z.of_nat r)) (a i)).
Proof.
  intros Hg Hs Hin Ha. induction outs as [|o outs IH]; intros r0 b HL Hb Hbr; cbn [process_outputs].
  { exists []. by split_and!. }
  destruct (HL 0%nat) as [F0 F1]; [simpl; lia|]. rewrite Z.add_0_r in F0, F1.
  destruct (Process_ok rs size c inputbuffer r0 o _ a (b 0%nat) Hg F0 F1 Hs Hin (Hb 0%nat o eq_refl) Ha (Hbr 0%nat))
    as (o' & -> & Ho'). cbn [mbind option_bind].
  destruct (IH (r0 + 1) (λ r, b (S r))) as (outs' & -> & Hlen & Hout').
  - intros r Hr. replace (r0 + 1 + Z.of_nat r) with (r0 + Z.of_nat (S r)) by lia. apply HL. simpl. lia.
  - intros r x Hx. by apply Hb.
  - intros r. apply Hbr.
  - cbn [mbind option_bind]. exists (o' :: outs'). split; [done|]. split; [simpl; lia|].
    intros [|r] x Hx; simpl in Hx.
    + simplify_eq. by rewrite Z.add_0_r.
    + replace (r0 + Z.of_nat (S r)) with (r0 + 1 + Z.of_nat r) by lia. by apply (Hout' r).
Qed.

(** ** All input blocks *)

Lemma process_inputs_ok rs size (L : Z → Z → Z) n (a : Z → Z → Z) :
  long_rows 65536 (glmt rs) → 0 ≤ size → (∀ c i, u8 (a c i)) → (∀ r c, u8 (L r c)) →
  ∀ ins c0 outs (b : nat → Z → Z), 0 ≤ c0 →
  (∀ r c, (r < n)%nat → 0 ≤ c < c0 + Z.of_nat (length ins) → GetFactor rs c (Z.of_nat r) = Some (L (Z.of_nat r) c)) →
  length outs = n →
  (∀ c m, ins !! c = Some m → holds m size (a (c0 + Z.of_nat c))) →
  (∀ r o, outs !! r = Some o → holds o size (b r)) → (∀ r i, u8 (b r i)) →
  ∃ outs', process_inputs rs size c0 ins outs = Some outs' ∧ length outs' = n ∧
    ∀ r o, outs' !! r = Some o → holds o size (λ i,
      b r i ⊕ xsum (λ c, mul8 (L (Z.of_nat r) c) (a c i)) (seqZ c0 (Z.of_nat (length ins)))).
Proof.
  intros Hg Hs Ha HL. induction ins as [|m ins IH]; intros c0 outs b Hc0 HF Hn Hins Houts Hb; cbn [process_inputs].
  { exists outs. split_and!; [done..|]. intros r o Ho. eapply holds_ext; [|by apply Houts].
    intros i _. simpl. by rewrite Z.lxor_0_r. }
  destruct (process_outputs_ok rs size c0 m (a c0) (λ r, L r c0) Hg Hs) with (outs := outs) (r0 := 0) (b := b)
    as (outs1 & -> & Hlen1 & Hout1).
  - rewrite <- (Z.add_0_r c0). by apply (Hins 0%nat).
  - done.
  - intros r Hr. rewrite Z.add_0_l. split; [|done]. apply HF; simpl; lia.
  - done.
  - done.
  - cbn [mbind option_bind].
    destruct (IH (c0 + 1) outs1 (λ r i, b r i ⊕ mul8 (L (Z.of_nat r) c0) (a c0 i))) as (outs' & -> & Hlen' & Hout').
    + lia.
    + intros r c Hr Hc. apply HF; [done|]. simpl. lia.
    + lia.
    + intros c x Hx. replace (c0 + 1 + Z.of_nat c) with (c0 + Z.of_nat (S c)) by lia. by apply Hins.
    + intros r o Ho. eapply holds_ext; [|by apply Hout1]. intros i _. simpl. by rewrite Z.add_0_l.
    + intros r i. apply in_range_lxor; [lia|done|apply mul8_range].
    + exists outs'. split_and!; [done..|]. intros r o Ho. eapply holds_ext; [|by apply Hout'].
      intros i _. cbn beta. cbn [length]. rewrite Nat2Z.inj_succ, (seqZ_cons c0) by lia.
      replace (Z.pred (Z.succ (Z.of_nat (length ins)))) with (Z.of_nat (length ins)) by lia.
      rewrite xsum_cons, <- Z.lxor_assoc. f_equal.
Qed.

(** ** The selection of the blocks *)

Definition found {A} (sources : list (option A)) : list bool := (λ s, bool_decide (is_Some s)) <$> sources.

Lemma length_found {A} (sources : list (option A)) : length (found sources) = length sources.
Proof. apply length_fmap. Qed.

Lemma scan_sources_ok {A} Open (sources : list (option A)) rest k pres ins :
  drop k sources = rest → scan_sources Open rest = Some (pres, ins) →
  pres = found rest ∧
  Forall2 (λ i b, sources !! Z.to_nat i = Some (Some b))
    (filter (λ i, is_valid (found sources) i = true) (seqZ (Z.of_nat k) (Z.of_nat (length rest)))) ins.
Proof.
  revert k pres ins. induction rest as [|s rest IH]; intros k pres ins Hd Hscan; cbn [scan_sources] in Hscan.
  { simplify_eq. split; [done|]. constructor. }
  assert (sources !! k = Some s) as Hk. { rewrite <- (Nat.add_0_r k), <- lookup_drop, Hd. done. }
  assert (drop (S k) sources = rest) as Hd'. { rewrite <- Nat.add_1_r, <- drop_drop, Hd. done. }
  cbn [length]. rewrite Nat2Z.inj_succ, seqZ_cons, filter_cons by lia.
  replace (Z.pred _) with (Z.of_nat (length rest)) by lia. rewrite <- Nat2Z.inj_succ.
  assert (is_valid (found sources) (Z.of_nat k) = bool_decide (is_Some s)) as Hv.
  { unfold is_valid, found. by rewrite Nat2Z.id, list_lookup_fmap, Hk. }
  rewrite Hv. destruct s as [b|].
  - destruct (Open b); [|done].
    destruct (scan_sources Open rest) as [[pres' ins']|] eqn:E; [|done]. cbn [mbind option_bind] in Hscan.
    destruct (IH (S k) pres' ins' Hd' eq_refl) as [-> HF]. simplify_eq. rewrite decide_True by done.
    split; [done|]. constructor; [by rewrite Nat2Z.id|done].
  - destruct (scan_sources Open rest) as [[pres' ins']|] eqn:E; [|done]. cbn [mbind option_bind] in Hscan.
    destruct (IH (S k) pres' ins' Hd' eq_refl) as [-> HF]. simplify_eq. rewrite decide_False by done. by split.
Qed.

(** The recovery blocks used are the first ones, in order. *)
Lemma use_recovery_ok {A} Open flags todo (recoveryblocks : list (Z * A)) rs ins rs' ins' :
  rs_wf flags rs → Forall (λ '(e, _), 0 ≤ e ≤ 256) recoveryblocks →
  use_recovery Open todo recoveryblocks rs ins = Some (true, rs', ins') →
  rs_wf flags rs' ∧ (todo ≤ length recoveryblocks)%nat ∧ ins' = ins ++ (snd <$> take todo recoveryblocks) ∧
  exps_with true (outputrows rs') = exps_with true (outputrows rs) ++ (fst <$> take todo recoveryblocks) ∧
  exps_with false (outputrows rs') = exps_with false (outputrows rs) ∧
  datapresent rs' = datapresent rs ∧ datamissing rs' = datamissing rs.
Proof.
  revert recoveryblocks rs ins. induction todo as [|todo IH]; intros rec rs ins Hwf Hexp Hrun; cbn [use_recovery] in Hrun.
  { simplify_eq. rewrite take_0. cbn [fmap list_fmap]. rewrite !app_nil_r. split_and!; (done || lia). }
  destruct rec as [|[e b] rec]; [done|]. apply Forall_cons in Hexp as [He Hexp].
  destruct (Open b); [|done].
  assert (wrap 16 e = e) as Hw by (apply wrap_small; split; simpl; lia). rewrite Hw in Hrun.
  apply IH in Hrun as (H1 & H2 & H3 & H4 & H5 & H6 & H7); [|by apply SetOutput_ok|done].
  split_and!; [done|simpl; lia| | |..].
  - rewrite H3, <- app_assoc. done.
  - rewrite H4. cbn [outputrows SetOutput]. rewrite exps_with_snoc. cbn [present exponent Bool.eqb]. by rewrite <- app_assoc.
  - rewrite H5. cbn [outputrows SetOutput]. rewrite exps_with_snoc. cbn [present Bool.eqb]. by rewrite app_nil_r.
  - by rewrite H6.
  - by rewrite H7.
Qed.

(** ** Repair *)

Lemma land_not_3 x : 0 ≤ x < 2 ^ 64 → Z.land x (wrap 64 (Z.lnot 3)) = x / 4 * 4.
Proof.
  intros Hx. change (wrap 64 (Z.lnot 3)) with (Z.shiftl (Z.ones 62) 2).
  transitivity (Z.shiftl (Z.shiftr x 2) 2).
  - apply Z.bits_inj'. intros i Hi. rewrite Z.land_spec, !Z.shiftl_spec by done.
    destruct (decide (i < 2)); [rewrite !(Z.testbit_neg_r _ (i - 2)) by lia; by rewrite andb_false_r|].
    rewrite Z.shiftr_spec by lia. replace (i - 2 + 2) with i by lia.
    destruct (decide (i < 64)).
    + rewrite Z.ones_spec_low by lia. by rewrite andb_true_r.
    + rewrite (testbit_above 64 x) by (split; simpl; lia). done.
  - rewrite Z.shiftl_mul_pow2, Z.shiftr_div_pow2 by lia. done.
Qed.

Lemma zeros_holds size n : 0 ≤ size ≤ n → holds (zeros n) size (λ _, 0).
Proof.
  intros Hn i Hi. pose proof (zeros_ok 1 n ltac:(lia) ltac:(lia) 0 i ltac:(lia) ltac:(lia)) as H.
  by rewrite Z.mul_1_l, Z.mul_0_l, Z.add_0_l in H.
Qed.

Section Repair.
Context (Open : array → bool) (sources : list (option array)) (recoveryblocks : list (Z * array)) (size : Z) (B : Z → Z → Z).
Abbreviation flags := (found sources).
Hypothesis Hcount : Z.of_nat (length sources) ≤ 255.
Hypothesis Hsize : 0 ≤ size < 2 ^ 64 - 3.
Hypothesis HB : ∀ k i, u8 (B k i).
Hypothesis Hexps : Forall (λ '(e, _), 0 ≤ e ≤ 256) recoveryblocks.
Hypothesis Hsources : ∀ i m, sources !! i = Some (Some m) → holds m size (λ k, B k (Z.of_nat i)).
Hypothesis Hvolumes : ∀ e m, (e, m) ∈ recoveryblocks → holds m size (λ k, volume flags (B k) e).

(** What is selected is what the matrix expects. *)
Lemma selected_in_data rs ins0 todo :
  scan_sources Open sources = Some (flags, ins0) → rs_wf flags rs → (todo ≤ length recoveryblocks)%nat →
  exps_with true (outputrows rs) = fst <$> take todo recoveryblocks →
  ∀ c m, (ins0 ++ (snd <$> take todo recoveryblocks)) !! c = Some m →
    holds m size (λ k, in_data flags rs (B k) (Z.of_nat c)).
Proof.
  intros Hscan Hwf Htodo Hex c m Hc.
  destruct (scan_sources_ok _ sources sources 0 _ _ eq_refl Hscan) as [_ HF].
  assert (length ins0 = Z.to_nat (datapresent rs)) as Hlen.
  { destruct Hwf as [_ [H1 _ _ _ _] _ _]. rewrite H1. rewrite <- (Forall2_length _ _ _ HF).
    rewrite Nat2Z.id. unfold inputs_with. by rewrite length_found. }
  pose proof (counts_nonneg _ _ Hwf) as (N1 & _ & _).
  unfold in_data. apply lookup_app_Some in Hc as [Hc|[Hge Hc]].
  - pose proof (lookup_lt_Some _ _ _ Hc). rewrite (proj2 (Z.ltb_lt (Z.of_nat c) (datapresent rs))) by lia.
    destruct (Forall2_lookup_r _ _ _ _ _ HF Hc) as (i & Hi & Hsrc). pose proof (Hsources _ _ Hsrc) as Hm.
    assert (0 ≤ i) as Hi0.
    { apply list_elem_of_lookup_2, list_elem_of_filter in Hi as [_ Hi]. apply elem_of_seqZ in Hi. lia. }
    assert (file_at flags true (Z.of_nat c) = i) as ->; [|by rewrite Z2Nat.id in Hm].
    unfold file_at, inputs_with. rewrite length_found, Nat2Z.id. change (Z.of_nat 0) with 0 in Hi.
    by rewrite Hi.
  - rewrite (proj2 (Z.ltb_ge (Z.of_nat c) (datapresent rs))) by lia.
    rewrite list_lookup_fmap in Hc. destruct (take todo recoveryblocks !! _) as [[e m']|] eqn:E; [|done].
    simpl in Hc. simplify_eq. assert (exp_at rs true (Z.of_nat c - datapresent rs) = e) as ->.
    { unfold exp_at. rewrite Hex, list_lookup_fmap.
      replace (Z.to_nat (Z.of_nat c - datapresent rs)) with (c - length ins0)%nat by lia. by rewrite E. }
    apply Hvolumes. apply lookup_take_Some in E as [E _]. by eapply list_elem_of_lookup_2.
Qed.

Abbreviation missing := (inputs_with flags false (Z.of_nat (length flags))).

(** The number of blocks read is the number of columns. *)
Lemma selected_length rs ins0 todo :
  scan_sources Open sources = Some (flags, ins0) → rs_wf flags rs → todo = (length sources - length ins0)%nat →
  (todo ≤ length recoveryblocks)%nat →
  Z.of_nat (length (ins0 ++ (snd <$> take todo recoveryblocks))) = datapresent rs + datamissing rs.
Proof.
  intros Hscan Hwf -> Htodo.
  destruct (scan_sources_ok _ sources sources 0 _ _ eq_refl Hscan) as [_ HF%Forall2_length].
  destruct Hwf as [_ [H1 H2 _ _ _] _ _]. rewrite H1, H2. pose proof (length_column_inputs flags) as Hcols.
  unfold column_inputs in Hcols. rewrite length_app, length_found in Hcols.
  unfold inputs_with in Hcols |- *. rewrite length_found.
  rewrite length_app, length_fmap, length_take. change (Z.of_nat 0) with 0 in HF. lia.
Qed.

(** The matrix expresses the missing files in terms of the blocks read. *)
Lemma ComputeRSmatrix_ok rs0 rs ins :
  outputs_wf rs0 → long_rows 65536 (glmt rs0) → datapresent rs0 = 0 → datamissing rs0 = 0 → outputrows rs0 = [] →
  (0 < length missing)%nat →
  ComputeRSmatrix Open rs0 sources recoveryblocks (length missing) = Some (true, rs, ins) →
  ∃ rs2 L, rs_wf flags rs2 ∧ long_rows 65536 (glmt rs) ∧ (∀ r c, u8 (L r c)) ∧
    (∀ r c, 0 ≤ r < Z.of_nat (length missing) → 0 ≤ c < Z.of_nat (length ins) → GetFactor rs c r = Some (L r c)) ∧
    (∀ c m, ins !! c = Some m → holds m size (λ k, in_data flags rs2 (B k) (Z.of_nat c))) ∧
    ∀ k r i, missing !! r = Some i →
      B k i = xsum (λ c, mul8 (L (Z.of_nat r) c) (in_data flags rs2 (B k) c)) (seqZ 0 (Z.of_nat (length ins))).
Proof.
  intros Ho Hg Hdp Hdm Hor Hpos Hrun.
  unfold ComputeRSmatrix in Hrun. destruct (scan_sources Open sources) as [[pres ins0]|] eqn:Hscan; [|congruence].
  destruct (scan_sources_ok Open sources sources 0 _ _ eq_refl Hscan) as [-> _].
  destruct (SetInput_ok flags rs0 Hdp Hdm) as [Hwf1 Hor1]; [by rewrite length_found|done..|].
  set (rs1 := SetInput rs0 flags) in *.
  destruct (use_recovery Open _ recoveryblocks rs1 ins0) as [[[ok rs2] ins2]|] eqn:Huse; [|done].
  cbn [mbind option_bind] in Hrun. destruct ok; cbn [negb] in Hrun; [|congruence].
  destruct (Nat.eqb_spec (length missing) 0); [lia|].
  destruct (use_recovery_ok Open flags _ recoveryblocks rs1 ins0 rs2 ins2 Hwf1 Hexps Huse)
    as (Hwf2 & Htodo & Hins & Hex1 & Hex0 & _ & _).
  destruct (RS_Compute_ok flags rs2 Hwf2) as (ok & rs3 & HC & Hok). rewrite HC in Hrun. cbn [mbind option_bind] in Hrun.
  injection Hrun as -> -> <-. destruct (Hok eq_refl) as (_ & _ & Hrs & Hrec & L & HL & HLr).
  rewrite Hor1, Hor in Hex1, Hex0. cbn in Hex1, Hex0.
  assert (parmissing rs2 = 0) as Hpm. { destruct Hwf2 as [_ _ [_ -> _] _]. by rewrite Hex0. }
  assert (datamissing rs2 = Z.of_nat (length missing)) as Hdmiss by (by destruct Hwf2 as [_ [_ -> _ _ _] _ _]).
  pose proof (selected_length rs2 ins0 _ Hscan Hwf2 eq_refl Htodo) as Hlen. rewrite <- Hins in Hlen.
  assert (glmt rs = glmt rs2) as Hglmt by (by rewrite Hrs).
  assert (datapresent rs = datapresent rs2 ∧ datamissing rs = datamissing rs2) as [D1 D2] by (by rewrite Hrs).
  exists rs2, L. split; [done|]. split; [rewrite Hglmt; by destruct Hwf2|]. split; [done|]. split; [|split].
  - intros r c Hr Hc. unfold GetFactor. rewrite D1, D2, HL by lia. done.
  - rewrite Hins. by apply selected_in_data.
  - intros k r i Hi. pose proof (lookup_lt_Some _ _ _ Hi).
    pose proof (Hrec (B k) (HB k) (Z.of_nat r) ltac:(lia)) as E. unfold out_data at 1 in E.
    rewrite (proj2 (Z.ltb_lt (Z.of_nat r) _)) in E by lia. unfold file_at in E. rewrite Nat2Z.id, Hi in E. cbn [default id] in E.
    rewrite E, Hlen. apply xsum_ext. intros c Hc%elem_of_seqZ. rewrite HL by lia. done.
Qed.

Lemma repair_ok rs0 rs ins :
  outputs_wf rs0 → long_rows 65536 (glmt rs0) → datapresent rs0 = 0 → datamissing rs0 = 0 → outputrows rs0 = [] →
  (0 < length missing)%nat →
  ComputeRSmatrix Open rs0 sources recoveryblocks (length missing) = Some (true, rs, ins) →
  ∃ outs, ProcessData rs size ins (length missing) = Some outs ∧
    Forall2 (λ i o, holds o size (λ k, B k i)) missing outs.
Proof.
  intros Ho Hg Hdp Hdm Hor Hpos Hrun.
  destruct (ComputeRSmatrix_ok rs0 rs ins Ho Hg Hdp Hdm Hor Hpos Hrun) as (rs2 & L & Hwf & Hglmt & HLr & HL & Hin & Heq).
  assert (∀ c k, u8 (in_data flags rs2 (B k) c)) as Hin8.
  { intros c k. unfold in_data. case_match; [apply HB|apply volume_range]. }
  unfold ProcessData. destruct (Nat.eqb_spec (length missing) 0); [lia|].
  destruct (process_inputs_ok rs size L (length missing) (λ c k, in_data flags rs2 (B k) c) Hglmt ltac:(lia) Hin8 HLr
    ins 0 (replicate (length missing) (zeros (outputbufferalignment size))) (λ _ _, 0)) as (outs & Hruns & Hlo & Houts).
  - done.
  - intros r c Hr Hc. apply HL; lia.
  - by rewrite length_replicate.
  - intros c m Hc. rewrite Z.add_0_l. by apply Hin.
  - intros r o [-> _]%lookup_replicate_1. apply zeros_holds. unfold outputbufferalignment.
    rewrite land_not_3 by lia. pose proof (Z.div_mod (size + 3) 4). pose proof (Z.mod_pos_bound (size + 3) 4). lia.
  - done.
  - exists outs. split; [done|]. apply Forall2_same_length_lookup_2; [lia|]. intros r i o Hi Hr.
    eapply holds_ext; [|by apply (Houts r)]. intros k _. cbn beta. rewrite Z.lxor_0_l. by rewrite (Heq k r i Hi).
Qed.
End Repair.

(** ** Properties *)

(** C18: PAR 1.0 repair is correct end to end: if the available files and recovery volumes
    hold the data [B] and its recovery volumes, and [ComputeRSmatrix] succeeds, then
    [ProcessData] does not fail and writes into the output buffers exactly the missing
    files, in order. *)
Theorem par1_repair_correct (Open : array → bool) (sources : list (option array))
    (recoveryblocks : list (Z * array)) (size : Z) (B : Z → Z → Z) (rs0 rs : ReedSolomon) (ins : list array) :
  let missing := inputs_with (found sources) false (Z.of_nat (length (found sources))) in
  Z.of_nat (length sources) ≤ 255 → 0 ≤ size < 2 ^ 64 - 3 → (∀ k i, u8 (B k i)) →
  Forall (λ '(e, _), 0 ≤ e ≤ 256) recoveryblocks →
  (∀ i m, sources !! i = Some (Some m) → holds m size (λ k, B k (Z.of_nat i))) →
  (∀ e m, (e, m) ∈ recoveryblocks → holds m size (λ k, volume (found sources) (B k) e)) →
  mkReedSolomon = Some rs0 → (0 < length missing)%nat →
  ComputeRSmatrix Open rs0 sources recoveryblocks (length missing) = Some (true, rs, ins) →
  ∃ outs, ProcessData rs size ins (length missing) = Some outs ∧
    Forall2 (λ i o, holds o size (λ k, B k i)) missing outs.
Proof.
  intros missing Hcount Hsize HB Hexps Hsources Hvolumes Hmk Hpos Hrun.
  destruct mkReedSolomon_ok as (rs1 & Hmk' & Ho & Hg & Hdp & Hdm & Hor).
  rewrite Hmk in Hmk'. apply Some_inj in Hmk'. subst rs1. clear Hmk.
  exact (repair_ok Open sources recoveryblocks size B Hcount Hsize HB Hexps Hsources Hvolumes rs0 rs ins
    Ho Hg Hdp Hdm Hor Hpos Hrun).
Qed.

(** Two files of three bytes, the second one missing, and recovery volume 1. *)
Definition example_data (k i : Z) : Z := wrap 8 (17 * k + 40 * i + 3).
Definition example_buffer (f : Z → Z) : array := <[0 := f 0]> (<[1 := f 1]> (<[2 := f 2]> ∅)).
Definition example_sources : list (option array) := [Some (example_buffer (λ k, example_data k 0)); None].
Definition example_volumes : list (Z * array) := [(1, example_buffer (λ k, volume [true; false] (example_data k) 1))].

Lemma example_buffer_holds f : holds (example_buffer f) 3 f.
Proof. intros i Hi. assert (i = 0 ∨ i = 1 ∨ i = 2) as [->|[->| ->]] by lia; by vm_compute. Qed.

(** The object the constructor makes; the multiplication tables play no part below. *)
Lemma mkReedSolomon_fields rs0 : mkReedSolomon = Some rs0 → ∃ t, rs0 =
  {| inputcount := 0; datapresent := 0; datamissing := 0; datapresentindex := ∅; datamissingindex := ∅; database := ∅;
     outputcount := 0; parpresent := 0; parmissing := 0; outputrows := []; leftmatrix := ∅; glmt := t |}.
Proof.
  unfold mkReedSolomon. destruct (GaloisLongMultiplyTable 8 galois8_table) as [t|]; [|discriminate].
  intros E. exists t. apply Some_inj in E. by rewrite <- E.
Qed.

Lemma example_matrix rs0 : mkReedSolomon = Some rs0 →
  ∃ rs ins, ComputeRSmatrix (λ _, true) rs0 example_sources example_volumes 1 = Some (true, rs, ins).
Proof. intros E. destruct (mkReedSolomon_fields rs0 E) as [t ->]. clear E. eexists _, _. vm_compute. reflexivity. Qed.

Lemma par1_repair_correct_witness : ∃ rs0 rs ins outs,
  mkReedSolomon = Some rs0 ∧ ComputeRSmatrix (λ _, true) rs0 example_sources example_volumes 1 = Some (true, rs, ins) ∧
  ProcessData rs 3 ins 1 = Some outs ∧ Forall2 (λ i o, holds o 3 (λ k, example_data k i)) [1] outs.
Proof.
  destruct mkReedSolomon_ok as (rs0 & Hmk & _). destruct (example_matrix rs0 Hmk) as (rs & ins & Hrun).
  destruct (par1_repair_correct (λ _, true) example_sources example_volumes 3 example_data rs0 rs ins) as (outs & H1 & H2).
  - vm_compute. discriminate.
  - lia.
  - intros k i. apply in_range_wrap. lia.
  - apply Forall_singleton. lia.
  - clear Hmk Hrun. intros [|[|i]] m Hm; [|discriminate Hm|discriminate Hm]. apply Some_inj, Some_inj in Hm. subst m.
    apply example_buffer_holds.
  - clear Hmk Hrun. intros e m Hm. apply list_elem_of_singleton in Hm. apply pair_equal_spec in Hm as [-> ->].
    apply example_buffer_holds.
  - exact Hmk.
  - vm_compute. lia.
  - exact Hrun.
  - exists rs0, rs, ins, outs. split; [exact Hmk|]. split; [exact Hrun|]. split; [exact H1|]. exact H2.
Defined.

(** As many recovery volumes as missing files are not always enough in PAR 1.0: with
    seven files, the first and the last missing, and the volumes with exponents 0 and 85,
    the matrix is singular ([7] has order dividing 85), and [ComputeRSmatrix] reports
    failure instead of computing wrong data. *)
Theorem par1_singular_matrix (rs0 : ReedSolomon) : mkReedSolomon = Some rs0 →
  let sources := [None; Some tt; Some tt; Some tt; Some tt; Some tt; None] in
  let recoveryblocks := [(0, tt); (85, tt)] in
  ∃ rs ins, ComputeRSmatrix (λ _, true) rs0 sources recoveryblocks 2 = Some (false, rs, ins) ∧ length ins = 7%nat.
Proof. intros E. destruct (mkReedSolomon_fields rs0 E) as [t ->]. clear E. eexists _, _. split; vm_compute; reflexivity. Qed.

Lemma par1_singular_matrix_witness : ∃ rs0 rs ins, mkReedSolomon = Some rs0 ∧
  ComputeRSmatrix (λ _, true) rs0 [None; Some tt; Some tt; Some tt; Some tt; Some tt; None] [(0, tt); (85, tt)] 2
  = Some (false, rs, ins) ∧ length ins = 7%nat.
Proof.
  destruct mkReedSolomon_ok as (rs0 & Hmk & _). destruct (par1_singular_matrix rs0 Hmk) as (rs & ins & H1 & H2).
  exists rs0, rs, ins. split; [exact Hmk|]. split; [exact H1|exact H2].
Defined.

(** The chunked processing covers every byte of the block exactly once and ends: the
    chunks are consecutive, non-empty, no longer than the buffer that was allocated, and
    all but the last are a multiple of four bytes when the block does not fit in memory. *)
Theorem chunk_loop_correct (blocksize verifylist memorylimit : Z) :
  in_range 64 blocksize → 0 < verifylist → in_range 64 (blocksize * verifylist) →
  4 * verifylist ≤ memorylimit < 2 ^ 64 → 0 < blocksize →
  let chunksize := AllocateBuffers_chunksize blocksize verifylist memorylimit in
  0 < chunksize ≤ blocksize ∧ chunksize * verifylist ≤ Z.max memorylimit (blocksize * verifylist) ∧
  (memorylimit < blocksize * verifylist → chunksize mod 4 = 0 ∧ chunksize * verifylist ≤ memorylimit) ∧
  ∃ chunks, chunk_loop (Z.to_nat blocksize) chunksize blocksize 0 = Some chunks ∧
    chunks_cover chunksize 0 blocksize chunks.
Proof.
  intros Hb Hv Hp Hm Hpos chunksize.
  assert (0 < chunksize ≤ blocksize ∧ (memorylimit < blocksize * verifylist → chunksize mod 4 = 0 ∧ chunksize * verifylist ≤ memorylimit)) as (H1 & H2).
  { unfold chunksize, AllocateBuffers_chunksize. rewrite wrap_small by done.
    destruct (Z.ltb_spec memorylimit (blocksize * verifylist)) as [Hlt|Hge]; [|lia].
    assert (4 ≤ memorylimit / verifylist) by (apply Z.div_le_lower_bound; lia).
    assert (memorylimit / verifylist < blocksize) by (apply Z.div_lt_upper_bound; lia).
    pose proof (Z.mul_div_le memorylimit verifylist Hv). destruct Hb.
    rewrite Z.land_comm, land_not_3 by lia. set (q := memorylimit / verifylist) in *.
    pose proof (Z.div_mod q 4). pose proof (Z.mod_pos_bound q 4).
    split; [lia|]. intros _. split; [apply Z.mod_mul; lia|nia]. }
  split; [done|]. split; [|split; [done|]].
  - destruct (decide (memorylimit < blocksize * verifylist)); [|nia]. destruct H2; [done|lia].
  - apply chunk_loop_ok; [lia|lia|]. nia.
Qed.

Lemma chunk_loop_correct_witness : ∃ chunks,
  chunk_loop 10 (AllocateBuffers_chunksize 10 2 9) 10 0 = Some chunks ∧
  chunks_cover (AllocateBuffers_chunksize 10 2 9) 0 10 chunks.
Proof.
  destruct (chunk_loop_correct 10 2 9) as (_ & _ & _ & H).
  - split; simpl; lia.
  - lia.
  - split; simpl; lia.
  - lia.
  - lia.
  - exact H.
Defined.
