(* ===== verification/Crc.v ===== *)
(** * Crc.v: CRC-32 (src/crc.cpp, include/par2/crc.h)

    The tables, the byte-wise update, multiplication and exponentiation in the field of
    the CRC, and the sliding window used to look for blocks at every offset.  All of it is
    phrased with the operator [crc_shift], one step of the bitwise algorithm. *)

From S2P Require Import Prelude Bytes LinOp GF.

(** ** Definitions *)

(** The reversed polynomial of [ccitttable] *)
Definition polynom : Z := 0xEDB88320.

(** [NEGATE32(n)]: [(u32)(-((i32)(n)))] *)
Definition NEGATE32 (n : Z) : Z := wrap 32 (- n).

(** [((a >> 1) ^ (polynomial & NEGATE32(a & 1)))] *)
Definition shift_reduce (polynomial a : Z) : Z :=
  Z.shiftr a 1 ⊕ Z.land polynomial (NEGATE32 (Z.land a 1)).

Definition GF32Multiply (a b polynomial : Z) : Z :=
  let '(product, a, b) := for_loop 0 31 (λ _ '(product, a, b),
    (product ⊕ Z.land (NEGATE32 (Z.shiftr b 31)) a, shift_reduce polynomial a, wrap 32 (Z.shiftl b 1))) (0, a, b) in
  product ⊕ Z.land (NEGATE32 (Z.shiftr b 31)) a.

Record crc32table := { table : array; power : array }.

(** [crc = (crc >> 1) ^ ((crc & 1) ? polynomial : 0);] *)
Definition table_step (polynomial crc : Z) : Z :=
  Z.shiftr crc 1 ⊕ (if Z.land crc 1 =? 0 then 0 else polynomial).

(** [crc32table::crc32table] *)
Definition mkcrc32table (polynomial : Z) : crc32table :=
  {| table := for_loop 0 256 (λ i t, <[i := for_loop 0 8 (λ _ crc, table_step polynomial crc) i]> t) ∅;
     power := fst (for_loop 0 32 (λ i '(p, k), (<[Z.land (i - 3) 31 := k]> p, GF32Multiply k k polynomial))
                (∅, Z.shiftr 0x80000000 1)) |}.

Definition ccitttable : crc32table := mkcrc32table polynom.

(** [while (n) { if (n & 1) result *= power[power]; n >>= 1; power = (power + 1) & 31; }]:
    64 iterations suffice for a 64-bit [n]. *)
Fixpoint exp_loop (fuel : nat) (powers : array) (n result p : Z) : option Z :=
  if n =? 0 then Some result else
  match fuel with
  | O => None
  | S fuel =>
      result ← (if Z.land n 1 =? 0 then Some result else
                 k ← powers !! p; Some (GF32Multiply result k polynom));
      exp_loop fuel powers (Z.shiftr n 1) result (Z.land (p + 1) 31)
  end.

Definition CRCExp8 (n : Z) : option Z :=
  exp_loop 64 (power ccitttable) (n mod 0xffffffff) 0x80000000 0.

(** [crc = ((crc >> 8) & 0x00ffffffL) ^ ccitttable.table[(u8)crc ^ *current++];] *)
Definition crc_byte (crc ch : Z) : option Z :=
  t ← table ccitttable !! (Z.land crc 0xff ⊕ ch);
  Some (Z.land (Z.shiftr crc 8) 0x00ffffff ⊕ t).

(** [CRCUpdateBlock(u32 crc, size_t length, const void *buffer)] *)
Fixpoint CRCUpdateBlock (crc : Z) (buffer : list Z) : option Z :=
  match buffer with
  | [] => Some crc
  | ch :: buffer => crc ← crc_byte crc ch; CRCUpdateBlock crc buffer
  end.

(** [CRCUpdateBlock(u32 crc, u64 length)] *)
Definition CRCUpdateBlock_zeros (crc length : Z) : option Z :=
  e ← CRCExp8 length;
  Some (GF32Multiply crc e polynom).

Definition GenerateWindowTable (window : Z) : option array :=
  coeff ← CRCExp8 window;
  let mask := GF32Multiply 0xffffffff coeff polynom in
  let mask := GF32Multiply mask 0x80800000 polynom in
  let mask := mask ⊕ 0xffffffff in
  for_loopM 0 256 (λ i target,
    t ← table ccitttable !! i;
    Some (<[i := GF32Multiply t coeff polynom ⊕ mask]> target)) ∅.

Definition CRCSlideChar (crc chNew chOld : Z) (windowtable : array) : option Z :=
  let crc := crc ⊕ 0xffffffff in
  t ← table ccitttable !! (Z.land crc 0xff ⊕ chNew);
  w ← windowtable !! chOld;
  Some (Z.land (Z.shiftr crc 8) 0x00ffffff ⊕ t ⊕ w).

(** ** The shift operator *)

(** One step of the bitwise algorithm. *)
Definition crc_shift (a : Z) : Z := Z.shiftr a 1 ⊕ (if Z.testbit a 0 then polynom else 0).
Definition crc_coord (a : Z) (i : nat) : bool := Z.testbit a (31 - Z.of_nat i).

Abbreviation u32 := (in_range 32).
Abbreviation unit32 := 0x80000000.

Lemma crc_shift_xor a b : crc_shift (a ⊕ b) = crc_shift a ⊕ crc_shift b.
Proof.
  unfold crc_shift. rewrite Z.shiftr_lxor, Z.lxor_spec.
  destruct (Z.testbit a 0), (Z.testbit b 0); simpl; xor_solve.
Qed.

Lemma crc_shift_range a : u32 a → u32 (crc_shift a).
Proof.
  intros Ha. apply in_range_lxor; [lia|apply in_range_shiftr; (done || lia)|].
  unfold polynom. destruct (Z.testbit a 0); split; simpl; lia.
Qed.

Lemma crc_shift_double a : crc_shift (Z.shiftl a 1) = a.
Proof.
  unfold crc_shift. rewrite Z.shiftl_spec_low by lia. rewrite Z.lxor_0_r.
  rewrite Z.shiftr_shiftl_l by lia. apply Z.shiftl_0_r.
Qed.

Lemma iter_shift_shiftl n a : Nat.iter n crc_shift (Z.shiftl a (Z.of_nat n)) = a.
Proof.
  induction n as [|n IH]; [apply Z.shiftl_0_r|]. rewrite Nat.iter_succ_r, Nat2Z.inj_succ, <- Z.add_1_r.
  rewrite <- Z.shiftl_shiftl by lia. by rewrite crc_shift_double.
Qed.

#[export] Instance crc_LinOp : LinOp 32 crc_shift unit32 crc_coord.
Proof.
  split.
  - apply crc_shift_xor.
  - apply crc_shift_range.
  - split; simpl; lia.
  - intros. apply Z.lxor_spec.
  - intros. apply Z.bits_0.
  - intros a Ha. set (f := λ i : nat, if Z.testbit a (Z.of_nat i) then 2 ^ Z.of_nat i else 0).
    transitivity (xsum (λ i, f (31 - i)%nat) (seq 0 32)).
    { apply xsum_ext. intros i Hi%elem_of_seq. unfold crc_coord, f.
      replace (Z.of_nat (31 - i)) with (31 - Z.of_nat i) by lia. case_match; [|done].
      rewrite <- (iter_shift_shiftl i (2 ^ (31 - Z.of_nat i))). f_equal. rewrite Z.shiftl_mul_pow2, <- Z.pow_add_r by lia.
      by replace (31 - Z.of_nat i + Z.of_nat i) with 31 by lia. }
    rewrite <- (xsum_map (λ i, 31 - i)%nat f).
    rewrite (xsum_perm f _ (seq 0 32)) by (apply Permutation_rev).
    apply Z.bits_inj'. intros j Hj. etrans; [apply (xsel_powers_testbit a 32 j)|]. case_decide; [done|].
    symmetry. apply (testbit_above 32); [done|lia].
Qed.

(** Multiplication in the field of the CRC, and the powers of x. *)
Abbreviation mul32 := (gmul 32 crc_shift unit32 crc_coord).
Definition xpow (n : Z) : Z := Nat.iter (Z.to_nat n) crc_shift unit32.

(** ** Multiplication *)

Lemma land_1 a : Z.land a 1 = Z.b2z (Z.testbit a 0).
Proof. rewrite Z.bit0_odd. change 1 with (Z.ones 1) at 1. rewrite Z.land_ones by lia. apply Zmod_odd. Qed.

Lemma land_NEGATE32 b a : u32 a → Z.land (NEGATE32 (Z.b2z b)) a = if b then a else 0.
Proof.
  intros Ha. destruct b; [|done]. change (NEGATE32 _) with (Z.ones 32). rewrite Z.land_comm, Z.land_ones by lia.
  by apply wrap_small.
Qed.

Lemma shift_reduce_ok a : shift_reduce polynom a = crc_shift a.
Proof.
  unfold shift_reduce, crc_shift. rewrite land_1, Z.land_comm, land_NEGATE32 by (split; by vm_compute). done.
Qed.

Lemma top_bit b i : u32 b → 0 ≤ i < 32 →
  Z.shiftr (wrap 32 (Z.shiftl b i)) 31 = Z.b2z (Z.testbit b (31 - i)).
Proof.
  intros Hb Hi. apply Z.bits_inj'. intros j Hj. rewrite Z.shiftr_spec by done. unfold wrap.
  destruct (decide (j = 0)) as [->|Hne].
  - rewrite Z.mod_pow2_bits_low, Z.shiftl_spec by lia. rewrite Z.b2z_bit0. by rewrite Z.add_0_l.
  - rewrite Z.mod_pow2_bits_high by lia. symmetry. apply (testbit_above 1); [|lia].
    destruct (Z.testbit b _); split; simpl; lia.
Qed.

Lemma GF32Multiply_ok a b : u32 a → u32 b → GF32Multiply a b polynom = mul32 a b.
Proof.
  intros Ha Hb. unfold GF32Multiply. rewrite (gmul_peasant 32 crc_shift unit32 crc_coord) by done.
  pose proof (for_loop_ind (λ i '(p, x, y), p = xsel (crc_coord b) (λ j, Nat.iter j crc_shift a) (seq 0 (Z.to_nat i))
    ∧ x = Nat.iter (Z.to_nat i) crc_shift a ∧ y = wrap 32 (Z.shiftl b i)) 0 31
    (λ (_ : Z) '(product, a, b), (product ⊕ Z.land (NEGATE32 (Z.shiftr b 31)) a, shift_reduce polynom a, wrap 32 (Z.shiftl b 1)))
    (0, a, b)) as H.
  assert (∀ i, 0 ≤ i < 32 → Z.land (NEGATE32 (Z.shiftr (wrap 32 (Z.shiftl b i)) 31)) (Nat.iter (Z.to_nat i) crc_shift a)
    = if crc_coord b (Z.to_nat i) then Nat.iter (Z.to_nat i) crc_shift a else 0) as Hsel.
  { intros i Hi. rewrite top_bit by done. unfold crc_coord. rewrite Z2Nat.id by lia. apply land_NEGATE32.
    by apply (iter_range 32 crc_shift unit32 crc_coord). }
  destruct (for_loop 0 31 _ _) as [[p1 x1] y1]. destruct H as (-> & -> & ->).
  - lia.
  - split_and!; [done..|]. by rewrite Z.shiftl_0_r, wrap_small.
  - intros i [[p2 x2] y2] Hi (-> & -> & ->). rewrite Hsel, shift_reduce_ok by lia.
    replace (Z.to_nat (i + 1)) with (S (Z.to_nat i)) by lia. split_and!; [|done|].
    + unfold xsel. rewrite seq_S, xsum_app. f_equal. by rewrite xsum_cons, Z.lxor_0_r.
    + unfold wrap. rewrite !Z.shiftl_mul_pow2 by lia. rewrite Z.mul_mod_idemp_l by lia.
      f_equal. rewrite Z.pow_add_r by lia. lia.
  - rewrite Hsel by lia. unfold peasant, xsel. change 32%nat with (31 + 1)%nat at 1. rewrite seq_app, xsum_app.
    f_equal. cbn [seq]. by rewrite xsum_cons, Z.lxor_0_r.
Qed.

(** ** Powers of x *)

Lemma xpow_range n : u32 (xpow n).
Proof. apply (iter_range 32 crc_shift unit32 crc_coord). split; simpl; lia. Qed.

Lemma xpow_add n m : 0 ≤ n → 0 ≤ m → xpow (n + m) = mul32 (xpow n) (xpow m).
Proof. intros. unfold xpow. rewrite Z2Nat.inj_add by done. by rewrite (gmul_powers 32 crc_shift unit32 crc_coord). Qed.

Lemma mul32_xpow n a : u32 a → mul32 (xpow n) a = Nat.iter (Z.to_nat n) crc_shift a.
Proof. intros. by apply (gmul_iter_unit 32 crc_shift unit32 crc_coord). Qed.

Lemma mul32_comm a b : mul32 a b = mul32 b a.
Proof. apply (gmul_comm 32 crc_shift unit32 crc_coord). Qed.

Lemma mul32_assoc a b c : mul32 a (mul32 b c) = mul32 (mul32 a b) c.
Proof. apply (gmul_assoc 32 crc_shift unit32 crc_coord). Qed.

Lemma mul32_range a b : u32 (mul32 a b).
Proof. apply (gmul_range 32 crc_shift unit32 crc_coord). Qed.

(** Repeated squaring, as the constructor of the table does it. *)
Definition squarings (i : nat) : Z := Nat.iter i (λ k, GF32Multiply k k polynom) (Z.shiftr 0x80000000 1).

Lemma squarings_ok i : squarings i = xpow (2 ^ Z.of_nat i).
Proof.
  induction i as [|i IH]; [done|]. change (squarings (S i)) with (GF32Multiply (squarings i) (squarings i) polynom). rewrite IH.
  rewrite GF32Multiply_ok, <- xpow_add by (apply xpow_range || lia). f_equal. rewrite Nat2Z.inj_succ, Z.pow_succ_r; lia.
Qed.

(** x^(2^32) = x: the powers by squaring repeat after 32 steps. *)
Lemma xpow_2_32 : xpow (2 ^ 32) = xpow 1.
Proof. change (2 ^ 32) with (2 ^ Z.of_nat 32). rewrite <- (squarings_ok 32). by vm_compute. Qed.

Lemma xpow_double n m : 0 ≤ n → 0 ≤ m → xpow n = xpow m → xpow (2 * n) = xpow (2 * m).
Proof. intros ? ? E. replace (2 * n) with (n + n) by lia. replace (2 * m) with (m + m) by lia. by rewrite !xpow_add, E. Qed.

Lemma xpow_rotate k : xpow (2 ^ (32 + Z.of_nat k)) = xpow (2 ^ Z.of_nat k).
Proof.
  induction k as [|k IH]; [exact xpow_2_32|]. rewrite Nat2Z.inj_succ.
  replace (32 + Z.succ (Z.of_nat k)) with (Z.succ (32 + Z.of_nat k)) by lia. rewrite !Z.pow_succ_r by lia.
  by apply xpow_double; [lia..|].
Qed.

Lemma xpow_0 : xpow 0 = unit32.
Proof. done. Qed.

Lemma mul32_unit a : u32 a → mul32 unit32 a = a.
Proof. intros Ha. rewrite (gmul_unit_l 32 crc_shift unit32 crc_coord). by apply (norm_id 32 crc_shift unit32 crc_coord). Qed.

(** x has an inverse. *)
Lemma xpow_pred n : 0 ≤ n → xpow n = mul32 0xDB710641 (xpow (n + 1)).
Proof.
  intros Hn. rewrite Z.add_comm, xpow_add, mul32_assoc by lia. rewrite (mul32_comm _ (xpow 1)), mul32_xpow.
  - change (Nat.iter (Z.to_nat 1) crc_shift 0xDB710641) with unit32. by rewrite mul32_unit by apply xpow_range.
  - split; simpl; lia.
Qed.

Abbreviation order32 := 0xffffffff.

Lemma xpow_order : xpow order32 = unit32.
Proof.
  rewrite xpow_pred by lia. change (order32 + 1) with (2 ^ 32). rewrite xpow_2_32.
  change 1 with (0 + 1). by rewrite <- xpow_pred.
Qed.

Lemma xpow_period k n : 0 ≤ n → xpow (Z.of_nat k * order32 + n) = xpow n.
Proof.
  intros Hn. induction k as [|k IH]; [done|].
  replace (Z.of_nat (S k) * order32 + n) with (order32 + (Z.of_nat k * order32 + n)) by lia.
  rewrite xpow_add, IH, xpow_order by lia. apply mul32_unit, xpow_range.
Qed.

Lemma xpow_mod n m : 0 ≤ n → 0 ≤ m → n mod order32 = m mod order32 → xpow n = xpow m.
Proof.
  intros Hn Hm E. pose proof (Z.mod_pos_bound n order32 ltac:(lia)).
  assert (∀ a, 0 ≤ a → xpow a = xpow (a mod order32)) as Hred.
  { intros a Ha. pose proof (Z.div_mod a order32 ltac:(lia)) as Ea. pose proof (Z.div_pos a order32 Ha ltac:(lia)).
    rewrite Ea at 1. replace (order32 * (a / order32)) with (Z.of_nat (Z.to_nat (a / order32)) * order32) by lia.
    apply xpow_period. apply Z.mod_pos_bound. lia. }
  rewrite (Hred n), (Hred m) by done. by rewrite E.
Qed.

(** ** The tables *)

Lemma table_ok i : 0 ≤ i < 256 → table ccitttable !! i = Some (Nat.iter 8 crc_shift i).
Proof.
  intros Hi. assert (Forall (λ i, table ccitttable !! i = Some (Nat.iter 8 crc_shift i)) (seqZ 0 256)) as H.
  { eapply bool_decide_eq_true_1. vm_compute. reflexivity. }
  rewrite Forall_forall in H. apply H, elem_of_seqZ. lia.
Qed.

(** A table of the powers x^(8 * 2^p). *)
Definition powers_ok (powers : array) : Prop := ∀ p, 0 ≤ p < 32 → powers !! p = Some (xpow (8 * 2 ^ p)).

(** Consecutive entries, from x on, are squares of each other. *)
Definition square_chain (powers : array) : bool :=
  bool_decide (powers !! 29 = Some (Z.shiftr 0x80000000 1)) &&
  forallb (λ i, match powers !! ((i + 29) mod 32), powers !! ((i + 30) mod 32) with
                | Some k, Some k' => k' =? GF32Multiply k k polynom
                | _, _ => false
                end) (seqZ 0 31).

Lemma square_chain_lookup powers i : square_chain powers = true → (i < 32)%nat →
  powers !! ((Z.of_nat i + 29) mod 32) = Some (xpow (2 ^ Z.of_nat i)).
Proof.
  intros [H0%bool_decide_eq_true_1 HF]%andb_true_iff. induction i as [|i IH]; intros Hi; [exact H0|].
  rewrite forallb_forall in HF. specialize (HF (Z.of_nat i)). rewrite IH in HF by lia.
  replace (Z.of_nat (S i) + 29) with (Z.of_nat i + 30) by lia.
  destruct (powers !! ((Z.of_nat i + 30) mod 32)) as [k'|].
  - f_equal. rewrite Nat2Z.inj_succ, Z.pow_succ_r by lia. replace (2 * 2 ^ Z.of_nat i) with (2 ^ Z.of_nat i + 2 ^ Z.of_nat i) by lia.
    rewrite xpow_add by lia. rewrite <- GF32Multiply_ok by apply xpow_range. apply Z.eqb_eq, HF.
    apply list_elem_of_In, elem_of_seqZ. lia.
  - discriminate HF. apply list_elem_of_In, elem_of_seqZ. lia.
Qed.

Lemma powers_by_squaring (powers : array) : square_chain powers = true → powers_ok powers.
Proof.
  intros H p Hp. change 8 with (2 ^ 3). rewrite <- Z.pow_add_r by lia. destruct (decide (p + 3 < 32)).
  - pose proof (square_chain_lookup powers (Z.to_nat (p + 3)) H ltac:(lia)) as E. rewrite Z2Nat.id in E by lia.
    replace ((p + 3 + 29) mod 32) with p in E by (apply Z.mod_unique with 1; lia). by rewrite (Z.add_comm 3).
  - pose proof (square_chain_lookup powers (Z.to_nat (p - 29)) H ltac:(lia)) as E.
    pose proof (xpow_rotate (Z.to_nat (p - 29))) as R. rewrite Z2Nat.id in E, R by lia.
    replace ((p - 29 + 29) mod 32) with p in E by (rewrite Z.sub_add, Z.mod_small; lia).
    rewrite E, <- R. do 3 f_equal. lia.
Qed.

Lemma power_table_ok : powers_ok (power ccitttable).
Proof. apply powers_by_squaring. vm_compute. reflexivity. Qed.

(** The square-and-multiply loop, with the index into the powers kept modulo 32. *)
Lemma exp_loop_ok powers fuel n result p : powers_ok powers → 0 ≤ n < 2 ^ Z.of_nat fuel → u32 result → 0 ≤ p →
  exp_loop fuel powers n result (p mod 32) = Some (mul32 result (xpow (8 * 2 ^ p * n))).
Proof.
  intros Hpow. revert n result p. induction fuel as [|fuel IH]; intros n result p Hn Hr Hp; cbn [exp_loop].
  { assert (n = 0) as -> by (simpl in Hn; lia). simpl. rewrite Z.mul_0_r, xpow_0, mul32_comm. by rewrite mul32_unit. }
  destruct (Z.eqb_spec n 0) as [->|Hne].
  { rewrite Z.mul_0_r, xpow_0, mul32_comm. by rewrite mul32_unit. }
  rewrite Nat2Z.inj_succ, Z.pow_succ_r in Hn by lia.
  assert (Z.land (p mod 32 + 1) 31 = (p + 1) mod 32) as ->.
  { change 31 with (Z.ones 5). rewrite Z.land_ones by lia. change (2 ^ 5) with 32. by rewrite Z.add_mod_idemp_l by lia. }
  assert (0 ≤ 8 * 2 ^ p) by (pose proof (Z.pow_nonneg 2 p); lia).
  assert (xpow (8 * 2 ^ p) = xpow (8 * 2 ^ (p mod 32))) as Hrot.
  { clear - Hp. pose proof (Z.mod_pos_bound p 32 ltac:(lia)). pose proof (Z.div_pos p 32 Hp ltac:(lia)).
    apply xpow_mod; [pose proof (Z.pow_nonneg 2 p); lia|pose proof (Z.pow_nonneg 2 (p mod 32)); lia|].
    rewrite (Z.div_mod p 32) at 1 by lia. rewrite Z.pow_add_r, Z.pow_mul_r by lia.
    rewrite (Z.mul_comm (_ ^ (p / 32))), Z.mul_assoc, <- Z.mul_mod_idemp_r by lia.
    replace ((2 ^ 32) ^ (p / 32) mod order32) with 1; [by rewrite Z.mul_1_r|].
    symmetry. change (2 ^ 32) with (order32 + 1). rewrite <- Z.mod_pow_l.
    change ((order32 + 1) mod order32) with 1. by rewrite Z.pow_1_l by done. }
  assert (mul32 result (xpow (8 * 2 ^ p * n)) = mul32 (if Z.testbit n 0 then mul32 result (xpow (8 * 2 ^ p)) else result)
    (xpow (8 * 2 ^ (p + 1) * Z.shiftr n 1))) as ->.
  { rewrite Z.shiftr_div_pow2, Z.pow_1_r, Z.pow_add_r, Z.pow_1_r by lia.
    pose proof (Z.div_mod n 2 ltac:(lia)) as E. pose proof (Z.div_pos n 2 ltac:(lia) ltac:(lia)).
    rewrite Z.bit0_odd. rewrite Zmod_odd in E. destruct (Z.odd n).
    - rewrite <- mul32_assoc, <- xpow_add by lia. do 2 f_equal. nia.
    - do 2 f_equal. nia. }
  rewrite land_1. destruct (Z.testbit n 0); cbn [Z.b2z Z.eqb].
  - pose proof (Hpow (p mod 32) (Z.mod_pos_bound p 32 ltac:(lia))) as ->. cbn [mbind option_bind].
    rewrite GF32Multiply_ok, <- Hrot by (done || apply xpow_range). apply IH; [|apply mul32_range|lia].
    rewrite Z.shiftr_div_pow2 by lia. change (2 ^ 1) with 2. split; [apply Z.div_pos; lia|apply Z.div_lt_upper_bound; lia].
  - cbn [mbind option_bind]. apply IH; [|done|lia].
    rewrite Z.shiftr_div_pow2 by lia. change (2 ^ 1) with 2. split; [apply Z.div_pos; lia|apply Z.div_lt_upper_bound; lia].
Qed.

Lemma CRCExp8_ok n : 0 ≤ n → CRCExp8 n = Some (xpow (8 * n)).
Proof.
  intros Hn. unfold CRCExp8. pose proof (Z.mod_pos_bound n order32 ltac:(lia)).
  pose proof (exp_loop_ok (power ccitttable) 64 (n mod order32) unit32 0 power_table_ok) as E.
  change (0 mod 32) with 0 in E. rewrite E; [|simpl; lia|split; simpl; lia|lia].
  f_equal. rewrite mul32_unit by apply xpow_range. rewrite Z.pow_0_r, Z.mul_1_r.
  apply xpow_mod; [lia..|]. by rewrite Z.mul_mod_idemp_r by lia.
Qed.

(** ** The reference: the bitwise CRC *)

(** Feeding bytes into the register: exclusive or, then eight steps. *)
Definition crc_feed (crc : Z) (data : list Z) : Z := foldl (λ c b, Nat.iter 8 crc_shift (c ⊕ b)) crc data.

(** The CRC-32 of a list of bytes. *)
Definition crc32 (data : list Z) : Z := 0xffffffff ⊕ crc_feed 0xffffffff data.

Abbreviation iter32 n := (Nat.iter n crc_shift).

Lemma iter32_range n a : u32 a → u32 (iter32 n a).
Proof. apply (iter_range 32 crc_shift unit32 crc_coord). Qed.

Lemma iter32_xor n a b : iter32 n (a ⊕ b) = iter32 n a ⊕ iter32 n b.
Proof. apply (iter_xor 32 crc_shift unit32 crc_coord). Qed.

Lemma iter32_add n m a : iter32 (n + m) a = iter32 n (iter32 m a).
Proof. apply (iter_add crc_shift). Qed.

Lemma iter32_0 n : iter32 n 0 = 0.
Proof. apply (iter_0 32 crc_shift unit32 crc_coord). Qed.

Lemma u8_u32 b : in_range 8 b → u32 b.
Proof. apply in_range_mono. lia. Qed.

Lemma crc_feed_range crc data : u32 crc → Forall (in_range 8) data → u32 (crc_feed crc data).
Proof.
  intros Hc HF. revert crc Hc. induction HF as [|b data Hb _ IH]; intros crc Hc; [done|].
  cbn [crc_feed foldl]. apply IH, iter32_range, in_range_lxor; [lia|done|by apply u8_u32].
Qed.

Lemma crc_feed_app crc d1 d2 : crc_feed crc (d1 ++ d2) = crc_feed (crc_feed crc d1) d2.
Proof. apply foldl_app. Qed.

(** The register enters linearly. *)
Lemma crc_feed_xor a b data : crc_feed (a ⊕ b) data = iter32 (8 * length data) a ⊕ crc_feed b data.
Proof.
  revert a b. induction data as [|c data IH]; intros a b; [done|]. cbn [crc_feed foldl length].
  rewrite Z.lxor_assoc, iter32_xor. fold (crc_feed (iter32 8 a ⊕ iter32 8 (b ⊕ c)) data).
  rewrite IH. f_equal. rewrite <- iter32_add. f_equal. lia.
Qed.

Lemma crc_feed_init a data : crc_feed a data = iter32 (8 * length data) a ⊕ crc_feed 0 data.
Proof. rewrite <- crc_feed_xor. by rewrite Z.lxor_0_r. Qed.

(** ** Table-driven updates *)

Lemma byte_step crc ch : u32 crc → in_range 8 ch →
  Z.land (Z.shiftr crc 8) 0x00ffffff ⊕ iter32 8 (Z.land crc 0xff ⊕ ch) = iter32 8 (crc ⊕ ch).
Proof.
  intros Hc Hch. rewrite (split_high_low 8 crc) at 3 by lia.
  rewrite Z.lxor_assoc, (iter32_xor 8 (Z.shiftl _ _)), (iter_shift_shiftl 8). f_equal.
  - change 0x00ffffff with (Z.ones 24). rewrite Z.land_ones, Z.mod_small; [done| |lia].
    rewrite Z.shiftr_div_pow2 by lia. destruct Hc. split; [apply Z.div_pos; lia|apply Z.div_lt_upper_bound; simpl; lia].
  - f_equal. change 0xff with (Z.ones 8). by rewrite Z.land_ones by lia.
Qed.

Lemma table_index crc ch : in_range 8 ch → 0 ≤ Z.land crc 0xff ⊕ ch < 256.
Proof. intros Hch. apply (in_range_lxor 8); [lia|apply in_range_land; [lia|split; lia]|done]. Qed.

Lemma crc_byte_ok crc ch : u32 crc → in_range 8 ch → crc_byte crc ch = Some (iter32 8 (crc ⊕ ch)).
Proof.
  intros Hc Hch. unfold crc_byte. rewrite table_ok by (by apply table_index). cbn [mbind option_bind].
  f_equal. by apply byte_step.
Qed.

Lemma CRCUpdateBlock_ok crc data : u32 crc → Forall (in_range 8) data →
  CRCUpdateBlock crc data = Some (crc_feed crc data).
Proof.
  intros Hc HF. revert crc Hc. induction HF as [|b data Hb _ IH]; intros crc Hc; [done|].
  cbn [CRCUpdateBlock]. rewrite crc_byte_ok by done. cbn [mbind option_bind]. apply IH.
  apply iter32_range, in_range_lxor; [lia|done|by apply u8_u32].
Qed.

Lemma crc_feed_zeros crc n : crc_feed crc (replicate n 0) = iter32 (8 * n) crc.
Proof.
  rewrite crc_feed_init, length_replicate.
  assert (crc_feed 0 (replicate n 0) = 0) as ->; [|apply Z.lxor_0_r].
  induction n as [|n IH]; [done|]. exact IH.
Qed.

Lemma CRCUpdateBlock_zeros_ok crc n : u32 crc →
  CRCUpdateBlock_zeros crc (Z.of_nat n) = Some (crc_feed crc (replicate n 0)).
Proof.
  intros Hc. unfold CRCUpdateBlock_zeros. rewrite CRCExp8_ok by lia. cbn [mbind option_bind]. f_equal.
  rewrite GF32Multiply_ok, mul32_comm, mul32_xpow, crc_feed_zeros by (done || apply xpow_range). f_equal. lia.
Qed.

(** ** The sliding window *)

Lemma GenerateWindowTable_ok n : ∃ t, GenerateWindowTable (Z.of_nat n) = Some t ∧
  ∀ i, 0 ≤ i < 256 → t !! i = Some (iter32 (8 * n + 8) i ⊕ iter32 (8 * n) 0xffffffff
    ⊕ iter32 (8 * n + 8) 0xffffffff ⊕ 0xffffffff).
Proof.
  unfold GenerateWindowTable. rewrite CRCExp8_ok by lia. cbn [mbind option_bind].
  assert (u32 0xffffffff) as HF by (split; simpl; lia).
  assert (∀ a, u32 a → mul32 a (xpow (8 * Z.of_nat n)) = iter32 (8 * n) a) as Hmul.
  { intros a Ha. rewrite mul32_comm, mul32_xpow by done. f_equal. lia. }
  assert (GF32Multiply (GF32Multiply 0xffffffff (xpow (8 * Z.of_nat n)) polynom) 0x80800000 polynom
    = iter32 (8 * n) 0xffffffff ⊕ iter32 (8 * n + 8) 0xffffffff) as ->.
  { rewrite (GF32Multiply_ok 0xffffffff) by (done || apply xpow_range). rewrite Hmul by done.
    rewrite GF32Multiply_ok by first [by apply iter32_range|split; simpl; lia].
    change 0x80800000 with (xpow 0 ⊕ xpow 8). rewrite (gmul_xor_r 32 crc_shift unit32 crc_coord).
    rewrite !(mul32_comm (iter32 _ _)), !mul32_xpow by (by apply iter32_range). f_equal.
    rewrite <- iter32_add. f_equal. lia. }
  destruct (for_loopM_ind (λ k (t : array), ∀ i, 0 ≤ i < k → t !! i = Some (iter32 (8 * n + 8) i ⊕ iter32 (8 * n) 0xffffffff
    ⊕ iter32 (8 * n + 8) 0xffffffff ⊕ 0xffffffff)) 0 256 (λ i (target : array), t ← table ccitttable !! i;
    Some (<[i := GF32Multiply t (xpow (8 * Z.of_nat n)) polynom
      ⊕ (iter32 (8 * n) 0xffffffff ⊕ iter32 (8 * n + 8) 0xffffffff ⊕ 0xffffffff)]> target)) ∅) as (t & -> & Ht).
  - lia.
  - intros. lia.
  - intros i t Hi IH. rewrite table_ok by lia. cbn [mbind option_bind]. eexists. split; [done|]. intros j Hj.
    destruct (decide (j = i)) as [->|]; [|rewrite lookup_insert_ne by done; apply IH; lia].
    rewrite lookup_insert_eq. f_equal.
    assert (u32 i) by (apply u8_u32; split; lia).
    rewrite GF32Multiply_ok, Hmul, <- iter32_add by first [by apply iter32_range|apply xpow_range]. xor_solve.
  - by exists t.
Qed.

Lemma crc32_range data : Forall (in_range 8) data → u32 (crc32 data).
Proof. intros. apply in_range_lxor; [lia|split; simpl; lia|]. apply crc_feed_range; [split; simpl; lia|done]. Qed.

Lemma crc_feed_cons crc b data : crc_feed crc (b :: data) = crc_feed (iter32 8 (crc ⊕ b)) data.
Proof. reflexivity. Qed.

Lemma crc_feed_one crc b : crc_feed crc [b] = iter32 8 (crc ⊕ b).
Proof. reflexivity. Qed.

(** What the window table holds for the byte that leaves the window is what the register
    has to be corrected by. *)
Lemma crc_window_shift old m new :
  let n := length (old :: m) in
  iter32 8 (crc32 (old :: m) ⊕ 0xffffffff ⊕ new)
    ⊕ (iter32 (8 * n + 8) old ⊕ iter32 (8 * n) 0xffffffff ⊕ iter32 (8 * n + 8) 0xffffffff ⊕ 0xffffffff)
  = crc32 (m ++ [new]).
Proof.
  intros n. unfold crc32.
  replace (0xffffffff ⊕ crc_feed 0xffffffff (old :: m) ⊕ 0xffffffff) with (crc_feed 0xffffffff (old :: m)) by xor_solve.
  rewrite <- crc_feed_one, <- crc_feed_app. cbn [app].
  rewrite (crc_feed_init 0xffffffff (old :: _)), (crc_feed_init 0xffffffff (m ++ [new])).
  rewrite (crc_feed_cons 0 old), Z.lxor_0_l, (crc_feed_init (iter32 8 old)), <- iter32_add. cbn [length]. rewrite !length_app. cbn [length].
  replace (8 * (length m + 1))%nat with (8 * n)%nat by (unfold n; simpl; lia).
  replace (8 * S (length m + 1))%nat with (8 * n + 8)%nat by (unfold n; simpl; lia). xor_solve.
Qed.

Lemma CRCSlideChar_ok old m new t : Forall (in_range 8) (old :: m) → in_range 8 new →
  GenerateWindowTable (Z.of_nat (length (old :: m))) = Some t →
  CRCSlideChar (crc32 (old :: m)) new old t = Some (crc32 (m ++ [new])).
Proof.
  intros HF Hn Ht. destruct (GenerateWindowTable_ok (length (old :: m))) as (t' & Ht' & Hlk).
  assert (t = t') as -> by congruence. clear Ht Ht'.
  pose proof (crc32_range _ HF) as Hr. apply Forall_cons in HF as [Hold Hm]. unfold CRCSlideChar.
  rewrite table_ok by (by apply table_index). cbn [mbind option_bind]. rewrite Hlk by (by destruct Hold).
  cbn [mbind option_bind]. f_equal. rewrite byte_step.
  - apply crc_window_shift.
  - apply in_range_lxor; [lia|done|split; simpl; lia].
  - done.
Qed.

(** ** Properties *)

(** The table-driven byte update computes the bitwise CRC-32: [CRCUpdateBlock] from the
    initial register, complemented, is the reference checksum, for every byte string, and
    never indexes outside the table. *)
Theorem CRCUpdateBlock_correct (data : list Z) : Forall (in_range 8) data →
  ∃ crc, CRCUpdateBlock 0xffffffff data = Some crc ∧ 0xffffffff ⊕ crc = crc32 data ∧ in_range 32 crc.
Proof.
  intros HF. assert (u32 0xffffffff) by (split; simpl; lia).
  exists (crc_feed 0xffffffff data). split; [by apply CRCUpdateBlock_ok|]. split; [done|by apply crc_feed_range].
Qed.

Lemma CRCUpdateBlock_correct_witness :
  ∃ crc, CRCUpdateBlock 0xffffffff [0x31; 0x32; 0x33] = Some crc ∧ 0xffffffff ⊕ crc = crc32 [0x31; 0x32; 0x33] ∧ in_range 32 crc.
Proof. apply (CRCUpdateBlock_correct [0x31; 0x32; 0x33]). repeat constructor; lia. Defined.

(** [CRCUpdateBlock(crc, length)] feeds [length] zero bytes in logarithmic time: for
    every register and every 64-bit length it equals feeding the zeros one by one, although
    the exponent is first reduced modulo 2^32 - 1 and the table of powers is rotated. *)
Theorem CRCUpdateBlock_zeros_correct (crc : Z) (n : nat) : in_range 32 crc → in_range 64 (Z.of_nat n) →
  CRCUpdateBlock_zeros crc (Z.of_nat n) = CRCUpdateBlock crc (replicate n 0).
Proof.
  intros Hc _. rewrite CRCUpdateBlock_zeros_ok, CRCUpdateBlock_ok; [done|done| |done].
  apply Forall_replicate. split; lia.
Qed.

Lemma CRCUpdateBlock_zeros_correct_witness :
  CRCUpdateBlock_zeros 0x12345678 (Z.of_nat 5) = CRCUpdateBlock 0x12345678 (replicate 5 0).
Proof. apply (CRCUpdateBlock_zeros_correct 0x12345678 5); split; simpl; lia. Defined.

(** C40: sliding the window is exact: with the table made for the window size, removing the
    oldest byte and appending a new one turns the CRC-32 of a window into the CRC-32 of
    the window one byte further, for every window size, content and new byte. *)
Theorem CRCSlideChar_correct (old : Z) (m : list Z) (new : Z) :
  Forall (in_range 8) (old :: m) → in_range 8 new → in_range 64 (Z.of_nat (length (old :: m))) →
  ∃ windowtable, GenerateWindowTable (Z.of_nat (length (old :: m))) = Some windowtable ∧
    CRCSlideChar (crc32 (old :: m)) new old windowtable = Some (crc32 (m ++ [new])).
Proof.
  intros HF Hn _. destruct (GenerateWindowTable_ok (length (old :: m))) as (t & Ht & _).
  exists t. split; [done|]. by apply CRCSlideChar_ok.
Qed.

Lemma CRCSlideChar_correct_witness : ∃ windowtable,
  GenerateWindowTable (Z.of_nat (length [1; 2; 3])) = Some windowtable ∧
  CRCSlideChar (crc32 [1; 2; 3]) 4 1 windowtable = Some (crc32 ([2; 3] ++ [4])).
Proof. apply (CRCSlideChar_correct 1 [2; 3] 4); [repeat constructor; lia|split; lia|split; simpl; lia]. Defined.

(** The check value of CRC-32: the checksum of the ASCII digits 1 to 9. *)
Example crc32_check_value : crc32 [0x31; 0x32; 0x33; 0x34; 0x35; 0x36; 0x37; 0x38; 0x39] = 0xCBF43926.
Proof. by vm_compute. Qed.
