(* ===== verification/Md5.v ===== *)
(** * Md5.v: MD5 (include/par2/hasher/md5-base.h, md5-scalar-base.h, hasher_md5crc_base.h,
    hasher_md5crc_impl.h, parpar/hasher/hasher_md5crc.cpp, md5-final.c)

    The portable C path: one block, several blocks, the incremental hasher [MD5Single],
    and the final block with its zero padding.  Buffers are lists of bytes. *)

From S2P Require Import Prelude Bytes.

(** ** Blocks *)

(** The four registers, or a state of four words. *)
Record md5state := { wA : Z; wB : Z; wC : Z; wD : Z }.

Inductive round_fn := F | G | H | I.

Abbreviation u32 := (in_range 32).

(** [~d] on 32-bit words *)
Definition not32 (d : Z) : Z := 0xffffffff ⊕ d.
Definition ADD (a b : Z) : Z := wrap 32 (a + b).

(** [(((a)<<(n))|(((a)&0xffffffff)>>(32-(n))))] *)
Definition ROTATE (a n : Z) : Z :=
  Z.lor (wrap 32 (Z.shiftl a n)) (Z.shiftr (Z.land a 0xffffffff) (32 - n)).

(** [ADDF(f,a,b,c,d)] *)
Definition ADDF (f : round_fn) (a b c d : Z) : Z :=
  match f with
  | G => ADD (ADD (Z.land (not32 d) c) a) (Z.land d b)
  | F => ADD a (Z.land (c ⊕ d) b ⊕ d)
  | H => ADD a ((d ⊕ c) ⊕ b)
  | I => ADD a (Z.lor (not32 d) b ⊕ c)
  end.

(** [_RX(f,a,b,c,d,ik,r)]: the new value of [a] *)
Definition RX (f : round_fn) (a b c d ik r : Z) : Z :=
  let a := ADD a ik in
  let a := ADDF f a b c d in
  let a := ROTATE a r in
  ADD a b.

(** The operations in the order of the code: function, input word, rotation, constant.
    The registers of consecutive lines are [A,B,C,D], [D,A,B,C], [C,D,A,B], [B,C,D,A]. *)
Definition round0 : list (round_fn * Z * Z * Z) := [
   (F, 0, 7, 0xd76aa478); (F, 1, 12, 0xe8c7b756); (F, 2, 17, 0x242070db); (F, 3, 22, 0xc1bdceee);
   (F, 4, 7, 0xf57c0faf); (F, 5, 12, 0x4787c62a); (F, 6, 17, 0xa8304613); (F, 7, 22, 0xfd469501);
   (F, 8, 7, 0x698098d8); (F, 9, 12, 0x8b44f7af); (F, 10, 17, 0xffff5bb1); (F, 11, 22, 0x895cd7be);
   (F, 12, 7, 0x6b901122); (F, 13, 12, 0xfd987193); (F, 14, 17, 0xa679438e); (F, 15, 22, 0x49b40821)].

Definition round1 : list (round_fn * Z * Z * Z) := [
   (G, 1, 5, 0xf61e2562); (G, 6, 9, 0xc040b340); (G, 11, 14, 0x265e5a51); (G, 0, 20, 0xe9b6c7aa);
   (G, 5, 5, 0xd62f105d); (G, 10, 9, 0x02441453); (G, 15, 14, 0xd8a1e681); (G, 4, 20, 0xe7d3fbc8);
   (G, 9, 5, 0x21e1cde6); (G, 14, 9, 0xc33707d6); (G, 3, 14, 0xf4d50d87); (G, 8, 20, 0x455a14ed);
   (G, 13, 5, 0xa9e3e905); (G, 2, 9, 0xfcefa3f8); (G, 7, 14, 0x676f02d9); (G, 12, 20, 0x8d2a4c8a)].

Definition round2 : list (round_fn * Z * Z * Z) := [
   (H, 5, 4, 0xfffa3942); (H, 8, 11, 0x8771f681); (H, 11, 16, 0x6d9d6122); (H, 14, 23, 0xfde5380c);
   (H, 1, 4, 0xa4beea44); (H, 4, 11, 0x4bdecfa9); (H, 7, 16, 0xf6bb4b60); (H, 10, 23, 0xbebfbc70);
   (H, 13, 4, 0x289b7ec6); (H, 0, 11, 0xeaa127fa); (H, 3, 16, 0xd4ef3085); (H, 6, 23, 0x04881d05);
   (H, 9, 4, 0xd9d4d039); (H, 12, 11, 0xe6db99e5); (H, 15, 16, 0x1fa27cf8); (H, 2, 23, 0xc4ac5665)].

Definition round3 : list (round_fn * Z * Z * Z) := [
   (I, 0, 6, 0xf4292244); (I, 7, 10, 0x432aff97); (I, 14, 15, 0xab9423a7); (I, 5, 21, 0xfc93a039);
   (I, 12, 6, 0x655b59c3); (I, 3, 10, 0x8f0ccc92); (I, 10, 15, 0xffeff47d); (I, 1, 21, 0x85845dd1);
   (I, 8, 6, 0x6fa87e4f); (I, 15, 10, 0xfe2ce6e0); (I, 6, 15, 0xa3014314); (I, 13, 21, 0x4e0811a1);
   (I, 4, 6, 0xf7537e82); (I, 11, 10, 0xbd3af235); (I, 2, 15, 0x2ad7d2bb); (I, 9, 21, 0xeb86d391)].

(** Input word [i] of a block, little endian *)
Definition md5_word (block : list Z) (i : Z) : Z := le_join (take 4 (drop (Z.to_nat (4 * i)) block)).

(** One line: the register written becomes the second of the next line. *)
Definition md5_step (block : list Z) (st : md5state) (op : round_fn * Z * Z * Z) : md5state :=
  let '(f, i, r, k) := op in
  {| wA := wD st; wB := RX f (wA st) (wB st) (wC st) (wD st) (ADD (md5_word block i) k) r;
     wC := wB st; wD := wC st |}.

(** [md5_process_block] *)
Definition md5_process_block (state : md5state) (block : list Z) : md5state :=
  let st := foldl (md5_step block) state (round0 ++ round1 ++ round2 ++ round3) in
  {| wA := ADD (wA state) (wA st); wB := ADD (wB state) (wB st);
     wC := ADD (wC state) (wC st); wD := ADD (wD state) (wD st) |}.

(** ** Several blocks *)

(** [MD5SingleVer(update)]: [blocks] blocks of 64 bytes *)
Fixpoint md5_update (state : md5state) (data : list Z) (blocks : nat) : md5state :=
  match blocks with
  | O => state
  | S blocks => md5_update (md5_process_block state (take 64 data)) (drop 64 data) blocks
  end.

(** [MD5SingleVer(updateZero)] *)
Fixpoint md5_updateZero (state : md5state) (blocks : nat) : md5state :=
  match blocks with
  | O => state
  | S blocks => md5_updateZero (md5_process_block state (replicate 64 0)) blocks
  end.

(** ** [MD5Single] *)

Record MD5Single := { tmp : list Z; md5State : md5state; dataLen : Z }.

Definition md5_init : md5state :=
  {| wA := 0x67452301; wB := 0xefcdab89; wC := 0x98badcfe; wD := 0x10325476 |}.

(** [reset()]: the buffer keeps what it held. *)
Definition reset (m : MD5Single) : MD5Single :=
  {| tmp := tmp m; md5State := md5_init; dataLen := 0 |}.

(** [memcpy(dst + off, src, |src|)] *)
Definition memcpy (dst : list Z) (off : nat) (src : list Z) : list Z :=
  take off dst ++ src ++ drop (off + length src) dst.

(** [MD5Single::update] *)
Definition update (m : MD5Single) (data : list Z) : MD5Single :=
  let buffered := Z.to_nat (Z.land (dataLen m) 63) in
  let dataLen := wrap 64 (dataLen m + Z.of_nat (length data)) in
  let wanted := (64 - buffered)%nat in
  if negb (Nat.eqb buffered 0) && Nat.ltb (length data) wanted then
    {| tmp := memcpy (tmp m) buffered data; md5State := md5State m; dataLen := dataLen |}
  else
    let '(tmp', st, data) :=
      (if negb (Nat.eqb buffered 0) then
         let t := memcpy (tmp m) buffered (take wanted data) in
         (t, md5_update (md5State m) t 1, drop wanted data)
       else (tmp m, md5State m, data)) in
    let len := length data in
    {| tmp := memcpy tmp' 0 (take (len mod 64) (drop (64 * (len / 64)) data));
       md5State := md5_update st data (len / 64);
       dataLen := dataLen |}.

(** [MD5Single::updateZero] *)
Definition updateZero (m : MD5Single) (len : nat) : MD5Single :=
  let buffered := Z.to_nat (Z.land (dataLen m) 63) in
  let dataLen := wrap 64 (dataLen m + Z.of_nat len) in
  let wanted := (64 - buffered)%nat in
  if negb (Nat.eqb buffered 0) && Nat.ltb len wanted then
    {| tmp := memcpy (tmp m) buffered (replicate len 0); md5State := md5State m; dataLen := dataLen |}
  else
    let '(tmp', st, len) :=
      (if negb (Nat.eqb buffered 0) then
         let t := memcpy (tmp m) buffered (replicate wanted 0) in
         (t, md5_update (md5State m) t 1, (len - wanted)%nat)
       else (tmp m, md5State m, len)) in
    {| tmp := memcpy tmp' 0 (replicate (len mod 64) 0);
       md5State := md5_updateZero st (len / 64);
       dataLen := dataLen |}.

(** ** [md5_final_block] *)

(** The local variables of the function. *)
Record final_state := {
  f_block : list Z; f_remaining : Z; f_totalLength : Z; f_zeroPad : Z; f_loopState : Z; f_md5 : md5state;
}.

(** One iteration of [while(1)]; [true] when the loop is left. *)
Definition final_step (s : final_state) : bool * final_state :=
  let loopState := if (f_loopState s =? 1) && (f_zeroPad s <? 64) then 2 else f_loopState s in
  let '(block, remaining, loopState) :=
    (if loopState =? 2 then
       let remaining := Z.land (f_totalLength s) 63 in
       let block := memcpy (f_block s) (Z.to_nat remaining) [0x80] in
       let remaining := remaining + 1 in
       if remaining <=? 56 then (block, remaining, 4) else (block, 0, 3)
     else (f_block s, f_remaining s, loopState)) in
  let '(block, totalLength) :=
    (if loopState =? 4 then
       let block := memcpy block (Z.to_nat remaining) (replicate (Z.to_nat (56 - remaining)) 0) in
       let totalLength := wrap 64 (Z.shiftl (f_totalLength s) 3) in
       (memcpy block 56 (le_split 8 totalLength), totalLength)
     else (block, f_totalLength s)) in
  let md5 := md5_process_block (f_md5 s) block in
  let mk block zeroPad loopState :=
    {| f_block := block; f_remaining := remaining; f_totalLength := totalLength;
       f_zeroPad := zeroPad; f_loopState := loopState; f_md5 := md5 |} in
  if loopState =? 4 then (true, mk block (f_zeroPad s) loopState)
  else if loopState =? 3 then (false, mk block (f_zeroPad s) 4)
  else if loopState =? 1 then (false, mk block (wrap 64 (f_zeroPad s - 64)) loopState)
  else if loopState =? 0 then (false, mk (replicate 64 0) (wrap 64 (f_zeroPad s - (64 - remaining))) 1)
  else (false, mk block (f_zeroPad s) loopState).

Fixpoint final_loop (fuel : nat) (s : final_state) : option md5state :=
  match fuel with
  | O => None
  | S fuel => let '(stop, s) := final_step s in if stop then Some (f_md5 s) else final_loop fuel s
  end.

(** [md5_final_block(state, data, totalLength, zeroPad)]: [data] holds the bytes that were
    not processed.  Every iteration but four consumes 64 bytes of the padding. *)
Definition md5_final_block (state : md5state) (data : list Z) (totalLength zeroPad : Z) : option md5state :=
  let remaining := Z.land totalLength 63 in
  let block := take (Z.to_nat remaining) data ++ replicate (64 - Z.to_nat remaining) 0 in
  let totalLength := wrap 64 (totalLength + zeroPad) in
  let loopState := if wrap 64 (remaining + zeroPad) <? 64 then 2 else 0 in
  final_loop (Z.to_nat (zeroPad / 64) + 4)
    {| f_block := block; f_remaining := remaining; f_totalLength := totalLength;
       f_zeroPad := zeroPad; f_loopState := loopState; f_md5 := state |}.

(** The 16 bytes of a state. *)
Definition md5_bytes (st : md5state) : list Z :=
  le_split 4 (wA st) ++ le_split 4 (wB st) ++ le_split 4 (wC st) ++ le_split 4 (wD st).

(** [MD5Single::end]: the hash *)
Definition end_ (m : MD5Single) : option (list Z) :=
  st ← md5_final_block (md5State m) (tmp m) (dataLen m) 0;
  Some (md5_bytes st).
