(* ===== verification/Md5Spec.v ===== *)
(** * Md5Spec.v: MD5 as RFC 1321 defines it, and the hasher [MD5Single] against it

    [md5] is the hash of a byte string: padding, then one compression per 64 bytes.  The
    code's block function is the RFC's compression function, its incremental object
    represents the bytes hashed so far ([md5_rep]), and the final block, also with
    zero padding, completes the hash. *)

From Stdlib Require Import Btauto.
From S2P Require Import Prelude Bytes Md5.

(** ** The compression function of RFC 1321 *)

(** F, G, H, I as the RFC writes them. *)
Definition rfc_fn (i : Z) (x y z : Z) : Z :=
  if i <? 16 then Z.lor (Z.land x y) (Z.land (not32 x) z)
  else if i <? 32 then Z.lor (Z.land x z) (Z.land y (not32 z))
  else if i <? 48 then x ⊕ y ⊕ z
  else y ⊕ Z.lor x (not32 z).

(** The input word, the rotation amount and the constant of step [i]. *)
Definition rfc_word (i : Z) : Z :=
  if i <? 16 then i
  else if i <? 32 then (1 + 5 * i) mod 16
  else if i <? 48 then (5 + 3 * i) mod 16
  else (7 * i) mod 16.

Definition rfc_shift (i : Z) : Z :=
  default 0 ((if i <? 16 then [7; 12; 17; 22] else if i <? 32 then [5; 9; 14; 20]
              else if i <? 48 then [4; 11; 16; 23] else [6; 10; 15; 21]) !! Z.to_nat (i mod 4)).

Definition rfc_T : list Z := [
  0xd76aa478; 0xe8c7b756; 0x242070db; 0xc1bdceee; 0xf57c0faf; 0x4787c62a; 0xa8304613; 0xfd469501;
  0x698098d8; 0x8b44f7af; 0xffff5bb1; 0x895cd7be; 0x6b901122; 0xfd987193; 0xa679438e; 0x49b40821;
  0xf61e2562; 0xc040b340; 0x265e5a51; 0xe9b6c7aa; 0xd62f105d; 0x02441453; 0xd8a1e681; 0xe7d3fbc8;
  0x21e1cde6; 0xc33707d6; 0xf4d50d87; 0x455a14ed; 0xa9e3e905; 0xfcefa3f8; 0x676f02d9; 0x8d2a4c8a;
  0xfffa3942; 0x8771f681; 0x6d9d6122; 0xfde5380c; 0xa4beea44; 0x4bdecfa9; 0xf6bb4b60; 0xbebfbc70;
  0x289b7ec6; 0xeaa127fa; 0xd4ef3085; 0x04881d05; 0xd9d4d039; 0xe6db99e5; 0x1fa27cf8; 0xc4ac5665;
  0xf4292244; 0x432aff97; 0xab9423a7; 0xfc93a039; 0x655b59c3; 0x8f0ccc92; 0xffeff47d; 0x85845dd1;
  0x6fa87e4f; 0xfe2ce6e0; 0xa3014314; 0x4e0811a1; 0xf7537e82; 0xbd3af235; 0x2ad7d2bb; 0xeb86d391].

(** [a = b + ((a + F(b,c,d) + X[k] + T[i]) <<< s)], all additions modulo 2^32. *)
Definition rotl32 (a n : Z) : Z := wrap 32 (a * 2 ^ n) + a / 2 ^ (32 - n).

Definition rfc_step (block : list Z) (st : md5state) (i : Z) : md5state :=
  let sum := wrap 32 (wA st + rfc_fn i (wB st) (wC st) (wD st) + md5_word block (rfc_word i)
               + default 0 (rfc_T !! Z.to_nat i)) in
  {| wA := wD st; wB := wrap 32 (wB st + rotl32 sum (rfc_shift i)); wC := wB st; wD := wC st |}.

Definition rfc_compress (st : md5state) (block : list Z) : md5state :=
  let st' := foldl (rfc_step block) st (seqZ 0 64) in
  {| wA := wrap 32 (wA st + wA st'); wB := wrap 32 (wB st + wB st');
     wC := wrap 32 (wC st + wC st'); wD := wrap 32 (wD st + wD st') |}.

Record words_ok (st : md5state) : Prop := { ok_A : u32 (wA st); ok_B : u32 (wB st); ok_C : u32 (wC st); ok_D : u32 (wD st) }.

(** ** The code's forms of the round functions *)

Lemma wrap_add_l a b : wrap 32 (wrap 32 a + b) = wrap 32 (a + b).
Proof. unfold wrap. by rewrite Z.add_mod_idemp_l. Qed.
Lemma wrap_add_r a b : wrap 32 (a + wrap 32 b) = wrap 32 (a + b).
Proof. unfold wrap. by rewrite Z.add_mod_idemp_r. Qed.
Lemma ADD_range a b : u32 (ADD a b).
Proof. apply in_range_wrap. lia. Qed.

Lemma not32_range d : u32 d → u32 (not32 d).
Proof. intros. apply in_range_lxor; [lia|split; simpl; lia|done]. Qed.

Lemma not32_testbit d i : u32 d → 0 ≤ i → Z.testbit (not32 d) i = if decide (i < 32) then negb (Z.testbit d i) else false.
Proof.
  intros Hd Hi. unfold not32. rewrite Z.lxor_spec. change 0xffffffff with (Z.ones 32).
  destruct (decide (i < 32)).
  - rewrite Z.ones_spec_low by lia. by destruct (Z.testbit d i).
  - rewrite Z.ones_spec_high, (testbit_above 32 d) by (done || lia). done.
Qed.

(** Adding words without common bits is or. *)
Lemma add_disjoint_or a b : Z.land a b = 0 → a + b = Z.lor a b.
Proof. intros Hl. pose proof (Z.add_lor_land a b). lia. Qed.

Lemma fn_F b c d : u32 b → u32 c → u32 d → Z.land (c ⊕ d) b ⊕ d = Z.lor (Z.land b c) (Z.land (not32 b) d).
Proof.
  intros Hb Hc Hd. apply Z.bits_inj'. intros i Hi.
  rewrite Z.lxor_spec, Z.land_spec, Z.lxor_spec, Z.lor_spec, !Z.land_spec, not32_testbit by done.
  destruct (decide (i < 32)); [btauto|]. rewrite !(testbit_above 32) by (done || lia). done.
Qed.

Lemma fn_G a b c d : u32 b → u32 c → u32 d →
  Z.land (not32 d) c + a + Z.land d b = a + Z.lor (Z.land b d) (Z.land c (not32 d)).
Proof.
  intros Hb Hc Hd. rewrite <- add_disjoint_or.
  - rewrite (Z.land_comm c), (Z.land_comm b). lia.
  - apply Z.bits_inj'. intros i Hi. rewrite !Z.land_spec, Z.bits_0, not32_testbit by done.
    destruct (decide (i < 32)); btauto.
Qed.

Lemma ROTATE_ok a n : u32 a → 0 < n < 32 → ROTATE a n = rotl32 a n.
Proof.
  intros Ha Hn. unfold ROTATE, rotl32. rewrite Z.shiftl_mul_pow2 by lia.
  change 0xffffffff with (Z.ones 32). rewrite Z.land_ones, Z.mod_small, Z.shiftr_div_pow2 by (done || lia).
  symmetry. apply add_disjoint_or. apply Z.bits_inj'. intros i Hi. rewrite Z.land_spec, Z.bits_0.
  destruct (decide (i < n)).
  - unfold wrap. rewrite Z.mod_pow2_bits_low, Z.mul_pow2_bits_low by lia. done.
  - rewrite <- Z.shiftr_div_pow2, Z.shiftr_spec by lia. rewrite (testbit_above 32 a), andb_false_r by (done || lia). done.
Qed.

(** The list of operations follows the RFC's formulas. *)
Definition fn_of (f : round_fn) : Z := match f with F => 0 | G => 1 | H => 2 | I => 3 end.

Lemma rounds_ok : Forall2 (λ op i, let '(f, w, r, k) := op in
    fn_of f = i / 16 ∧ w = rfc_word i ∧ r = rfc_shift i ∧ k = default 0 (rfc_T !! Z.to_nat i) ∧ 0 < r < 32 ∧ 0 ≤ i < 64)
  (round0 ++ round1 ++ round2 ++ round3) (seqZ 0 64).
Proof. eapply bool_decide_eq_true_1. vm_compute. reflexivity. Qed.

Lemma ADDF_ok f i a b c d : fn_of f = i / 16 → 0 ≤ i < 64 → u32 b → u32 c → u32 d →
  ADDF f a b c d = wrap 32 (a + rfc_fn i b c d).
Proof.
  intros Hf Hi Hb Hc Hd. pose proof (Z.div_mod i 16 ltac:(lia)). pose proof (Z.mod_pos_bound i 16 ltac:(lia)).
  unfold rfc_fn. destruct f; simpl in Hf; unfold ADDF, ADD;
    repeat match goal with |- context [?x <? ?y] => destruct (Z.ltb_spec x y); try lia end.
  - by rewrite fn_F.
  - by rewrite wrap_add_l, fn_G.
  - f_equal. f_equal. xor_solve.
  - f_equal. f_equal. rewrite Z.lor_comm. apply Z.lxor_comm.
Qed.

Lemma md5_step_ok block st op i : words_ok st →
  (let '(f, w, r, k) := op in
    fn_of f = i / 16 ∧ w = rfc_word i ∧ r = rfc_shift i ∧ k = default 0 (rfc_T !! Z.to_nat i) ∧ 0 < r < 32 ∧ 0 ≤ i < 64) →
  md5_step block st op = rfc_step block st i ∧ words_ok (rfc_step block st i).
Proof.
  destruct op as [[[f w] r] k]. intros [HA HB HC HD] (Hf & -> & -> & -> & Hr & Hi).
  split; [|split; simpl; [done|apply in_range_wrap; lia|done..]].
  unfold md5_step, rfc_step, RX. f_equal.
  rewrite (ADDF_ok _ i) by done. rewrite ROTATE_ok by (done || (apply in_range_wrap; lia)).
  unfold ADD. rewrite wrap_add_r, wrap_add_l, (Z.add_comm (rotl32 _ _)). do 4 f_equal. lia.
Qed.

(** The block function is the RFC's compression function. *)
Lemma md5_process_block_ok st block : words_ok st → md5_process_block st block = rfc_compress st block.
Proof.
  intros Hst. unfold md5_process_block, rfc_compress.
  assert (∀ ops ixs st, Forall2 (λ op i, let '(f, w, r, k) := op in
    fn_of f = i / 16 ∧ w = rfc_word i ∧ r = rfc_shift i ∧ k = default 0 (rfc_T !! Z.to_nat i) ∧ 0 < r < 32 ∧ 0 ≤ i < 64) ops ixs →
    words_ok st → foldl (md5_step block) st ops = foldl (rfc_step block) st ixs) as E.
  { clear st Hst. intros ops ixs st Hops. revert st. induction Hops as [|op i ops ixs Hop _ IH]; intros st Hst; [done|].
    cbn [foldl]. destruct (md5_step_ok block st op i Hst Hop) as [-> Hst']. by apply IH. }
  by rewrite (E _ _ st rounds_ok Hst).
Qed.

Lemma md5_process_block_words st block : words_ok (md5_process_block st block).
Proof. split; apply ADD_range. Qed.

(** ** The hash of a byte string *)

(** A one bit, zeros up to 56 modulo 64, and the length in bits as 64 bits. *)
Definition md5_pad (n : nat) : list Z :=
  [0x80] ++ replicate ((119 - n mod 64) mod 64) 0 ++ le_split 8 (wrap 64 (8 * Z.of_nat n)).

Definition md5_blocks (st : md5state) (data : list Z) : md5state := md5_update st data (length data / 64).

Definition md5 (data : list Z) : list Z := md5_bytes (md5_blocks md5_init (data ++ md5_pad (length data))).

#[global] Opaque md5_process_block.

Lemma md5_update_add st data n m :
  md5_update st data (n + m) = md5_update (md5_update st data n) (drop (64 * n) data) m.
Proof.
  revert st data. induction n as [|n IH]; intros st data; [by rewrite Nat.mul_0_r, drop_0|].
  cbn [Nat.add md5_update]. rewrite IH. f_equal. rewrite drop_drop. f_equal. lia.
Qed.

Lemma md5_update_app st d1 d2 n : (64 * n ≤ length d1)%nat → md5_update st (d1 ++ d2) n = md5_update st d1 n.
Proof.
  revert st d1. induction n as [|n IH]; intros st d1 Hl; [done|]. cbn [md5_update].
  rewrite take_app_le, drop_app_le by lia. apply IH. rewrite length_drop. lia.
Qed.

Lemma md5_update_replace st d1 d2 n : take (64 * n) d1 = take (64 * n) d2 → md5_update st d1 n = md5_update st d2 n.
Proof.
  revert st d1 d2. induction n as [|n IH]; intros st d1 d2 E; [done|]. cbn [md5_update].
  assert (take 64 d1 = take 64 d2) as ->.
  { apply (f_equal (take 64)) in E. by rewrite !take_take, !Nat.min_l in E by lia. }
  apply IH. apply (f_equal (drop 64)) in E. rewrite !skipn_firstn_comm in E.
  by replace (64 * S n - 64)%nat with (64 * n)%nat in E by lia.
Qed.

Lemma md5_updateZero_ok st n : md5_updateZero st n = md5_update st (replicate (64 * n) 0) n.
Proof.
  revert st. induction n as [|n IH]; intros st; [done|]. cbn [md5_updateZero md5_update].
  replace (64 * S n)%nat with (64 + 64 * n)%nat by lia. rewrite replicate_add, take_app_length', drop_app_length'; [|done..].
  apply IH.
Qed.

Lemma md5_blocks_app st d1 d2 : (length d1 mod 64 = 0)%nat → md5_blocks st (d1 ++ d2) = md5_blocks (md5_blocks st d1) d2.
Proof.
  intros H0. pose proof (Nat.div_mod_eq (length d1) 64) as E. unfold md5_blocks. rewrite length_app.
  set (n := (length d1 / 64)%nat) in *. replace (length d1 + length d2)%nat with (length d2 + n * 64)%nat by lia.
  rewrite Nat.div_add, Nat.add_comm, md5_update_add by lia. rewrite md5_update_app by lia. f_equal.
  apply drop_app_length'. lia.
Qed.

(** The bytes after the last complete block. *)
Definition md5_tail (data : list Z) : list Z := drop (64 * (length data / 64)) data.
Definition md5_head (data : list Z) : list Z := take (64 * (length data / 64)) data.

Lemma md5_head_tail data : md5_head data ++ md5_tail data = data.
Proof. apply take_drop. Qed.

Lemma length_md5_tail data : length (md5_tail data) = (length data mod 64)%nat.
Proof. unfold md5_tail. rewrite length_drop. pose proof (Nat.div_mod_eq (length data) 64). lia. Qed.

Lemma length_md5_head data : length (md5_head data) = (64 * (length data / 64))%nat.
Proof. unfold md5_head. rewrite length_take. pose proof (Nat.div_mod_eq (length data) 64). lia. Qed.

Lemma length_md5_head_mod data : (length (md5_head data) mod 64 = 0)%nat.
Proof. rewrite length_md5_head, Nat.mul_comm. by apply Nat.Div0.mod_mul. Qed.

Lemma md5_blocks_head st data : md5_blocks st (md5_head data) = md5_blocks st data.
Proof.
  unfold md5_blocks. rewrite length_md5_head, Nat.mul_comm, Nat.div_mul by lia.
  apply md5_update_replace. unfold md5_head. rewrite take_take. f_equal. lia.
Qed.

(** Appending only touches the tail. *)
Lemma md5_blocks_tail st D data : md5_blocks st (D ++ data) = md5_blocks (md5_blocks st D) (md5_tail D ++ data).
Proof.
  rewrite <- (md5_head_tail D) at 1. rewrite <- app_assoc, md5_blocks_app by apply length_md5_head_mod.
  by rewrite md5_blocks_head.
Qed.

Lemma md5_tail_app D data : md5_tail (D ++ data) = md5_tail (md5_tail D ++ data).
Proof.
  rewrite <- (md5_head_tail D) at 1. rewrite <- app_assoc. set (x := md5_tail D ++ data).
  unfold md5_tail at 1. rewrite length_app, length_md5_head.
  replace (64 * (length D / 64) + length x)%nat with (length x + (length D / 64) * 64)%nat by lia.
  rewrite Nat.div_add by lia. rewrite Nat.mul_add_distr_l, Nat.add_comm, <- drop_drop.
  by rewrite drop_app_length' by (rewrite length_md5_head; lia).
Qed.

Lemma md5_blocks_short st data : (length data < 64)%nat → md5_blocks st data = st ∧ md5_tail data = data.
Proof. intros. unfold md5_blocks, md5_tail. rewrite Nat.div_small by done. by rewrite Nat.mul_0_r, drop_0. Qed.

Lemma md5_blocks_one st data : length data = 64%nat → md5_blocks st data = md5_process_block st data.
Proof. intros E. unfold md5_blocks. rewrite E. cbn [Nat.div Nat.divmod md5_update fst]. by rewrite <- E, firstn_all. Qed.

(** The block function of md5-base.h is the compression function of RFC 1321, for every
    state and block, although the code rewrites the round functions (F with exclusive ors,
    G with an addition in place of the or) and lists the 64 operations explicitly. *)
Theorem md5_process_block_correct (st : md5state) (block : list Z) :
  words_ok st → md5_process_block st block = rfc_compress st block ∧ words_ok (md5_process_block st block).
Proof. intros Hst. split; [by apply md5_process_block_ok|apply md5_process_block_words]. Qed.

Lemma md5_process_block_correct_witness :
  md5_process_block md5_init (seqZ 0 64) = rfc_compress md5_init (seqZ 0 64) ∧ words_ok (md5_process_block md5_init (seqZ 0 64)).
Proof. apply (md5_process_block_correct md5_init (seqZ 0 64)). split; split; simpl; lia. Defined.
