(* ===== verification/Md5Single.v ===== *)
(** * Md5Single.v: the incremental hasher refines [md5] *)

From S2P Require Import Prelude Bytes Md5 Md5Spec.

(** ** Buffers *)

Lemma length_memcpy dst off src : (off + length src ≤ length dst)%nat → length (memcpy dst off src) = length dst.
Proof. intros. unfold memcpy. rewrite !length_app, length_take, length_drop. lia. Qed.

(** The bytes up to the end of what was written. *)
Lemma take_memcpy dst off src n : (off ≤ length dst)%nat → n = (off + length src)%nat →
  take n (memcpy dst off src) = take off dst ++ src.
Proof.
  intros Hl ->. unfold memcpy. rewrite app_assoc. apply take_app_length'.
  rewrite length_app, length_take. lia.
Qed.

Lemma low_bits_nat n : Z.to_nat (Z.land (wrap 64 (Z.of_nat n)) 63) = (n mod 64)%nat.
Proof.
  change 63 with (Z.ones 6). rewrite Z.land_ones by lia. unfold wrap. change (2 ^ 64) with (2 ^ 6 * 2 ^ 58).
  rewrite Z.rem_mul_r by (simpl; lia). rewrite Z.add_mod, Z.mul_mod, Z.mod_same by (simpl; lia).
  rewrite Z.mul_0_l, Z.mod_0_l, Z.add_0_r, !Z.mod_mod by (simpl; lia).
  change (2 ^ 6) with (Z.of_nat 64). rewrite <- Nat2Z.inj_mod. apply Nat2Z.id.
Qed.

(** ** [MD5Single] *)

(** The object after hashing [D]. *)
Record md5_rep (m : MD5Single) (D : list Z) : Prop := {
  rep_length : length (tmp m) = 64%nat;
  rep_dataLen : dataLen m = wrap 64 (Z.of_nat (length D));
  rep_state : md5State m = md5_blocks md5_init D;
  rep_tail : take (length D mod 64) (tmp m) = md5_tail D;
}.

Lemma reset_ok m : length (tmp m) = 64%nat → md5_rep (reset m) [].
Proof. intros. by split. Qed.

Lemma wrap_length (D data : list Z) :
  wrap 64 (wrap 64 (Z.of_nat (length D)) + Z.of_nat (length data)) = wrap 64 (Z.of_nat (length (D ++ data))).
Proof. unfold wrap. by rewrite Z.add_mod_idemp_l, length_app, Nat2Z.inj_add by done. Qed.

(** Complete blocks followed by a tail, as both update functions leave them. *)
Lemma rep_fresh D data t st :
  (length D mod 64 = 0)%nat → length t = 64%nat → st = md5_blocks md5_init D →
  md5_rep {| tmp := memcpy t 0 (take (length data mod 64) (drop (64 * (length data / 64)) data));
             md5State := md5_update st data (length data / 64); dataLen := wrap 64 (Z.of_nat (length (D ++ data))) |} (D ++ data).
Proof.
  intros HD Ht ->.
  assert (take (length data mod 64) (drop (64 * (length data / 64)) data) = md5_tail data) as ->.
  { rewrite <- length_md5_tail. apply firstn_all. }
  assert (md5_tail D = []) as HDt by (apply nil_length_inv; by rewrite length_md5_tail).
  pose proof (Nat.mod_upper_bound (length data) 64 ltac:(lia)).
  split; cbn [tmp dataLen md5State].
  - by rewrite length_memcpy by (rewrite length_md5_tail; lia).
  - done.
  - by rewrite md5_blocks_app.
  - rewrite md5_tail_app, HDt, app_nil_l. rewrite length_app, <- Nat.Div0.add_mod_idemp_l, HD, Nat.add_0_l.
    rewrite take_memcpy; [by rewrite take_0|lia|by rewrite length_md5_tail].
Qed.

Lemma update_ok m D data : md5_rep m D → md5_rep (update m data) (D ++ data).
Proof.
  intros [Hl Hd Hs Ht]. pose proof (Nat.mod_upper_bound (length D) 64 ltac:(lia)) as Hb.
  pose proof (Nat.div_mod_eq (length D) 64) as Hdm.
  unfold update. rewrite Hd, low_bits_nat, wrap_length. set (b := (length D mod 64)%nat) in *.
  assert (length (md5_tail D) = b) as Htl by apply length_md5_tail.
  destruct (Nat.eqb_spec b 0) as [Hb0|Hb0]; cbn [negb andb].
  { by apply rep_fresh. }
  destruct (Nat.ltb_spec (length data) (64 - b)) as [Hlt|Hge].
  - assert (length (md5_tail D ++ data) < 64)%nat as Hshort by (rewrite length_app; lia).
    destruct (md5_blocks_short (md5_blocks md5_init D) _ Hshort) as [E1 E2].
    split; cbn [tmp dataLen md5State].
    + by rewrite length_memcpy by lia.
    + done.
    + by rewrite Hs, md5_blocks_tail, E1.
    + rewrite md5_tail_app, E2, take_memcpy; [by rewrite Ht|lia|].
      rewrite length_app, <- Nat.Div0.add_mod_idemp_l. fold b. apply Nat.mod_small. lia.
  - set (wanted := (64 - b)%nat) in *.
    assert (length (take wanted data) = wanted) as Hw by (rewrite length_take; lia).
    set (t := memcpy (tmp m) b (take wanted data)).
    assert (t = md5_tail D ++ take wanted data) as Et.
    { unfold t, memcpy. rewrite Ht, drop_ge by lia. by rewrite app_nil_r. }
    assert (length t = 64%nat) as Hlt by (rewrite Et, length_app; lia).
    assert (D ++ data = (D ++ take wanted data) ++ drop wanted data) as -> by (by rewrite <- app_assoc, take_drop).
    apply (rep_fresh (D ++ take wanted data)); [rewrite length_app, Hw; unfold wanted; subst b|done|].
    + replace (length D + (64 - length D mod 64))%nat with ((length D / 64 + 1) * 64)%nat by lia. by apply Nat.Div0.mod_mul.
    + rewrite Hs, md5_blocks_tail, <- Et, (md5_blocks_one _ t Hlt). cbn [md5_update]. by rewrite <- Hlt, firstn_all.
Qed.

(** Zeros are data. *)
Lemma updateZero_update m n : updateZero m n = update m (replicate n 0).
Proof.
  assert (∀ st k, md5_updateZero st (k / 64) = md5_update st (replicate k 0) (k / 64)) as Hz.
  { intros st k. rewrite md5_updateZero_ok. apply md5_update_replace. rewrite !take_replicate.
    pose proof (Nat.Div0.mul_div_le k 64). f_equal. lia. }
  assert (∀ k, replicate (k mod 64) 0 = take (k mod 64) (drop (64 * (k / 64)) (replicate k 0))) as Ht.
  { intros k. rewrite drop_replicate, take_replicate. f_equal. pose proof (Nat.div_mod_eq k 64). lia. }
  unfold updateZero, update. rewrite length_replicate. set (b := Z.to_nat (Z.land (dataLen m) 63)).
  destruct (Nat.eqb_spec b 0); cbn [negb andb].
  - by rewrite length_replicate, Hz, Ht.
  - destruct (Nat.ltb_spec n (64 - b)); [done|].
    rewrite take_replicate, drop_replicate, length_replicate, Nat.min_l by lia. by rewrite Hz, Ht.
Qed.

Lemma updateZero_ok m D n : md5_rep m D → md5_rep (updateZero m n) (D ++ replicate n 0).
Proof. rewrite updateZero_update. apply update_ok. Qed.

(** ** The final block *)

Lemma memcpy_app_r x y off src : (length x ≤ off)%nat → memcpy (x ++ y) off src = x ++ memcpy y (off - length x) src.
Proof.
  intros Hl. unfold memcpy. rewrite take_app_ge, drop_app_ge by lia. rewrite <- app_assoc.
  by replace (off + length src - length x)%nat with (off - length x + length src)%nat by lia.
Qed.

Lemma memcpy_0 y src : memcpy y 0 src = src ++ drop (length src) y.
Proof. done. Qed.

Lemma memcpy_zeros k n : (k ≤ n)%nat → memcpy (replicate n 0) 0 (replicate k 0) = replicate n 0.
Proof.
  intros. rewrite memcpy_0, length_replicate, drop_replicate, <- replicate_add. f_equal. lia.
Qed.

(** The block with the end marker. *)
Lemma marked_block T : (length T < 64)%nat →
  memcpy (T ++ replicate (64 - length T) 0) (length T) [0x80] = (T ++ [0x80]) ++ replicate (63 - length T) 0.
Proof.
  intros. rewrite memcpy_app_r, Nat.sub_diag, memcpy_0 by lia. cbn [length]. rewrite drop_replicate, <- app_assoc.
  do 3 f_equal. lia.
Qed.

(** The block with the length, zeros before it. *)
Lemma length_block X l : (length X ≤ 56)%nat → length l = 8%nat →
  memcpy (memcpy (X ++ replicate (64 - length X) 0) (length X) (replicate (56 - length X) 0)) 56 l
  = X ++ replicate (56 - length X) 0 ++ l.
Proof.
  intros HX Hl. rewrite (memcpy_app_r X), Nat.sub_diag, memcpy_zeros by lia. rewrite memcpy_app_r by lia. f_equal.
  unfold memcpy. rewrite take_replicate, drop_replicate, Nat.min_l by lia. rewrite Hl.
  replace (64 - length X - (56 - length X + 8))%nat with 0%nat by lia. by rewrite app_nil_r.
Qed.

Lemma length_pad8 L : length (le_split 8 L) = 8%nat.
Proof. apply length_le_split. Qed.

Lemma final_finish fuel s T :
  f_loopState s = 2 ∨ (f_loopState s = 1 ∧ f_zeroPad s < 64) →
  Z.land (f_totalLength s) 63 = Z.of_nat (length T) → (length T < 64)%nat →
  f_block s = T ++ replicate (64 - length T) 0 →
  final_loop (S (S fuel)) s = Some (md5_blocks (f_md5 s)
    (T ++ [0x80] ++ replicate ((119 - length T) mod 64) 0 ++ le_split 8 (wrap 64 (Z.shiftl (f_totalLength s) 3)))).
Proof.
  intros Hls Hrem HT Hblock. set (L := wrap 64 (Z.shiftl (f_totalLength s) 3)).
  assert ((if (f_loopState s =? 1) && (f_zeroPad s <? 64) then 2 else f_loopState s) = 2) as E2.
  { destruct Hls as [->|[-> Hz]]; [done|]. by rewrite (proj2 (Z.ltb_lt _ _) Hz). }
  cbn [final_loop]. unfold final_step at 1. rewrite E2. cbn [Z.eqb Pos.eqb]. rewrite Hrem, Nat2Z.id, Hblock, marked_block by done.
  destruct (Z.leb_spec (Z.of_nat (length T) + 1) 56) as [Hle|Hgt]; cbn [Z.eqb Pos.eqb f_md5].
  - fold L. f_equal. set (X := T ++ [0x80]). assert (length X = S (length T)) as HX by (unfold X; rewrite length_app; simpl; lia).
    replace (63 - length T)%nat with (64 - length X)%nat by lia.
    replace (Z.to_nat (Z.of_nat (length T) + 1)) with (length X) by lia.
    replace (Z.to_nat (56 - (Z.of_nat (length T) + 1))) with (56 - length X)%nat by lia.
    rewrite length_block by (lia || apply length_pad8).
    replace ((119 - length T) mod 64)%nat with (56 - length X)%nat.
    + rewrite md5_blocks_one; [unfold X; by rewrite <- app_assoc|].
      rewrite !length_app, length_replicate, length_pad8. cbn [length]. lia.
    + replace (119 - length T)%nat with (56 - length X + 1 * 64)%nat by lia. rewrite Nat.Div0.mod_add. symmetry. apply Nat.mod_small. lia.
  - unfold final_step. cbn [f_loopState f_block f_remaining f_totalLength f_zeroPad f_md5 Z.eqb Pos.eqb andb].
    fold L. f_equal. set (B := (T ++ [0x80]) ++ replicate (63 - length T) 0).
    assert (length B = 64%nat) as HB by (unfold B; rewrite !length_app, length_replicate; simpl; lia).
    rewrite Z.sub_0_r. change (Z.to_nat 0) with 0%nat. change (Z.to_nat 56) with 56%nat.
    assert (memcpy (memcpy B 0 (replicate 56 0)) 56 (le_split 8 L) = replicate 56 0 ++ le_split 8 L) as ->.
    { rewrite (memcpy_0 B). rewrite memcpy_app_r by (rewrite length_replicate; lia).
      rewrite length_replicate, Nat.sub_diag, memcpy_0, length_pad8, drop_drop, drop_ge by lia. by rewrite app_nil_r. }
    rewrite <- (md5_blocks_one _ B), <- md5_blocks_one by first [done|rewrite length_app, length_replicate, length_pad8; lia].
    rewrite <- md5_blocks_app by (by rewrite HB). f_equal. unfold B. rewrite <- !app_assoc. do 2 f_equal.
    rewrite app_assoc, <- replicate_add. do 2 f_equal. rewrite Nat.mod_small by lia. lia.
Qed.

Lemma tail_length_wrap (D : list Z) : Z.land (wrap 64 (Z.of_nat (length D))) 63 = Z.of_nat (length (md5_tail D)).
Proof.
  rewrite length_md5_tail, <- low_bits_nat, Z2Nat.id; [done|]. apply Z.land_nonneg. lia.
Qed.

Lemma shift_length n : wrap 64 (Z.shiftl (wrap 64 n) 3) = wrap 64 (8 * n).
Proof.
  unfold wrap. rewrite Z.shiftl_mul_pow2 by lia. change (2 ^ 3) with 8. rewrite Z.mul_mod_idemp_l by done. f_equal. lia.
Qed.

(** What [final_finish] computes when the block holds the tail of [D]. *)
Lemma final_finish_ok fuel s st0 D :
  f_loopState s = 2 ∨ (f_loopState s = 1 ∧ f_zeroPad s < 64) →
  f_totalLength s = wrap 64 (Z.of_nat (length D)) →
  f_block s = md5_tail D ++ replicate (64 - length (md5_tail D)) 0 → f_md5 s = md5_blocks st0 D →
  final_loop (S (S fuel)) s = Some (md5_blocks st0 (D ++ md5_pad (length D))).
Proof.
  intros Hls Htot Hblock Hmd5. pose proof (Nat.mod_upper_bound (length D) 64 ltac:(lia)).
  rewrite (final_finish fuel s (md5_tail D)); [|done| |rewrite length_md5_tail; lia|done].
  - rewrite Hmd5, (md5_blocks_tail st0 D). unfold md5_pad. rewrite length_md5_tail, Htot, shift_length. done.
  - rewrite Htot. apply tail_length_wrap.
Qed.

(** Whole blocks of zeros. *)
Lemma final_zeros z : ∀ fuel s st0 D0, (z / 64 + 2 ≤ fuel)%nat → (length D0 mod 64 = 0)%nat →
  f_loopState s = 1 → f_zeroPad s = Z.of_nat z → in_range 64 (Z.of_nat z) → f_block s = replicate 64 0 →
  f_totalLength s = wrap 64 (Z.of_nat (length (D0 ++ replicate z 0))) → f_md5 s = md5_blocks st0 D0 →
  final_loop fuel s = Some (md5_blocks st0 ((D0 ++ replicate z 0) ++ md5_pad (length (D0 ++ replicate z 0)))).
Proof.
  induction z as [z IH] using lt_wf_ind. intros fuel s st0 D0 Hf HD Hls Hz Hr Hb Htot Hmd5.
  assert (md5_tail D0 = []) as HDt by (apply nil_length_inv; by rewrite length_md5_tail).
  destruct (decide (z < 64)%nat) as [Hlt|Hge].
  - destruct fuel as [|[|fuel]]; [lia|lia|].
    destruct (md5_blocks_short (md5_blocks st0 D0) (replicate z 0)) as [E1 E2]; [by rewrite length_replicate|].
    assert (md5_tail (D0 ++ replicate z 0) = replicate z 0) as Et by (by rewrite md5_tail_app, HDt, app_nil_l).
    apply final_finish_ok.
    + right. split; [done|lia].
    + done.
    + rewrite Et, length_replicate, <- replicate_add, Hb. f_equal. lia.
    + by rewrite Hmd5, md5_blocks_app, E1.
  - assert (64 + (z - 64) = z)%nat as Ez by lia.
    assert (z / 64 = S ((z - 64) / 64))%nat as Edz.
    { replace z with (z - 64 + 1 * 64)%nat at 1 by lia. rewrite Nat.div_add by lia. lia. }
    destruct fuel as [|fuel]; [lia|]. cbn [final_loop]. unfold final_step.
    rewrite Hls, Hz, (proj2 (Z.ltb_ge (Z.of_nat z) 64)) by lia. cbn [Z.eqb Pos.eqb andb].
    assert (D0 ++ replicate z 0 = (D0 ++ replicate 64 0) ++ replicate (z - 64) 0) as ->.
    { rewrite <- Ez at 1. by rewrite replicate_add, app_assoc. }
    apply (IH (z - 64)%nat); cbn [f_loopState f_zeroPad f_block f_totalLength f_md5].
    + lia.
    + lia.
    + rewrite length_app, length_replicate, <- Nat.Div0.add_mod_idemp_l, HD. done.
    + done.
    + rewrite wrap_small; [lia|]. destruct Hr. split; lia.
    + destruct Hr. split; lia.
    + done.
    + rewrite Htot. rewrite <- Ez at 1. by rewrite replicate_add, app_assoc.
    + rewrite Hb, Hmd5, md5_blocks_app by done. by rewrite (md5_blocks_one _ (replicate 64 0)).
Qed.

(** The final block completes the hash of the data followed by the zeros. *)
Lemma md5_final_block_ok st0 D buffer n :
  take (length D mod 64) buffer = md5_tail D → Z.of_nat n < 2 ^ 64 - 64 →
  md5_final_block (md5_blocks st0 D) buffer (wrap 64 (Z.of_nat (length D))) (Z.of_nat n)
  = Some (md5_blocks st0 ((D ++ replicate n 0) ++ md5_pad (length (D ++ replicate n 0)))).
Proof.
  intros Htail Hn. pose proof (Nat.mod_upper_bound (length D) 64 ltac:(lia)) as Hm. unfold md5_final_block.
  rewrite tail_length_wrap. set (r := length (md5_tail D)). assert (r = (length D mod 64)%nat) as Hr by apply length_md5_tail.
  rewrite Nat2Z.id, Hr, Htail, <- Hr. rewrite (wrap_small 64 (Z.of_nat r + Z.of_nat n)) by (split; lia).
  assert (wrap 64 (wrap 64 (Z.of_nat (length D)) + Z.of_nat n) = wrap 64 (Z.of_nat (length (D ++ replicate n 0)))) as ->.
  { rewrite <- wrap_length. by rewrite length_replicate. }
  assert (Z.to_nat (Z.of_nat n / 64) = (n / 64)%nat) as ->.
  { change 64 with (Z.of_nat 64). rewrite <- Nat2Z.inj_div. apply Nat2Z.id. }
  destruct (Z.ltb_spec (Z.of_nat r + Z.of_nat n) 64) as [Hlt|Hge].
  - replace (n / 64 + 4)%nat with (S (S (n / 64 + 2)))%nat by lia.
    destruct (md5_blocks_short (md5_blocks st0 D) (md5_tail D ++ replicate n 0)) as [E1 E2].
    { rewrite length_app, length_replicate. fold r. lia. }
    apply final_finish_ok; cbn [f_loopState f_zeroPad f_block f_totalLength f_md5]; [by left|done| |].
    + rewrite md5_tail_app, E2, <- app_assoc, <- replicate_add, length_app, length_replicate. fold r. do 2 f_equal. lia.
    + by rewrite md5_blocks_tail, E1.
  - replace (n / 64 + 4)%nat with (S (n / 64 + 3))%nat by lia. cbn [final_loop]. unfold final_step.
    cbn [f_loopState f_zeroPad f_block f_totalLength f_md5 f_remaining Z.eqb Pos.eqb andb].
    assert (D ++ replicate n 0 = (D ++ replicate (64 - r) 0) ++ replicate (n - (64 - r)) 0) as ->.
    { rewrite <- app_assoc, <- replicate_add. do 2 f_equal. lia. }
    set (z := (n - (64 - r))%nat).
    assert (length (md5_tail D ++ replicate (64 - r) 0) = 64%nat) as H64 by (rewrite length_app, length_replicate; fold r; lia).
    apply (final_zeros z); cbn [f_loopState f_zeroPad f_block f_totalLength f_md5].
    + assert (z / 64 ≤ n / 64)%nat by (apply Nat.Div0.div_le_mono; lia). lia.
    + rewrite length_app, length_replicate. pose proof (Nat.div_mod_eq (length D) 64).
      replace (length D + (64 - r))%nat with ((length D / 64 + 1) * 64)%nat by lia. by apply Nat.Div0.mod_mul.
    + done.
    + rewrite wrap_small; [lia|]. split; lia.
    + split; lia.
    + done.
    + done.
    + rewrite md5_blocks_tail. by rewrite (md5_blocks_one _ (md5_tail D ++ _)).
Qed.

Lemma end_ok m D : md5_rep m D → end_ m = Some (md5 D).
Proof.
  intros [Hl Hd Hs Ht]. unfold end_. rewrite Hd, Hs. change 0 with (Z.of_nat 0) at 1.
  rewrite md5_final_block_ok by (done || lia). cbn [mbind option_bind]. by rewrite app_nil_r.
Qed.

(** ** Properties *)

(** A call of the hasher and the bytes it stands for. *)
Inductive hash_call := Update (data : list Z) | UpdateZero (n : nat).

Definition run_call (m : MD5Single) (c : hash_call) : MD5Single :=
  match c with Update data => update m data | UpdateZero n => updateZero m n end.

Definition call_bytes (c : hash_call) : list Z :=
  match c with Update data => data | UpdateZero n => replicate n 0 end.

Lemma run_calls_ok calls m D : md5_rep m D → md5_rep (foldl run_call m calls) (D ++ (calls ≫= call_bytes)).
Proof.
  revert m D. induction calls as [|c calls IH]; intros m D Hm; [by rewrite app_nil_r|].
  cbn [foldl]. rewrite bind_cons, app_assoc. apply IH.
  destruct c; [by apply update_ok|by apply updateZero_ok].
Qed.

(** C38: [MD5Single] refines MD5 of a byte string: after [reset], any sequence of [update]
    and [updateZero] calls, in pieces of any size, followed by [end], yields the MD5 hash
    of the concatenated data; what the buffer held before does not matter. *)
Theorem MD5Single_refines_md5 (m : MD5Single) (calls : list hash_call) :
  length (tmp m) = 64%nat →
  end_ (foldl run_call (reset m) calls) = Some (md5 (calls ≫= call_bytes)).
Proof.
  intros Hm. apply end_ok. by apply (run_calls_ok calls (reset m) []), reset_ok.
Qed.

Lemma MD5Single_refines_md5_witness :
  end_ (foldl run_call (reset {| tmp := replicate 64 7; md5State := md5_init; dataLen := 5 |})
    [Update (seqZ 0 50); UpdateZero 100; Update [1; 2; 3]]) = Some (md5 (seqZ 0 50 ++ replicate 100 0 ++ [1; 2; 3])).
Proof.
  exact (MD5Single_refines_md5 {| tmp := replicate 64 7; md5State := md5_init; dataLen := 5 |}
    [Update (seqZ 0 50); UpdateZero 100; Update [1; 2; 3]] eq_refl).
Defined.

(** [md5_final_block] terminates and, given the state after the complete blocks of [D],
    a buffer holding the rest and the length, computes the MD5 state of [D] followed by
    [zeroPad] zero bytes and the padding, on every path of its state machine. *)
Theorem md5_final_block_correct (D buffer : list Z) (zeroPad : nat) :
  take (length D mod 64) buffer = md5_tail D → Z.of_nat zeroPad < 2 ^ 64 - 64 →
  ∃ st, md5_final_block (md5_blocks md5_init D) buffer (wrap 64 (Z.of_nat (length D))) (Z.of_nat zeroPad) = Some st ∧
    md5_bytes st = md5 (D ++ replicate zeroPad 0).
Proof. intros H1 H2. eexists. split; [by apply md5_final_block_ok|done]. Qed.

Lemma md5_final_block_correct_witness :
  ∃ st, md5_final_block (md5_blocks md5_init (seqZ 0 70)) (seqZ 64 6) (wrap 64 70) 130 = Some st ∧
    md5_bytes st = md5 (seqZ 0 70 ++ replicate 130 0).
Proof. apply (md5_final_block_correct (seqZ 0 70) (seqZ 64 6) 130); [vm_compute; reflexivity|lia]. Defined.

(** The hashes of the empty string and of "abc" in RFC 1321. *)
Example md5_test_vectors :
  md5 [] = [0xd4; 0x1d; 0x8c; 0xd9; 0x8f; 0x00; 0xb2; 0x04; 0xe9; 0x80; 0x09; 0x98; 0xec; 0xf8; 0x42; 0x7e] ∧
  md5 [97; 98; 99] = [0x90; 0x01; 0x50; 0x98; 0x3c; 0xd2; 0x4f; 0xb0; 0xd6; 0x96; 0x3f; 0x7d; 0x28; 0xe1; 0x7f; 0x72].
Proof. by vm_compute. Qed.
