(* ===== verification/Hasher.v ===== *)
(** * Hasher.v: [HasherInput] (include/par2/hasher/hasher_input_base.h, md5x2-scalar.h)

    The hasher used while reading a file: it computes the MD5 of the whole file and, for
    each block of it, the MD5 and CRC-32, in one pass.  The two MD5 lanes advance together
    although the blocks need not start at a multiple of 64 bytes in the file; [tmp] holds the
    bytes pending in the file lane, and the block lane is [posOffset] bytes ahead of it. *)

From S2P Require Import Prelude Bytes Crc HashCrc Md5 Md5Spec Md5Single.

Record HasherInput := {
  h_tmp : list Z;       (* 128 bytes *)
  md5_block : md5state; (* lane HASH2X_BLOCK *)
  md5_file : md5state;  (* lane HASH2X_FILE *)
  crcState : Z;
  tmpLen : nat;
  posOffset : nat;
  len_block : Z;        (* dataLen[HASH2X_BLOCK] *)
  len_file : Z;         (* dataLen[HASH2X_FILE] *)
}.

(** [HasherInput::reset] *)
Definition h_reset (h : HasherInput) : HasherInput :=
  {| h_tmp := h_tmp h; md5_block := md5_init; md5_file := md5_init; crcState := crc_init;
     tmpLen := 0; posOffset := 0; len_block := 0; len_file := 0 |}.

Definition set_tmp (h : HasherInput) (t : list Z) (n : nat) : HasherInput :=
  {| h_tmp := t; md5_block := md5_block h; md5_file := md5_file h; crcState := crcState h;
     tmpLen := n; posOffset := posOffset h; len_block := len_block h; len_file := len_file h |}.

(** [md5_update_block_x2(md5State, blockData, fileData)] *)
Definition update_block_x2 (h : HasherInput) (blockData fileData : list Z) : HasherInput :=
  {| h_tmp := h_tmp h; md5_block := md5_process_block (md5_block h) (take 64 blockData);
     md5_file := md5_process_block (md5_file h) (take 64 fileData); crcState := crcState h;
     tmpLen := tmpLen h; posOffset := posOffset h; len_block := len_block h; len_file := len_file h |}.

Definition set_crc (h : HasherInput) (crc : Z) : HasherInput :=
  {| h_tmp := h_tmp h; md5_block := md5_block h; md5_file := md5_file h; crcState := crc;
     tmpLen := tmpLen h; posOffset := posOffset h; len_block := len_block h; len_file := len_file h |}.

(** [crc_process_block] and [md5_update_block_x2] on the same block data *)
Definition process_pair (h : HasherInput) (blockData fileData : list Z) : option HasherInput :=
  crc ← crc_process_block (crcState h) blockData;
  Some (update_block_x2 (set_crc h crc) blockData fileData).

(** The loop over the data in [tmp]; the result says whether [update] returns. *)
Fixpoint update_pending (fuel : nat) (h : HasherInput) (data : list Z) : option (bool * HasherInput * list Z) :=
  match fuel with
  | O => None
  | S fuel =>
      let wanted := (64 + posOffset h - tmpLen h)%nat in
      if Nat.ltb (length data) wanted then
        Some (true, set_tmp h (memcpy (h_tmp h) (tmpLen h) data) (tmpLen h + length data), [])
      else
        let direct := Nat.leb (tmpLen h) (posOffset h) in
        let wanted := if direct then (64 - tmpLen h)%nat else wanted in
        let t := memcpy (h_tmp h) (tmpLen h) (take wanted data) in
        let blockData := if direct then data else drop (posOffset h) t in
        h' ← process_pair (set_tmp h t (tmpLen h)) blockData t;
        let data := drop wanted data in
        if direct then Some (false, h', data)
        else update_pending fuel
               (set_tmp h' (memcpy t 0 (take (posOffset h) (drop 64 t))) (posOffset h)) data
  end.

(** [while(len >= MD5_BLOCKSIZE+posOffset)] *)
Fixpoint update_direct (fuel : nat) (h : HasherInput) (data : list Z) : option (HasherInput * list Z) :=
  if Nat.leb (64 + posOffset h) (length data) then
    match fuel with
    | O => None
    | S fuel =>
        h ← process_pair h (drop (posOffset h) data) data;
        update_direct fuel h (drop 64 data)
    end
  else Some (h, data).

(** [HasherInput::update] *)
Definition h_update (h : HasherInput) (data : list Z) : option HasherInput :=
  let n := Z.of_nat (length data) in
  let h := {| h_tmp := h_tmp h; md5_block := md5_block h; md5_file := md5_file h; crcState := crcState h;
              tmpLen := tmpLen h; posOffset := posOffset h;
              len_block := wrap 64 (len_block h + n); len_file := wrap 64 (len_file h + n) |} in
  '(returned, h, data) ← (if Nat.eqb (tmpLen h) 0 then Some (false, h, data) else update_pending 2 h data);
  if (returned : bool) then Some h else
  '(h, data) ← update_direct (length data / 64) h data;
  Some (set_tmp h (memcpy (h_tmp h) 0 data) (length data)).

(** [HasherInput::resetBlock] *)
Definition resetBlock (h : HasherInput) : HasherInput :=
  let h := (if Nat.leb 64 (tmpLen h) then
              let h := update_block_x2 h (h_tmp h) (h_tmp h) in
              set_tmp h (memcpy (h_tmp h) 0 (take (tmpLen h - 64) (drop 64 (h_tmp h)))) (tmpLen h - 64)
            else h) in
  {| h_tmp := h_tmp h; md5_block := md5_init; md5_file := md5_file h; crcState := crc_init;
     tmpLen := tmpLen h; posOffset := tmpLen h; len_block := 0; len_file := len_file h |}.

(** [HasherInput::getBlock]: the 16 bytes of the MD5, the 4 bytes of the CRC, and the object *)
Definition getBlock (h : HasherInput) (zeroPad : Z) : option (list Z * HasherInput) :=
  st ← md5_final_block (md5_block h) (drop (posOffset h) (h_tmp h)) (len_block h) zeroPad;
  crc ← crc_finish (crcState h) (drop (posOffset h) (h_tmp h)) (Z.to_nat (Z.land (len_block h) 63));
  crc ← crc_zeroPad crc zeroPad;
  Some (md5_bytes st ++ [Z.land crc 0xff; Z.land (Z.shiftr crc 8) 0xff; Z.land (Z.shiftr crc 16) 0xff;
                         Z.land (Z.shiftr crc 24) 0xff], resetBlock h).

(** [HasherInput::end] *)
Definition h_end (h : HasherInput) : option (list Z) :=
  let h := (if Nat.leb 64 (tmpLen h) then update_block_x2 h (h_tmp h) (h_tmp h) else h) in
  st ← md5_final_block (md5_file h) (h_tmp h) (len_file h) 0;
  Some (md5_bytes st).

(** [HasherInput::extractFileMD5]: [outMD5] keeps the rest of its buffer. *)
Definition extractFileMD5 (h : HasherInput) (outMD5 : MD5Single) : MD5Single :=
  if Nat.leb 64 (tmpLen h) then
    {| tmp := memcpy (tmp outMD5) 0 (take (tmpLen h mod 64) (drop 64 (h_tmp h)));
       md5State := md5_update (md5_file h) (h_tmp h) 1; dataLen := len_file h |}
  else
    {| tmp := memcpy (tmp outMD5) 0 (take (tmpLen h) (h_tmp h));
       md5State := md5_file h; dataLen := len_file h |}.

(** [HasherInput::updateFile]: data that belongs to the file but to no block.  [scratch] is
    the content of the uninitialised buffer of the local [fileHash]. *)
Definition updateFile (h : HasherInput) (data scratch : list Z) : HasherInput :=
  let h := {| h_tmp := h_tmp h; md5_block := md5_block h; md5_file := md5_file h; crcState := crcState h;
              tmpLen := tmpLen h; posOffset := posOffset h; len_block := len_block h;
              len_file := wrap 64 (len_file h + Z.of_nat (length data)) |} in
  if Nat.ltb (length data + tmpLen h) 128 then
    resetBlock (set_tmp h (memcpy (h_tmp h) (tmpLen h) data) (tmpLen h + length data))
  else
    let '(st, ftmp, n) :=
      (if Nat.leb 64 (tmpLen h) then
         (md5_update (md5_file h) (h_tmp h) 1, memcpy scratch 0 (take (tmpLen h - 64) (drop 64 (h_tmp h))), (tmpLen h - 64)%nat)
       else (md5_file h, memcpy scratch 0 (take (tmpLen h) (h_tmp h)), tmpLen h)) in
    let '(st, t, n) :=
      (if Nat.ltb (length data + n) 64 then
         (st, memcpy (memcpy (h_tmp h) 0 (take n ftmp)) n data, (n + length data)%nat)
       else
         let '(st, data) :=
           (if Nat.ltb 0 n then
              let consume := (64 - n)%nat in
              (md5_update st (memcpy ftmp n (take consume data)) 1, drop consume data)
            else (st, data)) in
         let blocks := (length data / 64)%nat in
         (md5_update st data blocks, memcpy (h_tmp h) 0 (drop (64 * blocks) data), length (drop (64 * blocks) data))) in
    {| h_tmp := t; md5_block := md5_init; md5_file := st; crcState := crc_init;
       tmpLen := n; posOffset := n; len_block := 0; len_file := len_file h |}.
