(* ===== verification/HasherSpec.v ===== *)
(** * HasherSpec.v: what [HasherInput] promises

    [h_rep h pre BD] relates the object to the bytes [pre] of the file before the current
    block and the bytes [BD] of the block so far. *)

From S2P Require Import Prelude Bytes Crc HashCrc Md5 Md5Spec Md5Single Hasher.

Lemma md5_update_1 st data n : (64 * n + 64 ≤ length data)%nat →
  md5_update st data (n + 1) = md5_process_block (md5_update st data n) (take 64 (drop (64 * n) data)).
Proof. intros. by rewrite md5_update_add. Qed.

Lemma take_eq_le {A} (n m : nat) (l1 l2 : list A) : (n ≤ m)%nat → take m l1 = take m l2 → take n l1 = take n l2.
Proof. intros Hn E. apply (f_equal (take n)) in E. by rewrite !take_take, !Nat.min_l in E by lia. Qed.

Section Stream.
Context (pre BD : list Z).
Hypothesis HBD : Forall (in_range 8) BD.

Abbreviation p := (length pre mod 64)%nat.
Abbreviation q := (length pre / 64)%nat.

Lemma pre_split : length pre = (64 * q + p)%nat ∧ (p < 64)%nat.
Proof. pose proof (Nat.div_mod_eq (length pre) 64). pose proof (Nat.mod_upper_bound (length pre) 64). lia. Qed.

(** The file bytes the file lane has not processed after [k] steps in the block. *)
Definition fpend (k : nat) : list Z := drop (64 * (q + k)) (pre ++ BD).

Lemma length_fpend k : (64 * k ≤ length BD)%nat → length (fpend k) = (p + length BD - 64 * k)%nat.
Proof. pose proof pre_split. intros. unfold fpend. rewrite length_drop, length_app. lia. Qed.

Lemma fpend_succ k : fpend (k + 1) = drop 64 (fpend k).
Proof. unfold fpend. rewrite drop_drop. f_equal. lia. Qed.

Lemma fpend_block k : drop p (fpend k) = drop (64 * k) BD.
Proof.
  pose proof pre_split. unfold fpend. rewrite drop_drop.
  rewrite drop_app_ge by lia. f_equal. lia.
Qed.

Record lanes_ok (h : HasherInput) (k : nat) : Prop := {
  lo_k : (64 * k ≤ length BD)%nat;
  lo_file : md5_file h = md5_update md5_init (pre ++ BD) (q + k);
  lo_block : md5_block h = md5_update md5_init BD k;
  lo_crc : crcState h = crc_feed crc_init (take (64 * k) BD);
  lo_pos : posOffset h = p;
}.

Lemma process_pair_ok h k bd fd : lanes_ok h k → (64 * k + 64 ≤ length BD)%nat →
  take 64 bd = take 64 (drop p (fpend k)) → take 64 fd = take 64 (fpend k) →
  ∃ h', process_pair h bd fd = Some h' ∧ lanes_ok h' (k + 1) ∧ h_tmp h' = h_tmp h ∧ tmpLen h' = tmpLen h ∧
    len_block h' = len_block h ∧ len_file h' = len_file h.
Proof.
  intros [Hk Hf Hb Hc Hp] Hlen Hbd Hfd. rewrite fpend_block in Hbd. unfold process_pair.
  assert (Forall (in_range 8) (take 64 bd)) as Hbytes by (rewrite Hbd; by apply Forall_take, Forall_drop).
  assert (in_range 32 (crcState h)) as Hcr.
  { rewrite Hc. apply crc_feed_range; [split; by vm_compute|by apply Forall_take]. }
  assert (64 ≤ length bd)%nat as Hlbd.
  { apply (f_equal length) in Hbd. rewrite !length_take, length_drop in Hbd. lia. }
  rewrite crc_process_block_ok by done. cbn [mbind option_bind]. eexists. split; [done|]. split; [|done].
  pose proof pre_split. split; cbn [md5_file md5_block crcState posOffset update_block_x2 set_crc]; [lia| | | |done].
  - rewrite Nat.add_assoc, md5_update_1 by (rewrite length_app; lia). by rewrite Hf, Hfd.
  - rewrite md5_update_1 by lia. by rewrite Hb, Hbd.
  - rewrite Hc, Hbd, <- crc_feed_app, take_take_drop. do 2 f_equal. lia.
Qed.

Lemma set_tmp_lanes h k t n : lanes_ok h k → lanes_ok (set_tmp h t n) k.
Proof. intros [? ? ? ? ?]. by split. Qed.

(** The object when no complete block is pending. *)
Definition settled (h : HasherInput) (k : nat) : Prop :=
  lanes_ok h k ∧ length (h_tmp h) = 128%nat ∧ tmpLen h = length (fpend k) ∧ (tmpLen h < 64 + p)%nat ∧
  take (tmpLen h) (h_tmp h) = fpend k.

(** ** The direct loop *)
Lemma update_direct_ok fuel h k data : lanes_ok h k → data = fpend k → length (h_tmp h) = 128%nat →
  (length data / 64 ≤ fuel)%nat →
  ∃ h' k', update_direct fuel h data = Some (h', fpend k') ∧ lanes_ok h' k' ∧ h_tmp h' = h_tmp h ∧
    (length (fpend k') < 64 + p)%nat ∧ len_block h' = len_block h ∧ len_file h' = len_file h.
Proof.
  revert h k data. induction fuel as [|fuel IH]; intros h k data Hl -> Ht Hf; cbn [update_direct].
  - rewrite (lo_pos _ _ Hl). destruct (Nat.leb_spec (64 + p) (length (fpend k))) as [Hle|Hgt].
    + exfalso. assert (1 ≤ length (fpend k) / 64)%nat; [|lia]. apply Nat.div_le_lower_bound; lia.
    + by exists h, k.
  - rewrite (lo_pos _ _ Hl). destruct (Nat.leb_spec (64 + p) (length (fpend k))) as [Hle|Hgt]; [|by exists h, k].
    pose proof (lo_k _ _ Hl). rewrite length_fpend in Hle by done.
    destruct (process_pair_ok h k (drop p (fpend k)) (fpend k)) as (h1 & -> & Hl1 & Ht1 & _ & Hb1 & Hf1);
      [done|lia|done|done|].
    cbn [mbind option_bind]. rewrite <- fpend_succ.
    destruct (IH h1 (k + 1)%nat (fpend (k + 1)) Hl1 eq_refl) as (h' & k' & Hrun & H1 & H2 & H3 & H4 & H5).
    + by rewrite Ht1.
    + rewrite fpend_succ, length_drop, length_fpend by done. rewrite length_fpend in Hf by done.
      replace (p + length BD - 64 * k)%nat with (p + length BD - 64 * k - 64 + 1 * 64)%nat in Hf by lia.
      rewrite Nat.div_add in Hf by lia. lia.
    + exists h', k'. rewrite H2, H4, H5. by split_and!.
Qed.

(** ** The bytes pending in [tmp] *)
Lemma update_pending_ok fuel h k data :
  lanes_ok h k → length (h_tmp h) = 128%nat → (p ≤ tmpLen h < 64 + p)%nat →
  fpend k = take (tmpLen h) (h_tmp h) ++ data → (0 < fuel)%nat → (p < tmpLen h → 2 ≤ fuel)%nat →
  ∃ ret h' data', update_pending fuel h data = Some (ret, h', data') ∧
    len_block h' = len_block h ∧ len_file h' = len_file h ∧ length (h_tmp h') = 128%nat ∧
    ∃ k', lanes_ok h' k' ∧
    if (ret : bool) then settled h' k' else data' = fpend k'.
Proof.
  revert h k data. induction fuel as [|fuel IH]; intros h k data Hl Ht Hn Hpend Hf0 Hf; [lia|].
  pose proof pre_split as [_ Hp64]. pose proof (lo_k _ _ Hl) as Hk. cbn [update_pending]. rewrite (lo_pos _ _ Hl).
  assert (length (take (tmpLen h) (h_tmp h)) = tmpLen h) as Htl by (rewrite length_take; lia).
  assert (length (fpend k) = tmpLen h + length data)%nat as Hfl by (rewrite Hpend, length_app; lia).
  pose proof (length_fpend k Hk) as Hfl2.
  destruct (Nat.ltb_spec (length data) (64 + p - tmpLen h)) as [Hlt|Hge].
  { eexists true, _, []. split; [done|]. cbn [len_block len_file h_tmp set_tmp].
    split_and!; [done|done|by rewrite length_memcpy by lia|]. exists k. split; [by apply set_tmp_lanes|].
    unfold settled. cbn [tmpLen h_tmp set_tmp]. split_and!; [by apply set_tmp_lanes|by rewrite length_memcpy by lia|lia|lia|].
    rewrite take_memcpy by lia. done. }
  assert (64 * k + 64 ≤ length BD)%nat as Hroom by lia.
  destruct (Nat.leb_spec (tmpLen h) p) as [Hdir|Hnd].
  - (* the block comes from the data *)
    set (t := memcpy (h_tmp h) (tmpLen h) (take (64 - tmpLen h) data)).
    assert (take 64 t = take 64 (fpend k)) as Hfd.
    { unfold t. rewrite take_memcpy; [|lia|rewrite length_take; lia].
      rewrite Hpend, take_app_ge, Htl by (rewrite Htl; lia). done. }
    assert (drop p (fpend k) = data) as Hbd. { rewrite Hpend, drop_app_ge, Htl by lia. by replace (p - tmpLen h)%nat with 0%nat by lia. }
    destruct (process_pair_ok (set_tmp h t (tmpLen h)) k data t) as (h' & Hrun & Hl' & Ht' & _ & Hb' & Hf').
    { by apply set_tmp_lanes. } { done. } { by rewrite Hbd. } { done. }
    rewrite Hrun. cbn [mbind option_bind]. eexists false, h', _. split; [done|].
    rewrite Hb', Hf', Ht'. cbn [h_tmp set_tmp len_block len_file]. split_and!; [done|done| |].
    { unfold t. rewrite length_memcpy; [done|]. rewrite length_take. lia. }
    exists (k + 1)%nat. split; [done|]. rewrite fpend_succ, Hpend, drop_app_ge, Htl by lia. done.
  - (* both lanes take their block from [tmp] *)
    set (w := (64 + p - tmpLen h)%nat) in *. set (t := memcpy (h_tmp h) (tmpLen h) (take w data)).
    assert (length t = 128%nat) as Hlt by (unfold t; rewrite length_memcpy; [done|rewrite length_take; lia]).
    assert (take (64 + p) t = take (64 + p) (fpend k)) as Hfd.
    { unfold t. rewrite take_memcpy; [|lia|rewrite length_take; lia].
      rewrite Hpend, take_app_ge, Htl by (rewrite Htl; lia). done. }
    assert (take 64 (drop p t) = take 64 (drop p (fpend k))) as Hbd.
    { rewrite !firstn_skipn_comm, (Nat.add_comm p 64). by rewrite Hfd. }
    destruct (process_pair_ok (set_tmp h t (tmpLen h)) k (drop p t) t) as (h1 & Hrun & Hl1 & Ht1 & _ & Hb1 & Hf1).
    { by apply set_tmp_lanes. } { done. } { done. } { apply (take_eq_le 64 (64 + p)); [lia|done]. }
    rewrite Hrun. cbn [mbind option_bind].
    assert (take p (drop 64 t) = take p (fpend (k + 1))) as Hnext.
    { rewrite fpend_succ, !firstn_skipn_comm. by rewrite Hfd. }
    assert (length (take p (drop 64 t)) = p) as Hlp by (rewrite length_take, length_drop; lia).
    destruct (IH (set_tmp h1 (memcpy t 0 (take p (drop 64 t))) p) (k + 1)%nat (drop w data)) as (ret & h' & d' & Hr & E1 & E2 & E3 & E4);
      cbn [tmpLen h_tmp set_tmp len_block len_file].
    + by apply set_tmp_lanes.
    + rewrite length_memcpy; [done|lia].
    + lia.
    + rewrite take_memcpy, take_0, app_nil_l, Hnext by lia. rewrite <- (take_drop p (fpend (k + 1))) at 1. f_equal.
      rewrite fpend_succ, Hpend, !drop_drop, drop_app_ge, Htl by lia. f_equal; lia.
    + lia.
    + lia.
    + rewrite Hr. exists ret, h', d'. rewrite E1, E2. cbn [len_block len_file set_tmp]. rewrite Hb1, Hf1. by split_and!.
Qed.
End Stream.

(** ** The object *)

Record h_rep (h : HasherInput) (pre BD : list Z) : Prop := {
  hr_bytes : Forall (in_range 8) BD;
  hr_settled : settled pre BD h (length BD / 64);
  hr_block : len_block h = wrap 64 (Z.of_nat (length BD));
  hr_file : len_file h = wrap 64 (Z.of_nat (length (pre ++ BD)));
}.

Lemma settled_k pre BD h k : settled pre BD h k → k = (length BD / 64)%nat.
Proof.
  intros (Hl & _ & Hn & Hlt & _). pose proof (lo_k _ _ _ _ Hl) as Hk. rewrite length_fpend in Hn by done.
  apply (Nat.div_unique _ _ _ (length BD - 64 * k)); lia.
Qed.

(** A state between blocks, from the file lane alone. *)
Lemma h_rep_fresh h pre : length (h_tmp h) = 128%nat → md5_block h = md5_init → crcState h = crc_init →
  posOffset h = (length pre mod 64)%nat → tmpLen h = (length pre mod 64)%nat → md5_file h = md5_blocks md5_init pre →
  take (tmpLen h) (h_tmp h) = md5_tail pre → len_block h = 0 → len_file h = wrap 64 (Z.of_nat (length pre)) →
  h_rep h pre [].
Proof.
  intros H1 H2 H3 H4 H5 H6 H7 H8 H9. split; [constructor| |by rewrite H8|by rewrite app_nil_r].
  assert (fpend pre [] 0 = md5_tail pre) as E by (unfold fpend, md5_tail; by rewrite app_nil_r, Nat.add_0_r).
  unfold settled. change (length [] / 64)%nat with 0%nat. rewrite E, H7, H5, length_md5_tail. split_and!; [|done|done|lia|done].
  split; try done. by rewrite H6, app_nil_r, Nat.add_0_r.
Qed.

Lemma h_reset_ok h : length (h_tmp h) = 128%nat → h_rep (h_reset h) [] [].
Proof. intros. by apply h_rep_fresh. Qed.

Lemma lanes_extend pre BD data h k : lanes_ok pre BD h k → lanes_ok pre (BD ++ data) h k.
Proof.
  intros [Hk Hf Hb Hc Hp]. pose proof (pre_split pre). split; [rewrite length_app; lia| | | |done].
  - rewrite app_assoc, md5_update_app; [done|]. rewrite length_app. lia.
  - by rewrite md5_update_app.
  - by rewrite take_app_le.
Qed.

(** [update] appends to the block and to the file. *)
Lemma h_update_ok h pre BD data : h_rep h pre BD → Forall (in_range 8) data →
  ∃ h', h_update h data = Some h' ∧ h_rep h' pre (BD ++ data).
Proof.
  intros [Hby (Hl & Ht & Hn & Hlt & Htake) Hb Hf] Hd. set (k := (length BD / 64)%nat) in *.
  pose proof (pre_split pre) as [Hpre Hp]. pose proof (lo_k _ _ _ _ Hl) as Hk.
  assert (Forall (in_range 8) (BD ++ data)) as Hby' by (by apply Forall_app).
  apply (lanes_extend _ _ data) in Hl as Hl'.
  assert (fpend pre (BD ++ data) k = take (tmpLen h) (h_tmp h) ++ data) as Hpend.
  { rewrite Htake. unfold fpend. rewrite app_assoc, drop_app_le; [done|]. rewrite length_app. lia. }
  unfold h_update. set (h0 := {| h_tmp := _ |}).
  assert (lanes_ok pre (BD ++ data) h0 k) as Hl0 by (destruct Hl'; by split).
  assert (∀ h' k', settled pre (BD ++ data) h' k' → len_block h' = len_block h0 → len_file h' = len_file h0 → h_rep h' pre (BD ++ data)) as Hdone.
  { intros h' k' Hs E1 E2. rewrite (settled_k _ _ _ _ Hs) in Hs. split; [done|done| |].
    - rewrite E1. cbn [len_block h0]. by rewrite Hb, wrap_length.
    - rewrite E2. cbn [len_file h0]. by rewrite Hf, wrap_length, app_assoc. }
  assert (∃ ret h1 d1, (if Nat.eqb (tmpLen h0) 0 then Some (false, h0, data) else update_pending 2 h0 data) = Some (ret, h1, d1) ∧
    len_block h1 = len_block h0 ∧ len_file h1 = len_file h0 ∧ length (h_tmp h1) = 128%nat ∧
    ∃ k', lanes_ok pre (BD ++ data) h1 k' ∧ if (ret : bool) then settled pre (BD ++ data) h1 k' else d1 = fpend pre (BD ++ data) k')
    as (ret & h1 & d1 & -> & E1 & E2 & E3 & k1 & Hl1 & Hret).
  { destruct (Nat.eqb_spec (tmpLen h0) 0) as [E0|E0].
    - exists false, h0, data. split_and!; [done..|]. exists k. split; [done|]. cbn [tmpLen h0] in E0. by rewrite Hpend, E0.
    - apply (update_pending_ok pre (BD ++ data) Hby' 2 h0 k data); cbn [tmpLen h_tmp h0]; try done; [|lia].
      split; [|done]. rewrite Hn, length_fpend by done. lia. }
  cbn [mbind option_bind]. destruct ret; [by eexists; split; [done|]; apply (Hdone _ k1)|]. subst d1.
  destruct (update_direct_ok pre (BD ++ data) Hby' (length (fpend pre (BD ++ data) k1) / 64) h1 k1 _ Hl1 eq_refl E3 ltac:(lia))
    as (h2 & k2 & -> & Hl2 & Ht2 & Hlt2 & E4 & E5).
  cbn [mbind option_bind]. eexists. split; [done|]. apply (Hdone _ k2); [|exact (eq_trans E4 E1)|exact (eq_trans E5 E2)].
  unfold settled. cbn [h_tmp tmpLen set_tmp]. split_and!; [by apply set_tmp_lanes| |done|done|].
  - rewrite length_memcpy, Ht2; [done|]. rewrite Ht2. lia.
  - rewrite take_memcpy; [by rewrite take_0|lia|done].
Qed.

(** The file lane and [tmp] hold the bytes [X]: [m] blocks processed, less than two pending. *)
Record holds_file (st : md5state) (t : list Z) (n : nat) (X : list Z) (m : nat) : Prop := {
  hf_state : st = md5_update md5_init X m;
  hf_le : (64 * m ≤ length X)%nat;
  hf_n : n = (length X - 64 * m)%nat;
  hf_lt : (n < 128)%nat;
  hf_take : take n t = drop (64 * m) X;
}.

Lemma file_pending st t n X m : holds_file st t n X m →
  if Nat.leb 64 n then
    md5_process_block st (take 64 t) = md5_blocks md5_init X ∧
    (n - 64 = length X mod 64)%nat ∧ take (n - 64) (drop 64 t) = md5_tail X
  else st = md5_blocks md5_init X ∧ n = (length X mod 64)%nat ∧ take n t = md5_tail X.
Proof.
  intros [-> Hm Hn Hlt Htk]. destruct (Nat.leb_spec 64 n) as [Hge|Hlt64].
  - assert (length X / 64 = m + 1)%nat as Ediv by (symmetry; apply (Nat.div_unique _ _ _ (n - 64)); lia).
    assert (length X mod 64 = n - 64)%nat as Emod by (symmetry; apply (Nat.mod_unique _ _ (m + 1)); lia).
    split_and!; [|done|].
    + unfold md5_blocks. rewrite Ediv, md5_update_1 by lia. f_equal. rewrite <- Htk, take_take. f_equal. lia.
    + unfold md5_tail. rewrite Ediv. replace (64 * (m + 1))%nat with (64 * m + 64)%nat by lia.
      rewrite <- drop_drop, <- Htk. by rewrite skipn_firstn_comm.
  - assert (length X / 64 = m)%nat as Ediv by (symmetry; apply (Nat.div_unique _ _ _ n); lia).
    assert (length X mod 64 = n)%nat as Emod by (symmetry; apply (Nat.mod_unique _ _ m); lia).
    unfold md5_blocks, md5_tail. by rewrite Ediv.
Qed.

Lemma h_rep_file h pre BD : h_rep h pre BD →
  holds_file (md5_file h) (h_tmp h) (tmpLen h) (pre ++ BD) (length pre / 64 + length BD / 64).
Proof.
  intros [Hby (Hl & Ht & Hn & Hlt & Htake) Hb Hf]. pose proof (pre_split pre) as [Hpre Hp].
  pose proof (lo_k _ _ _ _ Hl) as Hk. rewrite length_fpend in Hn by done.
  split; [apply (lo_file _ _ _ _ Hl)| | |lia|done]; rewrite length_app; lia.
Qed.

Lemma file_state h pre BD : h_rep h pre BD →
  if Nat.leb 64 (tmpLen h) then
    md5_process_block (md5_file h) (take 64 (h_tmp h)) = md5_blocks md5_init (pre ++ BD) ∧
    (tmpLen h - 64 = length (pre ++ BD) mod 64)%nat ∧ take (tmpLen h - 64) (drop 64 (h_tmp h)) = md5_tail (pre ++ BD)
  else md5_file h = md5_blocks md5_init (pre ++ BD) ∧ tmpLen h = (length (pre ++ BD) mod 64)%nat ∧
    take (tmpLen h) (h_tmp h) = md5_tail (pre ++ BD).
Proof. intros Hrep. exact (file_pending _ _ _ _ _ (h_rep_file h pre BD Hrep)). Qed.

(** [resetBlock] starts a new block. *)
Lemma resetBlock_file h X m : length (h_tmp h) = 128%nat → len_file h = wrap 64 (Z.of_nat (length X)) →
  holds_file (md5_file h) (h_tmp h) (tmpLen h) X m → h_rep (resetBlock h) X [].
Proof.
  intros Ht Hf Hh. pose proof (file_pending _ _ _ _ _ Hh) as Hfs. pose proof (hf_lt _ _ _ _ _ Hh).
  unfold resetBlock. destruct (Nat.leb_spec 64 (tmpLen h)); destruct Hfs as (F1 & F2 & F3); [|by apply h_rep_fresh].
  assert (length (take (tmpLen h - 64) (drop 64 (h_tmp h))) = tmpLen h - 64)%nat as Hlt'
    by (rewrite length_take, length_drop; lia).
  apply h_rep_fresh; cbn [h_tmp md5_block md5_file crcState tmpLen posOffset len_block len_file set_tmp update_block_x2]; try done; try congruence.
  - rewrite length_memcpy; [done|]. lia.
  - rewrite take_memcpy; [by rewrite take_0|lia|by rewrite Hlt'].
Qed.

Lemma resetBlock_ok h pre BD : h_rep h pre BD → h_rep (resetBlock h) (pre ++ BD) [].
Proof.
  intros Hrep. pose proof (h_rep_file h pre BD Hrep) as Hh. destruct Hrep as [_ (_ & Ht & _) _ Hf].
  by eapply resetBlock_file.
Qed.

(** The four bytes of the CRC. *)
Lemma crc_bytes crc : [Z.land crc 0xff; Z.land (Z.shiftr crc 8) 0xff; Z.land (Z.shiftr crc 16) 0xff; Z.land (Z.shiftr crc 24) 0xff]
  = le_split 4 crc.
Proof. unfold le_split, byte_of. cbn [fmap list_fmap seq]. by rewrite Z.shiftr_0_r. Qed.

(** What [getBlock] returns for a block: MD5 and CRC of the zero-padded data. *)
Definition block_hash (data : list Z) : list Z := md5 data ++ le_split 4 (crc32 data).

Lemma getBlock_ok h pre BD n : h_rep h pre BD → Z.of_nat n < 2 ^ 64 - 64 →
  getBlock h (Z.of_nat n) = Some (block_hash (BD ++ replicate n 0), resetBlock h).
Proof.
  intros [Hby (Hl & Ht & Hn & Hlt & Htake) Hb Hf] Hz. set (k := (length BD / 64)%nat) in *.
  pose proof (pre_split pre) as [_ Hp]. pose proof (lo_k _ _ _ _ Hl) as Hk. pose proof (length_fpend pre BD k Hk) as Hfl.
  pose proof (Nat.div_mod_eq (length BD) 64) as Hdm. fold k in Hdm.
  assert (take (length BD mod 64) (drop (posOffset h) (h_tmp h)) = md5_tail BD) as Htail.
  { rewrite (lo_pos _ _ _ _ Hl). replace (length BD mod 64)%nat with (tmpLen h - length pre mod 64)%nat by lia.
    rewrite <- skipn_firstn_comm, Htake, fpend_block. done. }
  assert (in_range 32 crc_init) as Hci by (split; by vm_compute).
  assert (in_range 32 (crcState h)) as Hcr. { rewrite (lo_crc _ _ _ _ Hl). apply crc_feed_range; [done|by apply Forall_take]. }
  unfold getBlock. rewrite Hb, (lo_block _ _ _ _ Hl).
  change (md5_update md5_init BD k) with (md5_blocks md5_init BD). rewrite md5_final_block_ok by done. cbn [mbind option_bind].
  rewrite low_bits_nat, crc_finish_ok; [|done|rewrite Htail; by apply Forall_drop|].
  - cbn [mbind option_bind]. rewrite Htail, (lo_crc _ _ _ _ Hl), <- crc_feed_app.
    change (take (64 * k) BD) with (md5_head BD). rewrite md5_head_tail.
    rewrite crc_zeroPad_ok by first [by apply crc_feed_range|split; lia]. cbn [mbind option_bind].
    rewrite crc_bytes, <- crc_feed_app. done.
  - rewrite length_drop, (lo_pos _ _ _ _ Hl). lia.
Qed.

(** [end] when less than a block is pending in [tmp]. *)
Lemma h_end_ok h pre BD : h_rep h pre BD → (tmpLen h < 64)%nat → h_end h = Some (md5 (pre ++ BD)).
Proof.
  intros Hrep Hlt. pose proof (file_state h pre BD Hrep) as Hfs. unfold h_end.
  destruct (Nat.leb_spec 64 (tmpLen h)); [lia|]. destruct Hfs as (F1 & F2 & F3).
  rewrite (hr_file _ _ _ Hrep), F1. change 0 with (Z.of_nat 0) at 1.
  rewrite md5_final_block_ok; [|by rewrite <- F2|done]. cbn [mbind option_bind]. by rewrite app_nil_r.
Qed.

(** [extractFileMD5] hands over the file hash. *)
Lemma extractFileMD5_ok h pre BD out : h_rep h pre BD → length (tmp out) = 64%nat →
  md5_rep (extractFileMD5 h out) (pre ++ BD).
Proof.
  intros Hrep Ho. pose proof (file_state h pre BD Hrep) as Hfs. unfold extractFileMD5.
  pose proof (Nat.mod_upper_bound (length (pre ++ BD)) 64 ltac:(lia)) as Hm.
  pose proof (length_md5_tail (pre ++ BD)) as Hl.
  destruct (Nat.leb_spec 64 (tmpLen h)) as [Hge|Hlt]; destruct Hfs as (F1 & F2 & F3).
  - assert (tmpLen h mod 64 = tmpLen h - 64)%nat as E by (symmetry; apply (Nat.mod_unique _ _ 1); lia).
    rewrite E, F3. split; cbn [tmp dataLen md5State].
    + by rewrite length_memcpy by lia.
    + apply (hr_file _ _ _ Hrep).
    + cbn [md5_update]. by rewrite F1.
    + rewrite take_memcpy; [by rewrite take_0|lia|lia].
  - rewrite F3. split; cbn [tmp dataLen md5State].
    + by rewrite length_memcpy by lia.
    + apply (hr_file _ _ _ Hrep).
    + done.
    + rewrite take_memcpy; [by rewrite take_0|lia|lia].
Qed.

(** ** [updateFile] *)

(** One block completed by [consume] bytes, then whole blocks. *)
Lemma file_blocks FD data ftmp n : n = (length FD mod 64)%nat → take n ftmp = md5_tail FD → length ftmp = 64%nat →
  (64 ≤ length data + n)%nat →
  let '(st, data') := (if Nat.ltb 0 n then (md5_update (md5_blocks md5_init FD) (memcpy ftmp n (take (64 - n) data)) 1, drop (64 - n) data)
                       else (md5_blocks md5_init FD, data)) in
  md5_update st data' (length data' / 64) = md5_blocks md5_init (FD ++ data) ∧
  drop (64 * (length data' / 64)) data' = md5_tail (FD ++ data).
Proof.
  intros Hn Hf Hl Hlen. pose proof (Nat.mod_upper_bound (length FD) 64 ltac:(lia)).
  assert (length (md5_tail FD) = n) as Htl by (by rewrite length_md5_tail).
  destruct (Nat.ltb_spec 0 n) as [Hpos|Hz].
  - assert (memcpy ftmp n (take (64 - n) data) = md5_tail FD ++ take (64 - n) data) as E.
    { unfold memcpy. rewrite Hf, drop_ge, app_nil_r; [done|]. rewrite length_take. lia. }
    assert (length (md5_tail FD ++ take (64 - n) data) = 64%nat) as E64 by (rewrite length_app, length_take; lia).
    assert (FD ++ data = (FD ++ take (64 - n) data) ++ drop (64 - n) data) as ED by (by rewrite <- app_assoc, take_drop).
    assert (length (FD ++ take (64 - n) data) mod 64 = 0)%nat as Hmod.
    { rewrite length_app, length_take, <- Nat.Div0.add_mod_idemp_l, <- Hn.
      replace (n + (64 - n) `min` length data)%nat with 64%nat by lia. done. }
    rewrite ED, md5_blocks_app, md5_tail_app by done.
    assert (md5_tail (FD ++ take (64 - n) data) = []) as -> by (apply nil_length_inv; by rewrite length_md5_tail).
    split; [|done]. rewrite E. cbn [md5_update]. rewrite <- E64 at 1. rewrite firstn_all.
    rewrite md5_blocks_tail, (md5_blocks_one _ (md5_tail FD ++ _)) by done. done.
  - assert (md5_tail FD = []) as E by (apply nil_length_inv; lia).
    rewrite md5_blocks_app, md5_tail_app, E by lia. done.
Qed.

Lemma updateFile_ok h pre BD data scratch : h_rep h pre BD → length scratch = 64%nat →
  h_rep (updateFile h data scratch) ((pre ++ BD) ++ data) [].
Proof.
  intros Hrep Hsc. pose proof (file_state h pre BD Hrep) as Hfs. pose proof (h_rep_file h pre BD Hrep) as [Hh1 Hh2 Hh3 Hh4 Hh5].
  destruct Hrep as [Hby (Hl & Ht & _) Hb Hf].
  set (FD := pre ++ BD) in *. pose proof (Nat.mod_upper_bound (length FD) 64 ltac:(lia)) as Hmod.
  pose proof (length_md5_tail FD) as HlT. unfold updateFile. cbn [tmpLen h_tmp md5_file len_file].
  destruct (Nat.ltb_spec (length data + tmpLen h) 128) as [Hs|Hs].
  - eapply (resetBlock_file _ _ (length pre / 64 + length BD / 64)); cbn [h_tmp md5_file tmpLen len_file set_tmp].
    + by rewrite length_memcpy by lia.
    + by rewrite Hf, wrap_length.
    + split; [by rewrite md5_update_app|rewrite length_app; lia|rewrite length_app; lia|lia|].
      rewrite take_memcpy, Hh5, drop_app_le by lia. done.
  - set (fst1 := if Nat.leb 64 (tmpLen h) then _ else _).
    assert (∃ ftmp, fst1 = (md5_blocks md5_init FD, ftmp, (length FD mod 64)%nat) ∧ length ftmp = 64%nat ∧
      take (length FD mod 64) ftmp = md5_tail FD) as (ftmp & E & Hft & Htk).
    { unfold fst1. clear fst1. destruct (Nat.leb_spec 64 (tmpLen h)); destruct Hfs as (F1 & F2 & F3); eexists; (split; [|split]).
      - rewrite F3, F2. cbn [md5_update]. by rewrite F1.
      - rewrite length_memcpy by lia. done.
      - rewrite take_memcpy; [by rewrite take_0|lia|lia].
      - rewrite F3, F1. by rewrite F2 at 1.
      - rewrite length_memcpy by lia. done.
      - rewrite take_memcpy; [by rewrite take_0|lia|lia]. }
    rewrite E. destruct (Nat.ltb_spec (length data + length FD mod 64) 64) as [|Hge]; [destruct (Nat.leb_spec 64 (tmpLen h)); lia|].
    pose proof (file_blocks FD data ftmp _ eq_refl Htk Hft Hge) as Hfb.
    destruct (if Nat.ltb 0 (length FD mod 64) then _ else _) as [st data']. destruct Hfb as [Hst Htl].
    pose proof (length_md5_tail (FD ++ data)) as HlT2. pose proof (Nat.mod_upper_bound (length (FD ++ data)) 64 ltac:(lia)).
    rewrite Htl, Hst. apply h_rep_fresh; cbn [h_tmp md5_block md5_file crcState tmpLen posOffset len_block len_file]; try done.
    + rewrite length_memcpy by lia. done.
    + rewrite take_memcpy; [by rewrite take_0|lia|done].
    + by rewrite Hf, wrap_length.
Qed.

(** ** Properties *)

(** The calls made while a file is read, and what they mean: the bytes of the file before
    the current block, those of the block, and the hashes returned so far. *)
Inductive h_call := HUpdate (data : list Z) | HGetBlock (zeroPad : nat).

Definition call_ok (c : h_call) : Prop :=
  match c with HUpdate data => Forall (in_range 8) data | HGetBlock n => Z.of_nat n < 2 ^ 64 - 64 end.

Fixpoint run_h (h : HasherInput) (calls : list h_call) : option (list (list Z) * HasherInput) :=
  match calls with
  | [] => Some ([], h)
  | HUpdate data :: calls => h ← h_update h data; run_h h calls
  | HGetBlock n :: calls =>
      '(out, h) ← getBlock h (Z.of_nat n);
      '(outs, h) ← run_h h calls;
      Some (out :: outs, h)
  end.

Fixpoint spec_h (pre BD : list Z) (calls : list h_call) : list (list Z) * list Z * list Z :=
  match calls with
  | [] => ([], pre, BD)
  | HUpdate data :: calls => spec_h pre (BD ++ data) calls
  | HGetBlock n :: calls =>
      let '(outs, pre', BD') := spec_h (pre ++ BD) [] calls in
      (block_hash (BD ++ replicate n 0) :: outs, pre', BD')
  end.

Lemma run_h_ok calls h pre BD : Forall call_ok calls → h_rep h pre BD →
  ∃ h', run_h h calls = Some ((spec_h pre BD calls).1.1, h') ∧ h_rep h' (spec_h pre BD calls).1.2 (spec_h pre BD calls).2.
Proof.
  intros Hcalls. revert h pre BD. induction Hcalls as [|[data|n] calls Hc _ IH]; intros h pre BD Hh; cbn [run_h spec_h].
  - by exists h.
  - destruct (h_update_ok h pre BD data Hh Hc) as (h1 & -> & Hh1). cbn [mbind option_bind]. by apply IH.
  - rewrite (getBlock_ok h pre BD n Hh Hc). cbn [mbind option_bind].
    destruct (IH (resetBlock h) (pre ++ BD) []) as (h' & -> & Hh'); [by apply resetBlock_ok|]. cbn [mbind option_bind].
    destruct (spec_h (pre ++ BD) [] calls) as [[outs pre'] BD']. by exists h'.
Qed.

(** C37: [HasherInput] refines its specification: for any sequence of [update] and
    [getBlock] calls after [reset], with pieces and blocks of any size, no read leaves the
    buffers, every [getBlock] returns the MD5 and CRC-32 of the data since the previous one
    followed by the zero padding, and [extractFileMD5], and [end] after a [getBlock], yield
    the MD5 of the whole file. *)
Theorem HasherInput_refines (h : HasherInput) (out : MD5Single) (calls : list h_call) :
  length (h_tmp h) = 128%nat → length (tmp out) = 64%nat → Forall call_ok calls →
  let '(outs, pre, BD) := spec_h [] [] calls in
  ∃ h', run_h (h_reset h) calls = Some (outs, h') ∧
    end_ (extractFileMD5 h' out) = Some (md5 (pre ++ BD)) ∧
    (BD = [] → h_end h' = Some (md5 pre)).
Proof.
  intros Hh Ho Hcalls. destruct (run_h_ok calls (h_reset h) [] [] Hcalls (h_reset_ok h Hh)) as (h' & Hrun & Hrep).
  destruct (spec_h [] [] calls) as [[outs pre] BD]. cbn [fst snd] in Hrun, Hrep. exists h'. split; [done|]. split.
  - by apply end_ok, extractFileMD5_ok.
  - intros ->. rewrite (h_end_ok h' pre []); [by rewrite app_nil_r|done|].
    destruct Hrep as [_ (_ & _ & Hn & _) _ _]. rewrite Hn, length_fpend by (simpl; lia). simpl (length []).
    pose proof (Nat.mod_upper_bound (length pre) 64 ltac:(lia)). lia.
Qed.

Definition example_hasher : HasherInput :=
  {| h_tmp := replicate 128 9; md5_block := md5_init; md5_file := md5_init; crcState := 0; tmpLen := 3;
     posOffset := 1; len_block := 7; len_file := 8 |}.
Definition example_single : MD5Single := {| tmp := replicate 64 9; md5State := md5_init; dataLen := 1 |}.

Lemma HasherInput_refines_witness :
  let '(outs, pre, BD) := spec_h [] [] [HUpdate (seqZ 0 100); HGetBlock 28; HUpdate (seqZ 5 70); HGetBlock 58] in
  ∃ h', run_h (h_reset example_hasher) [HUpdate (seqZ 0 100); HGetBlock 28; HUpdate (seqZ 5 70); HGetBlock 58] = Some (outs, h') ∧
    end_ (extractFileMD5 h' example_single) = Some (md5 (pre ++ BD)) ∧ (BD = [] → h_end h' = Some (md5 pre)).
Proof.
  apply (HasherInput_refines example_hasher example_single); [reflexivity..|].
  repeat constructor; simpl; lia.
Defined.

(** [end] alone is not enough when a block boundary left bytes pending: after 32 bytes, a
    [getBlock] and 40 more bytes, [end] pushes the first 64 pending bytes through but then
    finishes with the bytes at the start of the buffer instead of those after them, and
    the result is not the MD5 of the 72 bytes; [extractFileMD5] in the same state is right. *)
Theorem end_without_getBlock :
  match run_h (h_reset example_hasher) [HUpdate (seqZ 1 32); HGetBlock 0; HUpdate (seqZ 33 40)] with
  | Some (_, h) => h_end h ≠ Some (md5 (seqZ 1 72)) ∧ end_ (extractFileMD5 h example_single) = Some (md5 (seqZ 1 72))
  | None => False
  end.
Proof. vm_compute. split; [discriminate|reflexivity]. Qed.
