(* ===== verification/Md5Crc.v ===== *)
(** * Md5Crc.v: [MD5CRC_Calc] (include/par2/hasher/hasher_md5crc_base.h)

    The MD5 and CRC-32 of one buffer, zero padded, computed together; the verifier uses it
    for a block whose CRC matched. *)

From S2P Require Import Prelude Bytes Crc HashCrc Md5 Md5Spec Md5Single Hasher HasherSpec.

(** [while(length >= MD5_BLOCKSIZE)]: the MD5 state, the CRC and the remaining data *)
Fixpoint md5crc_blocks (blocks : nat) (st : md5state) (crc : Z) (data : list Z) : option (md5state * Z * list Z) :=
  match blocks with
  | O => Some (st, crc, data)
  | S blocks =>
      let st := md5_process_block st (take 64 data) in
      crc ← crc_process_block crc data;
      md5crc_blocks blocks st crc (drop 64 data)
  end.

(** [MD5CRC(Calc)]: the CRC returned and the hash written *)
Definition MD5CRC_Calc (data : list Z) (zeroPad : Z) : option (Z * list Z) :=
  let len := length data in
  '(st, crc, rest) ← md5crc_blocks (len / 64) md5_init crc_init data;
  st ← md5_final_block st rest (wrap 64 (Z.of_nat len)) zeroPad;
  crc ← crc_finish crc rest (len mod 64);
  crc ← crc_zeroPad crc zeroPad;
  Some (crc, md5_bytes st).

Lemma md5crc_blocks_ok blocks st crc data : in_range 32 crc → Forall (in_range 8) data → (64 * blocks ≤ length data)%nat →
  md5crc_blocks blocks st crc data
  = Some (md5_update st data blocks, crc_feed crc (take (64 * blocks) data), drop (64 * blocks) data).
Proof.
  intros Hc HF Hl. pose proof (calc_blocks_ok blocks crc data Hc HF Hl) as Hcalc. revert st crc data Hc HF Hl Hcalc.
  induction blocks as [|n IH]; intros st crc data Hc HF Hl Hcalc; cbn [md5crc_blocks calc_blocks md5_update] in *.
  { by rewrite Nat.mul_0_r, take_0, drop_0. }
  destruct (crc_process_block crc data) as [crc1|] eqn:E; [|done]. cbn [mbind option_bind] in *.
  assert (in_range 32 crc1) as Hc1.
  { rewrite crc_process_block_ok in E by first [done|lia|by apply Forall_take]. injection E as <-.
    by apply crc_feed_range, Forall_take. }
  pose proof (calc_blocks_ok n crc1 (drop 64 data) Hc1 (Forall_drop _ _ _ HF) ltac:(rewrite length_drop; lia)) as Hn.
  rewrite (IH _ crc1 (drop 64 data) Hc1 (Forall_drop _ _ _ HF) ltac:(rewrite length_drop; lia) Hn).
  rewrite Hn in Hcalc. apply Some_inj, pair_equal_spec in Hcalc as [E1 E2]. by rewrite E1, E2.
Qed.

Lemma MD5CRC_Calc_ok (data : list Z) (zeroPad : nat) :
  Forall (in_range 8) data → Z.of_nat zeroPad < 2 ^ 64 - 64 →
  MD5CRC_Calc data (Z.of_nat zeroPad) = Some (crc32 (data ++ replicate zeroPad 0), md5 (data ++ replicate zeroPad 0)).
Proof.
  intros HF Hn. pose proof (Nat.div_mod_eq (length data) 64) as Hdm. assert (in_range 32 crc_init) as Hci by (split; by vm_compute).
  assert (drop (64 * (length data / 64)) data = md5_tail data) as Et by done.
  unfold MD5CRC_Calc. rewrite md5crc_blocks_ok by (done || lia). cbn [mbind option_bind]. rewrite Et.
  assert (take (length data mod 64) (md5_tail data) = md5_tail data) as Hall by (rewrite <- length_md5_tail; apply firstn_all).
  change (md5_update md5_init data (length data / 64)) with (md5_blocks md5_init data).
  rewrite md5_final_block_ok by done. cbn [mbind option_bind].
  rewrite crc_finish_ok; [|by apply crc_feed_range, Forall_take|rewrite Hall; by apply Forall_drop|by rewrite length_md5_tail].
  cbn [mbind option_bind]. rewrite Hall, <- crc_feed_app. change (take (64 * (length data / 64)) data) with (md5_head data).
  rewrite md5_head_tail, crc_zeroPad_ok by first [by apply crc_feed_range|split; lia]. cbn [mbind option_bind].
  rewrite <- crc_feed_app. done.
Qed.

(** C39: [MD5CRC_Calc] returns the CRC-32 and writes the MD5 of the buffer followed by the
    zero padding: the hashes a PAR2 verification packet stores for a block. *)
Theorem MD5CRC_Calc_correct (data : list Z) (zeroPad : nat) :
  Forall (in_range 8) data → Z.of_nat zeroPad < 2 ^ 64 - 64 →
  MD5CRC_Calc data (Z.of_nat zeroPad) = Some (crc32 (data ++ replicate zeroPad 0), md5 (data ++ replicate zeroPad 0)).
Proof. apply MD5CRC_Calc_ok. Qed.

Lemma MD5CRC_Calc_correct_witness :
  MD5CRC_Calc (seqZ 0 130) 7 = Some (crc32 (seqZ 0 130 ++ replicate 7 0), md5 (seqZ 0 130 ++ replicate 7 0)).
Proof.
  apply (MD5CRC_Calc_correct (seqZ 0 130) 7); [|lia].
  apply Forall_forall. intros i Hi%elem_of_seqZ. split; simpl; lia.
Defined.
