(* ===== verification/DiskFile.v ===== *)
(** * DiskFile.v: [DiskFile] (src/diskfile.cpp) and [DataBlock] (src/datablock.cpp,
    include/par2/datablock.h)

    Two layers.  [DiskFile] is what the members of the object and the C stream make together
    of a file: its contents, a list of bytes, as the operating system keeps it, the position
    of the stream, and the position and size that the object remembers.  A read past the end
    is short, a write past the end extends the file with zeros in between.  [Read] and
    [Write] are the functions of the source on a stream that is open in the mode they need;
    the components that only read a file, or only write it, use this layer.  [DiskObject]
    adds the pointer [file]: null, or a stream opened for reading (by [Open]) or for writing
    (by [Create]); its operations [ReadDisk] and [WriteDisk] fail in the other mode, and to
    read what was written the object is closed and opened again.  Out-of-space errors are
    not represented. *)

From S2P Require Import Prelude.

(** ** [DiskFile] *)

(** [stream] is the position of the C stream, [offset] what the object remembers of it; in
    which mode the stream is open is not part of it, see [DiskObject]. *)
Record DiskFile := { contents : list Z; stream : Z; offset : Z; filesize : Z }.

Definition MaxOffset : Z := 0x7fffffffffffffff.

(** [fread] at the stream position: as many bytes as there are *)
Definition fread (file : list Z) (pos want : Z) : list Z :=
  take (Z.to_nat want) (drop (Z.to_nat pos) file).

(** [fwrite] at the stream position *)
Definition fwrite (file : list Z) (pos : Z) (data : list Z) : list Z :=
  let n := Z.to_nat pos in
  take n (file ++ replicate (n - length file) 0) ++ data ++ drop (n + length data) file.

(** The loop of [Read]: pieces of at most [maxlength]; the bytes read so far are kept in
    [buffer] also when a piece is short.  One iteration per byte is always enough. *)
Fixpoint read_loop (fuel : nat) (d : DiskFile) (length_ maxlength : Z) (buffer : list Z) : option (bool * DiskFile * list Z) :=
  if 0 <? length_ then
    match fuel with
    | O => None
    | S fuel =>
        let want := if maxlength <? length_ then maxlength else length_ in
        let got := fread (contents d) (stream d) want in
        let n := Z.of_nat (length got) in
        if negb (n =? want) then
          Some (false, {| contents := contents d; stream := stream d + n; offset := offset d; filesize := filesize d |}, buffer ++ got)
        else
          read_loop fuel {| contents := contents d; stream := stream d + n; offset := offset d + n; filesize := filesize d |}
            (length_ - n) maxlength (buffer ++ got)
    end
  else Some (true, d, buffer).

Definition seek (d : DiskFile) (pos : Z) : option DiskFile :=
  if offset d =? pos then Some d else
  if MaxOffset <? pos then None else
  Some {| contents := contents d; stream := pos; offset := pos; filesize := filesize d |}.

(** [DiskFile::Read] *)
Definition Read (d : DiskFile) (pos length_ maxlength : Z) : option (bool * DiskFile * list Z) :=
  match seek d pos with
  | None => Some (false, d, [])
  | Some d => read_loop (Z.to_nat length_) d length_ maxlength []
  end.

(** The loop of [Write] *)
Fixpoint write_loop (fuel : nat) (d : DiskFile) (data : list Z) (maxlength : Z) : option (bool * DiskFile) :=
  if 0 <? Z.of_nat (length data) then
    match fuel with
    | O => None
    | S fuel =>
        let write := if maxlength <? Z.of_nat (length data) then maxlength else Z.of_nat (length data) in
        let pos := offset d + write in
        write_loop fuel
          {| contents := fwrite (contents d) (stream d) (take (Z.to_nat write) data); stream := stream d + write;
             offset := pos; filesize := if filesize d <? pos then pos else filesize d |}
          (drop (Z.to_nat write) data) maxlength
    end
  else Some (true, d).

(** [DiskFile::Write] *)
Definition Write (d : DiskFile) (pos : Z) (data : list Z) (maxlength : Z) : option (bool * DiskFile) :=
  match seek d pos with
  | None => Some (false, d)
  | Some d => write_loop (length data) d data maxlength
  end.

(** ** [DataBlock] *)

(** The location: which file (the open files are numbered) and the offset in it, when known. *)
Record DataBlock := { b_diskfile : option nat; b_offset : Z; b_length : Z; b_filesize : Z }.

Definition mkDataBlock : DataBlock := {| b_diskfile := None; b_offset := 0; b_length := 0; b_filesize := 0 |}.
Definition SetLength (b : DataBlock) (n : Z) : DataBlock :=
  {| b_diskfile := b_diskfile b; b_offset := b_offset b; b_length := n; b_filesize := b_filesize b |}.
Definition SetFilesize (b : DataBlock) (n : Z) : DataBlock :=
  {| b_diskfile := b_diskfile b; b_offset := b_offset b; b_length := b_length b; b_filesize := n |}.
Definition SetLocation (b : DataBlock) (diskfile : nat) (off : Z) : DataBlock :=
  {| b_diskfile := Some diskfile; b_offset := off; b_length := b_length b; b_filesize := b_filesize b |}.
Definition ClearLocation (b : DataBlock) : DataBlock :=
  {| b_diskfile := None; b_offset := 0; b_length := b_length b; b_filesize := b_filesize b |}.

(** [DataBlock::IsSet], given the sizes of the open files; the sum is 64 bits wide *)
Definition IsSet (FileSize : nat → Z) (b : DataBlock) : bool :=
  match b_diskfile b with
  | Some f =>
      if 0 <? b_filesize b then
        if (FileSize f <? wrap 64 (b_offset b + b_length b)) && (FileSize f <? b_filesize b) then false else true
      else true
  | None => false
  end.

(** [DataBlock::ReadData] with the functions of the file it calls: the buffer of [size] bytes
    after the call *)
Definition read_data {D} (Read : D → Z → Z → Z → option (bool * D * list Z)) (FileSize : D → Z)
    (b : DataBlock) (d : D) (position size maxlength : Z) : option (bool * D * list Z) :=
  if position <? b_length b then
    let fileoffset := wrap 64 (b_offset b + position) in
    let want := Z.min (Z.min size (b_length b - position)) (wrap 64 (FileSize d - fileoffset)) in
    '(ok, d, data) ← Read d fileoffset want maxlength;
    if negb ok then Some (false, d, data) else
    Some (true, d, data ++ replicate (Z.to_nat (size - want)) 0)
  else Some (true, d, replicate (Z.to_nat size) 0).

Definition ReadData : DataBlock → DiskFile → Z → Z → Z → option (bool * DiskFile * list Z) := read_data Read filesize.

(** [DataBlock::WriteData]: also the amount written *)
Definition write_data {D} (Write : D → Z → list Z → Z → option (bool * D))
    (b : DataBlock) (d : D) (position : Z) (buffer : list Z) (maxlength : Z) : option (bool * D * Z) :=
  if position <? b_length b then
    let fileoffset := wrap 64 (b_offset b + position) in
    let have := Z.min (Z.of_nat (length buffer)) (b_length b - position) in
    '(ok, d) ← Write d fileoffset (take (Z.to_nat have) buffer) maxlength;
    if negb ok then Some (false, d, 0) else Some (true, d, have)
  else Some (true, d, 0).
Definition WriteData : DataBlock → DiskFile → Z → list Z → Z → option (bool * DiskFile * Z) := write_data Write.

(** ** The object and its stream *)

(** The mode of the stream, as it is given to [fopen] and [fdopen] *)
Inductive OpenMode := rb | wb.
Record DiskObject := { file : option OpenMode; disk : DiskFile }.
Definition with_disk (o : DiskObject) (d : DiskFile) : DiskObject := {| file := file o; disk := d |}.

(** [DiskFile::Create] of a new file of the given size: the last byte is written, so that the
    file ends with the low byte of its size.  [None], as in [OpenDisk]: the assertion that no
    stream is open fails. *)
Definition CreateDisk (o : DiskObject) (size : Z) : option (bool * DiskObject) :=
  match file o with
  | Some _ => None
  | None =>
      if MaxOffset <? size then Some (false, o) else
      Some (true, {| file := Some wb;
                     disk := {| contents := if 0 <? size then replicate (Z.to_nat (size - 1)) 0 ++ [wrap 8 size] else [];
                                stream := size; offset := size; filesize := size |} |})
  end.

(** [DiskFile::Close] *)
Definition CloseDisk (o : DiskObject) : DiskObject := {| file := None; disk := disk o |}.

(** [DiskFile::Open] of a file that exists, with the size that [GetFileSize] finds *)
Definition OpenDisk (o : DiskObject) : option (bool * DiskObject) :=
  match file o with
  | Some _ => None
  | None =>
      let size := Z.of_nat (length (contents (disk o))) in
      if MaxOffset <? size then Some (false, o) else
      Some (true, {| file := Some rb; disk := {| contents := contents (disk o); stream := 0; offset := 0; filesize := size |} |})
  end.

(** [DiskFile::Read] and [DiskFile::Write] on the object; [None]: no stream is open.  A stream
    that is open for writing gives no bytes, and one that is open for reading takes none. *)
Definition ReadDisk (o : DiskObject) (pos length_ maxlength : Z) : option (bool * DiskObject * list Z) :=
  mode ← file o;
  match mode with
  | rb => '(ok, d, buffer) ← Read (disk o) pos length_ maxlength; Some (ok, with_disk o d, buffer)
  | wb => Some (match seek (disk o) pos with
                | None => (false, o, [])
                | Some d => (negb (0 <? length_), with_disk o d, [])
                end)
  end.
Definition WriteDisk (o : DiskObject) (pos : Z) (data : list Z) (maxlength : Z) : option (bool * DiskObject) :=
  mode ← file o;
  match mode with
  | wb => '(ok, d) ← Write (disk o) pos data maxlength; Some (ok, with_disk o d)
  | rb => Some (match seek (disk o) pos with
                | None => (false, o)
                | Some d => (negb (0 <? Z.of_nat (length data)), with_disk o d)
                end)
  end.

(** [DataBlock::ReadData] and [DataBlock::WriteData] through the object *)
Definition ReadBlock : DataBlock → DiskObject → Z → Z → Z → option (bool * DiskObject * list Z) := read_data ReadDisk (filesize ∘ disk).
Definition WriteBlock : DataBlock → DiskObject → Z → list Z → Z → option (bool * DiskObject * Z) := write_data WriteDisk.

(** ** Reading *)

Definition slice (l : list Z) (off n : nat) : list Z := take n (drop off l).

Lemma length_slice l off n : (off + n ≤ length l)%nat → length (slice l off n) = n.
Proof. intros. unfold slice. rewrite length_take, length_drop. lia. Qed.

Lemma slice_app l off n m : slice l off (n + m) = slice l off n ++ slice l (off + n) m.
Proof. unfold slice. rewrite <- drop_drop. symmetry. apply take_take_drop. Qed.

(** The object knows where the stream is, and how large the file is. *)
Record disk_ok (d : DiskFile) : Prop := {
  do_stream : stream d = offset d;
  do_offset : 0 ≤ offset d;
  do_size : filesize d = Z.of_nat (length (contents d));
}.

Definition at_offset (d : DiskFile) (pos : Z) : DiskFile :=
  {| contents := contents d; stream := pos; offset := pos; filesize := filesize d |}.

Lemma at_offset_self d : disk_ok d → at_offset d (offset d) = d.
Proof. destruct d. intros [Hs _ _]. unfold at_offset. simpl in *. congruence. Qed.

Lemma read_loop_ok fuel d n maxlength buffer : disk_ok d → 0 < maxlength → (n ≤ fuel)%nat →
  offset d + Z.of_nat n ≤ filesize d →
  read_loop fuel d (Z.of_nat n) maxlength buffer
  = Some (true, at_offset d (offset d + Z.of_nat n), buffer ++ slice (contents d) (Z.to_nat (offset d)) n).
Proof.
  revert d n buffer. induction fuel as [|fuel IH]; intros d n buffer Hd Hm Hf Hle; destruct (Hd) as [Hs Ho Hz]; cbn [read_loop].
  { assert (n = 0)%nat as -> by lia. by rewrite Z.add_0_r, app_nil_r, at_offset_self. }
  destruct (Z.ltb_spec 0 (Z.of_nat n)) as [Hpos|Hz0].
  2: { assert (n = 0)%nat as -> by lia. by rewrite Z.add_0_r, app_nil_r, at_offset_self. }
  set (want := if maxlength <? Z.of_nat n then maxlength else Z.of_nat n).
  assert (0 < want ≤ Z.of_nat n) as Hw by (unfold want; destruct (Z.ltb_spec maxlength (Z.of_nat n)); lia).
  set (k := Z.to_nat want). assert (want = Z.of_nat k) as Ek by lia. assert (1 ≤ k ≤ n)%nat as Hk by lia.
  assert (fread (contents d) (stream d) want = slice (contents d) (Z.to_nat (offset d)) k) as -> by (by rewrite Hs).
  rewrite length_slice by lia. rewrite Ek, Z.eqb_refl. cbn [negb].
  replace (Z.of_nat n - Z.of_nat k) with (Z.of_nat (n - k)) by lia.
  rewrite IH; cbn [contents stream offset filesize]; [|split; cbn; lia|done|lia|lia].
  unfold at_offset. cbn [contents stream offset filesize]. rewrite <- app_assoc. f_equal. f_equal.
  - f_equal. f_equal; lia.
  - f_equal. replace (Z.to_nat (offset d + Z.of_nat k)) with (Z.to_nat (offset d) + k)%nat by lia.
    rewrite <- slice_app. f_equal. lia.
Qed.

Lemma seek_ok d pos : disk_ok d → 0 ≤ pos ≤ MaxOffset → seek d pos = Some (at_offset d pos).
Proof.
  intros Hd Hp. unfold seek. destruct (Z.eqb_spec (offset d) pos) as [<-|Hne].
  - by rewrite at_offset_self.
  - by rewrite (proj2 (Z.ltb_ge MaxOffset pos)) by lia.
Qed.

Lemma at_offset_ok d pos : disk_ok d → 0 ≤ pos → disk_ok (at_offset d pos).
Proof. intros [? ? ?] ?. split; cbn; done. Qed.

(** A read inside the file returns the bytes there, whatever the size of the pieces. *)
Lemma Read_ok d pos n maxlength : disk_ok d → 0 < maxlength → 0 ≤ pos ≤ MaxOffset → pos + Z.of_nat n ≤ filesize d →
  Read d pos (Z.of_nat n) maxlength = Some (true, at_offset d (pos + Z.of_nat n), slice (contents d) (Z.to_nat pos) n).
Proof.
  intros Hd Hm Hp Hle. unfold Read. rewrite seek_ok by done. rewrite Nat2Z.id.
  rewrite read_loop_ok; [done|apply at_offset_ok; [done|lia]|done|done|done].
Qed.

(** ** Writing *)

Lemma length_fwrite file pos data : 0 ≤ pos →
  length (fwrite file pos data) = Nat.max (length file) (Z.to_nat pos + length data)%nat.
Proof.
  intros. unfold fwrite. rewrite !length_app, length_take, length_drop, length_app, length_replicate. lia.
Qed.

(** A byte after a write. *)
Lemma lookup_fwrite file pos data i : 0 ≤ pos → fwrite file pos data !! i =
  if decide (Z.to_nat pos ≤ i < Z.to_nat pos + length data)%nat then data !! (i - Z.to_nat pos)%nat
  else if decide (length file ≤ i < Z.to_nat pos)%nat then Some 0 else file !! i.
Proof.
  intros Hp. unfold fwrite. set (n := Z.to_nat pos).
  assert (length (take n (file ++ replicate (n - length file) 0)) = n) as Hl
    by (rewrite length_take, length_app, length_replicate; lia).
  destruct (decide (i < n)%nat) as [Hi|Hi].
  - rewrite decide_False by lia. rewrite lookup_app_l, lookup_take_lt by lia.
    case_decide as Hc.
    + rewrite lookup_app_r by lia. apply lookup_replicate_2. lia.
    + destruct (decide (length file ≤ i)%nat); [lia|]. by rewrite lookup_app_l by lia.
  - rewrite lookup_app_r, Hl by lia. case_decide as Hc.
    + by rewrite lookup_app_l by lia.
    + rewrite decide_False by lia. rewrite lookup_app_r, lookup_drop by lia. f_equal. lia.
Qed.

Lemma fwrite_app file pos d1 d2 : 0 ≤ pos →
  fwrite (fwrite file pos d1) (pos + Z.of_nat (length d1)) d2 = fwrite file pos (d1 ++ d2).
Proof.
  intros Hp. apply list_eq. intros i. rewrite !lookup_fwrite, length_fwrite, length_app by lia.
  replace (Z.to_nat (pos + Z.of_nat (length d1))) with (Z.to_nat pos + length d1)%nat by lia.
  repeat case_decide; try lia; try done.
  - rewrite lookup_app_r by lia. f_equal. lia.
  - by rewrite lookup_app_l by lia.
Qed.

Lemma fwrite_nil file pos : 0 ≤ pos ≤ Z.of_nat (length file) → fwrite file pos [] = file.
Proof.
  intros. unfold fwrite. cbn [length app]. rewrite Nat.add_0_r. replace (Z.to_nat pos - length file)%nat with 0%nat by lia.
  rewrite app_nil_r. apply take_drop.
Qed.

Definition after_write (d : DiskFile) (pos : Z) (data : list Z) : DiskFile :=
  {| contents := fwrite (contents d) pos data; stream := pos + Z.of_nat (length data);
     offset := pos + Z.of_nat (length data); filesize := Z.max (filesize d) (pos + Z.of_nat (length data)) |}.

Lemma write_loop_ok fuel d data maxlength : disk_ok d → 0 < maxlength → (length data ≤ fuel)%nat → data ≠ [] →
  write_loop fuel d data maxlength = Some (true, after_write d (offset d) data).
Proof.
  revert d data. induction fuel as [|fuel IH]; intros d data Hd Hm Hf Hne; destruct (Hd) as [Hs Ho Hz]; cbn [write_loop].
  { destruct data; simpl in *; [done|lia]. }
  assert (0 < length data)%nat as Hpos by (destruct data; simpl; [done|lia]).
  rewrite (proj2 (Z.ltb_lt 0 _)) by lia.
  set (write := if maxlength <? Z.of_nat (length data) then maxlength else Z.of_nat (length data)).
  assert (0 < write ≤ Z.of_nat (length data)) as Hw by (unfold write; destruct (Z.ltb_spec maxlength (Z.of_nat (length data))); lia).
  set (k := Z.to_nat write). assert (write = Z.of_nat k) as Ek by lia. assert (length (take k data) = k) as Hlk by (rewrite length_take; lia).
  set (d' := {| contents := _ |}).
  assert (d' = after_write d (offset d) (take k data)) as Ed'.
  { unfold d', after_write. rewrite Hlk, Hs, Ek. f_equal. destruct (Z.ltb_spec (filesize d) (offset d + Z.of_nat k)); lia. }
  assert (disk_ok d') as Hd'.
  { rewrite Ed'. split; cbn [stream offset contents filesize after_write]; [done|lia|]. rewrite length_fwrite, Hlk by lia. lia. }
  destruct (drop k data) as [|x rest] eqn:Edrop.
  - assert (take k data = data) as Eall by (rewrite <- (take_drop k data) at 2; by rewrite Edrop, app_nil_r).
    rewrite Ed', Eall. by destruct fuel.
  - rewrite IH; [|done|done|rewrite <- Edrop, length_drop; lia|done]. rewrite Ed', <- Edrop. f_equal. f_equal.
    unfold after_write. cbn [contents stream offset filesize]. rewrite fwrite_app, take_drop by lia.
    assert (length (take k data) + length (drop k data) = length data)%nat by (rewrite <- length_app, take_drop; done).
    f_equal; lia.
Qed.

Lemma Write_ok d pos data maxlength : disk_ok d → 0 < maxlength → 0 ≤ pos ≤ MaxOffset → data ≠ [] →
  Write d pos data maxlength = Some (true, after_write d pos data) ∧ disk_ok (after_write d pos data).
Proof.
  intros Hd Hm Hp Hne. unfold Write. rewrite seek_ok by done. rewrite write_loop_ok; [|apply at_offset_ok; [done|lia]|done|done|done].
  split; [done|]. destruct Hd as [Hs Ho Hz]. split; cbn [stream offset contents filesize after_write]; [done|lia|].
  rewrite length_fwrite by lia. lia.
Qed.

(** What was written is what is read. *)
Lemma slice_fwrite file pos data : 0 ≤ pos → slice (fwrite file pos data) (Z.to_nat pos) (length data) = data.
Proof.
  intros Hp. apply list_eq. intros i. unfold slice. destruct (decide (i < length data)%nat) as [Hi|Hi].
  - rewrite lookup_take_lt, lookup_drop, lookup_fwrite, decide_True by lia. f_equal. lia.
  - rewrite lookup_take_ge by lia. symmetry. apply lookup_ge_None. lia.
Qed.

(** ** Blocks *)

(** A chunk of a block: the bytes of the file that belong to the block, then zeros. *)
Definition block_chunk (file : list Z) (off len position size : nat) : list Z :=
  let want := Nat.min (Nat.min size (len - position)) (length file - (off + position)) in
  slice file (off + position) want ++ replicate (size - want) 0.

Lemma ReadData_ok b d position size maxlength : disk_ok d → 0 < maxlength → filesize d ≤ MaxOffset →
  0 ≤ b_offset b → 0 ≤ b_length b → b_offset b + position ≤ filesize d → 0 ≤ position → 0 ≤ size →
  ∃ d', ReadData b d position size maxlength = Some (true, d', block_chunk (contents d) (Z.to_nat (b_offset b)) (Z.to_nat (b_length b))
    (Z.to_nat position) (Z.to_nat size)) ∧ disk_ok d' ∧ contents d' = contents d.
Proof.
  intros Hd Hm HM Ho Hl Hin Hp Hs. destruct (Hd) as [_ _ Hz]. unfold MaxOffset in HM. unfold ReadData, read_data, block_chunk.
  set (want := Nat.min _ _).
  destruct (Z.ltb_spec position (b_length b)) as [Hlt|Hge].
  - rewrite (wrap_small 64 (b_offset b + position)) by (split; simpl; lia). rewrite wrap_small by (split; simpl; lia).
    assert (Z.min (Z.min size (b_length b - position)) (filesize d - (b_offset b + position)) = Z.of_nat want) as -> by lia.
    rewrite Read_ok by (unfold MaxOffset; (done || lia)). cbn [mbind option_bind negb].
    exists (at_offset d (b_offset b + position + Z.of_nat want)). split; [|split; [apply at_offset_ok; [done|lia]|done]].
    replace (Z.to_nat (b_offset b + position)) with (Z.to_nat (b_offset b) + Z.to_nat position)%nat by lia.
    do 4 f_equal. lia.
  - exists d. split; [|done]. assert (want = 0)%nat as -> by lia. unfold slice. rewrite take_0, Nat.sub_0_r. done.
Qed.

(** What [WriteData] leaves behind. *)
Lemma WriteData_inside b d position buffer maxlength : disk_ok d → 0 < maxlength → 0 ≤ b_offset b → 0 ≤ position < b_length b →
  filesize d + b_offset b + b_length b ≤ MaxOffset → buffer ≠ [] →
  let have := Nat.min (length buffer) (Z.to_nat (b_length b - position)) in
  let d' := after_write d (b_offset b + position) (take have buffer) in
  WriteData b d position buffer maxlength = Some (true, d', Z.of_nat have) ∧ disk_ok d' ∧
  filesize d' = Z.max (filesize d) (b_offset b + position + Z.of_nat have) ∧ length (take have buffer) = have ∧ (1 ≤ have)%nat.
Proof.
  intros Hd Hm Ho Hp HM Hne have d'. unfold MaxOffset in HM. assert (0 ≤ filesize d) as Hf by (rewrite (do_size _ Hd); lia).
  assert (0 < length buffer)%nat as Hpos by (destruct buffer; simpl; [done|lia]).
  assert (length (take have buffer) = have) as Hlh by (rewrite length_take; lia). assert (1 ≤ have)%nat as H1 by lia.
  unfold WriteData, write_data. rewrite (proj2 (Z.ltb_lt position (b_length b))) by lia.
  assert (Z.min (Z.of_nat (length buffer)) (b_length b - position) = Z.of_nat have) as -> by lia.
  rewrite wrap_small, Nat2Z.id by (split; simpl; lia).
  destruct (Write_ok d (b_offset b + position) (take have buffer) maxlength) as [-> Hd']; [done|done|unfold MaxOffset; lia| |].
  { intros E. rewrite E in Hlh. simpl in Hlh. lia. }
  split; [done|]. split; [done|]. split; [|done]. unfold d'. cbn [filesize after_write]. by rewrite Hlh.
Qed.

(** The object passes the calls on to a stream in the right mode. *)
Lemma WriteBlock_wb b o position buffer maxlength : file o = Some wb →
  WriteBlock b o position buffer maxlength = '(ok, d, n) ← WriteData b (disk o) position buffer maxlength; Some (ok, with_disk o d, n).
Proof.
  intros Ho. unfold WriteBlock, WriteData, write_data, WriteDisk. rewrite Ho. cbn [mbind option_bind].
  destruct (_ <? _); [|by destruct o]. by destruct (Write _ _ _ _) as [[[] d]|].
Qed.
Lemma ReadBlock_rb b o position size maxlength : file o = Some rb →
  ReadBlock b o position size maxlength = '(ok, d, buffer) ← ReadData b (disk o) position size maxlength; Some (ok, with_disk o d, buffer).
Proof.
  intros Ho. unfold ReadBlock, ReadData, read_data, ReadDisk. rewrite Ho. cbn [mbind option_bind compose].
  destruct (_ <? _); [|by destruct o]. by destruct (Read _ _ _ _) as [[[[] d] data]|].
Qed.

(** A file that is open for writing cannot be read. *)
Lemma ReadBlock_wb b o position size maxlength : file o = Some wb → position < b_length b → 0 < size →
  0 ≤ b_offset b → 0 ≤ position → b_offset b + position < filesize (disk o) ≤ MaxOffset →
  ∃ o', ReadBlock b o position size maxlength = Some (false, o', []).
Proof.
  intros Ho Hp Hs Hb H0 Hf. unfold MaxOffset in Hf. unfold ReadBlock, read_data, ReadDisk, compose. rewrite Ho, (proj2 (Z.ltb_lt _ _)) by done.
  cbn [mbind option_bind]. destruct (seek _ _); [|by eexists].
  rewrite (wrap_small 64 (b_offset b + position)) by (split; simpl; lia). rewrite wrap_small by (split; simpl; lia). rewrite (proj2 (Z.ltb_lt 0 _)) by lia. by eexists.
Qed.

(** C35: a block is a faithful window of its file.  A file that was created is open for writing
    only: after [WriteData] of a buffer at a position inside a block, a read of the block
    through the same object fails; but once the object is closed and opened again,
    [ReadData] there returns the bytes that fit in the block followed by zeros.  Bytes of
    the file outside the written range keep their value, and the pieces in which the file
    is read and written do not matter. *)
Theorem DataBlock_roundtrip (b : DataBlock) (o : DiskObject) (position : Z) (buffer : list Z) (maxlength : Z) :
  file o = Some wb → disk_ok (disk o) → 0 < maxlength → 0 ≤ b_offset b → 0 ≤ position < b_length b →
  filesize (disk o) + b_offset b + b_length b ≤ MaxOffset → buffer ≠ [] →
  let have := Nat.min (length buffer) (Z.to_nat (b_length b - position)) in
  ∃ o1, WriteBlock b o position buffer maxlength = Some (true, o1, Z.of_nat have) ∧ file o1 = Some wb ∧ disk_ok (disk o1) ∧
    (∃ o', ReadBlock b o1 position (Z.of_nat (length buffer)) maxlength = Some (false, o', [])) ∧
    (∃ o2 o3, OpenDisk (CloseDisk o1) = Some (true, o2) ∧
      ReadBlock b o2 position (Z.of_nat (length buffer)) maxlength = Some (true, o3, take have buffer ++ replicate (length buffer - have) 0) ∧
      file o3 = Some rb ∧ contents (disk o3) = contents (disk o1)) ∧
    ∀ i, (i < length (contents (disk o)))%nat → ¬ (b_offset b + position ≤ Z.of_nat i < b_offset b + position + Z.of_nat have) →
      contents (disk o1) !! i = contents (disk o) !! i.
Proof.
  intros Hmode Hd Hm Ho Hp HM Hne have. assert (0 ≤ filesize (disk o)) as Hz by (rewrite (do_size _ Hd); lia).
  destruct (WriteData_inside b (disk o) position buffer maxlength Hd Hm Ho Hp HM Hne) as (E & Hd' & Hfs & Hlh & H1).
  fold have in E, Hd', Hfs, Hlh, H1. set (d' := after_write _ _ _) in *. assert (have ≤ length buffer)%nat as Hle by apply Nat.le_min_l.
  assert (Z.of_nat have ≤ b_length b - position) as Hle2 by lia. unfold MaxOffset in HM.
  exists (with_disk o d'). split; [by rewrite (WriteBlock_wb _ _ _ _ _ Hmode), E|]. split; [done|]. split; [done|]. split; [|split].
  - apply ReadBlock_wb; [done|lia|lia|lia|lia|]. cbn [disk with_disk]. unfold MaxOffset. lia.
  - unfold OpenDisk. cbn [file CloseDisk disk with_disk]. rewrite <- (do_size _ Hd'), (proj2 (Z.ltb_ge MaxOffset _)) by (unfold MaxOffset; lia).
    set (d2 := {| contents := contents d' |}). assert (disk_ok d2) as Hd2 by (split; [done|cbn; lia|exact (do_size _ Hd')]).
    destruct (ReadData_ok b d2 position (Z.of_nat (length buffer)) maxlength Hd2 Hm) as (d3 & Hread & _ & Hc3); [cbn [d2 filesize]; unfold MaxOffset; lia..|].
    exists {| file := Some rb; disk := d2 |}, {| file := Some rb; disk := d3 |}. split; [done|]. rewrite ReadBlock_rb by done. cbn [disk]. rewrite Hread. cbn [mbind option_bind]. split; [|split; [done|exact Hc3]].
    do 2 f_equal. unfold block_chunk. rewrite Nat2Z.id. cbn [d2 contents]. assert (length (contents d') = Z.to_nat (filesize d')) as Hcl by (destruct Hd' as [_ _ Hc]; lia).
    replace (Z.to_nat (b_offset b) + Z.to_nat position)%nat with (Z.to_nat (b_offset b + position)) by lia.
    replace (Nat.min _ _) with have by lia. f_equal. rewrite <- Hlh at 1. cbn [contents d' after_write]. apply slice_fwrite. lia.
  - intros i Hi Hout. cbn [contents d' after_write disk with_disk]. rewrite lookup_fwrite, Hlh by lia.
    rewrite decide_False by lia. by rewrite decide_False by lia.
Qed.

(** A new file of three bytes, and a block of it of four bytes from offset 1 on *)
Lemma DataBlock_roundtrip_witness :
  let b := SetLocation (SetLength mkDataBlock 4) 0 1 in
  ∃ o, CreateDisk {| file := None; disk := {| contents := []; stream := 0; offset := 0; filesize := 0 |} |} 3 = Some (true, o) ∧
  ∃ o1, WriteBlock b o 2 [7; 8; 9] 1 = Some (true, o1, 2) ∧ file o1 = Some wb ∧ disk_ok (disk o1) ∧
    (∃ o', ReadBlock b o1 2 3 1 = Some (false, o', [])) ∧
    (∃ o2 o3, OpenDisk (CloseDisk o1) = Some (true, o2) ∧ ReadBlock b o2 2 3 1 = Some (true, o3, [7; 8] ++ [0]) ∧
      file o3 = Some rb ∧ contents (disk o3) = contents (disk o1)) ∧
    ∀ i, (i < 3)%nat → ¬ (1 + 2 ≤ Z.of_nat i < 1 + 2 + 2) → contents (disk o1) !! i = [0; 0; 3] !! i.
Proof.
  intros b. eexists. split; [reflexivity|]. apply (DataBlock_roundtrip b
    {| file := Some wb; disk := {| contents := [0; 0; 3]; stream := 3; offset := 3; filesize := 3 |} |} 2 [7; 8; 9] 1).
  - reflexivity.
  - split; simpl; lia.
  - lia.
  - simpl. lia.
  - simpl. lia.
  - vm_compute. discriminate.
  - discriminate.
Defined.

(** After a read that hits the end of the file the object no longer knows where the stream
    is: [Read] leaves [offset] unchanged although the stream has moved, so that a later read
    at the same offset is not preceded by a seek and fails although the bytes are there. *)
Theorem Read_after_short_read :
  let d := {| contents := seqZ 0 10; stream := 0; offset := 0; filesize := 10 |} in
  match Read d 5 10 100 with
  | Some (false, d', _) =>
      match Read d' 5 3 100 with Some (ok, _, _) => ok = false | None => False end ∧
      match Read d 5 3 100 with Some (ok, _, data) => ok = true ∧ data = [5; 6; 7] | None => False end
  | _ => False
  end.
Proof. vm_compute. split; [reflexivity|split; reflexivity]. Qed.
