(* ===== verification/CheckSummer.v ===== *)
(** * CheckSummer.v: [FileCheckSummer] (src/filechecksummer.cpp, include/par2/filechecksummer.h)

    The object slides a window of one block along a file and knows at each position the
    CRC of the window, on demand its MD5, and at the end the MD5 of the file and of its
    first 16k.  Pointers into the buffer are indices; the fields are grouped by what they
    describe.  Memory that the code does not initialise is an argument. *)

From S2P Require Import Prelude Bytes Crc HashCrc Md5 Md5Spec Md5Single Hasher HasherSpec Md5Crc DiskFile.

(** The buffer of two blocks and the pointers into it, the next read, the current position. *)
Record window := {
  buffer : list Z; outpointer : nat; inpointer : nat; tailpointer : nat; readoffset : nat; currentoffset : nat;
}.

(** The hash contexts; [hasher] is the multi-hash object while file and block are in step. *)
Record contexts := { contextfull : MD5Single; context16k : MD5Single; hasher : option HasherInput }.

Record FileCheckSummer := {
  disk : DiskFile;
  win : window;
  checksum : Z;
  blockhash : list Z;
  hasblockhash : bool;
  ctx : contexts;
}.

(** The size 16384 of the part of a file that has a hash of its own. *)
Definition k16 : nat := Z.to_nat 16384.
#[global] Opaque k16.

Section FileCheckSummer.
(** [blocksize], [windowtable] and [filesize], fixed by the constructor; the maximal piece of
    a read; the contents of a new hasher's buffer *)
Context (blocksize : nat) (windowtable : array) (filesize : nat) (maxlength : Z) (fresh : HasherInput).

Definition set_win (c : FileCheckSummer) (w : window) : FileCheckSummer :=
  {| disk := disk c; win := w; checksum := checksum c; blockhash := blockhash c;
     hasblockhash := hasblockhash c; ctx := ctx c |}.
Definition set_ctx (c : FileCheckSummer) (x : contexts) : FileCheckSummer :=
  {| disk := disk c; win := win c; checksum := checksum c; blockhash := blockhash c;
     hasblockhash := hasblockhash c; ctx := x |}.
Definition set_disk (c : FileCheckSummer) (d : DiskFile) : FileCheckSummer :=
  {| disk := d; win := win c; checksum := checksum c; blockhash := blockhash c;
     hasblockhash := hasblockhash c; ctx := ctx c |}.
Definition set_hash (c : FileCheckSummer) (crc : Z) (h : list Z) (has : bool) : FileCheckSummer :=
  {| disk := disk c; win := win c; checksum := crc; blockhash := h; hasblockhash := has; ctx := ctx c |}.

(** [StopHasher] *)
Definition StopHasher (c : FileCheckSummer) : FileCheckSummer :=
  let w := win c in
  let x := ctx c in
  match hasher x with
  | None => c
  | Some h =>
      let full := extractFileMD5 h (contextfull x) in
      let full := if Nat.ltb (inpointer w) (tailpointer w)
                  then update full (slice (buffer w) (inpointer w) (tailpointer w - inpointer w)) else full in
      set_ctx c {| contextfull := full; context16k := context16k x; hasher := None |}
  end.

(** [UpdateHashes] *)
Definition UpdateHashes (x : contexts) (offset : nat) (data : list Z) : contexts :=
  if Nat.leb k16 offset then
    match hasher x with
    | None => {| contextfull := update (contextfull x) data; context16k := context16k x; hasher := None |}
    | Some _ => x
    end
  else if Nat.leb k16 (offset + length data) then
    let first := (k16 - offset)%nat in
    let c16 := update (context16k x) (take first data) in
    match hasher x with
    | None =>
        let full := if Nat.ltb k16 (offset + length data) then update c16 (drop first data) else c16 in
        {| contextfull := full; context16k := c16; hasher := None |}
    | Some h => {| contextfull := contextfull x; context16k := c16; hasher := Some h |}
    end
  else {| contextfull := contextfull x; context16k := update (context16k x) data; hasher := hasher x |}.

(** [Fill]: the value returned and the object *)
Definition Fill (c : FileCheckSummer) (longfill : bool) : option (bool * FileCheckSummer) :=
  let w := win c in
  if Nat.leb filesize (readoffset w) then Some (true, c) else
  if Nat.leb blocksize (tailpointer w) && negb longfill then Some (true, c) else
  let target := if Nat.eqb (tailpointer w) 0 then blocksize else (2 * blocksize)%nat in
  let want := Nat.min (filesize - readoffset w) (target - tailpointer w) in
  '(ok, c) ←
    (if Nat.ltb 0 want then
       '(ok, d, data) ← Read (disk c) (Z.of_nat (readoffset w)) (Z.of_nat want) maxlength;
       if negb ok then Some (false, set_disk c d) else
       Some (true, set_ctx (set_win (set_disk c d)
         {| buffer := memcpy (buffer w) (tailpointer w) data; outpointer := outpointer w; inpointer := inpointer w;
            tailpointer := tailpointer w + want; readoffset := readoffset w + want; currentoffset := currentoffset w |})
         (UpdateHashes (ctx c) (readoffset w) data))
     else Some (true, c));
  if negb ok then Some (false, c) else
  let w := win c in
  Some (true, set_win c
    {| buffer := memcpy (buffer w) (tailpointer w) (replicate (target - tailpointer w) 0);
       outpointer := outpointer w; inpointer := inpointer w; tailpointer := tailpointer w;
       readoffset := readoffset w; currentoffset := currentoffset w |}).

(** [HasherGetBlock] of include/par2/hasher.h: the CRC, the hash and the hasher *)
Definition HasherGetBlock (h : HasherInput) (zeropad : nat) : option (Z * list Z * HasherInput) :=
  '(md5crc, h) ← getBlock h (Z.of_nat zeropad);
  b0 ← md5crc !! 16%nat; b1 ← md5crc !! 17%nat; b2 ← md5crc !! 18%nat; b3 ← md5crc !! 19%nat;
  Some (Z.lor (Z.lor (Z.lor b0 (Z.shiftl b1 8)) (Z.shiftl b2 16)) (Z.shiftl b3 24), take 16 md5crc, h).

(** [ComputeCurrentChecksum] *)
Definition ComputeCurrentChecksum (c : FileCheckSummer) (domd5 : bool) : option FileCheckSummer :=
  let w := win c in
  match hasher (ctx c) with
  | Some h =>
      let blocklen := Nat.min blocksize (filesize - currentoffset w) in
      let zeropad := (blocksize - blocklen)%nat in
      h ← h_update h (slice (buffer w) 0 blocklen);
      '(crc, hash, h) ← HasherGetBlock h zeropad;
      Some (set_ctx (set_hash c crc hash true)
        {| contextfull := contextfull (ctx c); context16k := context16k (ctx c); hasher := Some h |})
  | None =>
      if domd5 then
        '(crc, hash) ← MD5CRC_Calc (slice (buffer w) 0 blocksize) 0;
        Some (set_hash c crc hash true)
      else
        crc ← CRC32_Calc (slice (buffer w) 0 blocksize);
        Some (set_hash c crc (blockhash c) (hasblockhash c))
  end.

(** [Start] *)
Definition Start (c : FileCheckSummer) : option (bool * FileCheckSummer) :=
  let c := set_ctx (set_win c
    {| buffer := buffer (win c); outpointer := 0; inpointer := blocksize; tailpointer := 0; readoffset := 0; currentoffset := 0 |})
    {| contextfull := contextfull (ctx c); context16k := context16k (ctx c); hasher := Some (h_reset fresh) |} in
  '(ok, c) ← Fill c false;
  if negb ok then Some (false, c) else
  c ← ComputeCurrentChecksum c true;
  Some (true, c).

(** The end of the file is reached. *)
Definition at_end (c : FileCheckSummer) : FileCheckSummer :=
  let w := win c in
  set_hash (set_win c
    {| buffer := memcpy (buffer w) 0 (replicate blocksize 0); outpointer := 0; inpointer := inpointer w; tailpointer := 0;
       readoffset := readoffset w; currentoffset := filesize |}) 0 (blockhash c) (hasblockhash c).

(** [Step] *)
Definition Step (c : FileCheckSummer) : option (bool * FileCheckSummer) :=
  if Nat.leb filesize (currentoffset (win c)) then Some (false, c) else
  let c := StopHasher c in
  let c := set_hash c (checksum c) (blockhash c) false in
  let w := win c in
  let cur := S (currentoffset w) in
  if Nat.leb filesize cur then Some (true, at_end c) else
  let c := set_win c {| buffer := buffer w; outpointer := outpointer w; inpointer := inpointer w;
                        tailpointer := tailpointer w; readoffset := readoffset w; currentoffset := cur |} in
  '(ok, c) ← (if Nat.leb (tailpointer w) (inpointer w) then Fill c true else Some (true, c));
  if negb ok then Some (false, c) else
  let w := win c in
  inch ← buffer w !! inpointer w;
  outch ← buffer w !! outpointer w;
  crc ← CRCSlideChar (checksum c) inch outch windowtable;
  let c := set_hash c crc (blockhash c) (hasblockhash c) in
  let inp := S (inpointer w) in
  let outp := S (outpointer w) in
  if Nat.ltb outp blocksize then
    Some (true, set_win c {| buffer := buffer w; outpointer := outp; inpointer := inp; tailpointer := tailpointer w;
                             readoffset := readoffset w; currentoffset := currentoffset w |})
  else
    Some (true, set_win c {| buffer := memcpy (buffer w) 0 (slice (buffer w) outp blocksize); outpointer := 0; inpointer := outp;
                             tailpointer := tailpointer w - blocksize; readoffset := readoffset w;
                             currentoffset := currentoffset w |}).

(** [Jump] *)
Definition Jump (c : FileCheckSummer) (distance : nat) : option (bool * FileCheckSummer) :=
  if Nat.leb filesize (currentoffset (win c)) then Some (false, c) else
  if Nat.eqb distance 0 then Some (false, c) else
  if Nat.eqb distance 1 then Step c else
  let distance := Nat.min distance blocksize in
  let c := if negb (Nat.eqb distance blocksize) && Nat.ltb (currentoffset (win c) + distance) filesize
           then StopHasher c else c in
  let c := set_hash c (checksum c) (blockhash c) false in
  let w := win c in
  let cur := (currentoffset w + distance)%nat in
  if Nat.leb filesize cur then Some (true, at_end c) else
  let outp := (outpointer w + distance)%nat in
  let keep := (tailpointer w - outp)%nat in
  let c := set_win c
    {| buffer := if Nat.ltb 0 keep then memcpy (buffer w) 0 (slice (buffer w) outp keep) else buffer w;
       outpointer := 0; inpointer := blocksize; tailpointer := keep; readoffset := readoffset w; currentoffset := cur |} in
  '(ok, c) ← Fill c false;
  if negb ok then Some (false, c) else
  c ← ComputeCurrentChecksum c (Nat.eqb distance blocksize);
  Some (true, c).

(** [Hash]: the MD5 of the window; [scratch] is the buffer of the local context *)
Definition Hash (c : FileCheckSummer) (scratch : MD5Single) : option (list Z) :=
  if hasblockhash c then Some (blockhash c) else
  end_ (update (reset scratch) (slice (buffer (win c)) (outpointer (win c)) blocksize)).

(** [ShortChecksum] and [ShortHash] *)
Definition ShortChecksum (c : FileCheckSummer) (blocklength : nat) : option Z :=
  crc ← CRC32_Calc (slice (buffer (win c)) (outpointer (win c)) blocklength);
  if Nat.ltb blocklength blocksize then
    crc ← CRCUpdateBlock_zeros (0xffffffff ⊕ crc) (Z.of_nat (blocksize - blocklength));
    Some (0xffffffff ⊕ crc)
  else Some crc.

Definition ShortHash (c : FileCheckSummer) (blocklength : nat) (scratch : MD5Single) : option (list Z) :=
  let m := update (reset scratch) (slice (buffer (win c)) (outpointer (win c)) blocklength) in
  end_ (if Nat.ltb blocklength blocksize then updateZero m (blocksize - blocklength) else m).

(** [BlockLength] and [ShortBlock] *)
Definition BlockLength (c : FileCheckSummer) : nat := Nat.min blocksize (filesize - currentoffset (win c)).
Definition ShortBlock (c : FileCheckSummer) : bool := Nat.ltb (BlockLength c) blocksize.

(** [GetFileHashes]: the hash of the file and of its first 16k *)
Definition GetFileHashes (c : FileCheckSummer) : option (list Z * list Z) :=
  hash16k ← end_ (context16k (ctx c));
  hashfull ← (if Nat.ltb filesize k16 then Some hash16k else
              match hasher (ctx c) with
              | Some h => h_end h
              | None => end_ (contextfull (ctx c))
              end);
  Some (hashfull, hash16k).
End FileCheckSummer.
