(* ===== verification/CheckSummerSpec.v ===== *)
(** * CheckSummerSpec.v: what [FileCheckSummer] promises

    Abstractly the object is a position in the file.  While the window lies inside the file
    its checksum and hash are those of the bytes under it, a short window is hashed with
    zero padding, and at the end the hashes of the whole file are available. *)

From S2P Require Import Prelude Bytes Crc HashCrc Md5 Md5Spec Md5Single Hasher HasherSpec Md5Crc DiskFile CheckSummer.

(** ** Lists *)

Lemma Forall_slice (P : Z → Prop) l off n : Forall P l → Forall P (slice l off n).
Proof. intros. by apply Forall_take, Forall_drop. Qed.

Lemma slice_slice l a n b m : (b + m ≤ n)%nat → slice (slice l a n) b m = slice l (a + b) m.
Proof. intros. unfold slice. rewrite skipn_firstn_comm, drop_drop, take_take. f_equal. lia. Qed.

(** A common stretch gives common stretches inside it. *)
Lemma slice_sub l1 l2 a1 a2 n b m : slice l1 a1 n = slice l2 a2 n → (b + m ≤ n)%nat →
  slice l1 (a1 + b) m = slice l2 (a2 + b) m.
Proof. intros E Hle. by rewrite <- (slice_slice l1 a1 n), <- (slice_slice l2 a2 n), E by lia. Qed.

Lemma slice_memcpy_self l off src : (off + length src ≤ length l)%nat → slice (memcpy l off src) off (length src) = src.
Proof.
  intros. unfold slice, memcpy. rewrite drop_app_length' by (rewrite length_take; lia). by apply take_app_length'.
Qed.

Lemma slice_memcpy_before l off src a n : (a + n ≤ off)%nat → (off ≤ length l)%nat → slice (memcpy l off src) a n = slice l a n.
Proof.
  intros. unfold slice, memcpy. rewrite drop_app_le by (rewrite length_take; lia).
  rewrite take_app_le by (rewrite length_drop, length_take; lia). rewrite skipn_firstn_comm, take_take. f_equal. lia.
Qed.

Lemma Forall_memcpy (P : Z → Prop) l off src : Forall P l → Forall P src → Forall P (memcpy l off src).
Proof. intros. unfold memcpy. rewrite !Forall_app. split; [by apply Forall_take|split; [done|by apply Forall_drop]]. Qed.

Lemma take_slice (l : list Z) n m : take n l ++ slice l n m = take (n + m) l.
Proof. apply take_take_drop. Qed.

Lemma slice_lookup l a n : (a < length l)%nat → ∃ b, l !! a = Some b ∧ slice l a (S n) = b :: slice l (S a) n.
Proof.
  intros Ha. destruct (lookup_lt_is_Some_2 l a Ha) as [b Hb]. exists b. split; [done|].
  unfold slice. by rewrite (drop_S l b a Hb).
Qed.

(** The slide of the checksum is defined whatever is under the window. *)
Lemma CRCSlideChar_total crc new old n t : u32 crc → in_range 8 new → in_range 8 old →
  GenerateWindowTable (Z.of_nat n) = Some t → ∃ crc', CRCSlideChar crc new old t = Some crc' ∧ u32 crc'.
Proof.
  intros Hc Hn Ho Ht. destruct (GenerateWindowTable_ok n) as (t' & Ht' & Hlk). assert (t = t') as -> by congruence.
  assert (u32 0xffffffff) by (split; simpl; lia).
  assert (u32 old) by (by apply (in_range_mono 8); [lia|]).
  unfold CRCSlideChar. rewrite table_ok by (by apply table_index). cbn [mbind option_bind]. rewrite Hlk by (by destruct Ho).
  cbn [mbind option_bind]. eexists. split; [done|]. assert (u32 (crc ⊕ 0xffffffff)) by (by apply in_range_lxor).
  assert (u32 new) by (by apply (in_range_mono 8); [lia|]).
  rewrite byte_step by done. repeat first [done|lia|apply iter32_range|apply in_range_lxor].
Qed.

Lemma length_md5 data : length (md5 data) = 16%nat.
Proof. reflexivity. Qed.

Lemma le_split_bytes n v : Forall (in_range 8) (le_split n v).
Proof. apply Forall_fmap, Forall_true. intros k. apply in_range_land; [lia|split; lia]. Qed.

(** Four bytes put together by shifts. *)
Lemma lor_bytes b0 b1 b2 b3 : Forall (in_range 8) [b0; b1; b2; b3] →
  Z.lor (Z.lor (Z.lor b0 (Z.shiftl b1 8)) (Z.shiftl b2 16)) (Z.shiftl b3 24) = le_join [b0; b1; b2; b3].
Proof.
  intros [H0 [H1 [H2 [H3 _]%Forall_cons]%Forall_cons]%Forall_cons]%Forall_cons. unfold in_range in *.
  rewrite (lor_disjoint 8) by (done || lia). rewrite (lor_disjoint 16) by (unfold in_range; lia).
  rewrite (lor_disjoint 24) by (unfold in_range; lia). cbn [le_join]. lia.
Qed.

Lemma HasherGetBlock_ok h pre BD n : h_rep h pre BD → Forall (in_range 8) BD → Z.of_nat n < 2 ^ 64 - 64 →
  HasherGetBlock h n = Some (crc32 (BD ++ replicate n 0), md5 (BD ++ replicate n 0), resetBlock h).
Proof.
  intros Hh HBD Hn. unfold HasherGetBlock. rewrite (getBlock_ok h pre BD n Hh Hn). cbn [mbind option_bind]. unfold block_hash.
  set (crc := crc32 (BD ++ replicate n 0)). assert (u32 crc) as Hc.
  { apply crc32_range, Forall_app. split; [done|]. apply Forall_replicate. split; simpl; lia. }
  rewrite !lookup_app_r by (rewrite length_md5; lia). rewrite length_md5.
  pose proof (le_split_bytes 4 crc) as Hb. pose proof (le_join_split 4 crc Hc) as Ej.
  destruct (le_split 4 crc) as [|b0 [|b1 [|b2 [|b3 [|]]]]] eqn:Es; try (apply (f_equal length) in Es; by rewrite length_le_split in Es).
  cbn [lookup list_lookup Nat.sub mbind option_bind]. by rewrite lor_bytes, Ej, take_app_length' by (done || by rewrite length_md5).
Qed.

Section Spec.
Context (blocksize : nat) (windowtable : array) (file : list Z) (maxlength : Z) (fresh : HasherInput).
Hypothesis Hbs : (0 < blocksize)%nat.
Hypothesis Hbs64 : Z.of_nat blocksize < 2 ^ 64 - 64.
Hypothesis Htable : GenerateWindowTable (Z.of_nat blocksize) = Some windowtable.
Hypothesis Hfile : Forall (in_range 8) file.
Hypothesis Hsize : Z.of_nat (length file) ≤ MaxOffset.
Hypothesis Hmax : 0 < maxlength.
Hypothesis Hfresh : length (h_tmp fresh) = 128%nat.

Local Abbreviation F := (length file).
Local Abbreviation Fill := (Fill blocksize F maxlength).
Local Abbreviation Start := (Start blocksize F maxlength fresh).
Local Abbreviation Step := (Step blocksize windowtable F maxlength).
Local Abbreviation Jump := (Jump blocksize windowtable F maxlength).
Local Abbreviation ComputeCurrentChecksum := (ComputeCurrentChecksum blocksize F).

(** ** The invariant *)

(** The open file is the one the object was made for. *)
Definition disk_is (d : DiskFile) : Prop := disk_ok d ∧ contents d = file.

(** The buffer holds the file from the current position up to the next read. *)
Record win_ok (w : window) : Prop := {
  w_length : length (buffer w) = (2 * blocksize)%nat;
  w_bytes : Forall (in_range 8) (buffer w);
  w_out : (outpointer w < blocksize)%nat;
  w_in : inpointer w = (outpointer w + blocksize)%nat;
  w_tail : (outpointer w ≤ tailpointer w ≤ 2 * blocksize)%nat;
  w_read : (readoffset w + outpointer w = currentoffset w + tailpointer w)%nat;
  w_end : (readoffset w ≤ F)%nat;
  w_data : slice (buffer w) (outpointer w) (tailpointer w - outpointer w)
           = slice file (currentoffset w) (tailpointer w - outpointer w);
}.

(** The window, or what the file has of it, is in the buffer. *)
Definition filled (w : window) : Prop :=
  (Nat.min blocksize (F - currentoffset w) ≤ tailpointer w - outpointer w)%nat.

(** The contexts after [n] bytes were read. *)
Record ctx_ok (x : contexts) (n : nat) : Prop := {
  x_tmp : length (tmp (contextfull x)) = 64%nat;
  x_16k : md5_rep (context16k x) (take (Nat.min n k16) file);
  x_full : hasher x = None → (k16 ≤ n)%nat → md5_rep (contextfull x) (take n file);
}.

(** The multi-hash object, when in use, has seen [n] bytes of the file. *)
Definition hasher_ok (x : contexts) (n : nat) : Prop :=
  ∀ h, hasher x = Some h → h_rep h (take n file) [].

(** The bytes under the window. *)
Definition under (cur : nat) : list Z := slice file cur (Nat.min blocksize (F - cur)).

(** Those of a short window, and zeros. *)
Definition padded (cur : nat) : list Z := under cur ++ replicate (blocksize - Nat.min blocksize (F - cur)) 0.

(** A block of bytes that starts with those under the window. *)
Definition extends (cur : nat) (W : list Z) : Prop := length W = blocksize ∧ take (length (under cur)) W = under cur.

(** Checksum and hash of a window inside the file, and the hash of any window. *)
Definition sums_ok (c : FileCheckSummer) : Prop :=
  u32 (checksum c) ∧
  (currentoffset (win c) + blocksize ≤ F →
    checksum c = crc32 (under (currentoffset (win c))) ∧
    (hasblockhash c = true → blockhash c = md5 (under (currentoffset (win c)))))%nat ∧
  (hasblockhash c = true → ∃ W, extends (currentoffset (win c)) W ∧ blockhash c = md5 W).

(** The state while the end of the file is not reached. *)
Record live (c : FileCheckSummer) : Prop := {
  l_disk : disk_is (disk c);
  l_win : win_ok (win c);
  l_filled : filled (win c);
  l_sync : hasher (ctx c) ≠ None → outpointer (win c) = 0%nat ∧ (tailpointer (win c) ≤ blocksize)%nat;
  l_sums : sums_ok c;
}.

Record inv (c : FileCheckSummer) : Prop := {
  i_cur : (currentoffset (win c) ≤ F)%nat;
  i_ctx : ctx_ok (ctx c) (readoffset (win c));
  i_hasher : hasher_ok (ctx c) (readoffset (win c));
  i_live : (currentoffset (win c) < F)%nat → live c;
  i_end : currentoffset (win c) = F → readoffset (win c) = F;
}.

(** ** Hashes *)

Lemma UpdateHashes_ok x n k : ctx_ok x n → (n + k ≤ F)%nat →
  ctx_ok (UpdateHashes x n (slice file n k)) (n + k) ∧ hasher (UpdateHashes x n (slice file n k)) = hasher x.
Proof.
  intros [Ht H16 Hfull] Hle. unfold UpdateHashes. rewrite length_slice by done.
  destruct (Nat.leb_spec k16 n) as [Hn|Hn].
  { rewrite Nat.min_r in H16 by lia. destruct (hasher x) eqn:Eh; (split; [|done]); split; cbn [contextfull context16k hasher].
    - done.
    - by rewrite Nat.min_r by lia.
    - rewrite Eh. discriminate.
    - apply (rep_length _ (take n file ++ slice file n k)). apply update_ok, Hfull; done.
    - by rewrite Nat.min_r by lia.
    - intros _ _. rewrite <- take_slice. apply update_ok, Hfull; done. }
  rewrite Nat.min_l in H16 by lia.
  destruct (Nat.leb_spec k16 (n + k)) as [Hk|Hk].
  2: { split; [|done]. split; cbn [contextfull context16k hasher]; [done| |lia]. rewrite Nat.min_l by lia. rewrite <- take_slice. by apply update_ok. }
  assert (md5_rep (update (context16k x) (take (k16 - n) (slice file n k))) (take k16 file)) as Hc16.
  { replace (take k16 file) with (take n file ++ take (k16 - n) (slice file n k)); [by apply update_ok|].
    unfold slice. rewrite take_take, Nat.min_l, take_take_drop by lia. f_equal. lia. }
  destruct (hasher x) eqn:Eh; (split; [|done]); split; cbn [contextfull context16k hasher]; try discriminate; try done.
  - by rewrite Nat.min_r by lia.
  - destruct (Nat.ltb_spec k16 (n + k)); [|apply (rep_length _ _ Hc16)].
    eapply rep_length, update_ok, Hc16.
  - by rewrite Nat.min_r by lia.
  - intros _ _. destruct (Nat.ltb_spec k16 (n + k)) as [Hlt|Hge].
    + replace (take (n + k) file) with (take k16 file ++ drop (k16 - n) (slice file n k)); [by apply update_ok|].
      unfold slice. rewrite skipn_firstn_comm, drop_drop.
      replace (n + (k16 - n))%nat with k16 by lia. rewrite take_take_drop. f_equal. lia.
    + by replace (n + k)%nat with k16 by lia.
Qed.

(** Once the multi-hash object is given up the single context takes over. *)
Lemma StopHasher_ok c : win_ok (win c) → ctx_ok (ctx c) (readoffset (win c)) → hasher_ok (ctx c) (readoffset (win c)) →
  (hasher (ctx c) ≠ None → outpointer (win c) = 0%nat ∧ (tailpointer (win c) ≤ blocksize)%nat) →
  ∃ x, StopHasher c = set_ctx c x ∧ hasher x = None ∧ ctx_ok x (readoffset (win c)).
Proof.
  intros Hw [Ht H16 Hfull] Hh Hs. unfold StopHasher. destruct (hasher (ctx c)) as [h|] eqn:Eh.
  2: { exists (ctx c). split; [by destruct c|]. split; [done|]. split; [done|done|]. intros _. by apply Hfull. }
  destruct Hs as [Ho Hl]; [done|]. rewrite (w_in _ Hw), Ho.
  destruct (Nat.ltb_spec (0 + blocksize) (tailpointer (win c))) as [Hlt|_]; [lia|].
  eexists. split; [done|]. split; [done|]. cbn.
  pose proof (extractFileMD5_ok h _ [] _ (Hh h Eh) Ht) as Hrep. rewrite app_nil_r in Hrep.
  split; cbn [contextfull context16k hasher]; [apply (rep_length _ _ Hrep)|done|done].
Qed.

(** ** Reading *)

Ltac fields := cbn [buffer outpointer inpointer tailpointer readoffset currentoffset disk win checksum blockhash hasblockhash ctx
  contextfull context16k hasher set_win set_ctx set_disk set_hash].

Lemma blank_win w n : win_ok w → (tailpointer w + n ≤ 2 * blocksize)%nat →
  win_ok {| buffer := memcpy (buffer w) (tailpointer w) (replicate n 0); outpointer := outpointer w; inpointer := inpointer w;
            tailpointer := tailpointer w; readoffset := readoffset w; currentoffset := currentoffset w |}.
Proof.
  intros [H1 H2 H3 H4 H5 H6 H7 H8] Hn. split; fields; try done.
  - rewrite length_memcpy; [done|]. rewrite length_replicate. lia.
  - apply Forall_memcpy; [done|]. apply Forall_replicate. split; simpl; lia.
  - rewrite slice_memcpy_before by lia. done.
Qed.

Lemma read_win w n : win_ok w → (tailpointer w + n ≤ 2 * blocksize)%nat → (readoffset w + n ≤ F)%nat →
  win_ok {| buffer := memcpy (buffer w) (tailpointer w) (slice file (readoffset w) n); outpointer := outpointer w; inpointer := inpointer w;
            tailpointer := tailpointer w + n; readoffset := readoffset w + n; currentoffset := currentoffset w |}.
Proof.
  intros [H1 H2 H3 H4 H5 H6 H7 H8] Hn Hr. assert (length (slice file (readoffset w) n) = n) as Hl by (by apply length_slice).
  split; fields; try done; try lia.
  - rewrite length_memcpy; [done|]. rewrite Hl. lia.
  - apply Forall_memcpy; [done|]. by apply Forall_slice.
  - replace (tailpointer w + n - outpointer w)%nat with (tailpointer w - outpointer w + n)%nat by lia.
    rewrite !slice_app, slice_memcpy_before by lia. rewrite H8. f_equal.
    replace (outpointer w + (tailpointer w - outpointer w))%nat with (tailpointer w) by lia.
    rewrite <- Hl at 2. rewrite slice_memcpy_self by lia. f_equal. lia.
Qed.

(** What a call of [Fill] does to the object. *)
Record fill_post (c : FileCheckSummer) (d : DiskFile) (w : window) (x : contexts) : Prop := {
  f_disk : disk_is d;
  f_win : win_ok w;
  f_ctx : ctx_ok x (readoffset w);
  f_hasher : hasher x = hasher (ctx c);
  f_cur : currentoffset w = currentoffset (win c);
  f_out : outpointer w = outpointer (win c);
}.

(** The body of [Fill] behind its guards reads up to [target] or to the end of the file. *)
Lemma fill_read c target : disk_is (disk c) → win_ok (win c) → ctx_ok (ctx c) (readoffset (win c)) →
  (tailpointer (win c) ≤ target ≤ 2 * blocksize)%nat → (readoffset (win c) < F)%nat →
  let want := Nat.min (F - readoffset (win c)) (target - tailpointer (win c)) in
  ∃ d w x, ('(ok, c) ← (if Nat.ltb 0 want then
       '(ok, d, data) ← Read (disk c) (Z.of_nat (readoffset (win c))) (Z.of_nat want) maxlength;
       if negb ok then Some (false, set_disk c d) else
       Some (true, set_ctx (set_win (set_disk c d)
         {| buffer := memcpy (buffer (win c)) (tailpointer (win c)) data; outpointer := outpointer (win c); inpointer := inpointer (win c);
            tailpointer := tailpointer (win c) + want; readoffset := readoffset (win c) + want; currentoffset := currentoffset (win c) |})
         (UpdateHashes (ctx c) (readoffset (win c)) data))
     else Some (true, c));
  if negb ok then Some (false, c) else
  let w := win c in
  Some (true, set_win c
    {| buffer := memcpy (buffer w) (tailpointer w) (replicate (target - tailpointer w) 0);
       outpointer := outpointer w; inpointer := inpointer w; tailpointer := tailpointer w;
       readoffset := readoffset w; currentoffset := currentoffset w |}))
    = Some (true, set_ctx (set_win (set_disk c d) w) x) ∧ fill_post c d w x ∧
    tailpointer w = (tailpointer (win c) + want)%nat ∧ (readoffset w = F ∨ tailpointer w = target)%nat.
Proof.
  intros [Hd Hc] Hw Hx Ht Hr want. assert (want ≤ F - readoffset (win c) ∧ want ≤ target - tailpointer (win c))%nat as [Hw1 Hw2] by lia.
  assert (readoffset (win c) + want = F ∨ tailpointer (win c) + want = target)%nat as Hor by lia. clearbody want.
  pose proof (do_size _ Hd) as Hz. rewrite Hc in Hz.
  destruct (Nat.ltb_spec 0 want) as [Hpos|Hzero].
  - rewrite Read_ok by (done || lia). rewrite Nat2Z.id, Hc. cbn [mbind option_bind negb].
    destruct (UpdateHashes_ok (ctx c) (readoffset (win c)) want Hx ltac:(lia)) as [Hx' Hh].
    pose proof (read_win (win c) want Hw ltac:(lia) ltac:(lia)) as Hw'.
    eexists (at_offset (disk c) _), _, _. split; [unfold set_ctx, set_win, set_disk; fields; reflexivity|]. fields. split; [|done]. split; fields; try done.
    + split; [apply at_offset_ok; [done|lia]|done].
    + apply (blank_win _ (target - (tailpointer (win c) + want)) Hw'). fields. lia.
  - cbn [mbind option_bind negb]. exists (disk c). eexists _, (ctx c). split; [unfold set_ctx, set_win, set_disk; fields; reflexivity|]. fields.
    assert (want = 0)%nat as -> by lia. rewrite !Nat.add_0_r in *. split; [|done]. split; fields; try done.
    apply (blank_win _ _ Hw). lia.
Qed.

(** [Fill] extends the data in the buffer by a read, or leaves it when there is enough. *)
Lemma Fill_ok c longfill : disk_is (disk c) → win_ok (win c) → ctx_ok (ctx c) (readoffset (win c)) →
  ∃ d w x, Fill c longfill = Some (true, set_ctx (set_win (set_disk c d) w) x) ∧ fill_post c d w x ∧
    (readoffset w = F ∨ blocksize ≤ tailpointer w)%nat ∧
    (tailpointer (win c) = 0 → tailpointer w ≤ blocksize)%nat ∧
    (longfill = true → (0 < tailpointer (win c))%nat → readoffset w = F ∨ tailpointer w = 2 * blocksize)%nat.
Proof.
  intros Hd Hw Hx. pose proof (w_tail _ Hw) as Ht. pose proof (w_end _ Hw) as He.
  assert (∃ d w x, Some (true, c) = Some (true, set_ctx (set_win (set_disk c d) w) x) ∧ fill_post c d w x ∧ w = win c) as Hid.
  { exists (disk c), (win c), (ctx c). split; [by destruct c|]. by split. }
  unfold CheckSummer.Fill. destruct (Nat.leb_spec F (readoffset (win c))) as [Hend|Hmore].
  { destruct Hid as (d & w & x & -> & Hp & ->). exists d, (win c), x. split_and!; try done; lia. }
  destruct (Nat.leb blocksize (tailpointer (win c)) && negb longfill) eqn:Eg.
  { apply andb_prop in Eg as [Hge%Nat.leb_le Hlf]. destruct longfill; [done|].
    destruct Hid as (d & w & x & -> & Hp & ->). exists d, (win c), x. split_and!; try done; lia. }
  set (target := if Nat.eqb (tailpointer (win c)) 0 then blocksize else (2 * blocksize)%nat).
  assert (tailpointer (win c) ≤ target ≤ 2 * blocksize ∧ blocksize ≤ target ∧
    (tailpointer (win c) = 0 → target = blocksize) ∧ (0 < tailpointer (win c) → target = 2 * blocksize))%nat as (Ht1 & Ht2 & Ht3 & Ht4)
    by (unfold target; destruct (Nat.eqb_spec (tailpointer (win c)) 0); lia). clearbody target.
  destruct (fill_read c target Hd Hw Hx Ht1 Hmore) as (d & w & x & E & Hp & Htw & Hor).
  exists d, w, x. split; [exact E|]. split_and!; try done; lia.
Qed.

(** ** The checksum of a whole window *)

Lemma under_length cur : (cur ≤ F)%nat → length (under cur) = Nat.min blocksize (F - cur).
Proof. intros. apply length_slice. lia. Qed.

Lemma under_bytes cur : Forall (in_range 8) (under cur).
Proof. by apply Forall_slice. Qed.

Lemma under_buffer w : win_ok w → filled w →
  slice (buffer w) (outpointer w) (Nat.min blocksize (F - currentoffset w)) = under (currentoffset w).
Proof.
  intros Hw Hf. pose proof (slice_sub _ _ _ _ _ 0 (Nat.min blocksize (F - currentoffset w)) (w_data _ Hw)) as E.
  rewrite !Nat.add_0_r in E. apply E. unfold filled in Hf. lia.
Qed.

Lemma under_full cur : (cur + blocksize ≤ F)%nat → under cur = slice file cur blocksize.
Proof. clear Hbs Hfresh. intros. unfold under. f_equal. lia. Qed.

Lemma ComputeCurrentChecksum_ok c domd5 : win_ok (win c) → filled (win c) → outpointer (win c) = 0%nat →
  hasher_ok (ctx c) (currentoffset (win c)) → (currentoffset (win c) ≤ F)%nat →
  (hasher (ctx c) ≠ None → tailpointer (win c) ≤ blocksize)%nat →
  hasblockhash c = false ∨ domd5 = true →
  ∃ crc hash has h, ComputeCurrentChecksum c domd5
    = Some (set_ctx (set_hash c crc hash has) {| contextfull := contextfull (ctx c); context16k := context16k (ctx c); hasher := h |}) ∧
    (h = None ↔ hasher (ctx c) = None) ∧
    (∀ h', h = Some h' → h_rep h' (take (readoffset (win c)) file) []) ∧
    sums_ok (set_hash c crc hash has) ∧
    (hasher (ctx c) ≠ None → crc = crc32 (padded (currentoffset (win c))) ∧ hash = md5 (padded (currentoffset (win c))) ∧ has = true).
Proof.
  intros Hw Hf Ho Hh Hcur Ht Hmd. unfold CheckSummer.ComputeCurrentChecksum. set (cur := currentoffset (win c)) in *.
  pose proof (under_buffer _ Hw Hf) as Eu. pose proof (under_bytes cur) as Hub. rewrite Ho in Eu. fold cur in Eu.
  pose proof (w_read _ Hw) as Hrd. pose proof (w_tail _ Hw) as Htl. pose proof (w_end _ Hw) as Hend. rewrite Ho in *. fold cur in Hrd.
  unfold filled in Hf. fold cur in Hf.
  destruct (hasher (ctx c)) as [h|] eqn:Eh.
  - rewrite Eu. destruct (h_update_ok h _ [] _ (Hh h Eh) Hub) as (h1 & -> & Hh1). cbn [mbind option_bind].
    set (zp := (blocksize - Nat.min blocksize (F - cur))%nat).
    rewrite (HasherGetBlock_ok h1 _ (under cur) zp Hh1 Hub) by lia. cbn [mbind option_bind].
    eexists _, _, _, (Some _). split; [reflexivity|]. split; [done|]. split.
    + intros h' [= <-]. apply resetBlock_ok in Hh1. unfold under in Hh1. cbn [app] in Hh1. rewrite take_slice in Hh1.
      replace (readoffset (win c)) with (cur + Nat.min blocksize (F - cur))%nat; [done|]. specialize (Ht ltac:(done)). lia.
    + split; [|done]. split_and!; fields.
      * apply crc32_range, Forall_app. split; [done|]. apply Forall_replicate. split; simpl; lia.
      * fold cur. intros Hin. assert (zp = 0)%nat as -> by lia. rewrite app_nil_r. done.
      * fold cur. intros _. eexists. split; [|reflexivity]. split; [|apply take_app_length].
        rewrite length_app, length_replicate, under_length by done. lia.
  - assert (Forall (in_range 8) (slice (buffer (win c)) 0 blocksize)) as Hsb by apply Forall_slice, (w_bytes _ Hw).
    assert (cur + blocksize ≤ F → slice (buffer (win c)) 0 blocksize = under cur)%nat as Ef.
    { intros. rewrite <- Eu. f_equal. lia. }
    assert (∀ crc hash has, set_hash c crc hash has = set_ctx (set_hash c crc hash has)
      {| contextfull := contextfull (ctx c); context16k := context16k (ctx c); hasher := None |}) as Enone.
    { intros. unfold set_ctx, set_hash. fields. rewrite <- Eh. by destruct (ctx c). }
    destruct domd5.
    + change 0 with (Z.of_nat 0) at 1. rewrite MD5CRC_Calc_ok by (done || lia). cbn [mbind option_bind].
      eexists _, _, _, None. split; [f_equal; apply Enone|]. split; [done|]. split; [done|]. split; [|done]. split_and!; fields.
      * apply crc32_range. by rewrite app_nil_r.
      * rewrite app_nil_r. fold cur. intros Hin. by rewrite Ef.
      * fold cur. intros _. eexists. split; [|reflexivity]. rewrite app_nil_r. split.
        -- apply length_slice. rewrite (w_length _ Hw). lia.
        -- rewrite under_length by done. unfold slice. rewrite drop_0, take_take. rewrite <- Eu. unfold slice. rewrite drop_0. f_equal. lia.
    + destruct Hmd as [Hmd|Hmd]; [|done]. rewrite CRC32_Calc_ok by done. cbn [mbind option_bind].
      eexists _, _, _, None. split; [f_equal; apply Enone|]. split; [done|]. split; [done|]. split; [|done]. split_and!; fields; [by apply crc32_range| |by rewrite Hmd].
      fold cur. intros Hin. rewrite Ef, Hmd by done. done.
Qed.

(** ** The moves *)

Lemma fill_compute_sums c domd5 : disk_is (disk c) → win_ok (win c) → outpointer (win c) = 0%nat → (currentoffset (win c) ≤ F)%nat →
  ctx_ok (ctx c) (readoffset (win c)) → hasher_ok (ctx c) (currentoffset (win c)) →
  (hasher (ctx c) ≠ None → tailpointer (win c) = 0)%nat → hasblockhash c = false ∨ domd5 = true →
  ∃ c', ('(ok, c) ← Fill c false; if negb ok then Some (false, c) else c ← ComputeCurrentChecksum c domd5; Some (true, c)) = Some (true, c') ∧
    inv c' ∧ currentoffset (win c') = currentoffset (win c) ∧
    (hasher (ctx c) ≠ None → checksum c' = crc32 (padded (currentoffset (win c))) ∧ blockhash c' = md5 (padded (currentoffset (win c))) ∧ hasblockhash c' = true).
Proof.
  intros Hd Hw Ho Hcur Hx Hh Hs Hmd. destruct (Fill_ok c false Hd Hw Hx) as (d & w & x & -> & [Fd Fw Fx Fh Fc Fo] & Ha & Hb & _).
  cbn [mbind option_bind negb]. set (c1 := set_ctx _ _). pose proof (w_read _ Fw) as Hrd. pose proof (w_tail _ Fw) as Htl.
  pose proof (w_end _ Fw) as He. rewrite Fo, Ho in Hrd, Htl.
  assert (filled w) as Hf by (unfold filled; rewrite Fo, Ho; lia).
  destruct (ComputeCurrentChecksum_ok c1 domd5) as (crc & hash & has & h & -> & Hn & Hrep & Hsum & Hpad).
  all: try (unfold c1, hasher_ok in *; fields; rewrite ?Fh, ?Fc, ?Fo; done || auto).
  unfold c1 in *; fields. cbn [mbind option_bind]. eexists. split; [reflexivity|].
  unfold set_ctx, set_hash, set_win, set_disk in *; fields; fields.
  cbn [win disk ctx hasher checksum blockhash hasblockhash contextfull context16k] in *. rewrite Fc, Fh in Hpad. destruct Fx as [X1 X2 X3]. split; [|done].
  split; fields; [lia| |done| |lia].
  - split; fields; [done|done|]. intros Hnone. apply X3. by apply Hn.
  - intros Hlt. split; fields; [done|done|done| |done]. intros Hne. rewrite Fo. split; [done|]. apply Hb, Hs. rewrite <- Fh. tauto.
Qed.

Lemma fill_compute c domd5 : disk_is (disk c) → win_ok (win c) → outpointer (win c) = 0%nat → (currentoffset (win c) ≤ F)%nat →
  ctx_ok (ctx c) (readoffset (win c)) → hasher_ok (ctx c) (currentoffset (win c)) →
  (hasher (ctx c) ≠ None → tailpointer (win c) = 0)%nat → hasblockhash c = false ∨ domd5 = true →
  ∃ c', ('(ok, c) ← Fill c false; if negb ok then Some (false, c) else c ← ComputeCurrentChecksum c domd5; Some (true, c)) = Some (true, c') ∧
    inv c' ∧ currentoffset (win c') = currentoffset (win c).
Proof. intros. edestruct (fill_compute_sums c domd5) as (c' & E & Hi & Hc & _); eauto. Qed.

Lemma Start_sums c : disk_is (disk c) → length (buffer (win c)) = (2 * blocksize)%nat → Forall (in_range 8) (buffer (win c)) →
  length (tmp (contextfull (ctx c))) = 64%nat → md5_rep (context16k (ctx c)) [] →
  ∃ c', Start c = Some (true, c') ∧ inv c' ∧ currentoffset (win c') = 0%nat ∧
    checksum c' = crc32 (padded 0) ∧ blockhash c' = md5 (padded 0) ∧ hasblockhash c' = true.
Proof.
  intros Hd Hl Hb Ht H16. unfold CheckSummer.Start.
  set (c1 := set_ctx _ _). destruct (fill_compute_sums c1 true) as (c' & E & Hi & Hc & Hs); unfold c1 in *; fields; try done; try lia; try by right.
  - split; fields; try done; lia.
  - intros h [= <-]. by apply h_reset_ok.
  - exists c'. split; [exact E|]. split; [done|]. split; [done|]. by apply Hs.
Qed.

Lemma Start_ok c : disk_is (disk c) → length (buffer (win c)) = (2 * blocksize)%nat → Forall (in_range 8) (buffer (win c)) →
  length (tmp (contextfull (ctx c))) = 64%nat → md5_rep (context16k (ctx c)) [] →
  ∃ c', Start c = Some (true, c') ∧ inv c' ∧ currentoffset (win c') = 0%nat.
Proof. intros H1 H2 H3 H4 H5. destruct (Start_sums c H1 H2 H3 H4 H5) as (c' & E & Hi & Hc & _). by exists c'. Qed.

(** The data kept by a jump goes to the start of the buffer. *)
Lemma move_win w n : win_ok w → (n ≤ tailpointer w - outpointer w)%nat →
  win_ok {| buffer := if Nat.ltb 0 (tailpointer w - (outpointer w + n))
              then memcpy (buffer w) 0 (slice (buffer w) (outpointer w + n) (tailpointer w - (outpointer w + n))) else buffer w;
            outpointer := 0; inpointer := blocksize; tailpointer := tailpointer w - (outpointer w + n);
            readoffset := readoffset w; currentoffset := currentoffset w + n |}.
Proof.
  intros [H1 H2 H3 H4 H5 H6 H7 H8] Hn. set (keep := (tailpointer w - (outpointer w + n))%nat).
  assert (length (slice (buffer w) (outpointer w + n) keep) = keep) as Hl by (apply length_slice; lia).
  split; fields; try lia.
  - destruct (Nat.ltb 0 keep); [|done]. rewrite length_memcpy; [done|]. lia.
  - destruct (Nat.ltb 0 keep); [|done]. apply Forall_memcpy; [done|]. by apply Forall_slice.
  - rewrite Nat.sub_0_r. destruct (Nat.ltb_spec 0 keep) as [Hpos|Hz]; [|by replace keep with 0%nat by lia].
    rewrite <- Hl at 2. rewrite slice_memcpy_self by lia. eapply slice_sub; [exact H8|]. lia.
Qed.

Lemma read_to_end w : win_ok w → filled w → (currentoffset w < F)%nat → (F - currentoffset w ≤ blocksize)%nat → readoffset w = F.
Proof. intros Hw Hf. pose proof (w_read _ Hw). pose proof (w_end _ Hw). pose proof (w_tail _ Hw). unfold filled in Hf. lia. Qed.

Lemma at_end_inv c : readoffset (win c) = F → ctx_ok (ctx c) F → hasher_ok (ctx c) F →
  inv (at_end blocksize F c) ∧ currentoffset (win (at_end blocksize F c)) = F.
Proof. intros Hr Hx Hh. split; [|done]. unfold at_end. split; fields; rewrite ?Hr; done || lia. Qed.

(** The window after the byte under its left end was dropped. *)
Lemma slide_win w : win_ok w → (S (outpointer w) ≤ tailpointer w)%nat →
  win_ok (if Nat.ltb (S (outpointer w)) blocksize then
    {| buffer := buffer w; outpointer := S (outpointer w); inpointer := S (inpointer w); tailpointer := tailpointer w;
       readoffset := readoffset w; currentoffset := S (currentoffset w) |}
  else
    {| buffer := memcpy (buffer w) 0 (slice (buffer w) (S (outpointer w)) blocksize); outpointer := 0; inpointer := S (outpointer w);
       tailpointer := tailpointer w - blocksize; readoffset := readoffset w; currentoffset := S (currentoffset w) |}).
Proof.
  intros [H1 H2 H3 H4 H5 H6 H7 H8] Ht.
  assert (∀ m, (S m ≤ tailpointer w - outpointer w)%nat → slice (buffer w) (S (outpointer w)) m = slice file (S (currentoffset w)) m) as Hsub.
  { intros m Hm. rewrite <- (Nat.add_1_r (outpointer w)), <- (Nat.add_1_r (currentoffset w)). eapply slice_sub; [exact H8|]. lia. }
  destruct (Nat.ltb_spec (S (outpointer w)) blocksize) as [Hlt|Hge].
  { split; fields; try assumption; try lia. apply Hsub. lia. }
  assert (S (outpointer w) = blocksize) as Eo by lia. rewrite Eo in *.
  assert (length (slice (buffer w) blocksize blocksize) = blocksize) as Hl by (apply length_slice; lia).
  split; fields; try lia.
  - rewrite length_memcpy; [done|]. lia.
  - apply Forall_memcpy; [done|]. by apply Forall_slice.
  - rewrite Nat.sub_0_r. pose proof (slice_memcpy_self (buffer w) 0 (slice (buffer w) blocksize blocksize) ltac:(lia)) as E.
    rewrite Hl in E. rewrite <- (Hsub (tailpointer w - blocksize)%nat) by lia.
    pose proof (slice_sub _ (buffer w) _ blocksize _ 0 (tailpointer w - blocksize) E ltac:(lia)) as E'. by rewrite !Nat.add_0_r in E'.
Qed.

(** The checksum follows the window by one byte. *)
Lemma slide_checksum w crc : win_ok w → u32 crc → (currentoffset w < F)%nat →
  ((tailpointer w ≤ inpointer w)%nat → readoffset w = F) →
  (currentoffset w + blocksize ≤ F → crc = crc32 (under (currentoffset w)))%nat →
  ∃ inch outch crc', buffer w !! inpointer w = Some inch ∧ buffer w !! outpointer w = Some outch ∧
    CRCSlideChar crc inch outch windowtable = Some crc' ∧ u32 crc' ∧
    (S (currentoffset w) + blocksize ≤ F → crc' = crc32 (under (S (currentoffset w))))%nat.
Proof.
  intros Hw Hu Hcur Hfill Hcrc. destruct (Hw) as [H1 H2 H3 H4 H5 H6 H7 H8].
  destruct (lookup_lt_is_Some_2 (buffer w) (inpointer w) ltac:(lia)) as [inch Hin].
  destruct (lookup_lt_is_Some_2 (buffer w) (outpointer w) ltac:(lia)) as [outch Hout].
  assert (in_range 8 inch) as Hi by (by eapply (Forall_lookup_1 (in_range 8))).
  assert (in_range 8 outch) as Ho by (by eapply (Forall_lookup_1 (in_range 8))).
  destruct (CRCSlideChar_total crc inch outch blocksize windowtable Hu Hi Ho Htable) as (crc' & Hcrc' & Hu').
  exists inch, outch, crc'. split_and!; try assumption. intros Hle. rewrite Hcrc in Hcrc' by lia. rewrite under_full in Hcrc' by lia.
  rewrite under_full by lia.
  assert (∃ m, blocksize = S m) as [m Em] by (exists (Nat.pred blocksize); lia).
  destruct (slice_lookup file (currentoffset w) m ltac:(lia)) as (b & Hb & Es). rewrite <- Em in Es.
  assert (length (slice file (S (currentoffset w)) m) = m) as Hlm by (apply length_slice; lia).
  assert (slice (buffer w) (outpointer w) (S blocksize) = slice file (currentoffset w) (S blocksize)) as Ew.
  { pose proof (slice_sub _ _ _ _ _ 0 (S blocksize) H8 ltac:(lia)) as E. by rewrite !Nat.add_0_r in E. }
  destruct (slice_lookup (buffer w) (outpointer w) blocksize ltac:(lia)) as (b1 & Hb1 & Es1).
  destruct (slice_lookup file (currentoffset w) blocksize ltac:(lia)) as (b2 & Hb2 & Es2). rewrite Es1, Es2 in Ew. injection Ew as -> Et.
  assert (outch = b) as -> by (rewrite Hout in Hb1; rewrite Hb in Hb2; congruence).
  assert (slice file (S (currentoffset w)) blocksize = slice file (S (currentoffset w)) m ++ [inch]) as ->.
  { replace blocksize with (m + 1)%nat by lia. rewrite slice_app. f_equal.
    pose proof (slice_sub _ _ _ _ _ m 1 Et ltac:(lia)) as E1. replace (S (outpointer w) + m)%nat with (inpointer w) in E1 by lia.
    rewrite <- E1. destruct (slice_lookup (buffer w) (inpointer w) 0 ltac:(lia)) as (b3 & Hb3 & ->).
    rewrite Hin in Hb3. by injection Hb3 as ->. }
  pose proof (CRCSlideChar_ok b (slice file (S (currentoffset w)) m) inch windowtable) as Hok. cbn [length] in Hok.
  rewrite Hlm, <- Em, <- Es in Hok. rewrite Hok in Hcrc'; [by injection Hcrc' as <-|by apply Forall_slice|done|done].
Qed.

Definition set_cur (w : window) (cur : nat) : window :=
  {| buffer := buffer w; outpointer := outpointer w; inpointer := inpointer w; tailpointer := tailpointer w;
     readoffset := readoffset w; currentoffset := cur |}.

(** [Fill] does not look at the position of the window. *)
Lemma Fill_cur c cur longfill b c' : Fill c longfill = Some (b, c') →
  Fill (set_win c (set_cur (win c) cur)) longfill = Some (b, set_win c' (set_cur (win c') cur)).
Proof.
  unfold CheckSummer.Fill, set_cur, set_win, set_ctx, set_disk. fields.
  destruct (Nat.leb F _); [by intros [= <- <-]|]. destruct (_ && _); [by intros [= <- <-]|].
  set (want := Nat.min _ _). clearbody want. destruct (Nat.ltb 0 want).
  - destruct (Read _ _ _ _) as [[[[] d] data]|]; cbn [mbind option_bind negb]; fields; by intros [= <- <-].
  - cbn [mbind option_bind negb]. fields. by intros [= <- <-].
Qed.

(** The object that [Step] looks at when it takes the next byte. *)
Lemma step_fill c : disk_is (disk c) → win_ok (win c) → filled (win c) → (currentoffset (win c) < F)%nat → ctx_ok (ctx c) (readoffset (win c)) →
  ∃ d w x, (if Nat.leb (tailpointer (win c)) (inpointer (win c)) then Fill c true else Some (true, c))
    = Some (true, set_ctx (set_win (set_disk c d) w) x) ∧ fill_post c d w x ∧
    (readoffset w = F ∨ inpointer w < tailpointer w)%nat.
Proof.
  intros Hd Hw Hf Hcur Hx. pose proof (w_tail _ Hw) as Ht. pose proof (w_read _ Hw) as Hr. pose proof (w_in _ Hw) as Hi.
  unfold filled in Hf. destruct (Nat.leb_spec (tailpointer (win c)) (inpointer (win c))) as [Hle|Hgt].
  - destruct (Fill_ok c true Hd Hw Hx) as (d & w & x & E & Hp & _ & _ & Hlong). exists d, w, x. split; [exact E|]. split; [done|].
    destruct (Hlong eq_refl ltac:(lia)) as [Hend|Htail]; [by left|right].
    rewrite (w_in _ (f_win _ _ _ _ Hp)), (f_out _ _ _ _ Hp). pose proof (w_out _ Hw). lia.
  - exists (disk c), (win c), (ctx c). split; [by destruct c|]. split; [by split|]. by right.
Qed.

Lemma Step_ok c : inv c → (currentoffset (win c) < F)%nat →
  ∃ c', Step c = Some (true, c') ∧ inv c' ∧ currentoffset (win c') = S (currentoffset (win c)).
Proof.
  intros [_ Hx Hh Hl _] Hcur. destruct (Hl Hcur) as [Hd Hw Hf Hs (Hu & Hsum & _)].
  destruct (StopHasher_ok c Hw Hx Hh Hs) as (x & Ex & Hnone & Hx'). unfold CheckSummer.Step.
  rewrite (proj2 (Nat.leb_gt F (currentoffset (win c)))) by done. rewrite Ex. fields.
  assert (∀ n, hasher_ok x n) as Hnh by (intros n h; rewrite Hnone; discriminate).
  destruct (Nat.leb_spec F (S (currentoffset (win c)))) as [Hend|Hmore].
  { pose proof (read_to_end _ Hw Hf Hcur ltac:(lia)) as Hr. rewrite Hr in Hx'.
    eexists. split; [reflexivity|]. replace (S (currentoffset (win c))) with F by lia. apply at_end_inv; done || apply Hnh. }
  set (c1 := set_hash (set_ctx c x) (checksum c) (blockhash c) false).
  destruct (step_fill c1 Hd Hw Hf Hcur Hx') as (d & w & x2 & E & [Fd Fw Fx Fh Fc Fo] & Hor).
  match goal with |- ∃ c', (mbind _ ?m) = _ ∧ _ =>
    replace m with (Some (true, set_win (set_ctx (set_win (set_disk c1 d) w) x2) (set_cur w (S (currentoffset (win c)))))) end.
  2: { destruct (Nat.leb _ _); [|by apply (f_equal (fmap (λ p, (p.1, set_win p.2 (set_cur (win p.2) (S (currentoffset (win c)))))))) in E].
       by apply (Fill_cur c1 (S (currentoffset (win c)))) in E. }
  cbn [mbind option_bind negb]. unfold set_cur. fields.
  change (currentoffset (win c1)) with (currentoffset (win c)) in Fc. rewrite <- Fc in *.
  change (hasher (ctx c1)) with (hasher x) in Fh. rewrite Hnone in Fh. clear E.
  pose proof (w_read _ Fw) as Hr. pose proof (w_tail _ Fw) as Ht. pose proof (w_in _ Fw) as Hi. pose proof (w_end _ Fw) as He.
  destruct (slide_checksum w (checksum c) Fw Hu Hcur ltac:(lia) (λ H, proj1 (Hsum H))) as (inch & outch & crc & -> & -> & Hcrc & Hu' & Hsl).
  cbn [mbind option_bind]. change (checksum c1) with (checksum c). rewrite Hcrc. cbn [mbind option_bind].
  pose proof (slide_win w Fw ltac:(lia)) as Hsw.
  destruct (Nat.ltb_spec (S (outpointer w)) blocksize) as [Hlt|Hge]; (eexists; split; [reflexivity|]; fields; split; [|done]).
  all: split; fields; [lia|done|intros h; rewrite Fh; discriminate| |lia]; intros _; split; fields; [done|done| |by rewrite Fh|].
  all: try (split_and!; fields; [done| |discriminate]; intros Hle; split; [by apply Hsl|discriminate]).
  all: unfold filled; fields; pose proof (w_out _ Fw); lia.
Qed.

(** The first part of [Jump]: the multi-hash object is given up unless it stays in step. *)
Lemma jump_sync c dist : inv c → (currentoffset (win c) < F)%nat →
  ∃ x, (if negb (Nat.eqb dist blocksize) && Nat.ltb (currentoffset (win c) + dist) F then StopHasher c else c) = set_ctx c x ∧
    ctx_ok x (readoffset (win c)) ∧ hasher_ok x (readoffset (win c)) ∧
    (hasher x ≠ None → (currentoffset (win c) + dist < F)%nat →
      dist = blocksize ∧ outpointer (win c) = 0%nat ∧ (tailpointer (win c) ≤ blocksize)%nat).
Proof.
  intros [_ Hx Hh Hl _] Hcur. destruct (Hl Hcur) as [Hd Hw Hf Hs _].
  destruct (negb _ && _) eqn:Eb.
  - destruct (StopHasher_ok c Hw Hx Hh Hs) as (x & -> & Hnone & Hx'). exists x. split_and!; try done.
    intros h. rewrite Hnone. discriminate.
  - exists (ctx c). split_and!; try assumption; [by destruct c|]. intros Hne Hlt. destruct (Hs Hne) as [Ho Ht]. split_and!; try assumption.
    apply andb_false_iff in Eb as [Eb|Eb%Nat.ltb_ge]; [|lia]. by apply negb_false_iff, Nat.eqb_eq in Eb.
Qed.

Lemma Jump_ok c n : inv c → (currentoffset (win c) < F)%nat → (0 < n)%nat →
  ∃ c', Jump c n = Some (true, c') ∧ inv c' ∧ currentoffset (win c') = Nat.min F (currentoffset (win c) + Nat.min n blocksize).
Proof.
  intros Hinv Hcur Hn. unfold CheckSummer.Jump. rewrite (proj2 (Nat.leb_gt F (currentoffset (win c)))) by done.
  rewrite (proj2 (Nat.eqb_neq n 0)) by lia. destruct (Nat.eqb_spec n 1) as [->|H1].
  { destruct (Step_ok c Hinv Hcur) as (c' & E & Hi & Hc). exists c'. split; [exact E|]. split; [done|]. lia. }
  set (dist := Nat.min n blocksize). assert (0 < dist ≤ blocksize)%nat as Hdist by lia. clearbody dist.
  destruct (jump_sync c dist Hinv Hcur) as (x & -> & Hx & Hh & Hsync). destruct (i_live _ Hinv Hcur) as [Hd Hw Hf _ _]. fields.
  destruct (Nat.leb_spec F (currentoffset (win c) + dist)) as [Hend|Hmore].
  { pose proof (read_to_end _ Hw Hf Hcur ltac:(lia)) as Hr. rewrite Hr in *. rewrite Nat.min_l by lia.
    eexists. split; [reflexivity|]. by apply at_end_inv. }
  rewrite Nat.min_r by lia. unfold filled in Hf. pose proof (w_tail _ Hw) as Ht. pose proof (w_read _ Hw) as Hr.
  pose proof (move_win (win c) dist Hw ltac:(lia)) as Hmw. set (keep := (tailpointer (win c) - (outpointer (win c) + dist))%nat) in *.
  assert (hasher x ≠ None → keep = 0 ∧ readoffset (win c) = currentoffset (win c) + dist)%nat as Hk.
  { intros Hne. destruct (Hsync Hne Hmore) as (-> & Ho & Htl). lia. }
  apply fill_compute; fields; try done; try lia.
  - intros h Eh. destruct (Hk ltac:(by rewrite Eh)) as [_ <-]. by apply Hh.
  - intros Hne. apply (Hk Hne).
Qed.

(** ** What can be asked of the object *)

Lemma short_window c : inv c → (currentoffset (win c) < F)%nat →
  slice (buffer (win c)) (outpointer (win c)) (BlockLength blocksize F c) = under (currentoffset (win c)).
Proof. intros Hi Hcur. destruct (i_live _ Hi Hcur) as [_ Hw Hf _ _]. by apply under_buffer. Qed.

Lemma ShortChecksum_ok c : inv c → (currentoffset (win c) < F)%nat →
  ShortChecksum blocksize c (BlockLength blocksize F c) = Some (crc32 (padded (currentoffset (win c)))).
Proof.
  intros Hi Hcur. unfold ShortChecksum. rewrite short_window by done. rewrite CRC32_Calc_ok by apply under_bytes. cbn [mbind option_bind].
  unfold BlockLength, padded. set (k := Nat.min blocksize (F - currentoffset (win c))).
  destruct (Nat.ltb_spec k blocksize) as [Hlt|Hge].
  2: { replace (blocksize - k)%nat with 0%nat by lia. by rewrite app_nil_r. }
  unfold crc32 at 1. rewrite lxor_nilpotent_l, CRCUpdateBlock_zeros_ok.
  - cbn [mbind option_bind]. unfold crc32. by rewrite crc_feed_app.
  - apply crc_feed_range; [split; simpl; lia|apply under_bytes].
Qed.

Lemma ShortHash_ok c scratch : inv c → (currentoffset (win c) < F)%nat → length (tmp scratch) = 64%nat →
  ShortHash blocksize c (BlockLength blocksize F c) scratch = Some (md5 (padded (currentoffset (win c)))).
Proof.
  intros Hi Hcur Hs. unfold ShortHash. rewrite short_window by done.
  assert (md5_rep (update (reset scratch) (under (currentoffset (win c)))) (under (currentoffset (win c)))) as Hrep
    by (apply (update_ok _ []), reset_ok, Hs).
  unfold BlockLength, padded. set (k := Nat.min blocksize (F - currentoffset (win c))).
  destruct (Nat.ltb_spec k blocksize) as [Hlt|Hge].
  - by apply end_ok, updateZero_ok.
  - replace (blocksize - k)%nat with 0%nat by lia. rewrite app_nil_r. by apply end_ok.
Qed.

Lemma Hash_ok c scratch : inv c → (currentoffset (win c) + blocksize ≤ F)%nat → length (tmp scratch) = 64%nat →
  Hash blocksize c scratch = Some (md5 (under (currentoffset (win c)))).
Proof.
  intros Hi Hin Hs. pose proof (short_window c Hi ltac:(lia)) as Es. destruct (i_live _ Hi ltac:(lia)) as [_ _ _ _ (_ & Hsum & _)].
  destruct (Hsum Hin) as [_ Hb]. unfold Hash. destruct (hasblockhash c); [by rewrite Hb|].
  unfold BlockLength in Es. rewrite Nat.min_l in Es by lia. rewrite Es. apply end_ok, (update_ok _ []), reset_ok, Hs.
Qed.

Lemma GetFileHashes_ok c : inv c → currentoffset (win c) = F →
  GetFileHashes F c = Some (md5 file, md5 (take k16 file)).
Proof.
  intros Hi Hcur. pose proof (i_end _ Hi Hcur) as Hr. destruct (i_ctx _ Hi) as [Ht H16 Hfull]. pose proof (i_hasher _ Hi) as Hh.
  rewrite Hr in *. unfold GetFileHashes. rewrite (end_ok _ _ H16). cbn [mbind option_bind].
  destruct (Nat.ltb_spec F k16) as [Hlt|Hge].
  { rewrite Nat.min_l, firstn_all by lia. cbn [mbind option_bind]. by rewrite (take_ge file k16) by lia. }
  rewrite Nat.min_r by lia. rewrite firstn_all in Hfull. destruct (hasher (ctx c)) as [h|] eqn:Eh.
  - specialize (Hh h Eh). rewrite firstn_all in Hh. rewrite (h_end_ok h file []); [by rewrite app_nil_r|done|].
    destruct Hh as [_ (_ & _ & -> & _) _ _].
    change (length [] / 64)%nat with 0%nat. rewrite length_fpend by (cbn [length]; lia).
    pose proof (Nat.mod_upper_bound F 64 ltac:(lia)). cbn [length]. lia.
  - by rewrite (end_ok _ _ (Hfull eq_refl Hge)).
Qed.

(** ** Sequences of moves *)

Inductive move := MStep | MJump (distance : nat).

Definition do_move (c : FileCheckSummer) (m : move) : option (bool * FileCheckSummer) :=
  match m with MStep => Step c | MJump n => Jump c n end.

(** The values the moves return and the object after them. *)
Fixpoint run_moves (c : FileCheckSummer) (ms : list move) : option (list bool * FileCheckSummer) :=
  match ms with
  | [] => Some ([], c)
  | m :: ms => '(b, c) ← do_move c m; '(bs, c) ← run_moves c ms; Some (b :: bs, c)
  end.

(** The abstract object is a position. *)
Definition spec_move (pos : nat) (m : move) : bool * nat :=
  let n := match m with MStep => 1%nat | MJump n => n end in
  if Nat.leb F pos || Nat.eqb n 0 then (false, pos) else (true, Nat.min F (pos + Nat.min n blocksize)).

Fixpoint spec_moves (pos : nat) (ms : list move) : list bool * nat :=
  match ms with
  | [] => ([], pos)
  | m :: ms => let '(b, pos) := spec_move pos m in let '(bs, pos) := spec_moves pos ms in (b :: bs, pos)
  end.

Lemma do_move_ok c m : inv c → ∃ c', do_move c m = Some ((spec_move (currentoffset (win c)) m).1, c') ∧ inv c' ∧
  currentoffset (win c') = (spec_move (currentoffset (win c)) m).2.
Proof.
  intros Hi. pose proof (i_cur _ Hi) as Hle. unfold spec_move. destruct (Nat.leb_spec F (currentoffset (win c))) as [Hend|Hmore]; cbn [orb fst snd].
  { exists c. split; [|done]. destruct m; cbn [do_move]; unfold CheckSummer.Step, CheckSummer.Jump; by rewrite (proj2 (Nat.leb_le _ _) Hend). }
  destruct m as [|n]; cbn [do_move].
  - destruct (Step_ok c Hi Hmore) as (c' & -> & Hi' & Hc). exists c'. cbn [fst snd Nat.eqb]. split_and!; try done. lia.
  - destruct (Nat.eqb_spec n 0) as [->|Hn]; cbn [fst snd].
    + exists c. split; [|done]. unfold CheckSummer.Jump. by rewrite (proj2 (Nat.leb_gt _ _) Hmore).
    + apply Jump_ok; done || lia.
Qed.

Lemma run_moves_ok ms c : inv c → ∃ c', run_moves c ms = Some ((spec_moves (currentoffset (win c)) ms).1, c') ∧ inv c' ∧
  currentoffset (win c') = (spec_moves (currentoffset (win c)) ms).2.
Proof.
  revert c. induction ms as [|m ms IH]; intros c Hi; cbn [run_moves spec_moves]; [by exists c|].
  destruct (do_move_ok c m Hi) as (c1 & -> & Hi1 & Hc1). cbn [mbind option_bind].
  destruct (IH c1 Hi1) as (c2 & -> & Hi2 & Hc2). cbn [mbind option_bind]. rewrite Hc1 in *.
  destruct (spec_move _ m) as [b pos]; cbn [fst snd] in *. destruct (spec_moves pos ms) as [bs pos']; cbn [fst snd] in *. by exists c2.
Qed.

(** An object as the constructor leaves it, its buffer being uninitialised memory. *)
Record constructed (c : FileCheckSummer) : Prop := {
  n_disk : disk_is (disk c);
  n_buffer : length (buffer (win c)) = (2 * blocksize)%nat;
  n_bytes : Forall (in_range 8) (buffer (win c));
  n_full : length (tmp (contextfull (ctx c))) = 64%nat;
  n_16k : md5_rep (context16k (ctx c)) [];
}.

Lemma start_moves_ok c ms : constructed c →
  ∃ c1 c2, Start c = Some (true, c1) ∧ run_moves c1 ms = Some ((spec_moves 0 ms).1, c2) ∧ inv c2 ∧
    currentoffset (win c2) = (spec_moves 0 ms).2.
Proof.
  intros [H1 H2 H3 H4 H5]. destruct (Start_ok c H1 H2 H3 H4 H5) as (c1 & E1 & Hi1 & Hc1).
  destruct (run_moves_ok ms c1 Hi1) as (c2 & E2 & Hi2 & Hc2). rewrite Hc1 in *. by exists c1, c2.
Qed.
End Spec.

(** ** Properties *)

(** C34: refinement of a position in the file.  After [Start] and any sequence of steps and
    jumps the object stands where the specification says and returned what it says; if the
    window lies inside the file, [Checksum] and [Hash] are the CRC-32 and MD5 of the bytes
    under it; before the end of the file, [ShortChecksum] and [ShortHash] of [BlockLength]
    are those of the bytes under it padded with zeros to the block size. *)
Theorem FileCheckSummer_refines (blocksize : nat) (windowtable : array) (file : list Z) (maxlength : Z) (fresh : HasherInput)
    (c : FileCheckSummer) (scratch : MD5Single) (ms : list move) :
  (0 < blocksize)%nat → Z.of_nat blocksize < 2 ^ 64 - 64 → GenerateWindowTable (Z.of_nat blocksize) = Some windowtable →
  Forall (in_range 8) file → Z.of_nat (length file) ≤ MaxOffset → 0 < maxlength → length (h_tmp fresh) = 128%nat →
  constructed blocksize file c → length (tmp scratch) = 64%nat →
  let '(rets, pos) := spec_moves blocksize file 0 ms in
  ∃ c1 c2, Start blocksize (length file) maxlength fresh c = Some (true, c1) ∧
    run_moves blocksize windowtable file maxlength c1 ms = Some (rets, c2) ∧ currentoffset (win c2) = pos ∧
    ((pos + blocksize ≤ length file)%nat →
      checksum c2 = crc32 (slice file pos blocksize) ∧ Hash blocksize c2 scratch = Some (md5 (slice file pos blocksize))) ∧
    ((pos < length file)%nat →
      let len := BlockLength blocksize (length file) c2 in
      let data := slice file pos len ++ replicate (blocksize - len) 0 in
      len = Nat.min blocksize (length file - pos) ∧
      ShortChecksum blocksize c2 len = Some (crc32 data) ∧ ShortHash blocksize c2 len scratch = Some (md5 data)).
Proof.
  intros Hbs Hbs64 Ht Hf Hsz Hm Hfr Hc Hs.
  destruct (start_moves_ok blocksize windowtable file maxlength fresh Hbs Hbs64 Ht Hf Hsz Hm Hfr c ms Hc) as (c1 & c2 & E1 & E2 & Hi & Hp).
  destruct (spec_moves blocksize file 0 ms) as [rets pos]; cbn [fst snd] in *. exists c1, c2. split; [exact E1|]. split; [exact E2|].
  split; [exact Hp|]. rewrite <- Hp. split; intros Hin.
  - rewrite <- under_full by done. split; [|by apply (Hash_ok blocksize file fresh)].
    destruct (i_live _ _ _ Hi ltac:(lia)) as [_ _ _ _ (_ & Hsum & _)]. by apply Hsum.
  - split; [done|]. split; [by apply (ShortChecksum_ok blocksize file fresh)|by apply (ShortHash_ok blocksize file fresh)].
Qed.

(** A file of 40 bytes, scanned in blocks of 16. *)
Definition example_disk : DiskFile := {| contents := seqZ 7 40; stream := 0; offset := 0; DiskFile.filesize := 40 |}.
Definition example_checksummer (blocksize : nat) (d : DiskFile) : FileCheckSummer :=
  {| disk := d; win := {| buffer := replicate (2 * blocksize) 0xcd; outpointer := 0; inpointer := 0; tailpointer := 0;
                          readoffset := 0; currentoffset := 0 |};
     checksum := 0; blockhash := []; hasblockhash := false;
     ctx := {| contextfull := reset example_single; context16k := reset example_single; hasher := None |} |}.
Definition example_moves : list move := [MJump 16; MStep; MStep; MJump 3].

Lemma example_table : GenerateWindowTable 16 = Some (default ∅ (GenerateWindowTable 16)).
Proof. destruct (GenerateWindowTable_ok 16) as (t & E & _). change (Z.of_nat 16) with 16 in E. by rewrite E. Qed.

Lemma example_constructed : constructed 16 (seqZ 7 40) (example_checksummer 16 example_disk).
Proof.
  split; [split; [split|]| | | |]; try done.
  apply Forall_replicate. split; simpl; lia.
Qed.

Lemma example_bytes : Forall (in_range 8) (seqZ 7 40).
Proof. apply Forall_forall. intros i Hi%elem_of_seqZ. split; simpl; lia. Qed.

Lemma FileCheckSummer_refines_witness :
  let '(rets, pos) := spec_moves 16 (seqZ 7 40) 0 example_moves in
  ∃ c1 c2, Start 16 (length (seqZ 7 40)) 1000 example_hasher (example_checksummer 16 example_disk) = Some (true, c1) ∧
    run_moves 16 (default ∅ (GenerateWindowTable 16)) (seqZ 7 40) 1000 c1 example_moves = Some (rets, c2) ∧ currentoffset (win c2) = pos ∧
    ((pos + 16 ≤ length (seqZ 7 40))%nat →
      checksum c2 = crc32 (slice (seqZ 7 40) pos 16) ∧ Hash 16 c2 example_single = Some (md5 (slice (seqZ 7 40) pos 16))) ∧
    ((pos < length (seqZ 7 40))%nat →
      let len := BlockLength 16 (length (seqZ 7 40)) c2 in
      let data := slice (seqZ 7 40) pos len ++ replicate (16 - len) 0 in
      len = Nat.min 16 (length (seqZ 7 40) - pos) ∧
      ShortChecksum 16 c2 len = Some (crc32 data) ∧ ShortHash 16 c2 len example_single = Some (md5 data)).
Proof.
  apply (FileCheckSummer_refines 16 (default ∅ (GenerateWindowTable 16)) (seqZ 7 40) 1000 example_hasher
    (example_checksummer 16 example_disk) example_single example_moves);
    [lia|lia|exact example_table|exact example_bytes|unfold MaxOffset; rewrite length_seqZ; lia|lia|reflexivity|exact example_constructed|reflexivity].
Defined.

(** Whatever way the scan took, once the window has reached the end of the file
    [GetFileHashes] returns the MD5 of the whole file and of its first 16k: the bytes have
    passed through the multi-hash object, the two single contexts, and the hand-over from
    one to the others at any point, exactly once and in order. *)
Theorem GetFileHashes_correct (blocksize : nat) (windowtable : array) (file : list Z) (maxlength : Z) (fresh : HasherInput)
    (c : FileCheckSummer) (ms : list move) :
  (0 < blocksize)%nat → Z.of_nat blocksize < 2 ^ 64 - 64 → GenerateWindowTable (Z.of_nat blocksize) = Some windowtable →
  Forall (in_range 8) file → Z.of_nat (length file) ≤ MaxOffset → 0 < maxlength → length (h_tmp fresh) = 128%nat →
  constructed blocksize file c → (spec_moves blocksize file 0 ms).2 = length file →
  ∃ c1 rets c2, Start blocksize (length file) maxlength fresh c = Some (true, c1) ∧
    run_moves blocksize windowtable file maxlength c1 ms = Some (rets, c2) ∧
    GetFileHashes (length file) c2 = Some (md5 file, md5 (take k16 file)).
Proof.
  intros Hbs Hbs64 Ht Hf Hsz Hm Hfr Hc Hpos.
  destruct (start_moves_ok blocksize windowtable file maxlength fresh Hbs Hbs64 Ht Hf Hsz Hm Hfr c ms Hc) as (c1 & c2 & E1 & E2 & Hi & Hp).
  exists c1, (spec_moves blocksize file 0 ms).1, c2. split; [exact E1|]. split; [exact E2|].
  apply (GetFileHashes_ok blocksize file fresh); [done|done|done|]. by rewrite Hp.
Qed.

Lemma GetFileHashes_correct_witness :
  ∃ c1 rets c2, Start 16 (length (seqZ 7 40)) 1000 example_hasher (example_checksummer 16 example_disk) = Some (true, c1) ∧
    run_moves 16 (default ∅ (GenerateWindowTable 16)) (seqZ 7 40) 1000 c1 (example_moves ++ [MJump 16; MJump 16]) = Some (rets, c2) ∧
    GetFileHashes (length (seqZ 7 40)) c2 = Some (md5 (seqZ 7 40), md5 (take k16 (seqZ 7 40))).
Proof.
  apply (GetFileHashes_correct 16 (default ∅ (GenerateWindowTable 16)) (seqZ 7 40) 1000 example_hasher (example_checksummer 16 example_disk)
    (example_moves ++ [MJump 16; MJump 16]));
    [lia|lia|exact example_table|exact example_bytes|unfold MaxOffset; rewrite length_seqZ; lia|lia|reflexivity|exact example_constructed|reflexivity].
Defined.

(** Beyond the end of the file the window is not blanked, because [Fill] returns at once
    when everything was read.  After one step in a file of three bytes with blocks of four,
    [Checksum] is that of the two bytes left followed by a zero and by whatever the allocated
    buffer held; after nine steps in a file of eleven bytes it is that of the two bytes left, a
    zero and a byte of the file that was there before.  [ShortChecksum] is that of the padded
    bytes in both cases. *)
Theorem window_not_blanked :
  let table := default ∅ (GenerateWindowTable 4) in
  let scan (file : list Z) (ms : list move) :=
    '(_, c) ← Start 4 (length file) 1000 example_hasher
      (example_checksummer 4 {| contents := file; stream := 0; offset := 0; DiskFile.filesize := Z.of_nat (length file) |});
    '(_, c) ← run_moves 4 table file 1000 c ms;
    short ← ShortChecksum 4 c (BlockLength 4 (length file) c);
    Some (checksum c, short) in
  scan [1; 2; 3] [MStep] = Some (crc32 [2; 3; 0; 0xcd], crc32 [2; 3; 0; 0]) ∧
  scan (seqZ 1 11) (replicate 9 MStep) = Some (crc32 [10; 11; 0; 9], crc32 [10; 11; 0; 0]).
Proof. vm_compute. split; reflexivity. Qed.
