(* ===== verification/HashTable.v ===== *)
(** * HashTable.v: [VerificationHashTable] (include/par2/verificationhashtable.h, src/verificationhashtable.cpp)

    The table of the blocks of the source files, by CRC and MD5: an array of binary trees
    whose nodes carry a list of the entries with equal keys, and the links between the
    blocks of one file.  Entries are numbered in the order they are allocated. *)

From S2P Require Import Prelude Bytes DiskFile CheckSummer Md5.

(** ** [MD5Hash] *)

(** [operator<]: bytes are compared from the last one on *)
Fixpoint md5_less_loop (index : nat) (a b : list Z) : bool :=
  match index with
  | O => nth 0 a 0 <? nth 0 b 0
  | S i => if nth index a 0 =? nth index b 0 then md5_less_loop i a b else nth index a 0 <? nth index b 0
  end.
Definition md5_less (a b : list Z) : bool := md5_less_loop 15 a b.
Definition md5_equal (a b : list Z) : bool := bool_decide (a = b).

(** ** [VerificationHashEntry] *)

Record VerificationHashEntry := {
  e_id : Z; e_sourcefile : nat; e_datablock : nat; e_firstblock : bool; e_crc : Z; e_hash : list Z;
}.

#[global] Instance VerificationHashEntry_eq_dec : EqDecision VerificationHashEntry.
Proof. solve_decision. Defined.

(** [operator<] and [operator>] *)
Definition entry_less (l r : VerificationHashEntry) : bool :=
  (e_crc l <? e_crc r) || ((e_crc l =? e_crc r) && md5_less (e_hash l) (e_hash r)).
Definition entry_greater (l r : VerificationHashEntry) : bool :=
  (e_crc r <? e_crc l) || ((e_crc l =? e_crc r) && md5_less (e_hash r) (e_hash l)).

(** An entry with its links [left], [right] and [same]. *)
Inductive vtree := Null | Entry (e : VerificationHashEntry) (left right same : vtree).

(** [Insert]: the loop along [same], and the descent *)
Fixpoint insert_same (t : vtree) (e : VerificationHashEntry) : vtree :=
  match t with
  | Null => Entry e Null Null Null
  | Entry e' l r s => Entry e' l r (insert_same s e)
  end.
Fixpoint Insert (t : vtree) (e : VerificationHashEntry) : vtree :=
  match t with
  | Null => Entry e Null Null Null
  | Entry e' l r s =>
      if entry_less e' e then Entry e' l (Insert r e) s
      else if entry_greater e' e then Entry e' (Insert l e) r s
      else Entry e' l r (insert_same s e)
  end.

(** [Search] for a CRC *)
Fixpoint Search_crc (t : vtree) (crc : Z) : vtree :=
  match t with
  | Null => Null
  | Entry e l r s => if e_crc e <? crc then Search_crc r crc else if crc <? e_crc e then Search_crc l crc else t
  end.

(** [Search] for a hash, among the entries below that have the CRC of the first *)
Fixpoint search_hash_loop (t : vtree) (crc : Z) (hash : list Z) : vtree :=
  match t with
  | Null => Null
  | Entry e l r s =>
      if (e_crc e <? crc) || ((e_crc e =? crc) && md5_less (e_hash e) hash) then search_hash_loop r crc hash
      else if (crc <? e_crc e) || ((e_crc e =? crc) && md5_less hash (e_hash e)) then search_hash_loop l crc hash
      else t
  end.
Definition Search_hash (t : vtree) (hash : list Z) : option vtree :=
  match t with
  | Null => None
  | Entry e _ _ _ => Some (search_hash_loop t (e_crc e) hash)
  end.

(** ** [VerificationHashTable] *)

Record VerificationHashTable := {
  hashtable : list vtree; hashmask : Z;
  nexts : array;      (** the links [next] *)
  allocated : Z;      (** the number of entries allocated *)
}.

(** [SetLimit]: the doubling loop, and the allocation *)
Fixpoint limit_loop (fuel : nat) (hashmask limit : Z) : Z :=
  match fuel with
  | O => hashmask
  | S fuel => if (hashmask <? limit) && (hashmask <? 65536) then limit_loop fuel (wrap 32 (Z.shiftl hashmask 1)) limit else hashmask
  end.
Definition SetLimit (limit : Z) : VerificationHashTable :=
  let size := limit_loop 8 256 limit in
  {| hashtable := replicate (Z.to_nat size) Null; hashmask := wrap 32 (size - 1); nexts := ∅; allocated := 0 |}.

(** The body of the loop of [Load]: the entry for a block of a file, linked from the one before *)
Definition load_block (t : VerificationHashTable) (sourcefile datablock : nat) (first : bool) (crc : Z) (hash : list Z)
    (preventry : option Z) : option (VerificationHashTable * Z) :=
  let e := {| e_id := allocated t; e_sourcefile := sourcefile; e_datablock := datablock; e_firstblock := first;
              e_crc := crc; e_hash := hash |} in
  let slot := Z.to_nat (Z.land crc (hashmask t)) in
  tree ← hashtable t !! slot;
  Some ({| hashtable := <[slot := Insert tree e]> (hashtable t); hashmask := hashmask t;
           nexts := match preventry with Some p => <[p := allocated t]> (nexts t) | None => nexts t end;
           allocated := allocated t + 1 |}, allocated t).

Fixpoint load_loop (t : VerificationHashTable) (sourcefile datablock : nat) (first : bool) (verificationentries : list (Z * list Z))
    (preventry : option Z) : option VerificationHashTable :=
  match verificationentries with
  | [] => Some t
  | (crc, hash) :: rest =>
      '(t, id) ← load_block t sourcefile datablock first crc hash preventry;
      load_loop t sourcefile (S datablock) false rest (Some id)
  end.

(** [Load]: the entries of a file whose first block has number [firstblock] *)
Definition Load (t : VerificationHashTable) (sourcefile firstblock : nat) (verificationentries : list (Z * list Z)) :=
  load_loop t sourcefile firstblock true verificationentries None.

(** [Lookup] by CRC *)
Definition Lookup_crc (t : VerificationHashTable) (crc : Z) : option vtree :=
  if negb (hashmask t =? 0) then
    tree ← hashtable t !! Z.to_nat (Z.land crc (hashmask t)); Some (Search_crc tree crc)
  else Some Null.

(** ** [FindMatch] *)

Section FindMatch.
(** The data blocks of the source files, which files are complete, the sizes of the open files *)
Context (blocks : list DataBlock) (complete : nat → bool) (FileSize : nat → Z).
(** The checksummer with the parameters of its construction, the number of its file, and the
    memory of the local hash context *)
Context (blocksize filesize : nat) (c : FileCheckSummer) (diskfile : nat) (scratch : MD5Single).

Definition datablock_of (e : VerificationHashEntry) : option DataBlock := blocks !! e_datablock e.

(** Close to the end of the file the length of the block must fit. *)
Definition wrong_length (e : VerificationHashEntry) : option bool :=
  b ← datablock_of e;
  Some (ShortBlock blocksize filesize c && negb (Z.of_nat (BlockLength blocksize filesize c) =? b_length b)).

Definition entry_set (e : VerificationHashEntry) : option bool := b ← datablock_of e; Some (IsSet FileSize b).

(** The single match for the checksum and hash: the entry returned and [duplicate] *)
Definition single_match (e : VerificationHashEntry) (suggested : option VerificationHashEntry)
    : option (option VerificationHashEntry * bool) :=
  if complete (e_sourcefile e) then Some (None, true) else
  wrong ← wrong_length e;
  if (wrong : bool) then Some (None, false) else
  if e_firstblock e && Nat.eqb (currentoffset (win c)) 0 then Some (Some e, false) else
  b ← datablock_of e;
  if bool_decide (e_id <$> suggested = Some (e_id e)) then
    if IsSet FileSize b && bool_decide (b_diskfile b = Some diskfile) then Some (None, true) else Some (Some e, false)
  else
    if IsSet FileSize b then Some (None, true) else Some (Some e, false).

(** The search for an unused entry of the preferred file: that entry, or the first unused
    one that was passed *)
Fixpoint prefer_loop (t : vtree) (sourcefile : nat) (nextentry : vtree) : option (vtree * vtree) :=
  match t with
  | Null => Some (Null, nextentry)
  | Entry e _ _ same =>
      isset ← entry_set e; wrong ← wrong_length e;
      if negb (Nat.eqb (e_sourcefile e) sourcefile) || isset || wrong then
        prefer_loop same sourcefile
          (match nextentry with Null => if negb (isset || wrong) then t else nextentry | _ => nextentry end)
      else Some (t, nextentry)
  end.

(** The search for any unused entry of the right length *)
Fixpoint unused_loop (t : vtree) : option (option VerificationHashEntry) :=
  match t with
  | Null => Some None
  | Entry e _ _ same =>
      isset ← entry_set e; wrong ← wrong_length e;
      if isset || wrong then unused_loop same else Some (Some e)
  end.

(** The part of [FindMatch] for a suggested entry: whether it is the match, and the hash if it was computed *)
Definition try_suggested (t : VerificationHashTable) (suggested : VerificationHashEntry) : option (bool * option (list Z)) :=
  b ← datablock_of suggested;
  match nexts t !! e_id suggested with
  | None =>
      let length := Z.to_nat (b_length b) in
      checksum ← ShortChecksum blocksize c length;
      if checksum =? e_crc suggested then
        hash ← ShortHash blocksize c length scratch;
        Some (md5_equal hash (e_hash suggested), Some hash)
      else Some (false, None)
  | Some _ =>
      if negb (IsSet FileSize b) && (e_crc suggested =? checksum c) then
        hash ← Hash blocksize c scratch;
        Some (md5_equal hash (e_hash suggested), Some hash)
      else Some (false, None)
  end.

(** The choice among the entries with the right checksum and hash *)
Definition choose (nextentry : vtree) (sourcefile : option nat) (suggested : option VerificationHashEntry)
    : option (option VerificationHashEntry * bool) :=
  match nextentry with
  | Null => Some (None, false)
  | Entry e _ _ Null => single_match e suggested
  | Entry _ _ _ _ =>
      '(found, nextentry) ← (match sourcefile with Some sf => prefer_loop nextentry sf Null | None => Some (Null, nextentry) end);
      match found with
      | Entry e _ _ _ => Some (Some e, false)
      | Null => e ← unused_loop nextentry; Some (e, false)
      end
  end.

(** [FindMatch]: the match and [duplicate] *)
Definition FindMatch (t : VerificationHashTable) (suggested : option VerificationHashEntry) (sourcefile : option nat)
    : option (option VerificationHashEntry * bool) :=
  let crc := checksum c in
  '(found, havehash) ← (match suggested with Some s => try_suggested t s | None => Some (false, None) end);
  if (found : bool) then Some (suggested, false) else
  tree ← hashtable t !! Z.to_nat (Z.land crc (hashmask t));
  match Search_crc tree crc with
  | Null => Some (None, false)
  | nextentry =>
      hash ← (match havehash with Some h => Some h | None => Hash blocksize c scratch end);
      nextentry ← Search_hash nextentry hash;
      choose nextentry sourcefile suggested
  end.
End FindMatch.
