(* ===== verification/HashTableSpec.v ===== *)
(** * HashTableSpec.v: the table of blocks finds the blocks of the source files

    CRC and MD5 together are one number, by which the trees are ordered.  The table then is
    the list of the loaded entries: a lookup is a filter of that list. *)

From S2P Require Import Prelude Bytes Crc HashCrc Md5 Md5Spec Md5Single Hasher HasherSpec Md5Crc DiskFile CheckSummer CheckSummerSpec HashTable.

(** ** The order of hashes is that of numbers *)

Definition hash_ok (h : list Z) : Prop := length h = 16%nat ∧ Forall (in_range 8) h.

Lemma le_join_app a b : le_join (a ++ b) = le_join a + 256 ^ Z.of_nat (length a) * le_join b.
Proof.
  induction a as [|x a IH]; cbn [le_join app length]; [lia|]. rewrite IH, Nat2Z.inj_succ, Z.pow_succ_r by lia. ring.
Qed.

Lemma hash_range h : hash_ok h → 0 ≤ le_join h < 2 ^ 128.
Proof. intros [Hl Hb]. pose proof (le_join_range h Hb) as H. by rewrite Hl in H. Qed.

Lemma hash_inj a b : hash_ok a → hash_ok b → le_join a = le_join b → a = b.
Proof. intros [La Ha] [Lb Hb] E. by rewrite <- (le_split_join a Ha), <- (le_split_join b Hb), La, Lb, E. Qed.

(** Comparing the two highest parts first. *)
Lemma high_first m x y a b : 0 ≤ x < m → 0 ≤ y < m →
  (x + m * a <? y + m * b) = (if a =? b then x <? y else a <? b).
Proof.
  intros Hx Hy. destruct (Z.eqb_spec a b) as [->|Hne].
  - destruct (Z.ltb_spec x y); [apply Z.ltb_lt|apply Z.ltb_ge]; lia.
  - destruct (Z.ltb_spec a b); [apply Z.ltb_lt|apply Z.ltb_ge]; nia.
Qed.

Lemma md5_less_loop_ok n a b : (n < length a)%nat → (n < length b)%nat → Forall (in_range 8) a → Forall (in_range 8) b →
  md5_less_loop n a b = (le_join (take (S n) a) <? le_join (take (S n) b)).
Proof.
  intros Hna Hnb Ha Hb. induction n as [|n IH]; cbn [md5_less_loop].
  - destruct a as [|x a], b as [|y b]; cbn in Hna, Hnb; try lia. cbn [nth take le_join]. by rewrite !Z.mul_0_r, !Z.add_0_r.
  - rewrite IH by lia.
    assert (∀ l, (S n < length l)%nat → Forall (in_range 8) l →
      le_join (take (S (S n)) l) = le_join (take (S n) l) + 256 ^ Z.of_nat (S n) * nth (S n) l 0 ∧
      0 ≤ le_join (take (S n) l) < 256 ^ Z.of_nat (S n)) as Htop.
    { intros l Hl HF. destruct (lookup_lt_is_Some_2 l (S n) Hl) as [x Hx].
      assert (length (take (S n) l) = S n) as Hlt by (rewrite length_take; lia). split.
      - rewrite (take_S_r l (S n) x Hx), le_join_app, Hlt, (nth_lookup_Some l (S n) 0 x Hx). cbn [le_join]. lia.
      - pose proof (le_join_range _ (Forall_take _ (S n) _ HF)) as Hr. rewrite Hlt in Hr. unfold in_range in Hr.
        by rewrite Z.pow_mul_r in Hr by lia. }
    destruct (Htop a Hna Ha) as [-> Hra]. destruct (Htop b Hnb Hb) as [-> Hrb]. by rewrite high_first.
Qed.

Lemma md5_less_ok a b : hash_ok a → hash_ok b → md5_less a b = (le_join a <? le_join b).
Proof.
  intros [La Ha] [Lb Hb]. unfold md5_less. rewrite md5_less_loop_ok by (done || lia). by rewrite !take_ge by lia.
Qed.

(** ** Keys *)

Definition key (crc : Z) (hash : list Z) : Z := le_join hash + 2 ^ 128 * crc.
Definition ekey (e : VerificationHashEntry) : Z := key (e_crc e) (e_hash e).
Definition entry_ok (e : VerificationHashEntry) : Prop := hash_ok (e_hash e).

Lemma key_inj c1 h1 c2 h2 : hash_ok h1 → hash_ok h2 → key c1 h1 = key c2 h2 → c1 = c2 ∧ h1 = h2.
Proof.
  intros H1 H2 E. pose proof (hash_range h1 H1). pose proof (hash_range h2 H2). unfold key in E.
  assert (c1 = c2) as -> by nia. split; [done|]. apply hash_inj; [done|done|]. lia.
Qed.

(** The comparisons of the code are comparisons of keys. *)
Lemma key_less c1 h1 c2 h2 : hash_ok h1 → hash_ok h2 →
  (c1 <? c2) || ((c1 =? c2) && md5_less h1 h2) = (key c1 h1 <? key c2 h2).
Proof.
  intros H1 H2. unfold key. rewrite high_first by (by apply hash_range). rewrite md5_less_ok by done.
  destruct (Z.eqb_spec c1 c2) as [->|Hne]; [by rewrite Z.ltb_irrefl|]. by rewrite orb_false_r.
Qed.

Lemma key_greater c1 h1 c2 h2 : hash_ok h1 → hash_ok h2 →
  (c2 <? c1) || ((c1 =? c2) && md5_less h2 h1) = (key c2 h2 <? key c1 h1).
Proof. intros. rewrite Z.eqb_sym. by apply key_less. Qed.

(** ** Trees *)

(** The entries linked by [same], and all entries. *)
Fixpoint chain (t : vtree) : list VerificationHashEntry :=
  match t with Null => [] | Entry e _ _ s => e :: chain s end.
Fixpoint entries (t : vtree) : list VerificationHashEntry :=
  match t with Null => [] | Entry e l r s => entries l ++ (e :: chain s) ++ entries r end.

Fixpoint bst (t : vtree) : Prop :=
  match t with
  | Null => True
  | Entry e l r s => bst l ∧ bst r ∧ Forall (λ x, ekey x < ekey e) (entries l) ∧ Forall (λ x, ekey e < ekey x) (entries r) ∧
      Forall (λ x, ekey x = ekey e) (chain s)
  end.

Definition with_key (k : Z) (es : list VerificationHashEntry) : list VerificationHashEntry := filter (λ e, ekey e = k) es.

Lemma with_key_app k a b : with_key k (a ++ b) = with_key k a ++ with_key k b.
Proof. apply filter_app. Qed.

Lemma with_key_none k es : Forall (λ e, ekey e ≠ k) es → with_key k es = [].
Proof.
  unfold with_key. induction 1 as [|e es He _ IH]; [done|]. by rewrite filter_cons_False.
Qed.

Lemma with_key_all k es : Forall (λ e, ekey e = k) es → with_key k es = es.
Proof. unfold with_key. induction 1 as [|e es He _ IH]; [done|]. by rewrite filter_cons_True, IH. Qed.

Lemma with_key_below k b es : Forall (λ x, ekey x < b) es → b ≤ k → with_key k es = [].
Proof. intros H Hb. apply with_key_none. eapply Forall_impl; [exact H|]. cbn. lia. Qed.

Lemma with_key_above k b es : Forall (λ x, b < ekey x) es → k ≤ b → with_key k es = [].
Proof. intros H Hb. apply with_key_none. eapply Forall_impl; [exact H|]. cbn. lia. Qed.

Lemma with_key_node k e s : Forall (λ x, ekey x = ekey e) (chain s) →
  with_key k (e :: chain s) = if decide (ekey e = k) then e :: chain s else [].
Proof.
  intros H. case_decide as E.
  - subst k. apply with_key_all. by constructor.
  - apply with_key_none. constructor; [done|]. eapply Forall_impl; [exact H|]. cbn. congruence.
Qed.

Lemma chain_insert_same t e : chain (insert_same t e) = chain t ++ [e].
Proof. induction t as [|e' l _ r _ s IH]; cbn; [done|]. by rewrite IH. Qed.

Lemma Insert_entries t e : ∀ x, x ∈ entries (Insert t e) ↔ x ∈ entries t ∨ x = e.
Proof.
  intros x. induction t as [|e' l IHl r IHr s _]; cbn [Insert]; [cbn; set_solver|].
  destruct (entry_less e' e); [|destruct (entry_greater e' e)]; cbn [entries]; rewrite ?chain_insert_same; set_solver.
Qed.

Lemma Forall_Insert (P : VerificationHashEntry → Prop) t e : Forall P (entries t) → P e → Forall P (entries (Insert t e)).
Proof. rewrite !Forall_forall. intros H He x [Hx| ->]%Insert_entries; auto. Qed.

Lemma entries_ok_inv e l r s : Forall entry_ok (entries (Entry e l r s)) →
  Forall entry_ok (entries l) ∧ entry_ok e ∧ Forall entry_ok (entries r).
Proof. cbn [entries]. intros [Hl [[He _]%Forall_cons Hr]%Forall_app]%Forall_app. done. Qed.

(** The two tests of the descent. *)
Lemma descend e' e : entry_ok e' → entry_ok e →
  entry_less e' e = (ekey e' <? ekey e) ∧ entry_greater e' e = (ekey e <? ekey e').
Proof. intros H' H. split; [by apply key_less|by apply key_greater]. Qed.

Lemma bst_Insert t e : bst t → Forall entry_ok (entries t) → entry_ok e → bst (Insert t e).
Proof.
  induction t as [|e' l IHl r IHr s _]; cbn [Insert]; [by cbn|]. intros (Hl & Hr & Fl & Fr & Fs) (Ol & Oe & Or)%entries_ok_inv He.
  destruct (descend e' e Oe He) as [-> ->].
  destruct (Z.ltb_spec (ekey e') (ekey e)); [|destruct (Z.ltb_spec (ekey e) (ekey e'))]; cbn [bst].
  - split_and!; try done; [by apply IHr|]. by apply Forall_Insert.
  - split_and!; try done; [by apply IHl|]. by apply Forall_Insert.
  - rewrite chain_insert_same. split_and!; try done. apply Forall_app. split; [done|]. constructor; [lia|constructor].
Qed.

(** A new entry comes last among those with its key. *)
Lemma Insert_with_key t e k : bst t → Forall entry_ok (entries t) → entry_ok e →
  with_key k (entries (Insert t e)) = with_key k (entries t) ++ (if decide (ekey e = k) then [e] else []).
Proof.
  induction t as [|e' l IHl r IHr s _]; cbn [Insert].
  { intros _ _ _. cbn [entries chain app]. unfold with_key. rewrite filter_cons. by case_decide. }
  intros (Hl & Hr & Fl & Fr & Fs) (Ol & Oe & Or)%entries_ok_inv He. destruct (descend e' e Oe He) as [-> ->].
  destruct (Z.ltb_spec (ekey e') (ekey e)) as [Hlt|Hge]; [|destruct (Z.ltb_spec (ekey e) (ekey e')) as [Hgt|Hle]];
    cbn [entries]; rewrite !with_key_app.
  - rewrite IHr, <- !app_assoc by done. done.
  - rewrite IHl by done. case_decide as Ek; [|by rewrite !app_nil_r]. subst k.
    by rewrite with_key_node, decide_False, (with_key_above _ (ekey e') (entries r)), !app_nil_r by (done || lia).
  - rewrite chain_insert_same. change (e' :: chain s ++ [e]) with ((e' :: chain s) ++ [e]). rewrite with_key_app, <- !app_assoc. f_equal.
    f_equal. case_decide as Ek.
    + subst k. rewrite (with_key_above _ (ekey e') (entries r)), app_nil_r by (done || lia). apply with_key_all. by constructor.
    + by rewrite (with_key_none k [e]), app_nil_r by (by constructor).
Qed.

(** ** Searching *)

Lemma search_hash_loop_ok t crc hash : bst t → Forall entry_ok (entries t) → hash_ok hash →
  chain (search_hash_loop t crc hash) = with_key (key crc hash) (entries t).
Proof.
  intros Hb Ho Hh. induction t as [|e l IHl r IHr s _]; cbn [search_hash_loop]; [done|].
  destruct Hb as (Hl & Hr & Fl & Fr & Fs). apply entries_ok_inv in Ho as (Ol & Oe & Or).
  rewrite key_less, key_greater by done. fold (ekey e). cbn [entries]. rewrite !with_key_app.
  destruct (Z.ltb_spec (ekey e) (key crc hash)) as [Hlt|Hge]; [|destruct (Z.ltb_spec (key crc hash) (ekey e)) as [Hgt|Hle]].
  - by rewrite IHr, (with_key_below _ (ekey e) (entries l)), with_key_node, decide_False by (done || lia).
  - by rewrite IHl, (with_key_above _ (ekey e) (entries r)), with_key_node, decide_False, !app_nil_r by (done || lia).
  - by rewrite (with_key_below _ (ekey e) (entries l)), (with_key_above _ (ekey e) (entries r)), with_key_node, decide_True, app_nil_r by (done || lia).
Qed.

(** The entries with a CRC are all below the first one that the search meets. *)
Lemma Search_crc_ok t crc hash : bst t → Forall entry_ok (entries t) → hash_ok hash →
  bst (Search_crc t crc) ∧ Forall entry_ok (entries (Search_crc t crc)) ∧
  with_key (key crc hash) (entries (Search_crc t crc)) = with_key (key crc hash) (entries t) ∧
  match Search_crc t crc with Null => True | Entry e _ _ _ => e_crc e = crc end.
Proof.
  intros Hb Ho Hh. pose proof (hash_range hash Hh) as Hrh. induction t as [|e l IHl r IHr s _]; cbn [Search_crc]; [done|].
  pose proof Hb as (Hl & Hr & Fl & Fr & Fs). pose proof Ho as (Ol & Oe & Or)%entries_ok_inv.
  pose proof (hash_range _ Oe) as Hre.
  destruct (Z.ltb_spec (e_crc e) crc) as [Hlt|Hge]; [|destruct (Z.ltb_spec crc (e_crc e)) as [Hgt|Hle]].
  - assert (ekey e < key crc hash) by (unfold ekey, key; nia). destruct (IHr Hr Or) as (B & O & E & C). split_and!; try done.
    rewrite E. cbn [entries]. by rewrite !with_key_app, (with_key_below _ (ekey e) (entries l)), with_key_node, decide_False by (done || lia).
  - assert (key crc hash < ekey e) by (unfold ekey, key; nia). destruct (IHl Hl Ol) as (B & O & E & C). split_and!; try done.
    rewrite E. cbn [entries].
    by rewrite !with_key_app, (with_key_above _ (ekey e) (entries r)), with_key_node, decide_False, !app_nil_r by (done || lia).
  - split_and!; try done. lia.
Qed.

(** A search by CRC and then by hash finds the entries with that CRC and hash. *)
Lemma search_ok t crc hash : bst t → Forall entry_ok (entries t) → hash_ok hash →
  match Search_crc t crc with
  | Null => with_key (key crc hash) (entries t) = []
  | n => ∃ t', Search_hash n hash = Some t' ∧ chain t' = with_key (key crc hash) (entries t)
  end.
Proof.
  intros Hb Ho Hh. destruct (Search_crc_ok t crc hash Hb Ho Hh) as (B & O & E & C).
  destruct (Search_crc t crc) as [|e l r s] eqn:Es; [by rewrite <- E|].
  eexists. split; [reflexivity|]. rewrite C, <- E. by apply search_hash_loop_ok.
Qed.

(** ** The table *)

Definition slot (t : VerificationHashTable) (crc : Z) : nat := Z.to_nat (Z.land crc (hashmask t)).

(** The table holds the entries [es], in the order they were loaded. *)
Record table_ok (t : VerificationHashTable) (es : list VerificationHashEntry) : Prop := {
  t_mask : ∃ k, 8 ≤ k ≤ 16 ∧ hashmask t = Z.ones k ∧ length (hashtable t) = Z.to_nat (2 ^ k);
  t_trees : ∀ i tree, hashtable t !! i = Some tree → bst tree ∧ Forall entry_ok (entries tree);
  t_entries : ∀ crc hash tree, hash_ok hash → hashtable t !! slot t crc = Some tree →
    with_key (key crc hash) (entries tree) = with_key (key crc hash) es;
  t_nexts : 0 ≤ allocated t ∧ ∀ i, allocated t ≤ i → nexts t !! i = None;
  t_slots : ∀ i tree, hashtable t !! i = Some tree → Forall (λ e, slot t (e_crc e) = i) (entries tree);
}.

(** The slot of a CRC is inside the table. *)
Lemma slot_lookup t es crc : table_ok t es → ∃ tree, hashtable t !! slot t crc = Some tree.
Proof.
  intros [(k & Hk & Hm & Hl) _ _ _ _]. apply lookup_lt_is_Some_2. unfold slot. rewrite Hm, Z.land_ones, Hl by lia.
  pose proof (Z.mod_pos_bound crc (2 ^ k) ltac:(lia)). lia.
Qed.

(** The loop of [SetLimit] stops at a power of two within its fuel. *)
Lemma limit_loop_ok n limit : (n ≤ 8)%nat → ∃ k, 16 - Z.of_nat n ≤ k ≤ 16 ∧ limit_loop n (2 ^ (16 - Z.of_nat n)) limit = 2 ^ k ∧
  (2 ^ k < limit → k = 16).
Proof.
  induction n as [|n IH]; intros Hn; cbn [limit_loop].
  { exists 16. split; [lia|]. split; [done|]. done. }
  destruct (2 ^ (16 - Z.of_nat (S n)) <? limit) eqn:E1; cbn [andb]; [destruct (2 ^ (16 - Z.of_nat (S n)) <? 65536) eqn:E2|].
  - replace (wrap 32 (Z.shiftl (2 ^ (16 - Z.of_nat (S n))) 1)) with (2 ^ (16 - Z.of_nat n)).
    + destruct (IH ltac:(lia)) as (k & Hk & E & Hlim). exists k. split; [lia|done].
    + rewrite Z.shiftl_mul_pow2, <- Z.pow_add_r by lia. replace (16 - Z.of_nat (S n) + 1) with (16 - Z.of_nat n) by lia.
      rewrite wrap_small; [done|]. split; [lia|]. apply Z.pow_lt_mono_r; lia.
  - apply Z.ltb_ge in E2. exists (16 - Z.of_nat (S n)). change 65536 with (2 ^ 16) in E2.
    apply Z.pow_le_mono_r_iff in E2; [|lia|lia]. lia.
  - exists (16 - Z.of_nat (S n)). apply Z.ltb_ge in E1. split; [lia|]. split; [done|]. lia.
Qed.

Lemma SetLimit_ok limit : table_ok (SetLimit limit) [].
Proof.
  destruct (limit_loop_ok 8 limit ltac:(lia)) as (k & Hk & E & _). change (2 ^ (16 - Z.of_nat 8)) with 256 in E.
  unfold SetLimit. rewrite E.
  assert (2 ^ k ≤ 2 ^ 16) by (apply Z.pow_le_mono_r; lia). assert (0 < 2 ^ k) by lia.
  split; cbn [hashtable hashmask nexts allocated].
  - exists k. split; [lia|]. rewrite wrap_small by (split; simpl in *; lia). rewrite length_replicate, Z.ones_equiv. split; [lia|done].
  - intros i tree [-> _]%lookup_replicate. by split.
  - intros crc hash tree _ [-> _]%lookup_replicate. done.
  - split; [lia|]. intros i _. apply lookup_empty.
  - intros i tree [-> _]%lookup_replicate. constructor.
Qed.

(** The entry that [load_block] makes. *)
Definition new_entry (id : Z) (sourcefile datablock : nat) (first : bool) (crc : Z) (hash : list Z) : VerificationHashEntry :=
  {| e_id := id; e_sourcefile := sourcefile; e_datablock := datablock; e_firstblock := first; e_crc := crc; e_hash := hash |}.

Lemma load_block_ok t es sf b first crc hash prev : table_ok t es → hash_ok hash →
  (∀ p, prev = Some p → p < allocated t) →
  ∃ t', load_block t sf b first crc hash prev = Some (t', allocated t) ∧
    table_ok t' (es ++ [new_entry (allocated t) sf b first crc hash]) ∧ allocated t' = allocated t + 1 ∧
    nexts t' = match prev with Some p => <[p := allocated t]> (nexts t) | None => nexts t end.
Proof.
  intros Ht Hh Hp. set (e := new_entry _ _ _ _ _ _). destruct (slot_lookup t es crc Ht) as [tree Etree].
  destruct Ht as [(k & Hk & Hm & Hl) Htr Hen [H0 Hn] Hsl]. unfold load_block. fold (slot t crc) e. rewrite Etree. cbn [mbind option_bind].
  destruct (Htr _ _ Etree) as [Hb Ho]. assert (entry_ok e) as He by done.
  eexists. split; [reflexivity|]. split; [|done]. split; cbn [hashtable hashmask nexts allocated].
  - exists k. rewrite length_insert. done.
  - intros i tr. destruct (decide (i = slot t crc)) as [->|Hne].
    + rewrite list_lookup_insert_eq by (by eapply lookup_lt_Some). intros [= <-]. split; [by apply bst_Insert|by apply Forall_Insert].
    + rewrite list_lookup_insert_ne by done. apply Htr.
  - intros crc' hash' tr Hh'. unfold slot at 1. cbn [hashmask]. fold (slot t crc'). rewrite with_key_app.
    destruct (decide (slot t crc' = slot t crc)) as [Es|Hne].
    + rewrite Es, list_lookup_insert_eq by (by eapply lookup_lt_Some). intros [= <-]. rewrite Insert_with_key by done.
      rewrite (Hen crc' hash' tree Hh') by (by rewrite Es). done.
    + rewrite list_lookup_insert_ne by done. intros Etr. rewrite (Hen crc' hash' tr Hh' Etr).
      rewrite (with_key_none _ [e]), app_nil_r; [done|]. constructor; [|done]. intros Ek.
      apply key_inj in Ek as [Ec _]; [|done|done]. cbn in Ec. subst crc'. done.
  - split; [lia|]. intros i Hi. destruct prev as [p|]; [|apply Hn; lia]. specialize (Hp p eq_refl).
    rewrite lookup_insert_ne by lia. apply Hn. lia.
  - intros i tr. unfold slot. cbn [hashmask]. fold (slot t crc). destruct (decide (i = slot t crc)) as [->|Hne].
    + rewrite list_lookup_insert_eq by (by eapply lookup_lt_Some). intros [= <-]. apply Forall_Insert; [by apply (Hsl _ tree)|done].
    + rewrite list_lookup_insert_ne by done. apply Hsl.
Qed.

(** The entries of the trees are those of the list. *)
Lemma elem_of_table t es e : table_ok t es → Forall entry_ok es → e ∈ mjoin (entries <$> hashtable t) ↔ e ∈ es.
Proof.
  intros Ht Hes. split.
  - intros (l & He & (tree & -> & (i & Hi)%list_elem_of_lookup)%list_elem_of_fmap)%list_elem_of_join.
    destruct (t_trees _ _ Ht _ _ Hi) as [_ Hok]. rewrite Forall_forall in Hok. pose proof (Hok e He) as Heok.
    pose proof (proj1 (Forall_forall _ _) (t_slots _ _ Ht i tree Hi) e He) as Hs. cbn beta in Hs. rewrite <- Hs in Hi.
    pose proof (t_entries _ _ Ht (e_crc e) (e_hash e) tree Heok Hi) as E.
    assert (e ∈ with_key (key (e_crc e) (e_hash e)) (entries tree)) as Hw by (by apply list_elem_of_filter).
    rewrite E in Hw. by apply list_elem_of_filter in Hw as [_ ?].
  - intros He. rewrite Forall_forall in Hes. pose proof (Hes e He) as Heok. destruct (slot_lookup t es (e_crc e) Ht) as [tree Hi].
    pose proof (t_entries _ _ Ht (e_crc e) (e_hash e) tree Heok Hi) as E.
    assert (e ∈ with_key (key (e_crc e) (e_hash e)) es) as Hw by (by apply list_elem_of_filter).
    rewrite <- E in Hw. apply list_elem_of_filter in Hw as [_ Hw]. apply list_elem_of_join. exists (entries tree). split; [done|].
    apply list_elem_of_fmap. exists tree. split; [done|]. by apply list_elem_of_lookup_2 in Hi.
Qed.

(** The entries of a file. *)
Fixpoint file_entries (id : Z) (sourcefile datablock : nat) (first : bool) (vs : list (Z * list Z)) : list VerificationHashEntry :=
  match vs with
  | [] => []
  | (crc, hash) :: vs => new_entry id sourcefile datablock first crc hash :: file_entries (id + 1) sourcefile (S datablock) false vs
  end.

Lemma load_loop_ok vs t es sf b first prev : table_ok t es → Forall (λ v, hash_ok v.2) vs → (∀ p, prev = Some p → p < allocated t) →
  ∃ t', load_loop t sf b first vs prev = Some t' ∧ table_ok t' (es ++ file_entries (allocated t) sf b first vs) ∧
    allocated t' = allocated t + Z.of_nat (length vs) ∧
    (∀ i, i < allocated t → prev ≠ Some i → nexts t' !! i = nexts t !! i) ∧
    (∀ p, prev = Some p → nexts t' !! p = if decide (vs = []) then nexts t !! p else Some (allocated t)) ∧
    (∀ i, allocated t ≤ i → nexts t' !! i = if decide (i + 1 < allocated t') then Some (i + 1) else None).
Proof.
  revert t es b first prev. induction vs as [|[crc hash] vs IH]; intros t es b first prev Ht Hv Hp; cbn [load_loop file_entries].
  { exists t. rewrite app_nil_r. split_and!; try done; cbn [length]; [lia|]. intros i Hi. rewrite decide_False by lia. by apply Ht. }
  apply Forall_cons in Hv as [Hh Hv]. cbn in Hh.
  destruct (load_block_ok t es sf b first crc hash prev Ht Hh Hp) as (t1 & -> & Ht1 & Ha1 & Hn1). cbn [mbind option_bind].
  destruct (IH t1 _ (S b) false (Some (allocated t)) Ht1 Hv) as (t2 & -> & Ht2 & Ha2 & Hold & Hlink & Hnew).
  { intros p [= <-]. lia. }
  exists t2. rewrite <- app_assoc in Ht2. rewrite Ha1 in *. cbn [app] in Ht2. split; [done|]. split; [done|]. cbn [length].
  specialize (Hlink _ eq_refl). split; [lia|]. split_and!.
  - intros i Hi Hne. rewrite Hold; [|lia|intros [= ?]; lia]. rewrite Hn1. destruct prev as [p|]; [|done].
    rewrite lookup_insert_ne by congruence. done.
  - intros p ->. specialize (Hp p eq_refl). rewrite decide_False by done. rewrite Hold; [|lia|intros [= ?]; lia].
    rewrite Hn1. apply lookup_insert_eq.
  - intros i Hi. destruct (decide (i = allocated t)) as [->|Hne]; [|apply Hnew; lia]. rewrite Hlink. destruct vs as [|v vs].
    + rewrite decide_True, decide_False by (done || cbn [length] in *; lia). rewrite Hn1.
      destruct prev as [p|]; [rewrite lookup_insert_ne by (specialize (Hp p eq_refl); lia)|]; apply Ht; lia.
    + rewrite decide_False, decide_True by (done || cbn [length] in *; lia). done.
Qed.

(** Several files loaded one after another: file number, first block, verification entries. *)
Fixpoint load_files (t : VerificationHashTable) (files : list (nat * nat * list (Z * list Z))) : option VerificationHashTable :=
  match files with
  | [] => Some t
  | (sf, b, vs) :: files => t ← Load t sf b vs; load_files t files
  end.

Fixpoint files_entries (id : Z) (files : list (nat * nat * list (Z * list Z))) : list VerificationHashEntry :=
  match files with
  | [] => []
  | (sf, b, vs) :: files => file_entries id sf b true vs ++ files_entries (id + Z.of_nat (length vs)) files
  end.

Lemma load_files_ok files t es : table_ok t es → Forall (λ f, Forall (λ v, hash_ok v.2) f.2) files →
  ∃ t', load_files t files = Some t' ∧ table_ok t' (es ++ files_entries (allocated t) files).
Proof.
  revert t es. induction files as [|[[sf b] vs] files IH]; intros t es Ht HF; cbn [load_files files_entries].
  { exists t. by rewrite app_nil_r. }
  apply Forall_cons in HF as [Hv HF].
  destruct (load_loop_ok vs t es sf b true None Ht Hv) as (t1 & E & Ht1 & Ha & _); [done|]. unfold Load. rewrite E. cbn [mbind option_bind].
  destruct (IH t1 _ Ht1 HF) as (t2 & -> & Ht2). exists t2. rewrite <- app_assoc, Ha in Ht2. done.
Qed.

(** ** [FindMatch] *)

Section FindMatch.
Context (blocks : list DataBlock) (complete : nat → bool) (FileSize : nat → Z).
Context (blocksize filesize : nat) (c : FileCheckSummer) (diskfile : nat) (scratch : MD5Single).
(** The window lies inside the file. *)
Hypothesis Hin : ShortBlock blocksize filesize c = false.

Local Abbreviation entry_set := (entry_set blocks FileSize).
Local Abbreviation wrong_length := (wrong_length blocks blocksize filesize c).
Local Abbreviation unused_loop := (unused_loop blocks FileSize blocksize filesize c).
Local Abbreviation prefer_loop := (prefer_loop blocks FileSize blocksize filesize c).
Local Abbreviation choose := (choose blocks complete FileSize blocksize filesize c diskfile).

(** Every entry has its data block. *)
Definition has_block (e : VerificationHashEntry) : Prop := (e_datablock e < length blocks)%nat.

Lemma wrong_length_ok e : has_block e → wrong_length e = Some false.
Proof.
  intros [b Hb]%lookup_lt_is_Some_2. unfold HashTable.wrong_length, datablock_of. rewrite Hb, Hin. done.
Qed.

Lemma entry_set_ok e : has_block e → ∃ s, entry_set e = Some s.
Proof. intros [b Hb]%lookup_lt_is_Some_2. unfold HashTable.entry_set, datablock_of. rewrite Hb. cbn. eauto. Qed.

Definition unused (e : VerificationHashEntry) : Prop := entry_set e = Some false.

Lemma unused_loop_ok t : Forall has_block (chain t) →
  ∃ r, unused_loop t = Some r ∧
    match r with Some e => e ∈ chain t ∧ unused e | None => ∀ e, e ∈ chain t → ¬ unused e end.
Proof.
  induction t as [|e l _ r _ s IH]; cbn [HashTable.unused_loop chain].
  { intros _. exists None. split; [done|]. intros e He. by apply elem_of_nil in He. }
  intros [He Hs]%Forall_cons. destruct (entry_set_ok e He) as [[] Es]; rewrite Es, wrong_length_ok by done; cbn [mbind option_bind orb].
  - destruct (IH Hs) as (x & -> & Hx). exists x. split; [done|]. destruct x as [e'|].
    + destruct Hx. split; [by right|done].
    + intros e' [->|He']%elem_of_cons; [|by apply Hx]. unfold unused. rewrite Es. discriminate.
  - exists (Some e). split; [done|]. split; [by left|done].
Qed.

Lemma prefer_loop_ok t sf next : Forall has_block (chain t) →
  ∃ found next', prefer_loop t sf next = Some (found, next') ∧
    match found with
    | Entry e _ _ _ => e ∈ chain t ∧ unused e ∧ e_sourcefile e = sf
    | Null => (∀ e, e ∈ chain t → unused e → e_sourcefile e ≠ sf) ∧
        match next with
        | Entry _ _ _ _ => next' = next
        | Null => match next' with
                  | Entry e _ _ _ => (∀ e', e' ∈ chain next' → e' ∈ chain t) ∧ unused e
                  | Null => ∀ e, e ∈ chain t → ¬ unused e
                  end
        end
    end.
Proof.
  revert next. induction t as [|e l _ r _ s IH]; intros next; cbn [HashTable.prefer_loop chain].
  { intros _. exists Null, next. split; [done|]. split; [by intros e He%elem_of_nil|]. destruct next; [|done]. by intros e He%elem_of_nil. }
  intros [He Hs]%Forall_cons. destruct (entry_set_ok e He) as [isset Es]. rewrite Es, wrong_length_ok by done.
  cbn [mbind option_bind]. rewrite orb_false_r. destruct (negb (Nat.eqb (e_sourcefile e) sf) || isset) eqn:Eg.
  - set (next1 := match next with Null => if negb (isset || false) then Entry e l r s else next | _ => next end).
    destruct (IH next1 Hs) as (found & next' & -> & Hf). exists found, next'. split; [done|]. destruct found as [|e1 l1 r1 s1].
    2: { destruct Hf as (H1 & H2 & H3). split; [by right|done]. }
    destruct Hf as [Hno Hnx]. split.
    + intros e' [->|He']%elem_of_cons Hu; [|by apply Hno]. unfold unused in Hu. rewrite Es in Hu. injection Hu as ->.
      rewrite orb_false_r in Eg. by apply negb_true_iff, Nat.eqb_neq in Eg.
    + unfold next1 in Hnx. destruct next as [|ne nl nr ns]; [|done]. destruct isset; cbn [orb negb] in Hnx.
      * destruct next' as [|e2 l2 r2 s2].
        -- intros e' [->|He']%elem_of_cons; [|by apply Hnx]. unfold unused. rewrite Es. discriminate.
        -- destruct Hnx as [Hsub Hu]. split; [|done]. intros e' He'. right. by apply Hsub.
      * subst next'. split; [done|]. done.
  - exists (Entry e l r s), next. split; [done|]. apply orb_false_iff in Eg as [Eg%negb_false_iff%Nat.eqb_eq ->]. split; [by left|done].
Qed.

(** A good choice among the candidates [es]: one of them; none only when all are used or
    belong to complete files; one of the preferred file if there are several candidates. *)
Record good_choice (es : list VerificationHashEntry) (sf : option nat) (r : option VerificationHashEntry) : Prop := {
  g_in : ∀ e, r = Some e → e ∈ es;
  g_none : r = None → ∀ e, e ∈ es → unused e → complete (e_sourcefile e) = true;
  g_prefer : ∀ s e, sf = Some s → (2 ≤ length es)%nat → e ∈ es → unused e → e_sourcefile e = s →
    ∃ e', r = Some e' ∧ e_sourcefile e' = s;
}.

Lemma single_match_ok e sf suggested : has_block e →
  ∃ r dup, single_match blocks complete FileSize blocksize filesize c diskfile e suggested = Some (r, dup) ∧ good_choice [e] sf r.
Proof.
  intros He. unfold single_match. rewrite wrong_length_ok by done. pose proof (lookup_lt_is_Some_2 _ _ He) as [b Eb].
  unfold datablock_of. rewrite Eb. cbn [mbind option_bind].
  assert (∀ r dup, (r = Some e ∨ (r = None ∧ (complete (e_sourcefile e) = true ∨ IsSet FileSize b = true))) →
    ∃ r' dup', Some (r, dup : bool) = Some (r', dup') ∧ good_choice [e] sf r') as Hfin.
  { intros x dup Hx. exists x, dup. split; [done|]. split; [| |cbn; lia].
    - intros e0 ->. destruct Hx as [[= ->]|[? _]]; [|done]. by left.
    - intros -> e0 ->%list_elem_of_singleton. unfold unused, HashTable.entry_set, datablock_of. rewrite Eb. intros [= Hset].
      destruct Hx as [?|[_ [?|?]]]; congruence. }
  destruct (complete (e_sourcefile e)); [apply Hfin; auto|].
  destruct (_ && _); [apply Hfin; auto|]. destruct (bool_decide _).
  - destruct (IsSet FileSize b) eqn:Eset; cbn [andb]; [destruct (bool_decide _)|]; apply Hfin; auto.
  - destruct (IsSet FileSize b) eqn:Eset; apply Hfin; auto.
Qed.

Lemma choose_ok t sf suggested : Forall has_block (chain t) →
  ∃ r dup, choose t sf suggested = Some (r, dup) ∧ good_choice (chain t) sf r.
Proof.
  destruct t as [|e l r s].
  { intros _. exists None, false. split; [done|]. split; [done| |cbn; lia]. by intros _ e He%elem_of_nil. }
  intros Hb. destruct s as [|e1 l1 r1 s1].
  { cbn [chain] in *. apply Forall_cons in Hb as [He _]. by apply single_match_ok. }
  set (t := Entry e l r (Entry e1 l1 r1 s1)) in *.
  change (choose t sf suggested) with ('(found, nextentry) ← (match sf with Some sf => prefer_loop t sf Null | None => Some (Null, t) end);
      match found with
      | Entry e _ _ _ => Some (Some e, false)
      | Null => e ← unused_loop nextentry; Some (e, false)
      end). clearbody t.
  destruct sf as [sf|].
  - destruct (prefer_loop_ok t sf Null Hb) as (found & next & -> & Hf). cbn [mbind option_bind]. destruct found as [|fe fl fr fs].
    2: { destruct Hf as (H1 & H2 & H3). exists (Some fe), false. split; [done|]. split; [by intros e0 [= <-]|done|].
         intros s e0 [= <-] _ _ _ _. by exists fe. }
    destruct Hf as [Hno Hn].
    assert (Forall has_block (chain next)) as Hbn.
    { destruct next as [|ne nl nr ns]; [constructor|]. destruct Hn as [Hsub _]. apply Forall_forall. intros e' He'.
      rewrite Forall_forall in Hb. by apply Hb, Hsub. }
    destruct (unused_loop_ok next Hbn) as (x & -> & Hx). cbn [mbind option_bind]. exists x, false. split; [done|].
    split; [| |intros s e0 [= <-] _ He0 Hu Hs; exfalso; by apply (Hno e0)].
    + intros e0 ->. destruct next as [|ne nl nr ns]; [by destruct Hx as [?%elem_of_nil _]|]. by apply Hn, Hx.
    + intros ->. destruct next as [|ne nl nr ns]; [intros e0 He0 Hu; by destruct (Hn e0 He0)|]. destruct Hn as [_ Hu].
      exfalso. apply (Hx ne); [by left|done].
  - cbn [mbind option_bind]. destruct (unused_loop_ok t Hb) as (x & -> & Hx). cbn [mbind option_bind]. exists x, false. split; [done|].
    split; [| |done].
    + intros e0 ->. apply Hx.
    + intros -> e0 He0 Hu. by destruct (Hx e0 He0).
Qed.

(** With the checksum and the hash of the window given, and a suggestion that is not the last
    block of its file, [FindMatch] returns a suggestion that fits or a good choice among the
    entries of the table that fit. *)
Lemma FindMatch_ok t es suggested sf crc hash : table_ok t es → Forall has_block es → checksum c = crc →
  Hash blocksize c scratch = Some hash → hash_ok hash →
  (∀ s, suggested = Some s → has_block s ∧ is_Some (nexts t !! e_id s)) →
  ∃ r dup, FindMatch blocks complete FileSize blocksize filesize c diskfile scratch t suggested sf = Some (r, dup) ∧
    ((∃ s, suggested = Some s ∧ r = Some s ∧ e_crc s = crc ∧ e_hash s = hash) ∨ good_choice (with_key (key crc hash) es) sf r).
Proof.
  intros Ht Hb Hcrc Hhash Hh Hs. unfold FindMatch. rewrite Hcrc.
  assert (∃ found have, (match suggested with Some s => try_suggested blocks FileSize blocksize c scratch t s | None => Some (false, None) end)
    = Some (found, have) ∧ (have = None ∨ have = Some hash) ∧
    (found = true → ∃ s, suggested = Some s ∧ e_crc s = crc ∧ e_hash s = hash)) as (found & have & -> & Hhave & Hfound).
  { destruct suggested as [s|]; [|exists false, None; split_and!; auto; done].
    destruct (Hs s eq_refl) as [[b Eb]%lookup_lt_is_Some_2 [n En]]. unfold try_suggested, datablock_of. rewrite Eb. cbn [mbind option_bind].
    rewrite En, Hcrc. destruct (negb _ && _) eqn:Eg; [|exists false, None; split_and!; auto; done].
    apply andb_prop in Eg as [_ Eg%Z.eqb_eq]. rewrite Hhash. cbn [mbind option_bind]. eexists _, _. split; [done|]. split; [by right|].
    unfold md5_equal. intros Ee%bool_decide_eq_true. exists s. by split_and!. }
  cbn [mbind option_bind]. destruct found.
  { destruct (Hfound eq_refl) as (s & -> & E1 & E2). exists (Some s), false. split; [done|]. left. by exists s. }
  destruct (slot_lookup t es crc Ht) as [tree Etree]. fold (slot t crc). rewrite Etree. cbn [mbind option_bind].
  destruct (t_trees _ _ Ht _ _ Etree) as [Hbst Hok]. pose proof (t_entries _ _ Ht crc hash tree Hh Etree) as Ek.
  pose proof (search_ok tree crc hash Hbst Hok Hh) as Hsearch. destruct (Search_crc tree crc) as [|e l r s].
  { exists None, false. split; [done|]. right. rewrite <- Ek, Hsearch. split; [done| |cbn; lia]. by intros _ e He%elem_of_nil. }
  assert ((match have with Some h => Some h | None => Hash blocksize c scratch end) = Some hash) as -> by (by destruct Hhave as [-> | ->]).
  cbn [mbind option_bind]. destruct Hsearch as (t' & -> & Hchain). cbn [mbind option_bind]. rewrite Ek in Hchain.
  destruct (choose_ok t' sf suggested) as (x & dup & -> & Hg).
  { rewrite Hchain. apply Forall_forall. intros e' [_ He']%list_elem_of_filter. rewrite Forall_forall in Hb. by apply Hb. }
  exists x, dup. split; [done|]. right. by rewrite <- Hchain.
Qed.
End FindMatch.

Lemma filter_Forall_iff {A} (P Q : A → Prop) `{∀ x, Decision (P x), ∀ x, Decision (Q x)} l :
  Forall (λ x, P x ↔ Q x) l → filter P l = filter Q l.
Proof.
  induction 1 as [|x l Hx _ IH]; [done|]. rewrite !filter_cons, IH. destruct (decide (P x)), (decide (Q x)); tauto.
Qed.

Lemma file_entries_ok vs id sf b first : Forall (λ v, hash_ok v.2) vs → Forall entry_ok (file_entries id sf b first vs).
Proof. intros HF. revert id b first. induction HF as [|[crc hash] vs Hv _ IH]; intros; cbn [file_entries]; constructor; [done|apply IH]. Qed.

Lemma files_entries_ok files id : Forall (λ f, Forall (λ v, hash_ok v.2) f.2) files → Forall entry_ok (files_entries id files).
Proof.
  intros HF. revert id. induction HF as [|[[sf b] vs] files Hv _ IH]; intros; cbn [files_entries]; [constructor|].
  apply Forall_app. split; [by apply file_entries_ok|apply IH].
Qed.

Lemma with_key_eq crc hash es : Forall entry_ok es → hash_ok hash →
  with_key (key crc hash) es = filter (λ e, e_crc e = crc ∧ e_hash e = hash) es.
Proof.
  intros HF Hh. apply filter_Forall_iff. eapply Forall_impl; [exact HF|]. intros e He. split.
  - intros Ek. by apply key_inj.
  - unfold ekey. by intros [-> ->].
Qed.

Lemma md5_hash_ok data : hash_ok (md5 data).
Proof. split; [apply length_md5|]. unfold md5, md5_bytes. rewrite !Forall_app. split_and!; apply le_split_bytes. Qed.

(** The entries of a table with a key have that CRC and hash. *)
Lemma elem_of_with_key t es crc hash e : table_ok t es → hash_ok hash → e ∈ with_key (key crc hash) es →
  e ∈ es ∧ e_crc e = crc ∧ e_hash e = hash.
Proof.
  intros Ht Hh He. pose proof He as [Ek Hin]%list_elem_of_filter. split; [done|].
  destruct (slot_lookup t es crc Ht) as [tree Etree]. destruct (t_trees _ _ Ht _ _ Etree) as [_ Hok].
  rewrite <- (t_entries _ _ Ht crc hash tree Hh Etree) in He. apply list_elem_of_filter in He as [_ He].
  rewrite Forall_forall in Hok. by apply (key_inj (e_crc e) (e_hash e)); [apply Hok| |].
Qed.

(** ** Properties *)

(** The hash table is the list of the blocks it was loaded with.  For any limit and any
    files, loading succeeds, and the lookup of a CRC followed by the search for a hash
    yields, linked by [same], exactly the loaded entries with that CRC and that hash, in
    the order they were loaded; there is no entry with the CRC when the lookup fails. *)
Theorem table_lookup_correct (limit : Z) (files : list (nat * nat * list (Z * list Z))) (crc : Z) (hash : list Z) :
  Forall (λ f, Forall (λ v, hash_ok v.2) f.2) files → hash_ok hash →
  let found := filter (λ e, e_crc e = crc ∧ e_hash e = hash) (files_entries 0 files) in
  ∃ t n, load_files (SetLimit limit) files = Some t ∧ Lookup_crc t crc = Some n ∧
    match n with
    | Null => found = []
    | n => ∃ t', Search_hash n hash = Some t' ∧ chain t' = found
    end.
Proof.
  intros HF Hh found. destruct (load_files_ok files (SetLimit limit) [] (SetLimit_ok limit) HF) as (t & E & Ht).
  cbn [app] in Ht. change (allocated (SetLimit limit)) with 0 in Ht.
  assert (with_key (key crc hash) (files_entries 0 files) = found) as Ef by (apply with_key_eq; [by apply files_entries_ok|done]).
  destruct (slot_lookup t _ crc Ht) as [tree Etree]. destruct (t_trees _ _ Ht _ _ Etree) as [Hbst Hok].
  exists t, (Search_crc tree crc). split; [done|]. split.
  - unfold Lookup_crc. fold (slot t crc). rewrite Etree. destruct (t_mask _ _ Ht) as (k & Hk & -> & _).
    rewrite (proj2 (Z.eqb_neq (Z.ones k) 0)); [done|]. rewrite Z.ones_equiv. pose proof (Z.pow_le_mono_r 2 8 k). lia.
  - pose proof (search_ok tree crc hash Hbst Hok Hh) as Hs. rewrite (t_entries _ _ Ht crc hash tree Hh Etree), Ef in Hs. by destruct (Search_crc tree crc).
Qed.

(** Two files of two blocks each, the last blocks being equal. *)
Definition example_files : list (nat * nat * list (Z * list Z)) :=
  [(0%nat, 0%nat, [(5, replicate 16 1); (7, replicate 16 2)]); (1%nat, 2%nat, [(7 + 256, replicate 16 3); (7, replicate 16 2)])].

Lemma table_lookup_correct_witness :
  let found := filter (λ e, e_crc e = 7 ∧ e_hash e = replicate 16 2) (files_entries 0 example_files) in
  ∃ t n, load_files (SetLimit 4) example_files = Some t ∧ Lookup_crc t 7 = Some n ∧
    match n with
    | Null => found = []
    | n => ∃ t', Search_hash n (replicate 16 2) = Some t' ∧ chain t' = found
    end.
Proof.
  apply (table_lookup_correct 4 example_files 7 (replicate 16 2)).
  - repeat constructor; cbn; lia.
  - split; [reflexivity|]. apply Forall_replicate. split; cbn; lia.
Defined.


(** The blocks of the scanned file itself as the source blocks, the third one located. *)
Definition example_blocks : list DataBlock :=
  [SetLength mkDataBlock 16; SetLength mkDataBlock 16; SetLocation (SetLength mkDataBlock 16) 0 0; SetLength mkDataBlock 8].
Definition example_entries : list (nat * nat * list (Z * list Z)) :=
  let v (l : list Z) := (crc32 l, md5 l) in
  [(0%nat, 0%nat, [v (seqZ 0 16); v (seqZ 28 16)]); (1%nat, 2%nat, [v (seqZ 28 16); v (seqZ 0 8)])].

Lemma example_loaded : ∃ t, load_files (SetLimit 4) example_entries = Some t ∧ table_ok t (files_entries 0 example_entries).
Proof.
  destruct (load_files_ok example_entries (SetLimit 4) [] (SetLimit_ok 4)) as (t & E & Ht); [|exists t; split; [exact E|exact Ht]].
  do 2 (apply Forall_cons; split; [do 2 (apply Forall_cons; split; [apply md5_hash_ok|]); by apply Forall_nil|]). by apply Forall_nil.
Qed.

