(* ===== verification/FileName.v ===== *)
(** * FileName.v: file names in description packets (src/descriptionpacket.cpp, src/utf8.cpp)

    Names come from PAR files that may be hostile.  A [std::string] is the list of its
    bytes; the build is the one for systems with "/" as separator.  An exception is [None]. *)

From S2P Require Import Prelude Bytes.

(** [NoiseLevel] of include/par2/libpar2.h, compared as numbers *)
Inductive NoiseLevel := nlUnknown | nlSilent | nlQuiet | nlNormal | nlNoisy | nlDebug.
Definition noise (n : NoiseLevel) : Z :=
  match n with nlUnknown => 0 | nlSilent => 1 | nlQuiet => 2 | nlNormal => 3 | nlNoisy => 4 | nlDebug => 5 end.

Definition ch_slash : Z := 47.
Definition ch_backslash : Z := 92.
Definition ch_dot : Z := 46.
Definition ch_percent : Z := 37.

(** [UrlEncodeChar] *)
Definition hex_digit (bits : Z) : Z := if bits <? 10 then 48 + bits else 65 + (bits - 10).
Definition UrlEncodeChar (c : Z) : list Z :=
  [ch_percent; hex_digit (Z.land (Z.shiftr c 4) 0xf); hex_digit (Z.land c 0xf)].

(** The body of the loop of [TranslateFilenameFromPar2ToLocal] *)
Definition translate_char (noiselevel : NoiseLevel) (ch : Z) : list Z :=
  let ok := negb (ch <? 32) in
  let ch := if (ch =? ch_backslash) && (noise nlQuiet <=? noise noiselevel) then ch_slash else ch in
  if ok then [ch]
  else if noise nlQuiet <=? noise noiselevel then UrlEncodeChar ch else [].

(** [local_filename.find("../")] *)
Fixpoint find_parent (s : list Z) : option nat :=
  match s with
  | [] => None
  | c :: s' =>
      match s' with
      | c1 :: c2 :: _ => if (c =? ch_dot) && (c1 =? ch_dot) && (c2 =? ch_slash) then Some O else S <$> find_parent s'
      | _ => S <$> find_parent s'
      end
  end.

(** [std::string::replace] *)
Definition replace (s : list Z) (pos n : nat) (by_ : list Z) : list Z := take pos s ++ by_ ++ drop (pos + n) s.

(** The loop that replaces references to parent directories *)
Fixpoint parent_loop (fuel : nat) (s : list Z) : option (list Z) :=
  match find_parent s with
  | None => Some s
  | Some index =>
      match fuel with
      | O => None
      | S fuel => parent_loop fuel (replace s index 2 (UrlEncodeChar ch_dot ++ UrlEncodeChar ch_dot))
      end
  end.

(** [TranslateFilenameFromPar2ToLocal]; [at(0)] throws on an empty string *)
Definition TranslateFilenameFromPar2ToLocal (noiselevel : NoiseLevel) (par2_encoded_filename : list Z) : option (list Z) :=
  let local_filename := mjoin (translate_char noiselevel <$> par2_encoded_filename) in
  match local_filename with
  | [] => None
  | c :: _ =>
      let local_filename := if c =? ch_slash then replace local_filename 0 1 (UrlEncodeChar ch_slash) else local_filename in
      parent_loop (length local_filename) local_filename
  end.

(** [TranslateFilenameFromLocalToPar2]: the name is copied; what it prints is not modelled *)
Fixpoint local_loop (local_filename par2_encoded_filename : list Z) : list Z :=
  match local_filename with
  | [] => par2_encoded_filename
  | ch :: rest => local_loop rest (par2_encoded_filename ++ [ch])
  end.
Definition TranslateFilenameFromLocalToPar2 (local_filename : list Z) : option (list Z) :=
  let par2_encoded_filename := local_loop local_filename [] in
  match par2_encoded_filename with [] => None | _ => Some par2_encoded_filename end.

(** [Latin1ToUtf8] *)
Definition latin1_char (ch : Z) : list Z :=
  if ch <? 128 then [ch] else [wrap 8 (0xc2 + (if 0xbf <? ch then 1 else 0)); wrap 8 (Z.land ch 0x3f + 0x80)].
Definition Latin1ToUtf8 (s : list Z) : list Z :=
  match s with [] => [] | _ => mjoin (latin1_char <$> s) end.

(** ** Searching for parent directories *)

(** The string contains "../" at [i]. *)
Definition parent_at (s : list Z) (i : nat) : Prop :=
  s !! i = Some ch_dot ∧ s !! (i + 1)%nat = Some ch_dot ∧ s !! (i + 2)%nat = Some ch_slash.

Lemma parent_at_succ c s i : parent_at (c :: s) (S i) ↔ parent_at s i.
Proof. done. Qed.

Lemma parent_at_zero c c1 c2 s : parent_at (c :: c1 :: c2 :: s) 0 ↔ (c =? ch_dot) && (c1 =? ch_dot) && (c2 =? ch_slash) = true.
Proof.
  unfold parent_at. cbn. rewrite !andb_true_iff, !Z.eqb_eq. split.
  - by intros ([= ->] & [= ->] & [= ->]).
  - by intros [[-> ->] ->].
Qed.

Lemma find_parent_ok s : match find_parent s with Some i => parent_at s i | None => ∀ i, ¬ parent_at s i end.
Proof.
  induction s as [|c s IH]; cbn [find_parent]; [intros i (H & _); by rewrite lookup_nil in H|].
  assert (match S <$> find_parent s with Some i => parent_at (c :: s) i | None => ∀ i, ¬ parent_at (c :: s) (S i) end) as Hs.
  { destruct (find_parent s) as [j|]; cbn; [by apply parent_at_succ|]. intros i Hi%parent_at_succ. by apply (IH i). }
  destruct s as [|c1 [|c2 s]].
  - cbn in *. intros [|i]; [by intros (_ & H & _)|apply Hs].
  - destruct (S <$> find_parent [c1]); [done|]. intros [|i]; [by intros (_ & _ & H)|apply Hs].
  - destruct ((c =? ch_dot) && (c1 =? ch_dot) && (c2 =? ch_slash)) eqn:E; [by apply parent_at_zero|].
    destruct (S <$> find_parent (c1 :: c2 :: s)); [done|]. intros [|i]; [|apply Hs].
    rewrite parent_at_zero, E. discriminate.
Qed.

Definition dots (s : list Z) : nat := length (filter (λ c, c = ch_dot) s).

Lemma dots_app a b : dots (a ++ b) = (dots a + dots b)%nat.
Proof. unfold dots. by rewrite filter_app, length_app. Qed.

(** Every round removes two dots. *)
Lemma dots_replace s i : parent_at s i →
  (dots (replace s i 2 (UrlEncodeChar ch_dot ++ UrlEncodeChar ch_dot)) + 2 = dots s)%nat.
Proof.
  intros (H0 & H1 & _). assert (s = take i s ++ [ch_dot; ch_dot] ++ drop (i + 2) s) as Es.
  { rewrite <- (take_drop i s) at 1. rewrite (drop_S s ch_dot i H0), (drop_S s ch_dot (S i)) by (by rewrite <- Nat.add_1_r).
    by replace (S (S i)) with (i + 2)%nat by lia. }
  unfold replace. rewrite Es at 3. rewrite !dots_app. change (dots [ch_dot; ch_dot]) with 2%nat.
  change (dots (UrlEncodeChar ch_dot)) with 0%nat. lia.
Qed.

Lemma dots_length s : (dots s ≤ length s)%nat.
Proof. apply length_filter. Qed.

(** The loop ends: half as many rounds as there are dots are enough. *)
Lemma parent_loop_ends fuel s : (dots s ≤ 2 * fuel + 1)%nat → ∃ s', parent_loop fuel s = Some s' ∧ ∀ i, ¬ parent_at s' i.
Proof.
  revert s. induction fuel as [|fuel IH]; intros s Hf; cbn [parent_loop]; pose proof (find_parent_ok s) as Hp;
    destruct (find_parent s) as [i|]; try (by exists s).
  - pose proof (dots_replace s i Hp). lia.
  - apply IH. pose proof (dots_replace s i Hp). lia.
Qed.

(** The loop keeps a property of strings that the replacement keeps. *)
Lemma parent_loop_keeps (P : list Z → Prop) fuel s s' :
  (∀ s i, P s → parent_at s i → P (replace s i 2 (UrlEncodeChar ch_dot ++ UrlEncodeChar ch_dot))) →
  P s → parent_loop fuel s = Some s' → P s'.
Proof.
  intros HP. revert s. induction fuel as [|fuel IH]; intros s Hs; cbn [parent_loop]; pose proof (find_parent_ok s) as Hp;
    destruct (find_parent s) as [i|]; intros E; try discriminate; try (by injection E as <-).
  eapply IH; [|exact E]. by apply HP.
Qed.

Lemma parent_loop_none fuel s : (∀ i, ¬ parent_at s i) → parent_loop fuel s = Some s.
Proof.
  intros H. pose proof (find_parent_ok s) as Hp. destruct fuel; cbn [parent_loop];
    (destruct (find_parent s) as [i|]; [by destruct (H i)|done]).
Qed.

(** ** Safe names *)

(** A relative name without "../": it is not empty, does not start with a slash, and has no
    two dots followed by a slash.  It may still end in ".."; what this means for the path is
    said with the components below. *)
Definition safe_name (s : list Z) : Prop := s ≠ [] ∧ head s ≠ Some ch_slash ∧ ∀ i, ¬ parent_at s i.

Lemma url_printable c : Forall (λ b, 32 ≤ b ∧ b ≠ ch_slash ∧ b ≠ ch_dot) (UrlEncodeChar c).
Proof.
  assert (∀ b, 0 ≤ b < 16 → 32 ≤ hex_digit b ∧ hex_digit b ≠ ch_slash ∧ hex_digit b ≠ ch_dot) as Hd.
  { intros b Hb. unfold hex_digit, ch_slash, ch_dot. destruct (Z.ltb_spec b 10); lia. }
  assert (∀ v, 0 ≤ Z.land v 15 < 16) as Hl.
  { intros v. change 15 with (Z.ones 4). rewrite Z.land_ones by lia. apply Z.mod_pos_bound. lia. }
  repeat constructor; try (by apply Hd); unfold ch_percent, ch_slash, ch_dot; lia.
Qed.

Lemma head_replace s i : head s ≠ Some ch_slash → parent_at s i →
  head (replace s i 2 (UrlEncodeChar ch_dot ++ UrlEncodeChar ch_dot)) ≠ Some ch_slash.
Proof. intros Hh Hp. unfold replace. destruct i, s; cbn in *; done. Qed.

Lemma translate_char_printable noiselevel ch : in_range 8 ch → Forall (λ b, 32 ≤ b) (translate_char noiselevel ch).
Proof.
  intros Hc. unfold translate_char. destruct (Z.ltb_spec ch 32) as [Hlt|Hge]; cbn [negb].
  - destruct (noise nlQuiet <=? noise noiselevel); [|constructor].
    assert ((ch =? ch_backslash) = false) as -> by (apply Z.eqb_neq; unfold ch_backslash; lia). cbn [andb].
    eapply Forall_impl; [apply url_printable|]. cbn. lia.
  - constructor; [|constructor]. unfold ch_slash. destruct (_ && _); lia.
Qed.

Lemma translate_cons noiselevel ch name : mjoin (translate_char noiselevel <$> ch :: name)
  = translate_char noiselevel ch ++ mjoin (translate_char noiselevel <$> name).
Proof. done. Qed.

Lemma translate_printable noiselevel name : Forall (in_range 8) name →
  Forall (λ b, 32 ≤ b) (mjoin (translate_char noiselevel <$> name)).
Proof.
  induction 1 as [|ch name Hc _ IH]; [constructor|]. rewrite translate_cons. apply Forall_app. split; [by apply translate_char_printable|exact IH].
Qed.

Lemma translate_empty noiselevel name : mjoin (translate_char noiselevel <$> name) = [] →
  name = [] ∨ (noise noiselevel < noise nlQuiet ∧ Forall (λ c, c < 32) name).
Proof.
  destruct name as [|ch name]; [by left|]. right. revert ch H. induction name as [|ch' name IH]; intros ch.
  all: rewrite translate_cons; intros [E1 E2]%app_nil.
  all: assert (noise noiselevel < noise nlQuiet ∧ ch < 32) as [H1 H2] by
    (unfold translate_char in E1; destruct (Z.ltb_spec ch 32); cbn [negb] in E1; [|discriminate];
     destruct (Z.leb_spec (noise nlQuiet) (noise noiselevel)); [discriminate|done]).
  - split; [done|]. by repeat constructor.
  - destruct (IH ch' E2) as [_ Hr]. split; [done|]. by constructor.
Qed.

(** The replacement of a parent directory leaves a printable name that does not start with a slash. *)
Lemma replace_keeps s i : (s ≠ [] ∧ head s ≠ Some ch_slash ∧ Forall (λ b, 32 ≤ b) s) → parent_at s i →
  replace s i 2 (UrlEncodeChar ch_dot ++ UrlEncodeChar ch_dot) ≠ [] ∧
  head (replace s i 2 (UrlEncodeChar ch_dot ++ UrlEncodeChar ch_dot)) ≠ Some ch_slash ∧
  Forall (λ b, 32 ≤ b) (replace s i 2 (UrlEncodeChar ch_dot ++ UrlEncodeChar ch_dot)).
Proof.
  intros (H1 & H2 & H3) Hp. split; [unfold replace; by destruct (take i s)|]. split; [by apply head_replace|].
  unfold replace. apply Forall_app. split; [by apply Forall_take|]. apply Forall_app. split; [|by apply Forall_drop].
  apply Forall_app. split; (eapply Forall_impl; [apply url_printable|]; cbn; lia).
Qed.

Lemma local_loop_ok s acc : local_loop s acc = acc ++ s.
Proof. revert acc. induction s as [|c s IH]; intros acc; cbn [local_loop]; [by rewrite app_nil_r|]. by rewrite IH, <- app_assoc. Qed.

Lemma translate_plain noiselevel name : Forall (λ c, 32 ≤ c ∧ c ≠ ch_backslash) name →
  mjoin (translate_char noiselevel <$> name) = name.
Proof.
  induction 1 as [|ch name [H1 H2] _ IH]; [done|]. rewrite translate_cons, IH.
  unfold translate_char. rewrite (proj2 (Z.ltb_ge ch 32) H1), (proj2 (Z.eqb_neq _ _) H2). done.
Qed.

(** ** Paths *)

(** The components of a path: what is between the slashes *)
Fixpoint components (s : list Z) : list (list Z) :=
  match s with
  | [] => [[]]
  | c :: s =>
      if c =? ch_slash then [] :: components s
      else match components s with comp :: rest => (c :: comp) :: rest | [] => [[c]] end
  end.
Fixpoint join_path (l : list (list Z)) : list Z :=
  match l with
  | [] => []
  | comp :: rest => match rest with [] => comp | _ => comp ++ ch_slash :: join_path rest end
  end.

Definition parent_dir : list Z := [ch_dot; ch_dot].

(** How far below the directory in which a relative path starts one is after some components *)
Definition walk_step (depth : Z) (comp : list Z) : Z :=
  if decide (comp = parent_dir) then depth - 1 else if decide (comp = [] ∨ comp = [ch_dot]) then depth else depth + 1.
Definition walk (comps : list (list Z)) : Z := foldl walk_step 0 comps.

Lemma components_cons s : ∃ comp rest, components s = comp :: rest.
Proof. destruct s as [|c s]; cbn [components]; [eauto|]. case_match; [eauto|]. destruct (components s); eauto. Qed.

(** The components are those of the path. *)
Lemma join_components s : join_path (components s) = s.
Proof.
  induction s as [|c s IH]; [done|]. cbn [components]. destruct (components_cons s) as (comp & rest & E). rewrite E in *.
  destruct (Z.eqb_spec c ch_slash) as [->|_]; cbn [join_path] in *; [by rewrite IH|]. rewrite <- IH. by destruct rest.
Qed.

Lemma join_inner pre comp post : post ≠ [] → ∃ a b, join_path (pre ++ comp :: post) = a ++ comp ++ ch_slash :: b.
Proof.
  intros Hp. induction pre as [|p pre (a & b & IH)].
  - exists [], (join_path post). cbn [app join_path]. by destruct post.
  - exists (p ++ ch_slash :: a), b. cbn [app]. destruct (pre ++ comp :: post) as [|q l] eqn:E; [by destruct pre|].
    cbn [join_path] in *. rewrite IH. by rewrite <- app_assoc.
Qed.

(** Without "../" only the last component can be a parent directory. *)
Lemma parent_last s pre post : (∀ i, ¬ parent_at s i) → components s = pre ++ parent_dir :: post → post = [].
Proof.
  intros Hno E. destruct (decide (post = [])) as [|Hp]; [done|]. exfalso. destruct (join_inner pre parent_dir post Hp) as (a & b & Ej).
  rewrite <- E, join_components in Ej. apply (Hno (length a)). rewrite Ej. unfold parent_at.
  split; [rewrite lookup_app_r, Nat.sub_diag by lia; reflexivity|].
  split; rewrite lookup_app_r by lia; [replace (length a + 1 - length a)%nat with 1%nat by lia|replace (length a + 2 - length a)%nat with 2%nat by lia]; reflexivity.
Qed.

Lemma walk_up l depth : Forall (λ comp, comp ≠ parent_dir) l → depth ≤ foldl walk_step depth l.
Proof.
  intros HF. revert depth. induction HF as [|comp l Hc _ IH]; intros depth; [done|]. cbn [foldl]. etrans; [|apply IH].
  unfold walk_step. rewrite decide_False by done. case_decide; lia.
Qed.

(** The path never leaves the directory before its last component, and not at all when that is
    not a parent directory. *)
Record stays_below (s : list Z) : Prop := {
  sb_relative : s ≠ [] ∧ head s ≠ Some ch_slash;
  sb_inner : ∀ k, (k < length (components s))%nat → 0 ≤ walk (take k (components s));
  sb_whole : last (components s) ≠ Some parent_dir → 0 ≤ walk (components s);
}.

Lemma safe_stays_below s : safe_name s → stays_below s.
Proof.
  intros (Hne & Hh & Hno).
  assert (∀ k comp, components s !! k = Some comp → comp = parent_dir → S k = length (components s)) as Hlast.
  { intros k comp Hk ->. pose proof (take_drop_middle _ _ _ Hk) as E. symmetry in E. apply (parent_last s _ _ Hno) in E.
    apply lookup_lt_Some in Hk as Hlt. apply (f_equal length) in E. rewrite length_drop in E. cbn in E. lia. }
  split; [done| |].
  - intros k Hk. apply walk_up, Forall_lookup. intros j comp Hj Ec. apply lookup_take_Some in Hj as [Hj Hlt]. specialize (Hlast j comp Hj Ec). lia.
  - intros Hl. apply walk_up, Forall_lookup. intros j comp Hj Ec. apply Hl. rewrite last_lookup, <- Ec, <- Hj. f_equal. specialize (Hlast j comp Hj Ec). lia.
Qed.

(** ** Properties *)

(** C32: a file name from a PAR file cannot lead out of the target directory.  Whatever bytes the
    packet contains and whatever the noise level, the translation ends, and a name it returns
    is relative, contains no "../" and no control characters.  Component by component the
    path never gets above the directory it starts in, except that the last component may be
    "..": then the name denotes a directory and not a file in it, and only this last step can
    lead to the parent.  The translation raises an exception only for an empty name, or, when
    silent, for a name that consists of control characters. *)
Theorem translated_name_safe (noiselevel : NoiseLevel) (name : list Z) :
  Forall (in_range 8) name →
  match TranslateFilenameFromPar2ToLocal noiselevel name with
  | Some local => safe_name local ∧ stays_below local ∧ Forall (λ c, 32 ≤ c) local
  | None => name = [] ∨ (noise noiselevel < noise nlQuiet ∧ Forall (λ c, c < 32) name)
  end.
Proof.
  intros HF. unfold TranslateFilenameFromPar2ToLocal. pose proof (translate_printable noiselevel name HF) as Hp.
  pose proof (translate_empty noiselevel name) as He. destruct (mjoin _) as [|c s] eqn:E; [by apply He|]. clear He E.
  set (l := if c =? ch_slash then _ else _).
  assert (l ≠ [] ∧ head l ≠ Some ch_slash ∧ Forall (λ b, 32 ≤ b) l) as Hl.
  { unfold l. destruct (Z.eqb_spec c ch_slash) as [->|Hne].
    - split; [done|]. split; [done|]. apply Forall_cons in Hp as [_ Hs]. apply Forall_app. split; [constructor|]. apply Forall_app. split; [|exact Hs].
      eapply Forall_impl; [apply url_printable|]. cbn. lia.
    - split; [done|]. split; [cbn; congruence|done]. }
  destruct (parent_loop_ends (length l) l) as (s' & Es & Hno); [pose proof (dots_length l); lia|]. rewrite Es.
  destruct (parent_loop_keeps _ (length l) l s' replace_keeps Hl Es) as (H1 & H2 & H3). assert (safe_name s') as Hs by done.
  split; [done|]. split; [by apply safe_stays_below|done].
Qed.

(** The name "../a/../../b" with a control character. *)
Definition hostile_name : list Z := [46; 46; 47; 97; 9; 47; 46; 46; 47; 46; 46; 47; 98].

Lemma translated_name_safe_witness :
  match TranslateFilenameFromPar2ToLocal nlQuiet hostile_name with
  | Some local => safe_name local ∧ stays_below local ∧ Forall (λ c, 32 ≤ c) local
  | None => hostile_name = [] ∨ (noise nlQuiet < noise nlQuiet ∧ Forall (λ c, c < 32) hostile_name)
  end.
Proof. apply (translated_name_safe nlQuiet hostile_name). repeat constructor; cbn; lia. Defined.

(** An ordinary name survives the way into a PAR file and back: without control characters
    and backslashes, not starting with a slash and without "../", at every noise level. *)
Theorem name_roundtrip (noiselevel : NoiseLevel) (local : list Z) :
  safe_name local → Forall (λ c, 32 ≤ c ∧ c ≠ ch_backslash) local →
  (TranslateFilenameFromLocalToPar2 local ≫= TranslateFilenameFromPar2ToLocal noiselevel) = Some local.
Proof.
  intros (Hne & Hh & Hno) HF. unfold TranslateFilenameFromLocalToPar2. rewrite local_loop_ok. cbn [app].
  destruct local as [|c s]; [done|]. cbn [mbind option_bind]. unfold TranslateFilenameFromPar2ToLocal.
  rewrite (translate_plain noiselevel (c :: s) HF). rewrite (proj2 (Z.eqb_neq c ch_slash)) by (cbn in Hh; congruence).
  by apply parent_loop_none.
Qed.

Lemma name_roundtrip_witness :
  (TranslateFilenameFromLocalToPar2 [97; 47; 98; 46; 116] ≫= TranslateFilenameFromPar2ToLocal nlSilent) = Some [97; 47; 98; 46; 116].
Proof.
  apply (name_roundtrip nlSilent [97; 47; 98; 46; 116]).
  - split; [discriminate|]. split; [discriminate|].
    exact (find_parent_ok [97; 47; 98; 46; 116]).
  - repeat constructor; cbn; unfold ch_backslash; lia.
Defined.

(** The exception is real: the name ".." is returned as it is, and is the parent directory. *)
Example parent_name_kept :
  TranslateFilenameFromPar2ToLocal nlNormal parent_dir = Some parent_dir ∧ walk (components parent_dir) = -1 ∧
  TranslateFilenameFromPar2ToLocal nlNormal (97 :: ch_slash :: parent_dir) = Some (97 :: ch_slash :: parent_dir).
Proof. split; [reflexivity|split; reflexivity]. Qed.

(** When silent, control characters are dropped instead of encoded, and backslashes are kept:
    the name of a target file depends on the verbosity. *)
Example silent_names_differ :
  TranslateFilenameFromPar2ToLocal nlSilent [97; 9; 92; 98] = Some [97; 92; 98] ∧
  TranslateFilenameFromPar2ToLocal nlQuiet [97; 9; 92; 98] = Some [97; 37; 48; 57; 47; 98].
Proof. split; reflexivity. Qed.

(** A name that is stored in UTF-8 is encoded a second time when it is loaded. *)
Example utf8_name_encoded_twice : Latin1ToUtf8 [0xc3; 0xa9] = [0xc3; 0x83; 0xc2; 0xa9].
Proof. reflexivity. Qed.
