(* ===== verification/Packets.v ===== *)
(** * Packets.v: the packets of a PAR 2.0 file

    include/par2/par2fileformat.h, src/par2fileformat.cpp, criticalpacket, mainpacket,
    verificationpacket, descriptionpacket, creatorpacket and recoverypacket.  A packet in
    memory is the list of its bytes: the structures are packed and the host is little-endian,
    so that a field is a slice. *)

From stdpp Require Import sorting.
From S2P Require Import Prelude Bytes Md5 Md5Spec Md5Single DiskFile HashTable FileName.

(** ** [PACKET_HEADER] *)

(** "PAR2\0PKT" and the packet types, "PAR 2.0\0" followed by eight characters *)
Definition packet_magic : list Z := [80; 65; 82; 50; 0; 80; 75; 84].
Definition type_prefix : list Z := [80; 65; 82; 32; 50; 46; 48; 0].
Definition fileverificationpacket_type : list Z := type_prefix ++ [73; 70; 83; 67; 0; 0; 0; 0].
Definition filedescriptionpacket_type : list Z := type_prefix ++ [70; 105; 108; 101; 68; 101; 115; 99].
Definition mainpacket_type : list Z := type_prefix ++ [77; 97; 105; 110; 0; 0; 0; 0].
Definition recoveryblockpacket_type : list Z := type_prefix ++ [82; 101; 99; 118; 83; 108; 105; 99].
Definition creatorpacket_type : list Z := type_prefix ++ [67; 114; 101; 97; 116; 111; 114; 0].

(** [sizeof] of the structures *)
Definition header_size : nat := 64.
Definition main_size : nat := 76.
Definition verification_size : nat := 80.
Definition verification_entry_size : nat := 20.
Definition description_size : nat := 120.
Definition creator_size : nat := 64.
Definition recovery_size : nat := 68.

(** The fields of the header *)
Definition h_magic (p : list Z) : list Z := slice p 0 8.
Definition h_length (p : list Z) : Z := le_join (slice p 8 8).
Definition h_hash (p : list Z) : list Z := slice p 16 16.
Definition h_setid (p : list Z) : list Z := slice p 32 16.
Definition h_type (p : list Z) : list Z := slice p 48 16.

(** ** [CriticalPacket] *)

Record CriticalPacket := { packetdata : list Z; packetlength : nat }.

(** [AllocatePacket] *)
Definition AllocatePacket (length extra : nat) : CriticalPacket :=
  {| packetdata := replicate (length + extra) 0; packetlength := length |}.

(** The assignment of a field *)
Definition put (p : CriticalPacket) (off : nat) (bytes : list Z) : CriticalPacket :=
  {| packetdata := memcpy (packetdata p) off bytes; packetlength := packetlength p |}.

(** The three fields of the header that every [Create] sets first *)
Definition start_packet (p : CriticalPacket) (type : list Z) : CriticalPacket :=
  put (put (put p 0 packet_magic) 8 (le_split 8 (Z.of_nat (packetlength p)))) 48 type.

(** The length of a string padded to a multiple of four, [~3 & (3 + (u32)size)] *)
Definition padded_size (size : nat) : nat := Z.to_nat (Z.ldiff (wrap 32 (3 + wrap 32 (Z.of_nat size))) 3).

(** [WritePacket] *)
Definition WritePacket (p : CriticalPacket) (d : DiskFile) (fileoffset : nat) (maxlength : Z) : option (bool * DiskFile) :=
  Write d (Z.of_nat fileoffset) (take (packetlength p) (packetdata p)) maxlength.

Section Hashing.
(** The memory of the local hash contexts *)
Context (scratch : MD5Single).

(** A local [MD5Context] that is updated once *)
Definition context_hash (data : list Z) : option (list Z) := end_ (update (reset scratch) data).

(** The hash of a packet from its set id on, stored in its header *)
Definition hash_packet (p : CriticalPacket) : option CriticalPacket :=
  hash ← context_hash (slice (packetdata p) 32 (packetlength p - 32)); Some (put p 16 hash).

(** [FinishPacket] *)
Definition FinishPacket (p : CriticalPacket) (setid : list Z) : option CriticalPacket := hash_packet (put p 32 setid).

(** ** [MainPacket] *)

(** [std::sort] of the file ids, and their copy into the packet *)
#[local] Instance md5_order_dec : RelDecision (λ a b : list Z, md5_less b a = false).
Proof. intros a b. apply _. Defined.
Definition sort_fileids (ids : list (list Z)) : list (list Z) := merge_sort (λ a b, md5_less b a = false) ids.
Fixpoint store_fileids (p : CriticalPacket) (off : nat) (ids : list (list Z)) : CriticalPacket :=
  match ids with
  | [] => p
  | id :: ids => store_fileids (put p off id) (off + 16) ids
  end.

(** [MainPacket::Create] *)
Definition MainPacket_Create (fileids : list (list Z)) (blocksize : Z) : option CriticalPacket :=
  let totalfilecount := length fileids in
  let p := start_packet (AllocatePacket (main_size + totalfilecount * 16) 0) mainpacket_type in
  let p := put p 64 (le_split 8 blocksize) in
  let p := put p 72 (le_split 4 (Z.of_nat totalfilecount)) in
  let p := store_fileids p main_size (if Nat.ltb 1 totalfilecount then sort_fileids fileids else fileids) in
  setid ← context_hash (slice (packetdata p) 64 (packetlength p - 64));
  hash_packet (put p 32 setid).

Record MainPacket := { m_data : list Z; m_blocksize : Z; m_totalfilecount : Z; m_recoverablefilecount : Z }.

(** [MainPacket::FileId] *)
Definition MainPacket_FileId (m : MainPacket) (filenumber : nat) : list Z := slice (m_data m) (main_size + 16 * filenumber) 16.

Context (maxlength : Z).

(** [MainPacket::Load]: the checks of the length, and what follows the read *)
Definition main_length_ok (len : Z) : bool :=
  negb (len <? 76) && negb (0 <? (len - 76) mod 16) && negb (76 + 32768 * 16 <? len).
Definition main_finish (data : list Z) : option MainPacket :=
  let total := wrap 32 ((h_length data - 76) / 16) in
  let recoverable := le_join (slice data 72 4) in
  let blocksize := le_join (slice data 64 8) in
  if total <? recoverable then None else
  if (blocksize =? 0) || negb (Z.land blocksize 3 =? 0) then None else
  Some {| m_data := data; m_blocksize := blocksize; m_totalfilecount := total; m_recoverablefilecount := recoverable |}.

(** The read of the rest of a packet behind its header *)
Definition read_rest (d : DiskFile) (offset : Z) (header : list Z) : option (option (list Z) * DiskFile) :=
  '(ok, d, data) ← Read d (wrap 64 (offset + 64)) (h_length header - 64) maxlength;
  Some (if (ok : bool) then Some (header ++ data) else None, d).

Definition MainPacket_Load (d : DiskFile) (offset : Z) (header : list Z) : option (option MainPacket * DiskFile) :=
  if negb (main_length_ok (h_length header)) then Some (None, d) else
  '(data, d) ← read_rest d offset header;
  Some (data ≫= main_finish, d).

(** ** [VerificationPacket] *)

Record VerificationPacket := { v_data : list Z; v_blockcount : Z }.

(** [Create], [FileId] and [SetBlockHashAndCRC] *)
Definition VerificationPacket_Create (blockcount : nat) : CriticalPacket :=
  start_packet (AllocatePacket (verification_size + blockcount * verification_entry_size) 0) fileverificationpacket_type.
Definition VerificationPacket_SetFileId (p : CriticalPacket) (fileid : list Z) : CriticalPacket := put p 64 fileid.
Definition SetBlockHashAndCRC (p : CriticalPacket) (blocknumber : nat) (hash : list Z) (crc : Z) : CriticalPacket :=
  put (put p (80 + 20 * blocknumber) hash) (80 + 20 * blocknumber + 16) (le_split 4 crc).

(** [FileId] and [VerificationEntry] *)
Definition VerificationPacket_FileId (v : VerificationPacket) : list Z := slice (v_data v) 64 16.
Definition VerificationEntry (v : VerificationPacket) (blocknumber : nat) : list Z * Z :=
  (slice (v_data v) (80 + 20 * blocknumber) 16, le_join (slice (v_data v) (80 + 20 * blocknumber + 16) 4)).

(** [VerificationPacket::Load] *)
Definition verification_length_ok (len : Z) : bool :=
  negb (len <=? 80) && negb (0 <? (len - 80) mod 20) && negb (80 + 32768 * 20 <? len).
Definition verification_finish (data : list Z) : VerificationPacket :=
  {| v_data := data; v_blockcount := wrap 32 ((h_length data - 80) / 20) |}.
Definition VerificationPacket_Load (d : DiskFile) (offset : Z) (header : list Z) : option (option VerificationPacket * DiskFile) :=
  if negb (verification_length_ok (h_length header)) then Some (None, d) else
  '(data, d) ← read_rest d offset header;
  Some (option_map verification_finish data, d).

(** ** [DescriptionPacket] *)

Record DescriptionPacket := { d_data : list Z; d_filename : list Z }.

(** [Create], [Hash16k] and [HashFull] *)
Definition DescriptionPacket_Create (filename : list Z) (filesize : Z) : CriticalPacket :=
  let p := start_packet (AllocatePacket (description_size + padded_size (length filename)) 4) filedescriptionpacket_type in
  put (put p 112 (le_split 8 filesize)) 120 filename.
Definition SetHash16k (p : CriticalPacket) (hash : list Z) : CriticalPacket := put p 96 hash.
Definition SetHashFull (p : CriticalPacket) (hash : list Z) : CriticalPacket := put p 80 hash.

(** A C string: the bytes before the first zero *)
Fixpoint c_string (s : list Z) : list Z :=
  match s with [] => [] | c :: s => if c =? 0 then [] else c :: c_string s end.

(** [ComputeFileId] *)
Definition ComputeFileId (p : CriticalPacket) : option CriticalPacket :=
  let strlen := length (c_string (drop 120 (packetdata p))) in
  fileid ← context_hash (slice (packetdata p) 96 (24 + strlen));
  Some (put p 64 fileid).

(** [FileId], [FileSize], [HashFull] and [Hash16k] *)
Definition DescriptionPacket_FileId (p : DescriptionPacket) : list Z := slice (d_data p) 64 16.
Definition DescriptionPacket_FileSize (p : DescriptionPacket) : Z := le_join (slice (d_data p) 112 8).
Definition DescriptionPacket_HashFull (p : DescriptionPacket) : list Z := slice (d_data p) 80 16.
Definition DescriptionPacket_Hash16k (p : DescriptionPacket) : list Z := slice (d_data p) 96 16.

(** [DescriptionPacket::Load] *)
Definition description_length_ok (len : Z) : bool := negb (len <=? 120) && negb (100000 <? len - 120).
Definition description_finish (data : list Z) : option DescriptionPacket :=
  let packet := {| d_data := data ++ replicate 4 0; d_filename := Latin1ToUtf8 (c_string (drop 120 (data ++ replicate 4 0))) |} in
  if (DescriptionPacket_FileSize packet <=? 16384) && negb (md5_equal (DescriptionPacket_Hash16k packet) (DescriptionPacket_HashFull packet))
  then None else Some packet.
Definition DescriptionPacket_Load (d : DiskFile) (offset : Z) (header : list Z) : option (option DescriptionPacket * DiskFile) :=
  if negb (description_length_ok (h_length header)) then Some (None, d) else
  '(data, d) ← read_rest d offset header;
  Some (data ≫= description_finish, d).

(** ** [CreatorPacket] *)

(** [Create]; the text names package and version, which the build defines *)
Definition CreatorPacket_Create (creator setid : list Z) : option CriticalPacket :=
  let p := start_packet (AllocatePacket (creator_size + padded_size (length creator)) 0) creatorpacket_type in
  hash_packet (put (put p 32 setid) 64 creator).
Definition creator_length_ok (len : Z) : bool := negb (len <=? 64) && negb (100000 <? len - 64).
Definition CreatorPacket_Load (d : DiskFile) (offset : Z) (header : list Z) : option (option (list Z) * DiskFile) :=
  if negb (creator_length_ok (h_length header)) then Some (None, d) else read_rest d offset header.

(** ** [RecoveryPacket] *)

(** The packet without its data, its place, the hash context, and the block of data *)
Record RecoveryPacket := { r_packet : list Z; r_offset : Z; r_context : option MD5Single; r_datablock : DataBlock }.

(** [RecoveryPacket::Create] *)
Definition RecoveryPacket_Create (diskfile : nat) (offset blocksize exponent : Z) (setid : list Z) : RecoveryPacket :=
  let packet := packet_magic ++ le_split 8 (wrap 64 (68 + blocksize)) ++ replicate 16 0 ++ setid ++ recoveryblockpacket_type
                ++ le_split 4 exponent in
  {| r_packet := packet; r_offset := offset; r_context := Some (update (reset scratch) (slice packet 32 36));
     r_datablock := SetLength (SetLocation mkDataBlock diskfile (wrap 64 (offset + 68))) blocksize |}.

(** [RecoveryPacket::WriteData] *)
Definition RecoveryPacket_WriteData (r : RecoveryPacket) (d : DiskFile) (position : Z) (buffer : list Z)
    : option (bool * RecoveryPacket * DiskFile) :=
  context ← r_context r;
  let r := {| r_packet := r_packet r; r_offset := r_offset r; r_context := Some (update context buffer); r_datablock := r_datablock r |} in
  '(ok, d, _) ← WriteData (r_datablock r) d position buffer maxlength;
  Some (ok, r, d).

(** [RecoveryPacket::WriteHeader] *)
Definition WriteHeader (r : RecoveryPacket) (d : DiskFile) : option (bool * RecoveryPacket * DiskFile) :=
  hash ← r_context r ≫= end_;
  let r := {| r_packet := memcpy (r_packet r) 16 hash; r_offset := r_offset r; r_context := r_context r; r_datablock := r_datablock r |} in
  '(ok, d) ← Write d (r_offset r) (r_packet r) maxlength;
  Some (ok, r, d).

(** [Exponent], [BlockSize] and [Load] *)
Definition Exponent (r : RecoveryPacket) : Z := le_join (slice (r_packet r) 64 4).
Definition BlockSize (r : RecoveryPacket) : Z := h_length (r_packet r) - 68.
Definition RecoveryPacket_Load (diskfile : nat) (d : DiskFile) (offset : Z) (header : list Z) : option (option RecoveryPacket * DiskFile) :=
  if h_length header <=? 68 then Some (None, d) else
  '(ok, d, data) ← Read d (wrap 64 (offset + 64)) 4 maxlength;
  Some (if (ok : bool) then
          Some {| r_packet := header ++ data; r_offset := offset; r_context := None;
                  r_datablock := SetLength (SetLocation mkDataBlock diskfile (wrap 64 (offset + 68))) (h_length header - 68) |}
        else None, d).
End Hashing.
