(* ===== verification/PacketsSpec.v ===== *)
(** * PacketsSpec.v: packets that are created can be read back

    A finished packet is intact, in the sense the search for packets checks, and its fields
    are those it was created with. *)

From stdpp Require Import sorting.
From S2P Require Import Prelude Bytes Md5 Md5Spec Md5Single DiskFile CheckSummerSpec HashTable HashTableSpec FileName Packets.

(** ** Intact packets *)

Record intact (p : list Z) : Prop := {
  p_size : (64 ≤ length p)%nat;
  p_magic : h_magic p = packet_magic;
  p_length : h_length p = Z.of_nat (length p);
  p_four : (length p mod 4 = 0)%nat;
  p_hash : h_hash p = md5 (drop 32 p);
}.

(** What is written to disk. *)
Definition written (p : CriticalPacket) : list Z := take (packetlength p) (packetdata p).

(** ** Parsing *)

Definition parse_recovery (diskfile : nat) (offset : Z) (p : list Z) : option RecoveryPacket :=
  if h_length p <=? 68 then None else
  Some {| r_packet := take 68 p; r_offset := offset; r_context := None;
          r_datablock := SetLength (SetLocation mkDataBlock diskfile (offset + 68)) (h_length p - 68) |}.
Definition parse_description (p : list Z) : option DescriptionPacket :=
  if negb (description_length_ok (h_length p)) then None else description_finish p.
Definition parse_verification (p : list Z) : option VerificationPacket :=
  if negb (verification_length_ok (h_length p)) then None else Some (verification_finish p).
Definition parse_main (p : list Z) : option MainPacket :=
  if negb (main_length_ok (h_length p)) then None else main_finish p.
Definition parse_creator (p : list Z) : option (list Z) :=
  if negb (creator_length_ok (h_length p)) then None else Some p.

(** ** Fields *)

Lemma slice_memcpy_after l off src a n : (off + length src ≤ a)%nat → (off ≤ length l)%nat → slice (memcpy l off src) a n = slice l a n.
Proof.
  intros H1 H2. unfold slice, memcpy. rewrite app_assoc, drop_app_ge by (rewrite length_app, length_take; lia).
  rewrite length_app, length_take, drop_drop, Nat.min_l by lia. do 2 f_equal. lia.
Qed.

(** The field just assigned, and the others. *)
Lemma put_same p off bytes n : (off + length bytes ≤ length (packetdata p))%nat → n = length bytes →
  slice (packetdata (put p off bytes)) off n = bytes.
Proof. intros H ->. by apply slice_memcpy_self. Qed.

Lemma put_other p off bytes a n : (off + length bytes ≤ length (packetdata p))%nat →
  (a + n ≤ off)%nat ∨ (off + length bytes ≤ a)%nat → slice (packetdata (put p off bytes)) a n = slice (packetdata p) a n.
Proof. intros H [Ha|Ha]; [apply slice_memcpy_before|apply slice_memcpy_after]; lia. Qed.

Lemma length_put p off bytes : (off + length bytes ≤ length (packetdata p))%nat →
  length (packetdata (put p off bytes)) = length (packetdata p).
Proof. apply length_memcpy. Qed.

Lemma written_slice p a n : (a + n ≤ packetlength p)%nat → slice (written p) a n = slice (packetdata p) a n.
Proof. intros. change (written p) with (slice (packetdata p) 0 (packetlength p)). by rewrite slice_slice by lia. Qed.

Lemma length_written p : (packetlength p ≤ length (packetdata p))%nat → length (written p) = packetlength p.
Proof. intros. unfold written. rewrite length_take. lia. Qed.

Lemma slice_all l off n : (length l ≤ off + n)%nat → slice l off n = drop off l.
Proof. intros. unfold slice. apply take_ge. rewrite length_drop. lia. Qed.

Lemma slice_app_l l1 l2 off n : (off + n ≤ length l1)%nat → slice (l1 ++ l2) off n = slice l1 off n.
Proof. intros. unfold slice. rewrite drop_app_le by lia. apply take_app_le. rewrite length_drop. lia. Qed.

(** ** Packets under construction *)

(** A packet of [n] bytes with magic value, length and type. *)
Record started (p : CriticalPacket) (n : nat) (type : list Z) : Prop := {
  s_packetlength : packetlength p = n;
  s_length : (n ≤ length (packetdata p))%nat;
  s_magic : slice (packetdata p) 0 8 = packet_magic;
  s_size : slice (packetdata p) 8 8 = le_split 8 (Z.of_nat n);
  s_type : slice (packetdata p) 48 16 = type;
}.

Lemma start_packet_ok n extra type : length type = 16%nat → (64 ≤ n)%nat → started (start_packet (AllocatePacket n extra) type) n type ∧
  length (packetdata (start_packet (AllocatePacket n extra) type)) = (n + extra)%nat.
Proof.
  intros Ht Hn. assert (length (packetdata (AllocatePacket n extra)) = n + extra)%nat as Hl by apply length_replicate.
  assert (length (packetdata (put (AllocatePacket n extra) 0 packet_magic)) = n + extra)%nat as Hl1 by (rewrite length_put; change (length packet_magic) with 8%nat; lia).
  assert (length (packetdata (put (put (AllocatePacket n extra) 0 packet_magic) 8 (le_split 8 (Z.of_nat n)))) = n + extra)%nat as Hl2
    by (rewrite length_put; rewrite ?length_le_split; lia).
  unfold start_packet. cbn [packetlength AllocatePacket]. split; [split|rewrite length_put; lia].
  - done.
  - rewrite length_put; lia.
  - rewrite put_other by lia. rewrite put_other by (rewrite ?length_le_split; lia). apply put_same; [change (length packet_magic) with 8%nat; lia|done].
  - rewrite put_other by lia. apply put_same; rewrite length_le_split; lia.
  - apply put_same; lia.
Qed.

Lemma drop_put p off bytes a : (off + length bytes ≤ a)%nat → (off + length bytes ≤ length (packetdata p))%nat →
  drop a (packetdata (put p off bytes)) = drop a (packetdata p).
Proof.
  intros H1 H2. rewrite <- (slice_all (packetdata (put p off bytes)) a (length (packetdata p))) by (rewrite length_put; lia).
  rewrite put_other by lia. apply slice_all. lia.
Qed.

(** Behind the header there are zeros. *)
Lemma start_packet_zeros n extra type : length type = 16%nat → (64 ≤ n)%nat →
  drop 64 (packetdata (start_packet (AllocatePacket n extra) type)) = replicate (n + extra - 64) 0.
Proof.
  intros Ht Hn. unfold start_packet. assert (length (packetdata (AllocatePacket n extra)) = n + extra)%nat as Hl by apply length_replicate.
  assert (length packet_magic = 8)%nat as Hm by done.
  assert (length (packetdata (put (AllocatePacket n extra) 0 packet_magic)) = n + extra)%nat as Hl1 by (rewrite length_put; lia).
  assert (length (packetdata (put (put (AllocatePacket n extra) 0 packet_magic) 8 (le_split 8 (Z.of_nat n)))) = n + extra)%nat as Hl2
    by (rewrite length_put; rewrite ?length_le_split; lia).
  cbn [packetlength AllocatePacket]. rewrite drop_put by lia. rewrite drop_put by (rewrite ?length_le_split; lia).
  rewrite drop_put by lia. cbn [AllocatePacket packetdata]. by rewrite drop_replicate.
Qed.

(** Any other field may be assigned. *)
Lemma started_put p n type off bytes : started p n type → (off + length bytes ≤ n)%nat →
  (16 ≤ off ∧ off + length bytes ≤ 48)%nat ∨ (64 ≤ off)%nat → started (put p off bytes) n type.
Proof.
  intros [H1 H2 H3 H4 H5] Hle Hoff. split; [done|rewrite length_put; lia| | |]; rewrite put_other by lia; done.
Qed.

(** ** The order of the file ids *)

Definition fileid_order (ids : list (list Z)) : list (list Z) := if Nat.ltb 1 (length ids) then sort_fileids ids else ids.

Lemma fileid_order_perm ids : fileid_order ids ≡ₚ ids.
Proof. unfold fileid_order. destruct (Nat.ltb _ _); [apply merge_sort_Permutation|done]. Qed.

Lemma md5_less_asym n a b : md5_less_loop n a b = true → md5_less_loop n b a = false.
Proof.
  induction n as [|n IH]; cbn [md5_less_loop]; [intros H%Z.ltb_lt; apply Z.ltb_ge; lia|].
  rewrite (Z.eqb_sym (nth (S n) b 0)). destruct (_ =? _); [done|]. intros H%Z.ltb_lt. apply Z.ltb_ge. lia.
Qed.

#[local] Instance md5_order_total : Total (λ a b : list Z, md5_less b a = false).
Proof. intros a b. destruct (md5_less b a) eqn:E; [|by left]. right. by apply md5_less_asym. Qed.

Lemma Sorted_Forall_impl {A} (P : A → Prop) (R S : A → A → Prop) l :
  (∀ x y, P x → P y → R x y → S x y) → Forall P l → Sorted R l → Sorted S l.
Proof.
  intros HRS HF Hs. induction Hs as [|x l Hs IH Hd]; [constructor|]. apply Forall_cons in HF as [Hx HF].
  constructor; [by apply IH|]. destruct Hd as [|y l Hxy]; [constructor|]. apply Forall_cons in HF as [Hy _]. constructor. by apply HRS.
Qed.

(** The order is that of the ids read as numbers. *)
Lemma fileid_order_sorted ids : Forall hash_ok ids → Sorted (λ a b, le_join a ≤ le_join b) (fileid_order ids).
Proof.
  intros HF. unfold fileid_order, sort_fileids. destruct (Nat.ltb_spec 1 (length ids)) as [Hlt|Hge].
  2: { destruct ids as [|a [|b ids]]; [constructor|repeat constructor|cbn in Hge; lia]. }
  apply (Sorted_Forall_impl hash_ok (λ a b, md5_less b a = false)).
  - intros a b Ha Hb. rewrite md5_less_ok by done. intros H%Z.ltb_ge. done.
  - by rewrite merge_sort_Permutation.
  - apply Sorted_merge_sort, _.
Qed.

(** ** Names *)

Lemma padded_size_ok k : Z.of_nat k < 2 ^ 31 → (k ≤ padded_size k ≤ k + 3)%nat ∧ (padded_size k mod 4 = 0)%nat.
Proof.
  intros Hk.
  unfold padded_size. rewrite (wrap_small 32 (Z.of_nat k)) by (split; lia). rewrite wrap_small by (split; lia).
  assert (Z.ldiff (3 + Z.of_nat k) 3 = (3 + Z.of_nat k) / 4 * 4) as ->.
  { change 3 with (Z.ones 2) at 2. by rewrite Z.ldiff_ones_r, Z.shiftr_div_pow2, Z.shiftl_mul_pow2 by lia. }
  set (q := (3 + Z.of_nat k) / 4). assert (4 * q ≤ 3 + Z.of_nat k < 4 * q + 4) as Hq.
  { pose proof (Z.div_mod (3 + Z.of_nat k) 4 ltac:(lia)). pose proof (Z.mod_pos_bound (3 + Z.of_nat k) 4 ltac:(lia)). lia. }
  assert (0 ≤ q) by (apply Z.div_pos; lia). split; [lia|]. replace (Z.to_nat (q * 4)) with (Z.to_nat q * 4)%nat by lia.
  apply Nat.Div0.mod_mul.
Qed.

Lemma c_string_zeros name m : Forall (λ c, c ≠ 0) name → (0 < m)%nat → c_string (name ++ replicate m 0) = name.
Proof.
  intros HF Hm. induction HF as [|c name Hc _ IH]; cbn [app c_string]; [by destruct m|].
  rewrite (proj2 (Z.eqb_neq c 0) Hc). by rewrite IH.
Qed.

Section Create.
Context (scratch : MD5Single).
Hypothesis Hscratch : length (tmp scratch) = 64%nat.

Lemma context_hash_ok data : context_hash scratch data = Some (md5 data).
Proof. apply end_ok, (update_ok _ []), reset_ok, Hscratch. Qed.

(** A started packet becomes intact when its hash is stored, and keeps its other fields. *)
Lemma hash_packet_ok p n type : started p n type → (64 ≤ n)%nat → (n mod 4 = 0)%nat → Z.of_nat n < 2 ^ 64 →
  ∃ p', hash_packet scratch p = Some p' ∧ started p' n type ∧ intact (written p') ∧ length (packetdata p') = length (packetdata p) ∧
    ∀ a k, (32 ≤ a)%nat → slice (packetdata p') a k = slice (packetdata p) a k.
Proof.
  intros Hp Hn H4 H64. pose proof (s_packetlength _ _ _ Hp) as El. pose proof (s_length _ _ _ Hp) as Hl.
  unfold hash_packet. rewrite context_hash_ok. cbn [mbind option_bind]. set (h := md5 _). assert (length h = 16%nat) as Hh by apply length_md5.
  assert (started (put p 16 h) n type) as Hp' by (apply started_put; [done|lia|left; lia]).
  assert (∀ a k, (32 ≤ a)%nat → slice (packetdata (put p 16 h)) a k = slice (packetdata p) a k) as Hk by (intros; apply put_other; lia).
  assert (length (packetdata (put p 16 h)) = length (packetdata p)) as Hlp by (apply length_put; lia).
  eexists. split; [reflexivity|]. split; [done|]. split; [|by split].
  pose proof (s_packetlength _ _ _ Hp') as El'. assert (length (written (put p 16 h)) = n) as Hw by (rewrite length_written; lia).
  split; [lia| | |by rewrite Hw|].
  - unfold h_magic. rewrite written_slice by lia. apply Hp'.
  - unfold h_length. rewrite written_slice by lia. rewrite (s_size _ _ _ Hp'), Hw. apply le_join_split. change (8 * Z.of_nat 8) with 64. split; lia.
  - unfold h_hash. rewrite written_slice by lia. rewrite put_same by lia.
    rewrite <- (slice_all (written (put p 16 h)) 32 (n - 32)) by lia. rewrite written_slice by lia. rewrite Hk by lia. unfold h. by rewrite El.
Qed.

Lemma FinishPacket_ok p n type setid : started p n type → (64 ≤ n)%nat → (n mod 4 = 0)%nat → Z.of_nat n < 2 ^ 64 → length setid = 16%nat →
  ∃ p', FinishPacket scratch p setid = Some p' ∧ started p' n type ∧ intact (written p') ∧ length (packetdata p') = length (packetdata p) ∧
    h_setid (written p') = setid ∧ ∀ a k, (48 ≤ a)%nat → slice (packetdata p') a k = slice (packetdata p) a k.
Proof.
  intros Hp Hn H4 H64 Hs. pose proof (s_length _ _ _ Hp) as Hl. unfold FinishPacket.
  destruct (hash_packet_ok (put p 32 setid) n type) as (p' & E & Hp' & Hi & Hlen & Hk); [apply started_put; [done|lia|left; lia]|done|done|done|].
  exists p'. rewrite length_put in Hlen by lia. split; [done|]. split; [done|]. split; [done|]. split; [done|]. split.
  - unfold h_setid. rewrite written_slice by (rewrite (s_packetlength _ _ _ Hp'); lia). rewrite Hk by lia. apply put_same; lia.
  - intros a k Ha. rewrite Hk by lia. apply put_other; lia.
Qed.

(** ** [MainPacket] *)

Lemma store_fileids_ok ids p n type off : started p n type → (64 ≤ off)%nat → Forall (λ id, length id = 16%nat) ids →
  (off + 16 * length ids ≤ n)%nat →
  started (store_fileids p off ids) n type ∧ length (packetdata (store_fileids p off ids)) = length (packetdata p) ∧
  (∀ a k, (a + k ≤ off)%nat → slice (packetdata (store_fileids p off ids)) a k = slice (packetdata p) a k) ∧
  (∀ i id, ids !! i = Some id → slice (packetdata (store_fileids p off ids)) (off + 16 * i) 16 = id).
Proof.
  revert p off. induction ids as [|id ids IH]; intros p off Hp Ho HF Hle; cbn [store_fileids length] in *; [by split_and!|].
  apply Forall_cons in HF as [Hid HF]. pose proof (s_length _ _ _ Hp) as Hl.
  assert (started (put p off id) n type) as Hp1 by (apply started_put; [done|lia|by right]).
  destruct (IH (put p off id) (off + 16)%nat Hp1 ltac:(lia) HF ltac:(lia)) as (H1 & H2 & H3 & H4). rewrite length_put in H2 by lia.
  split_and!; [done|done| |].
  - intros a k Hak. rewrite H3 by lia. apply put_other; lia.
  - intros [|i] x Hx; cbn in Hx.
    + injection Hx as <-. rewrite Nat.mul_0_r, Nat.add_0_r, H3 by lia. apply put_same; lia.
    + specialize (H4 i x Hx). by replace (off + 16 * S i)%nat with (off + 16 + 16 * i)%nat by lia.
Qed.

Lemma MainPacket_Create_ok ids blocksize : Forall hash_ok ids → in_range 64 blocksize → Z.of_nat (length ids) ≤ 32768 →
  let n := (76 + length ids * 16)%nat in
  ∃ p, MainPacket_Create scratch ids blocksize = Some p ∧ started p n mainpacket_type ∧ intact (written p) ∧
    h_setid (written p) = md5 (drop 64 (written p)) ∧
    slice (packetdata p) 64 8 = le_split 8 blocksize ∧ slice (packetdata p) 72 4 = le_split 4 (Z.of_nat (length ids)) ∧
    ∀ i id, fileid_order ids !! i = Some id → slice (packetdata p) (76 + 16 * i) 16 = id.
Proof.
  intros HF Hb Hle n. unfold MainPacket_Create. change (main_size + length ids * 16)%nat with n. fold (fileid_order ids).
  set (p0 := start_packet _ _). assert (started p0 n mainpacket_type ∧ length (packetdata p0) = n + 0)%nat as [H0 L0]
    by (apply start_packet_ok; [done|lia]). rewrite Nat.add_0_r in L0.
  clearbody p0. set (p1 := put p0 64 _). set (p2 := put p1 72 _).
  assert (started p1 n mainpacket_type) as H1 by (apply started_put; rewrite ?length_le_split; [done|lia|right; lia]).
  assert (length (packetdata p1) = n) as L1 by (unfold p1; rewrite length_put; rewrite ?length_le_split; lia).
  assert (started p2 n mainpacket_type) as H2 by (apply started_put; rewrite ?length_le_split; [done|lia|right; lia]).
  assert (length (packetdata p2) = n) as L2 by (unfold p2; rewrite length_put; rewrite ?length_le_split; lia).
  assert (length (fileid_order ids) = length ids) as Lo by (by rewrite fileid_order_perm).
  destruct (store_fileids_ok (fileid_order ids) p2 n mainpacket_type main_size H2) as (H3 & L3 & Hold & Hids).
  { unfold main_size. lia. } { rewrite fileid_order_perm. eapply Forall_impl; [exact HF|]. by intros x []. } { unfold main_size. lia. }
  set (p3 := store_fileids p2 main_size (fileid_order ids)) in *. rewrite context_hash_ok. cbn [mbind option_bind].
  destruct (FinishPacket_ok p3 n mainpacket_type (md5 (slice (packetdata p3) 64 (packetlength p3 - 64)))) as (p4 & E & H4 & Hi & L4 & Hs & Hk);
    [done|lia| |lia|apply length_md5|].
  { unfold n. replace (76 + length ids * 16)%nat with ((19 + length ids * 4) * 4)%nat by lia. apply Nat.Div0.mod_mul. }
  exists p4. split; [exact E|]. pose proof (s_packetlength _ _ _ H3) as E3. pose proof (s_packetlength _ _ _ H4) as E4. split; [done|].
  split; [done|]. split_and!.
  - rewrite Hs. f_equal. rewrite <- (slice_all (written p4) 64 (n - 64)) by (rewrite length_written; lia).
    rewrite written_slice by lia. by rewrite Hk, E3 by lia.
  - rewrite Hk, Hold by (unfold main_size; lia). unfold p2. rewrite put_other by (rewrite ?length_le_split; lia).
    apply put_same; rewrite length_le_split; lia.
  - rewrite Hk, Hold by (unfold main_size; lia). apply put_same; rewrite length_le_split; lia.
  - intros i id Hid. rewrite Hk by lia. by apply Hids.
Qed.

(** ** [DescriptionPacket] *)

(** The fields of a description packet as they are set one after another. *)
Record describes (p : CriticalPacket) (name : list Z) (size : Z) : Prop := {
  de_started : started p (120 + padded_size (length name)) filedescriptionpacket_type;
  de_length : length (packetdata p) = (120 + padded_size (length name) + 4)%nat;
  de_size : slice (packetdata p) 112 8 = le_split 8 size;
  de_name : drop 120 (packetdata p) = name ++ replicate (padded_size (length name) - length name + 4) 0;
}.

Lemma describes_put p name size off bytes : describes p name size → (16 ≤ off ∧ off + length bytes ≤ 48 ∨ 64 ≤ off ∧ off + length bytes ≤ 112)%nat →
  describes (put p off bytes) name size.
Proof.
  intros [H1 H2 H3 H4] Ho. split.
  - apply started_put; [done|lia|lia].
  - rewrite length_put; lia.
  - rewrite put_other by lia. done.
  - rewrite drop_put by lia. done.
Qed.

Lemma DescriptionPacket_Create_ok name size : Z.of_nat (length name) < 2 ^ 31 → describes (DescriptionPacket_Create name size) name size.
Proof.
  intros Hn. destruct (padded_size_ok (length name) Hn) as [Hp _]. unfold DescriptionPacket_Create.
  change (description_size + padded_size (length name))%nat with (120 + padded_size (length name))%nat.
  destruct (start_packet_ok (120 + padded_size (length name)) 4 filedescriptionpacket_type) as [H0 L0]; [done|lia|].
  set (p0 := start_packet _ _) in *. set (p1 := put p0 112 (le_split 8 size)).
  assert (length (packetdata p1) = 120 + padded_size (length name) + 4)%nat as L1 by (unfold p1; rewrite length_put; rewrite ?length_le_split; lia).
  assert (started p1 (120 + padded_size (length name)) filedescriptionpacket_type) as H1.
  { apply started_put; rewrite ?length_le_split; [done|lia|right; lia]. }
  split.
  - apply started_put; [done|lia|right; lia].
  - rewrite length_put; lia.
  - rewrite put_other by lia. apply put_same; rewrite length_le_split; lia.
  - unfold put at 1. cbn [packetdata]. unfold memcpy. rewrite drop_app_length' by (rewrite length_take; lia). f_equal.
    rewrite <- drop_drop. unfold p1. rewrite drop_put by (rewrite ?length_le_split; lia).
    replace (drop 120 (packetdata p0)) with (drop 56 (drop 64 (packetdata p0))) by (by rewrite drop_drop).
    unfold p0. rewrite start_packet_zeros by (done || lia). rewrite !drop_replicate. f_equal. lia.
Qed.

(** The file id is the hash of the 16k hash, the size and the name. *)
Lemma ComputeFileId_ok p name size : describes p name size → Forall (λ c, c ≠ 0) name → Z.of_nat (length name) < 2 ^ 31 →
  ComputeFileId scratch p = Some (put p 64 (md5 (slice (packetdata p) 96 16 ++ le_split 8 size ++ name))).
Proof.
  intros [H1 H2 H3 H4] HF Hn. destruct (padded_size_ok _ Hn) as [Hp _]. unfold ComputeFileId.
  rewrite H4, c_string_zeros by (done || lia). rewrite context_hash_ok. cbn [mbind option_bind]. do 3 f_equal.
  replace (24 + length name)%nat with (16 + (8 + length name))%nat by lia. rewrite !slice_app. f_equal.
  change (slice (packetdata p) (96 + 16) 8) with (slice (packetdata p) 112 8). rewrite H3. f_equal.
  unfold slice. change (96 + 16 + 8)%nat with 120%nat. rewrite H4. apply take_app_length.
Qed.

(** ** [VerificationPacket] *)

(** The hashes of the blocks are stored one after another. *)
Fixpoint set_entries (p : CriticalPacket) (blocknumber : nat) (entries : list (list Z * Z)) : CriticalPacket :=
  match entries with
  | [] => p
  | (hash, crc) :: entries => set_entries (SetBlockHashAndCRC p blocknumber hash crc) (S blocknumber) entries
  end.

Definition entry_fits (v : list Z * Z) : Prop := length v.1 = 16%nat ∧ in_range 32 v.2.

Lemma set_entries_ok entries p n type k : started p n type → Forall entry_fits entries → (80 + 20 * (k + length entries) ≤ n)%nat →
  started (set_entries p k entries) n type ∧
  (∀ a j, (a + j ≤ 80 + 20 * k)%nat → slice (packetdata (set_entries p k entries)) a j = slice (packetdata p) a j) ∧
  (∀ i hash crc, entries !! i = Some (hash, crc) →
    slice (packetdata (set_entries p k entries)) (80 + 20 * (k + i)) 16 = hash ∧
    slice (packetdata (set_entries p k entries)) (80 + 20 * (k + i) + 16) 4 = le_split 4 crc).
Proof.
  revert p k. induction entries as [|[hash crc] entries IH]; intros p k Hp HF Hle; cbn [set_entries length] in *; [by split_and!|].
  apply Forall_cons in HF as [[Hh Hc] HF]. cbn [fst snd] in Hh, Hc. pose proof (s_length _ _ _ Hp) as Hl.
  set (p1 := put p (80 + 20 * k) hash). set (p2 := put p1 (80 + 20 * k + 16) (le_split 4 crc)).
  assert (started p1 n type) as Hp1 by (apply started_put; [done|lia|right; lia]). pose proof (s_length _ _ _ Hp1) as Hl1.
  assert (started p2 n type) as Hp2 by (apply started_put; rewrite ?length_le_split; [done|lia|right; lia]).
  change (SetBlockHashAndCRC p k hash crc) with p2. destruct (IH p2 (S k) Hp2 HF ltac:(lia)) as (H1 & H2 & H3). split_and!; [done| |].
  - intros a j Haj. rewrite H2 by lia. unfold p2. rewrite put_other by (rewrite ?length_le_split; lia). unfold p1. by rewrite put_other by lia.
  - intros [|i] h c Hx; cbn in Hx.
    + injection Hx as <- <-. rewrite Nat.add_0_r, !H2 by lia. split.
      * unfold p2. rewrite put_other by (rewrite ?length_le_split; lia). apply put_same; lia.
      * apply put_same; rewrite length_le_split; lia.
    + replace (k + S i)%nat with (S k + i)%nat by lia. by apply H3.
Qed.
End Create.

(** ** Properties *)

(** C31: a main packet can be read back.  For any ids of at most 32768 files and any block size
    that is a positive multiple of four, the packet that [Create] makes is intact, its set id
    is the MD5 of its body, and [Load] accepts it with the same block size and number of
    files and with the file ids in increasing order, none lost or added. *)
Theorem main_packet_roundtrip (scratch : MD5Single) (ids : list (list Z)) (blocksize : Z) :
  length (tmp scratch) = 64%nat → Forall hash_ok ids → 0 < blocksize < 2 ^ 64 → blocksize mod 4 = 0 → Z.of_nat (length ids) ≤ 32768 →
  ∃ p m sorted, MainPacket_Create scratch ids blocksize = Some p ∧ intact (written p) ∧ parse_main (written p) = Some m ∧
    h_type (written p) = mainpacket_type ∧ h_setid (written p) = md5 (drop 64 (written p)) ∧
    m_blocksize m = blocksize ∧ m_totalfilecount m = Z.of_nat (length ids) ∧ m_recoverablefilecount m = Z.of_nat (length ids) ∧
    sorted ≡ₚ ids ∧ Sorted (λ a b, le_join a ≤ le_join b) sorted ∧
    ∀ i id, sorted !! i = Some id → MainPacket_FileId m i = id.
Proof.
  intros Hs HF Hb H4 Hle.
  destruct (MainPacket_Create_ok scratch Hs ids blocksize HF ltac:(split; lia) Hle) as (p & E & Hp & Hi & Hset & Hbs & Hcnt & Hids).
  set (n := (76 + length ids * 16)%nat) in *.
  pose proof (s_packetlength _ _ _ Hp) as El. pose proof (s_length _ _ _ Hp) as Hl.
  assert (length (written p) = n) as Hw by (rewrite length_written; lia).
  assert (h_length (written p) = Z.of_nat n) as Hlen by (by rewrite (p_length _ Hi), Hw).
  exists p. eexists _, (fileid_order ids). split; [exact E|]. split; [done|]. split.
  { unfold parse_main, main_finish, main_length_ok. rewrite Hlen, !written_slice, Hbs, Hcnt by lia.
    rewrite !le_join_split by (split; [lia|]; cbn; lia).
    replace ((Z.of_nat n - 76) mod 16) with 0 by (replace (Z.of_nat n - 76) with (Z.of_nat (length ids) * 16) by lia; by rewrite Z.mod_mul).
    replace ((Z.of_nat n - 76) / 16) with (Z.of_nat (length ids)) by (replace (Z.of_nat n - 76) with (Z.of_nat (length ids) * 16) by lia; by rewrite Z.div_mul).
    rewrite (proj2 (Z.ltb_ge (Z.of_nat n) 76)) by lia. rewrite (proj2 (Z.ltb_ge (76 + 32768 * 16) (Z.of_nat n))) by lia.
    rewrite wrap_small by (split; lia). rewrite !Z.ltb_irrefl. change 3 with (Z.ones 2). rewrite Z.land_ones by lia. change (2 ^ 2) with 4. rewrite H4.
    rewrite (proj2 (Z.eqb_neq blocksize 0)) by lia. reflexivity. }
  cbn [m_blocksize m_totalfilecount m_recoverablefilecount]. split_and!; try done.
  - unfold h_type. rewrite written_slice by lia. apply Hp.
  - apply fileid_order_perm.
  - by apply fileid_order_sorted.
  - intros i id Hid. unfold MainPacket_FileId. cbn [m_data]. apply lookup_lt_Some in Hid as Hlt. rewrite fileid_order_perm in Hlt.
    rewrite written_slice by (unfold main_size; lia). by apply Hids.
Qed.

Definition example_context : MD5Single := {| tmp := replicate 64 9; md5State := md5_init; dataLen := 1 |}.

Lemma main_packet_roundtrip_witness :
  ∃ p m sorted, MainPacket_Create example_context [replicate 16 5; replicate 16 2] 16 = Some p ∧ intact (written p) ∧ parse_main (written p) = Some m ∧
    h_type (written p) = mainpacket_type ∧ h_setid (written p) = md5 (drop 64 (written p)) ∧
    m_blocksize m = 16 ∧ m_totalfilecount m = Z.of_nat (length [replicate 16 5; replicate 16 2]) ∧
    m_recoverablefilecount m = Z.of_nat (length [replicate 16 5; replicate 16 2]) ∧
    sorted ≡ₚ [replicate 16 5; replicate 16 2] ∧ Sorted (λ a b, le_join a ≤ le_join b) sorted ∧
    ∀ i id, sorted !! i = Some id → MainPacket_FileId m i = id.
Proof.
  apply (main_packet_roundtrip example_context [replicate 16 5; replicate 16 2] 16); [reflexivity| |lia|reflexivity|cbn; lia].
  repeat constructor; cbn; lia.
Defined.

(** A description packet with all its fields set, when finished, loads with them. *)
Lemma description_finished scratch p3 name size hash16k hashfull fileid setid :
  length (tmp scratch) = 64%nat → name ≠ [] → Forall (λ c, c ≠ 0) name → Z.of_nat (length name) ≤ 99997 → in_range 64 size →
  length setid = 16%nat → (size ≤ 16384 → hash16k = hashfull) →
  describes p3 name size → slice (packetdata p3) 96 16 = hash16k → slice (packetdata p3) 80 16 = hashfull →
  slice (packetdata p3) 64 16 = fileid →
  ∃ q d, FinishPacket scratch p3 setid = Some q ∧ intact (written q) ∧ h_type (written q) = filedescriptionpacket_type ∧
    h_setid (written q) = setid ∧ parse_description (written q) = Some d ∧
    DescriptionPacket_FileSize d = size ∧ DescriptionPacket_Hash16k d = hash16k ∧ DescriptionPacket_HashFull d = hashfull ∧
    DescriptionPacket_FileId d = fileid ∧ d_filename d = Latin1ToUtf8 name.
Proof.
  intros Hs Hne HF Hn Hsz Hset Hsmall D3 E16 Efull Eid. destruct (padded_size_ok (length name) ltac:(lia)) as [Hp H4].
  assert (0 < length name)%nat as Hpos by (destruct name; [done|cbn; lia]).
  set (n := (120 + padded_size (length name))%nat).
  destruct (FinishPacket_ok scratch Hs p3 n filedescriptionpacket_type setid) as (q & Eq & Hq & Hi & Lq & Hsid & Hk);
    [apply D3|lia|unfold n; replace (120 + padded_size (length name))%nat with (padded_size (length name) + 30 * 4)%nat by lia;
     by rewrite Nat.Div0.mod_add|lia|done|].
  destruct D3 as [S3 L3 Z3 N3]. pose proof (s_packetlength _ _ _ Hq) as Eq'. assert (length (written q) = n) as Hw by (rewrite length_written; lia).
  assert (∀ a k, (48 ≤ a)%nat → (a + k ≤ n)%nat → slice (written q ++ replicate 4 0) a k = slice (packetdata p3) a k) as Hf.
  { intros a k Ha Hak. rewrite slice_app_l, written_slice, Hk by lia. done. }
  assert (c_string (drop 120 (written q ++ replicate 4 0)) = name) as En.
  { rewrite drop_app_le by lia. rewrite <- (slice_all (written q) 120 (n - 120)), written_slice, Hk by lia. unfold slice. rewrite N3.
    rewrite take_app_ge, take_replicate, <- app_assoc, <- replicate_add by lia. apply c_string_zeros; [done|lia]. }
  exists q. eexists. split; [done|]. split; [done|]. split.
  { unfold h_type. rewrite written_slice by lia. apply Hq. } split; [done|]. split.
  { unfold parse_description. rewrite (p_length _ Hi), Hw.
    assert (description_length_ok (Z.of_nat n) = true) as -> by (unfold description_length_ok;
      rewrite (proj2 (Z.leb_gt _ _)), (proj2 (Z.ltb_ge _ _)) by lia; done). cbn [negb]. unfold description_finish.
    set (d := {| d_data := _; d_filename := _ |}).
    assert ((DescriptionPacket_FileSize d <=? 16384) && negb (md5_equal (DescriptionPacket_Hash16k d) (DescriptionPacket_HashFull d)) = false) as ->;
      [|reflexivity].
    unfold DescriptionPacket_FileSize, DescriptionPacket_Hash16k, DescriptionPacket_HashFull, d, md5_equal. cbn [d_data]. rewrite !Hf by lia.
    rewrite Z3, le_join_split by done. destruct (Z.leb_spec size 16384) as [Hle|]; [|done].
    rewrite E16, Efull, bool_decide_eq_true_2 by auto. done. }
  unfold DescriptionPacket_FileSize, DescriptionPacket_Hash16k, DescriptionPacket_HashFull, DescriptionPacket_FileId.
  cbn [d_data d_filename]. rewrite !Hf by lia. split_and!.
  - rewrite Z3. by apply le_join_split.
  - done.
  - done.
  - done.
  - by rewrite En.
Qed.

(** A description packet can be read back.  For a file with a name of at most 99,997
    bytes and the hashes stored in it, the finished packet is intact, carries the set id, and
    is accepted by [Load] with the same size and hashes; the file id is the MD5 of 16k hash,
    size and name; the name is the one stored, passed through [Latin1ToUtf8]. *)
Theorem description_packet_roundtrip (scratch : MD5Single) (name : list Z) (size : Z) (hash16k hashfull setid : list Z) :
  length (tmp scratch) = 64%nat → name ≠ [] → Forall (λ c, c ≠ 0) name → Z.of_nat (length name) ≤ 99997 → in_range 64 size →
  length hash16k = 16%nat → length hashfull = 16%nat → length setid = 16%nat → (size ≤ 16384 → hash16k = hashfull) →
  ∃ p q d, ComputeFileId scratch (SetHashFull (SetHash16k (DescriptionPacket_Create name size) hash16k) hashfull) = Some p ∧
    FinishPacket scratch p setid = Some q ∧ intact (written q) ∧ h_type (written q) = filedescriptionpacket_type ∧
    h_setid (written q) = setid ∧ parse_description (written q) = Some d ∧
    DescriptionPacket_FileSize d = size ∧ DescriptionPacket_Hash16k d = hash16k ∧ DescriptionPacket_HashFull d = hashfull ∧
    DescriptionPacket_FileId d = md5 (hash16k ++ le_split 8 size ++ name) ∧ d_filename d = Latin1ToUtf8 name.
Proof.
  intros Hs Hne HF Hn Hsz H16 Hfull Hset Hsmall. destruct (padded_size_ok (length name) ltac:(lia)) as [Hp H4].
  assert (0 < length name)%nat as Hpos by (destruct name; [done|cbn; lia]).
  pose proof (DescriptionPacket_Create_ok scratch Hs name size ltac:(lia)) as D0. set (p0 := DescriptionPacket_Create name size) in *.
  pose proof (describes_put scratch Hs p0 name size 96 hash16k D0 ltac:(lia)) as D1. set (p1 := put p0 96 hash16k) in *.
  pose proof (describes_put scratch Hs p1 name size 80 hashfull D1 ltac:(lia)) as D2. set (p2 := put p1 80 hashfull) in *.
  change (SetHashFull (SetHash16k p0 hash16k) hashfull) with p2. rewrite (ComputeFileId_ok scratch Hs p2 name size D2) by (done || lia).
  assert (slice (packetdata p2) 96 16 = hash16k) as E16.
  { pose proof (de_length _ _ _ D0). pose proof (de_length _ _ _ D1). unfold p2. rewrite put_other by lia. apply put_same; lia. }
  assert (slice (packetdata p2) 80 16 = hashfull) as Efull by (pose proof (de_length _ _ _ D1); apply put_same; lia).
  rewrite E16. set (fileid := md5 _). assert (length fileid = 16%nat) as Hid by apply length_md5.
  pose proof (describes_put scratch Hs p2 name size 64 fileid D2 ltac:(lia)) as D3. set (p3 := put p2 64 fileid) in *.
  pose proof (de_length _ _ _ D2) as L2.
  destruct (description_finished scratch p3 name size hash16k hashfull fileid setid) as (q & d & H); try done.
  by exists p3, q, d.
Qed.

(** A name outside ASCII, stored as UTF-8, is not the name that is loaded. *)
Lemma description_packet_roundtrip_witness :
  ∃ p q d, ComputeFileId example_context (SetHashFull (SetHash16k (DescriptionPacket_Create [0xc3; 0xa9; 46; 116] 20000) (replicate 16 1)) (replicate 16 2)) = Some p ∧
    FinishPacket example_context p (replicate 16 3) = Some q ∧ intact (written q) ∧ h_type (written q) = filedescriptionpacket_type ∧
    h_setid (written q) = replicate 16 3 ∧ parse_description (written q) = Some d ∧
    DescriptionPacket_FileSize d = 20000 ∧ DescriptionPacket_Hash16k d = replicate 16 1 ∧ DescriptionPacket_HashFull d = replicate 16 2 ∧
    DescriptionPacket_FileId d = md5 (replicate 16 1 ++ le_split 8 20000 ++ [0xc3; 0xa9; 46; 116]) ∧ d_filename d = Latin1ToUtf8 [0xc3; 0xa9; 46; 116].
Proof.
  apply (description_packet_roundtrip example_context [0xc3; 0xa9; 46; 116] 20000 (replicate 16 1) (replicate 16 2) (replicate 16 3));
    try reflexivity; [discriminate|repeat constructor; discriminate|cbn; lia|split; lia|lia].
Defined.

(** A verification packet with all its fields set, when finished, loads with them. *)
Lemma verification_finished scratch p2 entries fileid setid :
  length (tmp scratch) = 64%nat → entries ≠ [] → Forall entry_fits entries → Z.of_nat (length entries) ≤ 32768 → length setid = 16%nat →
  started p2 (80 + length entries * 20) fileverificationpacket_type → slice (packetdata p2) 64 16 = fileid →
  (∀ i hash crc, entries !! i = Some (hash, crc) → slice (packetdata p2) (80 + 20 * i) 16 = hash ∧
    slice (packetdata p2) (80 + 20 * i + 16) 4 = le_split 4 crc) →
  ∃ p v, FinishPacket scratch p2 setid = Some p ∧
    intact (written p) ∧ h_type (written p) = fileverificationpacket_type ∧ h_setid (written p) = setid ∧
    parse_verification (written p) = Some v ∧ v_blockcount v = Z.of_nat (length entries) ∧ VerificationPacket_FileId v = fileid ∧
    ∀ i entry, entries !! i = Some entry → VerificationEntry v i = entry.
Proof.
  intros Hs Hne HF Hn Hset S2 Hid Hent. set (n := (80 + length entries * 20)%nat) in *.
  assert (0 < length entries)%nat as Hpos by (destruct entries; [done|cbn; lia]).
  destruct (FinishPacket_ok scratch Hs p2 n fileverificationpacket_type setid S2) as (p & Ep & Hp & Hi & Lp & Hsid & Hk); [lia| |lia|done|].
  { unfold n. replace (80 + length entries * 20)%nat with ((20 + length entries * 5) * 4)%nat by lia. apply Nat.Div0.mod_mul. }
  pose proof (s_packetlength _ _ _ Hp) as El. pose proof (s_length _ _ _ Hp) as Hl. assert (length (written p) = n) as Hw by (rewrite length_written; lia).
  assert (∀ a k, (48 ≤ a)%nat → (a + k ≤ n)%nat → slice (written p) a k = slice (packetdata p2) a k) as Hf.
  { intros a k Ha Hak. rewrite written_slice, Hk by lia. done. }
  assert (Z.of_nat n - 80 = Z.of_nat (length entries) * 20) as En by lia.
  exists p. eexists. split; [done|]. split; [done|]. split; [rewrite <- (s_type _ _ _ Hp); unfold h_type; apply written_slice; lia|].
  split; [done|]. split.
  { unfold parse_verification, verification_length_ok. rewrite (p_length _ Hi), Hw, En, Z.mod_mul by done.
    rewrite (proj2 (Z.leb_gt _ _)), (proj2 (Z.ltb_ge _ (Z.of_nat n))) by lia. reflexivity. }
  unfold verification_finish, VerificationPacket_FileId, VerificationEntry. cbn [v_blockcount v_data].
  rewrite (p_length _ Hi), Hw, En, Z.div_mul by done. split_and!.
  - apply wrap_small. split; lia.
  - rewrite Hf by lia. done.
  - intros i [hash crc] Hx. pose proof (lookup_lt_Some _ _ _ Hx) as Hlt. destruct (Hent i hash crc Hx) as [E1 E2].
    rewrite !Hf, E1, E2 by lia. f_equal. apply le_join_split. rewrite Forall_lookup in HF. by apply (HF i _ Hx).
Qed.

(** A verification packet can be read back.  For up to 32768 blocks, the packet created
    with that number of entries, given a file id and the hash and CRC of every block, is
    intact when finished, and [Load] accepts it with the same number of blocks, the file id,
    and exactly those entries. *)
Theorem verification_packet_roundtrip (scratch : MD5Single) (entries : list (list Z * Z)) (fileid setid : list Z) :
  length (tmp scratch) = 64%nat → entries ≠ [] → Forall entry_fits entries → Z.of_nat (length entries) ≤ 32768 →
  length fileid = 16%nat → length setid = 16%nat →
  ∃ p v, FinishPacket scratch (set_entries (VerificationPacket_SetFileId (VerificationPacket_Create (length entries)) fileid) 0 entries) setid = Some p ∧
    intact (written p) ∧ h_type (written p) = fileverificationpacket_type ∧ h_setid (written p) = setid ∧
    parse_verification (written p) = Some v ∧ v_blockcount v = Z.of_nat (length entries) ∧ VerificationPacket_FileId v = fileid ∧
    ∀ i entry, entries !! i = Some entry → VerificationEntry v i = entry.
Proof.
  intros Hs Hne HF Hn Hid Hset. set (n := (80 + length entries * 20)%nat). assert (0 < length entries)%nat as Hpos by (destruct entries; [done|cbn; lia]).
  destruct (start_packet_ok n 0 fileverificationpacket_type) as [S0 L0]; [done|lia|]. rewrite Nat.add_0_r in L0.
  unfold VerificationPacket_Create, VerificationPacket_SetFileId. change (verification_size + length entries * verification_entry_size)%nat with n.
  set (p0 := start_packet _ _) in *. set (p1 := put p0 64 fileid).
  assert (started p1 n fileverificationpacket_type) as S1 by (apply started_put; [done|lia|right; lia]).
  destruct (set_entries_ok scratch Hs entries p1 n fileverificationpacket_type 0 S1 HF ltac:(lia)) as (S2 & Hold & Hent).
  set (p2 := set_entries p1 0 entries) in *.
  apply (verification_finished scratch); try done.
  rewrite Hold by lia. apply put_same; lia.
Qed.

Lemma verification_packet_roundtrip_witness :
  ∃ p v, FinishPacket example_context (set_entries (VerificationPacket_SetFileId
      (VerificationPacket_Create (length [(replicate 16 1, 7); (replicate 16 2, 2 ^ 32 - 1)])) (replicate 16 4)) 0
      [(replicate 16 1, 7); (replicate 16 2, 2 ^ 32 - 1)]) (replicate 16 3) = Some p ∧
    intact (written p) ∧ h_type (written p) = fileverificationpacket_type ∧ h_setid (written p) = replicate 16 3 ∧
    parse_verification (written p) = Some v ∧ v_blockcount v = Z.of_nat (length [(replicate 16 1, 7); (replicate 16 2, 2 ^ 32 - 1)]) ∧
    VerificationPacket_FileId v = replicate 16 4 ∧
    ∀ i entry, [(replicate 16 1, 7); (replicate 16 2, 2 ^ 32 - 1)] !! i = Some entry → VerificationEntry v i = entry.
Proof.
  apply (verification_packet_roundtrip example_context [(replicate 16 1, 7); (replicate 16 2, 2 ^ 32 - 1)] (replicate 16 4) (replicate 16 3));
    try reflexivity; [discriminate| |cbn; lia].
  repeat constructor; cbn; lia.
Defined.
