(* ===== verification/PacketScan.v ===== *)
(** * PacketScan.v: [Par2Repairer::LoadPacketsFromFile] (src/par2repairer.cpp)

    The search of a file for packets, and the collection of what they contain.  Progress
    output and the cancellation flag are not modelled; 64-bit offsets wrap around. *)

From stdpp Require Import gmap.
From S2P Require Import Prelude Bytes Md5 Md5Spec Md5Single DiskFile HashTable FileName Packets.

(** ** The packets that were found *)

(** A source file, known from its description and its verification packet *)
Record SourceFile := { sf_description : option DescriptionPacket; sf_verification : option VerificationPacket }.

Record Par2Repairer := {
  firstpacket : bool; setid : list Z;
  recoverypacketmap : Zmap RecoveryPacket;
  sourcefilemap : gmap (list Z) SourceFile;
  mainpacket : option MainPacket;
  creatorpacket : option (list Z);
}.

Definition set_recovery (r : Par2Repairer) (m : Zmap RecoveryPacket) : Par2Repairer :=
  {| firstpacket := firstpacket r; setid := setid r; recoverypacketmap := m; sourcefilemap := sourcefilemap r;
     mainpacket := mainpacket r; creatorpacket := creatorpacket r |}.
Definition set_sources (r : Par2Repairer) (m : gmap (list Z) SourceFile) : Par2Repairer :=
  {| firstpacket := firstpacket r; setid := setid r; recoverypacketmap := recoverypacketmap r; sourcefilemap := m;
     mainpacket := mainpacket r; creatorpacket := creatorpacket r |}.
Definition set_main (r : Par2Repairer) (m : MainPacket) : Par2Repairer :=
  {| firstpacket := firstpacket r; setid := setid r; recoverypacketmap := recoverypacketmap r; sourcefilemap := sourcefilemap r;
     mainpacket := Some m; creatorpacket := creatorpacket r |}.
Definition set_creator (r : Par2Repairer) (c : list Z) : Par2Repairer :=
  {| firstpacket := firstpacket r; setid := setid r; recoverypacketmap := recoverypacketmap r; sourcefilemap := sourcefilemap r;
     mainpacket := mainpacket r; creatorpacket := Some c |}.

(** What [LoadRecoveryPacket], [LoadDescriptionPacket] and the others do with a packet that
    was read: whether it was new, and the collection *)
Definition add_recovery (r : Par2Repairer) (packet : option RecoveryPacket) : bool * Par2Repairer :=
  match packet with
  | None => (false, r)
  | Some p =>
      match recoverypacketmap r !! Exponent p with
      | Some _ => (false, r)
      | None => (true, set_recovery r (<[Exponent p := p]> (recoverypacketmap r)))
      end
  end.

Definition add_description (r : Par2Repairer) (packet : option DescriptionPacket) : bool * Par2Repairer :=
  match packet with
  | None => (false, r)
  | Some p =>
      let fileid := DescriptionPacket_FileId p in
      match sourcefilemap r !! fileid with
      | Some sourcefile =>
          match sf_description sourcefile with
          | Some _ => (false, r)
          | None => (true, set_sources r (<[fileid := {| sf_description := Some p; sf_verification := sf_verification sourcefile |}]>
                                            (sourcefilemap r)))
          end
      | None => (true, set_sources r (<[fileid := {| sf_description := Some p; sf_verification := None |}]> (sourcefilemap r)))
      end
  end.

Definition add_verification (r : Par2Repairer) (packet : option VerificationPacket) : bool * Par2Repairer :=
  match packet with
  | None => (false, r)
  | Some p =>
      let fileid := VerificationPacket_FileId p in
      match sourcefilemap r !! fileid with
      | Some sourcefile =>
          match sf_verification sourcefile with
          | Some _ => (false, r)
          | None => (true, set_sources r (<[fileid := {| sf_description := sf_description sourcefile; sf_verification := Some p |}]>
                                            (sourcefilemap r)))
          end
      | None => (true, set_sources r (<[fileid := {| sf_description := None; sf_verification := Some p |}]> (sourcefilemap r)))
      end
  end.

Definition add_main (r : Par2Repairer) (packet : option MainPacket) : bool * Par2Repairer :=
  match packet with None => (false, r) | Some p => (true, set_main r p) end.
Definition add_creator (r : Par2Repairer) (packet : option (list Z)) : bool * Par2Repairer :=
  match packet with None => (false, r) | Some p => (true, set_creator r p) end.

Section Scan.
(** The largest piece of a read, the memory of a local hash context, the number of the file *)
Context (maxlength : Z) (scratch : MD5Single) (diskfile : nat).

(** [LoadRecoveryPacket], [LoadDescriptionPacket], [LoadVerificationPacket], [LoadMainPacket]
    and [LoadCreatorPacket] *)
Definition LoadRecoveryPacket (r : Par2Repairer) (d : DiskFile) (offset : Z) (header : list Z) : option (bool * Par2Repairer * DiskFile) :=
  '(packet, d) ← RecoveryPacket_Load maxlength diskfile d offset header; Some (add_recovery r packet, d).
Definition LoadDescriptionPacket (r : Par2Repairer) (d : DiskFile) (offset : Z) (header : list Z) : option (bool * Par2Repairer * DiskFile) :=
  '(packet, d) ← DescriptionPacket_Load maxlength d offset header; Some (add_description r packet, d).
Definition LoadVerificationPacket (r : Par2Repairer) (d : DiskFile) (offset : Z) (header : list Z) : option (bool * Par2Repairer * DiskFile) :=
  '(packet, d) ← VerificationPacket_Load maxlength d offset header; Some (add_verification r packet, d).
Definition LoadMainPacket (r : Par2Repairer) (d : DiskFile) (offset : Z) (header : list Z) : option (bool * Par2Repairer * DiskFile) :=
  match mainpacket r with
  | Some _ => Some (false, r, d)
  | None => '(packet, d) ← MainPacket_Load maxlength d offset header; Some (add_main r packet, d)
  end.
Definition LoadCreatorPacket (r : Par2Repairer) (d : DiskFile) (offset : Z) (header : list Z) : option (bool * Par2Repairer * DiskFile) :=
  match creatorpacket r with
  | Some _ => Some (false, r, d)
  | None => '(packet, d) ← CreatorPacket_Load maxlength d offset header; Some (add_creator r packet, d)
  end.

(** ** The search *)

(** The scan of the buffer for the magic value: [n] positions from [current] on *)
Fixpoint magic_scan (n : nat) (buffer : list Z) (current : nat) : nat :=
  match n with
  | O => current
  | S n => if bool_decide (h_magic (drop current buffer) = packet_magic) then current else magic_scan n buffer (S current)
  end.

(** The loop that looks for the next magic value: the offset and the header *)
Fixpoint skip_loop (fuel : nat) (d : DiskFile) (filesize buffersize offset : Z) (header : list Z) : option (Z * list Z * DiskFile) :=
  if wrap 64 (offset + 64) <=? filesize then
    match fuel with
    | O => None
    | S fuel =>
        let want := Z.min buffersize (filesize - offset) in
        '(ok, d, buffer) ← Read d offset want maxlength;
        if negb ok then Some (filesize, header, d) else
        let limit := Z.to_nat (want - 64) in
        let current := magic_scan (S limit) buffer 0 in
        let offset := wrap 64 (offset + Z.of_nat current) in
        if Nat.leb current limit then Some (offset, slice buffer current 64, d)
        else skip_loop fuel d filesize buffersize offset header
    end
  else Some (offset, header, d).

(** The loop that hashes the rest of the packet: where it stopped *)
Fixpoint packet_hash_loop (fuel : nat) (d : DiskFile) (buffersize current limit : Z) (context : MD5Single) : option (Z * MD5Single * DiskFile) :=
  if current <? limit then
    match fuel with
    | O => None
    | S fuel =>
        let want := Z.min buffersize (limit - current) in
        '(ok, d, buffer) ← Read d current want maxlength;
        if negb ok then Some (current, context, d) else
        packet_hash_loop fuel d buffersize (wrap 64 (current + want)) limit (update context buffer)
    end
  else Some (current, context, d).

(** The packets of the set, by type; the number of packets is counted *)
Definition dispatch (r : Par2Repairer) (d : DiskFile) (offset : Z) (header : list Z) : option (bool * Par2Repairer * DiskFile) :=
  if bool_decide (recoveryblockpacket_type = h_type header) then LoadRecoveryPacket r d offset header
  else if bool_decide (fileverificationpacket_type = h_type header) then LoadVerificationPacket r d offset header
  else if bool_decide (filedescriptionpacket_type = h_type header) then LoadDescriptionPacket r d offset header
  else if bool_decide (mainpacket_type = h_type header) then LoadMainPacket r d offset header
  else if bool_decide (creatorpacket_type = h_type header) then LoadCreatorPacket r d offset header
  else Some (false, r, d).

(** The set id of the first packet is that of the set. *)
Definition note_setid (r : Par2Repairer) (header : list Z) : Par2Repairer :=
  if firstpacket r then
    {| firstpacket := false; setid := h_setid header; recoverypacketmap := recoverypacketmap r; sourcefilemap := sourcefilemap r;
       mainpacket := mainpacket r; creatorpacket := creatorpacket r |}
  else r.

(** Whether the packet at [offset] is intact *)
Definition check_packet (fuel : nat) (d : DiskFile) (filesize buffersize offset : Z) (header : list Z) : option (bool * DiskFile) :=
  if (h_length header <? 64) || negb (Z.land (h_length header) 3 =? 0) || (filesize <? wrap 64 (offset + h_length header))
  then Some (false, d) else
  let limit := wrap 64 (offset + h_length header) in
  '(current, context, d) ← packet_hash_loop fuel d buffersize (wrap 64 (offset + 64)) limit (update (reset scratch) (slice header 32 32));
  if current <? limit then Some (false, d) else
  hash ← end_ context;
  Some (md5_equal hash (h_hash header), d).

(** The main loop: the number of new packets, and the collection *)
Fixpoint packet_loop (fuel : nat) (r : Par2Repairer) (d : DiskFile) (filesize buffersize offset : Z) (packets : nat)
    : option (nat * Par2Repairer * DiskFile) :=
  if wrap 64 (offset + 64) <=? filesize then
    match fuel with
    | O => None
    | S fuel' =>
        '(ok, d, header) ← Read d offset 64 maxlength;
        if negb ok then Some (packets, r, d) else
        '(offset, header, d) ←
          (if negb (bool_decide (packet_magic = h_magic header))
           then skip_loop fuel d filesize buffersize (wrap 64 (offset + 1)) header
           else Some (offset, header, d));
        if filesize <? wrap 64 (offset + 64) then Some (packets, r, d) else
        '(ok, d) ← check_packet fuel d filesize buffersize offset header;
        if negb ok then packet_loop fuel' r d filesize buffersize (wrap 64 (offset + 1)) packets else
        let r := note_setid r header in
        '(new, r, d) ← (if bool_decide (setid r = h_setid header) then dispatch r d offset header else Some (false, r, d));
        packet_loop fuel' r d filesize buffersize (wrap 64 (offset + h_length header)) (if (new : bool) then S packets else packets)
    end
  else Some (packets, r, d).

(** [LoadPacketsFromFile] once the file is open; the file is kept if packets were found *)
Definition LoadPacketsFromFile (fuel : nat) (r : Par2Repairer) (d : DiskFile) : option (bool * Par2Repairer * DiskFile) :=
  if 0 <? filesize d then
    '(packets, r, d) ← packet_loop fuel r d (filesize d) (Z.min 1048576 (filesize d)) 0 0;
    Some (Nat.ltb 0 packets, r, d)
  else Some (false, r, d).
End Scan.
