(* ===== verification/PacketScanSpec.v ===== *)
(** * PacketScanSpec.v: every intact packet of a file is found

    A file is a sequence of packets with other bytes between them.  The search is the fold
    of the handling of one packet over the packets in the file. *)

From stdpp Require Import gmap.
From S2P Require Import Prelude Bytes Md5 Md5Spec Md5Single DiskFile CheckSummerSpec HashTable FileName Packets PacketsSpec PacketScan.

(** ** What is done with a packet *)

(** The packet is parsed according to its type and collected. *)
Definition accept_type (diskfile : nat) (r : Par2Repairer) (offset : Z) (p : list Z) : bool * Par2Repairer :=
  if bool_decide (recoveryblockpacket_type = h_type p) then add_recovery r (parse_recovery diskfile offset p)
  else if bool_decide (fileverificationpacket_type = h_type p) then add_verification r (parse_verification p)
  else if bool_decide (filedescriptionpacket_type = h_type p) then add_description r (parse_description p)
  else if bool_decide (mainpacket_type = h_type p) then
    match mainpacket r with Some _ => (false, r) | None => add_main r (parse_main p) end
  else if bool_decide (creatorpacket_type = h_type p) then
    match creatorpacket r with Some _ => (false, r) | None => add_creator r (parse_creator p) end
  else (false, r).

(** A packet of another set is ignored. *)
Definition accept (diskfile : nat) (r : Par2Repairer) (offset : Z) (p : list Z) : bool * Par2Repairer :=
  let r := note_setid r p in
  if bool_decide (setid r = h_setid p) then accept_type diskfile r offset p else (false, r).

(** The packets of a file, each with the bytes before it: the number of new packets and the collection. *)
Fixpoint accept_all (diskfile : nat) (r : Par2Repairer) (pos : nat) (segs : list (list Z * list Z)) : nat * Par2Repairer :=
  match segs with
  | [] => (0%nat, r)
  | (junk, p) :: segs =>
      let pos := (pos + length junk)%nat in
      let '(new, r) := accept diskfile r (Z.of_nat pos) p in
      let '(n, r) := accept_all diskfile r (pos + length p) segs in
      ((if new then S n else n), r)
  end.

Fixpoint layout (segs : list (list Z * list Z)) (tail : list Z) : list Z :=
  match segs with [] => tail | (junk, p) :: segs => junk ++ p ++ layout segs tail end.

Section Scan.
Context (maxlength : Z) (scratch : MD5Single) (diskfile : nat) (file : list Z) (buffersize : nat).
Hypothesis Hmax : 0 < maxlength.
Hypothesis Hscratch : length (tmp scratch) = 64%nat.
Hypothesis Hsize : Z.of_nat (length file) ≤ MaxOffset.
Hypothesis Hbuf : (64 ≤ buffersize)%nat.

Local Abbreviation F := (length file).

Lemma read_at d off n : disk_is file d → (off + n ≤ F)%nat →
  ∃ d', Read d (Z.of_nat off) (Z.of_nat n) maxlength = Some (true, d', slice file off n) ∧ disk_is file d'.
Proof.
  intros [Hd Hc] Hle. pose proof (do_size _ Hd) as Hz. rewrite Hc in Hz. rewrite Read_ok by (done || lia). rewrite Hc, Nat2Z.id.
  eexists. split; [reflexivity|]. split; [apply at_offset_ok; [done|lia]|done].
Qed.

Lemma read_header d off : disk_is file d → (off + 64 ≤ F)%nat →
  ∃ d', Read d (Z.of_nat off) 64 maxlength = Some (true, d', slice file off 64) ∧ disk_is file d'.
Proof. intros. by apply (read_at d off 64). Qed.

Lemma wrap_off off n : (off + n ≤ F + 64)%nat → wrap 64 (Z.of_nat off + Z.of_nat n) = Z.of_nat (off + n).
Proof. intros. unfold MaxOffset in Hsize. rewrite wrap_small; [lia|]. split; [lia|]. change (2 ^ 64) with 18446744073709551616. lia. Qed.

Lemma wrap_off64 off : (off ≤ F)%nat → wrap 64 (Z.of_nat off + 64) = Z.of_nat (off + 64).
Proof. intros. apply (wrap_off off 64). lia. Qed.

Lemma wrap_off1 off : (off ≤ F)%nat → wrap 64 (Z.of_nat off + 1) = Z.of_nat (off + 1).
Proof. intros. apply (wrap_off off 1). lia. Qed.

(** ** The search for the magic value *)

Definition magic_at (i : nat) : Prop := slice file i 8 = packet_magic.
Definition no_magic (a b : nat) : Prop := ∀ i, (a ≤ i < b)%nat → (i + 64 ≤ F)%nat → ¬ magic_at i.

Lemma magic_scan_ok n buffer cur : let k := magic_scan n buffer cur in
  (cur ≤ k ≤ cur + n)%nat ∧ (∀ i, (cur ≤ i < k)%nat → slice buffer i 8 ≠ packet_magic) ∧
  ((k < cur + n)%nat → slice buffer k 8 = packet_magic).
Proof.
  revert cur. induction n as [|n IH]; intros cur; cbn [magic_scan]; [split_and!; lia|].
  unfold h_magic. change (slice (drop cur buffer) 0 8) with (slice buffer cur 8). case_bool_decide as E; [split_and!; done || lia|].
  destruct (IH (S cur)) as (H1 & H2 & H3). split; [lia|]. split.
  - intros i Hi. destruct (decide (i = cur)) as [->|Hne]; [done|]. apply H2. lia.
  - intros Hk. apply H3. lia.
Qed.

(** The next magic value from [o] on is at [q], or there is none. *)
Lemma skip_loop_ok fuel d o header : disk_is file d → (F + 1 ≤ fuel + o)%nat → (o ≤ F)%nat →
  (∀ q, (o ≤ q)%nat → (q + 64 ≤ F)%nat → magic_at q → no_magic o q →
    ∃ d', skip_loop maxlength fuel d (Z.of_nat F) (Z.of_nat buffersize) (Z.of_nat o) header = Some (Z.of_nat q, slice file q 64, d') ∧
      disk_is file d') ∧
  (no_magic o F →
    ∃ o' d' h, skip_loop maxlength fuel d (Z.of_nat F) (Z.of_nat buffersize) (Z.of_nat o) header = Some (Z.of_nat o', h, d') ∧
      disk_is file d' ∧ (F < o' + 64 ≤ F + 64)%nat).
Proof.
  revert d o. induction fuel as [|fuel IH]; intros d o Hd Hf Ho; cbn [skip_loop]; rewrite wrap_off64 by lia.
  { destruct (Z.leb_spec (Z.of_nat (o + 64)) (Z.of_nat F)); [lia|]. split; [lia|]. intros _. exists o, d, header. split; [done|]. split; [done|]. lia. }
  destruct (Z.leb_spec (Z.of_nat (o + 64)) (Z.of_nat F)) as [Hle|Hgt].
  2: { split; [lia|]. intros _. exists o, d, header. split; [done|]. split; [done|]. lia. }
  replace (Z.min (Z.of_nat buffersize) (Z.of_nat F - Z.of_nat o)) with (Z.of_nat (Nat.min buffersize (F - o))) by lia.
  set (want := Nat.min buffersize (F - o)). destruct (read_at d o want Hd ltac:(lia)) as (d1 & -> & Hd1).
  cbn [mbind option_bind negb]. replace (Z.to_nat (Z.of_nat want - 64)) with (want - 64)%nat by lia.
  destruct (magic_scan_ok (S (want - 64)) (slice file o want) 0) as (Hk & Hno & Hyes).
  set (k := magic_scan (S (want - 64)) (slice file o want) 0) in *.
  assert (∀ i, (i ≤ want - 64)%nat → slice (slice file o want) i 8 = slice file (o + i) 8) as Hsl by (intros; apply slice_slice; lia).
  rewrite wrap_off by lia. destruct (Nat.leb_spec k (want - 64)) as [Hfound|Hend].
  - assert (magic_at (o + k)) as Hm by (unfold magic_at; rewrite <- Hsl by lia; apply Hyes; lia).
    split.
    + intros q Hq1 Hq2 Hq3 Hq4. assert (q = o + k)%nat as ->.
      { destruct (lt_eq_lt_dec q (o + k)) as [[Hlt|Heq]|Hgt]; [|done|exfalso; apply (Hq4 (o + k)%nat); [lia|lia|done]].
        exfalso. apply (Hno (q - o)%nat); [lia|]. rewrite Hsl by lia. by replace (o + (q - o))%nat with q by lia. }
      exists d1. rewrite slice_slice by lia. done.
    + intros Hnone. exfalso. apply (Hnone (o + k)%nat); [lia|lia|done].
  - destruct (IH d1 (o + k)%nat Hd1 ltac:(lia) ltac:(lia)) as [IH1 IH2]. split.
    + intros q Hq1 Hq2 Hq3 Hq4. apply IH1; [|done|done|intros i Hi; apply Hq4; lia].
      destruct (decide (o + k ≤ q)%nat) as [|Hlt]; [done|]. exfalso. apply (Hno (q - o)%nat); [lia|]. rewrite Hsl by lia.
      by replace (o + (q - o))%nat with q by lia.
    + intros Hnone. apply IH2. intros i Hi. apply Hnone. lia.
Qed.

(** ** The check of a packet *)

Lemma packet_hash_loop_ok fuel d cur limit context D : disk_is file d → (cur ≤ limit ≤ F)%nat → (limit ≤ fuel + cur)%nat → md5_rep context D →
  ∃ context' d', packet_hash_loop maxlength fuel d (Z.of_nat buffersize) (Z.of_nat cur) (Z.of_nat limit) context
    = Some (Z.of_nat limit, context', d') ∧ disk_is file d' ∧ md5_rep context' (D ++ slice file cur (limit - cur)).
Proof.
  revert d cur context D. induction fuel as [|fuel IH]; intros d cur context D Hd Hc Hf Hrep; cbn [packet_hash_loop];
    (destruct (Z.ltb_spec (Z.of_nat cur) (Z.of_nat limit)) as [Hlt|Hge];
     [|assert (cur = limit) as -> by lia; exists context, d; by rewrite Nat.sub_diag, app_nil_r]); [lia|].
  replace (Z.min (Z.of_nat buffersize) (Z.of_nat limit - Z.of_nat cur)) with (Z.of_nat (Nat.min buffersize (limit - cur))) by lia.
  set (want := Nat.min buffersize (limit - cur)). destruct (read_at d cur want Hd ltac:(lia)) as (d1 & -> & Hd1).
  cbn [mbind option_bind negb]. rewrite wrap_off by lia.
  destruct (IH d1 (cur + want)%nat (update context (slice file cur want)) (D ++ slice file cur want) Hd1) as (x & d2 & E & Hd2 & Hrep2);
    [lia|lia|by apply update_ok|].
  exists x, d2. split; [exact E|]. split; [done|]. rewrite <- app_assoc, <- slice_app in Hrep2.
  by replace (limit - cur)%nat with (want + (limit - (cur + want)))%nat by lia.
Qed.

(** A packet in the file. *)
Definition packet_at (q : nat) (p : list Z) : Prop := (q + length p ≤ F)%nat ∧ slice file q (length p) = p.

Lemma packet_slice q p a n : packet_at q p → (a + n ≤ length p)%nat → slice file (q + a) n = slice p a n.
Proof.
  intros [_ E] Hle. rewrite <- E. by rewrite slice_slice by lia.
Qed.

Lemma header_field p a n : (64 ≤ length p)%nat → (a + n ≤ 64)%nat → slice (take 64 p) a n = slice p a n.
Proof. intros H1 H2. change (take 64 p) with (slice p 0 64). apply (slice_slice p 0 64 a n). lia. Qed.

Lemma h_length_header p : (64 ≤ length p)%nat → h_length (take 64 p) = h_length p.
Proof. intros. unfold h_length. by rewrite header_field by lia. Qed.

Lemma land3 n : Z.land (Z.of_nat n) 3 = Z.of_nat (n mod 4).
Proof. change 3 with (Z.ones 2). rewrite Z.land_ones by lia. by rewrite Nat2Z.inj_mod. Qed.

Lemma check_packet_ok fuel d q p : disk_is file d → packet_at q p → intact p → (length p ≤ fuel)%nat →
  ∃ d', check_packet maxlength scratch fuel d (Z.of_nat F) (Z.of_nat buffersize) (Z.of_nat q) (take 64 p) = Some (true, d') ∧ disk_is file d'.
Proof.
  intros Hd Hp [H1 H2 H3 H4 H5] Hf. pose proof Hp as [Hle _]. unfold check_packet. rewrite h_length_header, H3 by done.
  rewrite (proj2 (Z.ltb_ge _ 64)) by lia. rewrite land3, H4. cbn [orb negb Z.eqb Z.of_nat]. rewrite wrap_off by lia.
  rewrite (proj2 (Z.ltb_ge _ _)) by lia. rewrite wrap_off64 by lia.
  assert (slice (take 64 p) 32 32 = slice p 32 32) as -> by (apply header_field; lia).
  destruct (packet_hash_loop_ok fuel d (q + 64) (q + length p) (update (reset scratch) (slice p 32 32)) (slice p 32 32) Hd)
    as (context & d1 & -> & Hd1 & Hrep); [lia|lia|apply (update_ok _ []), reset_ok, Hscratch|].
  cbn [mbind option_bind]. rewrite Z.ltb_irrefl. replace (q + length p - (q + 64))%nat with (length p - 64)%nat in Hrep by lia.
  rewrite (packet_slice q p 64) in Hrep by (done || lia). rewrite <- (slice_app p 32 32) in Hrep.
  rewrite (end_ok _ _ Hrep). cbn [mbind option_bind]. exists d1. split; [|done]. do 2 f_equal. unfold md5_equal. apply bool_decide_eq_true.
  replace (h_hash (take 64 p)) with (h_hash p) by (unfold h_hash; by rewrite header_field by lia).
  rewrite H5. f_equal. unfold slice. apply take_ge. rewrite length_drop. lia.
Qed.

(** ** The handling of a packet *)

Lemma read_rest_ok d q p : disk_is file d → packet_at q p → intact p →
  ∃ d', read_rest maxlength d (Z.of_nat q) (take 64 p) = Some (Some p, d') ∧ disk_is file d'.
Proof.
  intros Hd Hp Hi. pose proof Hp as [Hle _]. pose proof (p_size _ Hi) as H1. unfold read_rest.
  rewrite h_length_header, (p_length _ Hi), wrap_off64 by (done || lia).
  replace (Z.of_nat (length p) - 64) with (Z.of_nat (length p - 64)) by lia.
  destruct (read_at d (q + 64) (length p - 64) Hd ltac:(lia)) as (d1 & -> & Hd1). cbn [mbind option_bind]. exists d1. split; [|done].
  rewrite (packet_slice q p 64) by (done || lia). do 3 f_equal.
  replace (slice p 64 (length p - 64)) with (drop 64 p); [apply take_drop|].
  unfold slice. symmetry. apply take_ge. rewrite length_drop. lia.
Qed.

Lemma dispatch_ok r d q p : disk_is file d → packet_at q p → intact p →
  ∃ d', dispatch maxlength diskfile r d (Z.of_nat q) (take 64 p) = Some (accept_type diskfile r (Z.of_nat q) p, d') ∧ disk_is file d'.
Proof.
  intros Hd Hp Hi. pose proof Hp as [Hle _]. pose proof (p_size _ Hi) as H1. unfold dispatch, accept_type.
  assert (h_type (take 64 p) = h_type p) as -> by (unfold h_type; by rewrite header_field by lia).
  pose proof (read_rest_ok d q p Hd Hp Hi) as (d1 & Er & Hd1).
  repeat case_bool_decide.
  - unfold LoadRecoveryPacket, RecoveryPacket_Load, parse_recovery. rewrite h_length_header by done.
    destruct (Z.leb_spec (h_length p) 68) as [|Hlen]; cbn [mbind option_bind]; [by exists d|].
    rewrite (p_length _ Hi) in Hlen. rewrite wrap_off64 by lia. change 4 with (Z.of_nat 4).
    destruct (read_at d (q + 64) 4 Hd ltac:(lia)) as (d2 & -> & Hd2). cbn [mbind option_bind]. exists d2. split; [|done].
    change 68 with (Z.of_nat 68) at 1. rewrite wrap_off by lia. rewrite (packet_slice q p 64) by (done || lia).
    change (take 64 p ++ slice p 64 4) with (slice p 0 64 ++ slice p (0 + 64) 4). rewrite <- slice_app.
    by replace (Z.of_nat (q + 68)) with (Z.of_nat q + 68) by lia.
  - unfold LoadVerificationPacket, VerificationPacket_Load, parse_verification. rewrite h_length_header by done.
    destruct (negb _); cbn [mbind option_bind]; [by exists d|]. rewrite Er. by exists d1.
  - unfold LoadDescriptionPacket, DescriptionPacket_Load, parse_description. rewrite h_length_header by done.
    destruct (negb _); cbn [mbind option_bind]; [by exists d|]. rewrite Er. by exists d1.
  - unfold LoadMainPacket, MainPacket_Load, parse_main. rewrite h_length_header by done. destruct (mainpacket r); [by exists d|].
    destruct (negb _); cbn [mbind option_bind]; [by exists d|]. rewrite Er. by exists d1.
  - unfold LoadCreatorPacket, CreatorPacket_Load, parse_creator. rewrite h_length_header by done. destruct (creatorpacket r); [by exists d|].
    destruct (negb _); cbn [mbind option_bind]; [by exists d|]. rewrite Er. by exists d1.
  - by exists d.
Qed.

(** ** The main loop *)

Lemma note_setid_header r p : (64 ≤ length p)%nat → note_setid r (take 64 p) = note_setid r p.
Proof. intros. unfold note_setid, h_setid. by rewrite header_field by lia. Qed.

(** One packet: from [pos] over the bytes before the packet to the end of the packet. *)
Lemma packet_loop_step fuel r d pos q p n : disk_is file d → (pos ≤ q)%nat → packet_at q p → intact p → no_magic pos q → (F ≤ fuel + pos)%nat →
  ∃ d', packet_loop maxlength scratch diskfile (S fuel) r d (Z.of_nat F) (Z.of_nat buffersize) (Z.of_nat pos) n
    = packet_loop maxlength scratch diskfile fuel (accept diskfile r (Z.of_nat q) p).2 d' (Z.of_nat F) (Z.of_nat buffersize)
        (Z.of_nat (q + length p)) (if (accept diskfile r (Z.of_nat q) p).1 then S n else n) ∧ disk_is file d'.
Proof.
  intros Hd Hpq Hp Hi Hno Hf. pose proof Hp as [Hle Hsl]. pose proof (p_size _ Hi) as H1. cbn [packet_loop].
  rewrite wrap_off64 by lia. rewrite (proj2 (Z.leb_le _ _)) by lia.
  destruct (read_header d pos Hd ltac:(lia)) as (d1 & -> & Hd1). cbn [mbind option_bind negb].
  assert (slice file q 64 = take 64 p) as Hh.
  { pose proof (packet_slice q p 0 64 Hp ltac:(lia)) as E. by rewrite Nat.add_0_r in E. }
  assert (magic_at q) as Hm.
  { unfold magic_at. pose proof (packet_slice q p 0 8 Hp ltac:(lia)) as E. rewrite Nat.add_0_r in E. rewrite E. apply Hi. }
  assert (∃ d2, (if negb (bool_decide (packet_magic = h_magic (slice file pos 64)))
      then skip_loop maxlength (S fuel) d1 (Z.of_nat F) (Z.of_nat buffersize) (wrap 64 (Z.of_nat pos + 1)) (slice file pos 64)
      else Some (Z.of_nat pos, slice file pos 64, d1)) = Some (Z.of_nat q, take 64 p, d2) ∧ disk_is file d2) as (d2 & -> & Hd2).
  { unfold h_magic. rewrite slice_slice, Nat.add_0_r by lia. case_bool_decide as E; cbn [negb].
    - assert (q = pos) as ->; [|by exists d1; rewrite Hh].
      destruct (decide (q = pos)); [done|]. exfalso. apply (Hno pos); [lia|lia|]. by unfold magic_at.
    - rewrite wrap_off1 by lia. rewrite <- Hh.
      assert (q ≠ pos) by (intros ->; unfold magic_at in Hm; congruence).
      destruct (skip_loop_ok (S fuel) d1 (pos + 1) (slice file pos 64) Hd1 ltac:(lia) ltac:(lia)) as [Hs _].
      apply Hs; [lia|lia|done|]. intros j Hj. apply Hno. lia. }
  cbn [mbind option_bind]. rewrite wrap_off64 by lia. rewrite (proj2 (Z.ltb_ge _ _)) by lia.
  destruct (check_packet_ok (S fuel) d2 q p Hd2 Hp Hi ltac:(lia)) as (d3 & -> & Hd3). cbn [mbind option_bind negb].
  rewrite note_setid_header, h_length_header, (p_length _ Hi), wrap_off by (done || lia).
  replace (h_setid (take 64 p)) with (h_setid p) by (unfold h_setid; by rewrite header_field by lia).
  unfold accept. case_bool_decide; cbn [mbind option_bind fst snd].
  - destruct (dispatch_ok (note_setid r p) d3 q p Hd3 Hp Hi) as (d4 & -> & Hd4). cbn [mbind option_bind].
    destruct (accept_type _ _ _ _) as [new r']. by exists d4.
  - by exists d3.
Qed.

Lemma packet_loop_tail fuel r d pos n : disk_is file d → (pos ≤ F)%nat → no_magic pos F → (F < fuel + pos)%nat ∨ (F < pos + 64)%nat →
  ∃ d', packet_loop maxlength scratch diskfile fuel r d (Z.of_nat F) (Z.of_nat buffersize) (Z.of_nat pos) n = Some (n, r, d').
Proof.
  intros Hd Hle Hno Hf. destruct fuel as [|fuel]; cbn [packet_loop]; rewrite wrap_off64 by lia.
  { rewrite (proj2 (Z.leb_gt _ _)) by lia. by exists d. }
  destruct (Z.leb_spec (Z.of_nat (pos + 64)) (Z.of_nat F)) as [Hin|Hout]; [|by exists d].
  destruct (read_header d pos Hd ltac:(lia)) as (d1 & -> & Hd1). cbn [mbind option_bind negb].
  unfold h_magic. rewrite slice_slice, Nat.add_0_r by lia.
  rewrite bool_decide_eq_false_2 by (intros E; apply (Hno pos); [lia|lia|by unfold magic_at]). cbn [negb].
  rewrite wrap_off1 by lia.
  destruct (skip_loop_ok (S fuel) d1 (pos + 1) (slice file pos 64) Hd1 ltac:(lia) ltac:(lia)) as [_ Hs].
  destruct Hs as (o' & d2 & h & -> & Hd2 & Ho); [intros j Hj; apply Hno; lia|]. cbn [mbind option_bind].
  rewrite wrap_off64 by lia. rewrite (proj2 (Z.ltb_lt _ _)) by lia. by exists d2.
Qed.

(** The bytes between the packets do not contain the magic value where a header fits. *)
Fixpoint clean (pos : nat) (segs : list (list Z * list Z)) : Prop :=
  match segs with
  | [] => no_magic pos F
  | (junk, p) :: segs => no_magic pos (pos + length junk) ∧ clean (pos + length junk + length p) segs
  end.

Lemma packet_loop_ok segs tail pre fuel r d n : file = pre ++ layout segs tail → disk_is file d → Forall (λ s, intact s.2) segs →
  clean (length pre) segs → (F < fuel + length pre)%nat →
  ∃ d', packet_loop maxlength scratch diskfile fuel r d (Z.of_nat F) (Z.of_nat buffersize) (Z.of_nat (length pre)) n
    = Some (n + (accept_all diskfile r (length pre) segs).1, (accept_all diskfile r (length pre) segs).2, d')%nat.
Proof.
  revert pre fuel r d n. induction segs as [|[junk p] segs IH]; intros pre fuel r d n Ef Hd HF Hc Hfuel; cbn [accept_all clean layout] in *.
  { rewrite Nat.add_0_r. apply packet_loop_tail; [done| |done|by left]. rewrite Ef, length_app. lia. }
  apply Forall_cons in HF as [Hp HF]. destruct Hc as [Hno Hc]. cbn in Hp.
  assert (F = length pre + length junk + length p + length (layout segs tail))%nat as EF by (rewrite Ef, !length_app; lia).
  assert (packet_at (length pre + length junk) p) as Hat.
  { split; [lia|]. unfold slice. rewrite Ef at 1. rewrite app_assoc, drop_app_length' by (by rewrite length_app). apply take_app_length. }
  pose proof (p_size _ Hp) as H64.
  destruct fuel as [|fuel]; [lia|]. destruct (packet_loop_step fuel r d (length pre) (length pre + length junk) p n Hd ltac:(lia) Hat Hp Hno ltac:(lia)) as (d1 & -> & Hd1).
  destruct (accept diskfile r _ p) as [new r1]. cbn [fst snd].
  specialize (IH (pre ++ junk ++ p) fuel r1 d1 (if new then S n else n)).
  rewrite !length_app, Nat.add_assoc in IH. destruct IH as (d2 & E); [by rewrite Ef, <- !app_assoc|done|done|done|lia|].
  rewrite E. destruct (accept_all diskfile r1 _ segs) as [k r2]. cbn [fst snd]. exists d2. do 3 f_equal. destruct new; lia.
Qed.
End Scan.

(** The search of a file made of intact packets and other bytes. *)
Lemma LoadPacketsFromFile_ok (maxlength : Z) (scratch : MD5Single) (diskfile : nat) (r : Par2Repairer) (d : DiskFile)
    (segs : list (list Z * list Z)) (tail : list Z) :
  0 < maxlength → length (tmp scratch) = 64%nat → disk_is (layout segs tail) d → Z.of_nat (length (layout segs tail)) ≤ MaxOffset →
  Forall (λ s, intact s.2) segs → clean (layout segs tail) 0 segs →
  ∃ d', LoadPacketsFromFile maxlength scratch diskfile (length (layout segs tail) + 1) r d
    = Some (Nat.ltb 0 (accept_all diskfile r 0 segs).1, (accept_all diskfile r 0 segs).2, d').
Proof.
  intros Hm Hs Hd Hsz HF Hc. pose proof Hd as [Hok Hcont]. pose proof (do_size _ Hok) as Hz. rewrite Hcont in Hz.
  unfold LoadPacketsFromFile. set (file := layout segs tail) in *. rewrite Hz.
  destruct (decide (length file < 64)%nat) as [Hsmall|Hbig].
  - assert (segs = []) as ->.
    { destruct segs as [|[junk p] segs]; [done|]. apply Forall_cons in HF as [Hp _]. pose proof (p_size _ Hp). cbn in H.
      unfold file in Hsmall. cbn [layout] in Hsmall. rewrite !length_app in Hsmall. lia. }
    destruct (Z.ltb_spec 0 (Z.of_nat (length file))); [|by exists d].
    rewrite Nat.add_1_r. cbn [packet_loop]. change (wrap 64 (0 + 64)) with 64. rewrite (proj2 (Z.leb_gt _ _)) by lia. by exists d.
  - rewrite (proj2 (Z.ltb_lt _ _)) by lia.
    replace (Z.min 1048576 (Z.of_nat (length file))) with (Z.of_nat (Nat.min (Z.to_nat 1048576) (length file))) by lia.
    destruct (packet_loop_ok maxlength scratch diskfile file (Nat.min (Z.to_nat 1048576) (length file)) Hm Hs Hsz ltac:(lia)
      segs tail [] (length file + 1) r d 0 eq_refl Hd HF Hc ltac:(cbn [length]; lia)) as (d' & E).
    cbn [length] in E. change (Z.of_nat 0) with 0 in E. rewrite E. cbn [mbind option_bind]. by exists d'.
Qed.

(** ** Properties *)

(** C30: no intact packet is lost.  A file that consists of intact packets with other bytes
    before, between and after them that contain the magic value nowhere where a header fits
    - so no damaged packets, for which see [packet_search_endless] - is searched to its end, and what has been collected is the result of
    handling its packets one after another: packets of other sets ignored, each packet
    parsed according to its type, and the first of equal ones kept. *)
Theorem packets_all_found (maxlength : Z) (scratch : MD5Single) (diskfile : nat) (r : Par2Repairer) (d : DiskFile)
    (segs : list (list Z * list Z)) (tail : list Z) :
  0 < maxlength → length (tmp scratch) = 64%nat → disk_is (layout segs tail) d → Z.of_nat (length (layout segs tail)) ≤ MaxOffset →
  Forall (λ s, intact s.2) segs → clean (layout segs tail) 0 segs →
  ∃ d', LoadPacketsFromFile maxlength scratch diskfile (length (layout segs tail) + 1) r d
    = Some (Nat.ltb 0 (accept_all diskfile r 0 segs).1, (accept_all diskfile r 0 segs).2, d').
Proof. apply LoadPacketsFromFile_ok. Qed.

(** A file with a creator packet between other bytes. *)
Definition sample_body : list Z := replicate 16 7 ++ creatorpacket_type ++ [112; 97; 114; 50].
Definition sample_packet : list Z := packet_magic ++ le_split 8 68 ++ md5 sample_body ++ sample_body.
Definition sample_segs : list (list Z * list Z) := [([80; 65; 82], sample_packet)].
Definition sample_repairer : Par2Repairer :=
  {| firstpacket := true; setid := []; recoverypacketmap := ∅; sourcefilemap := ∅; mainpacket := None; creatorpacket := None |}.
Definition sample_disk : DiskFile := {| contents := layout sample_segs [80; 65]; stream := 0; offset := 0; filesize := 73 |}.

Lemma sample_intact : Forall (λ s : list Z * list Z, intact s.2) sample_segs.
Proof. constructor; [split; [cbn; lia|reflexivity..]|constructor]. Qed.

Lemma sample_clean : clean (layout sample_segs [80; 65]) 0 sample_segs.
Proof.
  split.
  - intros i [_ Hi] _. unfold magic_at. cbn in Hi. destruct i as [|[|[|i]]]; [discriminate..|lia].
  - intros i [Hi _] Hf. cbn in Hi, Hf. lia.
Qed.

Lemma packets_all_found_witness :
  ∃ d', LoadPacketsFromFile 1000 example_context 0 (length (layout sample_segs [80; 65]) + 1) sample_repairer sample_disk
    = Some (Nat.ltb 0 (accept_all 0 sample_repairer 0 sample_segs).1, (accept_all 0 sample_repairer 0 sample_segs).2, d').
Proof.
  apply (packets_all_found 1000 example_context 0 sample_repairer sample_disk sample_segs [80; 65]);
    [lia|reflexivity| |cbn; unfold MaxOffset; lia|apply sample_intact|apply sample_clean].
  split; [split; [done|cbn; lia|reflexivity]|reflexivity].
Defined.

(** A packet with a length that makes the offset wrap around to the start of the file. *)
Definition trap_body : list Z := replicate 16 7 ++ replicate 16 120.
Definition trap_file : list Z := [0; 0; 0; 0] ++ packet_magic ++ le_split 8 (2 ^ 64 - 4) ++ md5 trap_body ++ trap_body.

Lemma trap_header : slice trap_file 4 64 = packet_magic ++ le_split 8 (2 ^ 64 - 4) ++ md5 trap_body ++ trap_body.
Proof. reflexivity. Qed.

Lemma trap_scan : magic_scan 4 (slice trap_file 1 67) 0 = 3%nat.
Proof. reflexivity. Qed.

Lemma trap_length : length trap_file = 68%nat.
Proof. reflexivity. Qed.

(** One round of the search ends where it began. *)
Lemma trap_round maxlength scratch diskfile fuel r d n : 0 < maxlength → length (tmp scratch) = 64%nat → disk_is trap_file d →
  ∃ r' d', packet_loop maxlength scratch diskfile (S fuel) r d 68 68 0 n = packet_loop maxlength scratch diskfile fuel r' d' 68 68 0 n ∧
    disk_is trap_file d'.
Proof.
  intros Hm Hs Hd. assert (Z.of_nat (length trap_file) ≤ MaxOffset) as Hsz by (rewrite trap_length; unfold MaxOffset; lia).
  cbn [packet_loop]. change (wrap 64 (0 + 64) <=? 68) with true.
  destruct (read_header maxlength scratch trap_file 64 Hm Hs Hsz (le_n 64) d 0 Hd) as (d1 & E1 & Hd1); [rewrite trap_length; lia|].
  change (Z.of_nat 0) with 0 in E1. rewrite E1. cbn [mbind option_bind negb].
  change (bool_decide (packet_magic = h_magic (slice trap_file 0 64))) with false. cbn [negb skip_loop].
  change (wrap 64 (wrap 64 (0 + 1) + 64) <=? 68) with true. change (Z.min 68 (68 - wrap 64 (0 + 1))) with (Z.of_nat 67).
  change (wrap 64 (0 + 1)) with (Z.of_nat 1).
  destruct (read_at maxlength scratch trap_file 64 Hm Hs Hsz (le_n 64) d1 1 67 Hd1) as (d2 & -> & Hd2); [rewrite trap_length; lia|]. cbn [mbind option_bind negb].
  change (S (Z.to_nat (Z.of_nat 67 - 64))) with 4%nat. rewrite trap_scan.
  change (Nat.leb 3 (Z.to_nat (Z.of_nat 67 - 64))) with true. change (wrap 64 (Z.of_nat 1 + Z.of_nat 3)) with 4.
  cbn [mbind option_bind]. change (68 <? wrap 64 (4 + 64)) with false. rewrite slice_slice by lia. change (1 + 3)%nat with 4%nat.
  rewrite trap_header. set (h := packet_magic ++ _).
  assert (check_packet maxlength scratch (S fuel) d2 68 68 4 h = Some (true, d2)) as ->.
  { unfold check_packet. change (h_length h) with (2 ^ 64 - 4). change ((2 ^ 64 - 4 <? 64) || negb (Z.land (2 ^ 64 - 4) 3 =? 0)
      || (68 <? wrap 64 (4 + (2 ^ 64 - 4)))) with false. change (wrap 64 (4 + (2 ^ 64 - 4))) with 0. cbn [packet_hash_loop].
    change (wrap 64 (4 + 64) <? 0) with false. cbn [mbind option_bind]. change (wrap 64 (4 + 64) <? 0) with false.
    change (slice h 32 32) with trap_body.
    rewrite (end_ok (update (reset scratch) trap_body) trap_body) by (apply (update_ok _ []), reset_ok, Hs). cbn [mbind option_bind].
    change (h_hash h) with (md5 trap_body). unfold md5_equal. by rewrite bool_decide_eq_true_2. }
  cbn [mbind option_bind negb]. change (h_length h) with (2 ^ 64 - 4). change (wrap 64 (4 + (2 ^ 64 - 4))) with 0.
  case_bool_decide.
  - unfold dispatch. change (h_type h) with (replicate 16 120). rewrite !bool_decide_eq_false_2 by discriminate. cbn [mbind option_bind].
    by exists (note_setid r h), d2.
  - cbn [mbind option_bind]. by exists (note_setid r h), d2.
Qed.

(** The search need not end.  A packet whose length field makes the sum of offset and
    length wrap around passes the test against the size of the file, its hash covers the
    header only, and the search continues at the wrapped offset: for this file of 68 bytes
    no number of rounds is enough, whatever was collected before. *)
Theorem packet_search_endless (maxlength : Z) (scratch : MD5Single) (diskfile : nat) (r : Par2Repairer) (fuel : nat) :
  0 < maxlength → length (tmp scratch) = 64%nat →
  LoadPacketsFromFile maxlength scratch diskfile fuel r {| contents := trap_file; stream := 0; offset := 0; filesize := 68 |} = None.
Proof.
  intros Hm Hs. unfold LoadPacketsFromFile. cbn [filesize]. change (0 <? 68) with true. change (Z.min 1048576 68) with 68.
  set (d := {| contents := trap_file; stream := 0; offset := 0; filesize := 68 |}).
  assert (disk_is trap_file d) as Hd by (split; [split; [done|cbn; lia|cbn [filesize contents d]; by rewrite trap_length]|done]).
  assert (∀ n, packet_loop maxlength scratch diskfile fuel r d 68 68 0 n = None) as ->; [|done].
  clearbody d. revert r d Hd. induction fuel as [|fuel IH]; intros r d Hd n; [done|].
  destruct (trap_round maxlength scratch diskfile fuel r d n Hm Hs Hd) as (r' & d' & -> & Hd'). by apply IH.
Qed.

Lemma packet_search_endless_witness :
  LoadPacketsFromFile 1000 {| tmp := replicate 64 9; md5State := md5_init; dataLen := 1 |} 0 1000
    {| firstpacket := true; setid := []; recoverypacketmap := ∅; sourcefilemap := ∅; mainpacket := None; creatorpacket := None |}
    {| contents := trap_file; stream := 0; offset := 0; filesize := 68 |} = None.
Proof.
  apply (packet_search_endless 1000 {| tmp := replicate 64 9; md5State := md5_init; dataLen := 1 |} 0
    {| firstpacket := true; setid := []; recoverypacketmap := ∅; sourcefilemap := ∅; mainpacket := None; creatorpacket := None |} 1000);
    [lia|reflexivity].
Defined.
