(* ===== verification/Parameters.v ===== *)
(** * Parameters.v: block size, block counts and the number of recovery files

    [CommandLine::ComputeBlockSize], [CommandLine::ComputeRecoveryBlockCount] and the default
    block size (src/commandline.cpp), [ComputeRecoveryFileCount] (src/libpar2.cpp) and
    [Par2Creator::ComputeBlockCount] (src/par2creator.cpp).  The sizes of the source files are a
    list.  A result [None] means that the code divides by zero or does not return; otherwise
    the result is [Some None] when the code reports an error, and [Some (Some _)] on success. *)

From S2P Require Import Prelude.

(** ** Arithmetic of the code *)

(** Division of unsigned integers *)
Definition udiv (a b : Z) : option Z := if b =? 0 then None else Some (a / b).

(** [(x + 3) & ~3] on [u64] *)
Definition round4 (x : Z) : Z := Z.ldiff (wrap 64 (x + 3)) 3.

(** [(size + 3) / 4] *)
Definition units (size : Z) : Z := wrap 64 (size + 3) / 4.

(** [(n + size - 1) / size] *)
Definition ceil_div (n size : Z) : Z := wrap 64 (wrap 64 (n + size) - 1) / size.

(** A loop over the files that adds up a value of each *)
Definition sum_loop (w : Z) (f : Z → Z) (sizes : list Z) : Z := foldl (λ total size, wrap w (total + f size)) 0 sizes.

(** The loop that finds the largest file *)
Definition largest_loop (sizes : list Z) : Z := foldl (λ largest size, if largest <? size then size else largest) 0 sizes.

(** [for (u32 blocks = n; blocks > 0; blocks >>= 1) count++] *)
Fixpoint bit_loop (fuel : nat) (blocks count : Z) : option Z :=
  if 0 <? blocks then
    match fuel with
    | O => None
    | S fuel => bit_loop fuel (Z.shiftr blocks 1) (wrap 32 (count + 1))
    end
  else Some count.

(** ** Block size *)

(** The default when neither block count nor block size was given, in [CheckValuesAndSetDefaults] *)
Definition default_blocksize (sizes : list Z) : Z :=
  let totalsize := sum_loop 64 id sizes in
  let blocksize := wrap 64 (totalsize + 1999) / 2000 in
  let blocksize := Z.max blocksize 4 in
  let blocksize := round4 blocksize in
  let minblocksize := wrap 64 (totalsize + 32767) / 32768 in
  let minblocksize := Z.max minblocksize 4 in
  let minblocksize := round4 minblocksize in
  if blocksize <? minblocksize then minblocksize else blocksize.

(** The number of blocks of [size] units of four bytes *)
Definition count_units (sizes : list Z) (size : Z) : Z := sum_loop 64 (λ f, ceil_div (units f) size) sizes.

(** The search for the block size: size and count *)
Fixpoint size_loop (fuel : nat) (sizes : list Z) (blockcount lowerBound upperBound : Z) : option (Z * Z) :=
  match fuel with
  | O => None
  | S fuel =>
      let size := wrap 64 (lowerBound + upperBound) / 2 in
      if size =? 0 then None else
      let count := count_units sizes size in
      let '(lowerBound, upperBound, size, count) :=
        if blockcount <? count then
          let lowerBound := wrap 64 (size + 1) in
          if upperBound <=? lowerBound then (lowerBound, upperBound, lowerBound, count_units sizes lowerBound)
          else (lowerBound, upperBound, size, count)
        else (lowerBound, size, size, count) in
      if lowerBound <? upperBound then size_loop fuel sizes blockcount lowerBound upperBound else Some (size, count)
  end.

(** [CommandLine::ComputeBlockSize] *)
Definition ComputeBlockSize (sizes : list Z) (blockcount blocksize : Z) : option (option Z) :=
  let files := Z.of_nat (length sizes) in
  if negb (blocksize =? 0) then Some (Some blocksize) else
  if blockcount <? files then Some None else
  if blockcount =? files then Some (Some (round4 (largest_loop sizes))) else
  let totalsize := sum_loop 64 units sizes in
  if totalsize <? blockcount then Some (Some 4) else
  lowerBound ← udiv totalsize blockcount;
  upperBound ← udiv (wrap 64 (totalsize + blockcount - files - 1)) (blockcount - files);
  '(size, count) ← size_loop 65 sizes blockcount lowerBound upperBound;
  if 32768 <? count then Some None else
  if count =? 0 then Some None else
  Some (Some (wrap 64 (size * 4))).

(** [Par2Creator::ComputeBlockCount]: the number of source blocks and the largest size *)
Definition ComputeBlockCount (sizes : list Z) (blocksize : Z) : option (Z * Z) :=
  let largestfilesize := largest_loop sizes in
  if blocksize =? 0 then None else
  if negb (blocksize mod 4 =? 0) then None else
  let count := sum_loop 64 (λ f, ceil_div f blocksize) sizes in
  if 32768 <? count then None else Some (wrap 32 count, largestfilesize).

(** ** Recovery blocks and files *)

Inductive Scheme := scUnknown | scVariable | scLimited | scUniform.

(** [ComputeRecoveryFileCount] *)
Definition ComputeRecoveryFileCount (recoveryfilecount : Z) (scheme : Scheme) (recoveryblockcount largestfilesize blocksize : Z)
    : option (option Z) :=
  if recoveryblockcount =? 0 then Some (Some 0) else
  match scheme with
  | scUnknown => Some None
  | scVariable | scUniform =>
      recoveryfilecount ← (if recoveryfilecount =? 0 then bit_loop 32 recoveryblockcount recoveryfilecount else Some recoveryfilecount);
      if recoveryblockcount <? recoveryfilecount then Some None else Some (Some recoveryfilecount)
  | scLimited =>
      largest ← udiv (wrap 64 (wrap 64 (largestfilesize + blocksize) - 1)) blocksize;
      let largest := wrap 32 largest in
      whole ← udiv recoveryblockcount largest;
      let whole := if 1 <=? whole then whole - 1 else 0 in
      let extra := wrap 32 (recoveryblockcount - wrap 32 (whole * largest)) in
      count ← bit_loop 32 extra whole;
      Some (Some count)
  end.

(** The checks at the end of [ComputeRecoveryBlockCount] *)
Definition check_count (redundancy firstblock recoveryblockcount : Z) : option (option Z) :=
  let recoveryblockcount := if (recoveryblockcount =? 0) && (0 <? redundancy) then 1 else recoveryblockcount in
  if 65536 <? recoveryblockcount then Some None else
  if 65536 <=? wrap 32 (firstblock + recoveryblockcount) then Some None else Some (Some recoveryblockcount).

(** [CommandLine::ComputeRecoveryBlockCount] *)
Definition ComputeRecoveryBlockCount (recoveryblockcount sourceblockcount blocksize firstblock : Z) (scheme : Scheme)
    (recoveryfilecount : Z) (recoveryblockcountset : bool) (redundancy redundancysize largestfilesize : Z) : option (option Z) :=
  if recoveryblockcountset then check_count redundancy firstblock recoveryblockcount else
  if 0 <? redundancy then check_count redundancy firstblock (wrap 32 (wrap 32 (sourceblockcount * redundancy) + 50) / 100) else
  if 0 <? redundancysize then
    let overhead_per_recovery_file := wrap 64 (sourceblockcount * 21) in
    let recovery_packet_size := wrap 64 (blocksize + 70) in
    let blocks_within (overhead : Z) :=
      if redundancysize <? overhead then Some 1 else
      blocks ← udiv (redundancysize - overhead) recovery_packet_size; Some (wrap 32 blocks) in
    recoveryfilecount ←
      (if recoveryfilecount =? 0 then
         estimated ← blocks_within (wrap 64 (15 * overhead_per_recovery_file));
         ComputeRecoveryFileCount recoveryfilecount scheme estimated largestfilesize blocksize
       else Some (Some recoveryfilecount));
    match recoveryfilecount with
    | None => Some None
    | Some recoveryfilecount => blocks ← blocks_within (wrap 64 (recoveryfilecount * overhead_per_recovery_file)); check_count redundancy firstblock blocks
    end
  else Some None.

(** The end of [CommandLine::Parse]: block size and number of recovery blocks *)
Definition create_parameters (sizes : list Z) (blockcount blocksize recoveryblockcount firstblock : Z) (scheme : Scheme)
    (recoveryfilecount : Z) (recoveryblockcountset : bool) (redundancy redundancysize : Z) : option (option (Z * Z)) :=
  blocksize ← ComputeBlockSize sizes blockcount blocksize;
  match blocksize with
  | None => Some None
  | Some blocksize =>
      if blocksize =? 0 then None else
      let sourceblockcount := sum_loop 32 (λ f, wrap 32 (ceil_div f blocksize)) sizes in
      let largestfilesize := largest_loop sizes in
      if 32768 <? sourceblockcount then Some None else
      count ← ComputeRecoveryBlockCount recoveryblockcount sourceblockcount blocksize firstblock scheme recoveryfilecount
                recoveryblockcountset redundancy redundancysize largestfilesize;
      Some (option_map (pair blocksize) count)
  end.
