(* ===== verification/ParametersSpec.v ===== *)
(** * ParametersSpec.v: the block size that is chosen is the smallest that is possible *)

From S2P Require Import Prelude Parameters.

(** ** Sums and rounded quotients *)

Fixpoint zsum (f : Z → Z) (sizes : list Z) : Z :=
  match sizes with [] => 0 | size :: sizes => f size + zsum f sizes end.

Definition cdiv (n d : Z) : Z := (n + d - 1) / d.

(** The number of blocks of the files. *)
Definition blocks (sizes : list Z) (blocksize : Z) : Z := zsum (λ f, cdiv f blocksize) sizes.

Lemma zsum_nonneg f sizes : Forall (λ s, 0 ≤ f s) sizes → 0 ≤ zsum f sizes.
Proof. induction 1; cbn [zsum]; lia. Qed.

Lemma zsum_le f g sizes : Forall (λ s, f s ≤ g s) sizes → zsum f sizes ≤ zsum g sizes.
Proof. induction 1; cbn [zsum]; lia. Qed.

Lemma zsum_ext f g sizes : Forall (λ s, f s = g s) sizes → zsum f sizes = zsum g sizes.
Proof. induction 1; cbn [zsum]; lia. Qed.

Lemma zsum_scale c f sizes : zsum (λ s, c * f s) sizes = c * zsum f sizes.
Proof. induction sizes as [|s sizes IH]; cbn [zsum]; lia. Qed.

Lemma zsum_shift c f sizes : zsum (λ s, f s + c) sizes = zsum f sizes + c * Z.of_nat (length sizes).
Proof. induction sizes as [|s sizes IH]; cbn [zsum length]; lia. Qed.

Lemma zsum_member f sizes s : Forall (λ s, 0 ≤ f s) sizes → s ∈ sizes → f s ≤ zsum f sizes.
Proof.
  intros HF Hin. induction HF as [|a sizes Ha HF IH]; [by apply elem_of_nil in Hin|].
  pose proof (zsum_nonneg f sizes HF). cbn [zsum]. apply elem_of_cons in Hin as [->|Hin]; [lia|]. specialize (IH Hin). lia.
Qed.

Lemma sum_loop_go w f sizes a : Forall (λ s, 0 ≤ f s) sizes → 0 ≤ a → a + zsum f sizes < 2 ^ w →
  foldl (λ total size, wrap w (total + f size)) a sizes = a + zsum f sizes.
Proof.
  intros HF. revert a. induction HF as [|s sizes Hs HF IH]; intros a Ha Hb; cbn [foldl zsum] in *; [lia|].
  pose proof (zsum_nonneg f sizes HF). rewrite wrap_small by (split; lia). rewrite IH by lia. lia.
Qed.

Lemma sum_loop_ok w f sizes : Forall (λ s, 0 ≤ f s) sizes → zsum f sizes < 2 ^ w → sum_loop w f sizes = zsum f sizes.
Proof. intros. unfold sum_loop. by rewrite sum_loop_go by (done || lia). Qed.

Lemma sum_loop_ext w f g sizes : Forall (λ s, f s = g s) sizes → sum_loop w f sizes = sum_loop w g sizes.
Proof.
  unfold sum_loop. generalize 0. intros a HF. revert a. induction HF as [|s sizes Hs _ IH]; intros a; cbn [foldl]; [done|].
  by rewrite Hs.
Qed.

Lemma cdiv_bounds n d : 0 ≤ n → 0 < d → n ≤ d * cdiv n d ≤ n + d - 1.
Proof. intros. unfold cdiv. pose proof (Z.div_mod (n + d - 1) d ltac:(lia)). pose proof (Z.mod_pos_bound (n + d - 1) d ltac:(lia)). lia. Qed.

Lemma cdiv_nonneg n d : 0 ≤ n → 0 < d → 0 ≤ cdiv n d.
Proof. intros. apply Z.div_pos; lia. Qed.

Lemma cdiv_le n d : 0 ≤ n → 0 < d → cdiv n d ≤ n.
Proof. intros. pose proof (cdiv_bounds n d ltac:(done) ltac:(done)). nia. Qed.

Lemma cdiv_cdiv n s : 0 < s → cdiv (cdiv n 4) s = cdiv n (4 * s).
Proof.
  intros. unfold cdiv. rewrite <- (Z.div_div (n + 4 * s - 1) 4 s) by lia.
  replace (n + 4 * s - 1) with (n + 4 - 1 + (s - 1) * 4) by lia. rewrite Z.div_add by lia. f_equal. lia.
Qed.

Lemma ceil_div_ok n d : 0 ≤ n → 0 < d → n + d < 2 ^ 64 → ceil_div n d = cdiv n d.
Proof. intros. unfold ceil_div, cdiv. rewrite (wrap_small 64 (n + d)) by (split; lia). rewrite wrap_small by (split; lia). done. Qed.

Lemma units_ok s : 0 ≤ s → s < 2 ^ 62 → units s = cdiv s 4.
Proof. intros. unfold units, cdiv. rewrite wrap_small by (split; lia). f_equal. lia. Qed.

Lemma round4_ok x : 0 ≤ x < 2 ^ 62 → round4 x = 4 * cdiv x 4.
Proof.
  intros. unfold round4, cdiv. rewrite wrap_small by (split; lia).
  change 3 with (Z.ones 2) at 2. rewrite Z.ldiff_ones_r, Z.shiftr_div_pow2, Z.shiftl_mul_pow2 by lia. change (2 ^ 2) with 4.
  replace (x + 4 - 1) with (x + 3) by lia. lia.
Qed.

Lemma largest_loop_go sizes a : let l := foldl (λ largest size, if largest <? size then size else largest) a sizes in
  a ≤ l ∧ Forall (λ s, s ≤ l) sizes ∧ (l = a ∨ l ∈ sizes).
Proof.
  revert a. induction sizes as [|s sizes IH]; intros a; cbn [foldl]; [split_and!; [lia|constructor|by left]|].
  destruct (IH (if a <? s then s else a)) as (H1 & H2 & H3). destruct (Z.ltb_spec a s).
  - split_and!; [lia|by constructor|]. right. destruct H3 as [->|]; [left|by right].
  - split_and!; [lia|constructor; [lia|done]|]. destruct H3 as [->|]; [by left|by right; right].
Qed.

(** The largest of the files. *)
Lemma largest_loop_ok sizes : Forall (λ s, s ≤ largest_loop sizes) sizes ∧ 0 ≤ largest_loop sizes ∧
  (largest_loop sizes = 0 ∨ largest_loop sizes ∈ sizes).
Proof. destruct (largest_loop_go sizes 0) as (H1 & H2 & H3). by split_and!. Qed.

(** ** The search *)

Section Search.
Context (sizes : list Z) (bc : Z).
Hypothesis Hpos : Forall (λ s, 0 < s) sizes.
Hypothesis Hsum : zsum id sizes < 2 ^ 61.

(** The sizes in units of four bytes *)
Local Definition q (s : Z) : Z := cdiv s 4.
Local Abbreviation n := (Z.of_nat (length sizes)).
Local Abbreviation total := (zsum q sizes).
Local Definition cnt (size : Z) : Z := zsum (λ s, cdiv (q s) size) sizes.

Lemma size_bound : Forall (λ s, 0 < s < 2 ^ 61) sizes.
Proof using Hpos Hsum.
  apply Forall_forall. intros s Hs. pose proof (proj1 (Forall_forall _ _) Hpos s Hs) as H. cbn beta in H. split; [done|].
  pose proof (zsum_member id sizes s) as Hm. unfold id in Hm at 3. assert (s ≤ zsum id sizes); [|lia].
  apply Hm; [|done]. eapply Forall_impl; [exact Hpos|]. unfold id. lia.
Qed.

Lemma q_bound : Forall (λ s, 1 ≤ q s ≤ s) sizes.
Proof using Hpos Hsum.
  eapply Forall_impl; [exact size_bound|]. intros s Hs. cbn beta in *. unfold q. pose proof (cdiv_bounds s 4 ltac:(lia) ltac:(lia)). lia.
Qed.

Lemma total_bound : n ≤ total ≤ zsum id sizes.
Proof using Hpos Hsum.
  split; [|apply zsum_le; eapply Forall_impl; [exact q_bound|]; unfold id; cbn beta; lia].
  replace n with (zsum (λ _, 1) sizes) by (clear; induction sizes as [|s l IH]; cbn [zsum length]; lia).
  apply zsum_le. eapply Forall_impl; [exact q_bound|]. cbn beta. lia.
Qed.

Lemma total_ok : sum_loop 64 units sizes = total.
Proof using Hpos Hsum.
  rewrite (sum_loop_ext 64 units q) by (eapply Forall_impl; [exact size_bound|]; intros s Hs; cbn beta in Hs; apply units_ok; lia).
  pose proof total_bound. apply sum_loop_ok; [|lia]. eapply Forall_impl; [exact q_bound|]. cbn beta. lia.
Qed.

Lemma cnt_le size : 0 < size → 0 ≤ cnt size ≤ total.
Proof using Hpos Hsum.
  intros Hs. split; [apply zsum_nonneg|apply zsum_le]; (eapply Forall_impl; [exact q_bound|]); intros s Hq; cbn beta in *.
  - apply cdiv_nonneg; lia.
  - apply cdiv_le; lia.
Qed.

Lemma count_units_ok size : 0 < size < 2 ^ 62 → count_units sizes size = cnt size.
Proof using Hpos Hsum.
  intros Hs. unfold count_units. rewrite (sum_loop_ext 64 _ (λ s, cdiv (q s) size)).
  2: { apply Forall_forall. intros s Hin. pose proof (proj1 (Forall_forall _ _) size_bound s Hin) as Hb. cbn beta in Hb.
       pose proof (proj1 (Forall_forall _ _) q_bound s Hin) as Hq. cbn beta in Hq.
       rewrite units_ok by lia. fold (q s). apply ceil_div_ok; lia. }
  pose proof (cnt_le size ltac:(lia)). pose proof total_bound. apply sum_loop_ok; [|unfold cnt in *; lia].
  eapply Forall_impl; [exact q_bound|]. intros s Hq. cbn beta in *. apply cdiv_nonneg; lia.
Qed.

(** The number of blocks in bytes and in units *)
Lemma cnt_blocks size : 0 < size → cnt size = blocks sizes (4 * size).
Proof using Hpos. intros Hs. apply zsum_ext. eapply Forall_impl; [exact Hpos|]. intros s _. by apply cdiv_cdiv. Qed.

(** The bounds of the search are right. *)
Lemma upper_ok size : 0 < size → total ≤ size * (bc - n) → cnt size ≤ bc.
Proof using Hpos Hsum.
  intros Hs Ht. assert (size * cnt size ≤ total + (size - 1) * n) as H; [|nia].
  unfold cnt. rewrite <- zsum_scale, <- zsum_shift. apply zsum_le. eapply Forall_impl; [exact q_bound|]. intros s Hq. cbn beta in *.
  pose proof (cdiv_bounds (q s) size ltac:(lia) ltac:(lia)). lia.
Qed.

Lemma lower_ok size lower : 0 < size < lower → 0 < bc → lower * bc ≤ total → bc < cnt size.
Proof using Hpos Hsum.
  intros Hs Hb Ht. assert (total ≤ size * cnt size) as H; [|nia].
  unfold cnt. rewrite <- zsum_scale. apply zsum_le. eapply Forall_impl; [exact q_bound|]. intros s Hq. cbn beta in *.
  pose proof (cdiv_bounds (q s) size ltac:(lia) ltac:(lia)). lia.
Qed.

Lemma cdiv_anti m a b : 0 ≤ m → 0 < a ≤ b → cdiv m b ≤ cdiv m a.
Proof.
  intros Hm Hab. pose proof (cdiv_bounds m a Hm ltac:(lia)). pose proof (cdiv_bounds m b Hm ltac:(lia)).
  pose proof (cdiv_nonneg m a Hm ltac:(lia)). nia.
Qed.

Lemma cnt_anti a b : 0 < a ≤ b → cnt b ≤ cnt a.
Proof using Hpos Hsum.
  intros. apply zsum_le. eapply Forall_impl; [exact q_bound|]. intros s Hq. cbn beta in *. apply cdiv_anti; lia.
Qed.

(** The loop halves the interval, so that 62 rounds are enough for every size. *)
Lemma size_loop_ok k fuel lower upper : (k < fuel)%nat → 0 < lower ≤ upper → upper < 2 ^ 61 → upper - lower < 2 ^ Z.of_nat k →
  cnt upper ≤ bc → (∀ s, 0 < s < lower → bc < cnt s) →
  ∃ size, size_loop fuel sizes bc lower upper = Some (size, cnt size) ∧ 0 < size ≤ upper ∧ cnt size ≤ bc ∧ (∀ s, 0 < s < size → bc < cnt s).
Proof using Hpos Hsum.
  revert fuel lower upper. induction k as [|k IH]; intros fuel lower upper Hk Hl Hu Hd Hcu Hcl; (destruct fuel as [|fuel]; [lia|]);
    cbn [size_loop]; rewrite (wrap_small 64 (lower + upper)) by (split; lia);
    set (size := (lower + upper) / 2);
    assert (lower ≤ size ≤ upper) as Hsz by (unfold size; split; [apply Z.div_le_lower_bound|apply Z.div_le_upper_bound]; lia);
    rewrite (proj2 (Z.eqb_neq size 0)), count_units_ok by lia.
  - assert (upper = lower) as -> by (cbn in Hd; lia). assert (size = lower) as -> by lia.
    rewrite (proj2 (Z.ltb_ge _ _)) by lia. rewrite Z.ltb_irrefl. by exists lower.
  - assert (2 * size ≤ lower + upper < 2 * size + 2) as Hmid.
    { unfold size. pose proof (Z.div_mod (lower + upper) 2 ltac:(lia)). pose proof (Z.mod_pos_bound (lower + upper) 2 ltac:(lia)). lia. }
    clearbody size. assert (2 ^ Z.of_nat (S k) = 2 * 2 ^ Z.of_nat k) as Hp by (rewrite Nat2Z.inj_succ, Z.pow_succ_r by lia; done).
    destruct (Z.ltb_spec bc (cnt size)) as [Hc|Hc].
    + rewrite (wrap_small 64 (size + 1)) by (split; lia).
      assert (size < upper) as Hlt by (destruct (decide (size = upper)) as [E|]; [rewrite E in Hc; lia|lia]).
      assert (∀ s, 0 < s < size + 1 → bc < cnt s) as Hcl'.
      { intros s Hs. pose proof (cnt_anti s size ltac:(lia)). lia. }
      destruct (Z.leb_spec upper (size + 1)) as [Hge|Hge]; [rewrite (proj2 (Z.ltb_ge (size + 1) upper)) by lia|rewrite (proj2 (Z.ltb_lt (size + 1) upper)) by lia].
      * assert (size + 1 = upper) as E by lia. rewrite E in Hcl' |- *. rewrite count_units_ok by lia. exists upper.
        split; [done|]. split; [lia|]. by split.
      * apply IH; first [done|lia].
    + destruct (Z.ltb_spec lower size) as [Hlt|Hge].
      * destruct (IH fuel lower size) as (r & Hr & Hr1 & Hr2); [lia|lia|lia|lia|done|done|]. exists r. split; [done|]. split; [lia|done].
      * assert (size = lower) as Es by lia. exists size. split; [done|]. split; [lia|]. split; [done|]. by rewrite Es.
Qed.
End Search.

(** ** [ComputeBlockCount] *)

Lemma blocks_nonneg sizes bs : Forall (λ s, 0 < s) sizes → 0 < bs → 0 ≤ blocks sizes bs.
Proof. intros HF Hb. apply zsum_nonneg. eapply Forall_impl; [exact HF|]. intros s Hs. apply cdiv_nonneg; cbn in *; lia. Qed.

Lemma blocks_le sizes bs : Forall (λ s, 0 < s) sizes → 0 < bs → blocks sizes bs ≤ zsum id sizes.
Proof. intros HF Hb. apply zsum_le. eapply Forall_impl; [exact HF|]. intros s Hs. apply cdiv_le; cbn in *; lia. Qed.

Lemma ComputeBlockCount_ok sizes bs : Forall (λ s, 0 < s) sizes → zsum id sizes < 2 ^ 61 → 0 < bs < 2 ^ 63 → bs mod 4 = 0 →
  ComputeBlockCount sizes bs = if 32768 <? blocks sizes bs then None else Some (blocks sizes bs, largest_loop sizes).
Proof.
  intros HF Hs Hb H4. unfold ComputeBlockCount. rewrite (proj2 (Z.eqb_neq bs 0)), H4 by lia. cbn [negb Z.eqb].
  pose proof (size_bound sizes HF Hs) as Hsz. pose proof (blocks_le sizes bs HF ltac:(lia)). pose proof (blocks_nonneg sizes bs HF ltac:(lia)).
  rewrite (sum_loop_ext 64 _ (λ f, cdiv f bs)), sum_loop_ok.
  - fold (blocks sizes bs). destruct (Z.ltb_spec 32768 (blocks sizes bs)); [done|]. by rewrite wrap_small by (split; lia).
  - eapply Forall_impl; [exact HF|]. intros s Hp. apply cdiv_nonneg; cbn in *; lia.
  - fold (blocks sizes bs). lia.
  - eapply Forall_impl; [exact Hsz|]. intros s Hp. cbn beta in *. apply ceil_div_ok; lia.
Qed.

(** ** Properties *)

(** Blocks of the size of the largest file: one for each file. *)
Lemma blocks_large sizes bs : Forall (λ s, 0 < s ≤ bs) sizes → blocks sizes bs = Z.of_nat (length sizes).
Proof.
  unfold blocks. induction 1 as [|s l Hs _ IH]; cbn [zsum length]; [done|].
  pose proof (cdiv_bounds s bs ltac:(lia) ltac:(lia)). assert (cdiv s bs = 1) by nia. lia.
Qed.

Lemma blocks_more sizes bs s : Forall (λ s, 0 < s) sizes → 0 < bs → s ∈ sizes → bs < s → Z.of_nat (length sizes) < blocks sizes bs.
Proof.
  unfold blocks. intros HF Hb Hin Hs. induction HF as [|a l Ha HF IH]; [by apply elem_of_nil in Hin|].
  pose proof (cdiv_bounds a bs ltac:(lia) Hb). assert (Z.of_nat (length l) ≤ zsum (λ f, cdiv f bs) l) as Hl.
  { clear -HF Hb. induction HF as [|a l Ha HF IH]; cbn [zsum length]; [lia|]. pose proof (cdiv_bounds a bs ltac:(lia) Hb). nia. }
  cbn [zsum length]. apply elem_of_cons in Hin as [->|Hin]; [nia|]. specialize (IH Hin). nia.
Qed.

(** The smallest block size with which there are at most [bc] blocks. *)
Record smallest (sizes : list Z) (bc bs : Z) : Prop := {
  sm_pos : 0 < bs < 2 ^ 63;
  sm_four : bs mod 4 = 0;
  sm_blocks : blocks sizes bs ≤ bc;
  sm_least : ∀ smaller, 0 < smaller < bs → smaller mod 4 = 0 → bc < blocks sizes smaller;
}.

Section Branches.
Context (sizes : list Z) (bc : Z).
Hypothesis Hpos : Forall (λ s, 0 < s) sizes.
Hypothesis Hsum : zsum id sizes < 2 ^ 61.
Hypothesis Hne : sizes ≠ [].

Lemma files_pos : 0 < Z.of_nat (length sizes).
Proof using Hpos Hsum Hne. destruct sizes; [done|cbn; lia]. Qed.

(** As many blocks as files *)
Lemma largest_smallest : smallest sizes (Z.of_nat (length sizes)) (round4 (largest_loop sizes)).
Proof using Hpos Hsum Hne.
  destruct (largest_loop_ok sizes) as (Hl1 & Hl2 & Hl3). destruct Hl3 as [Hl3|Hl3].
  { destruct sizes as [|s l]; [done|]. apply Forall_cons in Hl1 as [? _]. apply Forall_cons in Hpos as [? _]. lia. }
  pose proof (proj1 (Forall_forall _ _) (size_bound sizes Hpos Hsum) _ Hl3) as Hl. cbn beta in Hl. rewrite round4_ok by lia.
  pose proof (cdiv_bounds (largest_loop sizes) 4 ltac:(lia) ltac:(lia)) as Hc. split; [lia|by rewrite Z.mul_comm, Z.mod_mul by lia| |].
  - rewrite blocks_large; [lia|]. apply Forall_forall. intros s Hin. pose proof (proj1 (Forall_forall _ _) Hl1 _ Hin).
    pose proof (proj1 (Forall_forall _ _) Hpos _ Hin). cbn beta in *. lia.
  - intros bs Hb H4. apply (blocks_more sizes bs (largest_loop sizes)); [done|lia|done|].
    pose proof (Z.div_mod bs 4 ltac:(lia)). lia.
Qed.

(** More blocks than there are units of four bytes *)
Lemma four_smallest : zsum q sizes < bc → smallest sizes bc 4.
Proof using Hpos Hsum.
  intros Hsmall. split; [lia|done| |].
  - change 4 with (4 * 1). rewrite <- cnt_blocks by (done || lia). pose proof (cnt_le sizes Hpos Hsum 1 ltac:(lia)). lia.
  - intros bs Hb H4. pose proof (Z.div_mod bs 4 ltac:(lia)). lia.
Qed.

(** The search *)
Lemma search_smallest : let total := zsum q sizes in let d := bc - Z.of_nat (length sizes) in 0 < d → bc ≤ total →
  ∃ size, size_loop 65 sizes bc (total / bc) (cdiv total d) = Some (size, cnt sizes size) ∧ 0 < cnt sizes size ≤ bc ∧ 0 < size < 2 ^ 61 ∧
    smallest sizes bc (size * 4).
Proof using Hpos Hsum Hne.
  intros total d Hd Hbig. pose proof files_pos. pose proof (total_bound sizes Hpos Hsum) as Ht. fold total in Ht.
  pose proof (cdiv_bounds total d ltac:(lia) ltac:(lia)) as Hu. set (lower := total / bc).
  assert (bc * lower ≤ total < bc * lower + bc) as Hl.
  { pose proof (Z.div_mod total bc ltac:(lia)). pose proof (Z.mod_pos_bound total bc ltac:(lia)). unfold lower. lia. }
  clearbody lower. set (upper := cdiv total d) in *. clearbody upper. assert (d ≤ bc) by lia.
  assert (1 ≤ lower) as Hl1 by nia. assert (1 ≤ upper) as Hu1 by nia. assert (upper ≤ total) as Hut by nia.
  assert (lower ≤ upper) as Hlu by (apply (Z.mul_le_mono_pos_l _ _ bc); [lia|]; assert (d * upper ≤ bc * upper) by nia; lia).
  destruct (size_loop_ok sizes bc Hpos Hsum 61 65 lower upper) as (size & Hr & Hs1 & Hs2 & Hs3);
    [lia|lia|lia|change (Z.of_nat 61) with 61; lia|apply upper_ok; first [done|lia]|intros s Hb; apply (lower_ok sizes bc Hpos Hsum s lower); lia|].
  assert (total ≤ size * cnt sizes size) as Hge.
  { unfold cnt, total. rewrite <- zsum_scale. apply zsum_le. eapply Forall_impl; [exact (q_bound sizes Hpos Hsum)|]. intros s Hq. cbn beta in *.
    pose proof (cdiv_bounds (q s) size ltac:(lia) ltac:(lia)). lia. }
  exists size. split; [done|]. split; [nia|]. split; [lia|]. split; [lia|by apply Z.mod_mul|by rewrite Z.mul_comm, <- cnt_blocks by (done || lia)|].
  intros bs Hb H4. pose proof (Z.div_mod bs 4 ltac:(lia)) as Eb. rewrite H4, Z.add_0_r in Eb. rewrite Eb, <- cnt_blocks by (done || lia).
  apply Hs3. lia.
Qed.

Lemma ComputeBlockSize_ok : Z.of_nat (length sizes) ≤ bc ≤ 32768 → ∃ bs, ComputeBlockSize sizes bc 0 = Some (Some bs) ∧ smallest sizes bc bs.
Proof using Hpos Hsum Hne.
  intros Hbc. pose proof files_pos. pose proof (total_bound sizes Hpos Hsum) as Ht. unfold ComputeBlockSize. rewrite Z.eqb_refl. cbn [negb].
  rewrite (proj2 (Z.ltb_ge _ _)) by lia. destruct (Z.eqb_spec bc (Z.of_nat (length sizes))) as [->|Hneq].
  { eexists. split; [reflexivity|apply largest_smallest]. }
  rewrite total_ok by done. destruct (Z.ltb_spec (zsum q sizes) bc) as [Hsmall|Hbig].
  { eexists. split; [reflexivity|by apply four_smallest]. }
  unfold udiv. rewrite !(proj2 (Z.eqb_neq _ _)) by lia. cbn [mbind option_bind]. rewrite wrap_small by (split; lia).
  replace (zsum q sizes + bc - Z.of_nat (length sizes) - 1) with (zsum q sizes + (bc - Z.of_nat (length sizes)) - 1) by lia.
  fold (cdiv (zsum q sizes) (bc - Z.of_nat (length sizes))).
  destruct search_smallest as (size & -> & Hc & Hs & Hsm); [lia|lia|]. cbn [mbind option_bind].
  rewrite (proj2 (Z.ltb_ge _ _)), (proj2 (Z.eqb_neq _ _)), wrap_small by (first [lia|split; lia]). by eexists.
Qed.
End Branches.

(** C27: the block size computed for a number of blocks is the smallest that is possible.  For
    files of at least one byte and at least as many blocks as files, the search for the
    block size ends without overflow or division by zero.  The size is a positive multiple
    of four with which [ComputeBlockCount] accepts the files and counts no more blocks than
    asked for, and with every smaller multiple of four there would be more. *)
Theorem ComputeBlockSize_smallest (sizes : list Z) (blockcount : Z) :
  sizes ≠ [] → Forall (λ s, 0 < s) sizes → zsum id sizes < 2 ^ 61 → Z.of_nat (length sizes) ≤ blockcount ≤ 32768 →
  ∃ blocksize count, ComputeBlockSize sizes blockcount 0 = Some (Some blocksize) ∧ 0 < blocksize ∧ blocksize mod 4 = 0 ∧
    ComputeBlockCount sizes blocksize = Some (count, largest_loop sizes) ∧ count ≤ blockcount ∧
    (∀ smaller, 0 < smaller < blocksize → smaller mod 4 = 0 → blockcount < blocks sizes smaller).
Proof.
  intros Hne HF Hs Hbc. destruct (ComputeBlockSize_ok sizes blockcount HF Hs Hne Hbc) as (bs & Hbs & [H1 H2 H3 H4]).
  exists bs, (blocks sizes bs). rewrite ComputeBlockCount_ok, (proj2 (Z.ltb_ge _ _)) by (done || lia). split_and!; first [done|lia].
Qed.

Lemma ComputeBlockSize_smallest_witness :
  ∃ blocksize count, ComputeBlockSize [100; 1; 37] 10 0 = Some (Some blocksize) ∧ 0 < blocksize ∧ blocksize mod 4 = 0 ∧
    ComputeBlockCount [100; 1; 37] blocksize = Some (count, largest_loop [100; 1; 37]) ∧ count ≤ 10 ∧
    (∀ smaller, 0 < smaller < blocksize → smaller mod 4 = 0 → 10 < blocks [100; 1; 37] smaller).
Proof. apply (ComputeBlockSize_smallest [100; 1; 37] 10); [done|repeat constructor|reflexivity|done]. Defined.

(** ** The default block size *)

Lemma zsum_replicate f n s : zsum f (replicate n s) = Z.of_nat n * f s.
Proof. induction n as [|n IH]; cbn [replicate zsum]; lia. Qed.

(** With the default block size there are about 2000 blocks more than files at most. *)
Lemma default_blocksize_blocks sizes : Forall (λ s, 0 < s) sizes → zsum id sizes < 2 ^ 61 →
  blocks sizes (default_blocksize sizes) ≤ 2000 + Z.of_nat (length sizes).
Proof.
  intros HF Hs. assert (0 ≤ zsum id sizes) as H0 by (apply zsum_nonneg; eapply Forall_impl; [exact HF|]; unfold id; cbn; lia).
  unfold default_blocksize. rewrite sum_loop_ok; [|eapply Forall_impl; [exact HF|]; unfold id; cbn; lia|lia].
  set (total := zsum id sizes) in *. rewrite !wrap_small by (split; lia).
  replace (total + 1999) with (total + 2000 - 1) by lia. replace (total + 32767) with (total + 32768 - 1) by lia.
  fold (cdiv total 2000) (cdiv total 32768). pose proof (cdiv_bounds total 2000 H0 ltac:(lia)) as H1.
  pose proof (cdiv_bounds total 32768 H0 ltac:(lia)) as H2.
  rewrite !round4_ok by lia. set (a := cdiv (Z.max (cdiv total 2000) 4) 4). set (b := cdiv (Z.max (cdiv total 32768) 4) 4).
  assert (b ≤ a) by (unfold a, b, cdiv at 1 3; apply Z.div_le_mono; lia). rewrite (proj2 (Z.ltb_ge _ _)) by lia.
  pose proof (cdiv_bounds (Z.max (cdiv total 2000) 4) 4 ltac:(lia) ltac:(lia)) as H3. fold a in H3. set (bs := 4 * a) in *.
  assert (total ≤ 2000 * bs) as H4 by lia. assert (4 ≤ bs) by lia.
  assert (bs * blocks sizes bs ≤ total + (bs - 1) * Z.of_nat (length sizes)); [|nia].
  unfold blocks, total. rewrite <- zsum_scale, <- zsum_shift. apply zsum_le. eapply Forall_impl; [exact HF|]. intros s Hs0. unfold id. cbn beta in *.
  pose proof (cdiv_bounds s bs ltac:(lia) ltac:(lia)). lia.
Qed.

(** The limit of 32768 blocks is nevertheless exceeded when there are many files: the lower
    bound of the block size does not account for partial blocks. *)
Lemma default_blocksize_too_small n : Z.of_nat n = 31000 →
  ComputeBlockCount (4000000 :: replicate n 1) (default_blocksize (4000000 :: replicate n 1)) = None.
Proof.
  intros Hn. set (many := 4000000 :: replicate n 1).
  assert (Forall (λ s, 0 < s) many) as HF by (constructor; [done|by apply Forall_replicate]).
  assert (zsum id many = 4031000) as Hs by (unfold many; cbn [zsum]; by rewrite zsum_replicate, Hn).
  assert (default_blocksize many = 2016) as ->.
  { unfold default_blocksize. rewrite sum_loop_ok, Hs; [done|eapply Forall_impl; [exact HF|unfold id; cbn; lia]|by rewrite Hs]. }
  rewrite ComputeBlockCount_ok by (rewrite ?Hs; done). unfold blocks, many. cbn [zsum]. by rewrite zsum_replicate, Hn.
Qed.

(** A redundancy of zero is rejected. *)
Lemma zero_redundancy_rejected rbc sbc bs first scheme n lfs : ComputeRecoveryBlockCount rbc sbc bs first scheme n false 0 0 lfs = Some None.
Proof. reflexivity. Qed.
