(* ===== verification/CreatorLayout.v ===== *)
(** * CreatorLayout.v: which packets are placed where in the recovery files

    [Par2Creator::InitialiseOutputFiles] and [CalculateProcessBlockSize] (src/par2creator.cpp),
    [CriticalPacket::CompareLess] and [CriticalPacketEntry].  A result [None] means undefined
    behaviour or a loop that does not end, [Some None] that the code reports an error. *)

From stdpp Require Import sorting.
From S2P Require Import Prelude Bytes Md5 Md5Single DiskFile HashTable Packets Parameters.

(** ** How many recovery blocks each file holds *)

Record FileAllocation := { a_exponent : Z; a_count : Z }.

Definition set_alloc (l : list FileAllocation) (filenumber exponent count : Z) : list FileAllocation :=
  <[Z.to_nat filenumber := {| a_exponent := exponent; a_count := count |}]> l.

(** The loop of [scUniform]; [todo] files remain *)
Fixpoint uniform_loop (todo : nat) (filenumber base remainder exponent : Z) (l : list FileAllocation) : Z * list FileAllocation :=
  match todo with
  | O => (exponent, l)
  | S todo =>
      let count := if filenumber <? remainder then base + 1 else base in
      uniform_loop todo (filenumber + 1) base remainder (wrap 32 (exponent + count)) (set_alloc l filenumber exponent count)
  end.

(** The loop of [scVariable] that finds the number of blocks in the smallest file *)
Fixpoint low_loop (fuel : nat) (lowblockcount maxrecoveryblocks recoveryblockcount : Z) : option Z :=
  if maxrecoveryblocks <? recoveryblockcount then
    match fuel with
    | O => None
    | S fuel => low_loop fuel (wrap 32 (Z.shiftl lowblockcount 1)) (wrap 32 (Z.shiftl maxrecoveryblocks 1)) recoveryblockcount
    end
  else Some lowblockcount.

(** The loop of [scVariable] and the second of [scLimited]: twice as many blocks in each file *)
Fixpoint doubling_loop (todo : nat) (filenumber count blocks exponent : Z) (l : list FileAllocation) : Z * list FileAllocation :=
  match todo with
  | O => (exponent, l)
  | S todo =>
      let number := Z.min count blocks in
      doubling_loop todo (filenumber + 1) (wrap 32 (Z.shiftl count 1)) (blocks - number) (wrap 32 (exponent + number))
        (set_alloc l filenumber exponent number)
  end.

(** The first loop of [scLimited]: full files at the top *)
Fixpoint top_loop (filenumber : nat) (largest blocks exponent : Z) (l : list FileAllocation) : nat * Z * list FileAllocation :=
  match filenumber with
  | O => (O, blocks, l)
  | S n =>
      if wrap 32 (2 * largest) <=? blocks then
        let exponent := wrap 32 (exponent - largest) in
        top_loop n largest (blocks - largest) exponent (set_alloc l (Z.of_nat n) exponent largest)
      else (filenumber, blocks, l)
  end.

(** The allocation for [filecount] recovery files and one file without recovery blocks *)
Definition allocate (scheme : Scheme) (firstrecoveryblock recoveryblockcount : Z) (filecount : nat) (largestfilesize blocksize : Z)
    : option (option (list FileAllocation)) :=
  let l := replicate (S filecount) {| a_exponent := 0; a_count := 0 |} in
  let finish (r : Z * list FileAllocation) := Some (Some (set_alloc (snd r) (Z.of_nat filecount) (fst r) 0)) in
  if Nat.eqb filecount 0 then finish (firstrecoveryblock, l) else
  match scheme with
  | scUnknown => Some None
  | scUniform =>
      finish (uniform_loop filecount 0 (recoveryblockcount / Z.of_nat filecount) (recoveryblockcount mod Z.of_nat filecount) firstrecoveryblock l)
  | scVariable =>
      if Nat.leb 31 filecount then None else
      low ← low_loop 33 1 (Z.shiftl 1 (Z.of_nat filecount) - 1) recoveryblockcount;
      finish (doubling_loop filecount 0 low recoveryblockcount firstrecoveryblock l)
  | scLimited =>
      largest ← udiv (wrap 64 (wrap 64 (largestfilesize + blocksize) - 1)) blocksize;
      let largest := wrap 32 largest in
      let '(files, blocks, l) := top_loop filecount largest recoveryblockcount (wrap 32 (firstrecoveryblock + recoveryblockcount)) l in
      finish (doubling_loop files 0 1 blocks firstrecoveryblock l)
  end.

(** ** File names *)

(** [for (u32 t = limit; t >= 10; t /= 10) digits++] *)
Fixpoint digits_loop (fuel : nat) (t digits : Z) : option Z :=
  if 10 <=? t then
    match fuel with
    | O => None
    | S fuel => digits_loop fuel (t / 10) (digits + 1)
    end
  else Some digits.

(** A number written to a stream: its decimal digits, padded with '0' to the width *)
Fixpoint decimal (fuel : nat) (t : Z) : list Z :=
  match fuel with
  | O => [48 + t mod 10]
  | S fuel => (if t <? 10 then [] else decimal fuel (t / 10)) ++ [48 + t mod 10]
  end.
Definition setw (digits t : Z) : list Z :=
  let text := decimal 10 t in replicate (Z.to_nat digits - length text) 48 ++ text.

(** ".vol", "+" and ".par2" *)
Definition volume_name (parfilename : list Z) (digitsLow digitsCount : Z) (a : FileAllocation) : list Z :=
  parfilename ++ [46; 118; 111; 108] ++ setw digitsLow (a_exponent a) ++ [43] ++ setw digitsCount (a_count a) ++ [46; 112; 97; 114; 50].
Definition main_name (parfilename : list Z) : list Z := parfilename ++ [46; 112; 97; 114; 50].

Definition limit_loop (f : FileAllocation → Z) (l : list FileAllocation) : Z := foldl (λ limit a, if limit <? f a then f a else limit) 0 l.

(** [_MAX_PATH] *)
Definition MAX_PATH : nat := 4095.

Definition file_names (parfilename : list Z) (l : list FileAllocation) : option (option (list (list Z))) :=
  digitsLow ← digits_loop 10 (limit_loop a_exponent l) 1;
  digitsCount ← digits_loop 10 (limit_loop a_count l) 1;
  let names := (volume_name parfilename digitsLow digitsCount <$> take (length l - 1) l) ++ [main_name parfilename] in
  Some (if forallb (λ name, Nat.leb (length name) MAX_PATH) names then Some names else None).

(** ** The order of the critical packets *)

(** [CriticalPacket::CompareLess] *)
Definition type_value (p : list Z) : Z :=
  match nth 8 (h_type p) 0 with
  | 77 => 0
  | 70 => 1
  | 73 => 2
  | 67 => 3
  | 82 => 4
  | _ => 5
  end.
Definition CompareLess (left right : CriticalPacket) : bool :=
  let l := packetdata left in
  let r := packetdata right in
  if type_value l <? type_value r then true else
  if type_value r <? type_value l then false else
  if type_value l =? 1 then md5_less (slice l 64 16) (slice r 64 16) else
  if type_value l =? 2 then md5_less (slice l 64 16) (slice r 64 16) else
  if type_value l =? 4 then le_join (slice l 64 4) <? le_join (slice r 64 4) else false.

(** [criticalpackets.sort(CriticalPacket::CompareLess)] *)
#[local] Instance compare_dec : RelDecision (λ a b : CriticalPacket, CompareLess b a = false).
Proof. intros a b. apply _. Defined.
Definition sort_critical (l : list CriticalPacket) : list CriticalPacket := merge_sort (λ a b, CompareLess b a = false) l.

(** ** The places of the packets *)

(** An entry points to a packet, which is finished only later: to one of the critical packets, or the creator packet *)
Inductive PacketRef := Critical (n : nat) | Creator.
Record CriticalPacketEntry := { e_diskfile : nat; e_offset : Z; e_packet : PacketRef }.

(** [DiskFile::Create] among the files with the given names: the file ends with the low byte of its size *)
Definition Create (existing : list (list Z)) (name : list Z) (filesize : Z) : option DiskFile :=
  if MaxOffset <? filesize then None else
  if bool_decide (name ∈ existing) then None else
  Some {| contents := if 0 <? filesize then replicate (Z.to_nat (filesize - 1)) 0 ++ [wrap 8 filesize] else [];
          stream := filesize; offset := filesize; filesize := filesize |}.

Section Layout.
(** The memory of a new hash context, the sizes of the packets, the set id and the block size *)
Context (scratch : MD5Single) (criticalpackets : list CriticalPacket) (creatorpacket : CriticalPacket) (setid : list Z) (blocksize : Z).

(** One critical packet is added at the offset. *)
Definition add_entry (diskfile : nat) (offset : Z) (ref : PacketRef) (p : CriticalPacket) (entries : list CriticalPacketEntry)
    : Z * list CriticalPacketEntry :=
  (wrap 64 (offset + Z.of_nat (packetlength p)), entries ++ [{| e_diskfile := diskfile; e_offset := offset; e_packet := ref |}]).

(** One set of critical packets, from number [n] *)
Fixpoint one_set (diskfile : nat) (offset : Z) (n : nat) (packets : list CriticalPacket) (entries : list CriticalPacketEntry)
    : Z * list CriticalPacketEntry :=
  match packets with
  | [] => (offset, entries)
  | p :: packets =>
      let '(offset, entries) := add_entry diskfile offset (Critical n) p entries in
      one_set diskfile offset (S n) packets entries
  end.

(** The loop that adds some critical packets *)
Fixpoint critical_loop (fuel : nat) (diskfile : nat) (packetCount count : Z) (next : nat) (offset : Z) (entries : list CriticalPacketEntry)
    : option (Z * nat * Z * list CriticalPacketEntry) :=
  if count <=? packetCount then
    match fuel with
    | O => None
    | S fuel =>
        let next := if Nat.eqb next (length criticalpackets) then O else next in
        packet ← criticalpackets !! next;
        let '(offset, entries) := add_entry diskfile offset (Critical next) packet entries in
        critical_loop fuel diskfile (packetCount - count) count (S next) offset entries
    end
  else Some (packetCount, next, offset, entries).

(** The loop over the recovery packets of a file *)
Fixpoint recovery_loop (fuel : nat) (diskfile : nat) (exponent limit copies count packetCount : Z) (next : nat) (offset : Z)
    (packets : list RecoveryPacket) (entries : list CriticalPacketEntry) : option (Z * list RecoveryPacket * list CriticalPacketEntry) :=
  if exponent <? limit then
    match fuel with
    | O => None
    | S fuel =>
        let packets := packets ++ [RecoveryPacket_Create scratch diskfile offset blocksize exponent setid] in
        let offset := wrap 64 (offset + wrap 64 (68 + blocksize)) in
        let packetCount := wrap 64 (packetCount + wrap 64 (copies * Z.of_nat (length criticalpackets))) in
        '(packetCount, next, offset, entries) ← critical_loop (Z.to_nat packetCount) diskfile packetCount count next offset entries;
        recovery_loop fuel diskfile (wrap 32 (exponent + 1)) limit copies count packetCount next offset packets entries
    end
  else Some (offset, packets, entries).

(** One recovery file: its size *)
Definition layout_file (diskfile : nat) (a : FileAllocation) (packets : list RecoveryPacket) (entries : list CriticalPacketEntry)
    : option (Z * list RecoveryPacket * list CriticalPacketEntry) :=
  let count := a_count a in
  '(offset, packets, entries) ←
    (if count =? 0 then let '(offset, entries) := one_set diskfile 0 0 criticalpackets entries in Some (offset, packets, entries)
     else
       copies ← bit_loop 32 count 0;
       recovery_loop (Z.to_nat count) diskfile (a_exponent a) (wrap 32 (a_exponent a + count)) copies count 0 (length criticalpackets) 0
         packets entries);
  let '(offset, entries) := add_entry diskfile offset Creator creatorpacket entries in
  Some (offset, packets, entries).

(** All files: they are created one after another *)
Fixpoint layout_files (diskfile : nat) (allocations : list FileAllocation) (names existing : list (list Z))
    (packets : list RecoveryPacket) (entries : list CriticalPacketEntry) (files : list DiskFile)
    : option (option (list RecoveryPacket * list CriticalPacketEntry * list DiskFile)) :=
  match allocations, names with
  | a :: allocations, name :: names =>
      '(size, packets, entries) ← layout_file diskfile a packets entries;
      match Create existing name size with
      | None => Some None
      | Some d => layout_files (S diskfile) allocations names (name :: existing) packets entries (files ++ [d])
      end
  | _, _ => Some (Some (packets, entries, files))
  end.
End Layout.

(** What [InitialiseOutputFiles] leaves behind *)
Record Output := { o_critical : list CriticalPacket; o_packets : list RecoveryPacket; o_entries : list CriticalPacketEntry; o_files : list DiskFile }.

(** [InitialiseOutputFiles] *)
Definition InitialiseOutputFiles (scratch : MD5Single) (parfilename : list Z) (existing : list (list Z)) (scheme : Scheme)
    (firstrecoveryblock recoveryblockcount : Z) (recoveryfilecount : nat) (largestfilesize blocksize : Z)
    (criticalpackets : list CriticalPacket) (creatorpacket : CriticalPacket) (setid : list Z) : option (option Output) :=
  allocations ← allocate scheme firstrecoveryblock recoveryblockcount recoveryfilecount largestfilesize blocksize;
  match allocations with
  | None => Some None
  | Some allocations =>
      names ← file_names parfilename allocations;
      match names with
      | None => Some None
      | Some names =>
          let criticalpackets := sort_critical criticalpackets in
          r ← layout_files scratch criticalpackets creatorpacket setid blocksize 0 allocations names existing [] [] [];
          Some (option_map (λ '(packets, entries, files),
            {| o_critical := criticalpackets; o_packets := packets; o_entries := entries; o_files := files |}) r)
      end
  end.

(** ** How much is processed at a time *)

(** [CalculateProcessBlockSize]: the size of a chunk, and whether the hashes are computed along with the recovery data *)
Definition CalculateProcessBlockSize (memorylimit blocksize recoveryblockcount sourceblockcount : Z) : option (Z * bool) :=
  if recoveryblockcount =? 0 then Some (0, false) else
  let blockoverhead := wrap 32 (2 + Z.min 24 (wrap 32 (sourceblockcount + 1))) in
  let total := wrap 32 (recoveryblockcount + blockoverhead) in
  '(chunksize, deferhashcomputation) ←
    (if memorylimit <? wrap 64 (blocksize * total) then
       quotient ← udiv memorylimit total; Some (Z.ldiff quotient 3, false)
     else Some (blocksize, true));
  Some (if 33554432 <? chunksize then (33554432, false) else (chunksize, deferhashcomputation)).
