(* ===== verification/CreatorAllocSpec.v ===== *)
(** * CreatorAllocSpec.v: the recovery files hold every recovery block once

    The three schemes of [InitialiseOutputFiles], with the number of files computed by
    [ComputeRecoveryFileCount], and the names of the files. *)

From S2P Require Import Prelude Parameters ParametersSpec DiskFile CreatorLayout.

(** ** Lists of allocations *)

(** Files with the given numbers of blocks, the exponents following each other. *)
Fixpoint allocs (exponent : Z) (counts : list Z) : list FileAllocation :=
  match counts with
  | [] => []
  | c :: counts => {| a_exponent := exponent; a_count := c |} :: allocs (exponent + c) counts
  end.

Lemma length_allocs e counts : length (allocs e counts) = length counts.
Proof. revert e. induction counts as [|c counts IH]; intros e; cbn [allocs length]; [done|]. by rewrite IH. Qed.

Lemma allocs_app e c1 c2 : allocs e (c1 ++ c2) = allocs e c1 ++ allocs (e + zsum id c1) c2.
Proof.
  revert e. induction c1 as [|c c1 IH]; intros e; cbn [allocs app zsum]; [by rewrite Z.add_0_r|].
  rewrite IH. by unfold id at 2; rewrite Z.add_assoc.
Qed.

Lemma zsum_app f l1 l2 : zsum f (l1 ++ l2) = zsum f l1 + zsum f l2.
Proof. induction l1 as [|x l1 IH]; cbn [app zsum]; [done|]. rewrite IH. lia. Qed.

(** The exponents of all blocks. *)
Lemma allocs_exponents e counts : Forall (λ c, 0 ≤ c) counts →
  mjoin ((λ a, seqZ (a_exponent a) (a_count a)) <$> allocs e counts) = seqZ e (zsum id counts).
Proof.
  intros HF. revert e. induction HF as [|c counts Hc HF IH]; intros e; cbn [allocs zsum fmap list_fmap mjoin list_join a_exponent a_count]; [done|].
  rewrite IH. unfold id at 2. assert (0 ≤ zsum id counts) by (by apply zsum_nonneg). by rewrite seqZ_app by lia.
Qed.

Lemma set_alloc_middle pre x post e c : set_alloc (pre ++ x :: post) (Z.of_nat (length pre)) e c
  = (pre ++ [{| a_exponent := e; a_count := c |}]) ++ post.
Proof.
  unfold set_alloc. rewrite Nat2Z.id, insert_app_r_alt, Nat.sub_diag by lia. cbn [insert list_insert]. by rewrite <- app_assoc.
Qed.

(** ** The loops *)

Definition uniform_counts (base remainder filenumber : Z) (todo : nat) : list Z :=
  (λ i, if i <? remainder then base + 1 else base) <$> seqZ filenumber (Z.of_nat todo).

Lemma uniform_loop_ok todo pre rest base remainder e : length rest = todo → 0 ≤ base → 0 ≤ e →
  e + zsum id (uniform_counts base remainder (Z.of_nat (length pre)) todo) < 2 ^ 32 → ∀ post,
  uniform_loop todo (Z.of_nat (length pre)) base remainder e (pre ++ rest ++ post)
  = (e + zsum id (uniform_counts base remainder (Z.of_nat (length pre)) todo),
     pre ++ allocs e (uniform_counts base remainder (Z.of_nat (length pre)) todo) ++ post).
Proof.
  intros Hr Hb. revert pre e todo Hr. induction rest as [|x rest IH]; intros pre e [|todo] Hr He Hs post; try discriminate.
  { by rewrite Z.add_0_r. }
  injection Hr as Hr. revert Hs. unfold uniform_counts. rewrite seqZ_cons by lia.
  replace (Z.pred (Z.of_nat (S todo))) with (Z.of_nat todo) by lia. cbn [fmap list_fmap zsum allocs uniform_loop].
  set (c := if _ <? remainder then _ else _). assert (0 ≤ c) by (unfold c; destruct (_ <? _); lia).
  specialize (IH (pre ++ [{| a_exponent := e; a_count := c |}]) (e + c) todo Hr).
  rewrite length_app in IH. cbn [length] in IH. rewrite Nat2Z.inj_add in IH. fold (uniform_counts base remainder (Z.succ (Z.of_nat (length pre))) todo).
  change (Z.of_nat 1) with 1 in IH. rewrite Z.add_1_r in IH. unfold id at 1 3. intros Hs.
  assert (0 ≤ zsum id (uniform_counts base remainder (Z.succ (Z.of_nat (length pre))) todo)).
  { apply zsum_nonneg, Forall_fmap, Forall_forall. intros i _. unfold id, compose. destruct (i <? remainder); lia. }
  rewrite wrap_small by (split; lia). cbn [app]. rewrite set_alloc_middle, Z.add_1_r.
  rewrite IH by lia. cbn [a_exponent]. rewrite <- app_assoc. f_equal. lia.
Qed.

(** Doubling numbers of blocks *)
Fixpoint doubling_counts (todo : nat) (count blocks : Z) : list Z :=
  match todo with
  | O => []
  | S todo => Z.min count blocks :: doubling_counts todo (2 * count) (blocks - Z.min count blocks)
  end.

Lemma length_doubling todo count blocks : length (doubling_counts todo count blocks) = todo.
Proof. revert count blocks. induction todo as [|todo IH]; intros; cbn [doubling_counts length]; [done|]. by rewrite IH. Qed.

Lemma doubling_nonneg todo count blocks : 0 ≤ count → 0 ≤ blocks → Forall (λ c, 0 ≤ c) (doubling_counts todo count blocks).
Proof. revert count blocks. induction todo as [|todo IH]; intros; cbn [doubling_counts]; constructor; [lia|]. apply IH; lia. Qed.

Lemma doubling_sum todo count blocks : 0 ≤ count → 0 ≤ blocks →
  zsum id (doubling_counts todo count blocks) = Z.min blocks (count * (2 ^ Z.of_nat todo - 1)).
Proof.
  revert count blocks. induction todo as [|todo IH]; intros count blocks Hc Hb; cbn [doubling_counts zsum].
  { change (2 ^ Z.of_nat 0) with 1. lia. }
  rewrite IH by lia. rewrite Nat2Z.inj_succ, Z.pow_succ_r by lia. unfold id.
  assert (0 < 2 ^ Z.of_nat todo) by lia. set (p := 2 ^ Z.of_nat todo) in *. clearbody p. destruct (Z.min_spec count blocks) as [[? ->]|[? ->]]; nia.
Qed.

(** If all the blocks are needed, none of the files is empty. *)
Lemma doubling_pos todo count blocks : 0 < count → count * (2 ^ (Z.of_nat todo - 1) - 1) < blocks →
  Forall (λ c, 0 < c) (doubling_counts todo count blocks).
Proof.
  revert count blocks. induction todo as [|todo IH]; intros count blocks Hc Hb; cbn [doubling_counts]; [constructor|].
  replace (Z.of_nat (S todo) - 1) with (Z.of_nat todo) in Hb by lia. assert (0 < 2 ^ Z.of_nat todo) by lia. constructor; [nia|].
  destruct todo as [|todo]; [constructor|]. apply IH; [lia|]. replace (Z.of_nat (S todo) - 1) with (Z.of_nat todo) by lia.
  rewrite Nat2Z.inj_succ, Z.pow_succ_r in Hb by lia. assert (0 < 2 ^ Z.of_nat todo) by lia. nia.
Qed.

Lemma doubling_loop_ok todo pre rest count blocks e : length rest = todo → 0 < count → count * 2 ^ Z.of_nat todo < 2 ^ 32 →
  0 ≤ blocks → 0 ≤ e → e + blocks < 2 ^ 32 → ∀ post,
  doubling_loop todo (Z.of_nat (length pre)) count blocks e (pre ++ rest ++ post)
  = (e + zsum id (doubling_counts todo count blocks), pre ++ allocs e (doubling_counts todo count blocks) ++ post).
Proof.
  revert pre todo count blocks e. induction rest as [|x rest IH]; intros pre [|todo] count blocks e Hr Hc Hb Hbl He Hs post; try discriminate.
  { by rewrite Z.add_0_r. }
  injection Hr as Hr. rewrite Nat2Z.inj_succ, Z.pow_succ_r in Hb by lia. assert (0 < 2 ^ Z.of_nat todo) by lia.
  cbn [doubling_loop doubling_counts zsum allocs]. rewrite Z.shiftl_mul_pow2, (Z.mul_comm count) by lia. change (2 ^ 1) with 2.
  rewrite !wrap_small by (split; [lia|nia]). cbn [app]. rewrite set_alloc_middle.
  specialize (IH (pre ++ [{| a_exponent := e; a_count := Z.min count blocks |}]) todo (2 * count) (blocks - Z.min count blocks) (e + Z.min count blocks) Hr).
  rewrite length_app in IH. cbn [length] in IH. rewrite Nat2Z.inj_add in IH. change (Z.of_nat 1) with 1 in IH.
  rewrite IH by lia. rewrite <- app_assoc. unfold id at 2. f_equal. lia.
Qed.

(** Full files at the top *)
Lemma top_loop_ok pre largest blocks e post : 0 < largest ≤ 2 ^ 30 → 0 ≤ blocks ≤ e → e < 2 ^ 32 →
  ∃ k, (k ≤ length pre)%nat ∧
    top_loop (length pre) largest blocks e (pre ++ post)
    = ((length pre - k)%nat, blocks - Z.of_nat k * largest,
       take (length pre - k) pre ++ allocs (e - Z.of_nat k * largest) (replicate k largest) ++ post) ∧
    (k = O ∨ largest ≤ blocks - Z.of_nat k * largest) ∧ ((length pre = k)%nat ∨ blocks - Z.of_nat k * largest < 2 * largest).
Proof.
  intros Hl. revert blocks e post. induction pre as [|x pre IH] using rev_ind; intros blocks e post Hb He.
  { exists O. split_and!; [done| |by left|by left]. cbn [length top_loop take replicate allocs app]. by rewrite Z.mul_0_l, Z.sub_0_r. }
  rewrite length_app, Nat.add_1_r. cbn [top_loop]. rewrite wrap_small by (split; lia). destruct (Z.leb_spec (2 * largest) blocks) as [Hge|Hlt].
  - rewrite wrap_small by (split; lia). rewrite <- app_assoc. cbn [app]. rewrite set_alloc_middle, <- app_assoc. cbn [app].
    destruct (IH (blocks - largest) (e - largest) ({| a_exponent := e - largest; a_count := largest |} :: post)) as (k & Hk & E & H1 & H2); [lia|lia|].
    exists (S k). rewrite E. split; [lia|]. split; [|split; [right; lia|destruct H2; [left; lia|right; lia]]].
    rewrite Nat.sub_succ. rewrite take_app_le by lia. f_equal; [f_equal; lia|]. f_equal.
    rewrite <- (Nat.add_1_r k), replicate_add, allocs_app. cbn [replicate allocs]. rewrite <- app_assoc. cbn [app].
    rewrite zsum_replicate. unfold id. replace (e - Z.of_nat (k + 1) * largest) with (e - largest - Z.of_nat k * largest) by lia.
    replace (e - largest - Z.of_nat k * largest + Z.of_nat k * largest) with (e - largest) by lia. done.
  - exists O. split_and!; [lia| |by left|right; lia]. cbn [replicate allocs app]. rewrite Nat.sub_0_r, Z.mul_0_l, !Z.sub_0_r.
    rewrite firstn_all2 by (rewrite length_app; cbn [length]; lia). done.
Qed.

(** ** The number of files *)

Definition bitlen (x : Z) : Z := if 0 <? x then Z.log2 x + 1 else 0.

Lemma bit_loop_ok fuel x n : 0 ≤ x < 2 ^ Z.of_nat fuel → 0 ≤ n → n + Z.of_nat fuel < 2 ^ 32 → bit_loop fuel x n = Some (n + bitlen x).
Proof.
  revert x n. induction fuel as [|fuel IH]; intros x n Hx Hn Hb; cbn [bit_loop]; unfold bitlen.
  { assert (x = 0) as -> by (cbn in Hx; lia). by rewrite Z.add_0_r. }
  rewrite Nat2Z.inj_succ, Z.pow_succ_r in Hx by lia. destruct (Z.ltb_spec 0 x) as [Hpos|]; [|by rewrite Z.add_0_r].
  rewrite wrap_small by (split; lia). rewrite IH; [|rewrite Z.shiftr_div_pow2 by lia; change (2 ^ 1) with 2; pose proof (Z.div_mod x 2 ltac:(lia)); pose proof (Z.mod_pos_bound x 2 ltac:(lia)); lia|lia|lia].
  unfold bitlen. f_equal. destruct (decide (x = 1)) as [->|H1]; [change (Z.shiftr 1 1) with 0; change (Z.log2 1) with 0; rewrite Z.ltb_irrefl; lia|].
  assert (0 < Z.shiftr x 1) by (rewrite Z.shiftr_div_pow2 by lia; apply Z.div_str_pos; change (2 ^ 1) with 2; lia).
  rewrite (proj2 (Z.ltb_lt _ _)), Z.log2_shiftr by done.
  assert (1 ≤ Z.log2 x) by (change 1 with (Z.log2 2); apply Z.log2_le_mono; lia). lia.
Qed.

Lemma bitlen_spec x : 0 < x → 2 ^ (bitlen x - 1) ≤ x < 2 ^ bitlen x ∧ 1 ≤ bitlen x.
Proof.
  intros Hx. unfold bitlen. rewrite (proj2 (Z.ltb_lt 0 x)) by done. pose proof (Z.log2_spec x Hx). pose proof (Z.log2_nonneg x).
  rewrite Z.add_simpl_r. rewrite <- Z.add_1_r in *. by split; [|lia].
Qed.

(** The blocks of the largest file, in 32 bits *)
Definition largest_blocks (largestfilesize blocksize : Z) : Z := cdiv largestfilesize blocksize.

(** What [ComputeRecoveryFileCount] guarantees about the number of files *)
Definition filecount_ok (scheme : Scheme) (R n largest : Z) : Prop :=
  match scheme with
  | scUnknown => False
  | scVariable | scUniform => 1 ≤ n ≤ R
  | scLimited => let whole := Z.max (R / largest - 1) 0 in n = whole + bitlen (R - whole * largest)
  end.

Lemma ComputeRecoveryFileCount_ok n0 scheme R lfs bs n : 0 < R < 65536 → 0 ≤ n0 < 65536 → 0 < lfs < 2 ^ 61 → 0 < bs < 2 ^ 61 →
  cdiv lfs bs ≤ 32768 → ComputeRecoveryFileCount n0 scheme R lfs bs = Some (Some n) → filecount_ok scheme R n (cdiv lfs bs).
Proof.
  intros HR Hn Hl Hb Hc. unfold ComputeRecoveryFileCount. rewrite (proj2 (Z.eqb_neq R 0)) by lia.
  assert (∀ n1, (if n0 =? 0 then bit_loop 32 R n0 else Some n0) = Some n1 → 1 ≤ n1) as Hn1.
  { intros n1. destruct (Z.eqb_spec n0 0) as [->|]; [|intros [= ?]; lia]. rewrite bit_loop_ok by (change (2 ^ Z.of_nat 32) with 4294967296; lia).
    pose proof (bitlen_spec R ltac:(lia)). intros [= ?]; lia. }
  assert ((n1 ← (if n0 =? 0 then bit_loop 32 R n0 else Some n0); if R <? n1 then Some None else Some (Some n1)) = Some (Some n) → 1 ≤ n ≤ R) as Hu.
  { destruct (if n0 =? 0 then _ else _) as [n1|] eqn:E; [|done]. cbn [mbind option_bind]. destruct (Z.ltb_spec R n1); [done|].
    specialize (Hn1 n1 eq_refl). intros [= ?]; lia. }
  destruct scheme; [done|exact Hu| |exact Hu].
  unfold udiv. rewrite (proj2 (Z.eqb_neq bs 0)) by lia. cbn [mbind option_bind]. rewrite (wrap_small 64 (lfs + bs)) by (split; lia). rewrite (wrap_small 64 (_ - 1)) by (split; lia).
  fold (cdiv lfs bs). pose proof (cdiv_bounds lfs bs ltac:(lia) ltac:(lia)). set (largest := cdiv lfs bs) in *. assert (0 < largest) by nia.
  rewrite (wrap_small 32 largest) by (split; lia). rewrite (proj2 (Z.eqb_neq largest 0)) by lia. cbn [mbind option_bind].
  pose proof (Z.div_mod R largest ltac:(lia)) as Hd. pose proof (Z.mod_pos_bound R largest ltac:(lia)) as Hm.
  set (w := if 1 <=? R / largest then R / largest - 1 else 0).
  assert (w = Z.max (R / largest - 1) 0) as Ew by (unfold w; destruct (Z.leb_spec 1 (R / largest)); lia).
  assert (0 ≤ R / largest) by (apply Z.div_pos; lia). assert (0 ≤ w * largest ≤ R) as Hw by nia.
  rewrite (wrap_small 32 (w * largest)), (wrap_small 32 (R - _)) by (split; lia).
  rewrite bit_loop_ok; [|change (2 ^ Z.of_nat 32) with 4294967296; lia|lia|nia]. cbn [mbind option_bind]. intros [= <-].
  unfold filecount_ok. by rewrite Ew.
Qed.

(** ** All the schemes *)

Lemma uniform_sum base remainder a todo : 0 ≤ a →
  zsum id (uniform_counts base remainder a todo) = Z.of_nat todo * base + Z.min (Z.of_nat todo) (Z.max 0 (remainder - a)).
Proof.
  unfold uniform_counts. revert a. induction todo as [|todo IH]; intros a Ha; [rewrite seqZ_nil by lia; cbn [fmap list_fmap zsum]; lia|].
  rewrite seqZ_cons by lia. replace (Z.pred (Z.of_nat (S todo))) with (Z.of_nat todo) by lia. cbn [fmap list_fmap zsum].
  change (list_fmap Z Z ?f ?l) with (f <$> l). rewrite IH by lia. unfold id. destruct (Z.ltb_spec a remainder); nia.
Qed.

Lemma low_loop_ok fuel low m R : 0 < low → 0 < m → 0 < R < 2 ^ 16 → low * m < 2 ^ 31 → R ≤ m * low * 2 ^ Z.of_nat fuel →
  (low = 1 ∨ low * m < 2 * R) →
  ∃ low', low_loop fuel low (low * m) R = Some low' ∧ 0 < low' ∧ R ≤ low' * m ∧ (low' = 1 ∨ low' * m < 2 * R) ∧ (low' = low ∨ low' * m < 2 * R).
Proof.
  revert low. induction fuel as [|fuel IH]; intros low Hl Hm HR Hb Hf Hlow; cbn [low_loop].
  { rewrite Z.mul_1_r in Hf. rewrite (proj2 (Z.ltb_ge _ _)) by lia. exists low. split_and!; [done|done|lia|done|by left]. }
  rewrite Nat2Z.inj_succ, Z.pow_succ_r in Hf by lia. destruct (Z.ltb_spec (low * m) R) as [Hlt|Hge].
  2: { exists low. split_and!; [done|done|lia|done|by left]. }
  rewrite !Z.shiftl_mul_pow2 by lia. change (2 ^ 1) with 2. rewrite !wrap_small by (split; [nia|nia]).
  replace (low * m * 2) with (low * 2 * m) by lia.
  destruct (IH (low * 2)) as (low' & E & H1 & H2 & H3 & H4); [lia|done|done|nia|nia|right; nia|].
  exists low'. split_and!; [done|done|done|done|]. destruct H4 as [->|H4]; [right; nia|by right].
Qed.

(** What every scheme achieves: [n] files whose exponents follow each other and which hold [R] blocks. *)
Record allocated (first R : Z) (n : nat) (l : list FileAllocation) (counts : list Z) : Prop := {
  al_list : ∃ e, l = allocs first counts ++ [{| a_exponent := e; a_count := 0 |}] ∧ first ≤ e ≤ first + R;
  al_files : length counts = n;
  al_sum : zsum id counts = R;
  al_nonneg : Forall (λ c, 0 ≤ c) counts;
}.

Section Schemes.
Context (first R lfs bs : Z) (n : Z).
Hypothesis Hfirst : 0 ≤ first.
Hypothesis HR : 0 < R.
Hypothesis Hlimit : first + R < 65536.

Local Definition empty_allocs (k : nat) : list FileAllocation := replicate k {| a_exponent := 0; a_count := 0 |}.

Lemma finish_alloc l e k : set_alloc (l ++ empty_allocs 1) (Z.of_nat k) e 0 = l ++ [{| a_exponent := e; a_count := 0 |}] ∨ length l ≠ k.
Proof. destruct (decide (length l = k)) as [<-|]; [left|by right]. unfold empty_allocs. cbn [replicate]. by rewrite set_alloc_middle, app_nil_r. Qed.

Lemma uniform_ok : 1 ≤ n ≤ R → ∃ l counts, allocate scUniform first R (Z.to_nat n) lfs bs = Some (Some l) ∧
  allocated first R (Z.to_nat n) l counts ∧ Forall (λ c, 0 < c) counts.
Proof.
  intros Hn. unfold allocate. rewrite (proj2 (Nat.eqb_neq (Z.to_nat n) 0)) by lia. rewrite Z2Nat.id by lia.
  set (k := Z.to_nat n). assert (Z.of_nat k = n) as Ek by lia.
  set (counts := uniform_counts (R / n) (R mod n) 0 k).
  pose proof (Z.div_mod R n ltac:(lia)) as Hd. pose proof (Z.mod_pos_bound R n ltac:(lia)) as Hm. assert (1 ≤ R / n) by (apply Z.div_le_lower_bound; lia).
  assert (zsum id counts = R) as Hs by (unfold counts; rewrite uniform_sum by lia; lia).
  assert (length counts = k) as Hl by (unfold counts, uniform_counts; rewrite length_fmap, length_seqZ; lia).
  assert (Forall (λ c, 0 < c) counts) as Hp.
  { unfold counts, uniform_counts. apply Forall_fmap, Forall_forall. intros i _. unfold compose. destruct (i <? R mod n); lia. }
  pose proof (uniform_loop_ok k [] (empty_allocs k) (R / n) (R mod n) first) as E. cbn [length app] in E. change (Z.of_nat 0) with 0 in E.
  fold counts in E. specialize (E ltac:(apply length_replicate) ltac:(lia) Hfirst ltac:(lia) (empty_allocs 1)).
  change (replicate (S k) ?a) with (empty_allocs (S k)). replace (empty_allocs (S k)) with (empty_allocs k ++ empty_allocs 1)
    by (unfold empty_allocs; by rewrite <- replicate_add, Nat.add_1_r).
  rewrite E. cbn [fst snd]. eexists _, counts. split; [reflexivity|]. split; [|done]. split; [|done|done|by eapply Forall_impl; [exact Hp|cbn; lia]].
  exists (first + R). destruct (finish_alloc (allocs first counts) (first + R) k) as [F|F]; [|by rewrite length_allocs in F].
  rewrite Hs. rewrite Ek in F. rewrite F. split; [done|lia].
Qed.

Lemma variable_ok : 1 ≤ n ≤ R → n ≤ 30 → ∃ l counts, allocate scVariable first R (Z.to_nat n) lfs bs = Some (Some l) ∧
  allocated first R (Z.to_nat n) l counts ∧ (n ≤ bitlen R → Forall (λ c, 0 < c) counts).
Proof.
  intros Hn H30. unfold allocate. rewrite (proj2 (Nat.eqb_neq (Z.to_nat n) 0)) by lia. rewrite (proj2 (Nat.leb_gt 31 (Z.to_nat n))) by lia.
  rewrite Z2Nat.id by lia. rewrite Z.shiftl_mul_pow2, Z.mul_1_l by lia.
  set (k := Z.to_nat n). assert (Z.of_nat k = n) as Ek by lia.
  assert (2 ≤ 2 ^ n ≤ 2 ^ 30) as Hp by (split; [change 2 with (2 ^ 1) at 1|]; apply Z.pow_le_mono_r; lia).
  destruct (low_loop_ok 33 1 (2 ^ n - 1) R) as (low & E & H1 & H2 & H3 & _); [lia|lia|lia|lia| |by left|].
  { assert (2 ^ Z.of_nat 33 = 8589934592) as -> by reflexivity. nia. }
  rewrite Z.mul_1_l in E. rewrite E. cbn [mbind option_bind].
  set (counts := doubling_counts k low R).
  assert (zsum id counts = R) as Hs by (unfold counts; rewrite doubling_sum, Ek by lia; lia).
  assert (low * 2 ^ n < 2 ^ 32) as Hlow by (destruct H3 as [->|]; nia).
  pose proof (doubling_loop_ok k [] (empty_allocs k) low R first) as D. cbn [length app] in D. change (Z.of_nat 0) with 0 in D. fold counts in D.
  specialize (D ltac:(apply length_replicate) H1 ltac:(rewrite Ek; lia) ltac:(lia) Hfirst ltac:(lia) (empty_allocs 1)).
  change (replicate (S k) ?a) with (empty_allocs (S k)). replace (empty_allocs (S k)) with (empty_allocs k ++ empty_allocs 1)
    by (unfold empty_allocs; by rewrite <- replicate_add, Nat.add_1_r).
  rewrite D. cbn [fst snd]. eexists _, counts. split; [reflexivity|]. split.
  - split; [|apply length_doubling|done|apply doubling_nonneg; lia].
    exists (first + R). destruct (finish_alloc (allocs first counts) (first + R) k) as [F|F].
    + rewrite Hs. rewrite Ek in F. rewrite F. split; [done|lia].
    + exfalso. apply F. rewrite length_allocs. apply length_doubling.
  - intros Hb. apply doubling_pos; [done|]. rewrite Ek. pose proof (bitlen_spec R HR) as [[Hb1 Hb2] _].
    assert (2 ^ n = 2 * 2 ^ (n - 1)) as E2 by (rewrite <- Z.pow_succ_r by lia; f_equal; lia).
    destruct H3 as [->|H3]; [|nia]. assert (2 ^ (n - 1) ≤ 2 ^ (bitlen R - 1)) by (apply Z.pow_le_mono_r; lia). lia.
Qed.

Lemma limited_ok : 0 < lfs < 2 ^ 61 → 0 < bs < 2 ^ 61 → cdiv lfs bs ≤ 32768 → filecount_ok scLimited R n (cdiv lfs bs) →
  ∃ l counts, allocate scLimited first R (Z.to_nat n) lfs bs = Some (Some l) ∧
  allocated first R (Z.to_nat n) l counts ∧ Forall (λ c, 0 < c) counts.
Proof.
  intros Hl Hb Hc Hn. unfold filecount_ok in Hn. pose proof (cdiv_bounds lfs bs ltac:(lia) ltac:(lia)). set (largest := cdiv lfs bs) in *.
  assert (0 < largest) by nia. set (whole := Z.max (R / largest - 1) 0) in *.
  pose proof (Z.div_mod R largest ltac:(lia)) as Hd. pose proof (Z.mod_pos_bound R largest ltac:(lia)) as Hm. assert (0 ≤ R / largest) by (apply Z.div_pos; lia).
  set (extra := R - whole * largest) in *. assert (0 < extra) as Hex by nia. pose proof (bitlen_spec extra Hex) as [[Hb1 Hb2] Hb3].
  assert (0 ≤ whole) by lia. unfold allocate. rewrite (proj2 (Nat.eqb_neq (Z.to_nat n) 0)) by lia.
  unfold udiv. rewrite (proj2 (Z.eqb_neq bs 0)) by lia. cbn [mbind option_bind].
  rewrite (wrap_small 64 (lfs + bs)) by (split; lia). rewrite (wrap_small 64 (_ - 1)) by (split; lia). fold (cdiv lfs bs). fold largest.
  rewrite (wrap_small 32 largest), (wrap_small 32 (first + R)) by (split; lia).
  set (k := Z.to_nat n). assert (Z.of_nat k = n) as Ek by lia. clearbody k. change (replicate (S k) ?a) with (empty_allocs (S k)).
  replace (empty_allocs (S k)) with (empty_allocs k ++ empty_allocs 1) by (unfold empty_allocs; by rewrite <- replicate_add, Nat.add_1_r).
  destruct (top_loop_ok (empty_allocs k) largest R (first + R) (empty_allocs 1)) as (j & Hj & E & Hj1 & Hj2); [lia|lia|lia|].
  assert (length (empty_allocs k) = k) as Lk by apply length_replicate. rewrite Lk in *.
  assert (Z.of_nat j = whole) as Ej.
  { destruct Hj2 as [->|Hj2]; [exfalso|].
    - assert (Z.of_nat j = n) as Ejn by done. destruct Hj1 as [->|Hj1]; [lia|]. rewrite Ejn in Hj1. nia.
    - destruct Hj1 as [->|Hj1].
      + assert (R / largest < 2) by (apply Z.div_lt_upper_bound; lia). lia.
      + assert (R / largest = Z.of_nat j + 1); [|lia]. symmetry. apply (Z.div_unique R largest _ (R - (Z.of_nat j + 1) * largest)); lia. }
  rewrite E, Ej. fold extra. set (f := (k - j)%nat). assert (Z.of_nat f = bitlen extra) as Ef by lia.
  assert (take f (empty_allocs k) = empty_allocs f) as -> by (unfold empty_allocs; rewrite take_replicate; f_equal; lia).
  set (top := allocs _ _ ++ _). set (counts := doubling_counts f 1 extra).
  pose proof (doubling_loop_ok f [] (empty_allocs f) 1 extra first) as D. cbn [length app] in D. change (Z.of_nat 0) with 0 in D. fold counts in D.
  assert (2 ^ bitlen extra < 2 ^ 32) as Hp by (replace (bitlen extra) with (Z.succ (bitlen extra - 1)) by lia; rewrite Z.pow_succ_r by lia; nia).
  specialize (D ltac:(apply length_replicate) ltac:(lia) ltac:(rewrite Ef; lia) ltac:(lia) Hfirst ltac:(nia) top). rewrite D. cbn [fst snd].
  assert (zsum id counts = extra) as Hs by (unfold counts; rewrite doubling_sum, Ef by lia; lia).
  assert (Forall (λ c, 0 < c) counts) as Hpos by (apply doubling_pos; [lia|rewrite Ef; lia]).
  eexists _, (counts ++ replicate j largest). split; [reflexivity|].
  assert (Forall (λ c, 0 < c) (counts ++ replicate j largest)) as HF by (apply Forall_app; split; [done|by apply Forall_replicate]).
  assert (length (counts ++ replicate j largest) = k) as Hlen by (rewrite length_app, length_replicate; unfold counts; rewrite length_doubling; lia).
  split; [|done]. split; [|done|rewrite zsum_app, zsum_replicate, Hs; unfold id; lia|eapply Forall_impl; [exact HF|cbn; lia]].
  exists (first + extra). split; [|nia]. unfold top. replace (first + R - whole * largest) with (first + zsum id counts) by lia.
  rewrite app_assoc, <- allocs_app, Hs.
  destruct (finish_alloc (allocs first (counts ++ replicate j largest)) (first + extra) k) as [F|F]; [done|by rewrite length_allocs in F].
Qed.
End Schemes.

(** The three schemes together *)
Lemma allocate_ok scheme first R lfs bs n : 0 ≤ first → 0 < R → first + R < 65536 → 0 < lfs < 2 ^ 61 → 0 < bs < 2 ^ 61 → cdiv lfs bs ≤ 32768 →
  filecount_ok scheme R n (cdiv lfs bs) → (scheme = scVariable → n ≤ 30) →
  ∃ l counts, allocate scheme first R (Z.to_nat n) lfs bs = Some (Some l) ∧ allocated first R (Z.to_nat n) l counts ∧
    (scheme ≠ scVariable ∨ n ≤ bitlen R → Forall (λ c, 0 < c) counts).
Proof.
  intros Hf HR Hlim Hl Hb Hc Hn Hv. destruct scheme; cbn [filecount_ok] in Hn; [done| | |].
  - destruct (variable_ok first R lfs bs n Hf HR Hlim Hn (Hv eq_refl)) as (l & counts & E & A & Hp). exists l, counts.
    split; [done|]. split; [done|]. intros [?|]; [done|]. by apply Hp.
  - destruct (limited_ok first R lfs bs n Hf HR Hlim Hl Hb Hc Hn) as (l & counts & E & A & Hp). by exists l, counts.
  - destruct (uniform_ok first R lfs bs n Hf HR Hlim Hn) as (l & counts & E & A & Hp). by exists l, counts.
Qed.

Lemma filecount_nonneg scheme R n largest : filecount_ok scheme R n largest → 0 ≤ n.
Proof.
  destruct scheme; cbn [filecount_ok]; [done|lia| |lia]. intros ->. unfold bitlen.
  pose proof (Z.log2_nonneg (R - Z.max (R / largest - 1) 0 * largest)). destruct (0 <? _); lia.
Qed.

Lemma allocs_bounds first counts total : Forall (λ c, 0 ≤ c) counts → zsum id counts = total → 0 ≤ first →
  Forall (λ a, 0 ≤ a_exponent a ∧ 0 ≤ a_count a ∧ a_exponent a + a_count a ≤ first + total) (allocs first counts).
Proof.
  intros HF. revert first total. induction HF as [|c counts Hc HF IH]; intros first total Ht Hf; cbn [allocs zsum] in *; constructor.
  - pose proof (zsum_nonneg id counts HF). unfold id in Ht at 1. cbn [a_exponent a_count]. lia.
  - unfold id in Ht at 1. eapply Forall_impl; [apply (IH (first + c) (total - c)); lia|]. intros a. cbn beta. lia.
Qed.

(** ** Properties *)

(** The exponents of the recovery blocks in the files, one file after another. *)
Definition exponents (l : list FileAllocation) : list Z := mjoin ((λ a, seqZ (a_exponent a) (a_count a)) <$> l).

(** C24: every recovery block is in exactly one file.  With the number of files that
    [ComputeRecoveryFileCount] determines (at most 30 for [scVariable]), for every scheme
    and as long as the exponents stay below 65536, [InitialiseOutputFiles] allocates
    that number of files and one without recovery blocks, and the exponents of the blocks in
    the files, in order, are those from the first recovery block on, none missing or twice,
    each at most 65534.  No file is empty unless [scVariable] is given more files than there
    are binary digits in the number of blocks. *)
Theorem allocation_covers (scheme : Scheme) (first R n0 n lfs bs : Z) :
  0 ≤ first → 0 < R → first + R < 65536 → 0 ≤ n0 < 65536 → 0 < lfs < 2 ^ 61 → 0 < bs < 2 ^ 61 → cdiv lfs bs ≤ 32768 →
  ComputeRecoveryFileCount n0 scheme R lfs bs = Some (Some n) → (scheme = scVariable → n ≤ 30) →
  ∃ files last, allocate scheme first R (Z.to_nat n) lfs bs = Some (Some (files ++ [last])) ∧
    Z.of_nat (length files) = n ∧ a_count last = 0 ∧
    exponents files = seqZ first R ∧ Forall (λ e, 0 ≤ e ≤ 65534) (exponents files) ∧
    (scheme ≠ scVariable ∨ n ≤ bitlen R → Forall (λ a, 0 < a_count a) files).
Proof.
  intros Hf HR Hlim Hn0 Hl Hb Hc HC Hv. pose proof (ComputeRecoveryFileCount_ok n0 scheme R lfs bs n ltac:(lia) Hn0 Hl Hb Hc HC) as Hn.
  destruct (allocate_ok scheme first R lfs bs n Hf HR Hlim Hl Hb Hc Hn Hv) as (l & counts & E & [(e & -> & He) A2 A3 A4] & Hpos).
  exists (allocs first counts), {| a_exponent := e; a_count := 0 |}. split; [done|].
  assert (exponents (allocs first counts) = seqZ first R) as Hex by (unfold exponents; by rewrite allocs_exponents, A3).
  split_and!; [rewrite length_allocs, A2|done|done| |].
  - apply Z2Nat.id. by eapply filecount_nonneg.
  - rewrite Hex. apply Forall_forall. intros x Hx. apply elem_of_seqZ in Hx. lia.
  - intros H. specialize (Hpos H). clear -Hpos. generalize first. induction Hpos as [|c counts Hc HF IH]; intros a; cbn [allocs]; constructor; [done|apply IH].
Qed.

Lemma allocation_covers_witness :
  ∃ files last, allocate scLimited 7 100 (Z.to_nat 8) 100 4 = Some (Some (files ++ [last])) ∧
    Z.of_nat (length files) = 8 ∧ a_count last = 0 ∧
    exponents files = seqZ 7 100 ∧ Forall (λ e, 0 ≤ e ≤ 65534) (exponents files) ∧
    (scLimited ≠ scVariable ∨ 8 ≤ bitlen 100 → Forall (λ a, 0 < a_count a) files).
Proof. apply (allocation_covers scLimited 7 100 0 8 100 4); [lia|lia|lia|lia|lia|lia|done|reflexivity|discriminate]. Defined.

(** ** How much is processed at a time *)

Lemma ComputeRecoveryBlockCount_bound rbc sbc bs first scheme n set red redsize lfs R : 0 ≤ first ≤ 32768 → 0 < R →
  ComputeRecoveryBlockCount rbc sbc bs first scheme n set red redsize lfs = Some (Some R) → first + R < 65536.
Proof.
  intros Hf HR. assert (∀ r, check_count red first r = Some (Some R) → first + R < 65536) as Hfin.
  { intros r. unfold check_count. set (r' := if (r =? 0) && (0 <? red) then 1 else r). destruct (Z.ltb_spec 65536 r'); [done|].
    destruct (Z.leb_spec 65536 (wrap 32 (first + r'))) as [|Hlt]; [done|]. intros [= E]. rewrite E in *. by rewrite wrap_small in Hlt by (split; lia). }
  unfold ComputeRecoveryBlockCount. destruct set; [apply Hfin|]. destruct (0 <? red); [apply Hfin|]. destruct (0 <? redsize); [|done].
  cbv zeta. destruct (if n =? 0 then _ else _) as [[k|]|]; cbn [mbind option_bind]; [|done|done].
  destruct (if redsize <? _ then _ else _); cbn [mbind option_bind]; [apply Hfin|done].
Qed.

Lemma ldiff3 x : 0 ≤ x → Z.ldiff x 3 = 4 * (x / 4).
Proof. intros. change 3 with (Z.ones 2). rewrite Z.ldiff_ones_r, Z.shiftr_div_pow2, Z.shiftl_mul_pow2 by lia. change (2 ^ 2) with 4. lia. Qed.

(** The part of the blocks that is processed at a time *)
Lemma process_size_ok memorylimit bs R sbc : 2 ^ 20 ≤ memorylimit < 2 ^ 63 → 0 < bs < 2 ^ 46 → bs mod 4 = 0 → 0 ≤ sbc ≤ 32768 → 0 < R < 65536 →
  ∃ chunksize defer, CalculateProcessBlockSize memorylimit bs R sbc = Some (chunksize, defer) ∧ (0 < chunksize ≤ bs ∧ chunksize ≤ 33554432) ∧
    chunksize mod 4 = 0 ∧ chunksize * (R + (2 + Z.min 24 (sbc + 1))) ≤ memorylimit ∧ (defer = true → chunksize = bs).
Proof.
  intros Hm Hb H4 Hs HR.
  unfold CalculateProcessBlockSize. rewrite (proj2 (Z.eqb_neq R 0)) by lia. rewrite (wrap_small 32 (sbc + 1)) by (split; lia).
  set (over := Z.min 24 (sbc + 1)). assert (0 < over ≤ 24) as Ho by (unfold over; lia). rewrite (wrap_small 32 (2 + over)), (wrap_small 32 (R + _)) by (split; lia).
  set (total := R + (2 + over)). assert (0 < total ≤ 65561) as Ht by (unfold total; lia). rewrite (wrap_small 64) by (split; nia).
  assert (∀ chunk defer, 0 < chunk ≤ bs → chunk mod 4 = 0 → chunk * total ≤ memorylimit → (defer = true → chunk = bs) →
    ∃ c d, Some (if 33554432 <? chunk then (33554432, false) else (chunk, defer)) = Some (c, d) ∧
      (0 < c ≤ bs ∧ c ≤ 33554432) ∧ c mod 4 = 0 ∧ c * total ≤ memorylimit ∧ (d = true → c = bs)) as Hfin.
  { intros chunk defer H1 H2 H3 H5. destruct (Z.ltb_spec 33554432 chunk); [|by exists chunk, defer].
    exists 33554432, false. split; [done|]. split; [lia|]. split; [done|]. split; [nia|done]. }
  destruct (Z.ltb_spec memorylimit (bs * total)) as [Hlt|Hge]; [|by apply Hfin; [lia| | |]].
  unfold udiv. rewrite (proj2 (Z.eqb_neq total 0)) by lia. cbn [mbind option_bind].
  pose proof (Z.div_mod memorylimit total ltac:(lia)) as Hd. pose proof (Z.mod_pos_bound memorylimit total ltac:(lia)) as Hmod.
  set (q := memorylimit / total) in *. assert (4 ≤ q < bs) as Hq by nia. rewrite ldiff3 by lia.
  pose proof (Z.div_mod q 4 ltac:(lia)). pose proof (Z.mod_pos_bound q 4 ltac:(lia)). assert (1 ≤ q / 4) by (apply Z.div_le_lower_bound; lia).
  apply Hfin; [lia|by rewrite Z.mul_comm, Z.mod_mul|nia|done].
Qed.

(** C28: a part of the blocks fits into memory.  For every number of recovery blocks that
    [ComputeRecoveryBlockCount] accepts and a memory limit of at least one megabyte, the
    exponents stay below 65536, and [CalculateProcessBlockSize] finds a size for the parts that
    is a positive multiple of four and not larger than a block, so that creating always
    makes progress; all the blocks that are held at a time fit into the memory limit, and
    hashing is only deferred when a part is a whole block. *)
Theorem process_size_bounds (memorylimit bs first R sbc rbc : Z) (scheme : Scheme) (n : Z) (set : bool) (red redsize lfs : Z) :
  2 ^ 20 ≤ memorylimit < 2 ^ 63 → 0 < bs < 2 ^ 46 → bs mod 4 = 0 → 0 ≤ first ≤ 32768 → 0 ≤ sbc ≤ 32768 → 0 < R →
  ComputeRecoveryBlockCount rbc sbc bs first scheme n set red redsize lfs = Some (Some R) →
  first + R < 65536 ∧ ∃ chunksize defer, CalculateProcessBlockSize memorylimit bs R sbc = Some (chunksize, defer) ∧
    0 < chunksize ≤ bs ∧ chunksize mod 4 = 0 ∧ chunksize * (R + (2 + Z.min 24 (sbc + 1))) ≤ memorylimit ∧ (defer = true → chunksize = bs).
Proof.
  intros Hm Hb H4 Hf Hs HR HC. pose proof (ComputeRecoveryBlockCount_bound _ _ _ _ _ _ _ _ _ _ _ Hf HR HC) as Hlim. split; [done|].
  destruct (process_size_ok memorylimit bs R sbc Hm Hb H4 Hs ltac:(lia)) as (c & d & E & [H1 _] & H2). by exists c, d.
Qed.

Lemma process_size_bounds_witness :
  20 + 60 < 65536 ∧ ∃ chunksize defer, CalculateProcessBlockSize (2 ^ 20) 40000 60 200 = Some (chunksize, defer) ∧
    0 < chunksize ≤ 40000 ∧ chunksize mod 4 = 0 ∧ chunksize * (60 + (2 + Z.min 24 (200 + 1))) ≤ 2 ^ 20 ∧ (defer = true → chunksize = 40000).
Proof. by apply (process_size_bounds (2 ^ 20) 40000 20 60 200 0 scVariable 0 false 30 0 4000). Defined.
