(* ===== verification/CreatorNamesSpec.v ===== *)
(** * CreatorNamesSpec.v: the recovery files have different names

    A name contains the first exponent of the file as a decimal number, so that files that are
    not empty differ in their names. *)

From S2P Require Import Prelude Parameters ParametersSpec DiskFile CreatorLayout CreatorAllocSpec.

(** ** Decimal numbers *)

Definition digit_value (v c : Z) : Z := 10 * v + (c - 48).
Definition value (text : list Z) : Z := foldl digit_value 0 text.
Definition digit (c : Z) : Prop := 48 ≤ c ≤ 57.

Lemma decimal_ok fuel t : 0 ≤ t < 10 ^ (Z.of_nat fuel + 1) → value (decimal fuel t) = t ∧ Forall digit (decimal fuel t).
Proof.
  revert t. induction fuel as [|fuel IH]; intros t Ht; pose proof (Z.mod_pos_bound t 10 ltac:(lia)) as Hm; pose proof (Z.div_mod t 10 ltac:(lia)) as Hd.
  { cbn [decimal]. rewrite Z.mod_small in * by (cbn in Ht; lia). split; [unfold value, digit_value; cbn [foldl]; lia|repeat constructor; lia]. }
  rewrite Nat2Z.inj_succ, Z.add_succ_l, Z.pow_succ_r in Ht by lia. cbn [decimal]. unfold value. rewrite foldl_app. cbn [foldl]. fold (value (if t <? 10 then [] else decimal fuel (t / 10))).
  destruct (Z.ltb_spec t 10) as [Hlt|Hge].
  - split; [unfold digit_value, value; cbn [foldl]; rewrite Z.mod_small by lia; lia|repeat constructor; lia].
  - destruct (IH (t / 10)) as [H1 H2]; [split; [lia|apply Z.div_lt_upper_bound; lia]|]. rewrite H1. unfold digit_value. split; [lia|].
    apply Forall_app. split; [done|repeat constructor; lia].
Qed.

Lemma value_zeros k text : value (replicate k 48 ++ text) = value text.
Proof. unfold value. rewrite foldl_app. f_equal. induction k as [|k IH]; [done|exact IH]. Qed.

Lemma setw_ok digits t : 0 ≤ t < 2 ^ 32 → value (setw digits t) = t ∧ Forall digit (setw digits t).
Proof.
  intros Ht. destruct (decimal_ok 10 t) as [H1 H2]; [change (10 ^ (Z.of_nat 10 + 1)) with 100000000000; lia|]. unfold setw. rewrite value_zeros. split; [done|].
  apply Forall_app. split; [|done]. apply Forall_replicate. done.
Qed.

Lemma digits_loop_ok fuel t digits : 0 ≤ t < 10 ^ (Z.of_nat fuel + 1) → is_Some (digits_loop fuel t digits).
Proof.
  revert t digits. induction fuel as [|fuel IH]; intros t digits Ht; cbn [digits_loop]; (destruct (Z.leb_spec 10 t); [|by eexists]).
  - change (10 ^ (Z.of_nat 0 + 1)) with 10 in Ht. lia.
  - apply IH. rewrite Nat2Z.inj_succ, Z.add_succ_l, Z.pow_succ_r in Ht by lia. split; [apply Z.div_pos; lia|apply Z.div_lt_upper_bound; lia].
Qed.

(** ** Names *)

(** A character that is not in the first parts divides two texts in the same way. *)
Lemma split_at_char c (a a' b b' : list Z) : c ∉ a → c ∉ a' → a ++ c :: b = a' ++ c :: b' → a = a' ∧ b = b'.
Proof.
  revert a'. induction a as [|x a IH]; intros [|x' a'] Ha Ha' E; cbn [app] in E.
  - by injection E as ->.
  - injection E as -> _. exfalso. apply Ha'. left.
  - injection E as -> _. exfalso. apply Ha. left.
  - injection E as -> E. apply not_elem_of_cons in Ha as [_ Ha]. apply not_elem_of_cons in Ha' as [_ Ha'].
    destruct (IH a' Ha Ha' E) as [-> ->]. done.
Qed.

Definition alloc_range (a : FileAllocation) : Prop := 0 ≤ a_exponent a < 2 ^ 32 ∧ 0 ≤ a_count a < 2 ^ 32.

Lemma volume_name_exponent par low count a b : alloc_range a → alloc_range b → volume_name par low count a = volume_name par low count b →
  a_exponent a = a_exponent b.
Proof.
  intros [Ha _] [Hb _] E. unfold volume_name in E. apply app_inv_head, app_inv_head in E. destruct (setw_ok low (a_exponent a) Ha) as [V1 D1].
  destruct (setw_ok low (a_exponent b) Hb) as [V2 D2]. assert (∀ l, Forall digit l → 43 ∉ l) as Hn.
  { intros l HF Hin. pose proof (proj1 (Forall_forall _ _) HF 43 Hin). unfold digit in H. lia. }
  apply split_at_char in E as [E _]; [|by apply Hn|by apply Hn]. by rewrite <- V1, <- V2, E.
Qed.

Lemma name_limit_loop_ok f l bound : Forall (λ a, 0 ≤ f a < bound) l → 0 < bound → 0 ≤ limit_loop f l < bound.
Proof.
  unfold limit_loop. intros HF. assert (∀ x, 0 ≤ x < bound → 0 ≤ foldl (λ limit a, if limit <? f a then f a else limit) x l < bound) as H.
  { induction HF as [|a l Ha HF IH]; intros x Hx; cbn [foldl]; [done|]. apply IH. destruct (x <? f a); done. }
  intros. apply H. lia.
Qed.

(** The names are always found, and files with different exponents have different names. *)
Lemma file_names_ok par files last : Forall alloc_range (files ++ [last]) → ∃ r, file_names par (files ++ [last]) = Some r ∧
  ∀ names, r = Some names → length names = length (files ++ [last]) ∧ (NoDup (a_exponent <$> files) → NoDup names).
Proof.
  intros HF. unfold file_names.
  assert (0 ≤ limit_loop a_exponent (files ++ [last]) < 2 ^ 32 ∧ 0 ≤ limit_loop a_count (files ++ [last]) < 2 ^ 32) as [H1 H2].
  { split; (apply name_limit_loop_ok; [|done]); (eapply Forall_impl; [exact HF|]); by intros a []. }
  destruct (digits_loop_ok 10 (limit_loop a_exponent (files ++ [last])) 1) as [low ->]; [change (10 ^ (Z.of_nat 10 + 1)) with 100000000000; lia|].
  destruct (digits_loop_ok 10 (limit_loop a_count (files ++ [last])) 1) as [count ->]; [change (10 ^ (Z.of_nat 10 + 1)) with 100000000000; lia|].
  cbn [mbind option_bind]. rewrite length_app, Nat.add_sub, take_app_length. eexists. split; [reflexivity|].
  intros names. destruct (forallb _ _); [|done]. intros [= <-]. rewrite !length_app, length_fmap. split; [done|]. intros Hnd. apply Forall_app in HF as [HF _].
  apply NoDup_app. split; [|split; [|apply NoDup_singleton]].
  - apply (NoDup_fmap_1 a_exponent) in Hnd as Hnd'. apply NoDup_fmap_2_strong; [|done]. intros a b Ha Hb E.
    apply list_elem_of_lookup in Ha as [i Hi]. apply list_elem_of_lookup in Hb as [j Hj].
    assert (a_exponent a = a_exponent b) as Eab by (apply (volume_name_exponent par low count); [by eapply Forall_lookup_1|by eapply Forall_lookup_1|done]).
    assert (i = j) as ->. { apply (NoDup_lookup _ i j (a_exponent a) Hnd); rewrite list_lookup_fmap; [by rewrite Hi|rewrite Hj; cbn; by rewrite Eab]. }
    congruence.
  - intros name (a & -> & Ha)%list_elem_of_fmap Hin. apply list_elem_of_singleton in Hin. unfold volume_name, main_name in Hin. by apply app_inv_head in Hin.
Qed.

(** Files that are not empty have increasing exponents. *)
Lemma allocs_ge e counts a : Forall (λ c, 0 < c) counts → a ∈ allocs e counts → e ≤ a_exponent a.
Proof.
  intros HF. revert e. induction HF as [|c counts Hc HF IH]; intros e; cbn [allocs]; [by intros ?%elem_of_nil|].
  intros [->|Hin]%elem_of_cons; [cbn; lia|]. specialize (IH _ Hin). lia.
Qed.

Lemma allocs_nodup e counts : Forall (λ c, 0 < c) counts → NoDup (a_exponent <$> allocs e counts).
Proof.
  intros HF. revert e. induction HF as [|c counts Hc HF IH]; intros e; cbn [allocs fmap list_fmap]; [constructor|].
  constructor; [|by apply IH]. intros (a & E & Ha)%list_elem_of_fmap. pose proof (allocs_ge _ _ _ HF Ha). cbn [a_exponent] in E. lia.
Qed.
