(* ===== verification/CreatorPlanSpec.v ===== *)
(** * CreatorPlanSpec.v: the packets of a recovery file follow each other without gaps

    The places that [InitialiseOutputFiles] gives to the packets are those of a plan, the
    list of the packets of a file from its start to its end. *)

From S2P Require Import Prelude Bytes Md5 Md5Single DiskFile Packets Parameters ParametersSpec CreatorLayout CreatorAllocSpec.

(** ** Plans *)

(** A recovery packet, given by its exponent, or a copy of another packet. *)
Inductive item := IRec (exponent : Z) | IRef (ref : PacketRef).

Section Plan.
Context (scratch : MD5Single) (critical : list CriticalPacket) (creator : CriticalPacket) (setid : list Z) (blocksize : Z).

Local Abbreviation n := (length critical).

Definition ref_packet (ref : PacketRef) : option CriticalPacket :=
  match ref with Critical i => critical !! i | Creator => Some creator end.

Definition item_length (it : item) : nat :=
  match it with IRec _ => 68 + Z.to_nat blocksize | IRef ref => from_option packetlength O (ref_packet ref) end.

Definition plan_length (items : list item) : nat := sum_list_with item_length items.

(** The places of the packets of a plan: what is created for it *)
Fixpoint plan_packets (f off : nat) (items : list item) : list RecoveryPacket :=
  match items with
  | [] => []
  | it :: items =>
      match it with IRec e => [RecoveryPacket_Create scratch f (Z.of_nat off) blocksize e setid] | IRef _ => [] end
      ++ plan_packets f (off + item_length it) items
  end.
Fixpoint plan_entries (f off : nat) (items : list item) : list CriticalPacketEntry :=
  match items with
  | [] => []
  | it :: items =>
      match it with IRec _ => [] | IRef ref => [{| e_diskfile := f; e_offset := Z.of_nat off; e_packet := ref |}] end
      ++ plan_entries f (off + item_length it) items
  end.

(** Copies number [t] to [t + m - 1], in the order of the critical packets *)
Definition copies_run (t m : nat) : list item := (λ i, IRef (Critical (i mod n))) <$> seq t m.

(** After [j] of [count] recovery packets, so many copies have been added *)
Definition copies_after (copies count j : nat) : nat := (j * (copies * n)) / count.

Fixpoint body_plan (copies count : nat) (e : Z) (j todo : nat) : list item :=
  match todo with
  | O => []
  | S todo =>
      IRec (e + Z.of_nat j) :: copies_run (copies_after copies count j) (copies_after copies count (S j) - copies_after copies count j)
      ++ body_plan copies count e (S j) todo
  end.

Definition file_plan (a : FileAllocation) : list item :=
  (if a_count a =? 0 then (IRef ∘ Critical) <$> seq 0 n
   else body_plan (Z.to_nat (bitlen (a_count a))) (Z.to_nat (a_count a)) (a_exponent a) 0 (Z.to_nat (a_count a)))
  ++ [IRef Creator].

Lemma plan_length_app l1 l2 : plan_length (l1 ++ l2) = (plan_length l1 + plan_length l2)%nat.
Proof. unfold plan_length. apply sum_list_with_app. Qed.

Lemma plan_packets_app f off l1 l2 : plan_packets f off (l1 ++ l2) = plan_packets f off l1 ++ plan_packets f (off + plan_length l1) l2.
Proof.
  revert off. induction l1 as [|it l1 IH]; intros off; cbn [plan_packets app]; [by rewrite Nat.add_0_r|].
  rewrite IH, <- app_assoc. cbn [plan_length sum_list_with]. by rewrite Nat.add_assoc.
Qed.

Lemma plan_entries_app f off l1 l2 : plan_entries f off (l1 ++ l2) = plan_entries f off l1 ++ plan_entries f (off + plan_length l1) l2.
Proof.
  revert off. induction l1 as [|it l1 IH]; intros off; cbn [plan_entries app]; [by rewrite Nat.add_0_r|].
  rewrite IH, <- app_assoc. cbn [plan_length sum_list_with]. by rewrite Nat.add_assoc.
Qed.

(** ** The code follows the plan *)

Definition fits (off : nat) : Prop := Z.of_nat off ≤ MaxOffset.

Local Definition entry (f off : nat) (ref : PacketRef) : CriticalPacketEntry := {| e_diskfile := f; e_offset := Z.of_nat off; e_packet := ref |}.

Lemma plan_length_cons it l : plan_length (it :: l) = (item_length it + plan_length l)%nat.
Proof. done. Qed.

Lemma plan_entries_ref f off ref l : plan_entries f off (IRef ref :: l) = entry f off ref :: plan_entries f (off + item_length (IRef ref)) l.
Proof. done. Qed.

Lemma add_entry_ok f off ref p entries : ref_packet ref = Some p → fits (off + item_length (IRef ref)) →
  add_entry f (Z.of_nat off) ref p entries = (Z.of_nat (off + item_length (IRef ref)), entries ++ [entry f off ref]).
Proof.
  intros E. unfold add_entry, fits, MaxOffset. cbn [item_length]. rewrite E. cbn [from_option]. intros Hf.
  rewrite wrap_small by (split; lia). f_equal. lia.
Qed.

Lemma one_set_ok f off k packets entries : drop k critical = packets → fits (off + plan_length ((IRef ∘ Critical) <$> seq k (length packets))) →
  one_set f (Z.of_nat off) k packets entries
  = (Z.of_nat (off + plan_length ((IRef ∘ Critical) <$> seq k (length packets))),
     entries ++ plan_entries f off ((IRef ∘ Critical) <$> seq k (length packets))).
Proof.
  revert k off entries. induction packets as [|p packets IH]; intros k off entries Hd; cbn [one_set length seq fmap list_fmap].
  { intros _. by rewrite Nat.add_0_r, app_nil_r. }
  change (compose IRef Critical k) with (IRef (Critical k)). change (list_fmap ?A ?B ?g ?l) with (g <$> l). rewrite plan_length_cons, plan_entries_ref. intros Hf.
  assert (critical !! k = Some p) as Hk by (rewrite <- (Nat.add_0_r k), <- lookup_drop, Hd; done).
  rewrite (add_entry_ok f off (Critical k) p) by (first [done|unfold fits in *; lia]).
  rewrite IH; [|by rewrite <- (Nat.add_1_r k), <- drop_drop, Hd|unfold fits in *; lia].
  rewrite <- app_assoc. f_equal. lia.
Qed.

Lemma copies_run_S t m : copies_run t (S m) = IRef (Critical (t mod n)) :: copies_run (S t) m.
Proof. done. Qed.

Lemma critical_loop_ok fuel f pc count next off entries t : (0 < count)%nat → (0 < n)%nat → (pc ≤ fuel)%nat → (next ≤ n)%nat →
  (next mod n = t mod n)%nat → fits (off + plan_length (copies_run t (pc / count))) →
  ∃ next', critical_loop critical fuel f (Z.of_nat pc) (Z.of_nat count) next (Z.of_nat off) entries
    = Some (Z.of_nat (pc mod count), next', Z.of_nat (off + plan_length (copies_run t (pc / count))),
        entries ++ plan_entries f off (copies_run t (pc / count))) ∧ (next' ≤ n)%nat ∧ (next' mod n = (t + pc / count) mod n)%nat.
Proof.
  intros Hc Hn. revert pc next off entries t. induction fuel as [|fuel IH]; intros pc next off entries t Hf Hnx Ht Hfit; cbn [critical_loop].
  { assert (pc = 0)%nat as -> by lia. rewrite (proj2 (Z.leb_gt _ _)) by lia. rewrite Nat.Div0.div_0_l, Nat.Div0.mod_0_l. exists next.
    cbn [copies_run seq fmap list_fmap plan_length sum_list_with plan_entries]. by rewrite !Nat.add_0_r, app_nil_r. }
  destruct (Z.leb_spec (Z.of_nat count) (Z.of_nat pc)) as [Hge|Hlt].
  2: { rewrite Nat.div_small, Nat.mod_small by lia. exists next. cbn [copies_run seq fmap list_fmap plan_length sum_list_with plan_entries].
       by rewrite !Nat.add_0_r, app_nil_r. }
  assert (pc / count = S ((pc - count) / count))%nat as Eq.
  { replace pc with (pc - count + 1 * count)%nat at 1 by lia. rewrite Nat.div_add by lia. lia. }
  assert (pc mod count = (pc - count) mod count)%nat as Em.
  { replace pc with (pc - count + 1 * count)%nat at 1 by lia. by rewrite Nat.Div0.mod_add. }
  rewrite Eq, copies_run_S, plan_length_cons in Hfit. rewrite Eq, Em, copies_run_S, plan_length_cons, plan_entries_ref.
  pose proof (Nat.mod_upper_bound t n ltac:(lia)) as Htn.
  assert ((if Nat.eqb next n then 0%nat else next) = t mod n)%nat as ->.
  { destruct (Nat.eqb_spec next n) as [->|]; [by rewrite <- Ht, Nat.Div0.mod_same|]. rewrite <- Ht, Nat.mod_small by lia. done. }
  destruct (critical !! (t mod n)%nat) as [p|] eqn:Ep; [|apply lookup_ge_None in Ep; lia].
  cbn [mbind option_bind]. rewrite (add_entry_ok f off (Critical (t mod n)) p) by (first [done|unfold fits in *; lia]).
  rewrite <- Nat2Z.inj_sub by lia. set (it := IRef (Critical (t mod n))) in *.
  destruct (IH (pc - count)%nat (S (t mod n)) (off + item_length it)%nat (entries ++ [entry f off (Critical (t mod n))]) (S t))
    as (nx' & E & H1 & H2); [lia|lia| |by rewrite <- Nat.add_assoc|].
  - rewrite <- (Nat.add_1_r (t mod n)), <- (Nat.add_1_r t). by rewrite Nat.Div0.add_mod_idemp_l.
  - exists nx'. rewrite E, <- app_assoc, Nat.add_assoc. split; [done|]. split; [done|]. rewrite H2. f_equal. lia.
Qed.

Hypothesis Hn : (0 < n)%nat.
Hypothesis Hn32 : Z.of_nat n < 2 ^ 32.
Hypothesis Hbs : 0 ≤ blocksize.

Lemma recovery_loop_ok todo f e copies count j next off packets entries : (0 < count)%nat → Z.of_nat copies < 2 ^ 31 →
  (j + todo = count)%nat → 0 ≤ e → e + Z.of_nat count < 2 ^ 31 →
  (next ≤ n)%nat → (next mod n = copies_after copies count j mod n)%nat → fits (off + plan_length (body_plan copies count e j todo)) →
  recovery_loop scratch critical setid blocksize todo f (e + Z.of_nat j) (e + Z.of_nat count) (Z.of_nat copies) (Z.of_nat count)
    (Z.of_nat ((j * (copies * n)) mod count)) next (Z.of_nat off) packets entries
  = Some (Z.of_nat (off + plan_length (body_plan copies count e j todo)), packets ++ plan_packets f off (body_plan copies count e j todo),
      entries ++ plan_entries f off (body_plan copies count e j todo)).
Proof using Hn Hn32 Hbs.
  intros Hc Hcop. revert j next off packets entries. induction todo as [|todo IH]; intros j next off packets entries Hj He Hlim Hnx Hmod Hfit.
  { cbn [recovery_loop]. rewrite (proj2 (Z.ltb_ge _ _)) by lia. cbn. by rewrite Nat.add_0_r, !app_nil_r. }
  cbn [recovery_loop body_plan] in Hfit |- *. rewrite (proj2 (Z.ltb_lt _ _)) by lia.
  set (t := copies_after copies count j) in *. set (t' := copies_after copies count (S j)) in *.
  set (pc := ((j * (copies * n)) mod count + copies * n)%nat).
  assert (pc / count = t' - t ∧ pc mod count = (S j * (copies * n)) mod count)%nat as [Eq Em].
  { unfold t', t, copies_after, pc. pose proof (Nat.Div0.div_mod (j * (copies * n)) count) as Hd.
    replace (S j * (copies * n))%nat with ((j * (copies * n)) mod count + copies * n + (j * (copies * n) / count) * count)%nat by lia.
    rewrite Nat.div_add, Nat.Div0.mod_add by lia. split; [lia|done]. }
  assert (t ≤ t')%nat as Htt by (unfold t, t', copies_after; apply Nat.Div0.div_le_mono; lia).
  rewrite plan_length_cons, plan_length_app in Hfit. rewrite plan_length_cons, plan_length_app. cbn [plan_packets plan_entries app].
  cbn [item_length] in Hfit |- *. rewrite plan_packets_app, plan_entries_app.
  unfold fits, MaxOffset in Hfit. rewrite (wrap_small 64 (68 + blocksize)) by (split; lia). rewrite (wrap_small 64 (Z.of_nat off + _)) by (split; lia).
  rewrite (wrap_small 64 (Z.of_nat copies * _)) by (split; nia). pose proof (Nat.mod_upper_bound (j * (copies * n)) count ltac:(lia)).
  rewrite (wrap_small 64 (_ + _)) by (split; nia).
  replace (Z.of_nat ((j * (copies * n)) mod count) + Z.of_nat copies * Z.of_nat n) with (Z.of_nat pc) by (unfold pc; lia). rewrite Nat2Z.id.
  replace (Z.of_nat off + (68 + blocksize)) with (Z.of_nat (off + (68 + Z.to_nat blocksize))) by lia.
  destruct (critical_loop_ok pc f pc count next (off + (68 + Z.to_nat blocksize)) entries t Hc Hn (le_n _) Hnx Hmod) as (nx & E & H1 & H2).
  { rewrite Eq. unfold fits, MaxOffset. lia. }
  rewrite Eq, Em in E. rewrite E. cbn [mbind option_bind]. rewrite wrap_small by (split; lia).
  replace (e + Z.of_nat j + 1) with (e + Z.of_nat (S j)) by lia.
  rewrite IH; [|lia|done|done|done|rewrite H2, Eq; f_equal; lia|unfold fits, MaxOffset; lia].
  assert (∀ a b o, plan_packets f o (copies_run a b) = []) as Hcp.
  { intros a b. unfold copies_run. revert a. induction b as [|b IHb]; intros a o; cbn; [done|apply IHb]. }
  rewrite Hcp, <- !app_assoc. cbn [app]. rewrite !Nat.add_assoc. reflexivity.
Qed.

Lemma layout_file_ok f a packets entries : 0 ≤ a_exponent a → 0 ≤ a_count a → a_exponent a + a_count a < 2 ^ 31 → fits (plan_length (file_plan a)) →
  layout_file scratch critical creator setid blocksize f a packets entries
  = Some (Z.of_nat (plan_length (file_plan a)), packets ++ plan_packets f 0 (file_plan a), entries ++ plan_entries f 0 (file_plan a)).
Proof using Hn Hn32 Hbs.
  intros He Hc Hlim Hfit. unfold layout_file, file_plan in *. rewrite plan_length_app in Hfit. rewrite plan_length_app, plan_packets_app, plan_entries_app.
  assert (∀ off es, fits (off + plan_length [IRef Creator]) → add_entry f (Z.of_nat off) Creator creator es
    = (Z.of_nat (off + plan_length [IRef Creator]), es ++ plan_entries f off [IRef Creator])) as Hadd.
  { intros off es. rewrite plan_length_cons, Nat.add_0_r. intros. by apply add_entry_ok. }
  destruct (Z.eqb_spec (a_count a) 0) as [Hz|Hnz].
  - change 0 with (Z.of_nat 0) at 1. rewrite one_set_ok; [|done|unfold fits in *; lia]. cbn [mbind option_bind]. rewrite Hadd by done.
    assert (∀ l o, plan_packets f o ((IRef ∘ Critical) <$> l) = []) as -> by (intros l; induction l as [|x l IH]; intros o; cbn; [done|apply IH]).
    cbn [plan_packets app]. by rewrite app_nil_r, <- app_assoc.
  - pose proof (bitlen_spec (a_count a) ltac:(lia)) as [[Hb1 Hb2] Hb3].
    rewrite bit_loop_ok by (change (2 ^ Z.of_nat 32) with 4294967296; lia). rewrite Z.add_0_l. cbn [mbind option_bind].
    rewrite (wrap_small 32) by (split; lia). set (c := Z.to_nat (bitlen (a_count a))). set (k := Z.to_nat (a_count a)). fold c k in Hfit.
    assert (bitlen (a_count a) < 32).
    { destruct (Z.lt_ge_cases (bitlen (a_count a)) 32) as [|Hge]; [done|]. assert (2 ^ 31 ≤ 2 ^ (bitlen (a_count a) - 1)) by (apply Z.pow_le_mono_r; lia). lia. }
    pose proof (recovery_loop_ok k f (a_exponent a) c k 0 n 0 packets entries) as E.
    change (Z.of_nat 0) with 0 in E. rewrite Nat.mul_0_l, Nat.Div0.mod_0_l, Z.add_0_r in E. change (Z.of_nat 0) with 0 in E.
    assert (Z.of_nat k = a_count a) as Ek by lia. assert (Z.of_nat c = bitlen (a_count a)) as Ec by lia. rewrite Ek, Ec in E.
    rewrite E; [|lia|lia|lia|lia|lia|done| |unfold fits in *; lia]; clear E.
    + cbn [mbind option_bind]. rewrite Hadd by done. cbn [plan_packets app]. by rewrite app_nil_r, <- app_assoc.
    + unfold copies_after. by rewrite Nat.mul_0_l, Nat.Div0.div_0_l, Nat.Div0.mod_same, Nat.Div0.mod_0_l.
Qed.
End Plan.

(** ** What a plan contains *)

Definition rec_of (it : item) : option Z := match it with IRec e => Some e | IRef _ => None end.
Definition ref_of (it : item) : option PacketRef := match it with IRec _ => None | IRef ref => Some ref end.

Lemma body_plan_exponents critical copies count e j todo : omap rec_of (body_plan critical copies count e j todo) = seqZ (e + Z.of_nat j) (Z.of_nat todo).
Proof.
  revert j. induction todo as [|todo IH]; intros j; cbn [body_plan]; [by rewrite seqZ_nil by lia|].
  rewrite seqZ_cons by lia. cbn [omap list_omap rec_of]. f_equal. change (list_omap item Z rec_of ?l) with (omap rec_of l). rewrite omap_app.
  assert (∀ t m, omap rec_of (copies_run critical t m) = []) as ->.
  { intros t m. unfold copies_run. revert t. induction m as [|m IHm]; intros t; [done|apply IHm]. }
  cbn [app]. rewrite IH. f_equal; lia.
Qed.

Lemma file_plan_exponents critical a : 0 ≤ a_count a → omap rec_of (file_plan critical a) = seqZ (a_exponent a) (a_count a).
Proof.
  intros Hc. unfold file_plan. rewrite omap_app. cbn [omap list_omap rec_of]. rewrite app_nil_r. destruct (Z.eqb_spec (a_count a) 0) as [->|Hn].
  - rewrite seqZ_nil by lia. generalize (seq 0 (length critical)). intros l. induction l as [|x l IH]; [done|apply IH].
  - rewrite body_plan_exponents. rewrite Z.add_0_r, Z2Nat.id by lia. done.
Qed.


Section Refs.
Context (critical : list CriticalPacket).
Local Abbreviation n := (length critical).

Definition copy_refs (t m : nat) : list PacketRef := (λ i, Critical (i mod n)) <$> seq t m.

Lemma copies_run_refs t m : omap ref_of (copies_run critical t m) = copy_refs t m.
Proof.
  unfold copies_run, copy_refs. revert t. induction m as [|m IH]; intros t; [done|]. cbn [seq fmap list_fmap omap list_omap ref_of]. f_equal. apply IH.
Qed.

Lemma copy_refs_app t a b : copy_refs t a ++ copy_refs (t + a) b = copy_refs t (a + b).
Proof. unfold copy_refs. by rewrite seq_app, fmap_app. Qed.

Lemma body_plan_refs copies count e j todo : (0 < count)%nat → (j + todo = count)%nat →
  omap ref_of (body_plan critical copies count e j todo) = copy_refs (copies_after critical copies count j) (copies * n - copies_after critical copies count j).
Proof.
  intros Hc. revert j. induction todo as [|todo IH]; intros j Hj; cbn [body_plan].
  - assert (copies_after critical copies count j = copies * n)%nat as -> by (unfold copies_after; replace j with count by lia; rewrite Nat.mul_comm; apply Nat.div_mul; lia).
    by rewrite Nat.sub_diag.
  - cbn [omap list_omap ref_of]. change (list_omap item PacketRef ref_of ?l) with (omap ref_of l). rewrite omap_app, copies_run_refs, IH by lia.
    assert (copies_after critical copies count j ≤ copies_after critical copies count (S j) ≤ copies * n)%nat as Hle.
    { unfold copies_after. split; [apply Nat.Div0.div_le_mono; lia|]. apply Nat.Div0.div_le_upper_bound. nia. }
    set (a := copies_after critical copies count j) in *. set (b := copies_after critical copies count (S j)) in *.
    replace b with (a + (b - a))%nat at 2 by lia. rewrite copy_refs_app. f_equal. lia.
Qed.

(** One copy after the other *)
Lemma copy_refs_copies copies : (0 < n)%nat → copy_refs 0 (copies * n) = mjoin (replicate copies (Critical <$> seq 0 n)).
Proof.
  intros Hn. induction copies as [|copies IH]; [done|]. rewrite <- (Nat.add_1_r copies), replicate_add, join_app, <- IH, Nat.mul_add_distr_r, Nat.mul_1_l.
  rewrite <- copy_refs_app. f_equal. cbn [replicate mjoin list_join]. rewrite app_nil_r, Nat.add_0_l. unfold copy_refs. apply list_eq. intros i.
  rewrite !list_lookup_fmap. destruct (decide (i < n)%nat) as [Hi|Hi].
  - rewrite !lookup_seq_lt by done. cbn. f_equal. f_equal. rewrite Nat.add_comm, Nat.Div0.mod_add, Nat.mod_small; lia.
  - rewrite !lookup_seq_ge by lia. done.
Qed.

Lemma file_plan_refs a : (0 < n)%nat → 0 ≤ a_count a →
  omap ref_of (file_plan critical a) = mjoin (replicate (if a_count a =? 0 then 1%nat else Z.to_nat (bitlen (a_count a))) (Critical <$> seq 0 n)) ++ [Creator].
Proof.
  intros Hn Hc. unfold file_plan. rewrite omap_app. f_equal. destruct (Z.eqb_spec (a_count a) 0) as [Hz|Hz].
  - cbn [replicate mjoin list_join]. rewrite app_nil_r. generalize (seq 0 n). intros l. induction l as [|x l IH]; [done|]. cbn. f_equal. apply IH.
  - rewrite body_plan_refs by lia. unfold copies_after. rewrite Nat.mul_0_l, Nat.Div0.div_0_l, Nat.sub_0_r. by apply copy_refs_copies.
Qed.
End Refs.

(** ** Properties *)

(** C25: the packets of a recovery file follow each other without gaps, and every critical
    packet is stored several times.  There is a list of packets such that the places given
    to the recovery packets and to the copies of the other packets are its successive places
    from the start of the file, and the size of the file is the sum of the lengths.  The
    recovery packets in it have the exponents of the file in order; besides them there are,
    one after another, as many complete sets of the critical packets as the number of
    blocks has binary digits (one if there are no blocks), and then the creator packet. *)
Theorem layout_contiguous (scratch : MD5Single) (critical : list CriticalPacket) (creator : CriticalPacket) (setid : list Z) (blocksize : Z)
    (f : nat) (a : FileAllocation) :
  critical ≠ [] → Z.of_nat (length critical) < 2 ^ 32 → 0 ≤ blocksize → 0 ≤ a_exponent a → 0 ≤ a_count a → a_exponent a + a_count a < 2 ^ 31 →
  Z.of_nat (plan_length critical creator blocksize (file_plan critical a)) ≤ MaxOffset →
  ∃ items, layout_file scratch critical creator setid blocksize f a [] []
      = Some (Z.of_nat (plan_length critical creator blocksize items), plan_packets scratch critical creator setid blocksize f 0 items,
          plan_entries critical creator blocksize f 0 items) ∧
    omap rec_of items = seqZ (a_exponent a) (a_count a) ∧
    omap ref_of items
    = mjoin (replicate (if a_count a =? 0 then 1%nat else Z.to_nat (bitlen (a_count a))) (Critical <$> seq 0 (length critical))) ++ [Creator].
Proof.
  intros Hne H32 Hb He Hc Hlim Hfit. assert (0 < length critical)%nat as Hn by (destruct critical; [done|cbn; lia]). exists (file_plan critical a).
  split; [by apply layout_file_ok|]. split; [by apply file_plan_exponents|by apply file_plan_refs].
Qed.

Lemma layout_contiguous_witness :
  let scratch := {| tmp := []; md5State := md5_init; dataLen := 0 |} in
  let critical := [AllocatePacket 100 0; AllocatePacket 132 4] in
  ∃ items, layout_file scratch critical (AllocatePacket 80 0) (replicate 16 9) 8 0 {| a_exponent := 4; a_count := 5 |} [] []
      = Some (Z.of_nat (plan_length critical (AllocatePacket 80 0) 8 items), plan_packets scratch critical (AllocatePacket 80 0) (replicate 16 9) 8 0 0 items,
          plan_entries critical (AllocatePacket 80 0) 8 0 0 items) ∧
    omap rec_of items = seqZ (a_exponent {| a_exponent := 4; a_count := 5 |}) (a_count {| a_exponent := 4; a_count := 5 |}) ∧
    omap ref_of items
    = mjoin (replicate (if a_count {| a_exponent := 4; a_count := 5 |} =? 0 then 1%nat else Z.to_nat (bitlen (a_count {| a_exponent := 4; a_count := 5 |})))
        (Critical <$> seq 0 (length critical))) ++ [Creator].
Proof.
  apply (layout_contiguous {| tmp := []; md5State := md5_init; dataLen := 0 |} [AllocatePacket 100 0; AllocatePacket 132 4] (AllocatePacket 80 0) (replicate 16 9) 8 0
    {| a_exponent := 4; a_count := 5 |}); [done|done|done|done|done|done|unfold MaxOffset; vm_compute; discriminate].
Defined.
