(* ===== verification/CreatorWrite.v ===== *)
(** * CreatorWrite.v: the recovery files are written

    The parts of [Par2Creator::Process], [ProcessData], [WriteRecoveryPacketHeaders],
    [FinishCriticalPackets] and [WriteCriticalPackets] (src/par2creator.cpp) that write to the
    recovery files laid out by [InitialiseOutputFiles].  The recovery data comes from the
    processing backend. *)

From S2P Require Import Prelude Bytes Md5 Md5Single DiskFile Packets CreatorLayout.

(** The state: the recovery packets, and the open recovery files, which are numbered *)
Record Writing := { w_packets : list RecoveryPacket; w_files : list DiskFile }.

Section Write.
(** The memory of a new hash context, the largest piece of a write, the block size *)
Context (scratch : MD5Single) (maxlength : Z) (blocksize : Z).
(** The backend: the bytes of an output block for the part of the blocks that was processed *)
Context (getOutput : Z → Z → nat → list Z).

(** [ProcessData], the loop over the output blocks *)
Fixpoint write_blocks (outputblock : nat) (blockoffset blocklength : Z) (packets : list RecoveryPacket) (files : list DiskFile)
    : option (bool * list RecoveryPacket * list DiskFile) :=
  match packets with
  | [] => Some (true, [], files)
  | p :: packets =>
      f ← b_diskfile (r_datablock p);
      d ← files !! f;
      '(ok, p, d) ← RecoveryPacket_WriteData maxlength p d blockoffset (getOutput blockoffset blocklength outputblock);
      let files := <[f := d]> files in
      if negb ok then Some (false, p :: packets, files) else
      '(ok, packets, files) ← write_blocks (S outputblock) blockoffset blocklength packets files;
      Some (ok, p :: packets, files)
  end.

(** The loop of [Process] over the parts of a block *)
Fixpoint process_loop (fuel : nat) (chunksize blockoffset : Z) (w : Writing) : option (bool * Writing) :=
  if blockoffset <? blocksize then
    match fuel with
    | O => None
    | S fuel =>
        let blocklength := Z.min chunksize (blocksize - blockoffset) in
        '(ok, packets, files) ← write_blocks 0 blockoffset blocklength (w_packets w) (w_files w);
        let w := {| w_packets := packets; w_files := files |} in
        if negb ok then Some (false, w) else process_loop fuel chunksize (blockoffset + blocklength) w
    end
  else Some (true, w).

(** [WriteRecoveryPacketHeaders] *)
Fixpoint write_headers (packets : list RecoveryPacket) (files : list DiskFile) : option (bool * list RecoveryPacket * list DiskFile) :=
  match packets with
  | [] => Some (true, [], files)
  | p :: packets =>
      f ← b_diskfile (r_datablock p);
      d ← files !! f;
      '(ok, p, d) ← WriteHeader maxlength p d;
      let files := <[f := d]> files in
      if negb ok then Some (false, p :: packets, files) else
      '(ok, packets, files) ← write_headers packets files;
      Some (ok, p :: packets, files)
  end.

(** [FinishCriticalPackets] *)
Fixpoint finish_critical (setid : list Z) (packets : list CriticalPacket) : option (list CriticalPacket) :=
  match packets with
  | [] => Some []
  | p :: packets => p ← FinishPacket scratch p setid; packets ← finish_critical setid packets; Some (p :: packets)
  end.

(** [WriteCriticalPackets] *)
Fixpoint write_entries (critical : list CriticalPacket) (creator : CriticalPacket) (entries : list CriticalPacketEntry) (files : list DiskFile)
    : option (bool * list DiskFile) :=
  match entries with
  | [] => Some (true, files)
  | e :: entries =>
      packet ← (match e_packet e with Critical i => critical !! i | Creator => Some creator end);
      d ← files !! e_diskfile e;
      '(ok, d) ← WritePacket packet d (Z.to_nat (e_offset e)) maxlength;
      let files := <[e_diskfile e := d]> files in
      if negb ok then Some (false, files) else write_entries critical creator entries files
  end.

(** The writing part of [Process], after [InitialiseOutputFiles] *)
Definition write_output (fuel : nat) (chunksize recoveryblockcount : Z) (setid : list Z) (creator : CriticalPacket) (o : Output)
    : option (bool * list DiskFile) :=
  '(ok, files) ←
    (if 0 <? recoveryblockcount then
       '(ok, w) ← process_loop fuel chunksize 0 {| w_packets := o_packets o; w_files := o_files o |};
       if negb ok then Some (false, w_files w) else
       '(ok, _, files) ← write_headers (w_packets w) (w_files w); Some (ok, files)
     else Some (true, o_files o));
  if negb ok then Some (false, files) else
  critical ← finish_critical setid (o_critical o);
  write_entries critical creator (o_entries o) files.
End Write.
