(* ===== verification/CreatorWriteSpec.v ===== *)
(** * CreatorWriteSpec.v: what is in the recovery files after writing

    Every packet ends up in its slot of the file: the recovery packets with their data and
    hash, and the copies of the critical packets.  The files consist of slots of fixed
    length; a write inside a slot changes that slot and no other. *)

From S2P Require Import Prelude Bytes Md5 Md5Spec Md5Single DiskFile CheckSummerSpec Packets PacketsSpec Parameters CreatorLayout CreatorPlanSpec CreatorWrite.

(** ** Slots *)

Definition slot_offset (slots : list (list Z)) (k : nat) : nat := length (mjoin (take k slots)).

Lemma length_mjoin {A} (l : list (list A)) : length (mjoin l) = sum_list (length <$> l).
Proof. induction l as [|x l IH]; [done|]. cbn. by rewrite length_app, <- IH. Qed.

Lemma fwrite_slot slots k v p data : slots !! k = Some v → (p + length data ≤ length v)%nat →
  fwrite (mjoin slots) (Z.of_nat (slot_offset slots k + p)) data = mjoin (<[k := memcpy v p data]> slots).
Proof.
  intros Hk Hle. pose proof (take_drop_middle slots k v Hk) as Hs. assert (k < length slots)%nat as Hlt by (by apply lookup_lt_Some in Hk).
  rewrite insert_take_drop by done. rewrite <- Hs at 1. unfold fwrite, slot_offset. rewrite Nat2Z.id.
  set (A := take k slots). set (B := drop (S k) slots). rewrite !join_app. cbn [mjoin list_join].
  set (a := mjoin A). set (b := mjoin B). rewrite !length_app.
  replace (length a + p - (length a + (length v + length b)))%nat with 0%nat by lia. cbn [replicate]. rewrite app_nil_r.
  rewrite take_app_add, take_app_le by lia. unfold memcpy. rewrite <- !app_assoc. f_equal. f_equal. f_equal.
  rewrite <- Nat.add_assoc, <- drop_drop, drop_app_length, drop_app_le by lia. done.
Qed.

Lemma length_memcpy_slot v p data : (p + length data ≤ length v)%nat → length (memcpy v p data) = length v.
Proof. intros. apply length_memcpy. lia. Qed.

(** Contents of the right length can be divided into slots. *)
Lemma split_slots (lens : list nat) (c : list Z) : length c = sum_list lens → ∃ slots, mjoin slots = c ∧ length <$> slots = lens.
Proof.
  revert c. induction lens as [|n lens IH]; intros c Hc; cbn in Hc.
  { exists []. destruct c; [done|discriminate]. }
  destruct (IH (drop n c)) as (slots & E & El); [rewrite length_drop; lia|].
  exists (take n c :: slots). change (mjoin (take n c :: slots)) with (take n c ++ mjoin slots). rewrite E, take_drop. split; [done|].
  cbn [fmap list_fmap]. change (list_fmap ?A ?B ?g ?l) with (g <$> l). rewrite El, length_take. f_equal. lia.
Qed.

(** ** Several files *)

Section Files.
(** The lengths of the slots of each file *)
Context (maxlength : Z) (shape : list (list nat)).
Hypothesis Hmax : 0 < maxlength.

Record file_ok (lens : list nat) (d : DiskFile) (slots : list (list Z)) : Prop := {
  fo_disk : disk_ok d;
  fo_contents : contents d = mjoin slots;
  fo_size : Z.of_nat (sum_list lens) ≤ MaxOffset;
  fo_lengths : length <$> slots = lens;
}.

(** The files, and their slots *)
Definition files_ok (files : list DiskFile) (S : list (list (list Z))) : Prop :=
  length files = length shape ∧ length S = length shape ∧
  ∀ f lens d slots, shape !! f = Some lens → files !! f = Some d → S !! f = Some slots → file_ok lens d slots.

Definition get_slot (S : list (list (list Z))) (f k : nat) : option (list Z) := S !! f ≫= (.!! k).
Definition set_slot (S : list (list (list Z))) (f k : nat) (v : list Z) : list (list (list Z)) := alter <[k := v]> f S.

(** Where a slot begins *)
Definition place (f k : nat) : nat := sum_list (take k (default [] (shape !! f))).

Lemma get_set_other S f k v f' k' : (f, k) ≠ (f', k') → get_slot (set_slot S f k v) f' k' = get_slot S f' k'.
Proof.
  intros Hne. unfold get_slot, set_slot. destruct (decide (f = f')) as [<-|Hf].
  - rewrite list_lookup_alter_eq. destruct (S !! f) as [s|]; [|done]. cbn [fmap option_fmap option_map mbind option_bind].
    apply list_lookup_insert_ne. congruence.
  - by rewrite list_lookup_alter_ne by done.
Qed.

(** A write inside a slot *)
Lemma write_slot files S f lens k n p data : files_ok files S → shape !! f = Some lens → lens !! k = Some n → (p + length data ≤ n)%nat → data ≠ [] →
  ∃ d v d', files !! f = Some d ∧ get_slot S f k = Some v ∧ length v = n ∧
    Write d (Z.of_nat (place f k + p)) data maxlength = Some (true, d') ∧
    files_ok (<[f := d']> files) (set_slot S f k (memcpy v p data)) ∧ get_slot (set_slot S f k (memcpy v p data)) f k = Some (memcpy v p data).
Proof.
  intros (Hl1 & Hl2 & Hok) Hf Hk Hle Hne. pose proof (lookup_lt_Some _ _ _ Hf) as Hlt.
  destruct (lookup_lt_is_Some_2 files f ltac:(lia)) as [d Ed]. destruct (lookup_lt_is_Some_2 S f ltac:(lia)) as [s Es].
  destruct (Hok f lens d s Hf Ed Es) as [H1 H2 H3 H4]. pose proof Hk as Hk'. rewrite <- H4, list_lookup_fmap in Hk'.
  destruct (s !! k) as [v|] eqn:Ev; [|done]. injection Hk' as Hv. exists d, v.
  assert (place f k = slot_offset s k) as Hp by (unfold place, slot_offset; rewrite Hf; cbn [default]; by rewrite <- H4, length_mjoin, fmap_take).
  assert (length (mjoin s) = sum_list lens) as Hlen by (by rewrite length_mjoin, H4).
  assert (slot_offset s k + length v ≤ length (mjoin s))%nat as Hin.
  { rewrite <- (take_drop_middle s k v Ev) at 2. unfold slot_offset. rewrite join_app, length_app. change (mjoin (v :: ?l)) with (v ++ mjoin l). rewrite length_app. lia. }
  destruct (Write_ok d (Z.of_nat (place f k + p)) data maxlength H1 Hmax) as [Ew Hd]; [rewrite Hp; lia|done|].
  eexists. split; [done|]. split; [unfold get_slot; by rewrite Es|]. split; [done|]. split; [exact Ew|].
  assert (contents (after_write d (Z.of_nat (place f k + p)) data) = mjoin (<[k := memcpy v p data]> s)) as Hc.
  { cbn [contents after_write]. rewrite H2, Hp. apply fwrite_slot; [done|lia]. }
  split; [|unfold get_slot, set_slot; rewrite list_lookup_alter_eq, Es; cbn; apply list_lookup_insert_eq; by apply lookup_lt_Some in Ev].
  split; [by rewrite length_insert|]. split; [by unfold set_slot; rewrite length_alter|]. intros f' lens' d' s' Hf' Hd' Hs'.
  destruct (decide (f = f')) as [<-|Hff].
  - rewrite list_lookup_insert_eq in Hd' by lia. injection Hd' as <-. unfold set_slot in Hs'. rewrite list_lookup_alter_eq, Es in Hs'. injection Hs' as <-.
    rewrite Hf in Hf'. injection Hf' as <-. split; [done|done|done|]. rewrite list_fmap_insert, length_memcpy_slot, <- H4 by lia.
    apply list_insert_id. by rewrite list_lookup_fmap, Ev.
  - rewrite list_lookup_insert_ne in Hd' by done. unfold set_slot in Hs'. rewrite list_lookup_alter_ne in Hs' by done. by apply (Hok f').
Qed.
End Files.

(** ** Recovery packets *)

(** The outputs of the backend, for the parts that are processed: those of [n] recovery blocks [data] *)
Definition gives_output (chunk : nat) (blocksize n : Z) (data : nat → list Z) (getOutput : Z → Z → nat → list Z) : Prop :=
  ∀ q i, (q * chunk < Z.to_nat blocksize)%nat → Z.of_nat i < n →
    let len := Nat.min chunk (Z.to_nat blocksize - q * chunk) in
    getOutput (Z.of_nat (q * chunk)) (Z.of_nat len) i = slice (data i) (q * chunk) len.

(** The header of a recovery packet without its hash, and the finished packet *)
Definition recovery_header (blocksize e : Z) (setid : list Z) : list Z :=
  packet_magic ++ le_split 8 (wrap 64 (68 + blocksize)) ++ replicate 16 0 ++ setid ++ recoveryblockpacket_type ++ le_split 4 e.
Definition recovery_bytes (blocksize e : Z) (setid data : list Z) : list Z :=
  let h := recovery_header blocksize e setid in memcpy h 16 (md5 (slice h 32 36 ++ data)) ++ data.

Lemma length_recovery_header blocksize e setid : length setid = 16%nat → length (recovery_header blocksize e setid) = 68%nat.
Proof. intros. unfold recovery_header. rewrite !length_app, !length_le_split, length_replicate. cbn [length packet_magic recoveryblockpacket_type type_prefix app]. lia. Qed.

Lemma length_recovery_bytes blocksize e setid data : length setid = 16%nat →
  length (recovery_bytes blocksize e setid data) = (68 + length data)%nat.
Proof.
  intros. unfold recovery_bytes. rewrite length_app, length_memcpy; rewrite length_recovery_header by done; [done|]. rewrite length_md5. lia.
Qed.

Lemma memcpy_mid h l1 l2 new m : length h = m → length new = length l2 → ∀ l3,
  memcpy (h ++ l1 ++ l2 ++ l3) (m + length l1) new = h ++ l1 ++ new ++ l3.
Proof.
  intros Hm Hn l3. unfold memcpy. rewrite <- Hm, take_app_add, take_app_length, <- !app_assoc. do 3 f_equal.
  rewrite <- Nat.add_assoc, <- drop_drop, drop_app_length, <- drop_drop, drop_app_length, Hn. apply drop_app_length.
Qed.

Lemma memcpy_at h old new m : length h = m → length new = length old → ∀ tail, memcpy (h ++ old ++ tail) m new = h ++ new ++ tail.
Proof. intros Hm Hn tail. pose proof (memcpy_mid h [] old new m Hm Hn tail) as E. cbn [app length] in E. by rewrite Nat.add_0_r in E. Qed.

Lemma memcpy_head h tail new : length new = length h → memcpy (h ++ tail) 0 new = new ++ tail.
Proof. intros Hn. unfold memcpy. cbn [take app]. by rewrite Nat.add_0_l, Hn, drop_app_length. Qed.

Section Write.
Context (blocksize : Z) (critical : list CriticalPacket) (creator : CriticalPacket) (plans : list (list item)).

Local Abbreviation item_len := (item_length critical creator blocksize).
Definition plan_shape : list (list nat) := (λ items : list item, item_len <$> items) <$> plans.
Local Abbreviation shape := plan_shape.
Hypothesis Hfits : ∀ f lens, shape !! f = Some lens → Z.of_nat (sum_list lens) ≤ MaxOffset.

Local Abbreviation place := (place shape).
Definition item_at (f k : nat) : option item := plans !! f ≫= (.!! k).

Lemma item_shape f k it : item_at f k = Some it → ∃ lens, shape !! f = Some lens ∧ lens !! k = Some (item_len it).
Proof.
  unfold item_at, plan_shape. intros H. destruct (plans !! f) as [items|] eqn:Ef; [|done]. cbn [mbind option_bind] in H.
  eexists. rewrite list_lookup_fmap, Ef. split; [reflexivity|]. by rewrite list_lookup_fmap, H.
Qed.

Lemma sum_list_take (l : list nat) k : (sum_list (take k l) ≤ sum_list l)%nat.
Proof. rewrite <- (take_drop k l) at 2. rewrite sum_list_with_app. lia. Qed.

Lemma place_fits f k it : item_at f k = Some it → Z.of_nat (place f k + item_len it) ≤ MaxOffset.
Proof.
  intros H. destruct (item_shape f k it H) as (lens & Hf & Hk). specialize (Hfits f lens Hf). unfold CreatorWriteSpec.place. rewrite Hf. cbn [default].
  pose proof (sum_list_take lens (S k)) as Hs. rewrite (take_S_r lens k _ Hk), sum_list_with_app in Hs. cbn [sum_list_with] in Hs. unfold id in *. lia.
Qed.

Context (scratch : MD5Single) (maxlength : Z) (setid : list Z).
Context (data : nat → list Z) (getOutput : Z → Z → nat → list Z).
Hypothesis Hscratch : length (tmp scratch) = 64%nat.
Hypothesis Hmax : 0 < maxlength.
Hypothesis Hbs : 0 < blocksize.
Hypothesis Hsetid : length setid = 16%nat.
Hypothesis Hdata : ∀ i, length (data i) = Z.to_nat blocksize.

Local Abbreviation files_ok := (files_ok shape).

(** A recovery packet of which [w] bytes of data have been written *)
Record rp_ok (w : nat) (loc : nat * nat * Z) (i : nat) (p : RecoveryPacket) (S : list (list (list Z))) : Prop := {
  rp_item : item_at loc.1.1 loc.1.2 = Some (IRec loc.2);
  rp_packet : r_packet p = recovery_header blocksize loc.2 setid;
  rp_offset : r_offset p = Z.of_nat (place loc.1.1 loc.1.2);
  rp_block : r_datablock p = {| b_diskfile := Some loc.1.1; b_offset := Z.of_nat (place loc.1.1 loc.1.2 + 68); b_length := blocksize; b_filesize := 0 |};
  rp_context : ∃ c, r_context p = Some c ∧ md5_rep c (slice (recovery_header blocksize loc.2 setid) 32 36 ++ take w (data i));
  rp_slot : ∃ h rest, get_slot S loc.1.1 loc.1.2 = Some (h ++ take w (data i) ++ rest) ∧ length h = 68%nat;
}.

Fixpoint rps_ok (w : nat) (i : nat) (locs : list (nat * nat * Z)) (packets : list RecoveryPacket) (St : list (list (list Z))) : Prop :=
  match locs, packets with
  | [], [] => True
  | loc :: locs, p :: packets => rp_ok w loc i p St ∧ rps_ok w (S i) locs packets St
  | _, _ => False
  end.

(** Only the slots of the packets matter. *)
Lemma rp_frame w loc i p St St' : get_slot St' loc.1.1 loc.1.2 = get_slot St loc.1.1 loc.1.2 → rp_ok w loc i p St → rp_ok w loc i p St'.
Proof. intros E []. split; try done. by rewrite E. Qed.

Lemma rps_frame w i locs packets St St' : (∀ loc, loc ∈ locs → get_slot St' loc.1.1 loc.1.2 = get_slot St loc.1.1 loc.1.2) →
  rps_ok w i locs packets St → rps_ok w i locs packets St'.
Proof.
  revert i packets. induction locs as [|loc locs IH]; intros i [|p packets] HE; cbn [rps_ok]; try done. intros [H1 H2]. split.
  - eapply rp_frame; [|done]. apply HE. left.
  - apply IH; [|done]. intros l Hl. apply HE. by right.
Qed.

(** Everything but the slots of the given places is unchanged. *)
Definition only (locs : list (nat * nat)) (St St' : list (list (list Z))) : Prop :=
  ∀ f k, (f, k) ∉ locs → get_slot St' f k = get_slot St f k.

Lemma WriteData_ok w len loc i p files St : rp_ok w loc i p St → files_ok files St → (w + len ≤ Z.to_nat blocksize)%nat → (0 < len)%nat →
  getOutput (Z.of_nat w) (Z.of_nat len) i = slice (data i) w len →
  ∃ d p' d' St', files !! loc.1.1 = Some d ∧ b_diskfile (r_datablock p) = Some loc.1.1 ∧
    RecoveryPacket_WriteData maxlength p d (Z.of_nat w) (getOutput (Z.of_nat w) (Z.of_nat len) i) = Some (true, p', d') ∧
    files_ok (<[loc.1.1 := d']> files) St' ∧ rp_ok (w + len) loc i p' St' ∧ only [loc.1] St St'.
Proof.
  destruct loc as [[f k] e]. intros [H1 H2 H3 H4 (c & H5 & H5') (h & rest & H6 & H6')] Hfo Hle Hlen Hout. cbn [fst snd] in *.
  destruct (item_shape f k _ H1) as (lens & Hf & Hk). pose proof (place_fits f k _ H1) as Hp. cbn [item_length] in Hk, Hp. unfold MaxOffset in Hp.
  rewrite Hout. set (buf := slice (data i) w len).
  assert (length buf = len) as Hbuf by (unfold buf; rewrite length_slice by (rewrite Hdata; lia); done).
  destruct (write_slot maxlength shape Hmax files St f lens k _ (68 + w) buf Hfo Hf Hk) as (d & v & d' & Ed & Ev & Hv & Ew & Hfo' & Es);
    [lia|intros E; rewrite E in Hbuf; cbn in Hbuf; lia|]. rewrite Ev in H6. injection H6 as ->.
  assert (length (take w (data i)) = w) as Hw by (rewrite length_take, Hdata; lia). rewrite !length_app, Hw, H6' in Hv.
  exists d. eexists _, d', _. split; [done|]. split; [by rewrite H4|]. split; [|split; [exact Hfo'|split]].
  - unfold RecoveryPacket_WriteData. rewrite H5. cbn [mbind option_bind r_datablock]. unfold WriteData, write_data. rewrite H4. cbn [b_length b_offset].
    rewrite (proj2 (Z.ltb_lt _ _)) by lia. rewrite Hbuf, wrap_small by (split; lia).
    replace (Z.to_nat (Z.min (Z.of_nat len) (blocksize - Z.of_nat w))) with len by lia. rewrite take_ge by lia.
    replace (Z.of_nat (place f k + 68) + Z.of_nat w) with (Z.of_nat (place f k + (68 + w))) by lia. rewrite Ew. cbn [mbind option_bind negb]. reflexivity.
  - split; cbn [fst snd r_packet r_offset r_datablock r_context]; [done|done|done|done| |].
    + eexists. split; [reflexivity|]. rewrite <- (take_slice (data i) w len), app_assoc. by apply update_ok.
    + exists h, (drop len rest). split; [|done]. rewrite Es, <- (take_slice (data i) w len), <- app_assoc. fold buf.
      rewrite <- (take_drop len rest) at 1. rewrite <- Hw at 2. rewrite memcpy_mid; [done|done|rewrite length_take, Hbuf; lia].
  - intros f' k' Hn. apply get_set_other. intros [= <- <-]. apply Hn. left.
Qed.

Lemma write_blocks_ok w len locs packets i files St : rps_ok w i locs packets St → NoDup (fst <$> locs) → files_ok files St →
  (w + len ≤ Z.to_nat blocksize)%nat → (0 < len)%nat →
  (∀ j, (i ≤ j < i + length locs)%nat → getOutput (Z.of_nat w) (Z.of_nat len) j = slice (data j) w len) →
  ∃ packets' files' St', write_blocks maxlength getOutput i (Z.of_nat w) (Z.of_nat len) packets files = Some (true, packets', files') ∧
    files_ok files' St' ∧ rps_ok (w + len) i locs packets' St' ∧ only (fst <$> locs) St St'.
Proof.
  revert packets i files St. induction locs as [|loc locs IH]; intros [|p packets] i files St Hr Hnd Hfo Hle Hlen Hout; try done.
  { by exists [], files, St. }
  destruct Hr as [Hp Hr]. cbn [fmap list_fmap] in Hnd. apply NoDup_cons in Hnd as [Hnin Hnd]. change (list_fmap _ _ fst locs) with (fst <$> locs) in *.
  destruct (WriteData_ok w len loc i p files St Hp Hfo Hle Hlen (Hout i ltac:(cbn [length]; lia))) as (d & p' & d' & St1 & Ed & Ef & Ew & Hfo1 & Hp1 & Ho1).
  destruct (IH packets (S i) (<[loc.1.1 := d']> files) St1) as (packets' & files' & St2 & E & Hfo2 & Hr2 & Ho2); [|done|done|done|done|intros j Hj; apply Hout; cbn [length]; lia|].
  { eapply rps_frame; [|exact Hr]. intros l Hl. apply Ho1. rewrite list_elem_of_singleton. intros E. apply Hnin. rewrite <- (surjective_pairing l.1) in E.
    rewrite <- E. by apply list_elem_of_fmap_2. }
  exists (p' :: packets'), files', St2. split; [cbn [write_blocks]; rewrite Ef; cbn [mbind option_bind]; rewrite Ed; cbn [mbind option_bind];
    rewrite Ew; cbn [mbind option_bind negb]; rewrite E; done|].
  split; [done|]. split; [split; [|done]|].
  - eapply rp_frame; [|exact Hp1]. apply Ho2. by rewrite <- surjective_pairing.
  - intros f k Hn. cbn [fmap list_fmap] in Hn. apply not_elem_of_cons in Hn as [Hn1 Hn2]. rewrite Ho2 by done. apply Ho1. by rewrite list_elem_of_singleton.
Qed.

Lemma process_loop_ok chunk locs packets w fuel files St : (0 < chunk)%nat → gives_output chunk blocksize (Z.of_nat (length locs)) data getOutput →
  (w = Z.to_nat blocksize ∨ ∃ q, w = q * chunk)%nat → rps_ok w 0 locs packets St → NoDup (fst <$> locs) → files_ok files St →
  (w ≤ Z.to_nat blocksize)%nat → (Z.to_nat blocksize ≤ fuel + w)%nat →
  ∃ packets' files' St', process_loop maxlength blocksize getOutput fuel (Z.of_nat chunk) (Z.of_nat w) {| w_packets := packets; w_files := files |}
      = Some (true, {| w_packets := packets'; w_files := files' |}) ∧
    files_ok files' St' ∧ rps_ok (Z.to_nat blocksize) 0 locs packets' St' ∧ only (fst <$> locs) St St'.
Proof.
  intros Hc Hout. revert packets w files St. induction fuel as [|fuel IH]; intros packets w files St Hw Hr Hnd Hfo Hle Hfuel; cbn [process_loop].
  { assert (w = Z.to_nat blocksize) as -> by lia. rewrite (proj2 (Z.ltb_ge _ _)) by lia. by exists packets, files, St. }
  destruct (Z.ltb_spec (Z.of_nat w) blocksize) as [Hlt|Hge].
  2: { assert (w = Z.to_nat blocksize) as -> by lia. by exists packets, files, St. }
  replace (Z.min (Z.of_nat chunk) (blocksize - Z.of_nat w)) with (Z.of_nat (Nat.min chunk (Z.to_nat blocksize - w))) by lia.
  set (len := Nat.min _ _). destruct (write_blocks_ok w len locs packets 0 files St Hr Hnd Hfo) as (ps & fs & St1 & E & Hfo1 & Hr1 & Ho1); [lia|lia| |].
  { intros j Hj. destruct Hw as [Hw|[q Hw]]; [lia|]. unfold len. rewrite Hw. apply Hout; lia. }
  cbn [w_packets w_files]. rewrite E. cbn [mbind option_bind negb]. rewrite <- Nat2Z.inj_add.
  destruct (IH ps (w + len)%nat fs St1 ltac:(destruct Hw as [Hw|[q Hw]]; [lia|destruct (Nat.min_spec chunk (Z.to_nat blocksize - w)) as [[? El]|[? El]]; fold len in El; [right; exists (S q); lia|left; lia]]) Hr1 Hnd Hfo1) as (ps' & fs' & St2 & E2 & Hfo2 & Hr2 & Ho2); [lia|lia|].
  exists ps', fs', St2. split; [done|]. split; [done|]. split; [done|]. intros f k Hn. by rewrite Ho2, Ho1.
Qed.

(** ** Headers *)

(** The slots of the given recovery packets are complete. *)
Fixpoint recovered (i : nat) (locs : list (nat * nat * Z)) (St : list (list (list Z))) : Prop :=
  match locs with
  | [] => True
  | loc :: locs => get_slot St loc.1.1 loc.1.2 = Some (recovery_bytes blocksize loc.2 setid (data i)) ∧ recovered (S i) locs St
  end.

Lemma recovered_frame i locs St St' : (∀ loc, loc ∈ locs → get_slot St' loc.1.1 loc.1.2 = get_slot St loc.1.1 loc.1.2) →
  recovered i locs St → recovered i locs St'.
Proof.
  revert i. induction locs as [|loc locs IH]; intros i HE; cbn [recovered]; [done|]. intros [H1 H2].
  split; [rewrite HE by left; done|]. apply IH; [|done]. intros l Hl. apply HE. by right.
Qed.

Lemma WriteHeader_ok loc i p files St : rp_ok (Z.to_nat blocksize) loc i p St → files_ok files St →
  ∃ d p' d' St', files !! loc.1.1 = Some d ∧ b_diskfile (r_datablock p) = Some loc.1.1 ∧
    WriteHeader maxlength p d = Some (true, p', d') ∧ files_ok (<[loc.1.1 := d']> files) St' ∧
    get_slot St' loc.1.1 loc.1.2 = Some (recovery_bytes blocksize loc.2 setid (data i)) ∧ only [loc.1] St St'.
Proof.
  destruct loc as [[f k] e]. intros [H1 H2 H3 H4 (c & H5 & H5') (h & rest & H6 & H6')] Hfo. cbn [fst snd] in *.
  assert (take (Z.to_nat blocksize) (data i) = data i) as Et by (apply take_ge; rewrite Hdata; lia). rewrite Et in *.
  destruct (item_shape f k _ H1) as (lens & Hf & Hk). cbn [item_length] in Hk.
  set (hd := memcpy (recovery_header blocksize e setid) 16 (md5 (slice (recovery_header blocksize e setid) 32 36 ++ data i))).
  assert (length hd = 68%nat) as Hhd.
  { unfold hd. rewrite length_memcpy; rewrite length_recovery_header by done; [done|]. rewrite length_md5. lia. }
  destruct (write_slot maxlength shape Hmax files St f lens k _ 0 hd Hfo Hf Hk) as (d & v & d' & Ed & Ev & Hv & Ew & Hfo' & Es);
    [lia|intros E; rewrite E in Hhd; discriminate|]. rewrite Ev in H6. injection H6 as ->.
  rewrite !length_app, Hdata, H6' in Hv. assert (rest = []) as -> by (destruct rest; [done|cbn in Hv; lia]).
  exists d. eexists _, d', _. split; [done|]. split; [by rewrite H4|]. split; [|split; [exact Hfo'|split]].
  - unfold WriteHeader. rewrite H5. cbn [mbind option_bind]. rewrite (end_ok c _ H5'). cbn [mbind option_bind r_offset r_packet].
    rewrite H2, H3. fold hd. rewrite Nat.add_0_r in Ew. rewrite Ew. reflexivity.
  - rewrite Es, app_nil_r, memcpy_head by (rewrite Hhd, H6'; done). done.
  - intros f' k' Hn. apply get_set_other. intros [= <- <-]. apply Hn. left.
Qed.

Lemma write_headers_ok locs packets i files St : rps_ok (Z.to_nat blocksize) i locs packets St → NoDup (fst <$> locs) → files_ok files St →
  ∃ packets' files' St', write_headers maxlength packets files = Some (true, packets', files') ∧
    files_ok files' St' ∧ recovered i locs St' ∧ only (fst <$> locs) St St'.
Proof.
  revert packets i files St. induction locs as [|loc locs IH]; intros [|p packets] i files St Hr Hnd Hfo; try done.
  { by exists [], files, St. }
  destruct Hr as [Hp Hr]. cbn [fmap list_fmap] in Hnd. apply NoDup_cons in Hnd as [Hnin Hnd]. change (list_fmap _ _ fst locs) with (fst <$> locs) in *.
  destruct (WriteHeader_ok loc i p files St Hp Hfo) as (d & p' & d' & St1 & Ed & Ef & Ew & Hfo1 & Hp1 & Ho1).
  destruct (IH packets (S i) (<[loc.1.1 := d']> files) St1) as (packets' & files' & St2 & E & Hfo2 & Hr2 & Ho2); [|done|done|].
  { eapply rps_frame; [|exact Hr]. intros l Hl. apply Ho1. rewrite list_elem_of_singleton. intros E. apply Hnin. rewrite <- (surjective_pairing l.1) in E.
    rewrite <- E. by apply list_elem_of_fmap_2. }
  exists (p' :: packets'), files', St2. split; [cbn [write_headers]; rewrite Ef; cbn [mbind option_bind]; rewrite Ed; cbn [mbind option_bind];
    rewrite Ew; cbn [mbind option_bind negb]; rewrite E; done|].
  split; [done|]. split; [split; [|done]|].
  - rewrite Ho2 by (by rewrite <- surjective_pairing). done.
  - intros f k Hn. cbn [fmap list_fmap] in Hn. apply not_elem_of_cons in Hn as [Hn1 Hn2]. rewrite Ho2 by done. apply Ho1. by rewrite list_elem_of_singleton.
Qed.
(** ** Copies of the critical packets *)

Context (finished : list CriticalPacket).
Hypothesis Hfinished : Forall2 (λ p p', length (written p') = packetlength p ∧ (0 < packetlength p)%nat) critical finished.
Hypothesis Hcreator : length (written creator) = packetlength creator ∧ (0 < packetlength creator)%nat.

Definition ref_bytes (ref : PacketRef) : list Z :=
  match ref with Critical i => from_option written [] (finished !! i) | Creator => written creator end.

(** An entry for the packet at a place *)
Definition entry_ok (loc : nat * nat * PacketRef) (e : CriticalPacketEntry) : Prop :=
  item_at loc.1.1 loc.1.2 = Some (IRef loc.2) ∧ is_Some (ref_packet critical creator loc.2) ∧
  e = {| e_diskfile := loc.1.1; e_offset := Z.of_nat (place loc.1.1 loc.1.2); e_packet := loc.2 |}.

Lemma ref_bytes_ok ref : is_Some (ref_packet critical creator ref) →
  ∃ p, match ref with Critical i => finished !! i | Creator => Some creator end = Some p ∧ written p = ref_bytes ref ∧
    length (ref_bytes ref) = item_len (IRef ref) ∧ (0 < length (ref_bytes ref))%nat.
Proof.
  intros [p Hp]. cbn [item_length]. rewrite Hp. cbn [from_option]. destruct ref as [i|]; cbn [ref_packet ref_bytes] in *.
  - destruct (Forall2_lookup_l _ _ _ i p Hfinished Hp) as (p' & Hp' & Hl & Hpos). exists p'. rewrite Hp'. cbn [from_option]. by rewrite Hl.
  - injection Hp as <-. exists creator. destruct Hcreator as [Hl Hpos]. by rewrite Hl.
Qed.

Lemma write_entries_ok locs entries files St : Forall2 entry_ok locs entries → files_ok files St →
  ∃ files' St', write_entries maxlength finished creator entries files = Some (true, files') ∧ files_ok files' St' ∧
    (∀ loc, loc ∈ locs → get_slot St' loc.1.1 loc.1.2 = Some (ref_bytes loc.2)) ∧ only (fst <$> locs) St St'.
Proof.
  intros HF. revert files St. induction HF as [|[[f k] ref] e locs entries (Hit & Href & ->) HF IH]; intros files St Hfo.
  { exists files, St. split; [done|]. split; [done|]. split; [|done]. by intros loc Hin%elem_of_nil. }
  cbn [fst snd] in *. destruct (ref_bytes_ok ref Href) as (p & Ep & Eb & Hl & Hpos).
  destruct (item_shape f k _ Hit) as (lens & Hf & Hk).
  destruct (write_slot maxlength shape Hmax files St f lens k _ 0 (ref_bytes ref) Hfo Hf Hk) as (d & v & d' & Ed & Ev & Hv & Ew & Hfo1 & Es);
    [lia|intros E; rewrite E in Hpos; cbn in Hpos; lia|]. rewrite Nat.add_0_r in Ew.
  assert (memcpy v 0 (ref_bytes ref) = ref_bytes ref) as Em by (rewrite <- (app_nil_r v), memcpy_head by lia; apply app_nil_r). rewrite Em in *.
  destruct (IH (<[f := d']> files) _ Hfo1) as (files' & St' & E & Hfo' & Hall & Ho).
  exists files', St'. split; [|split; [done|split]].
  - cbn [write_entries e_packet e_diskfile e_offset]. rewrite Ep. cbn [mbind option_bind]. rewrite Ed. cbn [mbind option_bind].
    unfold WritePacket. fold (written p). rewrite Eb, Nat2Z.id, Ew. cbn [mbind option_bind negb]. exact E.
  - intros loc [->|Hin]%elem_of_cons; [|by apply Hall]. cbn [fst snd]. destruct (decide ((f, k) ∈ fst <$> locs)) as [Hin|Hnin].
    + apply list_elem_of_fmap in Hin as ([[f' k'] ref'] & [= -> ->] & Hin). pose proof (Hall _ Hin) as Hv'. cbn [fst snd] in Hv'. rewrite Hv'.
      apply list_elem_of_lookup in Hin as [j Hj]. destruct (Forall2_lookup_l _ _ _ j _ HF Hj) as (e' & _ & Hit' & _). cbn [fst snd] in Hit'. rewrite Hit in Hit'. by injection Hit' as ->.
    + by rewrite (Ho f k Hnin), Es.
  - intros f' k' Hn. cbn [fmap list_fmap fst] in Hn. apply not_elem_of_cons in Hn as [Hn1 Hn2]. rewrite Ho by done.
    apply get_set_other. congruence.
Qed.

(** ** All phases *)

Definition item_bytes (first : Z) (it : item) : list Z :=
  match it with IRec e => recovery_bytes blocksize e setid (data (Z.to_nat (e - first))) | IRef ref => ref_bytes ref end.

Lemma recovered_lookup i locs St j loc : recovered i locs St → locs !! j = Some loc →
  get_slot St loc.1.1 loc.1.2 = Some (recovery_bytes blocksize loc.2 setid (data (i + j)%nat)).
Proof.
  revert i j. induction locs as [|l locs IH]; intros i j; cbn [recovered]; [done|]. intros [H1 H2]. destruct j as [|j]; cbn [lookup list_lookup].
  - intros [= ->]. by rewrite Nat.add_0_r.
  - intros Hj. rewrite (IH (S i) j H2 Hj). by rewrite Nat.add_succ_r.
Qed.
End Write.

(** [FinishCriticalPackets] *)
Lemma finish_critical_ok scratch setid packets : length (tmp scratch) = 64%nat → length setid = 16%nat →
  Forall (λ p, ∃ type, started p (packetlength p) type ∧ (64 ≤ packetlength p)%nat ∧ (packetlength p mod 4 = 0)%nat ∧ Z.of_nat (packetlength p) < 2 ^ 64) packets →
  ∃ finished, finish_critical scratch setid packets = Some finished ∧
    Forall2 (λ p p', length (written p') = packetlength p ∧ (0 < packetlength p)%nat) packets finished ∧
    Forall (λ p', intact (written p') ∧ h_setid (written p') = setid) finished.
Proof.
  intros Hs Hset HF. induction HF as [|p packets (type & Hp & H64 & H4 & Hlt) HF IH]; cbn [finish_critical]; [by exists []; split_and!|].
  destruct (FinishPacket_ok scratch Hs p (packetlength p) type setid Hp H64 H4 Hlt Hset) as (p' & -> & Hp' & Hi & Hl & Hsid & _).
  destruct IH as (finished & -> & H1 & H2). cbn [mbind option_bind]. exists (p' :: finished). split; [done|]. split; constructor; try done.
  split; [|lia]. rewrite length_written; [by rewrite (s_packetlength _ _ _ Hp')|]. rewrite (s_packetlength _ _ _ Hp'). apply Hp'.
Qed.
