(* ===== verification/CreatorSpec.v ===== *)
(** * CreatorSpec.v: the files that are created can be read back

    Composition of the layout, the writing, and the search for packets: every recovery file
    consists of intact packets, and searching it finds them all. *)

From stdpp Require Import sorting gmap.
From S2P Require Import Prelude Bytes Md5 Md5Spec Md5Single DiskFile CheckSummerSpec HashTable FileName Packets PacketsSpec PacketScan PacketScanSpec Parameters ParametersSpec CreatorLayout CreatorAllocSpec CreatorPlanSpec CreatorWrite CreatorWriteSpec.

(** ** Where the packets of the plans are *)

Fixpoint locs {B} (sel : item → option B) (f k : nat) (items : list item) : list (nat * nat * B) :=
  match items with
  | [] => []
  | it :: items => match sel it with Some b => [(f, k, b)] | None => [] end ++ locs sel f (S k) items
  end.

Fixpoint all_files {A} (g : nat → list item → list A) (f : nat) (plans : list (list item)) : list A :=
  match plans with [] => [] | items :: plans => g f items ++ all_files g (S f) plans end.

Lemma elem_of_locs {B} (sel : item → option B) f k items f' k' b :
  (f', k', b) ∈ locs sel f k items ↔ f' = f ∧ (k ≤ k')%nat ∧ items !! (k' - k)%nat ≫= sel = Some b.
Proof.
  revert k. induction items as [|it items IH]; intros k; cbn [locs].
  { rewrite elem_of_nil. split; [done|]. by intros (_ & _ & H). }
  rewrite elem_of_app, IH. destruct (decide (k' = k)) as [->|Hne].
  - rewrite Nat.sub_diag. cbn [mbind option_bind lookup list_lookup]. split.
    + intros [H|(_ & H & _)]; [|lia]. destruct (sel it); [|by apply elem_of_nil in H]. apply list_elem_of_singleton in H. injection H as -> ->. done.
    + intros (-> & _ & H). left. rewrite H. by apply list_elem_of_singleton.
  - assert (∀ l, (f', k', b) ∉ match sel it with Some b => [(l, k, b)] | None => [] end) as Hn.
    { intros l. destruct (sel it); [rewrite list_elem_of_singleton; congruence|apply not_elem_of_nil]. }
    assert (items !! (k' - S k)%nat ≫= sel = Some b ∧ (S k ≤ k')%nat ↔ (it :: items) !! (k' - k)%nat ≫= sel = Some b ∧ (k ≤ k')%nat) as Hs.
    { split; (intros [H1 H2]; (split; [|lia])).
      - by replace (k' - k)%nat with (S (k' - S k)) by lia.
      - by replace (k' - k)%nat with (S (k' - S k)) in H1 by lia. }
    split; [intros [H|(H1 & H2 & H3)]; [by apply Hn in H|]|intros (H1 & H2 & H3); right]; (split; [done|]); apply and_comm, Hs; done.
Qed.

(** The places of the recovery packets are distinct. *)
Lemma locs_nodup {B} (sel : item → option B) f k items : NoDup (fst <$> locs sel f k items).
Proof.
  revert k. induction items as [|it items IH]; intros k; cbn [locs]; [constructor|]. rewrite fmap_app. destruct (sel it) as [b|]; [|apply IH].
  constructor; [|apply IH]. intros ([[f' k'] b'] & E & Hin)%list_elem_of_fmap.
  apply elem_of_locs in Hin as (-> & Hk & _). cbn [fst] in E. injection E as ->. lia.
Qed.

Lemma elem_of_all {A} (g : nat → list item → list A) f plans x : x ∈ all_files g f plans ↔ ∃ i items, plans !! i = Some items ∧ x ∈ g (f + i)%nat items.
Proof.
  revert f. induction plans as [|items plans IH]; intros f; cbn [all_files].
  { rewrite elem_of_nil. split; [done|]. by intros (i & ? & H & _). }
  rewrite elem_of_app, IH. split.
  - intros [H|(i & it & H1 & H2)]; [exists O, items; by rewrite Nat.add_0_r|]. exists (S i), it. by rewrite Nat.add_succ_r.
  - intros ([|i] & it & H1 & H2); [left; injection H1 as ->; by rewrite Nat.add_0_r in H2|right; exists i, it]. by rewrite Nat.add_succ_r in H2.
Qed.

Lemma all_locs_nodup {B} (sel : item → option B) f plans : NoDup (fst <$> all_files (λ f, locs sel f 0) f plans).
Proof.
  revert f. induction plans as [|items plans IH]; intros f; cbn [all_files]; [constructor|]. rewrite fmap_app. apply NoDup_app.
  split; [apply locs_nodup|]. split; [|apply IH]. intros [a b] ([[f1 k1] e1] & E1 & H1)%list_elem_of_fmap ([[f2 k2] e2] & E2 & H2)%list_elem_of_fmap.
  apply elem_of_locs in H1 as (-> & _). apply elem_of_all in H2 as (i & it & _ & H2). apply elem_of_locs in H2 as (-> & _).
  cbn [fst] in *. injection E1 as -> ->. injection E2 as E2 _. lia.
Qed.

(** ** Finished recovery packets *)

Section Recovery.
Context (blocksize e : Z) (setid data : list Z).
Hypothesis Hsetid : length setid = 16%nat.
Hypothesis Hbs : 0 < blocksize < 2 ^ 62.
Hypothesis H4 : blocksize mod 4 = 0.
Hypothesis Hdata : length data = Z.to_nat blocksize.

Lemma slice_app_exact (a b c : list Z) off n : length a = off → length b = n → slice (a ++ b ++ c) off n = b.
Proof using. intros <- <-. unfold slice. by rewrite drop_app_length, take_app_length. Qed.

(** The packet field by field *)
Lemma recovery_bytes_fields : ∃ hash, recovery_bytes blocksize e setid data
    = packet_magic ++ le_split 8 (68 + blocksize) ++ hash ++ setid ++ recoveryblockpacket_type ++ le_split 4 e ++ data ∧
  hash = md5 (setid ++ recoveryblockpacket_type ++ le_split 4 e ++ data).
Proof using Hsetid Hbs H4 Hdata.
  unfold recovery_bytes, recovery_header. rewrite wrap_small by (split; lia). set (len := le_split 8 (68 + blocksize)).
  set (rest := setid ++ recoveryblockpacket_type ++ le_split 4 e).
  assert (length len = 8%nat) as Hl by apply length_le_split.
  assert (length rest = 36%nat) as Hr by (unfold rest; rewrite !length_app, length_le_split, Hsetid; done).
  set (tail := replicate 16 0 ++ rest).
  assert (slice (packet_magic ++ len ++ tail) 32 36 = rest) as ->.
  { replace (packet_magic ++ len ++ tail) with (((packet_magic ++ len) ++ replicate 16 0) ++ rest ++ []) by (unfold tail; by rewrite app_nil_r, <- !app_assoc).
    apply slice_app_exact; [rewrite !length_app, Hl, length_replicate; done|done]. }
  set (hash := md5 (rest ++ data)). exists hash. split; [|unfold hash, rest; by rewrite <- !app_assoc].
  assert (memcpy (packet_magic ++ len ++ tail) 16 hash = packet_magic ++ len ++ hash ++ rest) as ->.
  { unfold tail. rewrite app_assoc, memcpy_at; [by rewrite <- app_assoc|by rewrite length_app, Hl|].
    unfold hash. by rewrite length_md5, length_replicate. }
  unfold rest. by rewrite <- !app_assoc.
Qed.

Lemma recovery_intact : intact (recovery_bytes blocksize e setid data) ∧ h_setid (recovery_bytes blocksize e setid data) = setid ∧
  h_type (recovery_bytes blocksize e setid data) = recoveryblockpacket_type ∧ slice (recovery_bytes blocksize e setid data) 64 4 = le_split 4 e.
Proof using Hsetid Hbs H4 Hdata.
  pose proof (length_recovery_bytes blocksize e setid data Hsetid) as Hlen. destruct recovery_bytes_fields as (hash & E & Eh).
  assert (length hash = 16%nat) as Hh by (rewrite Eh; apply length_md5). rewrite E in Hlen |- *.
  set (len := le_split 8 (68 + blocksize)) in *. assert (length len = 8%nat) as Hl by apply length_le_split.
  set (m := packet_magic) in *. assert (length m = 8%nat) as Hm by done. set (ty := recoveryblockpacket_type) in *. assert (length ty = 16%nat) as Ht by done.
  set (ex := le_split 4 e) in *. assert (length ex = 4%nat) as Hex by apply length_le_split. split; [split|].
  - rewrite Hlen. lia.
  - unfold h_magic, slice. by rewrite drop_0, <- Hm, take_app_length.
  - unfold h_length. rewrite (slice_app_exact m len) by done. rewrite Hlen, Hdata. unfold len. rewrite le_join_split; [lia|]. change (8 * Z.of_nat 8) with 64. split; lia.
  - rewrite Hlen, Hdata. pose proof (Z.div_mod blocksize 4 ltac:(lia)).
    replace (68 + Z.to_nat blocksize)%nat with ((17 + Z.to_nat (blocksize / 4)) * 4)%nat by lia. apply Nat.Div0.mod_mul.
  - unfold h_hash. rewrite (app_assoc m), (slice_app_exact (m ++ len) hash) by (rewrite ?length_app; lia). rewrite Eh. f_equal.
  - unfold h_setid, h_type. rewrite (app_assoc m), (app_assoc (m ++ len)).
    rewrite (slice_app_exact ((m ++ len) ++ hash) setid) by (rewrite ?length_app; lia). split; [done|].
    rewrite (app_assoc ((m ++ len) ++ hash)). rewrite (slice_app_exact (((m ++ len) ++ hash) ++ setid) ty) by (rewrite ?length_app; lia). split; [done|].
    rewrite (app_assoc (((m ++ len) ++ hash) ++ setid)). by rewrite (slice_app_exact ((((m ++ len) ++ hash) ++ setid) ++ ty) ex) by (rewrite ?length_app; lia).
Qed.
End Recovery.

(** ** The values at the places *)

Lemma locs_values {B} (sel : item → option B) f k items : snd <$> locs sel f k items = omap sel items.
Proof.
  revert k. induction items as [|it items IH]; intros k; cbn [locs]; [done|]. rewrite fmap_app, IH. cbn [omap list_omap]. by destruct (sel it).
Qed.

Lemma all_locs_values {B} (sel : item → option B) f plans : snd <$> all_files (λ f, locs sel f 0) f plans = mjoin (omap sel <$> plans).
Proof. revert f. induction plans as [|items plans IH]; intros f; cbn [all_files]; [done|]. by rewrite fmap_app, IH, locs_values. Qed.

(** ** From the layout to the written files *)

Section Assembly.
Context (scratch : MD5Single) (maxlength blocksize : Z) (setid : list Z) (critical finished : list CriticalPacket) (creator : CriticalPacket).
Context (plans : list (list item)).
Hypothesis Hscratch : length (tmp scratch) = 64%nat.
Hypothesis Hbs : 0 < blocksize < 2 ^ 62.

Local Abbreviation ppackets := (plan_packets scratch critical creator setid blocksize).
Local Abbreviation pentries := (plan_entries critical creator blocksize).
Local Abbreviation plen := (plan_length critical creator blocksize).
Local Abbreviation shape := (plan_shape blocksize critical creator plans).

(** Every reference of the plan is to a packet, and every file is small enough. *)
Definition plan_valid (items : list item) : Prop :=
  Forall (λ it, match it with IRec _ => True | IRef ref => is_Some (ref_packet critical creator ref) end) items ∧ Z.of_nat (plen items) ≤ MaxOffset.
Hypothesis Hvalid : Forall plan_valid plans.

Lemma sum_list_fmap_with {A} (g : A → nat) l : sum_list (g <$> l) = sum_list_with g l.
Proof. induction l as [|x l IH]; [done|]. cbn. by rewrite <- IH. Qed.

Lemma place_plan f pre items : plans !! f = Some (pre ++ items) → place shape f (length pre) = plen pre.
Proof.
  intros Hf. unfold place, plan_shape. rewrite list_lookup_fmap, Hf. cbn.
  change (list_fmap ?A ?B ?g ?l) with (g <$> l). rewrite fmap_app, take_app_length' by (by rewrite length_fmap). apply sum_list_fmap_with.
Qed.

Lemma item_at_mid f pre it items : plans !! f = Some (pre ++ it :: items) → item_at plans f (length pre) = Some it.
Proof. intros Hf. unfold item_at. rewrite Hf. cbn [mbind option_bind]. by apply list_lookup_middle. Qed.

(** What [Create] makes of a recovery packet at its place *)
Definition created (loc : nat * nat * Z) (p : RecoveryPacket) : Prop :=
  item_at plans loc.1.1 loc.1.2 = Some (IRec loc.2) ∧
  p = RecoveryPacket_Create scratch loc.1.1 (Z.of_nat (place shape loc.1.1 loc.1.2)) blocksize loc.2 setid.

Lemma plan_placed f pre items : plans !! f = Some (pre ++ items) →
  Forall2 created (locs rec_of f (length pre) items) (ppackets f (plen pre) items) ∧
  Forall2 (entry_ok blocksize critical creator plans) (locs ref_of f (length pre) items) (pentries f (plen pre) items).
Proof.
  revert pre. induction items as [|it items IH]; intros pre Hf; cbn [locs plan_packets plan_entries]; [by split|].
  pose proof (item_at_mid f pre it items Hf) as Hit. pose proof (place_plan f pre _ Hf) as Hp.
  destruct (IH (pre ++ [it])) as [H1 H2]; [by rewrite <- app_assoc|].
  rewrite length_app, Nat.add_1_r in H1, H2. rewrite plan_length_app in H1, H2.
  rewrite plan_length_cons in H1, H2. change (plen []) with 0%nat in H1, H2. rewrite Nat.add_0_r in H1, H2.
  destruct it as [e|ref]; cbn [rec_of ref_of app]; (split; [try done; constructor|try done; constructor]); try done.
  - split; [done|]. cbn [fst snd]. by rewrite Hp.
  - split; [done|]. cbn [fst snd]. split; [|by rewrite Hp].
    pose proof (Forall_lookup_1 _ _ _ _ Hvalid Hf) as [HF _]. apply Forall_app in HF as [_ HF]. by apply Forall_cons in HF as [HF _].
Qed.

Lemma all_placed f rest : drop f plans = rest →
  Forall2 created (all_files (λ f, locs rec_of f 0) f rest) (all_files (λ f, ppackets f 0) f rest) ∧
  Forall2 (entry_ok blocksize critical creator plans) (all_files (λ f, locs ref_of f 0) f rest) (all_files (λ f, pentries f 0) f rest).
Proof.
  revert f. induction rest as [|items rest IH]; intros f Hd; cbn [all_files]; [by split|].
  assert (plans !! f = Some items) as Hf by (rewrite <- (Nat.add_0_r f), <- lookup_drop, Hd; done).
  destruct (plan_placed f [] items Hf) as [H1 H2]. destruct (IH (S f)) as [H3 H4]; [by rewrite <- (Nat.add_1_r f), <- drop_drop, Hd|].
  cbn [length] in H1, H2. split; by apply Forall2_app.
Qed.

Lemma shape_fits f lens : shape !! f = Some lens → Z.of_nat (sum_list lens) ≤ MaxOffset.
Proof.
  unfold plan_shape. rewrite list_lookup_fmap. destruct (plans !! f) as [items|] eqn:Ef; [|done]. intros [= <-].
  rewrite sum_list_fmap_with. by destruct (Forall_lookup_1 _ _ _ _ Hvalid Ef).
Qed.

(** New files can be divided into the slots of the plans. *)
Lemma initial_slots files : Forall2 (λ items d, disk_ok d ∧ length (contents d) = plen items) plans files → ∃ St, files_ok shape files St.
Proof.
  intros HF. assert (∀ plans, Forall2 (λ items d, disk_ok d ∧ length (contents d) = plen items) plans files →
    ∃ St : list (list (list Z)), Forall2 (λ items slots, length <$> slots = (item_length critical creator blocksize <$> items)) plans St ∧
      Forall2 (λ d slots, contents d = mjoin slots) files St) as Hex.
  { clear -files. intros plans HF. induction HF as [|items d plans files [_ Hd] HF IH]; [by exists []|]. destruct IH as (St & H1 & H2).
    destruct (split_slots (item_length critical creator blocksize <$> items) (contents d)) as (slots & E & El); [by rewrite sum_list_fmap_with|].
    exists (slots :: St). split; by constructor. }
  destruct (Hex plans HF) as (St & H1 & H2). exists St. pose proof (Forall2_length _ _ _ HF) as L1. pose proof (Forall2_length _ _ _ H1) as L2.
  unfold CreatorWriteSpec.files_ok, plan_shape. rewrite length_fmap. split; [done|]. split; [done|]. intros f lens d slots Hl Hd Hs.
  pose proof (shape_fits f lens Hl) as Hfit. rewrite list_lookup_fmap in Hl. destruct (plans !! f) as [items|] eqn:Ef; [|done]. injection Hl as <-.
  pose proof (Forall2_lookup_lr _ _ _ _ _ _ HF Ef Hd) as [Hok _]. pose proof (Forall2_lookup_lr _ _ _ _ _ _ H1 Ef Hs) as Hlen.
  pose proof (Forall2_lookup_lr _ _ _ _ _ _ H2 Hd Hs) as Hc. by split.
Qed.

(** The packets that were created are ready for their data. *)
Lemma initial_packets data i locs packets files St : Forall2 created locs packets → length setid = 16%nat → files_ok shape files St →
  rps_ok blocksize critical creator plans setid data 0 i locs packets St.
Proof.
  intros HF Hset Hfo. revert i. induction HF as [|[[f k] e] p locs packets [Hit ->] HF IH]; intros i; cbn [rps_ok]; [done|]. split; [|apply IH].
  cbn [fst snd] in *. pose proof (place_fits blocksize critical creator plans shape_fits f k _ Hit) as Hp. cbn [item_length] in Hp. unfold MaxOffset in Hp.
  unfold RecoveryPacket_Create. split; cbn [fst snd r_packet r_offset r_datablock r_context]; [done|done|done| | |].
  - unfold SetLength, SetLocation, mkDataBlock. cbn. rewrite wrap_small by (split; lia). f_equal. lia.
  - eexists. split; [reflexivity|]. rewrite take_0, app_nil_r. apply (update_ok _ []), reset_ok, Hscratch.
  - destruct (item_shape blocksize critical creator plans f k _ Hit) as (lens & Hl & Hk). destruct Hfo as (L1 & L2 & Hok).
    pose proof (lookup_lt_Some _ _ _ Hl) as Hlt. destruct (lookup_lt_is_Some_2 files f ltac:(lia)) as [d Hd].
    destruct (lookup_lt_is_Some_2 St f ltac:(lia)) as [slots Hs]. destruct (Hok f lens d slots Hl Hd Hs) as [_ _ _ Hlen].
    rewrite <- Hlen, list_lookup_fmap in Hk. unfold get_slot. rewrite Hs. cbn [mbind option_bind]. destruct (slots !! k) as [v|]; [|done].
    injection Hk as Hv. cbn [item_length] in Hv. exists (take 68 v), (drop 68 v). rewrite take_0. cbn [app]. rewrite take_drop, length_take. split; [done|lia].
Qed.
End Assembly.

(** ** What the files contain *)

Section Written.
Context (scratch : MD5Single) (maxlength blocksize : Z) (setid : list Z) (critical finished : list CriticalPacket) (creator : CriticalPacket).
Context (plans : list (list item)) (data : nat → list Z) (getOutput : Z → Z → nat → list Z).
Hypothesis Hscratch : length (tmp scratch) = 64%nat.
Hypothesis Hmax : 0 < maxlength.
Hypothesis Hbs : 0 < blocksize < 2 ^ 62.
Hypothesis Hsetid : length setid = 16%nat.
Hypothesis Hdata : ∀ i, length (data i) = Z.to_nat blocksize.
Hypothesis Hvalid : Forall (plan_valid blocksize critical creator) plans.
Hypothesis Hfinish : finish_critical scratch setid critical = Some finished.
Hypothesis Hfinished : Forall2 (λ p p', length (written p') = packetlength p ∧ (0 < packetlength p)%nat) critical finished.
Hypothesis Hcreator : length (written creator) = packetlength creator ∧ (0 < packetlength creator)%nat.
Context (first R : Z).
Hypothesis Hexp : mjoin (omap rec_of <$> plans) = seqZ first R.

Local Abbreviation recs := (all_files (λ f, locs rec_of f 0) 0 plans).
Local Abbreviation refs := (all_files (λ f, locs ref_of f 0) 0 plans).
Local Abbreviation shape := (plan_shape blocksize critical creator plans).
Local Abbreviation bytes := (item_bytes blocksize creator setid data finished first).

Lemma elem_of_places {B} (sel : item → option B) f k b :
  (f, k, b) ∈ all_files (λ f, locs sel f 0) 0 plans ↔ item_at plans f k ≫= sel = Some b.
Proof.
  rewrite elem_of_all. unfold item_at. split.
  - intros (i & items & Hi & H). apply elem_of_locs in H as (-> & _ & H). by rewrite Nat.add_0_l, Hi, Nat.sub_0_r in *.
  - destruct (plans !! f) as [items|] eqn:Ef; [|done]. intros H. exists f, items. split; [done|]. apply elem_of_locs. rewrite Nat.sub_0_r. by split_and!; [|lia|].
Qed.

(** The slots at the end *)
Lemma final_slots St2 St3 f items slots : recovered blocksize setid data 0 recs St2 → only (fst <$> refs) St2 St3 →
  (∀ loc, loc ∈ refs → get_slot St3 loc.1.1 loc.1.2 = Some (ref_bytes creator finished loc.2)) →
  plans !! f = Some items → St3 !! f = Some slots → length slots = length items → slots = bytes <$> items.
Proof.
  intros Hrec Ho Href Hf Hs Hlen. apply list_eq. intros k. rewrite list_lookup_fmap. destruct (items !! k) as [it|] eqn:Ek.
  2: { apply lookup_ge_None in Ek. apply lookup_ge_None. lia. }
  assert (item_at plans f k = Some it) as Hit by (unfold item_at; by rewrite Hf).
  assert (slots !! k = get_slot St3 f k) as -> by (unfold get_slot; by rewrite Hs). cbn [fmap option_fmap option_map]. destruct it as [e|ref].
  - rewrite (Ho f k). 2: { intros ([[f' k'] ref] & [= <- <-] & Hin)%list_elem_of_fmap. apply elem_of_places in Hin. by rewrite Hit in Hin. }
    assert ((f, k, e) ∈ recs) as Hin by (apply elem_of_places; by rewrite Hit). apply list_elem_of_lookup in Hin as [j Hj].
    pose proof (recovered_lookup blocksize setid data 0 recs St2 j _ Hrec Hj) as E. cbn [fst snd] in E. rewrite E, Nat.add_0_l. cbn [item_bytes].
    assert ((snd <$> recs) !! j = Some e) as Hv by (by rewrite list_lookup_fmap, Hj). rewrite all_locs_values, Hexp in Hv.
    apply lookup_seqZ in Hv as [-> Hjr]. do 3 f_equal. lia.
  - assert ((f, k, ref) ∈ refs) as Hin by (apply elem_of_places; by rewrite Hit).
    pose proof (Href _ Hin) as Hv. cbn [fst snd] in Hv. by rewrite Hv.
Qed.

Lemma write_output_ok fuel chunk o : (0 < chunk)%nat → gives_output chunk blocksize R data getOutput → (Z.to_nat blocksize ≤ fuel)%nat → o_critical o = critical →
  o_packets o = all_files (λ f, plan_packets scratch critical creator setid blocksize f 0) 0 plans →
  o_entries o = all_files (λ f, plan_entries critical creator blocksize f 0) 0 plans →
  Forall2 (λ items d, disk_ok d ∧ length (contents d) = plan_length critical creator blocksize items) plans (o_files o) →
  ∃ files, write_output scratch maxlength blocksize getOutput fuel (Z.of_nat chunk) R setid creator o = Some (true, files) ∧
    Forall2 (λ items d, disk_is (mjoin (bytes <$> items)) d) plans files.
Proof.
  intros Hc Hout Hf Hoc Hop Hoe Hof. destruct (initial_slots blocksize critical creator plans Hvalid (o_files o) Hof) as (St & Hfo).
  destruct (all_placed scratch blocksize setid critical creator plans Hvalid 0 plans eq_refl) as [Hcr Hen]. rewrite <- Hop in Hcr. rewrite <- Hoe in Hen.
  pose proof (shape_fits blocksize critical creator plans Hvalid) as Hfits.
  assert (∃ files2 St2, (if 0 <? R then
      '(ok, w) ← process_loop maxlength blocksize getOutput fuel (Z.of_nat chunk) 0 {| w_packets := o_packets o; w_files := o_files o |};
      if negb ok then Some (false, w_files w) else
      '(ok, _, files) ← write_headers maxlength (w_packets w) (w_files w); Some (ok, files)
    else Some (true, o_files o)) = Some (true, files2) ∧ files_ok shape files2 St2 ∧ recovered blocksize setid data 0 recs St2)
    as (files2 & St2 & E & Hfo2 & Hrec).
  { destruct (Z.ltb_spec 0 R) as [Hpos|Hz].
    - assert (Z.of_nat (length recs) = R) as El by (rewrite <- (length_fmap snd), all_locs_values, Hexp, length_seqZ; lia).
      assert (gives_output chunk blocksize (Z.of_nat (length recs)) data getOutput) as Hout' by (by rewrite El).
      pose proof (initial_packets scratch blocksize setid critical creator plans Hscratch Hbs Hvalid data 0 _ _ _ _ Hcr Hsetid Hfo) as Hr.
      destruct (process_loop_ok blocksize critical creator plans Hfits scratch maxlength setid data getOutput Hscratch Hmax ltac:(lia) Hsetid Hdata
        chunk recs (o_packets o) 0 fuel (o_files o) St Hc Hout' (or_intror (ex_intro _ 0%nat eq_refl)) Hr (all_locs_nodup rec_of 0 plans) Hfo) as (ps & fs & St1 & E1 & Hfo1 & Hr1 & _); [lia|lia|].
      change (Z.of_nat 0) with 0 in E1. rewrite E1. cbn [mbind option_bind negb w_packets w_files].
      destruct (write_headers_ok blocksize critical creator plans scratch maxlength setid data Hscratch Hmax ltac:(lia) Hsetid Hdata
        recs ps 0 fs St1 Hr1 (all_locs_nodup rec_of 0 plans) Hfo1) as (ps' & fs' & St2 & E2 & Hfo2 & Hrec & _).
      rewrite E2. by exists fs', St2.
    - exists (o_files o), St. split; [done|]. split; [done|]. assert (snd <$> recs = []) as En by (rewrite all_locs_values, Hexp; apply seqZ_nil; lia).
      apply fmap_nil_inv in En. by rewrite En. }
  unfold write_output. rewrite E. cbn [mbind option_bind negb]. rewrite Hoc, Hfinish. cbn [mbind option_bind].
  destruct (write_entries_ok blocksize critical creator plans scratch maxlength setid Hscratch Hmax Hsetid finished Hfinished Hcreator
    refs (o_entries o) files2 St2 Hen Hfo2) as (files3 & St3 & E3 & (L1 & L2 & Hok) & Href & Ho).
  rewrite E3. exists files3. split; [done|]. unfold plan_shape in L1, L2. rewrite length_fmap in L1, L2.
  apply Forall2_same_length_lookup_2; [done|]. intros f items d Hfi Hd. destruct (lookup_lt_is_Some_2 St3 f) as [slots Hs].
  { rewrite L2. by apply lookup_lt_Some in Hfi. }
  assert (shape !! f = Some (item_length critical creator blocksize <$> items)) as Hsh by (unfold plan_shape; by rewrite list_lookup_fmap, Hfi).
  destruct (Hok f _ d slots Hsh Hd Hs) as [H1 H2 H3 H4]. split; [done|]. rewrite H2. f_equal.
  apply (final_slots St2 St3 f items slots Hrec Ho Href Hfi Hs). apply (f_equal length) in H4. by rewrite !length_fmap in H4.
Qed.
End Written.

(** ** The layout of all files *)

Section Layout.
Context (scratch : MD5Single) (blocksize : Z) (setid : list Z) (critical : list CriticalPacket) (creator : CriticalPacket).
Hypothesis Hn : (0 < length critical)%nat.
Hypothesis Hn32 : Z.of_nat (length critical) < 2 ^ 32.
Hypothesis Hbs : 0 ≤ blocksize.

(** An allocation that is small enough *)
Definition alloc_ok (a : FileAllocation) : Prop :=
  0 ≤ a_exponent a ∧ 0 ≤ a_count a ∧ a_exponent a + a_count a < 2 ^ 31 ∧ Z.of_nat (plan_length critical creator blocksize (file_plan critical a)) ≤ MaxOffset.

Lemma Create_ok existing name n : Z.of_nat n ≤ MaxOffset →
  (name ∉ existing → is_Some (Create existing name (Z.of_nat n))) ∧
  ∀ d, Create existing name (Z.of_nat n) = Some d → disk_ok d ∧ length (contents d) = n.
Proof.
  intros Hle. unfold Create. rewrite (proj2 (Z.ltb_ge _ _)) by lia. split.
  - intros Hnin. rewrite bool_decide_eq_false_2 by done. by eexists.
  - intros d. case_bool_decide; [done|]. intros [= <-]. cbn [contents].
    assert (length (if 0 <? Z.of_nat n then replicate (Z.to_nat (Z.of_nat n - 1)) 0 ++ [wrap 8 (Z.of_nat n)] else []) = n) as Hl.
    { destruct (Z.ltb_spec 0 (Z.of_nat n)); [rewrite length_app, length_replicate; cbn; lia|cbn; lia]. }
    split; [|done]. split; cbn; [done|lia|]. f_equal. by rewrite Hl.
Qed.

Lemma layout_files_ok f allocations names existing packets entries files : Forall alloc_ok allocations → length names = length allocations →
  ∃ r, layout_files scratch critical creator setid blocksize f allocations names existing packets entries files = Some r ∧
    (NoDup names → (∀ name, name ∈ names → name ∉ existing) → is_Some r) ∧
    ∀ ps es fs, r = Some (ps, es, fs) →
      ps = packets ++ all_files (λ f, plan_packets scratch critical creator setid blocksize f 0) f (file_plan critical <$> allocations) ∧
      es = entries ++ all_files (λ f, plan_entries critical creator blocksize f 0) f (file_plan critical <$> allocations) ∧
      ∃ new, fs = files ++ new ∧
        Forall2 (λ items d, disk_ok d ∧ length (contents d) = plan_length critical creator blocksize items) (file_plan critical <$> allocations) new.
Proof.
  intros HF. revert f names existing packets entries files. induction HF as [|a allocations (Ha1 & Ha2 & Ha3 & Ha4) HF IH]; intros f [|name names] existing packets entries files Hl; try discriminate.
  { eexists. split; [reflexivity|]. split; [done|]. intros ps es fs [= <- <- <-]. cbn [fmap list_fmap all_files]. rewrite !app_nil_r.
    split; [done|]. split; [done|]. exists []. by rewrite app_nil_r. }
  injection Hl as Hl. cbn [layout_files]. rewrite (layout_file_ok scratch critical creator setid blocksize Hn Hn32 Hbs) by done. cbn [mbind option_bind].
  set (size := plan_length _ _ _ _) in *. destruct (Create_ok existing name size Ha4) as [Hc1 Hc2].
  destruct (Create existing name (Z.of_nat size)) as [d|] eqn:Ec.
  2: { eexists. split; [reflexivity|]. split; [|done]. intros _ Hnin. destruct (Hc1 (Hnin name ltac:(by left))) as [? ?]. done. }
  destruct (Hc2 d eq_refl) as [Hd1 Hd2].
  destruct (IH (S f) names (name :: existing) (packets ++ plan_packets scratch critical creator setid blocksize f 0 (file_plan critical a))
    (entries ++ plan_entries critical creator blocksize f 0 (file_plan critical a)) (files ++ [d]) Hl) as (r & E & Hr1 & Hr2).
  exists r. split; [exact E|]. split.
  - intros Hnd Hnin. apply NoDup_cons in Hnd as [Hnd1 Hnd2]. apply Hr1; [done|]. intros nm Hnm.  apply not_elem_of_cons. split; [by intros ->|].
    apply Hnin. by right.
  - intros ps es fs ->. destruct (Hr2 ps es fs eq_refl) as (-> & -> & new & -> & Hnew). cbn [fmap list_fmap all_files]. rewrite <- !app_assoc.
    split; [done|]. split; [done|]. exists (d :: new). split; [done|]. by constructor.
Qed.
End Layout.
