(* ===== verification/CreatorRoundtrip.v ===== *)
(** * CreatorRoundtrip.v: what is created can be read back

    The end-to-end properties of creating recovery files. *)

From stdpp Require Import sorting gmap.
From S2P Require Import Prelude Bytes Md5 Md5Spec Md5Single DiskFile CheckSummerSpec HashTable FileName Packets PacketsSpec PacketScan PacketScanSpec Parameters ParametersSpec CreatorLayout CreatorAllocSpec CreatorNamesSpec CreatorPlanSpec CreatorWrite CreatorWriteSpec CreatorSpec.

Lemma sort_critical_perm l : sort_critical l ≡ₚ l.
Proof. apply merge_sort_Permutation. Qed.

(** A critical packet before it is finished *)
Definition critical_ok (p : CriticalPacket) : Prop :=
  ∃ type, started p (packetlength p) type ∧ (64 ≤ packetlength p)%nat ∧ (packetlength p mod 4 = 0)%nat ∧ Z.of_nat (packetlength p) < 2 ^ 64.

(** The creator packet is finished when it is created. *)
Definition creator_ok (setid : list Z) (p : CriticalPacket) : Prop :=
  intact (written p) ∧ h_setid (written p) = setid ∧ length (written p) = packetlength p.

(** The parameters of a creation: scheme, first exponent [first], [R] recovery blocks of [bs]
    bytes, largest file [lfs], [n] recovery files *)
Record creation (scheme : Scheme) (first R n lfs bs : Z) (critical : list CriticalPacket) (creator : CriticalPacket) (setid : list Z) : Prop := {
  cr_first : 0 ≤ first;
  cr_blocks : 0 < R;
  cr_limit : first + R < 65536;
  cr_largest : 0 < lfs < 2 ^ 61;
  cr_blocksize : 0 < bs < 2 ^ 61;
  cr_four : bs mod 4 = 0;
  cr_count : cdiv lfs bs ≤ 32768;
  cr_files : ∃ n0, 0 ≤ n0 < 65536 ∧ ComputeRecoveryFileCount n0 scheme R lfs bs = Some (Some n);
  cr_variable : scheme = scVariable → n ≤ 30;
  cr_setid : length setid = 16%nat;
  cr_critical : critical ≠ [] ∧ Z.of_nat (length critical) < 2 ^ 32 ∧ Forall critical_ok critical;
  cr_creator : creator_ok setid creator;
  cr_fits : ∀ l, allocate scheme first R (Z.to_nat n) lfs bs = Some (Some l) →
    Forall (λ a, Z.of_nat (plan_length (sort_critical critical) creator bs (file_plan (sort_critical critical) a)) ≤ MaxOffset) l;
}.

Section Creation.
Context (scratch : MD5Single) (scheme : Scheme) (first R n lfs bs : Z) (critical : list CriticalPacket) (creator : CriticalPacket) (setid : list Z).
Hypothesis Hc : creation scheme first R n lfs bs critical creator setid.

Local Abbreviation sorted := (sort_critical critical).

(** The allocation, with what follows from it *)
Lemma creation_alloc : ∃ files last, allocate scheme first R (Z.to_nat n) lfs bs = Some (Some (files ++ [last])) ∧ Z.of_nat (length files) = n ∧
  Forall (alloc_ok bs sorted creator) (files ++ [last]) ∧ Forall alloc_range (files ++ [last]) ∧
  mjoin (omap rec_of <$> (file_plan sorted <$> (files ++ [last]))) = seqZ first R ∧
  (scheme ≠ scVariable ∨ n ≤ bitlen R → NoDup (a_exponent <$> files)).
Proof using Hc.
  destruct Hc as [H1 H2 H3 H4 H5 H6 H7 (n0 & H8 & H9) H10 H11 H12 H13 H14].
  pose proof (ComputeRecoveryFileCount_ok n0 scheme R lfs bs n ltac:(lia) H8 H4 H5 H7 H9) as Hn.
  destruct (allocate_ok scheme first R lfs bs n H1 H2 H3 H4 H5 H7 Hn H10) as (l & counts & E & [(e & -> & He) A2 A3 A4] & Hpos).
  exists (allocs first counts), {| a_exponent := e; a_count := 0 |}. split; [done|]. split; [rewrite length_allocs, A2; apply Z2Nat.id; by eapply filecount_nonneg|].
  assert (Forall (λ a, 0 ≤ a_exponent a ∧ 0 ≤ a_count a ∧ a_exponent a + a_count a ≤ first + R) (allocs first counts)) as Hr.
  { apply allocs_bounds; [done|done|lia]. }
  assert (Forall (λ a, 0 ≤ a_exponent a ∧ 0 ≤ a_count a ∧ a_exponent a + a_count a ≤ first + R) (allocs first counts ++ [{| a_exponent := e; a_count := 0 |}])) as Hr'.
  { apply Forall_app. split; [done|]. constructor; [cbn; lia|constructor]. }
  split; [|split; [|split]].
  - apply Forall_forall. intros a Ha. pose proof (proj1 (Forall_forall _ _) Hr' a Ha) as Hb. pose proof (proj1 (Forall_forall _ _) (H14 _ E) a Ha) as Hf.
    cbn beta in *. split_and!; first [done|lia].
  - eapply Forall_impl; [exact Hr'|]. intros a Ha. cbn beta in Ha. split; lia.
  - rewrite <- A3. rewrite <- (allocs_exponents first counts A4). rewrite <- list_fmap_compose, fmap_app, join_app. cbn [fmap list_fmap mjoin list_join].
    unfold compose. rewrite file_plan_exponents by done. cbn [a_count a_exponent]. rewrite seqZ_nil by lia. rewrite !app_nil_r. f_equal.
    apply list_fmap_ext. intros i a Ha. apply file_plan_exponents. pose proof (Forall_lookup_1 _ _ _ _ Hr Ha) as Hb. cbn beta in Hb. lia.
  - intros Hs. apply allocs_nodup. by apply Hpos.
Qed.

Lemma sorted_ok : (0 < length sorted)%nat ∧ Z.of_nat (length sorted) < 2 ^ 32 ∧ Forall critical_ok sorted.
Proof using Hc.
  destruct (cr_critical _ _ _ _ _ _ _ _ _ Hc) as (H1 & H2 & H3). pose proof (sort_critical_perm critical) as Hp. rewrite Hp. split; [destruct critical; [done|cbn; lia]|]. split; done.
Qed.

(** Every reference of a plan is to a packet. *)
Local Definition valid_item (l : list CriticalPacket) (it : item) : Prop :=
  match it with IRec _ => True | IRef ref => is_Some (ref_packet l creator ref) end.

Lemma body_plan_valid l copies count e j todo : (0 < length l)%nat → Forall (valid_item l) (body_plan l copies count e j todo).
Proof using.
  intros Hl. revert j. induction todo as [|todo IH]; intros j; cbn [body_plan]; [constructor|]. constructor; [done|]. apply Forall_app. split; [|apply IH].
  apply Forall_fmap, Forall_forall. intros i _. cbn. apply lookup_lt_is_Some_2, Nat.mod_upper_bound. intros E. rewrite E in Hl. by apply Nat.lt_irrefl in Hl.
Qed.

Lemma file_plan_valid l a : (0 < length l)%nat → Forall (valid_item l) (file_plan l a).
Proof using.
  intros Hl. apply Forall_app. split; [|repeat constructor; by eexists]. destruct (a_count a =? 0); [|by apply body_plan_valid].
  apply Forall_fmap, Forall_forall. intros i [_ Hi]%elem_of_seq. by apply lookup_lt_is_Some_2.
Qed.

(** Every critical packet is in every file. *)
Lemma file_plan_complete l a i : (i < length l)%nat → 0 ≤ a_count a → IRef (Critical i) ∈ file_plan l a.
Proof using.
  intros Hi Hcount. assert (Critical i ∈ omap ref_of (file_plan l a)) as Hin.
  { rewrite file_plan_refs by lia. apply elem_of_app. left. set (c := if a_count a =? 0 then _ else _). assert (0 < c)%nat as Hc'.
    { unfold c. destruct (Z.eqb_spec (a_count a) 0); [lia|]. pose proof (bitlen_spec (a_count a) ltac:(lia)). lia. }
    destruct c as [|c]; [lia|]. cbn [replicate mjoin list_join]. apply elem_of_app. left. apply list_elem_of_fmap_2, elem_of_seq. lia. }
  apply list_elem_of_omap in Hin as ([e|ref] & Hin & E); [done|]. injection E as ->. done.
Qed.

(** What [InitialiseOutputFiles] does: it fails only if a file exists already or its name is too long. *)
Lemma InitialiseOutputFiles_ok par existing : ∃ r, InitialiseOutputFiles scratch par existing scheme first R (Z.to_nat n) lfs bs critical creator setid = Some r ∧
  ((∀ names, (∀ l, allocate scheme first R (Z.to_nat n) lfs bs = Some (Some l) → file_names par l = Some names) →
     ∃ names', names = Some names' ∧ ∀ name, name ∈ names' → name ∉ existing) → scheme ≠ scVariable ∨ n ≤ bitlen R → is_Some r) ∧
  ∀ o, r = Some o → ∃ plans, Z.of_nat (length plans) = n + 1 ∧ Forall (plan_valid bs sorted creator) plans ∧ mjoin (omap rec_of <$> plans) = seqZ first R ∧
    Forall (λ items, ∀ i, (i < length sorted)%nat → IRef (Critical i) ∈ items) plans ∧
    o_critical o = sorted ∧ o_packets o = all_files (λ f, plan_packets scratch sorted creator setid bs f 0) 0 plans ∧
    o_entries o = all_files (λ f, plan_entries sorted creator bs f 0) 0 plans ∧
    Forall2 (λ items d, disk_ok d ∧ length (contents d) = plan_length sorted creator bs items) plans (o_files o).
Proof using Hc.
  destruct creation_alloc as (files & last & Ea & Hlen & Hok & Hrange & Hexp & Hnd). destruct sorted_ok as (Hn & Hn32 & _).
  destruct (file_names_ok par files last Hrange) as (names & En & Hnames).
  unfold InitialiseOutputFiles. rewrite Ea. cbn [mbind option_bind]. rewrite En. cbn [mbind option_bind]. destruct names as [names|].
  2: { eexists. split; [reflexivity|]. split; [|done]. intros Hx _. destruct (Hx None) as (? & ? & _); [|done]. intros l [= <-]. done. }
  destruct (Hnames names eq_refl) as [Hl Hdist]. pose proof (cr_blocksize _ _ _ _ _ _ _ _ _ Hc) as Hbs.
  destruct (layout_files_ok scratch bs setid sorted creator Hn Hn32 ltac:(lia) 0 (files ++ [last]) names existing [] [] [] Hok Hl) as (r & -> & Hr1 & Hr2).
  cbn [mbind option_bind]. eexists. split; [reflexivity|]. split.
  - intros Hx Hs. destruct (Hx (Some names)) as (names' & [= <-] & Hnin); [intros l [= <-]; done|].
    destruct (Hr1 (Hdist (Hnd Hs)) Hnin) as [[[ps es] fs] ->]. by eexists.
  - intros o. destruct r as [[[ps es] fs]|]; [|done]. intros [= <-]. destruct (Hr2 ps es fs eq_refl) as (-> & -> & new & -> & Hnew).
    exists (file_plan sorted <$> (files ++ [last])). rewrite length_fmap, length_app. cbn [length o_critical o_packets o_entries o_files app].
    split_and!; try done; [lia| |]; apply Forall_fmap, Forall_forall; intros a Ha; pose proof (proj1 (Forall_forall _ _) Hok a Ha) as (_ & Hcount & _ & Hf).
    + split; [by apply file_plan_valid|exact Hf].
    + intros i Hi. by apply file_plan_complete.
Qed.

Context (maxlength : Z) (data : nat → list Z) (getOutput : Z → Z → nat → list Z).
Hypothesis Hscratch : length (tmp scratch) = 64%nat.
Hypothesis Hmax : 0 < maxlength.
Hypothesis Hdata : ∀ i, length (data i) = Z.to_nat bs.

Definition packet_ok (p : list Z) : Prop := intact p ∧ h_setid p = setid.

(** The packets of a plan are intact. *)
Lemma items_ok finished items : Forall2 (λ p p', length (written p') = packetlength p ∧ (0 < packetlength p)%nat) sorted finished →
  Forall (λ p', intact (written p') ∧ h_setid (written p') = setid) finished → plan_valid bs sorted creator items →
  Forall packet_ok (item_bytes bs creator setid data finished first <$> items).
Proof.
  intros H2 HF [Hv _]. apply Forall_fmap. eapply Forall_impl; [exact Hv|]. intros [e|ref] Href; unfold compose; cbn [item_bytes].
  - destruct (recovery_intact bs e setid (data (Z.to_nat (e - first))) (cr_setid _ _ _ _ _ _ _ _ _ Hc)) as (H1 & H3 & _); [|apply Hc|apply Hdata|done].
    pose proof (cr_blocksize _ _ _ _ _ _ _ _ _ Hc). lia.
  - destruct ref as [i|]; cbn [ref_bytes ref_packet] in *; [|by destruct (cr_creator _ _ _ _ _ _ _ _ _ Hc) as (? & ? & _)].
    destruct Href as [p Hp]. destruct (Forall2_lookup_l _ _ _ i p H2 Hp) as (p' & Hp' & _). rewrite Hp'. cbn [from_option]. exact (Forall_lookup_1 _ _ _ _ HF Hp').
Qed.

(** The files after writing *)
Lemma written_files par existing chunk : (0 < chunk)%nat → gives_output chunk bs R data getOutput →
  ∃ r, InitialiseOutputFiles scratch par existing scheme first R (Z.to_nat n) lfs bs critical creator setid = Some r ∧
  ∀ o, r = Some o → ∃ files packets finished,
    write_output scratch maxlength bs getOutput (Z.to_nat bs) (Z.of_nat chunk) R setid creator o = Some (true, files) ∧
    Z.of_nat (length files) = n + 1 ∧ Forall2 (λ ps d, disk_is (mjoin ps) d ∧ Forall packet_ok ps) packets files ∧
    Forall (λ ps, Z.of_nat (length (mjoin ps)) ≤ MaxOffset) packets ∧
    (∀ e, first ≤ e < first + R → recovery_bytes bs e setid (data (Z.to_nat (e - first))) ∈ mjoin packets) ∧
    finish_critical scratch setid sorted = Some finished ∧ ∀ p', p' ∈ finished → Forall (λ ps, written p' ∈ ps) packets.
Proof.
  intros Hchunk Hout. destruct (InitialiseOutputFiles_ok par existing) as (r & E & _ & Hr). exists r. split; [exact E|]. intros o Ho.
  destruct (Hr o Ho) as (plans & Hlen & Hvalid & Hexp & Hall & Hoc & Hop & Hoe & Hof). pose proof Hc as [C1 C2 C3 C4 C5 C6 C7 C8 C9 C10 C11 (C12a & C12b & C12c) C13].
  destruct sorted_ok as (Hn & Hn32 & Hcrit). destruct (finish_critical_ok scratch setid sorted Hscratch C10 Hcrit) as (finished & Ef & Hf2 & Hfi).
  assert (length (written creator) = packetlength creator ∧ (0 < packetlength creator)%nat) as Hcr.
  { split; [done|]. pose proof (p_size _ C12a). lia. }
  destruct (write_output_ok scratch maxlength bs setid sorted finished creator plans data getOutput Hscratch Hmax ltac:(lia) C10 Hdata
    Hvalid Ef Hf2 Hcr first R Hexp (Z.to_nat bs) chunk o Hchunk Hout (le_n _) Hoc Hop Hoe Hof) as (files & Ew & HF).
  set (bytes := item_bytes bs creator setid data finished first) in *.
  exists files, ((λ items : list item, bytes <$> items) <$> plans), finished. split; [exact Ew|]. split; [by rewrite <- (Forall2_length _ _ _ HF)|].
  assert (Forall2 (λ ps d, disk_is (mjoin ps) d ∧ Forall packet_ok ps) ((λ items : list item, bytes <$> items) <$> plans) files) as HF2.
  { apply Forall2_fmap_l, Forall2_same_length_lookup_2; [by apply Forall2_length in HF|]. intros i items d Hi Hd. unfold compose.
    split; [exact (Forall2_lookup_lr _ _ _ _ _ _ HF Hi Hd)|]. apply items_ok; [done|done|exact (Forall_lookup_1 _ _ _ _ Hvalid Hi)]. }
  split; [done|]. split; [|split; [|split; [done|]]].
  - apply Forall_fmap. eapply Forall_impl; [exact Hvalid|]. intros items [Hv Hfit]. unfold compose. rewrite length_mjoin, <- list_fmap_compose.
    assert (sum_list (length ∘ bytes <$> items) = plan_length sorted creator bs items) as ->; [|done]. clear Hfit. unfold plan_length.
    induction Hv as [|it items Hit Hv IH]; [done|]. cbn [fmap list_fmap sum_list_with]. unfold id at 1. rewrite <- IH. f_equal. unfold compose.
    destruct it as [e|ref]; cbn [bytes item_bytes item_length].
    + by rewrite length_recovery_bytes, Hdata.
    + by destruct (ref_bytes_ok bs sorted creator finished Hf2 Hcr ref Hit) as (_ & _ & _ & Hl & _).
  - intros e He. assert (e ∈ seqZ first R) as Hin by (apply elem_of_seqZ; lia). rewrite <- Hexp in Hin.
    apply list_elem_of_join in Hin as (es & Hin & Hes). apply list_elem_of_fmap in Hes as (items & -> & Hitems).
    apply list_elem_of_omap in Hin as ([e'|ref] & Hin & E'); [|done]. injection E' as ->.
    apply list_elem_of_join. exists (bytes <$> items). split; apply list_elem_of_fmap; [by exists (IRec e)|by exists items].
  - intros p' Hp'. apply list_elem_of_lookup in Hp' as [i Hi]. apply Forall_fmap. eapply Forall_impl; [exact Hall|]. intros items Hit. unfold compose.
    assert (written p' = bytes (IRef (Critical i))) as -> by (cbn [bytes item_bytes ref_bytes]; by rewrite Hi).
    apply list_elem_of_fmap_2, Hit. rewrite (Forall2_length _ _ _ Hf2). by apply lookup_lt_Some in Hi.
Qed.
End Creation.

Lemma finish_critical_member scratch setid packets finished p : finish_critical scratch setid packets = Some finished → p ∈ packets →
  ∃ p', FinishPacket scratch p setid = Some p' ∧ p' ∈ finished.
Proof.
  revert finished. induction packets as [|q packets IH]; intros finished E Hin; [by apply elem_of_nil in Hin|]. cbn [finish_critical] in E.
  destruct (FinishPacket scratch q setid) as [q'|] eqn:Eq; [|done]. cbn [mbind option_bind] in E.
  destruct (finish_critical scratch setid packets) as [fin|]; [|done]. injection E as <-.
  apply elem_of_cons in Hin as [->|Hin]; [exists q'; split; [done|by left]|]. destruct (IH fin eq_refl Hin) as (p' & Ep & Hp'). exists p'. split; [done|by right].
Qed.

(** A file of packets only *)
Lemma layout_packets ps : layout (pair [] <$> ps) [] = mjoin ps.
Proof. induction ps as [|p ps IH]; [done|]. cbn [fmap list_fmap layout app]. change (list_fmap _ _ ?g ?l) with (g <$> l). by rewrite IH. Qed.

Lemma clean_packets pre ps : clean (pre ++ mjoin ps) (length pre) (pair [] <$> ps).
Proof.
  revert pre. induction ps as [|p ps IH]; intros pre; cbn [fmap list_fmap clean length].
  - intros i Hi Hf. rewrite length_app in *. cbn in *. lia.
  - split; [intros i Hi; lia|]. specialize (IH (pre ++ p)). change (mjoin (p :: ps)) with (p ++ mjoin ps). rewrite Nat.add_0_r.
    rewrite <- app_assoc, length_app in IH. exact IH.
Qed.

(** ** Properties *)

(** C19: creating recovery files produces intact packets.  For any parameters accepted by
    [ComputeRecoveryFileCount], laying out the output files returns, and if it
    succeeds, then writing them in parts of any size succeeds.  Each of the [n + 1] files is
    then exactly a sequence of intact packets of the recovery set; for every exponent the
    recovery packet with its data is in one of them, and every critical packet,
    finished with the set id, is in each of them. *)
Theorem created_files_intact (scratch : MD5Single) (maxlength : Z) (scheme : Scheme) (first R n lfs bs : Z) (critical : list CriticalPacket)
    (creator : CriticalPacket) (setid : list Z) (par : list Z) (existing : list (list Z)) (chunk : nat) (data : nat → list Z)
    (getOutput : Z → Z → nat → list Z) :
  creation scheme first R n lfs bs critical creator setid → length (tmp scratch) = 64%nat → 0 < maxlength → (0 < chunk)%nat →
  (∀ i, length (data i) = Z.to_nat bs) →
  gives_output chunk bs R data getOutput →
  ∃ r, InitialiseOutputFiles scratch par existing scheme first R (Z.to_nat n) lfs bs critical creator setid = Some r ∧
  ∀ o, r = Some o → ∃ files packets,
    write_output scratch maxlength bs getOutput (Z.to_nat bs) (Z.of_nat chunk) R setid creator o = Some (true, files) ∧
    Z.of_nat (length files) = n + 1 ∧
    Forall2 (λ ps d, disk_is (mjoin ps) d ∧ Forall (λ p, intact p ∧ h_setid p = setid) ps) packets files ∧
    (∀ e, first ≤ e < first + R → recovery_bytes bs e setid (data (Z.to_nat (e - first))) ∈ mjoin packets) ∧
    (∀ p, p ∈ critical → ∃ p', FinishPacket scratch p setid = Some p' ∧ Forall (λ ps, written p' ∈ ps) packets).
Proof.
  intros Hc Hs Hm Hk Hd Ho.
  destruct (written_files scratch scheme first R n lfs bs critical creator setid Hc maxlength data getOutput Hs Hm Hd par existing chunk Hk Ho) as (r & E & Hr).
  exists r. split; [exact E|]. intros o Hro. destruct (Hr o Hro) as (files & packets & finished & E1 & E2 & E3 & _ & E5 & E6 & E7).
  exists files, packets. split; [exact E1|]. split; [done|]. split; [exact E3|]. split; [done|]. intros p Hp.
  rewrite <- (sort_critical_perm critical) in Hp. destruct (finish_critical_member scratch setid _ _ p E6 Hp) as (p' & Ep & Hin). exists p'. split; [done|]. by apply E7.
Qed.

(** C20: everything that was created is found.  Searching any of the created files for packets,
    whatever was found before, handles exactly the packets that the file consists of,
    one after another from its start to its end. *)
Theorem created_files_found (scratch : MD5Single) (maxlength : Z) (scheme : Scheme) (first R n lfs bs : Z) (critical : list CriticalPacket)
    (creator : CriticalPacket) (setid : list Z) (par : list Z) (existing : list (list Z)) (chunk : nat) (data : nat → list Z)
    (getOutput : Z → Z → nat → list Z) :
  creation scheme first R n lfs bs critical creator setid → length (tmp scratch) = 64%nat → 0 < maxlength → (0 < chunk)%nat →
  (∀ i, length (data i) = Z.to_nat bs) →
  gives_output chunk bs R data getOutput →
  ∃ r, InitialiseOutputFiles scratch par existing scheme first R (Z.to_nat n) lfs bs critical creator setid = Some r ∧
  ∀ o, r = Some o → ∃ files,
    write_output scratch maxlength bs getOutput (Z.to_nat bs) (Z.of_nat chunk) R setid creator o = Some (true, files) ∧
    ∀ d, d ∈ files → ∃ packets, contents d = mjoin packets ∧ Forall intact packets ∧
      ∀ diskfile rep, ∃ d', LoadPacketsFromFile maxlength scratch diskfile (length (contents d) + 1) rep d
        = Some (Nat.ltb 0 (accept_all diskfile rep 0 (pair [] <$> packets)).1, (accept_all diskfile rep 0 (pair [] <$> packets)).2, d').
Proof.
  intros Hc Hs Hm Hk Hd Ho.
  destruct (written_files scratch scheme first R n lfs bs critical creator setid Hc maxlength data getOutput Hs Hm Hd par existing chunk Hk Ho) as (r & E & Hr).
  exists r. split; [exact E|]. intros o Hro. destruct (Hr o Hro) as (files & packets & finished & E1 & _ & E3 & E4 & _).
  exists files. split; [exact E1|]. intros d Hin. apply list_elem_of_lookup in Hin as [i Hi]. destruct (Forall2_lookup_r _ _ _ i d E3 Hi) as (ps & Hps & Hdisk & Hok).
  exists ps. destruct (Hdisk) as [_ Hcont]. split; [done|]. assert (Forall intact ps) as Hint by (eapply Forall_impl; [exact Hok|by intros p []]). split; [done|].
  intros diskfile rep. assert (layout (pair [] <$> ps) [] = mjoin ps) as El by apply layout_packets. rewrite Hcont, <- El in *.
  apply LoadPacketsFromFile_ok; [done|done|done|rewrite El; exact (Forall_lookup_1 _ _ _ _ E4 Hps)|by apply Forall_fmap|rewrite El; exact (clean_packets [] ps)].
Qed.

(** C26: the recovery files do not get in each other's way.  Provided that no name is too long,
    that none of the names is that of an existing file, and that [scVariable] is not given
    more files than the number of blocks has binary digits, all the [n + 1] files are
    created: their names are all different.  The last condition is needed: see
    [variable_names_collide]. *)
Theorem output_files_created (scratch : MD5Single) (scheme : Scheme) (first R n lfs bs : Z) (critical : list CriticalPacket)
    (creator : CriticalPacket) (setid : list Z) (par : list Z) (existing : list (list Z)) :
  creation scheme first R n lfs bs critical creator setid → scheme ≠ scVariable ∨ n ≤ bitlen R →
  (∀ l, allocate scheme first R (Z.to_nat n) lfs bs = Some (Some l) →
     ∃ names, file_names par l = Some (Some names) ∧ ∀ name, name ∈ names → name ∉ existing) →
  ∃ o, InitialiseOutputFiles scratch par existing scheme first R (Z.to_nat n) lfs bs critical creator setid = Some (Some o) ∧
    Z.of_nat (length (o_files o)) = n + 1.
Proof.
  intros Hc Hs Hnames. destruct (InitialiseOutputFiles_ok scratch scheme first R n lfs bs critical creator setid Hc par existing) as (r & E & H1 & H2).
  destruct H1 as [o ->]; [|done|].
  - intros names Hn. destruct (creation_alloc scheme first R n lfs bs critical creator setid Hc) as (files & last & Ea & _). specialize (Hn _ Ea).
    destruct (Hnames _ Ea) as (names' & En & Hnin). rewrite Hn in En. injection En as ->. by exists names'.
  - exists o. split; [exact E|]. destruct (H2 o eq_refl) as (plans & Hl & _ & _ & _ & _ & _ & _ & HF). by rewrite <- (Forall2_length _ _ _ HF).
Qed.

(** With [scVariable], five files for five blocks: two of the files are empty and have the
    same name, so that the second cannot be created. *)
Lemma variable_names_collide :
  ComputeRecoveryFileCount 5 scVariable 5 20 4 = Some (Some 5) ∧
  ∃ l names, allocate scVariable 0 5 5 20 4 = Some (Some l) ∧ (a_count <$> l) = [1; 2; 2; 0; 0; 0] ∧ file_names [97] l = Some (Some names) ∧ ¬ NoDup names.
Proof.
  split; [reflexivity|]. eexists _, _. split; [reflexivity|]. split; [reflexivity|]. split; [reflexivity|].
  intros Hn%NoDup_ListNoDup. vm_compute in Hn. by repeat (apply NoDup_cons_iff in Hn as [? Hn]); firstorder.
Qed.

(** ** A small creation *)

Definition small_setid : list Z := replicate 16 7.
Definition small_critical : list CriticalPacket := [VerificationPacket_Create 1].
Definition small_creator : CriticalPacket := default (AllocatePacket 0 0) (CreatorPacket_Create example_context [112; 97; 114; 50] small_setid).
Definition small_data (i : nat) : list Z := replicate 8 (Z.of_nat i).
Definition small_output (off len : Z) (i : nat) : list Z := slice (small_data i) (Z.to_nat off) (Z.to_nat len).

Lemma small_output_ok chunk : gives_output chunk 8 3 small_data small_output.
Proof. intros q i _ _ len. unfold small_output. by rewrite !Nat2Z.id. Qed.

Lemma small_creation : creation scUniform 3 3 2 20 8 small_critical small_creator small_setid.
Proof.
  split; try done; try lia.
  - exists 2. split; [lia|reflexivity].
  - split; [done|]. split; [done|]. constructor; [|constructor]. exists fileverificationpacket_type.
    destruct (start_packet_ok 100 0 fileverificationpacket_type) as [H _]; [done|lia|]. split; [exact H|]. split; [apply Nat.leb_le; reflexivity|]. split; [reflexivity|]. reflexivity.
  - split; [|split; reflexivity]. split; [apply Nat.leb_le; reflexivity|reflexivity..].
  - intros l [= <-]. repeat constructor; vm_compute; discriminate.
Qed.

Lemma created_files_intact_witness :
  ∃ r, InitialiseOutputFiles example_context [97] [] scUniform 3 3 (Z.to_nat 2) 20 8 small_critical small_creator small_setid = Some r ∧
  ∀ o, r = Some o → ∃ files packets,
    write_output example_context 1000 8 small_output (Z.to_nat 8) (Z.of_nat 4) 3 small_setid small_creator o = Some (true, files) ∧
    Z.of_nat (length files) = 2 + 1 ∧
    Forall2 (λ ps d, disk_is (mjoin ps) d ∧ Forall (λ p, intact p ∧ h_setid p = small_setid) ps) packets files ∧
    (∀ e, 3 ≤ e < 3 + 3 → recovery_bytes 8 e small_setid (small_data (Z.to_nat (e - 3))) ∈ mjoin packets) ∧
    (∀ p, p ∈ small_critical → ∃ p', FinishPacket example_context p small_setid = Some p' ∧ Forall (λ ps, written p' ∈ ps) packets).
Proof.
  apply (created_files_intact example_context 1000 scUniform 3 3 2 20 8 small_critical small_creator small_setid [97] [] 4 small_data small_output);
    [apply small_creation|reflexivity|lia|lia|intros; apply length_replicate|apply small_output_ok].
Defined.

Lemma created_files_found_witness :
  ∃ r, InitialiseOutputFiles example_context [97] [] scUniform 3 3 (Z.to_nat 2) 20 8 small_critical small_creator small_setid = Some r ∧
  ∀ o, r = Some o → ∃ files,
    write_output example_context 1000 8 small_output (Z.to_nat 8) (Z.of_nat 4) 3 small_setid small_creator o = Some (true, files) ∧
    ∀ d, d ∈ files → ∃ packets, contents d = mjoin packets ∧ Forall intact packets ∧
      ∀ diskfile rep, ∃ d', LoadPacketsFromFile 1000 example_context diskfile (length (contents d) + 1) rep d
        = Some (Nat.ltb 0 (accept_all diskfile rep 0 (pair [] <$> packets)).1, (accept_all diskfile rep 0 (pair [] <$> packets)).2, d').
Proof.
  apply (created_files_found example_context 1000 scUniform 3 3 2 20 8 small_critical small_creator small_setid [97] [] 4 small_data small_output);
    [apply small_creation|reflexivity|lia|lia|intros; apply length_replicate|apply small_output_ok].
Defined.

Lemma output_files_created_witness :
  ∃ o, InitialiseOutputFiles example_context [97] [] scUniform 3 3 (Z.to_nat 2) 20 8 small_critical small_creator small_setid = Some (Some o) ∧
    Z.of_nat (length (o_files o)) = 2 + 1.
Proof.
  apply (output_files_created example_context scUniform 3 3 2 20 8 small_critical small_creator small_setid [97] []); [apply small_creation|by left|].
  intros l [= <-]. eexists. split; [reflexivity|]. intros name _. apply not_elem_of_nil.
Defined.
