(* ===== verification/SourceFile.v ===== *)
(** * SourceFile.v: [Par2CreatorSourceFile] (src/par2creatorsourcefile.cpp)

    The source files of a set that is created: the hashes of each file and of its blocks,
    computed when the file is opened or, deferred, while its blocks are processed, and kept
    in a description and a verification packet.  Also the parts of [Par2Creator]
    (src/par2creator.cpp) that read the source files: [CreateSourceBlocks], the loop of
    [ProcessData] over the input blocks and [FinishFileHashComputation].

    A write of a block's entry outside the memory of its packet has no result. *)

From S2P Require Import Prelude Bytes Md5 Md5Single Hasher DiskFile CheckSummer HashTable FileName Packets.

(** The size of the read buffer *)
Definition megabyte : nat := Z.to_nat (1024 * 1024).
Lemma to_nat_pos z : 0 < z → (0 < Z.to_nat z)%nat.
Proof. lia. Qed.
Lemma megabyte_pos : (0 < megabyte)%nat.
Proof. unfold megabyte. by apply to_nat_pos. Qed.
#[global] Opaque megabyte.

(** [blockcount], with its division in 64 bits and its cast to 32 *)
Definition count_blocks (filesize blocksize : Z) : nat := Z.to_nat (wrap 32 (wrap 64 (filesize + blocksize - 1) / blocksize)).

(** [SetBlockHashAndCRC], inside the packet *)
Definition set_block (p : CriticalPacket) (blocknumber : nat) (hash : list Z) (crc : Z) : option CriticalPacket :=
  if Nat.leb (80 + 20 * blocknumber + 20) (length (packetdata p)) then Some (SetBlockHashAndCRC p blocknumber hash crc) else None.

Record Par2CreatorSourceFile := {
  descriptionpacket : CriticalPacket;
  verificationpacket : CriticalPacket;
  diskfile : DiskFile;
  sf_filesize : nat;
  parfilename : list Z;
  blockcount : nat;
  sf_hasher : HasherInput;
}.

Definition set_hashes (f : Par2CreatorSourceFile) (description verification : CriticalPacket) (h : HasherInput) : Par2CreatorSourceFile :=
  {| descriptionpacket := description; verificationpacket := verification; diskfile := diskfile f; sf_filesize := sf_filesize f;
     parfilename := parfilename f; blockcount := blockcount f; sf_hasher := h |}.
Definition set_diskfile (f : Par2CreatorSourceFile) (d : DiskFile) : Par2CreatorSourceFile :=
  {| descriptionpacket := descriptionpacket f; verificationpacket := verificationpacket f; diskfile := d; sf_filesize := sf_filesize f;
     parfilename := parfilename f; blockcount := blockcount f; sf_hasher := sf_hasher f |}.

(** What the loop of [Open] changes: the packets and contexts, the block and what it needs *)
Record scan := {
  sc_description : CriticalPacket; sc_verification : CriticalPacket; sc_hasher : HasherInput; sc_16k : MD5Single;
  blocknumber : nat; need : nat;
}.

Section SourceFile.
(** The memory of the hash contexts and the hasher, the largest piece of a read *)
Context (scratch : MD5Single) (fresh : HasherInput) (maxlength : Z).

(** A block is complete but for [zeropad] bytes. *)
Definition finish_block (h : HasherInput) (zeropad : nat) (verification : CriticalPacket) (blocknumber : nat) : option (HasherInput * CriticalPacket) :=
  '(crc, hash, h) ← HasherGetBlock h zeropad;
  verification ← set_block verification blocknumber hash crc;
  Some (h, verification).

(** [while (used < want)]; [data] is what is left of the buffer *)
Fixpoint use_data (fuel blocksize blockcount : nat) (s : scan) (data : list Z) : option scan :=
  match data with
  | [] => Some s
  | _ :: _ =>
      match fuel with
      | O => None
      | S fuel =>
          let use := Nat.min (need s) (length data) in
          h ← h_update (sc_hasher s) (take use data);
          let left := (need s - use)%nat in
          s ← (if Nat.eqb left 0 then
                 '(h, verification) ← finish_block h 0 (sc_verification s) (blocknumber s);
                 let next := S (blocknumber s) in
                 Some {| sc_description := sc_description s; sc_verification := verification; sc_hasher := h; sc_16k := sc_16k s;
                         blocknumber := next; need := if Nat.ltb next blockcount then blocksize else 0 |}
               else
                 Some {| sc_description := sc_description s; sc_verification := sc_verification s; sc_hasher := h; sc_16k := sc_16k s;
                         blocknumber := blocknumber s; need := left |});
          use_data fuel blocksize blockcount s (drop use data)
      end
  end.

(** The hash of the first 16k *)
Definition hash_16k (s : scan) (offset : nat) (data : list Z) : option scan :=
  if Nat.ltb offset k16 then
    let context := update (sc_16k s) (take (k16 - offset) data) in
    description ← (if Nat.leb k16 (offset + length data) then hash ← end_ context; Some (SetHash16k (sc_description s) hash)
                   else Some (sc_description s));
    Some {| sc_description := description; sc_verification := sc_verification s; sc_hasher := sc_hasher s; sc_16k := context;
            blocknumber := blocknumber s; need := need s |}
  else Some s.

(** [while (offset < filesize)]; no scan when a read failed *)
Fixpoint read_file (fuel filesize blocksize blockcount buffersize : nat) (d : DiskFile) (s : scan) (offset : nat)
    : option (option scan * DiskFile) :=
  if Nat.ltb offset filesize then
    match fuel with
    | O => None
    | S fuel =>
        let want := Nat.min (filesize - offset) buffersize in
        '(ok, d, data) ← Read d (Z.of_nat offset) (Z.of_nat want) maxlength;
        if negb ok then Some (None, d) else
        s ← hash_16k s offset data;
        s ← use_data want blocksize blockcount s data;
        read_file fuel filesize blocksize blockcount buffersize d s (offset + want)
    end
  else Some (Some s, d).

(** The ids, once the first hashes are known *)
Definition set_ids (f : Par2CreatorSourceFile) : option Par2CreatorSourceFile :=
  description ← ComputeFileId scratch (descriptionpacket f);
  Some (set_hashes f description (VerificationPacket_SetFileId (verificationpacket f) (slice (packetdata description) 64 16)) (sf_hasher f)).

(** [Open] when the hashes are deferred *)
Definition open_deferred (f : Par2CreatorSourceFile) : option (option Par2CreatorSourceFile) :=
  '(ok, d, data) ← Read (diskfile f) 0 (Z.of_nat (Nat.min k16 (sf_filesize f))) maxlength;
  if negb ok then Some None else
  hash ← context_hash scratch data;
  f ← set_ids (set_diskfile (set_hashes f (SetHash16k (descriptionpacket f) hash) (verificationpacket f) (sf_hasher f)) d);
  Some (Some f).

(** [Open] when they are computed at once *)
Definition open_hashed (blocksize : nat) (f : Par2CreatorSourceFile) : option (option Par2CreatorSourceFile) :=
  let buffersize := Nat.min megabyte (Nat.min blocksize (sf_filesize f)) in
  '(s, d) ← read_file (sf_filesize f) (sf_filesize f) blocksize (blockcount f) buffersize (diskfile f)
              {| sc_description := descriptionpacket f; sc_verification := verificationpacket f; sc_hasher := sf_hasher f;
                 sc_16k := reset scratch; blocknumber := 0; need := blocksize |} 0;
  match s with
  | None => Some None
  | Some s =>
      '(h, verification) ← (if Nat.ltb 0 (need s) then finish_block (sc_hasher s) (need s) (sc_verification s) (blocknumber s)
                            else Some (sc_hasher s, sc_verification s));
      filehash ← h_end h;
      let description := SetHashFull (sc_description s) filehash in
      let description := if Nat.ltb (sf_filesize f) k16 then SetHash16k description filehash else description in
      f ← set_ids (set_diskfile (set_hashes f description verification h) d);
      Some (Some f)
  end.

(** [Open] of a file that is there: [d] is the stream opened for it.  No object when a read
    failed; no result when the translated name is empty. *)
Definition Open (d : DiskFile) (filename basepath : list Z) (filesize blocksize : nat) (deferhashcomputation : bool)
    : option (option Par2CreatorSourceFile) :=
  let n := count_blocks (Z.of_nat filesize) (Z.of_nat blocksize) in
  name ← TranslateFilenameFromLocalToPar2 (drop (length basepath) filename);
  let f := {| descriptionpacket := DescriptionPacket_Create name (Z.of_nat filesize); verificationpacket := VerificationPacket_Create n;
              diskfile := d; sf_filesize := filesize; parfilename := name; blockcount := n; sf_hasher := h_reset fresh |} in
  if deferhashcomputation then open_deferred f else open_hashed blocksize f.

(** [InitialiseSourceBlocks]: the blocks of the file that is number [i] *)
Definition InitialiseSourceBlocks (f : Par2CreatorSourceFile) (i : nat) (blocksize : Z) : list DataBlock :=
  (λ blocknum, SetLength (SetLocation mkDataBlock i (wrap 64 (Z.of_nat blocknum * blocksize)))
                 (Z.min blocksize (wrap 64 (Z.of_nat (sf_filesize f) - wrap 64 (Z.of_nat blocknum * blocksize))))) <$> seq 0 (blockcount f).

(** [UpdateHashes] *)
Definition UpdateHashes (f : Par2CreatorSourceFile) (blocknumber : nat) (buffer : list Z) : option Par2CreatorSourceFile :=
  let len := wrap 64 (Z.of_nat (sf_filesize f) - wrap 64 (Z.of_nat blocknumber * Z.of_nat (length buffer))) in
  let '(zeropad, length_) := (if len <? Z.of_nat (length buffer) then ((length buffer - Z.to_nat len)%nat, Z.to_nat len) else (0%nat, length buffer)) in
  h ← h_update (sf_hasher f) (take length_ buffer);
  '(h, verification) ← finish_block h zeropad (verificationpacket f) blocknumber;
  Some (set_hashes f (descriptionpacket f) verification h).

(** [FinishHashes] *)
Definition FinishHashes (f : Par2CreatorSourceFile) : option Par2CreatorSourceFile :=
  hash ← h_end (sf_hasher f);
  Some (set_hashes f (SetHashFull (descriptionpacket f) hash) (verificationpacket f) (sf_hasher f)).

(** ** [Par2Creator] *)

(** [OpenSourceFiles], in the order in which the threads finish: the names and the streams.
    No list when a file could not be read. *)
Fixpoint OpenSourceFiles (basepath : list Z) (blocksize : nat) (deferhashcomputation : bool) (extrafiles : list (list Z * DiskFile))
    : option (option (list Par2CreatorSourceFile)) :=
  match extrafiles with
  | [] => Some (Some [])
  | (filename, d) :: extrafiles =>
      f ← Open d filename basepath (Z.to_nat (filesize d)) blocksize deferhashcomputation;
      match f with
      | None => Some None
      | Some f => files ← OpenSourceFiles basepath blocksize deferhashcomputation extrafiles; Some (option_map (cons f) files)
      end
  end.

(** [CreateSourceBlocks] *)
Definition CreateSourceBlocks (blocksize : Z) (sourcefiles : list Par2CreatorSourceFile) : list DataBlock :=
  mjoin (imap (λ i f, InitialiseSourceBlocks f i blocksize) sourcefiles).

(** [DiskFile::Open] of a file opened before: the stream is at its start. *)
Definition reopen (d : DiskFile) : DiskFile := {| contents := contents d; stream := 0; offset := 0; filesize := filesize d |}.

(** Where the loop of [ProcessData] is: the open file, and the file and block it hashes *)
Record cursor := { lastopenfile : option nat; c_sourcefile : nat; c_sourceindex : nat }.

(** [ProcessData], the loop over the input blocks: what the backend gets, and the files *)
Fixpoint process_inputs (blockoffset blocklength : Z) (deferhashcomputation : bool) (c : cursor) (blocks : list DataBlock)
    (files : list Par2CreatorSourceFile) : option (bool * list (list Z) * list Par2CreatorSourceFile) :=
  match blocks with
  | [] => Some (true, [], files)
  | b :: blocks =>
      i ← b_diskfile b;
      f ← files !! i;
      let d := if decide (lastopenfile c = Some i) then diskfile f else reopen (diskfile f) in
      '(ok, d, buffer) ← ReadData b d blockoffset blocklength maxlength;
      let files := <[i := set_diskfile f d]> files in
      if negb ok then Some (false, [], files) else
      g ← files !! c_sourcefile c;
      g ← (if (deferhashcomputation : bool) then UpdateHashes g (c_sourceindex c) buffer else Some g);
      let files := <[c_sourcefile c := g]> files in
      let c := if Nat.leb (blockcount g) (S (c_sourceindex c))
               then {| lastopenfile := Some i; c_sourcefile := S (c_sourcefile c); c_sourceindex := 0 |}
               else {| lastopenfile := Some i; c_sourcefile := c_sourcefile c; c_sourceindex := S (c_sourceindex c) |} in
      '(ok, inputs, files) ← process_inputs blockoffset blocklength deferhashcomputation c blocks files;
      Some (ok, buffer :: inputs, files)
  end.

(** [FinishFileHashComputation] *)
Definition FinishFileHashComputation (deferhashcomputation : bool) (files : list Par2CreatorSourceFile) : option (list Par2CreatorSourceFile) :=
  if deferhashcomputation then mapM FinishHashes files else Some files.
End SourceFile.
