(* ===== verification/SourceFileSpec.v ===== *)
(** * SourceFileSpec.v: the packets of a source file describe it

    Both ways of computing the hashes of a source file, at once when it is opened and while
    its blocks are processed, give the MD5 of the file, of its first 16k, and the MD5 and
    CRC-32 of every block, padded with zeros. *)

From S2P Require Import Prelude Bytes Crc HashCrc Md5 Md5Spec Md5Single Hasher HasherSpec DiskFile CheckSummer CheckSummerSpec HashTable FileName Packets PacketsSpec SourceFile.

(** ** Entries *)

Lemma length_SetBlock p k hash crc : length hash = 16%nat → (80 + 20 * k + 20 ≤ length (packetdata p))%nat →
  length (packetdata (SetBlockHashAndCRC p k hash crc)) = length (packetdata p).
Proof. intros Hh Hk. unfold SetBlockHashAndCRC. rewrite !length_put; rewrite ?length_put, ?length_le_split; lia. Qed.

Lemma length_set_entries entries p k : Forall entry_fits entries → (80 + 20 * (k + length entries) ≤ length (packetdata p))%nat →
  length (packetdata (set_entries p k entries)) = length (packetdata p).
Proof.
  revert p k. induction entries as [|[hash crc] entries IH]; intros p k HF Hk; cbn [set_entries length] in *; [done|].
  apply Forall_cons in HF as [[Hh _] HF]. cbn [fst] in Hh. rewrite IH; rewrite ?length_SetBlock by (done || lia); [done|done|lia].
Qed.

Lemma set_entries_snoc entries p k hash crc :
  set_entries p k (entries ++ [(hash, crc)]) = SetBlockHashAndCRC (set_entries p k entries) (k + length entries) hash crc.
Proof.
  revert p k. induction entries as [|[h c] entries IH]; intros p k; cbn [set_entries app length]; [by rewrite Nat.add_0_r|].
  rewrite IH. f_equal. lia.
Qed.

(** A block of a file, padded with zeros. *)
Definition source_block (file : list Z) (blocksize i : nat) : list Z :=
  let b := slice file (i * blocksize) blocksize in b ++ replicate (blocksize - length b) 0.

Definition block_entry (file : list Z) (blocksize i : nat) : list Z * Z :=
  (md5 (source_block file blocksize i), crc32 (source_block file blocksize i)).

(** The entries of the first [k] blocks. *)
Definition block_entries (file : list Z) (blocksize k : nat) : list (list Z * Z) := block_entry file blocksize <$> seq 0 k.

Lemma length_block_entries file blocksize k : length (block_entries file blocksize k) = k.
Proof. unfold block_entries. by rewrite length_fmap, length_seq. Qed.

Lemma block_entries_S file blocksize k : block_entries file blocksize (S k) = block_entries file blocksize k ++ [block_entry file blocksize k].
Proof. unfold block_entries. by rewrite seq_S, fmap_app. Qed.

Lemma lookup_block_entries file blocksize k i : (i < k)%nat → block_entries file blocksize k !! i = Some (block_entry file blocksize i).
Proof. intros. unfold block_entries. by rewrite list_lookup_fmap, lookup_seq_lt by done. Qed.

Lemma source_block_bytes file blocksize i : Forall (in_range 8) file → Forall (in_range 8) (source_block file blocksize i).
Proof.
  intros. apply Forall_app. split; [by apply Forall_slice|]. apply Forall_replicate. split; simpl; lia.
Qed.

Lemma block_entries_fit file blocksize k : Forall (in_range 8) file → Forall entry_fits (block_entries file blocksize k).
Proof.
  intros Hf. apply Forall_fmap, Forall_true. intros i. split; cbn [fst snd compose block_entry]; [apply length_md5|].
  by apply crc32_range, source_block_bytes.
Qed.

(** A hasher between blocks has what [end] needs. *)
Lemma h_end_between h pre : h_rep h pre [] → h_end h = Some (md5 pre).
Proof.
  intros Hh. rewrite (h_end_ok h pre []); [by rewrite app_nil_r|done|]. destruct Hh as [_ (_ & _ & Hn & _) _ _].
  rewrite Hn, length_fpend by (simpl; lia). simpl (length []). pose proof (Nat.mod_upper_bound (length pre) 64 ltac:(lia)). lia.
Qed.

Lemma k16_pos : (0 < k16)%nat.
Proof. exact (to_nat_pos 16384 eq_refl). Qed.

Section Spec.
Context (scratch : MD5Single) (fresh : HasherInput) (maxlength : Z) (file : list Z) (blocksize : nat).
Hypothesis Hscratch : length (tmp scratch) = 64%nat.
Hypothesis Hfresh : length (h_tmp fresh) = 128%nat.
Hypothesis Hmax : 0 < maxlength.
Hypothesis Hbytes : Forall (in_range 8) file.
Hypothesis Hne : file ≠ [].
Hypothesis Hsize : Z.of_nat (length file) ≤ MaxOffset.
Hypothesis Hbs : (0 < blocksize)%nat.
Hypothesis Hbs63 : Z.of_nat blocksize ≤ MaxOffset.

Local Abbreviation F := (length file).
Local Abbreviation n := (count_blocks (Z.of_nat F) (Z.of_nat blocksize)).
Hypothesis Hn : Z.of_nat F ≤ 32768 * Z.of_nat blocksize.

Lemma file_pos : (0 < F)%nat.
Proof. destruct file; [done|cbn; lia]. Qed.

Lemma count_ok : (0 < n ≤ Z.to_nat 32768)%nat ∧ (n * blocksize < F + blocksize)%nat ∧ (F ≤ n * blocksize)%nat.
Proof.
  pose proof file_pos. unfold MaxOffset in *. unfold count_blocks.
  rewrite (wrap_small 64 (Z.of_nat F + Z.of_nat blocksize - 1)) by (split; simpl; lia). set (q := (Z.of_nat F + Z.of_nat blocksize - 1) / Z.of_nat blocksize).
  assert (Z.of_nat blocksize * q ≤ Z.of_nat F + Z.of_nat blocksize - 1 < Z.of_nat blocksize * q + Z.of_nat blocksize) as [H1 H2].
  { pose proof (Z.mul_div_le (Z.of_nat F + Z.of_nat blocksize - 1) (Z.of_nat blocksize) ltac:(lia)).
    pose proof (Z.mul_succ_div_gt (Z.of_nat F + Z.of_nat blocksize - 1) (Z.of_nat blocksize) ltac:(lia)). fold q in H0, H1. lia. }
  clearbody q. assert (0 < q) by nia. assert (q ≤ 32768) by nia.
  rewrite (wrap_small 32 q) by (split; simpl; lia). repeat split; try lia; nia.
Qed.

(** The file seen so far, in blocks: the hasher is inside a block, or past the last one. *)
Definition progress (s : scan) (o : nat) : Prop :=
  ((blocknumber s < n)%nat ∧ (0 < need s ≤ blocksize)%nat ∧ (o + need s = blocknumber s * blocksize + blocksize)%nat ∧
   h_rep (sc_hasher s) (take (blocknumber s * blocksize) file) (slice file (blocknumber s * blocksize) (blocksize - need s))) ∨
  (blocknumber s = n ∧ need s = 0%nat ∧ o = F ∧ o = (n * blocksize)%nat ∧ h_rep (sc_hasher s) file []).

Section Verification.
Context (verification0 : CriticalPacket).
Hypothesis Hlen : length (packetdata verification0) = (80 + 20 * n)%nat.

Definition with_entries (k : nat) : CriticalPacket := set_entries verification0 0 (block_entries file blocksize k).

Lemma set_block_ok k : (k < n)%nat →
  set_block (with_entries k) k (md5 (source_block file blocksize k)) (crc32 (source_block file blocksize k)) = Some (with_entries (S k)).
Proof.
  intros Hk. unfold set_block, with_entries. rewrite length_set_entries by (apply block_entries_fit || rewrite ?length_block_entries; done || lia).
  rewrite (proj2 (Nat.leb_le _ _)) by lia. rewrite block_entries_S.
  change (block_entry file blocksize k) with (md5 (source_block file blocksize k), crc32 (source_block file blocksize k)). rewrite set_entries_snoc, length_block_entries.
  done.
Qed.

(** The end of block [k], after all the bytes the file has of it. *)
Lemma finish_block_ok h k got zeropad : (k < n)%nat → h_rep h (take (k * blocksize) file) (slice file (k * blocksize) got) →
  slice file (k * blocksize) got = slice file (k * blocksize) blocksize →
  zeropad = (blocksize - length (slice file (k * blocksize) blocksize))%nat →
  ∃ h', finish_block h zeropad (with_entries k) k = Some (h', with_entries (S k)) ∧ h_rep h' (take (k * blocksize + got) file) [].
Proof.
  intros Hk Hh E ->. unfold finish_block. pose proof (Forall_slice _ _ (k * blocksize) got Hbytes) as Hby.
  rewrite (HasherGetBlock_ok h _ _ _ Hh Hby) by (unfold MaxOffset in *; lia). cbn [mbind option_bind]. rewrite E.
  pose proof (set_block_ok k Hk) as Hset. unfold source_block in Hset. rewrite Hset. cbn [mbind option_bind]. eexists. split; [done|].
  rewrite <- take_slice. by apply resetBlock_ok.
Qed.

Lemma use_data_ok fuel s o len : progress s o → sc_verification s = with_entries (blocknumber s) → (o + len ≤ F)%nat → (len ≤ fuel)%nat →
  ∃ s', use_data fuel blocksize n s (slice file o len) = Some s' ∧ progress s' (o + len) ∧ sc_verification s' = with_entries (blocknumber s') ∧
    sc_description s' = sc_description s ∧ sc_16k s' = sc_16k s.
Proof.
  destruct count_ok as (Hn0 & Hn1 & Hn2).
  revert s o len. induction fuel as [|fuel IH]; intros s o len Hp Hv Ho Hf.
  { assert (len = 0%nat) as -> by lia. rewrite Nat.add_0_r. by exists s. }
  destruct (decide (len = 0%nat)) as [->|Hl]; [rewrite Nat.add_0_r; by exists s|].
  assert (length (slice file o len) = len) as Hsl by (by apply length_slice).
  cbn [use_data]. rewrite Hsl. destruct (slice file o len) as [|x rest] eqn:Ed; [cbn in Hsl; lia|]. rewrite <- Ed. clear x rest Ed Hsl.
  destruct Hp as [(Hk & Hneed & Hoff & Hh)|(_ & _ & -> & _)]; [|lia]. set (use := Nat.min (need s) len) in *.
  assert (take use (slice file o len) = slice file o use) as ->.
  { unfold slice. rewrite take_take. f_equal. lia. }
  assert (drop use (slice file o len) = slice file (o + use) (len - use)) as ->.
  { unfold slice. by rewrite skipn_firstn_comm, drop_drop. }
  destruct (h_update_ok _ _ _ (slice file o use) Hh (Forall_slice _ _ o use Hbytes)) as (h & -> & Hh'). cbn [mbind option_bind].
  replace o with (blocknumber s * blocksize + (blocksize - need s))%nat in Hh' at 1 by lia. rewrite <- slice_app in Hh'.
  replace (blocksize - need s + use)%nat with (blocksize - (need s - use))%nat in Hh' by lia.
  destruct (Nat.eqb_spec (need s - use) 0) as [E0|E0].
  - rewrite E0, Nat.sub_0_r in Hh'. assert (length (slice file (blocknumber s * blocksize) blocksize) = blocksize) as Hfull by (apply length_slice; lia).
    destruct (finish_block_ok h (blocknumber s) blocksize 0 Hk Hh') as (h2 & Eb & Hh2); [done|lia|].
    rewrite Hv, Eb. cbn [mbind option_bind].
    match goal with |- context [use_data fuel _ _ ?s1 _] => destruct (IH s1 (o + use)%nat (len - use)%nat) as (s' & -> & H1 & H2 & H3 & H4) end.
    + unfold progress. cbn [blocknumber need sc_hasher]. replace (blocknumber s * blocksize + blocksize)%nat with (S (blocknumber s) * blocksize)%nat in Hh2 by lia.
      destruct (Nat.ltb_spec (S (blocknumber s)) n) as [Hlt|Hge].
      * left. split_and!; [done|lia|lia|lia|]. by rewrite Nat.sub_diag.
      * right. assert (n = S (blocknumber s)) as En by lia. rewrite take_ge in Hh2 by lia. split_and!; try done; lia.
    + done.
    + lia.
    + lia.
    + exists s'. replace (o + len)%nat with (o + use + (len - use))%nat by lia. by split_and!.
  - cbn [mbind option_bind].
    match goal with |- context [use_data fuel _ _ ?s1 _] => destruct (IH s1 (o + use)%nat (len - use)%nat) as (s' & -> & H1 & H2 & H3 & H4) end.
    + left. cbn [blocknumber need sc_hasher]. split_and!; try done; lia.
    + done.
    + lia.
    + lia.
    + exists s'. replace (o + len)%nat with (o + use + (len - use))%nat by lia. by split_and!.
Qed.

Section Description.
Context (description0 : CriticalPacket).

(** The description packet while the file is read: the hash of the first 16k is set when it is known. *)
Definition scan_ok (s : scan) (o : nat) : Prop :=
  progress s o ∧ sc_verification s = with_entries (blocknumber s) ∧
  sc_description s = (if decide (k16 ≤ o)%nat then SetHash16k description0 (md5 (take k16 file)) else description0) ∧
  ((o < k16)%nat → md5_rep (sc_16k s) (take o file)).

Lemma hash_16k_ok s o len : scan_ok s o → (0 < len)%nat → (o + len ≤ F)%nat →
  ∃ s', hash_16k s o (slice file o len) = Some s' ∧ blocknumber s' = blocknumber s ∧ need s' = need s ∧ sc_hasher s' = sc_hasher s ∧
    sc_verification s' = sc_verification s ∧
    sc_description s' = (if decide (k16 ≤ o + len)%nat then SetHash16k description0 (md5 (take k16 file)) else description0) ∧
    ((o + len < k16)%nat → md5_rep (sc_16k s') (take (o + len) file)).
Proof.
  intros (_ & _ & Hd & H16) Hl Ho. unfold hash_16k. destruct (Nat.ltb_spec o k16) as [Hlt|Hge].
  2: { exists s. rewrite Hd, !decide_True by lia. split_and!; done || lia. }
  rewrite length_slice by done. pose proof (update_ok _ _ (take (k16 - o) (slice file o len)) (H16 Hlt)) as Hu.
  assert (take o file ++ take (k16 - o) (slice file o len) = take (Nat.min k16 (o + len)) file) as E.
  { unfold slice. rewrite take_take, (take_take_drop file o). f_equal. lia. }
  rewrite E in Hu. rewrite decide_False in Hd by lia.
  destruct (Nat.leb_spec k16 (o + len)) as [Hle|Hgt].
  - rewrite Nat.min_l in Hu by done. rewrite (end_ok _ _ Hu). cbn [mbind option_bind]. eexists. split; [done|].
    cbn [blocknumber need sc_hasher sc_verification sc_description sc_16k]. rewrite Hd, decide_True by done. split_and!; done || lia.
  - rewrite Nat.min_r in Hu by lia. cbn [mbind option_bind]. eexists. split; [done|].
    cbn [blocknumber need sc_hasher sc_verification sc_description sc_16k]. rewrite Hd, decide_False by lia. by split_and!.
Qed.

Lemma read_file_ok fuel buffersize d s o : (0 < buffersize)%nat → disk_ok d → contents d = file → (o ≤ F)%nat → (F - o ≤ fuel)%nat →
  scan_ok s o → ∃ s' d', read_file maxlength fuel F blocksize n buffersize d s o = Some (Some s', d') ∧ scan_ok s' F ∧ disk_ok d' ∧ contents d' = file.
Proof.
  intros Hb. revert d s o. induction fuel as [|fuel IH]; intros d s o Hd Hc Ho Hf Hs; cbn [read_file].
  { assert (o = F) as -> by lia. rewrite Nat.ltb_irrefl. by exists s, d. }
  destruct (Nat.ltb_spec o F) as [Hlt|Hge]; [|assert (o = F) as -> by lia; by exists s, d].
  set (want := Nat.min (F - o) buffersize). assert (0 < want ∧ o + want ≤ F)%nat as [Hw0 Hw] by lia. clearbody want.
  assert (filesize d = Z.of_nat F) as Hz by (by rewrite (do_size _ Hd), Hc).
  rewrite (Read_ok d (Z.of_nat o) want maxlength Hd Hmax) by lia. cbn [mbind option_bind negb]. rewrite Hc, Nat2Z.id.
  destruct (hash_16k_ok s o want Hs Hw0 Hw) as (s1 & -> & H1 & H2 & H3 & H4 & H5 & H6). cbn [mbind option_bind].
  destruct Hs as (Hp & Hv & _).
  destruct (use_data_ok want s1 o want) as (s2 & -> & Hp2 & Hv2 & Hd2 & H162); [|congruence|done|done|].
  { unfold progress in *. by rewrite H1, H2, H3. }
  cbn [mbind option_bind]. apply IH.
  - apply at_offset_ok; [done|lia].
  - done.
  - done.
  - lia.
  - split; [done|]. split; [done|]. split; [congruence|]. rewrite H162. done.
Qed.
End Description.
End Verification.

(** ** The packets *)

Context (name : list Z).
Hypothesis Hname : name ≠ [].
Hypothesis Hname0 : Forall (λ c, c ≠ 0) name.
Hypothesis Hname_len : Z.of_nat (length name) ≤ 99997.

(** The file id: the hash of the hash of the first 16k, the size and the name *)
Definition file_id : list Z := md5 (md5 (take k16 file) ++ le_split 8 (Z.of_nat F) ++ name).

(** The packets of the file, with the entries of its first [k] blocks and, if [full], the hash of all of it *)
Record hashed (f : Par2CreatorSourceFile) (k : nat) (full : bool) : Prop := {
  ha_describes : describes (descriptionpacket f) name (Z.of_nat F);
  ha_16k : slice (packetdata (descriptionpacket f)) 96 16 = md5 (take k16 file);
  ha_id : slice (packetdata (descriptionpacket f)) 64 16 = file_id;
  ha_full : full = true → slice (packetdata (descriptionpacket f)) 80 16 = md5 file;
  ha_started : started (verificationpacket f) (80 + 20 * n) fileverificationpacket_type;
  ha_length : length (packetdata (verificationpacket f)) = (80 + 20 * n)%nat;
  ha_fileid : slice (packetdata (verificationpacket f)) 64 16 = file_id;
  ha_entries : ∀ i, (i < k)%nat → slice (packetdata (verificationpacket f)) (80 + 20 * i) 16 = md5 (source_block file blocksize i) ∧
    slice (packetdata (verificationpacket f)) (80 + 20 * i + 16) 4 = le_split 4 (crc32 (source_block file blocksize i));
  ha_disk : disk_ok (diskfile f) ∧ contents (diskfile f) = file;
  ha_size : sf_filesize f = F;
  ha_count : blockcount f = n;
}.

Lemma create_verification : started (VerificationPacket_Create n) (80 + 20 * n) fileverificationpacket_type ∧
  length (packetdata (VerificationPacket_Create n)) = (80 + 20 * n)%nat.
Proof.
  unfold VerificationPacket_Create. replace (verification_size + n * verification_entry_size)%nat with (80 + 20 * n)%nat
    by (unfold verification_size, verification_entry_size; lia).
  destruct (start_packet_ok (80 + 20 * n) 0 fileverificationpacket_type) as [H1 H2]; [done|lia|]. by rewrite Nat.add_0_r in H2.
Qed.

(** The ids are set once the hash of the first 16k is. *)
Lemma set_ids_ok f : describes (descriptionpacket f) name (Z.of_nat F) → slice (packetdata (descriptionpacket f)) 96 16 = md5 (take k16 file) →
  set_ids scratch f = Some (set_hashes f (put (descriptionpacket f) 64 file_id) (put (verificationpacket f) 64 file_id) (sf_hasher f)).
Proof.
  intros Hd H16. unfold set_ids. rewrite (ComputeFileId_ok scratch Hscratch _ name (Z.of_nat F) Hd Hname0) by lia.
  cbn [mbind option_bind]. rewrite H16. fold file_id. unfold VerificationPacket_SetFileId. rewrite put_same; [done| |done].
  change (length file_id) with 16%nat. rewrite (de_length _ _ _ Hd). lia.
Qed.

(** The entries set one after another. *)
Lemma with_entries_ok v k : started v (80 + 20 * n) fileverificationpacket_type → length (packetdata v) = (80 + 20 * n)%nat → (k ≤ n)%nat →
  started (with_entries v k) (80 + 20 * n) fileverificationpacket_type ∧ length (packetdata (with_entries v k)) = (80 + 20 * n)%nat ∧
  (∀ a j, (a + j ≤ 80)%nat → slice (packetdata (with_entries v k)) a j = slice (packetdata v) a j) ∧
  ∀ i, (i < k)%nat → slice (packetdata (with_entries v k)) (80 + 20 * i) 16 = md5 (source_block file blocksize i) ∧
    slice (packetdata (with_entries v k)) (80 + 20 * i + 16) 4 = le_split 4 (crc32 (source_block file blocksize i)).
Proof.
  intros Hs Hl Hk. pose proof (block_entries_fit file blocksize k Hbytes) as HF.
  destruct (set_entries_ok scratch Hscratch (block_entries file blocksize k) v _ _ 0 Hs HF) as (H1 & H2 & H3); [rewrite length_block_entries; lia|].
  split_and!; [done| |done|].
  - unfold with_entries. rewrite length_set_entries; [done|done|rewrite length_block_entries; lia].
  - intros i Hi. apply (H3 i). by rewrite lookup_block_entries.
Qed.

(** [Open], when it computes the hashes *)
Lemma open_hashed_ok f : descriptionpacket f = DescriptionPacket_Create name (Z.of_nat F) → verificationpacket f = VerificationPacket_Create n →
  disk_ok (diskfile f) → contents (diskfile f) = file → sf_filesize f = F → blockcount f = n → sf_hasher f = h_reset fresh →
  ∃ f', open_hashed scratch maxlength blocksize f = Some (Some f') ∧ hashed f' n true.
Proof.
  intros Ed Ev Hd Hc Hz Hcnt Hh. pose proof file_pos as Hpos. destruct count_ok as (Hn0 & Hn1 & Hn2). destruct create_verification as [Vs Vl].
  pose proof (DescriptionPacket_Create_ok scratch Hscratch name (Z.of_nat F) ltac:(lia)) as D0. rewrite <- Ed in D0. rewrite <- Ev in Vs, Vl.
  unfold open_hashed. rewrite Hz, Hcnt. set (buffersize := Nat.min megabyte (Nat.min blocksize F)).
  assert (0 < buffersize)%nat as Hb by (pose proof megabyte_pos; lia). clearbody buffersize.
  set (s0 := {| sc_description := _ |}).
  destruct (read_file_ok (verificationpacket f) Vl (descriptionpacket f) F buffersize (diskfile f) s0 0) as (s & d & -> & (Hp & Hv & Hdesc & _) & Hdok & Hdc);
    [done|done|done|lia|lia| |].
  { split_and!; [|done| |].
    - left. cbn [blocknumber need sc_hasher s0]. rewrite Hh, Nat.sub_diag. split_and!; try lia. by apply h_reset_ok.
    - pose proof k16_pos; by rewrite decide_False by lia.
    - intros _. by apply reset_ok. }
  cbn [mbind option_bind].
  assert (∃ h, (if Nat.ltb 0 (need s) then finish_block (sc_hasher s) (need s) (sc_verification s) (blocknumber s) else Some (sc_hasher s, sc_verification s))
    = Some (h, with_entries (verificationpacket f) n) ∧ h_rep h file []) as (h & -> & Hrep).
  { destruct Hp as [(Hk & Hneed & Ho & Hh')|(Hk & -> & _ & Ho & Hh')]; [|exists (sc_hasher s); by rewrite Hv, Hk].
    rewrite (proj2 (Nat.ltb_lt 0 (need s))) by lia. rewrite Hv.
    assert (slice file (blocknumber s * blocksize) (blocksize - need s) = slice file (blocknumber s * blocksize) blocksize) as E.
    { rewrite !slice_all by lia. done. }
    destruct (finish_block_ok _ Vl (sc_hasher s) (blocknumber s) (blocksize - need s) (need s) Hk Hh' E) as (h & Eb & Hr).
    { rewrite slice_all, length_drop by lia. lia. }
    exists h. rewrite Eb. assert (S (blocknumber s) = n) as -> by nia. split; [done|]. by rewrite take_ge in Hr by lia. }
  cbn [mbind option_bind]. rewrite (h_end_between h file Hrep). cbn [mbind option_bind].
  destruct (with_entries_ok (verificationpacket f) n Vs Vl ltac:(lia)) as (W1 & W2 & W3 & W4).
  set (desc := if Nat.ltb F k16 then _ else _).
  assert (describes desc name (Z.of_nat F) ∧ slice (packetdata desc) 96 16 = md5 (take k16 file) ∧ slice (packetdata desc) 80 16 = md5 file) as (Dd & D16 & Dfull).
  { unfold desc. rewrite Hdesc. pose proof (length_md5 file) as L1. pose proof (length_md5 (take k16 file)) as L2. pose proof (de_length _ _ _ D0) as Dl.
    unfold SetHashFull, SetHash16k. destruct (Nat.ltb_spec F k16) as [Hlt|Hge]; [rewrite decide_False by lia|rewrite decide_True by lia].
    - pose proof (describes_put scratch Hscratch _ name (Z.of_nat F) 80 (md5 file) D0 ltac:(lia)) as D1. pose proof (de_length _ _ _ D1) as Dl1.
      split; [apply (describes_put scratch Hscratch); [done|lia]|]. split; [rewrite put_same by lia; by rewrite take_ge by lia|].
      rewrite put_other by lia. apply put_same; lia.
    - pose proof (describes_put scratch Hscratch _ name (Z.of_nat F) 96 (md5 (take k16 file)) D0 ltac:(lia)) as D1. pose proof (de_length _ _ _ D1) as Dl1.
      split; [apply (describes_put scratch Hscratch); [done|lia]|]. split; [rewrite put_other by lia; apply put_same; lia|]. apply put_same; lia. }
  clearbody desc. rewrite set_ids_ok by done. cbn [mbind option_bind]. eexists. split; [reflexivity|].
  assert (length file_id = 16%nat) as Lid by apply length_md5. pose proof (de_length _ _ _ Dd) as Ddl.
  split; cbn [descriptionpacket verificationpacket diskfile sf_filesize blockcount set_hashes set_diskfile]; try done.
  - apply (describes_put scratch Hscratch); [done|lia].
  - rewrite put_other by lia. done.
  - apply put_same; lia.
  - intros _. rewrite put_other by lia. done.
  - apply started_put; [done|lia|right; lia].
  - rewrite length_put; lia.
  - apply put_same; lia.
  - intros i Hi. rewrite !put_other by lia. by apply W4.
Qed.

(** The object while its hashes are deferred, with the entries of its first [k] blocks *)
Definition identified : CriticalPacket := put (VerificationPacket_Create n) 64 file_id.

Record pending (f : Par2CreatorSourceFile) (k : nat) : Prop := {
  pe_hashed : hashed f k false;
  pe_verification : verificationpacket f = with_entries identified k;
  pe_hasher : h_rep (sf_hasher f) (take (k * blocksize) file) [];
}.

Lemma identified_ok : started identified (80 + 20 * n) fileverificationpacket_type ∧ length (packetdata identified) = (80 + 20 * n)%nat ∧
  slice (packetdata identified) 64 16 = file_id.
Proof.
  destruct create_verification as [Vs Vl]. destruct count_ok as (Hn0 & _). assert (length file_id = 16%nat) as Lid by apply length_md5. unfold identified. split_and!.
  - apply started_put; [done|lia|right; lia].
  - rewrite length_put; lia.
  - apply put_same; lia.
Qed.

(** [Open], when it leaves the hashes for later *)
Lemma open_deferred_ok f : descriptionpacket f = DescriptionPacket_Create name (Z.of_nat F) → verificationpacket f = VerificationPacket_Create n →
  disk_ok (diskfile f) → contents (diskfile f) = file → sf_filesize f = F → blockcount f = n → sf_hasher f = h_reset fresh →
  ∃ f', open_deferred scratch maxlength f = Some (Some f') ∧ pending f' 0.
Proof.
  intros Ed Ev Hd Hc Hz Hcnt Hh. destruct identified_ok as (Is & Il & Iid).
  pose proof (DescriptionPacket_Create_ok scratch Hscratch name (Z.of_nat F) ltac:(lia)) as D0. rewrite <- Ed in D0. pose proof (de_length _ _ _ D0) as Dl0.
  unfold open_deferred. rewrite Hz. assert (DiskFile.filesize (diskfile f) = Z.of_nat F) as Hzd by (by rewrite (do_size _ Hd), Hc).
  assert (slice file 0 (Nat.min k16 F) = take k16 file) as Es.
  { unfold slice. rewrite drop_0. destruct (Nat.le_ge_cases k16 F); [by rewrite Nat.min_l|]. by rewrite Nat.min_r, !take_ge by lia. }
  assert (Nat.min k16 F ≤ F)%nat as Hw by lia. revert Es Hw. generalize (Nat.min k16 F). intros w Es Hw.
  rewrite (Read_ok (diskfile f) 0 w maxlength Hd Hmax) by lia. cbn [mbind option_bind negb].
  rewrite Hc. change (Z.to_nat 0) with 0%nat. rewrite Es.
  rewrite (context_hash_ok scratch Hscratch). cbn [mbind option_bind]. unfold SetHash16k. pose proof (length_md5 (take k16 file)) as L16.
  assert (describes (put (descriptionpacket f) 96 (md5 (take k16 file))) name (Z.of_nat F)) as D1 by (apply (describes_put scratch Hscratch); [done|lia]).
  pose proof (de_length _ _ _ D1) as Dl1. assert (length file_id = 16%nat) as Lid by apply length_md5.
  rewrite set_ids_ok; cbn [descriptionpacket set_diskfile set_hashes]; [|done|apply put_same; lia].
  cbn [mbind option_bind]. eexists. split; [reflexivity|].
  split; cbn [descriptionpacket verificationpacket diskfile sf_filesize blockcount sf_hasher set_hashes set_diskfile].
  - split; cbn [descriptionpacket verificationpacket diskfile sf_filesize blockcount sf_hasher set_hashes set_diskfile]; try done.
    + apply (describes_put scratch Hscratch); [done|lia].
    + rewrite put_other by lia. apply put_same; lia.
    + apply put_same; lia.
    + by rewrite Ev.
    + by rewrite Ev.
    + by rewrite Ev.
    + lia.
    + split; [|done]. apply at_offset_ok; [done|lia].
  - by rewrite Ev.
  - rewrite Hh. by apply h_reset_ok.
Qed.

(** [UpdateHashes] of the next block *)
Lemma source_UpdateHashes_ok f k : pending f k → (k < n)%nat →
  ∃ f', SourceFile.UpdateHashes f k (source_block file blocksize k) = Some f' ∧ pending f' (S k) ∧ diskfile f' = diskfile f.
Proof.
  intros [Hf Hv Hh] Hk. destruct count_ok as (Hn0 & Hn1 & Hn2). destruct identified_ok as (Is & Il & Iid). unfold MaxOffset in *.
  assert (k * blocksize + blocksize ≤ n * blocksize)%nat as Hkn by nia.
  set (b := slice file (k * blocksize) blocksize).
  assert (length b = Nat.min blocksize (F - k * blocksize)) as Hb by (unfold b, slice; rewrite length_take, length_drop; done).
  assert (length (source_block file blocksize k) = blocksize) as Lb.
  { unfold source_block. fold b. rewrite length_app, length_replicate. lia. }
  unfold SourceFile.UpdateHashes. rewrite Lb, (ha_size _ _ _ Hf).
  assert (wrap 64 (Z.of_nat F - wrap 64 (Z.of_nat k * Z.of_nat blocksize)) = Z.of_nat (F - k * blocksize)) as ->.
  { rewrite (wrap_small 64 (Z.of_nat k * _)) by (split; simpl; lia). rewrite wrap_small by (split; simpl; lia). lia. }
  assert ((if Z.of_nat (F - k * blocksize) <? Z.of_nat blocksize then ((blocksize - Z.to_nat (Z.of_nat (F - k * blocksize)))%nat, Z.to_nat (Z.of_nat (F - k * blocksize)))
    else (0%nat, blocksize)) = ((blocksize - length b)%nat, length b)) as ->.
  { rewrite Nat2Z.id, Hb. destruct (Z.ltb_spec (Z.of_nat (F - k * blocksize)) (Z.of_nat blocksize)); f_equal; lia. }
  assert (take (length b) (source_block file blocksize k) = b) as -> by (unfold source_block; fold b; by rewrite take_app_length).
  destruct (h_update_ok _ _ _ b Hh (Forall_slice _ _ _ _ Hbytes)) as (h & -> & Hh'). cbn [mbind option_bind]. rewrite app_nil_l in Hh'.
  destruct (finish_block_ok identified Il h k blocksize (blocksize - length b) Hk Hh' eq_refl eq_refl) as (h2 & E & Hh2).
  rewrite Hv, E. cbn [mbind option_bind]. eexists. split; [reflexivity|]. split; [|done].
  destruct (with_entries_ok identified (S k) Is Il ltac:(lia)) as (W1 & W2 & W3 & W4).
  split; cbn [descriptionpacket verificationpacket diskfile sf_filesize blockcount sf_hasher set_hashes].
  - destruct Hf as [? ? ? ? ? ? ? ? ? ? ?].
    split; cbn [descriptionpacket verificationpacket diskfile sf_filesize blockcount sf_hasher set_hashes]; try done. by rewrite W3 by lia.
  - done.
  - by replace (S k * blocksize)%nat with (k * blocksize + blocksize)%nat by lia.
Qed.

(** [FinishHashes] after the last block *)
Lemma FinishHashes_ok f : pending f n → ∃ f', FinishHashes f = Some f' ∧ hashed f' n true.
Proof.
  intros [Hf Hv Hh]. destruct count_ok as (Hn0 & Hn1 & Hn2). rewrite take_ge in Hh by lia. unfold FinishHashes. rewrite (h_end_between _ _ Hh).
  cbn [mbind option_bind]. eexists. split; [reflexivity|]. unfold SetHashFull. pose proof (length_md5 file) as Lf. destruct Hf as [Hd ? ? ? ? ? ? ? ? ? ?]. pose proof (de_length _ _ _ Hd) as Dl.
  split; cbn [descriptionpacket verificationpacket diskfile sf_filesize blockcount sf_hasher set_hashes]; try done.
  - apply (describes_put scratch Hscratch); [done|lia].
  - by rewrite put_other by lia.
  - by rewrite put_other by lia.
  - intros _. apply put_same; lia.
Qed.

(** ** The finished packets *)

Lemma hashed_packets f setid : hashed f n true → length setid = 16%nat →
  (∃ p d, FinishPacket scratch (descriptionpacket f) setid = Some p ∧ intact (written p) ∧ h_setid (written p) = setid ∧
    parse_description (written p) = Some d ∧ d_filename d = Latin1ToUtf8 name ∧ DescriptionPacket_FileSize d = Z.of_nat F ∧
    DescriptionPacket_HashFull d = md5 file ∧ DescriptionPacket_Hash16k d = md5 (take k16 file) ∧ DescriptionPacket_FileId d = file_id) ∧
  (∃ p v, FinishPacket scratch (verificationpacket f) setid = Some p ∧ intact (written p) ∧ h_setid (written p) = setid ∧
    parse_verification (written p) = Some v ∧ VerificationPacket_FileId v = file_id ∧ v_blockcount v = Z.of_nat n ∧
    ∀ i, (i < n)%nat → VerificationEntry v i = block_entry file blocksize i).
Proof.
  intros [Hd H16 Hid Hfull Hs Hl Hfid Hent _ _ _] Hset. destruct count_ok as (Hn0 & _). split.
  - destruct (description_finished scratch (descriptionpacket f) name (Z.of_nat F) (md5 (take k16 file)) (md5 file) file_id setid Hscratch Hname Hname0 Hname_len)
      as (p & d & H); [unfold MaxOffset in *; split; simpl; lia|done| |done|done|by apply Hfull|done|].
    { intros Hsmall. rewrite take_ge; [done|]. apply Nat2Z.inj_le. etrans; [exact Hsmall|]. change k16 with (Z.to_nat 16384). by rewrite Z2Nat.id. }
    exists p, d. naive_solver.
  - destruct (verification_finished scratch (verificationpacket f) (block_entries file blocksize n) file_id setid Hscratch) as (p & v & H).
    + intros E. apply (f_equal length) in E. rewrite length_block_entries in E. cbn in E. lia.
    + by apply block_entries_fit.
    + rewrite length_block_entries. lia.
    + done.
    + rewrite length_block_entries. by replace (n * 20)%nat with (20 * n)%nat by lia.
    + done.
    + intros i hash crc E. pose proof (lookup_lt_Some _ _ _ E) as Hi. rewrite length_block_entries in Hi.
      rewrite lookup_block_entries in E by done. injection E as <- <-. by apply Hent.
    + rewrite length_block_entries in H. exists p, v. destruct H as (? & ? & ? & ? & ? & ? & ? & H). split_and!; try done.
      intros i Hi. apply H. by rewrite lookup_block_entries.
Qed.
End Spec.
