(* ===== verification/SourceBlocksSpec.v ===== *)
(** * SourceBlocksSpec.v: the source files are read, hashed and passed on

    [OpenSourceFiles], [CreateSourceBlocks], the loop over the input blocks and
    [FinishFileHashComputation] put together: the backend gets every block of every file, and
    the packets are the same whether the hashes were deferred or not. *)

From S2P Require Import Prelude Bytes Crc HashCrc Md5 Md5Spec Md5Single Hasher HasherSpec DiskFile CheckSummer CheckSummerSpec HashTable FileName Packets PacketsSpec SourceFile SourceFileSpec.

(** ** A part of a block *)

Lemma slice_block b z position size : (position ≤ length b)%nat → (position + size ≤ length b + z)%nat →
  slice (b ++ replicate z 0) position size = slice b position (Nat.min size (length b - position)) ++ replicate (size - Nat.min size (length b - position)) 0.
Proof.
  intros Hp Hs. unfold slice. rewrite drop_app_le by done.
  destruct (Nat.le_ge_cases size (length b - position)) as [Hle|Hge].
  - rewrite Nat.min_l, Nat.sub_diag, app_nil_r by done. apply take_app_le. by rewrite length_drop.
  - rewrite Nat.min_r, take_app_ge, length_drop by (done || rewrite length_drop; lia).
    rewrite (take_ge (drop position b)) by (rewrite length_drop; lia). f_equal. rewrite take_replicate. f_equal. lia.
Qed.

Lemma slice_zeros b z position size : (length b ≤ position)%nat → (position + size ≤ length b + z)%nat →
  slice (b ++ replicate z 0) position size = replicate size 0.
Proof. intros Hp Hs. unfold slice. rewrite drop_app_ge, drop_replicate, take_replicate by done. f_equal. lia. Qed.

(** [ReadData] of a source block reads the block padded with zeros. *)
Lemma ReadData_block d f i k maxlength blocksize position size : disk_ok d → 0 < maxlength → Z.of_nat (length (contents d)) ≤ MaxOffset →
  Z.of_nat blocksize ≤ MaxOffset → sf_filesize f = length (contents d) → (k < blockcount f)%nat → (k * blocksize ≤ length (contents d))%nat →
  (position + size ≤ blocksize)%nat →
  ∃ b d', InitialiseSourceBlocks f i (Z.of_nat blocksize) !! k = Some b ∧ b_diskfile b = Some i ∧
    ReadData b d (Z.of_nat position) (Z.of_nat size) maxlength = Some (true, d', slice (source_block (contents d) blocksize k) position size) ∧
    disk_ok d' ∧ contents d' = contents d.
Proof.
  intros Hd Hm HF Hb Hz Hk Hin Hps. set (off := (k * blocksize)%nat) in *. set (F := length (contents d)) in *. unfold MaxOffset in *.
  unfold InitialiseSourceBlocks. rewrite list_lookup_fmap, lookup_seq_lt by done. cbn [fmap option_fmap option_map Nat.add].
  set (len := Nat.min blocksize (F - off)).
  assert (wrap 64 (Z.of_nat k * Z.of_nat blocksize) = Z.of_nat off) as Eoff by (rewrite wrap_small; [lia|split; simpl; lia]).
  assert (Z.min (Z.of_nat blocksize) (wrap 64 (Z.of_nat (sf_filesize f) - Z.of_nat off)) = Z.of_nat len) as Elen
    by (rewrite Hz, wrap_small; [lia|split; simpl; lia]).
  rewrite Eoff, Elen. set (b := SetLength _ _). exists b.
  assert (length (slice (contents d) off blocksize) = len) as Lb by (unfold slice; rewrite length_take, length_drop; done).
  destruct (decide (position < len)%nat) as [Hlt|Hge].
  - destruct (ReadData_ok b d (Z.of_nat position) (Z.of_nat size) maxlength) as (d' & E & H1 & H2);
      cbn [b_offset b_length SetLength SetLocation b]; rewrite ?(do_size _ Hd); fold F; try done; try lia.
    exists d'. split; [reflexivity|]. split; [done|]. split; [|done]. rewrite E. do 2 f_equal.
    cbn [b_offset b_length SetLength SetLocation b]. unfold block_chunk, source_block. rewrite !Nat2Z.id. fold F off.
    rewrite Lb, slice_block; rewrite ?Lb; [|lia|lia]. rewrite slice_slice by lia.
    replace (Nat.min (Nat.min size (len - position)) (F - (off + position))) with (Nat.min size (len - position)) by lia. done.
  - exists d. split; [reflexivity|]. split; [done|]. split; [|done]. unfold ReadData, read_data. cbn [b_offset b_length SetLength SetLocation b].
    rewrite (proj2 (Z.ltb_ge _ _)) by lia. rewrite Nat2Z.id. do 2 f_equal. unfold source_block. fold off.
    rewrite slice_zeros; [done|lia|rewrite Lb; lia].
Qed.

(** ** The files *)

Lemma length_source_block file blocksize k : length (source_block file blocksize k) = blocksize.
Proof. unfold source_block, slice. rewrite length_app, length_replicate, length_take. lia. Qed.

Section Files.
Context (scratch : MD5Single) (fresh : HasherInput) (maxlength : Z) (basepath : list Z) (blocksize : nat).
Hypothesis Hscratch : length (tmp scratch) = 64%nat.
Hypothesis Hfresh : length (h_tmp fresh) = 128%nat.
Hypothesis Hmax : 0 < maxlength.
Hypothesis Hbs : (0 < blocksize)%nat.
Hypothesis Hbs63 : Z.of_nat blocksize ≤ MaxOffset.

(** A source file: the name it is opened by and its contents *)
Definition source : Type := list Z * list Z.
Definition recorded_name (s : source) : list Z := drop (length basepath) s.1.
Definition block_count (s : source) : nat := count_blocks (Z.of_nat (length s.2)) (Z.of_nat blocksize).

Record source_ok (s : source) : Prop := {
  so_bytes : Forall (in_range 8) s.2;
  so_nonempty : s.2 ≠ [];
  so_size : Z.of_nat (length s.2) ≤ MaxOffset;
  so_blocks : Z.of_nat (length s.2) ≤ 32768 * Z.of_nat blocksize;
  so_name : recorded_name s ≠ [];
  so_name0 : Forall (λ c, c ≠ 0) (recorded_name s);
  so_name_len : Z.of_nat (length (recorded_name s)) ≤ 99997;
}.

(** The object of a file of which [k] blocks were processed *)
Definition status (defer : bool) (s : source) (f : Par2CreatorSourceFile) (k : nat) : Prop :=
  if defer then pending s.2 blocksize (recorded_name s) f k else hashed s.2 blocksize (recorded_name s) f (block_count s) true.

Lemma status_disk defer s f k : status defer s f k →
  disk_ok (diskfile f) ∧ contents (diskfile f) = s.2 ∧ sf_filesize f = length s.2 ∧ blockcount f = block_count s.
Proof. intros Hf. assert (∃ k full, hashed s.2 blocksize (recorded_name s) f k full) as (? & ? & H) by (destruct defer; [destruct Hf|]; eauto). by destruct H as [? ? ? ? ? ? ? ? [] ? ?]. Qed.

Lemma hashed_set_diskfile s f d k full : hashed s.2 blocksize (recorded_name s) f k full → disk_ok d → contents d = s.2 →
  hashed s.2 blocksize (recorded_name s) (set_diskfile f d) k full.
Proof. by intros [? ? ? ? ? ? ? ? ? ? ?]. Qed.

Lemma status_set_diskfile defer s f d k : status defer s f k → disk_ok d → contents d = s.2 → status defer s (set_diskfile f d) k.
Proof. destruct defer; [intros [? ? ?] ? ?; split; [|done..]|intros ? ? ?]; by apply hashed_set_diskfile. Qed.

Lemma Open_ok defer s d : source_ok s → disk_ok d → contents d = s.2 →
  ∃ f, Open scratch fresh maxlength d s.1 basepath (Z.to_nat (filesize d)) blocksize defer = Some (Some f) ∧ status defer s f 0.
Proof.
  intros [Hby Hne HF HB Hn Hn0 Hnl] Hd Hc. rewrite (do_size _ Hd), Hc, Nat2Z.id. unfold Open, TranslateFilenameFromLocalToPar2.
  rewrite local_loop_ok, app_nil_l. fold (recorded_name s). destruct (recorded_name s) as [|c name] eqn:En; [done|]. rewrite <- En in *. clear c name En.
  cbn [mbind option_bind]. set (f := {| descriptionpacket := _ |}). unfold status. destruct defer.
  - by apply (open_deferred_ok scratch fresh).
  - by apply (open_hashed_ok scratch fresh).
Qed.

(** ** The loop over the input blocks *)

Section Process.
Context (defer : bool) (position size : nat).
Hypothesis Hpart : (position + size ≤ blocksize)%nat.
Hypothesis Hdefer : defer = true → position = 0%nat ∧ size = blocksize.

Local Abbreviation process := (process_inputs maxlength (Z.of_nat position) (Z.of_nat size) defer).

(** The part of block [k] that is processed *)
Definition input_part (s : source) (k : nat) : list Z := slice (source_block s.2 blocksize k) position size.

(** One block *)
Lemma process_block_ok s f k i c more files : source_ok s → files !! i = Some f → status defer s f k → (k < block_count s)%nat →
  c_sourcefile c = i → c_sourceindex c = k →
  ∃ b f', InitialiseSourceBlocks f i (Z.of_nat blocksize) !! k = Some b ∧ status defer s f' (S k) ∧
    process c (b :: more) files
    = ('(ok, inputs, files) ← process (if Nat.leb (block_count s) (S k) then {| lastopenfile := Some i; c_sourcefile := S i; c_sourceindex := 0 |}
                                        else {| lastopenfile := Some i; c_sourcefile := i; c_sourceindex := S k |}) more (<[i := f']> files);
       Some (ok, input_part s k :: inputs, files)).
Proof.
  intros [Hby Hne HF HB Hn Hn0 Hnl] Hi Hf Hk Hci Hck. destruct (status_disk _ _ _ _ Hf) as (Hd & Hc & Hz & Hcnt).
  destruct (count_ok scratch fresh s.2 blocksize Hscratch Hfresh Hby Hne HF Hbs Hbs63 HB) as (Hc0 & Hc1 & Hc2). fold (block_count s) in Hc0, Hc1, Hc2.
  set (d := if decide (lastopenfile c = Some i) then diskfile f else reopen (diskfile f)).
  assert (disk_ok d ∧ contents d = s.2) as [Hd' Hc'].
  { unfold d. case_decide; [done|]. split; [|done]. destruct Hd. by split. }
  destruct (ReadData_block d f i k maxlength blocksize position size) as (b & d2 & Eb & Hbi & Er & Hd2 & Hc2');
    rewrite ?Hc'; rewrite ?Hcnt; try done; [nia|].
  exists b. cbn [process_inputs]. rewrite Hbi. cbn [mbind option_bind]. rewrite Hi. cbn [mbind option_bind]. fold d. rewrite Er, Hc'. cbn [mbind option_bind negb].
  fold (input_part s k). rewrite Hci, Hck. rewrite list_lookup_insert_eq by (by eapply lookup_lt_Some). cbn [mbind option_bind].
  pose proof (status_set_diskfile defer s f d2 k Hf Hd2 ltac:(congruence)) as Hf2.
  assert (∃ f', (if defer then SourceFile.UpdateHashes (set_diskfile f d2) k (input_part s k) else Some (set_diskfile f d2)) = Some f' ∧
    status defer s f' (S k)) as (f' & Ef & Hf').
  { destruct defer; [|by exists (set_diskfile f d2)]. destruct (Hdefer eq_refl) as [Ep Es].
    assert (input_part s k = source_block s.2 blocksize k) as ->.
    { unfold input_part. rewrite Ep, Es. unfold slice. rewrite drop_0. apply take_ge. by rewrite length_source_block. }
    destruct (source_UpdateHashes_ok scratch fresh s.2 blocksize Hscratch Hfresh Hby Hne HF Hbs Hbs63 HB (recorded_name s) (set_diskfile f d2) k Hf2 Hk)
      as (f' & E & H & _). by exists f'. }
  exists f'. split; [done|]. split; [done|]. rewrite Ef. cbn [mbind option_bind]. rewrite list_insert_insert_eq.
  destruct (status_disk _ _ _ _ Hf') as (_ & _ & _ & ->). done.
Qed.

(** The blocks of one file that are left *)
Lemma process_file_ok m s f k i c more files : source_ok s → files !! i = Some f → status defer s f k → (k < block_count s)%nat →
  m = (block_count s - k)%nat → c_sourcefile c = i → c_sourceindex c = k →
  ∃ f', status defer s f' (block_count s) ∧
    process c (drop k (InitialiseSourceBlocks f i (Z.of_nat blocksize)) ++ more) files
    = ('(ok, inputs, files) ← process {| lastopenfile := Some i; c_sourcefile := S i; c_sourceindex := 0 |} more (<[i := f']> files);
       Some (ok, (input_part s <$> seq k m) ++ inputs, files)).
Proof.
  intros Hs. revert f k c files. induction m as [|m IH]; intros f k c files Hi Hf Hk Hm Hci Hck; [lia|].
  destruct (process_block_ok s f k i c (drop (S k) (InitialiseSourceBlocks f i (Z.of_nat blocksize)) ++ more) files Hs Hi Hf Hk Hci Hck)
    as (b & f1 & Eb & Hf1 & E).
  rewrite (drop_S _ b) by done. rewrite <- app_comm_cons, E. clear E.
  assert (InitialiseSourceBlocks f1 i (Z.of_nat blocksize) = InitialiseSourceBlocks f i (Z.of_nat blocksize)) as Einit.
  { destruct (status_disk _ _ _ _ Hf) as (_ & _ & Ez & Ec). destruct (status_disk _ _ _ _ Hf1) as (_ & _ & Ez1 & Ec1).
    unfold InitialiseSourceBlocks. by rewrite Ez, Ez1, Ec, Ec1. }
  destruct (Nat.leb_spec (block_count s) (S k)) as [Hlast|Hmore].
  - assert (m = 0%nat) as -> by lia. assert (S k = block_count s) as Ek by lia. exists f1. split; [by rewrite <- Ek|].
    rewrite drop_ge; [done|]. unfold InitialiseSourceBlocks. rewrite length_fmap, length_seq. destruct (status_disk _ _ _ _ Hf) as (_ & _ & _ & ->). lia.
  - rewrite <- Einit. destruct (IH f1 (S k) {| lastopenfile := Some i; c_sourcefile := i; c_sourceindex := S k |} (<[i := f1]> files)) as (f' & Hf' & E);
      try done; try lia.
    { apply list_lookup_insert_eq. by apply (lookup_lt_Some _ _ f). }
    exists f'. split; [done|]. rewrite E, list_insert_insert_eq. cbn [seq fmap list_fmap app].
    by destruct (process {| lastopenfile := Some i; c_sourcefile := S i; c_sourceindex := 0 |} more (<[i:=f']> files)) as [[[??]?]|].
Qed.

(** All the blocks of all the files *)
Lemma process_files_ok sources todo done_ i last : Forall source_ok sources → Forall2 (λ s f, status defer s f 0) sources todo → length done_ = i →
  ∃ todo', Forall2 (λ s f, status defer s f (block_count s)) sources todo' ∧
    process {| lastopenfile := last; c_sourcefile := i; c_sourceindex := 0 |}
      (mjoin (imap (λ j f, InitialiseSourceBlocks f (i + j) (Z.of_nat blocksize)) todo)) (done_ ++ todo)
    = Some (true, mjoin ((λ s, input_part s <$> seq 0 (block_count s)) <$> sources), done_ ++ todo').
Proof.
  intros HF Ht. revert done_ i last. induction Ht as [|s f sources todo Hf Ht IH]; intros done_ i last Hl.
  { by exists []. }
  apply Forall_cons in HF as [Hs HF]. specialize (IH HF).
  destruct (count_ok scratch fresh s.2 blocksize Hscratch Hfresh (so_bytes _ Hs) (so_nonempty _ Hs) (so_size _ Hs) Hbs Hbs63 (so_blocks _ Hs)) as ((Hc0 & _) & _).
  fold (block_count s) in Hc0. rewrite imap_cons, Nat.add_0_r.
  change (mjoin (InitialiseSourceBlocks f i (Z.of_nat blocksize) :: ?l)) with (drop 0 (InitialiseSourceBlocks f i (Z.of_nat blocksize)) ++ mjoin l).
  edestruct (process_file_ok (block_count s) s f 0 i) as (f' & Hf' & ->); [done| |done|done|lia|done|done|].
  { rewrite lookup_app_r, Hl, Nat.sub_diag by lia. done. }
  rewrite insert_app_r_alt, Hl, Nat.sub_diag by lia. change (<[0%nat := f']> (f :: todo)) with (f' :: todo).
  destruct (IH (done_ ++ [f']) (S i) (Some i)) as (todo' & Hall & E); [rewrite length_app; cbn; lia|].
  exists (f' :: todo'). split; [by constructor|]. rewrite <- !app_assoc in E. cbn [app] in E.
  rewrite (imap_ext _ (λ j f, InitialiseSourceBlocks f (S i + j) (Z.of_nat blocksize))) by (intros; cbn [compose]; f_equal; lia).
  by rewrite E.
Qed.
End Process.

(** ** All the steps *)

(** The stream of a file just opened *)
Definition open_stream (file : list Z) : DiskFile := {| contents := file; stream := 0; offset := 0; filesize := Z.of_nat (length file) |}.
Definition extra_file (s : source) : list Z * DiskFile := (s.1, open_stream s.2).

Lemma OpenSourceFiles_ok defer sources : Forall source_ok sources →
  ∃ files, OpenSourceFiles scratch fresh maxlength basepath blocksize defer (extra_file <$> sources) = Some (Some files) ∧
    Forall2 (λ s f, status defer s f 0) sources files.
Proof.
  induction 1 as [|s sources Hs _ (files & E & Hf)]; [by exists []|]. rewrite fmap_cons. cbn [OpenSourceFiles extra_file].
  destruct (Open_ok defer s (open_stream s.2) Hs) as (f & -> & Hst); [by split|done|]. cbn [mbind option_bind]. rewrite E.
  exists (f :: files). split; [done|]. by constructor.
Qed.

Lemma FinishFileHashComputation_ok defer sources files : Forall source_ok sources → Forall2 (λ s f, status defer s f (block_count s)) sources files →
  ∃ final, FinishFileHashComputation defer files = Some final ∧
    Forall2 (λ s f, hashed s.2 blocksize (recorded_name s) f (block_count s) true) sources final.
Proof.
  intros HF Hst. unfold FinishFileHashComputation. destruct defer; [|by exists files].
  induction Hst as [|s f sources files Hf _ IH]; [by exists []|]. apply Forall_cons in HF as [Hs HF]. destruct (IH HF) as (final & E & Hfinal).
  destruct (FinishHashes_ok scratch fresh s.2 blocksize Hscratch Hfresh (so_bytes _ Hs) (so_nonempty _ Hs) (so_size _ Hs) Hbs Hbs63 (so_blocks _ Hs)
    (recorded_name s) f Hf) as (f' & Ef & Hf').
  exists (f' :: final). cbn. rewrite Ef. cbn. rewrite E. split; [done|]. by constructor.
Qed.

(** The packets of a file, finished with a set id, load with its name, size, ids, hashes and
    the entries of its blocks. *)
Definition packets_describe (setid : list Z) (s : source) (f : Par2CreatorSourceFile) : Prop :=
  let fileid := md5 (md5 (take k16 s.2) ++ le_split 8 (Z.of_nat (length s.2)) ++ recorded_name s) in
  (∃ p d, FinishPacket scratch (descriptionpacket f) setid = Some p ∧ intact (written p) ∧ h_setid (written p) = setid ∧
    parse_description (written p) = Some d ∧ d_filename d = Latin1ToUtf8 (recorded_name s) ∧
    DescriptionPacket_FileSize d = Z.of_nat (length s.2) ∧ DescriptionPacket_HashFull d = md5 s.2 ∧
    DescriptionPacket_Hash16k d = md5 (take k16 s.2) ∧ DescriptionPacket_FileId d = fileid) ∧
  (∃ p v, FinishPacket scratch (verificationpacket f) setid = Some p ∧ intact (written p) ∧ h_setid (written p) = setid ∧
    parse_verification (written p) = Some v ∧ VerificationPacket_FileId v = fileid ∧ v_blockcount v = Z.of_nat (block_count s) ∧
    ∀ i, (i < block_count s)%nat → VerificationEntry v i = (md5 (source_block s.2 blocksize i), crc32 (source_block s.2 blocksize i))).

Lemma create_hashes_ok defer position size sources setid : Forall source_ok sources → (position + size ≤ blocksize)%nat →
  (defer = true → position = 0%nat ∧ size = blocksize) → length setid = 16%nat →
  ∃ opened processed final,
    OpenSourceFiles scratch fresh maxlength basepath blocksize defer (extra_file <$> sources) = Some (Some opened) ∧
    process_inputs maxlength (Z.of_nat position) (Z.of_nat size) defer {| lastopenfile := None; c_sourcefile := 0; c_sourceindex := 0 |}
      (CreateSourceBlocks (Z.of_nat blocksize) opened) opened
    = Some (true, mjoin ((λ s, input_part position size s <$> seq 0 (block_count s)) <$> sources), processed) ∧
    FinishFileHashComputation defer processed = Some final ∧
    Forall2 (packets_describe setid) sources final.
Proof.
  intros HF Hpart Hdefer Hset. destruct (OpenSourceFiles_ok defer sources HF) as (opened & Eo & Ho).
  destruct (process_files_ok defer position size Hpart Hdefer sources opened [] 0 None HF Ho eq_refl) as (processed & Hp & Ep).
  destruct (FinishFileHashComputation_ok defer sources processed HF Hp) as (final & Ef & Hf).
  exists opened, processed, final. split; [done|]. split; [exact Ep|]. split; [done|].
  clear Ef Hp Ep Ho Eo. induction Hf as [|s f sources final Hf _ IH]; [done|]. apply Forall_cons in HF as [Hs HF]. constructor; [|by apply IH].
  apply (hashed_packets scratch fresh s.2 blocksize Hscratch Hfresh (so_bytes _ Hs) (so_nonempty _ Hs) (so_size _ Hs) Hbs Hbs63 (so_blocks _ Hs)
    (recorded_name s) (so_name _ Hs) (so_name0 _ Hs) (so_name_len _ Hs) f setid Hf Hset).
Qed.
End Files.

(** ** Properties *)

(** C23: the packets of the source files describe the files.  For any non-empty files with at
    most 32768 blocks each, whether their hashes are computed when they are opened or while
    their blocks are processed in one pass, opening the files, passing their blocks to the
    backend and finishing the hashes succeeds; the backend gets the same part of every block
    of every file in order, padded with zeros; and every file's packets load with its name
    and size, the MD5 of the file and of its first 16k, the file id derived from them, and
    the MD5 and CRC-32 of each padded block.  No entry is written outside its packet. *)
Theorem source_files_described (scratch : MD5Single) (fresh : HasherInput) (maxlength : Z) (basepath : list Z) (blocksize : nat)
    (defer : bool) (position size : nat) (sources : list source) (setid : list Z) :
  length (tmp scratch) = 64%nat → length (h_tmp fresh) = 128%nat → 0 < maxlength → (0 < blocksize)%nat → Z.of_nat blocksize ≤ MaxOffset →
  Forall (source_ok basepath blocksize) sources → (position + size ≤ blocksize)%nat →
  (defer = true → position = 0%nat ∧ size = blocksize) → length setid = 16%nat →
  ∃ opened processed final,
    OpenSourceFiles scratch fresh maxlength basepath blocksize defer (extra_file <$> sources) = Some (Some opened) ∧
    process_inputs maxlength (Z.of_nat position) (Z.of_nat size) defer {| lastopenfile := None; c_sourcefile := 0; c_sourceindex := 0 |}
      (CreateSourceBlocks (Z.of_nat blocksize) opened) opened
    = Some (true, mjoin ((λ s, input_part blocksize position size s <$> seq 0 (block_count blocksize s)) <$> sources), processed) ∧
    FinishFileHashComputation defer processed = Some final ∧
    Forall2 (packets_describe scratch basepath blocksize setid) sources final.
Proof. intros. by apply create_hashes_ok. Qed.

Definition example_sources : list source := [([47; 97], [1; 2; 3; 4; 5]); ([47; 98], [7; 7])].

Lemma source_files_described_witness :
  ∃ opened processed final,
    OpenSourceFiles example_single example_hasher 3 [47] 4 true (extra_file <$> example_sources) = Some (Some opened) ∧
    process_inputs 3 (Z.of_nat 0) (Z.of_nat 4) true {| lastopenfile := None; c_sourcefile := 0; c_sourceindex := 0 |}
      (CreateSourceBlocks (Z.of_nat 4) opened) opened
    = Some (true, mjoin ((λ s, input_part 4 0 4 s <$> seq 0 (block_count 4 s)) <$> example_sources), processed) ∧
    FinishFileHashComputation true processed = Some final ∧
    Forall2 (packets_describe example_single [47] 4 (replicate 16 6)) example_sources final.
Proof.
  apply (source_files_described example_single example_hasher 3 [47] 4 true 0 4 example_sources (replicate 16 6));
    [reflexivity|reflexivity|lia|lia|unfold MaxOffset; lia| |lia|done|reflexivity].
  repeat constructor; cbn; unfold MaxOffset; done || lia.
Defined.

(** An empty file has no block, but when its hashes are computed at once the entry of one is
    written behind its verification packet. *)
Lemma empty_file_overruns :
  Open example_single example_hasher 3 (open_stream []) [97] [] 0 4 false = None ∧
  ∃ f, Open example_single example_hasher 3 (open_stream [1]) [97] [] 1 4 false = Some (Some f).
Proof. split; [by vm_compute|]. eexists. vm_compute. reflexivity. Qed.
