(* ===== verification/RepairFiles.v ===== *)
(** * RepairFiles.v: the files of a recovery set (src/par2repairer.cpp,
    src/par2repairersourcefile.cpp)

    From the packets that were found to the source files in the order of the main packet,
    their data blocks and the table of block hashes, and the results of the verification.
    An iterator over the data blocks is the number of a block, none while it is singular:
    using it then has no result.  Open files are numbered. *)

From stdpp Require Import gmap.
From S2P Require Import Prelude Bytes Md5 Md5Single DiskFile CheckSummer HashTable FileName Packets PacketScan.

(** ** [Par2RepairerSourceFile] *)

Record Par2RepairerSourceFile := {
  descriptionpacket : DescriptionPacket;
  verificationpacket : option VerificationPacket;
  blockcount : Z;
  firstblock : option nat;    (** [sourceblocks] and [targetblocks] *)
  targetexists : bool;
  targetfile : option nat;
  completefile : option nat;
  targetfilename : list Z;
}.

(** The setters *)
Definition SetTarget (f : Par2RepairerSourceFile) (exists_ : bool) (file : option nat) : Par2RepairerSourceFile :=
  {| descriptionpacket := descriptionpacket f; verificationpacket := verificationpacket f; blockcount := blockcount f;
     firstblock := firstblock f; targetexists := exists_; targetfile := file; completefile := completefile f;
     targetfilename := targetfilename f |}.
Definition SetCompleteFile (f : Par2RepairerSourceFile) (file : option nat) : Par2RepairerSourceFile :=
  {| descriptionpacket := descriptionpacket f; verificationpacket := verificationpacket f; blockcount := blockcount f;
     firstblock := firstblock f; targetexists := targetexists f; targetfile := targetfile f; completefile := file;
     targetfilename := targetfilename f |}.
Definition SetFirstBlock (f : Par2RepairerSourceFile) (count : Z) (first : nat) : Par2RepairerSourceFile :=
  {| descriptionpacket := descriptionpacket f; verificationpacket := verificationpacket f; blockcount := count;
     firstblock := Some first; targetexists := targetexists f; targetfile := targetfile f; completefile := completefile f;
     targetfilename := targetfilename f |}.
Definition SetTargetFileName (f : Par2RepairerSourceFile) (name : list Z) : Par2RepairerSourceFile :=
  {| descriptionpacket := descriptionpacket f; verificationpacket := verificationpacket f; blockcount := blockcount f;
     firstblock := firstblock f; targetexists := targetexists f; targetfile := targetfile f; completefile := completefile f;
     targetfilename := name |}.

Definition FileSizeOf (f : Par2RepairerSourceFile) : Z := DescriptionPacket_FileSize (descriptionpacket f).

(** [SetBlockCount]: the number of blocks, unless there are too many *)
Definition SetBlockCount (filesize blocksize : Z) : option Z :=
  let count := filesize / blocksize + (if negb (filesize mod blocksize =? 0) then 1 else 0) in
  if 2 ^ 32 - 1 <? count then None else Some count.

(** [SetBlocks]: the lengths of the blocks of a file, in both arrays of blocks only the
    source blocks are changed *)
Definition set_length (filesize blocksize : Z) (blocknumber : nat) (b : DataBlock) : DataBlock :=
  SetLength (SetFilesize b filesize) (Z.min blocksize (wrap 64 (filesize - wrap 64 (Z.of_nat blocknumber * blocksize)))).
Fixpoint set_blocks_loop (filesize blocksize : Z) (n blocknumber first : nat) (sourceblocks : list DataBlock) : list DataBlock :=
  match n with
  | O => sourceblocks
  | S n => set_blocks_loop filesize blocksize n (S blocknumber) first
             (alter (set_length filesize blocksize blocknumber) (first + blocknumber)%nat sourceblocks)
  end.
Definition SetBlocks (f : Par2RepairerSourceFile) (count : Z) (first : nat) (blocksize : Z) (sourceblocks : list DataBlock)
    : Par2RepairerSourceFile * list DataBlock :=
  (SetFirstBlock f count first, set_blocks_loop (FileSizeOf f) blocksize (Z.to_nat count) 0 first sourceblocks).

(** ** [CheckPacketConsistency] *)

(** A source file that is kept: it has a description packet, not too many blocks, and a
    verification packet of the right size if it has one *)
Definition check_source (blocksize : Z) (sf : SourceFile) : option Par2RepairerSourceFile :=
  description ← sf_description sf;
  count ← SetBlockCount (DescriptionPacket_FileSize description) blocksize;
  let f := {| descriptionpacket := description; verificationpacket := sf_verification sf; blockcount := count; firstblock := None;
              targetexists := false; targetfile := None; completefile := None; targetfilename := [] |} in
  match sf_verification sf with
  | None => Some f
  | Some v => if count =? v_blockcount v then Some f else None
  end.

(** The main packet, the recovery packets and the source files that are kept *)
Definition CheckPacketConsistency (r : Par2Repairer) : option (MainPacket * Zmap RecoveryPacket * gmap (list Z) Par2RepairerSourceFile) :=
  main ← mainpacket r;
  let blocksize := m_blocksize main in
  Some (main, filter (λ p, BlockSize p.2 = blocksize) (recoverypacketmap r), omap (check_source blocksize) (sourcefilemap r)).

(** ** [CreateSourceFileList] *)

(** One entry of the main packet; no result when the name cannot be translated *)
Definition create_source (noiselevel : NoiseLevel) (basepath : list Z) (sourcefilemap : gmap (list Z) Par2RepairerSourceFile) (fileid : list Z)
    : option (option Par2RepairerSourceFile) :=
  match sourcefilemap !! fileid with
  | None => Some None
  | Some f => name ← TranslateFilenameFromPar2ToLocal noiselevel (d_filename (descriptionpacket f));
              Some (Some (SetTargetFileName f (basepath ++ name)))
  end.
Definition CreateSourceFileList (noiselevel : NoiseLevel) (basepath : list Z) (main : MainPacket)
    (sourcefilemap : gmap (list Z) Par2RepairerSourceFile) : option (list (option Par2RepairerSourceFile)) :=
  mapM (create_source noiselevel basepath sourcefilemap) (MainPacket_FileId main <$> seq 0 (Z.to_nat (m_totalfilecount main))).

(** ** [AllocateSourceBlocks] *)

(** The number of blocks of the recoverable files, unless there are too many *)
Fixpoint count_loop (recoverable : nat) (sourcefiles : list (option Par2RepairerSourceFile)) (sourceblockcount : Z) : option Z :=
  match recoverable, sourcefiles with
  | S recoverable, f :: sourcefiles =>
      match f with
      | Some f => if (2 ^ 32 - 1) - sourceblockcount <? blockcount f then None
                  else count_loop recoverable sourcefiles (sourceblockcount + blockcount f)
      | None => count_loop recoverable sourcefiles sourceblockcount
      end
  | _, _ => Some sourceblockcount
  end.

(** The allocation of the blocks to the files, from block [first] on *)
Fixpoint allocate_loop (recoverable : nat) (sourcefiles : list (option Par2RepairerSourceFile)) (first : nat) (blocksize : Z)
    (sourceblocks : list DataBlock) : list (option Par2RepairerSourceFile) * list DataBlock :=
  match recoverable, sourcefiles with
  | S recoverable, f :: sourcefiles =>
      let '(f, first, sourceblocks) :=
        match f with
        | Some f => let '(f', sourceblocks) := SetBlocks f (blockcount f) first blocksize sourceblocks in
                    (Some f', (first + Z.to_nat (blockcount f))%nat, sourceblocks)
        | None => (None, first, sourceblocks)
        end in
      let '(sourcefiles, sourceblocks) := allocate_loop recoverable sourcefiles first blocksize sourceblocks in
      (f :: sourcefiles, sourceblocks)
  | _, _ => (sourcefiles, sourceblocks)
  end.

Record Allocation := { al_files : list (option Par2RepairerSourceFile); sourceblockcount : Z; sourceblocks : list DataBlock;
                       targetblocks : list DataBlock; blocksallocated : bool }.

(** [AllocateSourceBlocks]; none when it returns false *)
Definition AllocateSourceBlocks (main : MainPacket) (blocksize : Z) (sourcefiles : list (option Par2RepairerSourceFile)) : option Allocation :=
  let recoverable := Z.to_nat (m_recoverablefilecount main) in
  count ← count_loop recoverable sourcefiles 0;
  if 0 <? count then
    let blocks := replicate (Z.to_nat count) mkDataBlock in
    let '(files, sourceblocks) := allocate_loop recoverable sourcefiles 0 blocksize blocks in
    Some {| al_files := files; sourceblockcount := count; sourceblocks := sourceblocks; targetblocks := blocks; blocksallocated := true |}
  else Some {| al_files := sourcefiles; sourceblockcount := count; sourceblocks := []; targetblocks := []; blocksallocated := false |}.

(** ** [PrepareVerificationHashTable] *)

(** The entries of a verification packet, CRC first *)
Definition packet_entries (v : VerificationPacket) : list (Z * list Z) :=
  (λ i, let e := VerificationEntry v i in (e.2, e.1)) <$> seq 0 (Z.to_nat (v_blockcount v)).

(** The loop over the files, the first of which has number [i]: the table, whether a file can
    be verified by blocks, and the files that cannot *)
Fixpoint prepare_loop (t : VerificationHashTable) (i : nat) (sourcefiles : list (option Par2RepairerSourceFile))
    : option (VerificationHashTable * bool * list nat) :=
  match sourcefiles with
  | [] => Some (t, false, [])
  | Some f :: sourcefiles =>
      match verificationpacket f with
      | Some v =>
          first ← firstblock f;
          t ← Load t i first (packet_entries v);
          '(t, _, unverifiable) ← prepare_loop t (S i) sourcefiles;
          Some (t, true, unverifiable)
      | None =>
          '(t, verifiable, unverifiable) ← prepare_loop t (S i) sourcefiles;
          Some (t, verifiable, i :: unverifiable)
      end
  | None :: sourcefiles => prepare_loop t (S i) sourcefiles
  end.
Definition PrepareVerificationHashTable (count : Z) (sourcefiles : list (option Par2RepairerSourceFile)) :=
  prepare_loop (SetLimit count) 0 sourcefiles.

(** ** [UpdateVerificationResults] and [CheckVerificationResults] *)

Record Results := { availableblockcount : Z; missingblockcount : Z; completefilecount : Z; renamedfilecount : Z;
                    damagedfilecount : Z; missingfilecount : Z }.

Section Results.
(** The source blocks, and the sizes of the open files *)
Context (blocks : list DataBlock) (FileSize : nat → Z).

(** The number of blocks of a file that were found: [n] blocks from number [first] on *)
Fixpoint count_set (n first : nat) : option Z :=
  match n with
  | O => Some 0
  | S n => b ← blocks !! first; rest ← count_set n (S first); Some ((if IsSet FileSize b then 1 else 0) + rest)
  end.

(** The blocks available and the files complete, renamed, damaged and missing *)
Definition count_file (f : option Par2RepairerSourceFile) : option (Z * Z * Z * Z * Z) :=
  match f with
  | None => Some (0, 0, 0, 0, 1)
  | Some f =>
      match completefile f with
      | Some d => Some (if decide (Some d = targetfile f) then (blockcount f, 1, 0, 0, 0) else (blockcount f, 0, 1, 0, 0))
      | None =>
          found ← (if 0 <? blockcount f then first ← firstblock f; count_set (Z.to_nat (blockcount f)) first else Some 0);
          Some (if targetexists f then (found, 0, 0, 1, 0) else (found, 0, 0, 0, 1))
      end
  end.

Fixpoint results_loop (total : nat) (sourcefiles : list (option Par2RepairerSourceFile)) (acc : Z * Z * Z * Z * Z) : option (Z * Z * Z * Z * Z) :=
  match total, sourcefiles with
  | S total, f :: sourcefiles =>
      '(b, c, r, d, m) ← count_file f;
      let '(b0, c0, r0, d0, m0) := acc in
      results_loop total sourcefiles (wrap 32 (b0 + b), c0 + c, r0 + r, d0 + d, m0 + m)
  | _, _ => Some acc
  end.

Definition UpdateVerificationResults (main : MainPacket) (count : Z) (sourcefiles : list (option Par2RepairerSourceFile)) : option Results :=
  '(b, c, r, d, m) ← results_loop (Z.to_nat (m_totalfilecount main)) sourcefiles (0, 0, 0, 0, 0);
  Some {| availableblockcount := b; missingblockcount := wrap 32 (count - b); completefilecount := c; renamedfilecount := r;
          damagedfilecount := d; missingfilecount := m |}.
End Results.

(** Whether repair is needed, and what [CheckVerificationResults] returns for a number of
    recovery packets *)
Definition repair_required (main : MainPacket) (r : Results) : bool :=
  (completefilecount r <? m_recoverablefilecount main) || (0 <? renamedfilecount r) || (0 <? damagedfilecount r) || (0 <? missingfilecount r).
Definition CheckVerificationResults (main : MainPacket) (recoverypackets : nat) (r : Results) : bool :=
  if repair_required main r then missingblockcount r <=? Z.of_nat recoverypackets else true.
