(* ===== verification/RepairFilesSpec.v ===== *)
(** * RepairFilesSpec.v: the data blocks are shared out to the files, and counted

    Every recoverable file gets a run of blocks of its own, in the order of the main packet,
    and the hash table links the blocks of each file. *)

From stdpp Require Import gmap.
From S2P Require Import Prelude Bytes Md5 Md5Single DiskFile CheckSummer HashTable HashTableSpec FileName Packets PacketScan RepairFiles.

(** ** The blocks of a file *)

Lemma length_set_blocks_loop fs bs n k first blocks : length (set_blocks_loop fs bs n k first blocks) = length blocks.
Proof. revert k blocks. induction n as [|n IH]; intros k blocks; cbn [set_blocks_loop]; [done|]. by rewrite IH, length_alter. Qed.

Lemma set_blocks_loop_ok fs bs n k first blocks j : set_blocks_loop fs bs n k first blocks !! j =
  (if decide (first + k ≤ j < first + k + n)%nat then set_length fs bs (j - first) <$> blocks !! j else blocks !! j).
Proof.
  revert k blocks. induction n as [|n IH]; intros k blocks; cbn [set_blocks_loop]; [rewrite decide_False by lia; done|].
  rewrite IH. destruct (decide (j = first + k)%nat) as [->|Hne].
  - rewrite decide_False, decide_True by lia. rewrite list_lookup_alter_eq. do 2 f_equal. lia.
  - rewrite list_lookup_alter_ne by lia. destruct (decide (first + k ≤ j < first + k + S n)%nat); repeat case_decide; done || lia.
Qed.

Definition count (f : Par2RepairerSourceFile) : nat := Z.to_nat (blockcount f).

(** The number of the first block of file [i] *)
Definition block_offset (files : list Par2RepairerSourceFile) (i : nat) : nat := sum_list_with count (take i files).
Definition total_blocks (files : list Par2RepairerSourceFile) : nat := sum_list_with count files.
Definition place (first : nat) (files : list Par2RepairerSourceFile) : list Par2RepairerSourceFile :=
  imap (λ i f, SetFirstBlock f (blockcount f) (first + block_offset files i)) files.

Lemma block_offset_total files i f : files !! i = Some f → (block_offset files i + count f ≤ total_blocks files)%nat.
Proof.
  intros Hi. unfold block_offset, total_blocks. rewrite <- (take_drop_middle files i f Hi) at 2. rewrite sum_list_with_app. cbn [sum_list_with]. lia.
Qed.

Lemma place_cons first f files : place first (f :: files) = SetFirstBlock f (blockcount f) first :: place (first + count f) files.
Proof.
  unfold place. rewrite imap_cons. unfold block_offset at 1. cbn [take sum_list_with]. rewrite Nat.add_0_r. f_equal. apply imap_ext. intros i g _.
  unfold block_offset. cbn [compose take sum_list_with]. f_equal. lia.
Qed.

Lemma place_lookup first files i f : files !! i = Some f → place first files !! i = Some (SetFirstBlock f (blockcount f) (first + block_offset files i)).
Proof. intros Hi. unfold place. by rewrite list_lookup_imap, Hi. Qed.

(** ** [AllocateSourceBlocks] *)

Lemma count_loop_ok files n acc : Forall (λ f, 0 ≤ blockcount f) files → 0 ≤ acc → acc + Z.of_nat (total_blocks files) < 2 ^ 32 → (length files ≤ n)%nat →
  count_loop n (Some <$> files) acc = Some (acc + Z.of_nat (total_blocks files)).
Proof.
  intros HF. revert n acc. induction HF as [|f files Hf _ IH]; intros n acc Ha Ht Hn; unfold total_blocks in *; cbn [fmap list_fmap count_loop sum_list_with] in *.
  { destruct n; by rewrite Z.add_0_r. }
  unfold count at 1 in Ht. destruct n as [|n]; cbn [length] in Hn; [lia|]. cbn [count_loop]. rewrite (proj2 (Z.ltb_ge _ _)) by lia. rewrite IH by lia. f_equal. unfold count at 2. lia.
Qed.

Lemma allocate_loop_ok files n first bs blocks : (length files ≤ n)%nat →
  ∃ blocks', allocate_loop n (Some <$> files) first bs blocks = (Some <$> place first files, blocks') ∧ length blocks' = length blocks ∧
    (∀ j, (j < first ∨ first + total_blocks files ≤ j)%nat → blocks' !! j = blocks !! j) ∧
    (∀ i f k, files !! i = Some f → (k < count f)%nat →
      blocks' !! (first + block_offset files i + k)%nat = set_length (FileSizeOf f) bs k <$> blocks !! (first + block_offset files i + k)%nat).
Proof.
  revert n first blocks. induction files as [|f files IH]; intros n first blocks Hn.
  { exists blocks. split; [destruct n; done|]. by split_and!. }
  destruct n as [|n]; cbn [length] in Hn; [lia|]. cbn [fmap list_fmap allocate_loop SetBlocks].
  set (blocks1 := set_blocks_loop (FileSizeOf f) bs (Z.to_nat (blockcount f)) 0 first blocks). fold (count f).
  destruct (IH n (first + count f)%nat blocks1 ltac:(lia)) as (blocks' & E & Hl & Hout & Hin). unfold list_fmap in E |- *. cbn [fmap] in E. rewrite E.
  exists blocks'. rewrite place_cons. split; [done|]. unfold blocks1 in *. split; [by rewrite Hl, length_set_blocks_loop|].
  unfold total_blocks in *. cbn [sum_list_with] in *. split.
  - intros j Hj. rewrite Hout by lia. rewrite set_blocks_loop_ok, decide_False by (fold (count f); lia). done.
  - intros [|i] g k Hi Hk; cbn [lookup list_lookup] in Hi.
    + injection Hi as <-. unfold block_offset. cbn [take sum_list_with]. rewrite Nat.add_0_r, Hout by lia.
      rewrite set_blocks_loop_ok, decide_True by (fold (count f); lia). do 2 f_equal. lia.
    + specialize (Hin i g k Hi Hk). unfold block_offset in *. cbn [take sum_list_with].
      replace (first + (count f + sum_list_with count (take i files)) + k)%nat with (first + count f + sum_list_with count (take i files) + k)%nat by lia.
      rewrite Hin, set_blocks_loop_ok, decide_False by (fold (count f); lia). done.
Qed.

(** A block after the allocation: its length, the size of its file, and no location *)
Definition fresh_block (filesize blocksize : Z) (k : nat) : DataBlock :=
  {| b_diskfile := None; b_offset := 0; b_length := Z.min blocksize (filesize - Z.of_nat k * blocksize); b_filesize := filesize |}.

(** A file whose number of blocks comes from [SetBlockCount] *)
Record counted (blocksize : Z) (f : Par2RepairerSourceFile) : Prop := {
  ct_count : SetBlockCount (FileSizeOf f) blocksize = Some (blockcount f);
  ct_size : in_range 64 (FileSizeOf f);
}.

Lemma counted_bounds blocksize f : 0 < blocksize → counted blocksize f →
  0 ≤ blockcount f < 2 ^ 32 ∧ (blockcount f - 1) * blocksize < FileSizeOf f ∧ FileSizeOf f ≤ blockcount f * blocksize.
Proof.
  intros Hb [Hc [Hs0 Hs1]]. unfold SetBlockCount in Hc. destruct (Z.ltb_spec (2 ^ 32 - 1)
    (FileSizeOf f / blocksize + (if negb (FileSizeOf f mod blocksize =? 0) then 1 else 0))) as [|Hle]; [done|]. injection Hc as Hc.
  pose proof (Z.div_mod (FileSizeOf f) blocksize ltac:(lia)) as Hdm. pose proof (Z.mod_pos_bound (FileSizeOf f) blocksize Hb) as Hm.
  assert (0 ≤ FileSizeOf f / blocksize) by (apply Z.div_pos; lia). set (q := FileSizeOf f / blocksize) in *. set (m := FileSizeOf f mod blocksize) in *. clearbody q m.
  destruct (Z.eqb_spec m 0) as [E|E]; cbn [negb] in *; split_and!; nia || lia.
Qed.

Lemma set_length_fresh blocksize f k : 0 < blocksize < 2 ^ 64 → counted blocksize f → (k < count f)%nat →
  set_length (FileSizeOf f) blocksize k mkDataBlock = fresh_block (FileSizeOf f) blocksize k.
Proof.
  intros Hb Hf Hk. destruct (counted_bounds blocksize f ltac:(lia) Hf) as (Hc & H1 & H2). destruct (ct_size _ _ Hf) as [S0 S1]. unfold count in Hk.
  assert (Z.of_nat k * blocksize ≤ (blockcount f - 1) * blocksize) by nia.
  unfold set_length, fresh_block, SetLength, SetFilesize, mkDataBlock. cbn [b_diskfile b_offset b_filesize]. f_equal.
  rewrite (wrap_small 64 (Z.of_nat k * blocksize)) by (split; nia). rewrite wrap_small by (split; nia). done.
Qed.

Lemma AllocateSourceBlocks_ok main blocksize files : 0 < blocksize < 2 ^ 64 → Forall (counted blocksize) files →
  m_recoverablefilecount main = Z.of_nat (length files) → 0 < Z.of_nat (total_blocks files) < 2 ^ 32 →
  ∃ blocks, AllocateSourceBlocks main blocksize (Some <$> files)
    = Some {| al_files := Some <$> place 0 files; sourceblockcount := Z.of_nat (total_blocks files); sourceblocks := blocks;
              targetblocks := replicate (total_blocks files) mkDataBlock; blocksallocated := true |} ∧
    length blocks = total_blocks files ∧
    ∀ i f k, files !! i = Some f → (k < count f)%nat → blocks !! (block_offset files i + k)%nat = Some (fresh_block (FileSizeOf f) blocksize k).
Proof.
  intros Hb HF Hm Ht. unfold AllocateSourceBlocks. rewrite Hm, Nat2Z.id, count_loop_ok; [|eapply Forall_impl; [exact HF|]; intros f Hf; by apply (counted_bounds blocksize); [lia|]|lia|lia|lia].
  cbn [mbind option_bind]. rewrite Z.add_0_l, (proj2 (Z.ltb_lt 0 _)), Nat2Z.id by lia.
  destruct (allocate_loop_ok files (length files) 0 blocksize (replicate (total_blocks files) mkDataBlock) ltac:(lia)) as (blocks & -> & Hl & _ & Hin).
  exists blocks. split; [done|]. rewrite length_replicate in Hl. split; [done|]. intros i f k Hi Hk. rewrite <- (Nat.add_0_l (block_offset files i)), (Hin i f k Hi Hk).
  pose proof (block_offset_total files i f Hi). rewrite lookup_replicate_2 by lia. cbn [fmap option_fmap option_map]. f_equal.
  apply set_length_fresh; [done| |done]. rewrite Forall_lookup in HF. by eapply HF.
Qed.

(** ** The hash table *)

Lemma file_entries_lookup id sf b first vs k : file_entries id sf b first vs !! k
  = (λ v : Z * list Z, new_entry (id + Z.of_nat k) sf (b + k) (match k with O => first | S _ => false end) v.1 v.2) <$> vs !! k.
Proof.
  revert id b first k. induction vs as [|[crc hash] vs IH]; intros id b first [|k]; cbn [file_entries lookup list_lookup fmap option_fmap option_map]; [done|done| |].
  - by rewrite Z.add_0_r, Nat.add_0_r.
  - change (file_entries (id + 1) sf (S b) false vs !! k = (λ v : Z * list Z, new_entry (id + Z.of_nat (S k)) sf (b + S k) false v.1 v.2) <$> vs !! k).
    rewrite IH. destruct (vs !! k) as [[crc' hash']|]; [|done]. cbn. f_equal. unfold new_entry. f_equal; [lia|lia|]. by destruct k.
Qed.

Lemma length_file_entries id sf b first vs : length (file_entries id sf b first vs) = length vs.
Proof. revert id b first. induction vs as [|[crc hash] vs IH]; intros; cbn [file_entries length]; [done|]. by rewrite IH. Qed.

(** Entries are numbered in order, and each is linked to the one after it unless that starts a file. *)
Record linked (t : VerificationHashTable) (es : list VerificationHashEntry) : Prop := {
  k_allocated : allocated t = Z.of_nat (length es);
  k_ids : ∀ i e, es !! i = Some e → e_id e = Z.of_nat i;
  k_next : ∀ i e, es !! i = Some e → nexts t !! Z.of_nat i
    = match es !! S i with Some e' => if e_firstblock e' then None else Some (Z.of_nat (S i)) | None => None end;
}.

Lemma linked_empty limit : linked (SetLimit limit) [].
Proof. split; [done|by intros i e H|by intros i e H]. Qed.

Lemma Load_ok t es sf b vs : table_ok t es → linked t es → Forall (λ v, hash_ok v.2) vs →
  ∃ t', Load t sf b vs = Some t' ∧ table_ok t' (es ++ file_entries (allocated t) sf b true vs) ∧
    linked t' (es ++ file_entries (allocated t) sf b true vs).
Proof.
  intros Ht [Ka Ki Kn] Hv. destruct (load_loop_ok vs t es sf b true None Ht Hv ltac:(done)) as (t' & E & Ht' & Ha & Hold & _ & Hnew).
  exists t'. split; [exact E|]. split; [done|]. rewrite Ka in *. split.
  - rewrite length_app, length_file_entries. lia.
  - intros i e [Hi|[Hi He]]%lookup_app_Some; [by apply Ki|]. rewrite file_entries_lookup in He.
    apply fmap_Some in He as (v & _ & ->). cbn. lia.
  - intros i e [Hi|[Hi He]]%lookup_app_Some.
    + pose proof (lookup_lt_Some _ _ _ Hi) as Hlt. rewrite Hold, (Kn i e Hi) by (done || lia).
      destruct (es !! S i) as [e'|] eqn:Es; [by rewrite (lookup_app_l_Some _ _ _ _ Es)|].
      apply lookup_ge_None in Es. rewrite lookup_app_r by done. replace (S i - length es)%nat with 0%nat by lia.
      rewrite file_entries_lookup. by destruct (vs !! 0%nat).
    + rewrite Hnew by lia. rewrite lookup_app_r by lia. rewrite file_entries_lookup. replace (S i - length es)%nat with (S (i - length es)) by lia.
      destruct (vs !! S (i - length es)) as [v|] eqn:Ev; cbn [fmap option_fmap option_map].
      * apply lookup_lt_Some in Ev. rewrite decide_True by lia. cbn. f_equal. lia.
      * apply lookup_ge_None in Ev. rewrite decide_False by lia. done.
Qed.

(** A file whose verification packet, if there is one, has an entry for each block *)
Definition verifiable (f : Par2RepairerSourceFile) : Prop :=
  ∀ v, verificationpacket f = Some v → v_blockcount v = blockcount f ∧ Forall (λ e, hash_ok e.2) (packet_entries v).

(** What is loaded into the table: the files that have a verification packet *)
Fixpoint table_files (i first : nat) (files : list Par2RepairerSourceFile) : list (nat * nat * list (Z * list Z)) :=
  match files with
  | [] => []
  | f :: files => match verificationpacket f with Some v => (i, first, packet_entries v) :: table_files (S i) (first + count f) files
                  | None => table_files (S i) (first + count f) files end
  end.

Lemma prepare_loop_ok files t es i first : table_ok t es → linked t es → Forall verifiable files →
  ∃ t' b u, prepare_loop t i (Some <$> place first files) = Some (t', b, u) ∧
    table_ok t' (es ++ files_entries (allocated t) (table_files i first files)) ∧
    linked t' (es ++ files_entries (allocated t) (table_files i first files)) ∧
    (b = true ↔ ∃ f, f ∈ files ∧ is_Some (verificationpacket f)) ∧
    (∀ j, j ∈ u ↔ ∃ k f, j = (i + k)%nat ∧ files !! k = Some f ∧ verificationpacket f = None).
Proof.
  intros Ht Hk HF. revert t es i first Ht Hk. induction HF as [|f files Hf _ IH]; intros t es i first Ht Hk.
  { exists t, false, []. cbn [table_files files_entries]. rewrite app_nil_r. split_and!; try done.
    - split; [done|]. by intros (f & Hf%elem_of_nil & _).
    - intros j. split; [by intros Hj%elem_of_nil|]. by intros (k & f & _ & Hk' & _). }
  rewrite place_cons. cbn [fmap list_fmap prepare_loop table_files verificationpacket firstblock SetFirstBlock].
  destruct (verificationpacket f) as [v|] eqn:Ev.
  - destruct (Hf v Ev) as [_ Hh]. cbn [mbind option_bind]. destruct (Load_ok t es i first (packet_entries v) Ht Hk Hh) as (t1 & -> & Ht1 & Hk1). cbn [mbind option_bind].
    destruct (IH t1 _ (S i) (first + count f)%nat Ht1 Hk1) as (t2 & b & u & E & Ht2 & Hk2 & Hb & Hu). unfold list_fmap in E |- *. cbn [fmap] in E. rewrite E. cbn [mbind option_bind].
    exists t2, true, u. split; [done|]. cbn [files_entries].
    assert (allocated t1 = allocated t + Z.of_nat (length (packet_entries v))) as Ea.
    { rewrite (k_allocated _ _ Hk1), (k_allocated _ _ Hk), length_app, length_file_entries. lia. }
    rewrite Ea, <- app_assoc in Ht2, Hk2. split; [done|]. split; [done|]. split.
    + split; [|done]. intros _. exists f. split; [by left|]. by rewrite Ev.
    + intros j. rewrite Hu. split.
      * intros (k & g & -> & Hg & Eg). exists (S k), g. split_and!; [lia|done|done].
      * intros ([|k] & g & -> & Hg & Eg); cbn in Hg; [congruence|]. exists k, g. split_and!; [lia|done|done].
  - destruct (IH t es (S i) (first + count f)%nat Ht Hk) as (t2 & b & u & E & Ht2 & Hk2 & Hb & Hu). unfold list_fmap in E |- *. cbn [fmap] in E. rewrite E. cbn [mbind option_bind].
    exists t2, b, (i :: u). split; [done|]. split; [done|]. split; [done|]. split.
    + rewrite Hb. split; intros (g & Hg & Hs); exists g; (split; [|done]); [by right|].
      apply elem_of_cons in Hg as [->|Hg]; [|done]. rewrite Ev in Hs. by destruct Hs.
    + intros j. rewrite elem_of_cons, Hu. split.
      * intros [->|(k & g & -> & Hg & Eg)]; [exists 0%nat, f; split_and!; [lia|done|done]|exists (S k), g; split_and!; [lia|done|done]].
      * intros ([|k] & g & -> & Hg & Eg); cbn in Hg; [left; lia|right; exists k, g; split_and!; [lia|done|done]].
Qed.

(** Every entry has its data block. *)
Lemma table_files_blocks files i first id : Forall verifiable files →
  Forall (λ e, first ≤ e_datablock e < first + total_blocks files)%nat (files_entries id (table_files i first files)).
Proof.
  intros HF. revert i first id. induction HF as [|f files Hf _ IH]; intros i first id; cbn [table_files]; [constructor|].
  unfold total_blocks in *. cbn [sum_list_with]. destruct (verificationpacket f) as [v|] eqn:Ev; cbn [files_entries].
  - destruct (Hf v Ev) as [Hc _]. apply Forall_app. split.
    + apply Forall_lookup. intros k e He. pose proof (lookup_lt_Some _ _ _ He) as Hk. rewrite length_file_entries in Hk.
      assert (length (packet_entries v) = count f) as El by (unfold packet_entries; rewrite length_fmap, length_seq, Hc; done). rewrite El in Hk.
      rewrite file_entries_lookup in He. apply fmap_Some in He as (x & _ & ->). cbn. lia.
    + eapply Forall_impl; [apply IH|]. cbn. lia.
  - eapply Forall_impl; [apply IH|]. cbn. lia.
Qed.

(** ** The results *)

(** The classes of files: complete in place, complete elsewhere, damaged, missing *)
Definition complete_here (f : Par2RepairerSourceFile) : bool := bool_decide (completefile f ≠ None ∧ completefile f = targetfile f).
Definition complete_elsewhere (f : Par2RepairerSourceFile) : bool := bool_decide (completefile f ≠ None ∧ completefile f ≠ targetfile f).
Definition damaged (f : Par2RepairerSourceFile) : bool := bool_decide (completefile f = None) && targetexists f.
Definition missing (f : Par2RepairerSourceFile) : bool := bool_decide (completefile f = None) && negb (targetexists f).
Definition tally (p : Par2RepairerSourceFile → bool) (files : list Par2RepairerSourceFile) : Z := Z.of_nat (length (filter (λ f, p f = true) files)).

Lemma tally_cons p f files : tally p (f :: files) = (if p f then 1 else 0) + tally p files.
Proof. unfold tally. rewrite filter_cons. destruct (p f); [rewrite decide_True by done|by rewrite decide_False]. cbn [length]. lia. Qed.

Lemma tally_nonneg p files : 0 ≤ tally p files.
Proof. unfold tally. lia. Qed.

Lemma tally_all p files : tally p files = Z.of_nat (length files) ↔ Forall (λ f, p f = true) files.
Proof.
  split.
  - induction files as [|f files IH]; [done|]. rewrite tally_cons. cbn [length]. intros E.
    assert (tally p files ≤ Z.of_nat (length files)) by (unfold tally; pose proof (length_filter (λ f, p f = true) files); lia).
    destruct (p f) eqn:Ep; [|lia]. constructor; [done|]. apply IH. lia.
  - induction 1 as [|f files Hf _ IH]; [done|]. rewrite tally_cons, Hf, IH. cbn [length]. lia.
Qed.

(** One of the classes holds *)
Lemma classes f : (if complete_here f then 1 else 0) + (if complete_elsewhere f then 1 else 0) + (if damaged f then 1 else 0) + (if missing f then 1 else 0) = 1.
Proof.
  unfold complete_here, complete_elsewhere, damaged, missing. destruct (completefile f) as [d|], (targetexists f); cbn [andb negb];
    repeat case_bool_decide; naive_solver.
Qed.

Lemma tally_classes files : tally complete_here files + tally complete_elsewhere files + tally damaged files + tally missing files = Z.of_nat (length files).
Proof. induction files as [|f files IH]; [done|]. rewrite !tally_cons. cbn [length]. pose proof (classes f). lia. Qed.

Section Results.
Context (blocks : list DataBlock) (FileSize : nat → Z).

Definition located (bs : list DataBlock) : nat := length (filter (λ b, IsSet FileSize b = true) bs).

Lemma located_cons b bs : located (b :: bs) = ((if IsSet FileSize b then 1 else 0) + located bs)%nat.
Proof. unfold located. rewrite filter_cons. destruct (IsSet FileSize b); [by rewrite decide_True|by rewrite decide_False]. Qed.

Lemma located_app b1 b2 : located (b1 ++ b2) = (located b1 + located b2)%nat.
Proof. unfold located. by rewrite filter_app, length_app. Qed.

Lemma located_le bs : (located bs ≤ length bs)%nat.
Proof. apply length_filter. Qed.

Lemma located_all bs : (∀ k b, bs !! k = Some b → IsSet FileSize b = true) → located bs = length bs.
Proof.
  induction bs as [|b bs IH]; intros H; [done|]. rewrite located_cons, (H 0%nat b eq_refl). cbn [length]. f_equal. apply IH. intros k. apply (H (S k)).
Qed.

Lemma count_set_ok n first : (first + n ≤ length blocks)%nat →
  count_set blocks FileSize n first = Some (Z.of_nat (located (take n (drop first blocks)))).
Proof.
  revert first. induction n as [|n IH]; intros first Hn; cbn [count_set]; [done|].
  destruct (lookup_lt_is_Some_2 blocks first ltac:(lia)) as [b Hb]. rewrite Hb, IH by lia. cbn [mbind option_bind].
  rewrite (drop_S _ b first Hb). cbn [take]. rewrite located_cons. f_equal. destruct (IsSet FileSize b); lia.
Qed.

(** The files have their blocks from [first] on, and every block of a complete file was found. *)
Fixpoint blocks_of (first : nat) (files : list Par2RepairerSourceFile) : Prop :=
  match files with
  | [] => True
  | f :: files => 0 ≤ blockcount f ∧ firstblock f = Some first ∧
      (completefile f ≠ None → ∀ k b, (k < count f)%nat → blocks !! (first + k)%nat = Some b → IsSet FileSize b = true) ∧
      blocks_of (first + count f) files
  end.

Lemma count_file_ok f first : 0 ≤ blockcount f → firstblock f = Some first → (first + count f ≤ length blocks)%nat →
  (completefile f ≠ None → ∀ k b, (k < count f)%nat → blocks !! (first + k)%nat = Some b → IsSet FileSize b = true) →
  count_file blocks FileSize (Some f) = Some (Z.of_nat (located (take (count f) (drop first blocks))), if complete_here f then 1 else 0,
    if complete_elsewhere f then 1 else 0, if damaged f then 1 else 0, if missing f then 1 else 0).
Proof.
  intros Hc Hfirst Hin Hcomp. unfold count_file, complete_here, complete_elsewhere, damaged, missing. destruct (completefile f) as [d|] eqn:Ed.
  - rewrite located_all.
    2: { intros k b (Hb & Hk)%lookup_take_Some. rewrite lookup_drop in Hb. by apply (Hcomp ltac:(done) k b Hk). }
    rewrite length_take, length_drop, Nat.min_l by lia. unfold count. rewrite Z2Nat.id by done. cbn [andb].
    case_decide; repeat case_bool_decide; naive_solver.
  - rewrite Hfirst. fold (count f). cbn [mbind option_bind]. rewrite count_set_ok by done.
    assert ((if 0 <? blockcount f then Some (Z.of_nat (located (take (count f) (drop first blocks)))) else Some 0)
      = Some (Z.of_nat (located (take (count f) (drop first blocks))))) as ->.
    { destruct (Z.ltb_spec 0 (blockcount f)); [done|]. assert (count f = 0%nat) as -> by (unfold count; lia). done. }
    cbn [mbind option_bind]. destruct (targetexists f); repeat case_bool_decide; naive_solver.
Qed.

Lemma results_loop_ok files n first b0 c0 r0 d0 m0 : (length files ≤ n)%nat → blocks_of first files → (first + total_blocks files ≤ length blocks)%nat →
  0 ≤ b0 → b0 + Z.of_nat (total_blocks files) < 2 ^ 32 →
  results_loop blocks FileSize n (Some <$> files) (b0, c0, r0, d0, m0)
  = Some (b0 + Z.of_nat (located (take (total_blocks files) (drop first blocks))), c0 + tally complete_here files, r0 + tally complete_elsewhere files,
          d0 + tally damaged files, m0 + tally missing files).
Proof.
  revert n first b0 c0 r0 d0 m0. induction files as [|f files IH]; intros n first b0 c0 r0 d0 m0 Hn Hb Hin H0 H32.
  { cbn [fmap list_fmap]. unfold total_blocks. cbn [sum_list_with take]. destruct n; cbn [results_loop]; unfold tally, located; cbn [filter list_filter length]; by rewrite !Z.add_0_r. }
  destruct n as [|n]; cbn [length] in Hn; [lia|]. destruct Hb as (Hc & Hfirst & Hcomp & Hb). unfold total_blocks in *. cbn [sum_list_with] in *.
  change (Some <$> f :: files) with (Some f :: (Some <$> files)). cbn [results_loop]. rewrite (count_file_ok f first) by (done || lia). cbn [mbind option_bind].
  pose proof (located_le (take (count f) (drop first blocks))) as Hle. rewrite length_take in Hle. rewrite wrap_small by (split; lia).
  rewrite (IH n (first + count f)%nat) by (done || lia). rewrite !tally_cons. rewrite <- (take_take_drop (drop first blocks) (count f)), located_app, drop_drop.
  f_equal. repeat match goal with |- (_, _) = (_, _) => f_equal end; lia.
Qed.
End Results.

(** What [UpdateVerificationResults] counts *)
Lemma UpdateVerificationResults_ok (blocks : list DataBlock) (FileSize : nat → Z) (main : MainPacket) (files : list Par2RepairerSourceFile) :
  m_totalfilecount main = Z.of_nat (length files) → blocks_of blocks FileSize 0 files → length blocks = total_blocks files → Z.of_nat (length blocks) < 2 ^ 32 →
  UpdateVerificationResults blocks FileSize main (Z.of_nat (length blocks)) (Some <$> files)
  = Some {| availableblockcount := Z.of_nat (located FileSize blocks); missingblockcount := Z.of_nat (length blocks - located FileSize blocks);
            completefilecount := tally complete_here files; renamedfilecount := tally complete_elsewhere files;
            damagedfilecount := tally damaged files; missingfilecount := tally missing files |}.
Proof.
  intros Ht Hb Hl H32. pose proof (located_le FileSize blocks) as Hle.
  unfold UpdateVerificationResults. rewrite Ht, Nat2Z.id, (results_loop_ok blocks FileSize files _ 0) by (done || lia).
  cbn [mbind option_bind]. rewrite drop_0, <- Hl, firstn_all, !Z.add_0_l, wrap_small by (split; lia). do 2 f_equal. lia.
Qed.

(** ** Properties *)

(** C29: the blocks are shared out and linked.  For files with consistent block counts and
    verification packets, all of them recoverable and together with fewer than 2^32 blocks,
    the allocation gives block [k] of file [i] the number that follows from the blocks before
    it, its length cut off at the end of the file, and no location; the hash table then holds
    exactly the entries of the verification packets, in order, every entry refers to an
    allocated block, and the entries of one file are linked in order and to no others. *)
Theorem blocks_shared_out (main : MainPacket) (blocksize : Z) (files : list Par2RepairerSourceFile) :
  0 < blocksize < 2 ^ 64 → Forall (counted blocksize) files → Forall verifiable files →
  m_recoverablefilecount main = Z.of_nat (length files) → 0 < Z.of_nat (total_blocks files) < 2 ^ 32 →
  ∃ al t b unverifiable es, AllocateSourceBlocks main blocksize (Some <$> files) = Some al ∧
    al_files al = Some <$> place 0 files ∧ length (sourceblocks al) = total_blocks files ∧
    (∀ i f k, files !! i = Some f → (k < count f)%nat →
      sourceblocks al !! (block_offset files i + k)%nat = Some (fresh_block (FileSizeOf f) blocksize k)) ∧
    PrepareVerificationHashTable (sourceblockcount al) (al_files al) = Some (t, b, unverifiable) ∧
    es = files_entries 0 (table_files 0 0 files) ∧ table_ok t es ∧ linked t es ∧ Forall (has_block (sourceblocks al)) es ∧
    (∀ j, j ∈ unverifiable ↔ ∃ f, files !! j = Some f ∧ verificationpacket f = None).
Proof.
  intros Hb HF Hv Hm Ht. destruct (AllocateSourceBlocks_ok main blocksize files Hb HF Hm Ht) as (blocks & E & Hl & Hin).
  destruct (prepare_loop_ok files (SetLimit (Z.of_nat (total_blocks files))) [] 0 0 (SetLimit_ok _) (linked_empty _) Hv)
    as (t & b & u & Ep & Htab & Hlink & _ & Hu).
  eexists _, t, b, u, _. split; [exact E|]. cbn [al_files sourceblocks sourceblockcount].
  split; [done|]. split; [done|]. split; [done|]. split; [exact Ep|]. split; [reflexivity|]. split; [exact Htab|]. split; [exact Hlink|]. split.
  - eapply Forall_impl; [apply (table_files_blocks files 0 0 _ Hv)|]. intros e He. cbn beta in He. unfold has_block. rewrite Hl. lia.
  - intros j. rewrite Hu. split; [intros (k & f & -> & H)|intros (f & H)]; eauto.
Qed.

Definition example_description (size : Z) : DescriptionPacket := {| d_data := replicate 112 0 ++ le_split 8 size; d_filename := [97] |}.
Definition example_verification (n : nat) : VerificationPacket := {| v_data := replicate (80 + 20 * n) 7; v_blockcount := Z.of_nat n |}.
Definition example_file (size : Z) (n : nat) (v : option VerificationPacket) : Par2RepairerSourceFile :=
  {| descriptionpacket := example_description size; verificationpacket := v; blockcount := Z.of_nat n; firstblock := None;
     targetexists := false; targetfile := None; completefile := None; targetfilename := [97] |}.
Definition example_repair_files : list Par2RepairerSourceFile :=
  [example_file 9 3 (Some (example_verification 3)); example_file 4 1 None; example_file 8 2 (Some (example_verification 2))].
Definition example_main (total recoverable : Z) : MainPacket :=
  {| m_data := []; m_blocksize := 4; m_totalfilecount := total; m_recoverablefilecount := recoverable |}.

Lemma blocks_shared_out_witness :
  ∃ al t b unverifiable es, AllocateSourceBlocks (example_main 3 3) 4 (Some <$> example_repair_files) = Some al ∧
    al_files al = Some <$> place 0 example_repair_files ∧ length (sourceblocks al) = total_blocks example_repair_files ∧
    (∀ i f k, example_repair_files !! i = Some f → (k < count f)%nat →
      sourceblocks al !! (block_offset example_repair_files i + k)%nat = Some (fresh_block (FileSizeOf f) 4 k)) ∧
    PrepareVerificationHashTable (sourceblockcount al) (al_files al) = Some (t, b, unverifiable) ∧
    es = files_entries 0 (table_files 0 0 example_repair_files) ∧ table_ok t es ∧ linked t es ∧ Forall (has_block (sourceblocks al)) es ∧
    (∀ j, j ∈ unverifiable ↔ ∃ f, example_repair_files !! j = Some f ∧ verificationpacket f = None).
Proof.
  apply (blocks_shared_out (example_main 3 3) 4 example_repair_files); [lia| | |reflexivity|vm_compute; split; reflexivity].
  - repeat constructor; vm_compute; congruence.
  - repeat constructor; try discriminate; match goal with H : _ = Some _ |- _ => injection H as <- end; [reflexivity| |reflexivity|];
      repeat constructor; vm_compute; congruence.
Defined.

(** The results of the verification.  When all files are recoverable and have their runs
    of blocks, and every block of a complete file was found, the available blocks are the
    blocks that were found and the missing ones the others; every file is counted once, as
    complete in place or elsewhere, damaged or missing; and the check succeeds exactly when
    all files are complete in place or there is a recovery packet for every missing block. *)
Theorem verification_counted (blocks : list DataBlock) (FileSize : nat → Z) (main : MainPacket) (files : list Par2RepairerSourceFile) (recoverypackets : nat) :
  m_totalfilecount main = Z.of_nat (length files) → m_recoverablefilecount main = Z.of_nat (length files) →
  blocks_of blocks FileSize 0 files → length blocks = total_blocks files → Z.of_nat (length blocks) < 2 ^ 32 →
  let missingblocks := (length blocks - located FileSize blocks)%nat in
  ∃ r, UpdateVerificationResults blocks FileSize main (Z.of_nat (length blocks)) (Some <$> files) = Some r ∧
    availableblockcount r = Z.of_nat (located FileSize blocks) ∧ missingblockcount r = Z.of_nat missingblocks ∧
    completefilecount r = tally complete_here files ∧ renamedfilecount r = tally complete_elsewhere files ∧
    damagedfilecount r = tally damaged files ∧ missingfilecount r = tally missing files ∧
    completefilecount r + renamedfilecount r + damagedfilecount r + missingfilecount r = Z.of_nat (length files) ∧
    (CheckVerificationResults main recoverypackets r = true ↔
      Forall (λ f, complete_here f = true) files ∨ (missingblocks ≤ recoverypackets)%nat).
Proof.
  intros Ht Hr Hb Hl H32 missingblocks. pose proof (located_le FileSize blocks) as Hle. pose proof (tally_classes files) as Hc.
  eexists. split; [by apply UpdateVerificationResults_ok|]. cbn [availableblockcount missingblockcount completefilecount renamedfilecount damagedfilecount missingfilecount].
  split_and!; try done.
  unfold CheckVerificationResults, repair_required. cbn [missingblockcount completefilecount renamedfilecount damagedfilecount missingfilecount].
  rewrite Hr, <- tally_all. pose proof (tally_nonneg complete_here files). pose proof (tally_nonneg complete_elsewhere files).
  pose proof (tally_nonneg damaged files). pose proof (tally_nonneg missing files).
  destruct (Z.ltb_spec (tally complete_here files) (Z.of_nat (length files))), (Z.ltb_spec 0 (tally complete_elsewhere files)),
    (Z.ltb_spec 0 (tally damaged files)), (Z.ltb_spec 0 (tally missing files)); cbn [orb]; rewrite ?Z.leb_le;
    unfold missingblocks; (split; [intros; first [right; lia|left; lia]|intros [?|?]; first [lia|done]]).
Qed.

Definition example_sizes (_ : nat) : Z := 100.

Lemma verification_counted_witness :
  let blocks := [SetLocation (fresh_block 5 4 0) 1 0; fresh_block 5 4 1; SetLocation (fresh_block 4 4 0) 2 0] in
  let files := place 0 [example_file 5 2 None; SetCompleteFile (SetTarget (example_file 4 1 None) true (Some 2%nat)) (Some 2%nat)] in
  let missingblocks := (length blocks - located example_sizes blocks)%nat in
  ∃ r, UpdateVerificationResults blocks example_sizes (example_main 2 2) (Z.of_nat (length blocks)) (Some <$> files) = Some r ∧
    availableblockcount r = Z.of_nat (located example_sizes blocks) ∧ missingblockcount r = Z.of_nat missingblocks ∧
    completefilecount r = tally complete_here files ∧ renamedfilecount r = tally complete_elsewhere files ∧
    damagedfilecount r = tally damaged files ∧ missingfilecount r = tally missing files ∧
    completefilecount r + renamedfilecount r + damagedfilecount r + missingfilecount r = Z.of_nat (length files) ∧
    (CheckVerificationResults (example_main 2 2) 1 r = true ↔
      Forall (λ f, complete_here f = true) files ∨ (missingblocks ≤ 1)%nat).
Proof.
  intros blocks files. apply (verification_counted blocks example_sizes (example_main 2 2) files 1); [reflexivity|reflexivity| |reflexivity|vm_compute; reflexivity].
  unfold files. cbn [place imap blocks_of]. split_and!; try done.
  intros _ [|k] b Hk; [by intros [= <-]|vm_compute in Hk; lia].
Defined.

(** Files that are not recoverable have no blocks, but they are counted as if they had: while
    such a file is not complete, looking at its blocks goes through a singular iterator; once
    it is complete, its blocks are counted as available although they are not in the set, and
    the number of missing blocks wraps around. *)
Lemma other_files_miscounted :
  let other := example_file 4 1 None in
  let placed := SetFirstBlock (example_file 4 1 None) 1 0 in
  UpdateVerificationResults [SetLocation (fresh_block 4 4 0) 1 0] (λ _, 4) (example_main 2 1) 1 [Some placed; Some other] = None ∧
  missingblockcount <$> UpdateVerificationResults [SetLocation (fresh_block 4 4 0) 1 0] (λ _, 4) (example_main 2 1) 1
    [Some placed; Some (SetCompleteFile other (Some 2%nat))] = Some (2 ^ 32 - 1).
Proof. vm_compute. split; reflexivity. Qed.
