(* ===== verification/RepairScan.v ===== *)
(** * RepairScan.v: [Par2Repairer::ScanDataFile] and [VerifyDataFile] (src/par2repairer.cpp)

    A data file is searched for blocks of the source files with the sliding window of the
    checksummer.  Output, progress and the cancellation flag are not modelled; out-parameters
    that the code leaves unassigned are none. *)

From stdpp Require Import gmap.
From S2P Require Import Prelude Bytes Crc HashCrc Md5 Md5Spec Md5Single Hasher HasherSpec Md5Crc DiskFile CheckSummer HashTable HashTableSpec FileName Packets PacketScan RepairFiles.

Inductive MatchType := eNoMatch | ePartialMatch | eFullMatch.

(** The entry with a number: the object that a pointer refers to *)
Definition entry_at (t : VerificationHashTable) (id : Z) : option VerificationHashEntry :=
  head (filter (λ e, e_id e = id) (mjoin (entries <$> hashtable t))).
(** [Next] *)
Definition Next (t : VerificationHashTable) (e : VerificationHashEntry) : option VerificationHashEntry :=
  nexts t !! e_id e ≫= entry_at t.
(** The comparison of two pointers to entries *)
Definition same_entry (e : VerificationHashEntry) (next : option VerificationHashEntry) : bool :=
  bool_decide (Some (e_id e) = e_id <$> next).

(** What the loop of [ScanDataFile] changes *)
Record scanning := {
  s_checksummer : FileCheckSummer; s_blocks : list DataBlock; s_sourcefile : option nat; s_matchtype : MatchType;
  s_count : Z; s_next : option VerificationHashEntry; s_scanoffset : Z;
}.

Section Scan.
(** The table, the source files with their numbers, the sizes of the open files *)
Context (t : VerificationHashTable) (sourcefiles : list (option Par2RepairerSourceFile)) (FileSize : nat → Z).
(** The file that is scanned: its number and size; the parameters of the checksummer *)
Context (diskfile : nat) (blocksize filesize : nat) (windowtable : array) (maxlength : Z) (fresh : HasherInput) (scratch : MD5Single).
(** [blocksallocated], [renameonly], [skipdata] and [skipleaway] *)
Context (blocksallocated renameonly skipdata : bool) (skipleaway : Z).

(** [GetCompleteFile() != 0] *)
Definition complete (i : nat) : bool :=
  match mjoin (sourcefiles !! i) with Some f => bool_decide (completefile f ≠ None) | None => false end.

Definition scandistance : Z := Z.min (wrap 64 (Z.shiftl skipleaway 1)) (Z.of_nat blocksize).
Definition scanskip : Z := if skipdata then Z.of_nat blocksize - scandistance else 0.

Local Abbreviation Offset s := (currentoffset (win (s_checksummer s))).

(** After a match: the kind of match, and whether the scan goes on *)
Definition note_match (s : scanning) (e : VerificationHashEntry) : bool * scanning :=
  let first := s_count s =? 0 in
  let partial := if first then negb (e_firstblock e) || negb (Nat.eqb (Offset s) 0) else negb (same_entry e (s_next s)) in
  let s := {| s_checksummer := s_checksummer s; s_blocks := s_blocks s;
              s_sourcefile := if first then Some (e_sourcefile e) else s_sourcefile s;
              s_matchtype := if partial then ePartialMatch else s_matchtype s; s_count := s_count s; s_next := s_next s;
              s_scanoffset := s_scanoffset s |} in
  (negb (partial && renameonly), s).

(** The part of the loop for a match: what the function returns, or none while it goes on *)
Definition found_match (s : scanning) (e : VerificationHashEntry) : option (option bool * scanning) :=
  let '(goes_on, s) := note_match s e in
  if negb goes_on then Some (Some true, s) else
  let blocks := if blocksallocated then alter (λ b, SetLocation b diskfile (Z.of_nat (Offset s))) (e_datablock e) (s_blocks s)
                else s_blocks s in
  b ← blocks !! e_datablock e;
  '(ok, c) ← Jump blocksize windowtable filesize maxlength (s_checksummer s) (Z.to_nat (b_length b));
  let s := {| s_checksummer := c; s_blocks := blocks; s_sourcefile := s_sourcefile s; s_matchtype := s_matchtype s;
              s_count := wrap 32 (s_count s + 1); s_next := Next t e; s_scanoffset := Z.shiftr scandistance 1 |} in
  Some (if negb ok then Some false else None, s).

(** The part for no match *)
Definition no_match (s : scanning) : option (option bool * scanning) :=
  let with_checksummer (s : scanning) c scanoffset :=
    {| s_checksummer := c; s_blocks := s_blocks s; s_sourcefile := s_sourcefile s; s_matchtype := ePartialMatch; s_count := s_count s;
       s_next := None; s_scanoffset := scanoffset |} in
  if renameonly then
    Some (Some true, {| s_checksummer := s_checksummer s; s_blocks := s_blocks s; s_sourcefile := s_sourcefile s; s_matchtype := ePartialMatch;
                        s_count := s_count s; s_next := s_next s; s_scanoffset := s_scanoffset s |})
  else
    '(ok, c) ← Step blocksize windowtable filesize maxlength (s_checksummer s);
    if negb ok then Some (Some false, with_checksummer s c (s_scanoffset s)) else
    if 0 <? scanskip then
      let scanoffset := s_scanoffset s + 1 in
      if (scandistance <=? scanoffset) && Nat.ltb (currentoffset (win c)) filesize then
        '(ok, c) ← Jump blocksize windowtable filesize maxlength c (Z.to_nat scanskip);
        Some (if negb ok then Some false else None, with_checksummer s c 0)
      else Some (None, with_checksummer s c scanoffset)
    else Some (None, with_checksummer s c (s_scanoffset s)).

Definition scan_step (s : scanning) : option (option bool * scanning) :=
  '(currententry, _) ← FindMatch (s_blocks s) complete FileSize blocksize filesize (s_checksummer s) diskfile scratch t (s_next s) (s_sourcefile s);
  match currententry with
  | Some e => found_match s e
  | None => no_match s
  end.

(** [while (filechecksummer.Offset() < diskfile->FileSize())] *)
Fixpoint scan_loop (fuel : nat) (s : scanning) : option (option bool * scanning) :=
  if Nat.ltb (Offset s) filesize then
    match fuel with
    | O => None
    | S fuel =>
        '(returned, s) ← scan_step s;
        match returned with
        | Some b => Some (Some b, s)
        | None => scan_loop fuel s
        end
    end
  else Some (None, s).

(** What [ScanDataFile] returns, and its out-parameters as far as they were assigned *)
Record ScanResult := {
  r_result : bool; r_sourcefile : option nat; r_matchtype : option MatchType; r_hashes : option (list Z * list Z); r_count : Z;
  r_blocks : list DataBlock;
}.

(** A file of the set with its packets; [GetVerificationPacket()->BlockCount()] needs one *)
Definition is_perfect (sourcefile : option nat) (count : Z) (hashfull hash16k : list Z) : option bool :=
  i ← sourcefile;
  f ← mjoin (sourcefiles !! i);
  v ← verificationpacket f;
  Some ((count =? v_blockcount v) && (Z.of_nat filesize =? FileSizeOf f) &&
        bool_decide (hashfull = DescriptionPacket_HashFull (descriptionpacket f)) &&
        bool_decide (hash16k = DescriptionPacket_Hash16k (descriptionpacket f))).

(** [ScanDataFile] with a new checksummer [c], for the file that should be source file
    [sourcefile], if any, and the count that the caller passes *)
Definition ScanDataFile (c : FileCheckSummer) (blocks : list DataBlock) (sourcefile : option nat) (count : Z) : option ScanResult :=
  let target := match sourcefile ≫= (λ i, mjoin (sourcefiles !! i)) with Some f => targetexists f | None => false end in
  if negb target && Nat.eqb filesize 0 then
    Some {| r_result := true; r_sourcefile := sourcefile; r_matchtype := None; r_hashes := None; r_count := count; r_blocks := blocks |}
  else
  '(ok, c) ← Start blocksize filesize maxlength fresh c;
  if negb ok then
    Some {| r_result := false; r_sourcefile := sourcefile; r_matchtype := None; r_hashes := None; r_count := count; r_blocks := blocks |}
  else
  '(returned, s) ← scan_loop filesize {| s_checksummer := c; s_blocks := blocks; s_sourcefile := sourcefile; s_matchtype := eFullMatch;
                                         s_count := 0; s_next := None; s_scanoffset := Z.shiftr scandistance 1 |};
  match returned with
  | Some b => Some {| r_result := b; r_sourcefile := s_sourcefile s; r_matchtype := Some (s_matchtype s); r_hashes := None;
                      r_count := s_count s; r_blocks := s_blocks s |}
  | None =>
      '(hashfull, hash16k) ← GetFileHashes filesize (s_checksummer s);
      matchtype ←
        (if 0 <? s_count s then
           match s_matchtype s with
           | eFullMatch => perfect ← is_perfect (s_sourcefile s) (s_count s) hashfull hash16k; Some (if (perfect : bool) then eFullMatch else ePartialMatch)
           | _ => Some ePartialMatch
           end
         else Some eNoMatch);
      Some {| r_result := true; r_sourcefile := s_sourcefile s; r_matchtype := Some matchtype; r_hashes := Some (hashfull, hash16k);
              r_count := s_count s; r_blocks := s_blocks s |}
  end.

(** ** [VerifyDataFile] *)

(** [blockverifiable], [unverifiablesourcefiles], and the memory of the locals [matchtype],
    [hashfull] and [hash16k] that the code does not initialise *)
Context (blockverifiable : bool) (unverifiablesourcefiles : list nat) (matchtype0 : MatchType) (hashfull0 hash16k0 : list Z).

(** The loop that hashes a whole file; [None] in the second place when a read failed *)
Fixpoint hash_loop (fuel buffersize offset : nat) (d : DiskFile) (context : MD5Single) (hash16k : list Z) : option (option (MD5Single * list Z) * DiskFile) :=
  if Nat.ltb offset filesize then
    match fuel with
    | O => None
    | S fuel =>
        let want := Nat.min buffersize (filesize - offset) in
        '(ok, d, buffer) ← Read d (Z.of_nat offset) (Z.of_nat want) maxlength;
        if negb ok then Some (None, d) else
        '(context, hash16k) ←
          (if Nat.ltb offset k16 && Nat.leb k16 (offset + want) then
             let context := update context (take (k16 - offset) buffer) in
             hash16k ← end_ context;
             Some (if Nat.ltb k16 (offset + want) then update context (drop (k16 - offset) buffer) else context, hash16k)
           else Some (update context buffer, hash16k));
        hash_loop fuel buffersize (offset + want) d context hash16k
    end
  else Some (Some (context, hash16k), d).

(** The hash of the first 16k of the file when no file can be verified by blocks; the hash of
    the whole file goes to a variable of its own, which hides the one that is compared later *)
Definition hash_whole (d : DiskFile) (hash16k : list Z) : option (option (list Z)) :=
  let buffersize := Nat.min (Z.to_nat (1024 * 1024)) (Nat.min blocksize filesize) in
  '(r, _) ← hash_loop filesize buffersize 0 d (reset scratch) hash16k;
  match r with
  | None => Some None
  | Some (context, hash16k) => hashfull ← end_ context; Some (Some (if Nat.ltb filesize k16 then hashfull else hash16k))
  end.

(** The blocks of a file that was found complete: [n] blocks from number [first] on *)
Fixpoint locate_loop (n k first : nat) (size : Z) (blocks : list DataBlock) : list DataBlock :=
  match n with
  | O => blocks
  | S n =>
      let offset := Z.of_nat k * Z.of_nat blocksize in
      locate_loop n (S k) first size
        (alter (λ b, SetLength (SetLocation b diskfile offset) (Z.min (Z.of_nat blocksize) (size - offset))) (first + k)%nat blocks)
  end.
Definition locate_file (f : Par2RepairerSourceFile) (blocks : list DataBlock) : option (list DataBlock) :=
  let size := FileSizeOf f in
  if blocksallocated && (0 <? size) then
    first ← firstblock f;
    let n := Z.to_nat ((size + Z.of_nat blocksize - 1) / Z.of_nat blocksize) in
    if Nat.leb (first + n) (length blocks) then Some (locate_loop n 0 first size blocks) else None
  else Some blocks.

(** The loop over the files that cannot be verified by blocks *)
Fixpoint whole_loop (unverifiable : list nat) (hashfull hash16k : list Z) (files : list (option Par2RepairerSourceFile)) (blocks : list DataBlock)
    : option (list (option Par2RepairerSourceFile) * list DataBlock) :=
  match unverifiable with
  | [] => Some (files, blocks)
  | i :: unverifiable =>
      f ← mjoin (files !! i);
      if bool_decide (completefile f = None) && (Z.of_nat filesize =? FileSizeOf f) &&
         bool_decide (hash16k = DescriptionPacket_Hash16k (descriptionpacket f)) &&
         bool_decide (hashfull = DescriptionPacket_HashFull (descriptionpacket f))
      then
        blocks ← locate_file f blocks;
        Some (<[i := Some (SetCompleteFile f (Some diskfile))]> files, blocks)
      else whole_loop unverifiable hashfull hash16k files blocks
  end.

(** What [VerifyDataFile] returns, and the files and blocks *)
Definition VerifyDataFile (c : FileCheckSummer) (d : DiskFile) (blocks : list DataBlock) (sourcefile : option nat)
    : option (bool * list (option Par2RepairerSourceFile) * list DataBlock) :=
  let whole hashfull hash16k blocks :=
    match unverifiablesourcefiles with
    | [] => Some (true, sourcefiles, blocks)
    | _ =>
        hash16k ← (if blockverifiable then Some (Some hash16k) else hash_whole d hash16k);
        match hash16k with
        | None => Some (false, sourcefiles, blocks)
        | Some hash16k =>
            '(files, blocks) ← whole_loop unverifiablesourcefiles hashfull hash16k sourcefiles blocks; Some (true, files, blocks)
        end
    end in
  if blockverifiable then
    r ← ScanDataFile c blocks sourcefile 0;
    if negb (r_result r) then Some (false, sourcefiles, r_blocks r) else
    match default matchtype0 (r_matchtype r) with
    | ePartialMatch => Some (true, sourcefiles, r_blocks r)
    | eFullMatch =>
        i ← r_sourcefile r;
        f ← mjoin (sourcefiles !! i);
        Some (true, <[i := Some (SetCompleteFile f (Some diskfile))]> sourcefiles, r_blocks r)
    | eNoMatch =>
        let '(hashfull, hash16k) := default (hashfull0, hash16k0) (r_hashes r) in
        whole hashfull hash16k (r_blocks r)
    end
  else whole hashfull0 hash16k0 blocks.
End Scan.
