(* ===== verification/RepairScanSpec.v ===== *)
(** * RepairScanSpec.v: what the scan of a data file finds

    Every block that the scan records has the recorded hash; the scan always ends; and a file
    that is intact is recognised as complete. *)

From stdpp Require Import gmap.
From S2P Require Import Prelude Bytes Crc HashCrc Md5 Md5Spec Md5Single Hasher HasherSpec Md5Crc DiskFile CheckSummer CheckSummerSpec HashTable HashTableSpec FileName Packets PacketScan RepairFiles RepairFilesSpec RepairScan.

(** ** Entries and links *)

Lemma entry_at_ok t es i e : table_ok t es → Forall entry_ok es → linked t es → es !! i = Some e → entry_at t (Z.of_nat i) = Some e.
Proof.
  intros Ht Hes [_ Hids _] Hi. unfold entry_at. set (l := filter _ _).
  assert (∀ e', e' ∈ l → e' = e) as Hl.
  { intros e' [Eid He']%list_elem_of_filter. rewrite (elem_of_table t es e' Ht Hes) in He'. apply list_elem_of_lookup in He' as [j Hj].
    rewrite (Hids j e' Hj) in Eid. assert (j = i) as -> by lia. congruence. }
  assert (e ∈ l) as He.
  { apply list_elem_of_filter. split; [by apply Hids|]. apply (elem_of_table t es e Ht Hes). by apply list_elem_of_lookup_2 in Hi. }
  destruct l as [|e' l]; [by apply elem_of_nil in He|]. cbn [head]. f_equal. apply Hl. by left.
Qed.

Lemma Next_ok t es i e : table_ok t es → Forall entry_ok es → linked t es → es !! i = Some e →
  Next t e = match es !! S i with Some e' => if e_firstblock e' then None else Some e' | None => None end.
Proof.
  intros Ht Hes Hk Hi. unfold Next. rewrite (k_ids _ _ Hk i e Hi), (k_next _ _ Hk i e Hi).
  destruct (es !! S i) as [e'|] eqn:Es; [|done]. destruct (e_firstblock e'); [done|]. cbn [mbind option_bind]. by apply (entry_at_ok t es).
Qed.

(** ** A perfect match *)

Lemma is_perfect_ok (sourcefiles : list (option Par2RepairerSourceFile)) (F : nat) sourcefile count full h16 f i v : sourcefile = Some i → mjoin (sourcefiles !! i) = Some f → verificationpacket f = Some v →
  ∃ b, is_perfect sourcefiles F sourcefile count full h16 = Some b ∧
    (b = true ↔ count = v_blockcount v ∧ FileSizeOf f = Z.of_nat F ∧ DescriptionPacket_HashFull (descriptionpacket f) = full ∧
      DescriptionPacket_Hash16k (descriptionpacket f) = h16).
Proof.
  intros -> Ef Ev. unfold is_perfect. cbn [mbind option_bind]. rewrite Ef. cbn [mbind option_bind]. rewrite Ev. cbn [mbind option_bind].
  eexists. split; [reflexivity|]. rewrite !andb_true_iff, !bool_decide_eq_true, !Z.eqb_eq. naive_solver.
Qed.

(** ** [FindMatch] in any window *)

Section Find.
Context (blocks : list DataBlock) (complete : nat → bool) (FileSize : nat → Z).
Context (blocksize filesize : nat) (c : FileCheckSummer) (diskfile : nat) (scratch : MD5Single).

Local Abbreviation wrong_length := (wrong_length blocks blocksize filesize c).
Local Abbreviation unused_loop := (unused_loop blocks FileSize blocksize filesize c).
Local Abbreviation prefer_loop := (prefer_loop blocks FileSize blocksize filesize c).

Lemma wrong_length_total e : has_block blocks e → ∃ w, wrong_length e = Some w.
Proof. intros [b Hb]%lookup_lt_is_Some_2. unfold HashTable.wrong_length, datablock_of. rewrite Hb. eauto. Qed.

Lemma unused_loop_total t : Forall (has_block blocks) (chain t) → ∃ r, unused_loop t = Some r ∧ ∀ e, r = Some e → e ∈ chain t.
Proof.
  induction t as [|e l _ r _ s IH]; cbn [HashTable.unused_loop chain]; [by exists None|].
  intros [He Hs]%Forall_cons. destruct (entry_set_ok blocks FileSize e He) as [isset ->], (wrong_length_total e He) as [w ->]. cbn [mbind option_bind].
  destruct (isset || w); [|exists (Some e); split; [done|intros e' [= <-]; by left]].
  destruct (IH Hs) as (x & -> & Hx). exists x. split; [done|]. intros e' E. right. by apply Hx.
Qed.

Lemma prefer_loop_total t sf next : Forall (has_block blocks) (chain t) →
  ∃ found next', prefer_loop t sf next = Some (found, next') ∧ (∀ e l r s, found = Entry e l r s → e ∈ chain t) ∧
    (next' = next ∨ ∀ e, e ∈ chain next' → e ∈ chain t).
Proof.
  revert next. induction t as [|e l _ r _ s IH]; intros next; cbn [HashTable.prefer_loop chain]; [intros _; exists Null, next; split; [done|]; split; [done|by left]|].
  intros [He Hs]%Forall_cons. destruct (entry_set_ok blocks FileSize e He) as [isset ->], (wrong_length_total e He) as [w ->]. cbn [mbind option_bind].
  destruct (negb (Nat.eqb (e_sourcefile e) sf) || isset || w).
  - destruct (IH (match next with Null => if negb (isset || w) then Entry e l r s else next | _ => next end) Hs) as (found & next' & -> & Hf & Hn).
    exists found, next'. split; [done|]. split; [intros e' l' r' s' E; right; by eapply Hf|].
    destruct Hn as [->|Hn]; [|right; intros e' He'; right; by apply Hn].
    destruct next as [|ne nl nr ns]; [|by left]. destruct (negb (isset || w)); [|by left]. right. done.
  - exists (Entry e l r s), next. split; [done|]. split; [intros e' l' r' s' [= <- _ _ _]; by left|by left].
Qed.

Lemma single_match_total e suggested : has_block blocks e →
  ∃ r dup, single_match blocks complete FileSize blocksize filesize c diskfile e suggested = Some (r, dup) ∧ ∀ e', r = Some e' → e' = e.
Proof.
  intros He. unfold single_match. destruct (wrong_length_total e He) as [w ->]. pose proof (lookup_lt_is_Some_2 _ _ He) as [b Eb].
  unfold datablock_of. rewrite Eb. cbn [mbind option_bind].
  repeat case_match; (eexists _, _; split; [reflexivity|]; intros e' E; first [discriminate|by injection E as <-]).
Qed.

Lemma choose_total t sf suggested : Forall (has_block blocks) (chain t) →
  ∃ r dup, choose blocks complete FileSize blocksize filesize c diskfile t sf suggested = Some (r, dup) ∧ ∀ e, r = Some e → e ∈ chain t.
Proof.
  destruct t as [|e l r s]; [by exists None, false|]. intros Hb. destruct s as [|e1 l1 r1 s1].
  { cbn [chain] in *. apply Forall_cons in Hb as [He _]. destruct (single_match_total e suggested He) as (x & dup & E & Hx).
    exists x, dup. split; [exact E|]. intros e' ->. rewrite (Hx e' eq_refl). by left. }
  set (t := Entry e l r (Entry e1 l1 r1 s1)) in *.
  change (choose blocks complete FileSize blocksize filesize c diskfile t sf suggested)
    with ('(found, nextentry) ← (match sf with Some sf => prefer_loop t sf Null | None => Some (Null, t) end);
      match found with
      | Entry e _ _ _ => Some (Some e, false)
      | Null => e ← unused_loop nextentry; Some (e, false)
      end). clearbody t.
  assert (∃ found next, (match sf with Some sf => prefer_loop t sf Null | None => Some (Null, t) end) = Some (found, next) ∧
    (∀ e l r s, found = Entry e l r s → e ∈ chain t) ∧ ∀ e, e ∈ chain next → e ∈ chain t) as (found & next & -> & Hf & Hn).
  { destruct sf as [sf|]; [|by exists Null, t]. destruct (prefer_loop_total t sf Null Hb) as (found & next & E & Hf & Hn).
    exists found, next. split; [exact E|]. split; [done|]. destruct Hn as [->|Hn]; [by intros e' He'%elem_of_nil|done]. }
  cbn [mbind option_bind]. destruct found as [|fe fl fr fs].
  2: { exists (Some fe), false. split; [done|]. intros e' [= <-]. by eapply Hf. }
  destruct (unused_loop_total next) as (x & -> & Hx).
  { apply Forall_forall. intros e' He'. rewrite Forall_forall in Hb. by apply Hb, Hn. }
  exists x, false. split; [done|]. intros e' ->. by apply Hn, Hx.
Qed.
End Find.

Section Scan.
Context (blocksize : nat) (windowtable : array) (file : list Z) (maxlength : Z) (fresh : HasherInput) (scratch : MD5Single).
Hypothesis Hbs : (0 < blocksize)%nat.
Hypothesis Hbs64 : Z.of_nat blocksize < 2 ^ 64 - 64.
Hypothesis Htable : GenerateWindowTable (Z.of_nat blocksize) = Some windowtable.
Hypothesis Hfile : Forall (in_range 8) file.
Hypothesis Hsize : Z.of_nat (length file) ≤ MaxOffset.
Hypothesis Hmax : 0 < maxlength.
Hypothesis Hfresh : length (h_tmp fresh) = 128%nat.
Hypothesis Hscratch : length (tmp scratch) = 64%nat.

Local Abbreviation F := (length file).
Local Abbreviation inv := (inv blocksize file).
Local Abbreviation cur c := (currentoffset (win c)).

(** A block of bytes that starts with the bytes of the file at [pos], as far as a block of [L]
    bytes lies inside the file *)
Definition starts_at (pos L : nat) (W : list Z) : Prop :=
  length W = blocksize ∧ take (Nat.min L (F - pos)) W = slice file pos (Nat.min L (F - pos)).

Lemma extends_starts pos W L : (L ≤ blocksize)%nat → (pos ≤ F)%nat → extends blocksize file pos W → starts_at pos L W.
Proof.
  intros HL Hp [Hl Ht]. split; [done|]. rewrite (under_length blocksize file fresh Hbs Hfresh) in Ht by done.
  replace (Nat.min L (F - pos)) with (Nat.min (Nat.min L (F - pos)) (Nat.min blocksize (F - pos))) by lia.
  rewrite <- take_take, Ht. unfold under, slice. rewrite take_take. f_equal; lia.
Qed.

Lemma Hash_extends c : inv c → (cur c < F)%nat → ∃ W, extends blocksize file (cur c) W ∧ Hash blocksize c scratch = Some (md5 W).
Proof.
  intros Hi Hcur. destruct (i_live _ _ _ Hi Hcur) as [_ Hw Hf _ (_ & _ & Hb)]. unfold Hash. destruct (hasblockhash c).
  { destruct (Hb eq_refl) as (W & HW & ->). eauto. }
  exists (slice (buffer (win c)) (outpointer (win c)) blocksize). split.
  - split; [apply length_slice; rewrite (w_length _ _ _ Hw); pose proof (w_out _ _ _ Hw); lia|].
    rewrite (under_length blocksize file fresh Hbs Hfresh) by lia. rewrite <- (under_buffer blocksize file fresh Hbs Hfresh _ Hw Hf). unfold slice. rewrite take_take. f_equal; lia.
  - apply end_ok, (update_ok _ []), reset_ok, Hscratch.
Qed.

Lemma ShortHash_zeros c L : inv c → (cur c < F)%nat → (L ≤ blocksize)%nat →
  ∃ W, starts_at (cur c) L W ∧ drop L W = replicate (blocksize - L) 0 ∧ ShortHash blocksize c L scratch = Some (md5 W).
Proof.
  intros Hi Hcur HL. destruct (i_live _ _ _ Hi Hcur) as [_ Hw Hf _ _]. pose proof (w_out _ _ _ Hw) as Ho. pose proof (w_length _ _ _ Hw) as Hl.
  set (b := slice (buffer (win c)) (outpointer (win c)) L). assert (length b = L) as Hb by (apply length_slice; lia).
  exists (b ++ replicate (blocksize - L) 0). split.
  - split; [rewrite length_app, length_replicate; lia|]. rewrite take_app_le by lia. pose proof (under_buffer blocksize file fresh Hbs Hfresh _ Hw Hf) as E.
    unfold b, slice. rewrite take_take. replace (Nat.min (Nat.min L (F - cur c)) L) with (Nat.min (Nat.min L (F - cur c)) (Nat.min blocksize (F - cur c))) by lia.
    rewrite <- take_take. change (take (Nat.min blocksize (F - cur c)) (drop (outpointer (win c)) (buffer (win c))))
      with (slice (buffer (win c)) (outpointer (win c)) (Nat.min blocksize (F - cur c))). rewrite E. unfold under, slice. rewrite take_take. f_equal; lia.
  - split; [by apply drop_app_length'|]. unfold ShortHash. fold b. assert (md5_rep (update (reset scratch) b) b) as Hrep by (apply (update_ok _ []), reset_ok, Hscratch).
    destruct (Nat.ltb_spec L blocksize); [by apply end_ok, updateZero_ok|]. replace (blocksize - L)%nat with 0%nat by lia. rewrite app_nil_r. by apply end_ok.
Qed.

Lemma ShortChecksum_total c L : inv c → (cur c < F)%nat → (L ≤ blocksize)%nat → ∃ crc, ShortChecksum blocksize c L = Some crc.
Proof.
  intros Hi Hcur HL. destruct (i_live _ _ _ Hi Hcur) as [_ Hw _ _ _]. unfold ShortChecksum.
  set (b := slice (buffer (win c)) (outpointer (win c)) L). assert (Forall (in_range 8) b) as Hb by (by apply Forall_slice, (w_bytes _ _ _ Hw)).
  rewrite CRC32_Calc_ok by done. cbn [mbind option_bind]. destruct (Nat.ltb_spec L blocksize); [|eauto].
  rewrite CRCUpdateBlock_zeros_ok; [cbn [mbind option_bind]; eauto|].
  apply in_range_lxor; [lia|split; simpl; lia|]. by apply crc32_range.
Qed.
(** What the hash of a found block says: it is that of a block of bytes that starts with the
    bytes of the file there; or, when the hash of a short last block that was expected is used
    again for the search of the table, of those of the short block followed by zeros, while
    the CRC is that of the window. *)
Definition hash_fits (pos L : nat) (e : VerificationHashEntry) : Prop :=
  ∃ W, e_hash e = md5 W ∧
    (starts_at pos L W ∨
     ∃ k, starts_at pos k W ∧ drop k W = replicate (blocksize - k) 0 ∧
       ((pos + blocksize ≤ F)%nat → e_crc e = crc32 (slice file pos blocksize))).

Definition block_fits (b : DataBlock) : Prop := 0 < b_length b ≤ Z.of_nat blocksize.

(** ** The first of the matching entries *)

Section First.
Context (blocks : list DataBlock) (complete : nat → bool) (FileSize : nat → Z) (c : FileCheckSummer) (diskfile : nat) (e0 : VerificationHashEntry) (b0 : DataBlock).
Hypothesis Hb0 : blocks !! e_datablock e0 = Some b0.
Hypothesis Hunset : IsSet FileSize b0 = false.
Hypothesis Hlength : b_length b0 = Z.of_nat (BlockLength blocksize F c).

Lemma right_length : wrong_length blocks blocksize F c e0 = Some false.
Proof. unfold wrong_length, datablock_of. rewrite Hb0. cbn [mbind option_bind]. rewrite Hlength, Z.eqb_refl. by rewrite andb_false_r. Qed.

Lemma prefer_loop_first t next l1 l2 : chain t = l1 ++ e0 :: l2 → Forall (has_block blocks) (chain t) → Forall (λ e, e_sourcefile e ≠ e_sourcefile e0) l1 →
  ∃ l r s next', prefer_loop blocks FileSize blocksize F c t (e_sourcefile e0) next = Some (Entry e0 l r s, next').
Proof.
  revert next l1. induction t as [|e l _ r _ s IH]; intros next l1 E Hb Hl; cbn [chain] in E; [by destruct l1|]. cbn [chain] in Hb. apply Forall_cons in Hb as [He Hs].
  cbn [HashTable.prefer_loop]. destruct l1 as [|e1 l1]; cbn [app] in E.
  - injection E as -> _. unfold HashTable.entry_set, datablock_of. rewrite Hb0. cbn [mbind option_bind]. rewrite right_length. cbn [mbind option_bind].
    rewrite Hunset, Nat.eqb_refl. cbn [negb orb]. eauto.
  - injection E as -> E. apply Forall_cons in Hl as [Hne Hl]. destruct (entry_set_ok blocks FileSize e1 He) as [isset ->].
    destruct (wrong_length_total blocks blocksize F c e1 He) as [w ->]. cbn [mbind option_bind]. rewrite (proj2 (Nat.eqb_neq _ _) Hne). cbn [negb orb].
    by apply (IH _ l1).
Qed.

Lemma choose_first t l1 l2 suggested : chain t = l1 ++ e0 :: l2 → Forall (has_block blocks) (chain t) → Forall (λ e, e_sourcefile e ≠ e_sourcefile e0) l1 →
  complete (e_sourcefile e0) = false → e_firstblock e0 = true → currentoffset (win c) = 0%nat →
  choose blocks complete FileSize blocksize F c diskfile t (Some (e_sourcefile e0)) suggested = Some (Some e0, false).
Proof.
  intros E Hb Hl Hc Hf Hcur. destruct t as [|e l r s]; [by destruct l1|]. destruct s as [|e1 l1' r1 s1].
  { cbn [chain] in E. destruct l1 as [|x l1]; [|by destruct l1]. injection E as -> _. cbn [choose]. unfold single_match. rewrite Hc, right_length, Hf, Hcur. done. }
  set (t := Entry e l r (Entry e1 l1' r1 s1)) in *.
  change (choose blocks complete FileSize blocksize F c diskfile t (Some (e_sourcefile e0)) suggested)
    with ('(found, nextentry) ← prefer_loop blocks FileSize blocksize F c t (e_sourcefile e0) Null;
      match found with
      | Entry e _ _ _ => Some (Some e, false)
      | Null => e ← unused_loop blocks FileSize blocksize F c nextentry; Some (e, false)
      end). clearbody t.
  by destruct (prefer_loop_first t Null l1 l2 E Hb Hl) as (? & ? & ? & ? & ->).
Qed.
End First.

Section Match.
Context (t : VerificationHashTable) (es : list VerificationHashEntry) (FileSize : nat → Z) (diskfile : nat).
Hypothesis Ht : table_ok t es.
Hypothesis Hes : Forall entry_ok es.
Hypothesis Hlink : linked t es.

(** The suggestion is the match, or the hash that is kept for the search is that of a window or
    of a short block. *)
Lemma try_suggested_total blocks c s : inv c → (cur c < F)%nat → Forall (has_block blocks) es → Forall block_fits blocks → s ∈ es →
  ∃ found have, try_suggested blocks FileSize blocksize c scratch t s = Some (found, have) ∧
    (found = true → ∀ b, blocks !! e_datablock s = Some b → ∃ W, starts_at (cur c) (Z.to_nat (b_length b)) W ∧ e_hash s = md5 W) ∧
    (∀ h, have = Some h → ∃ W, h = md5 W ∧ (extends blocksize file (cur c) W ∨ ∃ k, starts_at (cur c) k W ∧ drop k W = replicate (blocksize - k) 0)).
Proof.
  intros Hi Hcur Hb Hf Hs. rewrite Forall_forall in Hb. destruct (lookup_lt_is_Some_2 _ _ (Hb s Hs)) as [b Eb].
  pose proof (proj1 (Forall_lookup _ _) Hf _ _ Eb) as [Hb0 HbL]. unfold try_suggested, datablock_of. rewrite Eb. cbn [mbind option_bind].
  destruct (nexts t !! e_id s).
  - destruct (negb _ && _); [|by (exists false, None; split; [done|split; done])]. destruct (Hash_extends c Hi Hcur) as (W & HW & ->). cbn [mbind option_bind].
    eexists _, _. split; [reflexivity|]. split; [|intros h [= <-]; eauto]. unfold md5_equal. intros E%bool_decide_eq_true b' [= <-].
    exists W. split; [|done]. apply extends_starts; [lia|lia|done].
  - set (L := Z.to_nat (b_length b)). destruct (ShortChecksum_total c L Hi Hcur ltac:(lia)) as [crc ->]. cbn [mbind option_bind].
    destruct (_ =? _); [|by (exists false, None; split; [done|split; done])]. destruct (ShortHash_zeros c L Hi Hcur ltac:(lia)) as (W & HW & Hz & ->). cbn [mbind option_bind].
    eexists _, _. split; [reflexivity|]. split; [|intros h [= <-]; exists W; split; [done|]; right; by exists L]. unfold md5_equal. intros E%bool_decide_eq_true b' [= <-]. eauto.
Qed.

Lemma FindMatch_any blocks complete c suggested sf : inv c → (cur c < F)%nat → Forall (has_block blocks) es → Forall block_fits blocks →
  (∀ s, suggested = Some s → s ∈ es) →
  ∃ r dup, FindMatch blocks complete FileSize blocksize F c diskfile scratch t suggested sf = Some (r, dup) ∧
    ∀ e, r = Some e → e ∈ es ∧ ∀ b, blocks !! e_datablock e = Some b → hash_fits (cur c) (Z.to_nat (b_length b)) e.
Proof.
  intros Hi Hcur Hb Hf Hsug. unfold FindMatch.
  assert (∃ found have, (match suggested with Some s => try_suggested blocks FileSize blocksize c scratch t s | None => Some (false, None) end) = Some (found, have) ∧
    (found = true → ∃ s, suggested = Some s ∧ s ∈ es ∧
      ∀ b, blocks !! e_datablock s = Some b → ∃ W, starts_at (cur c) (Z.to_nat (b_length b)) W ∧ e_hash s = md5 W) ∧
    (∀ h, have = Some h → ∃ W, h = md5 W ∧ (extends blocksize file (cur c) W ∨ ∃ k, starts_at (cur c) k W ∧ drop k W = replicate (blocksize - k) 0)))
    as (found & have & -> & Hfound & Hhave).
  { destruct suggested as [s|]; [|by (exists false, None; split; [done|split; done])]. specialize (Hsug s eq_refl).
    destruct (try_suggested_total blocks c s Hi Hcur Hb Hf Hsug) as (found & have & E & H1 & H2). exists found, have. split; [exact E|]. split; [|exact H2].
    intros Et. exists s. auto. }
  cbn [mbind option_bind]. destruct found.
  { destruct (Hfound eq_refl) as (s & -> & Hs & Hsb). exists (Some s), false. split; [done|]. intros e [= <-]. split; [done|].
    intros b Eb. destruct (Hsb b Eb) as (W & H1 & H2). exists W. auto. }
  destruct (slot_lookup t es (checksum c) Ht) as [tree Etree]. fold (slot t (checksum c)). rewrite Etree. cbn [mbind option_bind].
  destruct (t_trees _ _ Ht _ _ Etree) as [Hbst Hok].
  assert (∃ W, (match have with Some h => Some h | None => Hash blocksize c scratch end) = Some (md5 W) ∧
    (extends blocksize file (cur c) W ∨ ∃ k, starts_at (cur c) k W ∧ drop k W = replicate (blocksize - k) 0)) as (W & Ehash & HW).
  { destruct have as [h|]; [destruct (Hhave h eq_refl) as (W & -> & HW); eauto|]. destruct (Hash_extends c Hi Hcur) as (W & HW & ->). eauto. }
  pose proof (search_ok tree (checksum c) (md5 W) Hbst Hok (md5_hash_ok W)) as Hsearch.
  destruct (Search_crc tree (checksum c)) as [|e l r s]; [by exists None, false|]. rewrite Ehash. cbn [mbind option_bind].
  destruct Hsearch as (t' & -> & Hchain). cbn [mbind option_bind]. rewrite (t_entries _ _ Ht _ _ tree (md5_hash_ok W) Etree) in Hchain.
  destruct (choose_total blocks complete FileSize blocksize F c diskfile t' sf suggested) as (x & dup & -> & Hx).
  { rewrite Hchain. apply Forall_forall. intros e' [_ He']%list_elem_of_filter. rewrite Forall_forall in Hb. by apply Hb. }
  exists x, dup. split; [done|]. intros e' ->. specialize (Hx e' eq_refl). rewrite Hchain in Hx.
  destruct (elem_of_with_key t es _ _ e' Ht (md5_hash_ok W) Hx) as (He' & Ec & Eh). split; [done|]. intros b Eb.
  pose proof (proj1 (Forall_lookup _ _) Hf _ _ Eb) as [Hb0 HbL]. exists W. split; [done|].
  destruct HW as [HW|(k & Hk & Hz)]; [left; apply extends_starts; [lia|lia|done]|]. right. exists k. split; [done|]. split; [done|].
  intros Hin. rewrite Ec. destruct (i_live _ _ _ Hi Hcur) as [_ _ _ _ (_ & Hsum & _)]. rewrite <- (under_full blocksize file) by done. by apply Hsum.
Qed.
End Match.

(** ** The loop *)

Section Loop.
Context (t : VerificationHashTable) (es : list VerificationHashEntry).
Context (sourcefiles : list (option Par2RepairerSourceFile)) (FileSize : nat → Z) (diskfile : nat).
Context (blocksallocated renameonly skipdata : bool) (skipleaway : Z).
Hypothesis Ht : table_ok t es.
Hypothesis Hes : Forall entry_ok es.
Hypothesis Hlink : linked t es.
(** The blocks before the scan *)
Context (blocks0 : list DataBlock).
Hypothesis Hblocks : Forall (has_block blocks0) es.
Hypothesis Hfits : Forall block_fits blocks0.

Local Abbreviation scan_step := (scan_step t sourcefiles FileSize diskfile blocksize F windowtable maxlength scratch blocksallocated renameonly skipdata skipleaway).
Local Abbreviation scan_loop := (scan_loop t sourcefiles FileSize diskfile blocksize F windowtable maxlength scratch blocksallocated renameonly skipdata skipleaway).
Local Abbreviation Offset s := (currentoffset (win (s_checksummer s))).

(** Block [j] is as it was before, or it was located in the file, with the hash of its entry *)
Definition rightly_located (j : nat) (b : DataBlock) : Prop :=
  blocks0 !! j = Some b ∨
  ∃ b0 pos e, blocks0 !! j = Some b0 ∧ b = SetLocation b0 diskfile (Z.of_nat pos) ∧ (pos < F)%nat ∧
    e ∈ es ∧ e_datablock e = j ∧ hash_fits pos (Z.to_nat (b_length b0)) e.

Record scan_ok (s : scanning) : Prop := {
  so_inv : inv (s_checksummer s);
  so_length : length (s_blocks s) = length blocks0;
  so_blocks : ∀ j b, s_blocks s !! j = Some b → rightly_located j b;
  so_next : ∀ e, s_next s = Some e → e ∈ es;
  so_source : 0 < s_count s → ∃ e, e ∈ es ∧ s_sourcefile s = Some (e_sourcefile e);
  so_count : 0 ≤ s_count s;
}.

Lemma located_same b j : rightly_located j b → ∃ b0, blocks0 !! j = Some b0 ∧ b_length b = b_length b0 ∧
  ∀ pos, SetLocation b diskfile pos = SetLocation b0 diskfile pos.
Proof. intros [H|(b0 & pos & e & H & -> & _)]; eauto. Qed.

Lemma rightly_fits blocks : length blocks = length blocks0 → (∀ j b, blocks !! j = Some b → rightly_located j b) →
  Forall (has_block blocks) es ∧ Forall block_fits blocks.
Proof.
  intros Hl Hb. split; [eapply Forall_impl; [exact Hblocks|]; intros e He; unfold has_block in *; by rewrite Hl|].
  apply Forall_lookup. intros j b Hj. destruct (located_same b j (Hb j b Hj)) as (b0 & E & El & _).
  rewrite Forall_lookup in Hfits. specialize (Hfits j b0 E). unfold block_fits in *. by rewrite El.
Qed.

Lemma Next_in e e' : e ∈ es → Next t e = Some e' → e' ∈ es.
Proof.
  intros [i Hi]%list_elem_of_lookup H. rewrite (Next_ok t es i e Ht Hes Hlink Hi) in H.
  destruct (es !! S i) as [x|] eqn:Es; [|done]. destruct (e_firstblock x); [done|]. injection H as ->. by apply list_elem_of_lookup_2 in Es.
Qed.

(** Neither a jump nor a step fails, and both go forward *)
Lemma moves_forward c n : inv c → (cur c < F)%nat → (0 < n)%nat →
  (∃ c', Jump blocksize windowtable F maxlength c n = Some (true, c') ∧ inv c' ∧ (cur c < cur c')%nat) ∧
  (∃ c', Step blocksize windowtable F maxlength c = Some (true, c') ∧ inv c' ∧ (cur c < cur c')%nat).
Proof.
  intros Hi Hcur Hn. split.
  - destruct (Jump_ok blocksize windowtable file maxlength fresh Hbs Hbs64 Htable Hfile Hsize Hmax Hfresh c n Hi Hcur Hn) as (c' & E & Hi' & Hc).
    exists c'. split; [exact E|]. split; [done|]. lia.
  - destruct (Step_ok blocksize windowtable file maxlength fresh Hbs Htable Hfile Hsize Hmax Hfresh c Hi Hcur) as (c' & E & Hi' & Hc).
    exists c'. split; [exact E|]. split; [done|]. lia.
Qed.

Lemma scanskip_nonneg : 0 ≤ scanskip blocksize skipdata skipleaway.
Proof. unfold scanskip, scandistance. destruct skipdata; lia. Qed.

Lemma no_match_ok s : scan_ok s → (Offset s < F)%nat →
  ∃ returned s', no_match blocksize F windowtable maxlength renameonly skipdata skipleaway s = Some (returned, s') ∧ scan_ok s' ∧
    match returned with Some b => b = true ∧ renameonly = true ∧ s_matchtype s' = ePartialMatch | None => (Offset s < Offset s')%nat end.
Proof.
  intros [Hi Hl Hb Hn Hs Hc] Hcur. unfold no_match. destruct renameonly eqn:Er; [eexists _, _; split; [reflexivity|]; by split|].
  destruct (moves_forward _ 1 Hi Hcur ltac:(lia)) as [_ (c & -> & Hi' & Hf)]. cbn [mbind option_bind negb].
  destruct (Z.ltb_spec 0 (scanskip blocksize skipdata skipleaway)); [|eexists _, _; split; [reflexivity|]; by split].
  destruct (_ && _) eqn:Eb; [|eexists _, _; split; [reflexivity|]; by split].
  apply andb_true_iff in Eb as [_ Hlt%Nat.ltb_lt].
  destruct (moves_forward c (Z.to_nat (scanskip blocksize skipdata skipleaway)) Hi' Hlt ltac:(lia)) as [(c2 & -> & Hi2 & Hf2) _].
  cbn [mbind option_bind negb]. eexists _, _. split; [reflexivity|]. split; [by split|]. cbn [s_checksummer]. lia.
Qed.

Lemma found_match_ok s e : scan_ok s → (Offset s < F)%nat → e ∈ es →
  (∀ b, s_blocks s !! e_datablock e = Some b → hash_fits (Offset s) (Z.to_nat (b_length b)) e) →
  ∃ returned s', found_match t diskfile blocksize F windowtable maxlength blocksallocated renameonly skipleaway s e = Some (returned, s') ∧ scan_ok s' ∧
    match returned with Some b => b = true ∧ renameonly = true ∧ s_matchtype s' = ePartialMatch | None => (Offset s < Offset s')%nat end.
Proof.
  intros [Hi Hl Hb Hn Hs Hc] Hcur He Hfit. unfold found_match, note_match.
  set (partial := if s_count s =? 0 then _ else _). set (s1 := {| s_checksummer := _ |}).
  assert (scan_ok s1 ∧ s_sourcefile s1 = (if s_count s =? 0 then Some (e_sourcefile e) else s_sourcefile s)) as [Hs1 Esrc].
  { split; [|done]. split; try done. cbn [s_count s1 s_sourcefile]. intros H0. rewrite (proj2 (Z.eqb_neq _ 0)) by lia. by apply Hs. }
  clearbody partial. destruct (partial && renameonly) eqn:Ep; cbn [negb].
  { apply andb_true_iff in Ep as [-> Er]. eexists _, _. split; [reflexivity|]. by split. }
  change (s_blocks s1) with (s_blocks s). change (s_checksummer s1) with (s_checksummer s). change (s_count s1) with (s_count s).
  set (blocks := if blocksallocated then _ else _).
  assert (length blocks = length blocks0 ∧ ∀ j b, blocks !! j = Some b → rightly_located j b) as [Hl' Hb'].
  { unfold blocks. destruct blocksallocated; [|done]. split; [by rewrite length_alter|]. intros j b.
    destruct (decide (j = e_datablock e)) as [->|Hne]; [|rewrite list_lookup_alter_ne by done; apply Hb].
    rewrite list_lookup_alter_eq. intros (b1 & Hb1 & ->)%fmap_Some. destruct (located_same b1 _ (Hb _ _ Hb1)) as (b0 & E0 & El & Eloc).
    right. exists b0, (Offset s), e. rewrite Eloc, <- El. split_and!; try done. by apply Hfit. }
  clearbody blocks. rewrite Forall_forall in Hblocks. pose proof (Hblocks e He) as Hin. unfold has_block in Hin. rewrite <- Hl' in Hin.
  destruct (lookup_lt_is_Some_2 _ _ Hin) as [b Eb]. rewrite Eb. cbn [mbind option_bind].
  destruct (located_same b _ (Hb' _ _ Eb)) as (b0 & E0 & El & _). rewrite Forall_lookup in Hfits. destruct (Hfits _ _ E0) as [Hpos _].
  destruct (moves_forward _ (Z.to_nat (b_length b)) Hi Hcur ltac:(lia)) as [(c & -> & Hi' & Hf) _]. cbn [mbind option_bind negb].
  eexists _, _. split; [reflexivity|]. split; [|done]. split; cbn [s_checksummer s_blocks s_next s_count s_sourcefile]; try done.
  - intros e' He'. by eapply Next_in.
  - intros _. rewrite Esrc. destruct (Z.eqb_spec (s_count s) 0); [by exists e|]. apply Hs. lia.
  - by apply in_range_wrap.
Qed.

Lemma scan_step_ok s : scan_ok s → (Offset s < F)%nat →
  ∃ returned s', scan_step s = Some (returned, s') ∧ scan_ok s' ∧
    match returned with Some b => b = true ∧ renameonly = true ∧ s_matchtype s' = ePartialMatch | None => (Offset s < Offset s')%nat end.
Proof.
  intros Hs Hcur. destruct (rightly_fits _ (so_length _ Hs) (so_blocks _ Hs)) as [Hb Hf]. unfold RepairScan.scan_step.
  destruct (FindMatch_any t es FileSize diskfile Ht (s_blocks s) (complete sourcefiles) (s_checksummer s) (s_next s) (s_sourcefile s)
    (so_inv _ Hs) Hcur Hb Hf (so_next _ Hs)) as (r & dup & -> & Hr). cbn [mbind option_bind].
  destruct r as [e|]; [|by apply no_match_ok]. destruct (Hr e eq_refl) as [He Hfit]. by apply found_match_ok.
Qed.

Lemma scan_loop_ok fuel s : scan_ok s → (F - Offset s ≤ fuel)%nat →
  ∃ returned s', scan_loop fuel s = Some (returned, s') ∧ scan_ok s' ∧
    match returned with Some b => b = true ∧ renameonly = true ∧ s_matchtype s' = ePartialMatch | None => Offset s' = F end.
Proof.
  revert s. induction fuel as [|fuel IH]; intros s Hs Hfuel; cbn [RepairScan.scan_loop]; destruct (Nat.ltb_spec (Offset s) F) as [Hlt|Hge].
  - lia.
  - exists None, s. split; [done|]. split; [done|]. pose proof (i_cur _ _ _ (so_inv _ Hs)). lia.
  - destruct (scan_step_ok s Hs Hlt) as (returned & s1 & -> & Hs1 & Hr). cbn [mbind option_bind].
    destruct returned as [b|]; [by exists (Some b), s1|]. apply IH; [done|]. lia.
  - exists None, s. split; [done|]. split; [done|]. pose proof (i_cur _ _ _ (so_inv _ Hs)). lia.
Qed.

Lemma scan_start c sourcefile : constructed blocksize file c →
  ∃ c', Start blocksize F maxlength fresh c = Some (true, c') ∧ cur c' = 0%nat ∧ inv c' ∧
  ∀ matchtype scanoffset, scan_ok {| s_checksummer := c'; s_blocks := blocks0; s_sourcefile := sourcefile; s_matchtype := matchtype;
    s_count := 0; s_next := None; s_scanoffset := scanoffset |}.
Proof.
  intros [H1 H2 H3 H4 H5]. destruct (Start_ok blocksize file maxlength fresh Hbs Hbs64 Hfile Hsize Hmax Hfresh c H1 H2 H3 H4 H5) as (c' & E & Hi & Hc).
  exists c'. split; [exact E|]. split; [done|]. split; [done|]. intros m o. split; cbn [s_checksummer s_blocks s_next s_count s_sourcefile]; try done. intros j b. by left.
Qed.

(** A full match: the file has the size and the hashes of the description packet *)
Definition full_match (r : ScanResult) : Prop :=
  ∃ i f v, r_sourcefile r = Some i ∧ mjoin (sourcefiles !! i) = Some f ∧ verificationpacket f = Some v ∧ r_count r = v_blockcount v ∧
    FileSizeOf f = Z.of_nat F ∧ DescriptionPacket_HashFull (descriptionpacket f) = md5 file ∧
    DescriptionPacket_Hash16k (descriptionpacket f) = md5 (take k16 file).

Local Abbreviation ScanDataFile := (ScanDataFile t sourcefiles FileSize diskfile blocksize F windowtable maxlength fresh scratch blocksallocated renameonly skipdata skipleaway).

Lemma ScanDataFile_ok c sourcefile count : constructed blocksize file c →
  Forall (λ e, ∃ f v, mjoin (sourcefiles !! e_sourcefile e) = Some f ∧ verificationpacket f = Some v) es →
  ∃ r, ScanDataFile c blocks0 sourcefile count = Some r ∧ r_result r = true ∧ length (r_blocks r) = length blocks0 ∧
    (∀ j b, r_blocks r !! j = Some b → rightly_located j b) ∧
    (∀ h, r_hashes r = Some h → h = (md5 file, md5 (take k16 file))) ∧
    (r_matchtype r = Some eFullMatch → full_match r) ∧ ((0 < F)%nat → renameonly = false → r_matchtype r ≠ None ∧ r_hashes r ≠ None).
Proof.
  intros Hc Hknown. unfold RepairScan.ScanDataFile. destruct (negb _ && _) eqn:E0.
  { apply andb_true_iff in E0 as [_ E0%Nat.eqb_eq]. eexists. split; [reflexivity|]. split; [done|]. split; [done|]. split; [intros j b; by left|].
    split; [done|]. split; [done|]. cbn. lia. }
  destruct (scan_start c sourcefile Hc) as (c1 & -> & _ & _ & Hok). cbn [mbind option_bind negb].
  destruct (scan_loop_ok F _ (Hok eFullMatch (Z.shiftr (scandistance blocksize skipleaway) 1)) ltac:(lia)) as (returned & s & -> & Hs & Hr).
  cbn [mbind option_bind]. destruct Hs as [Hi Hl Hb Hn Hsrc Hcount]. destruct returned as [b|].
  { destruct Hr as (-> & Hre & Hm). eexists. split; [reflexivity|]. cbn [r_result r_blocks r_hashes r_matchtype]. rewrite Hm. split_and!; try done.
    intros _. congruence. }
  rewrite (GetFileHashes_ok blocksize file fresh) by done. cbn [mbind option_bind].
  assert (∃ m, (if 0 <? s_count s then
       match s_matchtype s with
       | eFullMatch => perfect ← is_perfect sourcefiles F (s_sourcefile s) (s_count s) (md5 file) (md5 (take k16 file));
                       Some (if (perfect : bool) then eFullMatch else ePartialMatch)
       | _ => Some ePartialMatch
       end else Some eNoMatch) = Some m ∧
     (m = eFullMatch → ∃ i f v, s_sourcefile s = Some i ∧ mjoin (sourcefiles !! i) = Some f ∧ verificationpacket f = Some v ∧ s_count s = v_blockcount v ∧
       FileSizeOf f = Z.of_nat F ∧ DescriptionPacket_HashFull (descriptionpacket f) = md5 file ∧
       DescriptionPacket_Hash16k (descriptionpacket f) = md5 (take k16 file))) as (m & -> & Hm).
  { destruct (Z.ltb_spec 0 (s_count s)) as [H0|]; [|by eexists]. destruct (s_matchtype s); [by eexists|by eexists|].
    destruct (Hsrc H0) as (e & He & Esrc). rewrite Forall_forall in Hknown. destruct (Hknown e He) as (f & v & Ef & Ev).
    destruct (is_perfect_ok sourcefiles F (s_sourcefile s) (s_count s) (md5 file) (md5 (take k16 file)) f _ v Esrc Ef Ev) as (b & -> & Hb'). cbn [mbind option_bind].
    eexists. split; [reflexivity|]. destruct b; [|done]. intros _. destruct (proj1 Hb' eq_refl) as (? & ? & ? & ?). by exists (e_sourcefile e), f, v. }
  cbn [mbind option_bind]. eexists. split; [reflexivity|]. cbn [r_result r_blocks r_hashes r_matchtype]. split_and!; try done.
  - by intros h [= <-].
  - intros [= ->]. unfold full_match. cbn [r_sourcefile r_count]. by apply Hm.
Qed.
End Loop.

(** ** A file that is intact *)

Section Intact.
Context (t : VerificationHashTable) (es : list VerificationHashEntry).
Context (sourcefiles : list (option Par2RepairerSourceFile)) (FileSize : nat → Z) (diskfile : nat).
Context (blocksallocated renameonly skipdata : bool) (skipleaway : Z) (blocks0 : list DataBlock).
Hypothesis Ht : table_ok t es.
Hypothesis Hlink : linked t es.
Hypothesis Hblocks : Forall (has_block blocks0) es.

(** Block [k] of the file *)
Definition block_entry (i first base k : nat) : VerificationHashEntry :=
  new_entry (Z.of_nat (base + k)) i (first + k) (Nat.eqb k 0) (crc32 (padded blocksize file (k * blocksize))) (md5 (padded blocksize file (k * blocksize))).

(** The file is source file [i], whose [n] blocks start with block [first]; its entries are
    those from number [base] on, and none of its blocks was found before. *)
Record intact (i first n base : nat) : Prop := {
  in_count : (0 < n)%nat ∧ ((n - 1) * blocksize < F ≤ n * blocksize)%nat;
  in_entries : ∀ k, (k < n)%nat → es !! (base + k)%nat = Some (block_entry i first base k);
  in_end : ∀ e, es !! (base + n)%nat = Some e → e_firstblock e = true;
  in_before : ∀ j e, es !! j = Some e → e_sourcefile e = i → (base ≤ j)%nat;
  in_blocks : ∀ k, (k < n)%nat → ∃ b, blocks0 !! (first + k)%nat = Some b ∧ IsSet FileSize b = false ∧
    b_length b = Z.of_nat (Nat.min blocksize (F - k * blocksize));
  in_incomplete : complete sourcefiles i = false;
}.

Context (i first n base : nat).
Hypothesis Hin : intact i first n base.

Local Abbreviation FindMatch blocks c := (FindMatch blocks (complete sourcefiles) FileSize blocksize F c diskfile scratch t).

Lemma FindMatch_first blocks c : length blocks = length blocks0 → blocks !! first = blocks0 !! first →
  cur c = 0%nat → checksum c = crc32 (padded blocksize file 0) → Hash blocksize c scratch = Some (md5 (padded blocksize file 0)) →
  FindMatch blocks c None (Some i) = Some (Some (block_entry i first base 0), false).
Proof.
  intros Hl Hfirst Hcur Hcrc Hhash. pose proof (in_count _ _ _ _ Hin) as [Hn _]. pose proof (in_entries _ _ _ _ Hin 0 Hn) as He. rewrite Nat.add_0_r in He.
  destruct (in_blocks _ _ _ _ Hin 0 Hn) as (b & Eb & Eset & El). rewrite Nat.add_0_r in Eb. set (e0 := block_entry i first base 0) in *.
  set (h := md5 (padded blocksize file 0)) in *. assert (hash_ok h) as Hh by apply md5_hash_ok.
  assert (e_datablock e0 = first ∧ e_crc e0 = checksum c ∧ e_hash e0 = h) as (Ed & Ec & Eh) by (unfold e0, block_entry; cbn; by rewrite Nat.add_0_r, Hcrc).
  unfold HashTable.FindMatch. cbn [mbind option_bind]. destruct (slot_lookup t es (checksum c) Ht) as [tree Etree]. fold (slot t (checksum c)).
  rewrite Etree. cbn [mbind option_bind]. destruct (t_trees _ _ Ht _ _ Etree) as [Hbst Hok]. pose proof (t_entries _ _ Ht (checksum c) h tree Hh Etree) as Ek.
  pose proof (search_ok tree (checksum c) h Hbst Hok Hh) as Hsearch.
  assert (with_key (key (checksum c) h) es = with_key (key (checksum c) h) (take base es) ++ e0 :: with_key (key (checksum c) h) (drop (S base) es)) as Esplit.
  { rewrite <- (take_drop_middle es base e0 He) at 1. rewrite with_key_app. f_equal. unfold with_key. rewrite filter_cons_True; [done|].
    unfold ekey. by rewrite Ec, Eh. }
  destruct (Search_crc tree (checksum c)) as [|e l r s].
  { rewrite Ek, Esplit in Hsearch. by destruct (with_key _ (take base es)). }
  rewrite Hhash. cbn [mbind option_bind]. destruct Hsearch as (t' & -> & Hchain). cbn [mbind option_bind]. rewrite Ek in Hchain.
  apply (choose_first blocks (complete sourcefiles) FileSize c diskfile e0 b) with (l1 := with_key (key (checksum c) h) (take base es)) (l2 := with_key (key (checksum c) h) (drop (S base) es)).
  - rewrite Ed, Hfirst. done.
  - done.
  - rewrite El. unfold BlockLength. rewrite Hcur. done.
  - by rewrite Hchain, Esplit.
  - rewrite Hchain. apply Forall_forall. intros e' [_ He']%list_elem_of_filter. rewrite Forall_forall in Hblocks. specialize (Hblocks e' He').
    unfold has_block in *. by rewrite Hl.
  - apply Forall_forall. intros e' [_ [j Hj]%list_elem_of_lookup]%list_elem_of_filter. apply lookup_take_Some in Hj as [Hj Hjb].
    intros E. pose proof (in_before _ _ _ _ Hin j e' Hj E). lia.
  - apply (in_incomplete _ _ _ _ Hin).
  - done.
  - done.
Qed.

Lemma FindMatch_expected blocks c k sf : inv c → cur c = (k * blocksize)%nat → (0 < k < n)%nat → blocks !! (first + k)%nat = blocks0 !! (first + k)%nat →
  FindMatch blocks c (Some (block_entry i first base k)) sf = Some (Some (block_entry i first base k), false).
Proof.
  intros Hi Hcur Hk Hbl. destruct (in_count _ _ _ _ Hin) as [_ Hn]. assert (cur c < F)%nat as Hlt by nia.
  destruct (in_blocks _ _ _ _ Hin k ltac:(lia)) as (b & Eb & Eset & El). rewrite <- Hbl in Eb. set (e := block_entry i first base k).
  assert (try_suggested blocks FileSize blocksize c scratch t e = Some (true, Some (md5 (padded blocksize file (k * blocksize))))) as Et.
  { unfold try_suggested, datablock_of. change (e_datablock e) with (first + k)%nat. rewrite Eb. cbn [mbind option_bind].
    change (e_id e) with (Z.of_nat (base + k)). rewrite (k_next _ _ Hlink (base + k) e (in_entries _ _ _ _ Hin k ltac:(lia))).
    change (e_crc e) with (crc32 (padded blocksize file (k * blocksize))). change (e_hash e) with (md5 (padded blocksize file (k * blocksize))).
    destruct (decide (S k = n)) as [<-|Hne].
    - assert (match es !! S (base + k) with Some e' => if e_firstblock e' then None else Some (Z.of_nat (S (base + k))) | None => None end = None) as ->.
      { destruct (es !! S (base + k)) as [e'|] eqn:Ee; [|done]. by rewrite (in_end _ _ _ _ Hin e') by (by rewrite Nat.add_succ_r). }
      rewrite El, Nat2Z.id. replace (Nat.min blocksize (F - k * blocksize)) with (BlockLength blocksize F c) by (unfold BlockLength; by rewrite Hcur).
      rewrite (ShortChecksum_ok blocksize file fresh) by done. cbn [mbind option_bind]. rewrite Hcur, Z.eqb_refl.
      rewrite (ShortHash_ok blocksize file fresh) by done. cbn [mbind option_bind]. rewrite Hcur. unfold md5_equal. by rewrite bool_decide_eq_true_2.
    - rewrite <- Nat.add_succ_r, (in_entries _ _ _ _ Hin (S k) ltac:(lia)). cbn [e_firstblock block_entry new_entry Nat.eqb]. rewrite Eset. cbn [negb andb].
      assert (cur c + blocksize ≤ F)%nat as Hfull by nia.
      assert (padded blocksize file (k * blocksize) = under blocksize file (cur c)) as ->.
      { unfold padded. rewrite <- Hcur. replace (blocksize - _)%nat with 0%nat by lia. apply app_nil_r. }
      destruct (i_live _ _ _ Hi Hlt) as [_ _ _ _ (_ & Hsum & _)]. destruct (Hsum Hfull) as [-> _]. rewrite Z.eqb_refl.
      rewrite (Hash_ok blocksize file fresh) by done. cbn [mbind option_bind]. unfold md5_equal. by rewrite bool_decide_eq_true_2. }
  unfold HashTable.FindMatch. rewrite Et. done.
Qed.

(** The blocks when the first [k] blocks of the file were located *)
Definition located_upto (k : nat) : list DataBlock :=
  imap (λ j b, if blocksallocated && Nat.leb first j && Nat.ltb j (first + k) then SetLocation b diskfile (Z.of_nat ((j - first) * blocksize)) else b) blocks0.

Lemma located_upto_other k j : (k ≤ j)%nat → located_upto k !! (first + j)%nat = blocks0 !! (first + j)%nat.
Proof.
  intros Hj. unfold located_upto. rewrite list_lookup_imap, (proj2 (Nat.ltb_ge _ _)) by lia. rewrite andb_false_r.
  by destruct (blocks0 !! (first + j)%nat).
Qed.

Lemma located_upto_0 : located_upto 0 = blocks0.
Proof.
  apply list_eq. intros j. unfold located_upto. rewrite list_lookup_imap. destruct (blocks0 !! j); [|done]. cbn [fmap option_fmap option_map].
  destruct (Nat.leb_spec first j); [|by rewrite andb_false_r]. rewrite (proj2 (Nat.ltb_ge _ _)) by lia. by rewrite andb_false_r.
Qed.

Lemma located_upto_S k :
  (if blocksallocated then alter (λ b, SetLocation b diskfile (Z.of_nat (k * blocksize))) (first + k)%nat (located_upto k) else located_upto k) = located_upto (S k).
Proof.
  unfold located_upto. destruct blocksallocated; [|done]. cbn [andb]. apply list_eq. intros j. destruct (decide (j = first + k)%nat) as [->|Hne].
  - rewrite list_lookup_alter_eq, !list_lookup_imap. destruct (blocks0 !! (first + k)%nat); [|done]. cbn [fmap option_fmap option_map].
    rewrite (proj2 (Nat.ltb_ge (first + k) (first + k))), (proj2 (Nat.ltb_lt _ _)), (proj2 (Nat.leb_le _ _)) by lia. cbn [andb]. do 3 f_equal. lia.
  - rewrite list_lookup_alter_ne, !list_lookup_imap by done. destruct (blocks0 !! j); [|done]. cbn [fmap option_fmap option_map].
    destruct (Nat.leb_spec first j); [|done]. cbn [andb]. by destruct (Nat.ltb_spec j (first + k)), (Nat.ltb_spec j (first + S k)); try lia.
Qed.

Record on_track (k : nat) (s : scanning) : Prop := {
  ot_inv : inv (s_checksummer s);
  ot_cur : currentoffset (win (s_checksummer s)) = Nat.min F (k * blocksize);
  ot_blocks : s_blocks s = located_upto k;
  ot_source : s_sourcefile s = Some i;
  ot_match : s_matchtype s = eFullMatch;
  ot_count : s_count s = Z.of_nat k;
  ot_next : s_next s = if decide (0 < k < n)%nat then Some (block_entry i first base k) else None;
  ot_sums : k = 0%nat → checksum (s_checksummer s) = crc32 (padded blocksize file 0) ∧
                      Hash blocksize (s_checksummer s) scratch = Some (md5 (padded blocksize file 0));
}.

Local Abbreviation scan_step := (scan_step t sourcefiles FileSize diskfile blocksize F windowtable maxlength scratch blocksallocated renameonly skipdata skipleaway).
Local Abbreviation scan_loop := (scan_loop t sourcefiles FileSize diskfile blocksize F windowtable maxlength scratch blocksallocated renameonly skipdata skipleaway).

Lemma Next_block k : (k < n)%nat → Forall entry_ok es →
  Next t (block_entry i first base k) = if decide (0 < S k < n)%nat then Some (block_entry i first base (S k)) else None.
Proof.
  intros Hk Hes. rewrite (Next_ok t es (base + k) _ Ht Hes Hlink (in_entries _ _ _ _ Hin k Hk)). case_decide as Hd.
  - by rewrite <- Nat.add_succ_r, (in_entries _ _ _ _ Hin (S k)) by lia.
  - assert (S k = n) as E by lia. rewrite <- Nat.add_succ_r, E. destruct (es !! (base + n)%nat) as [e'|] eqn:Ee; [|done]. by rewrite (in_end _ _ _ _ Hin e').
Qed.

Lemma track_step k s : Forall entry_ok es → on_track k s → (k < n)%nat → Z.of_nat n < 2 ^ 32 →
  ∃ s', scan_step s = Some (None, s') ∧ on_track (S k) s'.
Proof.
  intros Hes [Hi Hcur Hb Hsrc Hm Hc Hnext Hsums] Hk Hn32. destruct (in_count _ _ _ _ Hin) as [Hn0 HF].
  assert (k * blocksize < F)%nat as Hlt by nia. rewrite Nat.min_r in Hcur by lia. unfold RepairScan.scan_step.
  assert (FindMatch (s_blocks s) (s_checksummer s) (s_next s) (s_sourcefile s) = Some (Some (block_entry i first base k), false)) as ->.
  { rewrite Hb, Hsrc, Hnext. destruct (decide (0 < k < n)%nat) as [H0|H0].
    - apply FindMatch_expected; [done|done|done|]. by apply located_upto_other.
    - assert (k = 0%nat) as -> by lia. destruct (Hsums eq_refl). rewrite located_upto_0. by apply FindMatch_first. }
  cbn [mbind option_bind]. unfold found_match, note_match. rewrite Hc, Hb, Hcur, Hm, Hsrc.
  assert ((if Z.of_nat k =? 0 then negb (e_firstblock (block_entry i first base k)) || negb (Nat.eqb (k * blocksize) 0)
           else negb (same_entry (block_entry i first base k) (s_next s))) = false) as ->.
  { destruct (Z.eqb_spec (Z.of_nat k) 0) as [E|E]; [by assert (k = 0%nat) as -> by lia|]. rewrite Hnext, decide_True by lia.
    unfold same_entry. by rewrite bool_decide_eq_true_2. }
  cbn [andb negb s_blocks s_checksummer s_count s_sourcefile s_matchtype]. rewrite Hcur.
  change (e_datablock (block_entry i first base k)) with (first + k)%nat. rewrite located_upto_S.
  destruct (in_blocks _ _ _ _ Hin k Hk) as (b & Eb & _ & El).
  assert (∃ b', located_upto (S k) !! (first + k)%nat = Some b' ∧ b_length b' = b_length b) as (b' & -> & El').
  { unfold located_upto. rewrite list_lookup_imap, Eb. cbn [fmap option_fmap option_map]. eexists. split; [reflexivity|]. by destruct (_ && _). }
  cbn [mbind option_bind]. rewrite El', El, Nat2Z.id.
  destruct (Jump_ok blocksize windowtable file maxlength fresh Hbs Hbs64 Htable Hfile Hsize Hmax Hfresh (s_checksummer s) (Nat.min blocksize (F - k * blocksize)) Hi
    ltac:(lia) ltac:(lia)) as (c' & -> & Hi' & Hcur').
  cbn [mbind option_bind negb]. eexists. split; [reflexivity|]. split; cbn [s_blocks s_checksummer s_count s_sourcefile s_matchtype s_next]; try done.
  - rewrite Hcur'. lia.
  - by destruct (Z.of_nat k =? 0).
  - rewrite wrap_small; [lia|split; lia].
  - by apply Next_block.
Qed.

Lemma track_loop fuel k s : Forall entry_ok es → on_track k s → (k ≤ n)%nat → (n - k ≤ fuel)%nat → Z.of_nat n < 2 ^ 32 →
  ∃ s', scan_loop fuel s = Some (None, s') ∧ on_track n s'.
Proof.
  intros Hes. revert k s. induction fuel as [|fuel IH]; intros k s Hs Hk Hf Hn32; cbn [RepairScan.scan_loop]; rewrite (ot_cur _ _ Hs); destruct (in_count _ _ _ _ Hin) as [Hn0 HF].
  - assert (k = n) as -> by lia. rewrite (proj2 (Nat.ltb_ge _ _)) by lia. by exists s.
  - destruct (Nat.ltb_spec (Nat.min F (k * blocksize)) F) as [Hlt|Hge].
    + destruct (track_step k s Hes Hs ltac:(nia) Hn32) as (s1 & -> & Hs1). cbn [mbind option_bind]. apply (IH (S k)); [done|nia|lia|done].
    + exists s. split; [done|]. by assert (k = n) as -> by nia.
Qed.

(** The whole scan *)
Lemma ScanDataFile_intact c count f v : Forall entry_ok es → Z.of_nat n < 2 ^ 32 → constructed blocksize file c →
  mjoin (sourcefiles !! i) = Some f → verificationpacket f = Some v → v_blockcount v = Z.of_nat n → FileSizeOf f = Z.of_nat F →
  DescriptionPacket_HashFull (descriptionpacket f) = md5 file → DescriptionPacket_Hash16k (descriptionpacket f) = md5 (take k16 file) →
  ScanDataFile t sourcefiles FileSize diskfile blocksize F windowtable maxlength fresh scratch blocksallocated renameonly skipdata skipleaway c blocks0 (Some i) count
  = Some {| r_result := true; r_sourcefile := Some i; r_matchtype := Some eFullMatch; r_hashes := Some (md5 file, md5 (take k16 file));
            r_count := Z.of_nat n; r_blocks := located_upto n |}.
Proof.
  intros Hes Hn32 [H1 H2 H3 H4 H5] Ef Ev Evn Efs Eh Eh16. destruct (in_count _ _ _ _ Hin) as [Hn0 HF]. unfold ScanDataFile.
  rewrite (proj2 (Nat.eqb_neq F 0)) by lia. rewrite andb_false_r.
  destruct (Start_sums blocksize file maxlength fresh Hbs Hbs64 Hfile Hsize Hmax Hfresh c H1 H2 H3 H4 H5) as (c1 & -> & Hi & Hc1 & Hcrc & Hh & Hhas).
  cbn [mbind option_bind negb]. set (s0 := {| s_checksummer := c1 |}).
  assert (on_track 0 s0) as H0.
  { split; try done; cbn [s0 s_checksummer s_blocks].
    - rewrite Hc1. lia.
    - by rewrite located_upto_0.
    - intros _. split; [done|]. unfold Hash. by rewrite Hhas, Hh. }
  destruct (track_loop F 0 s0 Hes H0 ltac:(lia) ltac:(nia) Hn32) as (s & -> & [Hi2 Hcur Hb Hsrc Hm Hc Hnext _]). cbn [mbind option_bind].
  rewrite (GetFileHashes_ok blocksize file fresh) by (done || lia). cbn [mbind option_bind].
  rewrite Hc, Hm, Hsrc, Hb, (proj2 (Z.ltb_lt 0 _)) by lia.
  destruct (is_perfect_ok sourcefiles F (Some i) (Z.of_nat n) (md5 file) (md5 (take k16 file)) f i v eq_refl Ef Ev) as (p & -> & Hp).
  cbn [mbind option_bind]. rewrite (proj2 Hp) by done. done.
Qed.
End Intact.
End Scan.

(** ** Properties *)

(** The file that is scanned with the parameters of the checksummer, and the memory of local
    hash contexts *)
Record scan_setting (blocksize : nat) (windowtable : array) (file : list Z) (maxlength : Z) (fresh : HasherInput) (scratch : MD5Single) (c : FileCheckSummer) : Prop := {
  ss_blocksize : (0 < blocksize)%nat ∧ Z.of_nat blocksize < 2 ^ 64 - 64;
  ss_table : GenerateWindowTable (Z.of_nat blocksize) = Some windowtable;
  ss_file : Forall (in_range 8) file ∧ Z.of_nat (length file) ≤ MaxOffset;
  ss_read : 0 < maxlength;
  ss_fresh : length (h_tmp fresh) = 128%nat;
  ss_scratch : length (tmp scratch) = 64%nat;
  ss_checksummer : constructed blocksize file c;
}.

(** The table with its entries, and the blocks and files they refer to *)
Record table_setting (blocksize : nat) (t : VerificationHashTable) (es : list VerificationHashEntry) (blocks : list DataBlock)
    (sourcefiles : list (option Par2RepairerSourceFile)) : Prop := {
  ts_table : table_ok t es;
  ts_entries : Forall entry_ok es;
  ts_links : linked t es;
  ts_blocks : Forall (has_block blocks) es;
  ts_fits : Forall (block_fits blocksize) blocks;
  ts_known : Forall (λ e, ∃ f v, mjoin (sourcefiles !! e_sourcefile e) = Some f ∧ verificationpacket f = Some v) es;
}.

(** C22: what a scan finds is there.  For every file and every table that fits the blocks and
    files, the scan ends and succeeds; every block it locates is at a position of the file
    where a block of bytes starts that has the hash of an entry for this block, and the others
    are unchanged; the hashes it reports are those of the file; and a full match means that
    the file has the size and the hashes of the description packet and that the number of
    matches is the number of blocks of its verification packet. *)
Theorem scan_sound (blocksize : nat) (windowtable : array) (file : list Z) (maxlength : Z) (fresh : HasherInput) (scratch : MD5Single) (c : FileCheckSummer)
    (t : VerificationHashTable) (es : list VerificationHashEntry) (blocks : list DataBlock) (sourcefiles : list (option Par2RepairerSourceFile))
    (FileSize : nat → Z) (diskfile : nat) (blocksallocated renameonly skipdata : bool) (skipleaway : Z) (sourcefile : option nat) (count : Z) :
  scan_setting blocksize windowtable file maxlength fresh scratch c → table_setting blocksize t es blocks sourcefiles →
  ∃ r, ScanDataFile t sourcefiles FileSize diskfile blocksize (length file) windowtable maxlength fresh scratch blocksallocated renameonly skipdata skipleaway
         c blocks sourcefile count = Some r ∧
    r_result r = true ∧ length (r_blocks r) = length blocks ∧
    (∀ j b, r_blocks r !! j = Some b → rightly_located blocksize file es diskfile blocks j b) ∧
    (∀ h, r_hashes r = Some h → h = (md5 file, md5 (take k16 file))) ∧
    (r_matchtype r = Some eFullMatch → full_match file sourcefiles r) ∧
    ((0 < length file)%nat → renameonly = false → r_matchtype r ≠ None ∧ r_hashes r ≠ None).
Proof. intros [[] ? [] ? ? ? ?] [? ? ? ? ? ?]. by apply ScanDataFile_ok. Qed.

(** C21: an intact file is recognised.  When the file is scanned as the source file whose
    contents it has, no block of which was found before, the scan matches every block in
    turn, locates block k at offset k times the block size, and reports a full match -
    whatever other entries the table holds, equal blocks of this or of other files included. *)
Theorem scan_finds_intact (blocksize : nat) (windowtable : array) (file : list Z) (maxlength : Z) (fresh : HasherInput) (scratch : MD5Single) (c : FileCheckSummer)
    (t : VerificationHashTable) (es : list VerificationHashEntry) (blocks : list DataBlock) (sourcefiles : list (option Par2RepairerSourceFile))
    (FileSize : nat → Z) (diskfile : nat) (blocksallocated renameonly skipdata : bool) (skipleaway : Z) (count : Z)
    (i first n base : nat) (f : Par2RepairerSourceFile) (v : VerificationPacket) :
  scan_setting blocksize windowtable file maxlength fresh scratch c → table_setting blocksize t es blocks sourcefiles →
  intact blocksize file es sourcefiles FileSize blocks i first n base → Z.of_nat n < 2 ^ 32 →
  mjoin (sourcefiles !! i) = Some f → verificationpacket f = Some v → v_blockcount v = Z.of_nat n → FileSizeOf f = Z.of_nat (length file) →
  DescriptionPacket_HashFull (descriptionpacket f) = md5 file → DescriptionPacket_Hash16k (descriptionpacket f) = md5 (take k16 file) →
  ScanDataFile t sourcefiles FileSize diskfile blocksize (length file) windowtable maxlength fresh scratch blocksallocated renameonly skipdata skipleaway
    c blocks (Some i) count
  = Some {| r_result := true; r_sourcefile := Some i; r_matchtype := Some eFullMatch; r_hashes := Some (md5 file, md5 (take k16 file));
            r_count := Z.of_nat n; r_blocks := located_upto blocksize diskfile blocksallocated blocks first n |}.
Proof. intros [[] ? [] ? ? ? ?] [? ? ? ? ? ?] Hin Hn Ef Ev. intros. by apply (ScanDataFile_intact) with es base f v. Qed.

(** A file of 40 bytes in three blocks *)
Definition example_data : list Z := seqZ 7 40.
Definition example_vs : list (Z * list Z) :=
  (λ k, (crc32 (padded 16 example_data (k * 16)), md5 (padded 16 example_data (k * 16)))) <$> seq 0 3.
Definition example_es : list VerificationHashEntry := file_entries 0 0 0 true example_vs.
Definition example_source : Par2RepairerSourceFile :=
  {| descriptionpacket := {| d_data := replicate 80 0 ++ md5 example_data ++ md5 example_data ++ le_split 8 40; d_filename := [97] |};
     verificationpacket := Some (example_verification 3); blockcount := 3; firstblock := Some 0%nat; targetexists := true;
     targetfile := Some 5%nat; completefile := None; targetfilename := [97] |}.
Definition example_source_blocks : list DataBlock := fresh_block 40 16 <$> seq 0 3.
Definition example_scan (t : VerificationHashTable) (count : Z) :=
  ScanDataFile t [Some example_source] (λ _, 40) 5 16 (length example_data) (default ∅ (GenerateWindowTable 16)) 1000 example_hasher example_single
    true false false 64 (example_checksummer 16 example_disk) example_source_blocks (Some 0%nat) count.

Lemma example_source_hashes : DescriptionPacket_HashFull (descriptionpacket example_source) = md5 example_data ∧
  DescriptionPacket_Hash16k (descriptionpacket example_source) = md5 (take k16 example_data).
Proof.
  unfold DescriptionPacket_HashFull, DescriptionPacket_Hash16k, slice. cbn [d_data descriptionpacket example_source]. split.
  - rewrite drop_app_length', take_app_length' by (done || apply length_md5). done.
  - rewrite (take_ge _ k16) by (unfold example_data; rewrite length_seqZ; change k16 with (Z.to_nat 16384); lia).
    rewrite app_assoc, drop_app_length', take_app_length'; [done|exact (length_md5 example_data)|]. by rewrite length_app, length_md5.
Qed.

Lemma example_setting : scan_setting 16 (default ∅ (GenerateWindowTable 16)) example_data 1000 example_hasher example_single (example_checksummer 16 example_disk).
Proof.
  split; [lia|exact example_table|split; [exact example_bytes|unfold MaxOffset, example_data; rewrite length_seqZ; lia]|lia|reflexivity|reflexivity|exact example_constructed].
Qed.

Lemma example_scan_loaded : ∃ t, Load (SetLimit 3) 0 0 example_vs = Some t ∧ table_setting 16 t example_es example_source_blocks [Some example_source].
Proof.
  assert (Forall (λ v, hash_ok v.2) example_vs) as Hv by (apply Forall_fmap, Forall_true; intros k; apply md5_hash_ok).
  destruct (Load_ok (SetLimit 3) [] 0 0 example_vs (SetLimit_ok 3) (linked_empty 3) Hv) as (t & E & Ht & Hk).
  exists t. split; [exact E|]. split; [exact Ht|by apply file_entries_ok|exact Hk| | |].
  - apply Forall_lookup. intros k e He. unfold example_es in He. rewrite file_entries_lookup in He. apply fmap_Some in He as (w & Hw%lookup_lt_Some & ->). exact Hw.
  - apply Forall_fmap, Forall_seq. intros k Hk3. unfold compose, block_fits, fresh_block. cbn [b_length]. lia.
  - apply Forall_lookup. intros k e He. unfold example_es in He. rewrite file_entries_lookup in He. apply fmap_Some in He as (w & _ & ->). exists example_source, (example_verification 3). split; reflexivity.
Qed.

Lemma scan_sound_witness : ∃ t, Load (SetLimit 3) 0 0 example_vs = Some t ∧
  ∃ r, example_scan t 0 = Some r ∧ r_result r = true ∧ length (r_blocks r) = length example_source_blocks ∧
    (∀ j b, r_blocks r !! j = Some b → rightly_located 16 example_data example_es 5 example_source_blocks j b) ∧
    (∀ h, r_hashes r = Some h → h = (md5 example_data, md5 (take k16 example_data))) ∧
    (r_matchtype r = Some eFullMatch → full_match example_data [Some example_source] r) ∧
    ((0 < length example_data)%nat → false = false → r_matchtype r ≠ None ∧ r_hashes r ≠ None).
Proof.
  destruct example_scan_loaded as (t & E & Ht). exists t. split; [exact E|].
  apply (scan_sound 16 (default ∅ (GenerateWindowTable 16)) example_data 1000 example_hasher example_single (example_checksummer 16 example_disk)
    t example_es example_source_blocks [Some example_source] (λ _, 40) 5 true false false 64 (Some 0%nat) 0 example_setting Ht).
Defined.

Lemma example_intact : intact 16 example_data example_es [Some example_source] (λ _, 40) example_source_blocks 0 0 3 0.
Proof.
  split.
  - unfold example_data. rewrite length_seqZ. lia.
  - intros [|[|[|k]]] Hk; [reflexivity..|lia].
  - done.
  - lia.
  - intros [|[|[|k]]] Hk; [by eexists..|lia].
  - done.
Qed.

Lemma scan_finds_intact_witness : ∃ t, Load (SetLimit 3) 0 0 example_vs = Some t ∧
  example_scan t 0 = Some {| r_result := true; r_sourcefile := Some 0%nat; r_matchtype := Some eFullMatch;
    r_hashes := Some (md5 example_data, md5 (take k16 example_data)); r_count := 3; r_blocks := located_upto 16 5 true example_source_blocks 0 3 |}.
Proof.
  destruct example_scan_loaded as (t & E & Ht). exists t. split; [exact E|].
  apply (scan_finds_intact 16 (default ∅ (GenerateWindowTable 16)) example_data 1000 example_hasher example_single (example_checksummer 16 example_disk)
    t example_es example_source_blocks [Some example_source] (λ _, 40) 5 true false false 64 0 0 0 3 0 example_source (example_verification 3)
    example_setting Ht example_intact).
  - lia.
  - reflexivity.
  - reflexivity.
  - reflexivity.
  - reflexivity.
  - apply example_source_hashes.
  - apply example_source_hashes.
Defined.
