(* ===== verification/RepairVerifySpec.v ===== *)
(** * RepairVerifySpec.v: files that are verified as a whole

    [VerifyDataFile] compares a file in which no block was found with the files that have no
    verification packet, by size and hashes. *)

From S2P Require Import Prelude Bytes Crc Md5 Md5Spec Md5Single Hasher HasherSpec DiskFile CheckSummer CheckSummerSpec HashTable HashTableSpec SourceFile SourceFileSpec FileName Packets PacketScan RepairFiles RepairFilesSpec RepairScan RepairScanSpec.

(** ** The hash of a whole file *)

Section Whole.
Context (file : list Z) (maxlength : Z).
Hypothesis Hmax : 0 < maxlength.
Hypothesis Hsize : Z.of_nat (length file) ≤ MaxOffset.
Local Abbreviation F := (length file).

Lemma hash_loop_ok fuel buffersize o d context hash16k : (0 < buffersize)%nat → (o ≤ F)%nat → (F - o ≤ fuel)%nat → disk_is file d →
  md5_rep context (take o file) → ((k16 ≤ o)%nat → hash16k = md5 (take k16 file)) →
  ∃ context' h d', hash_loop F maxlength fuel buffersize o d context hash16k = Some (Some (context', h), d') ∧
    md5_rep context' file ∧ ((k16 ≤ F)%nat → h = md5 (take k16 file)).
Proof.
  intros Hbuf. revert o d context hash16k. induction fuel as [|fuel IH]; intros o d context hash16k Ho Hf Hd Hc Hh; cbn [hash_loop]; destruct (Nat.ltb_spec o F) as [Hlt|Hge].
  - lia.
  - exists context, hash16k, d. rewrite take_ge in Hc by lia. split_and!; try done. intros. apply Hh. lia.
  - set (want := Nat.min buffersize (F - o)). assert (0 < want ≤ F - o)%nat as Hw by lia. clearbody want. destruct Hd as [Hd Ed].
    rewrite Read_ok; [|done|done|lia|rewrite (do_size _ Hd), Ed; lia]. cbn [mbind option_bind negb]. rewrite Nat2Z.id, Ed.
    set (buffer := slice file o want).
    assert (take o file ++ buffer = take (o + want) file) as Eb by apply take_slice.
    assert (disk_is file (at_offset d (Z.of_nat o + Z.of_nat want))) as Hd' by (split; [apply at_offset_ok; [done|lia]|done]).
    destruct (Nat.ltb_spec o k16) as [Hok|Hok]; cbn [andb].
    + destruct (Nat.leb_spec k16 (o + want)) as [Hkw|Hkw].
      * assert (take o file ++ take (k16 - o) buffer = take k16 file) as E1.
        { unfold buffer, slice. rewrite take_take, Nat.min_l by lia. rewrite take_take_drop. f_equal. lia. }
        assert (md5_rep (update context (take (k16 - o) buffer)) (take k16 file)) as Hr by (rewrite <- E1; by apply update_ok).
        rewrite (end_ok _ _ Hr). cbn [mbind option_bind]. apply IH; [lia|lia|done| |done].
        destruct (Nat.ltb_spec k16 (o + want)).
        -- assert (take (o + want) file = take k16 file ++ drop (k16 - o) buffer) as -> by (rewrite <- Eb, <- E1, <- app_assoc; by rewrite firstn_skipn).
           by apply update_ok.
        -- by replace (o + want)%nat with k16 by lia.
      * cbn [mbind option_bind]. apply IH; [lia|lia|done|rewrite <- Eb; by apply update_ok|lia].
    + cbn [mbind option_bind]. apply IH; [lia|lia|done|rewrite <- Eb; by apply update_ok|auto].
  - exists context, hash16k, d. rewrite take_ge in Hc by lia. split_and!; try done. intros. apply Hh. lia.
Qed.

Lemma hash_whole_ok blocksize scratch d hash16k : (0 < blocksize)%nat → length (tmp scratch) = 64%nat → (0 < F)%nat → disk_is file d →
  hash_whole blocksize F maxlength scratch d hash16k = Some (Some (md5 (take k16 file))).
Proof.
  intros Hbs Hs HF Hd. unfold hash_whole. pose proof (to_nat_pos (1024 * 1024) eq_refl) as Hp. set (mega := Z.to_nat (1024 * 1024)) in *. clearbody mega.
  destruct (hash_loop_ok F (Nat.min mega (Nat.min blocksize F)) 0 d (reset scratch) hash16k ltac:(lia) ltac:(lia) ltac:(lia) Hd
    (reset_ok _ Hs) ltac:(pose proof k16_pos; lia)) as (context & h & d' & -> & Hc & Hh).
  cbn [mbind option_bind]. rewrite (end_ok _ _ Hc). cbn [mbind option_bind]. destruct (Nat.ltb_spec F k16); [by rewrite take_ge by lia|].
  by rewrite Hh.
Qed.
End Whole.

(** ** The blocks of a whole file *)

Lemma length_locate_loop diskfile bs n k first size blocks : length (locate_loop diskfile bs n k first size blocks) = length blocks.
Proof. revert k blocks. induction n as [|n IH]; intros k blocks; cbn [locate_loop]; [done|]. by rewrite IH, length_alter. Qed.

(** Block [k] of the file as it is located *)
Definition at_block (diskfile bs k : nat) (size : Z) (b : DataBlock) : DataBlock :=
  SetLength (SetLocation b diskfile (Z.of_nat k * Z.of_nat bs)) (Z.min (Z.of_nat bs) (size - Z.of_nat k * Z.of_nat bs)).

Lemma locate_loop_ok diskfile bs n k first size blocks j : locate_loop diskfile bs n k first size blocks !! j =
  if decide (first + k ≤ j < first + k + n)%nat then at_block diskfile bs (j - first) size <$> blocks !! j else blocks !! j.
Proof.
  revert k blocks. induction n as [|n IH]; intros k blocks; cbn [locate_loop]; [rewrite decide_False by lia; done|].
  rewrite IH. destruct (decide (j = first + k)%nat) as [->|Hne].
  - rewrite decide_False, decide_True by lia. rewrite list_lookup_alter_eq. unfold at_block. by replace (first + k - first)%nat with k by lia.
  - rewrite list_lookup_alter_ne by lia. destruct (decide (first + k ≤ j < first + k + S n)%nat); repeat case_decide; done || lia.
Qed.

(** ** Properties *)

(** A file without verification packet is recognised only by chance when no file of the set
    has one (in other sets [ScanDataFile] computes the hash).  With a single such file in the
    set, a file on the disk that has the size, the hash and the hash
    of the first 16k of such a file is accepted exactly when the memory of the variable
    [hashfull] happens to hold the hash already, because the hash that is computed goes to
    another variable of the same name; if it is accepted, block k of the file is located at
    offset k times the block size, with the length that is left. *)
Theorem whole_file_by_chance (t : VerificationHashTable) (sourcefiles : list (option Par2RepairerSourceFile)) (FileSize : nat → Z) (diskfile blocksize : nat)
    (file : list Z) (windowtable : array) (maxlength : Z) (fresh : HasherInput) (scratch : MD5Single) (renameonly skipdata : bool) (skipleaway : Z)
    (matchtype0 : MatchType) (hashfull0 hash16k0 : list Z) (c : FileCheckSummer) (d : DiskFile) (blocks : list DataBlock) (sourcefile : option nat)
    (i first n : nat) (f : Par2RepairerSourceFile) :
  0 < maxlength → Z.of_nat (length file) ≤ MaxOffset → (0 < blocksize)%nat → length (tmp scratch) = 64%nat → (0 < length file)%nat → disk_is file d →
  mjoin (sourcefiles !! i) = Some f → completefile f = None → FileSizeOf f = Z.of_nat (length file) →
  DescriptionPacket_HashFull (descriptionpacket f) = md5 file → DescriptionPacket_Hash16k (descriptionpacket f) = md5 (take k16 file) →
  firstblock f = Some first → ((n - 1) * blocksize < length file ≤ n * blocksize)%nat → (first + n ≤ length blocks)%nat →
  ∃ files' blocks', VerifyDataFile t sourcefiles FileSize diskfile blocksize (length file) windowtable maxlength fresh scratch true renameonly skipdata skipleaway
      false [i] matchtype0 hashfull0 hash16k0 c d blocks sourcefile = Some (true, files', blocks') ∧
    (hashfull0 ≠ md5 file → files' = sourcefiles ∧ blocks' = blocks) ∧
    (hashfull0 = md5 file → files' = <[i := Some (SetCompleteFile f (Some diskfile))]> sourcefiles ∧
      ∀ j, blocks' !! j = if decide (first ≤ j < first + n)%nat then at_block diskfile blocksize (j - first) (Z.of_nat (length file)) <$> blocks !! j
                          else blocks !! j).
Proof.
  intros Hmax Hsize Hbs Hs HF Hd Ef Hcomplete Hfs Hfull H16 Hfirst Hn Hin. unfold VerifyDataFile.
  rewrite (hash_whole_ok file) by done. cbn [mbind option_bind whole_loop]. rewrite Ef. cbn [mbind option_bind].
  rewrite Hcomplete, Hfs, Hfull, H16, Z.eqb_refl, !(bool_decide_eq_true_2 (_ = _)) by done. cbn [andb].
  case_bool_decide as Hh.
  - unfold locate_file. rewrite Hfs, Hfirst, (proj2 (Z.ltb_lt 0 _)) by lia. cbn [andb mbind option_bind].
    assert (Z.to_nat ((Z.of_nat (length file) + Z.of_nat blocksize - 1) / Z.of_nat blocksize) = n) as ->.
    { apply Nat2Z.inj. rewrite Z2Nat.id by (apply Z.div_pos; lia). symmetry.
      apply (Z.div_unique_pos _ _ _ (Z.of_nat (length file) + Z.of_nat blocksize - 1 - Z.of_nat blocksize * Z.of_nat n)); nia. }
    rewrite (proj2 (Nat.leb_le _ _)) by done. cbn [mbind option_bind]. eexists _, _. split; [reflexivity|]. split; [done|]. intros _. split; [done|].
    intros j. rewrite locate_loop_ok, Nat.add_0_r. done.
  - eexists _, _. split; [reflexivity|]. split; [done|]. by intros ->.
Qed.

(** The example file of three blocks, in a set without verification packets *)
Definition example_whole : Par2RepairerSourceFile :=
  {| descriptionpacket := descriptionpacket example_source; verificationpacket := None; blockcount := 3; firstblock := Some 0%nat;
     targetexists := false; targetfile := None; completefile := None; targetfilename := [97] |}.

Lemma whole_file_by_chance_witness :
  ∃ files' blocks', VerifyDataFile (SetLimit 3) [Some example_whole] (λ _, 40) 5 16 (length example_data) ∅ 1000 example_hasher example_single true false false 64
      false [0%nat] eNoMatch [1] [2] (example_checksummer 16 example_disk) example_disk example_source_blocks None = Some (true, files', blocks') ∧
    ([1] ≠ md5 example_data → files' = [Some example_whole] ∧ blocks' = example_source_blocks) ∧
    ([1] = md5 example_data → files' = <[0%nat := Some (SetCompleteFile example_whole (Some 5%nat))]> [Some example_whole] ∧
      ∀ j, blocks' !! j = if decide (0 ≤ j < 0 + 3)%nat then at_block 5 16 (j - 0) (Z.of_nat (length example_data)) <$> example_source_blocks !! j
                          else example_source_blocks !! j).
Proof.
  apply (whole_file_by_chance (SetLimit 3) [Some example_whole] (λ _, 40) 5 16 example_data ∅ 1000 example_hasher example_single false false 64
    eNoMatch [1] [2] (example_checksummer 16 example_disk) example_disk example_source_blocks None 0 0 3 example_whole).
  - lia.
  - unfold MaxOffset, example_data. rewrite length_seqZ. lia.
  - lia.
  - reflexivity.
  - unfold example_data. rewrite length_seqZ. lia.
  - split; [split|]; done.
  - reflexivity.
  - reflexivity.
  - reflexivity.
  - apply example_source_hashes.
  - apply example_source_hashes.
  - reflexivity.
  - unfold example_data. rewrite length_seqZ. lia.
  - cbn. lia.
Defined.
