(* ===== verification/RepairProcess.v ===== *)
(** * RepairProcess.v: the repair (src/par2repairer.cpp, src/diskfile.cpp)

    From the results of the verification to the repaired files: [RenameTargetFiles],
    [CreateTargetFiles], [ComputeRSmatrix], [AllocateBuffers], [ProcessData],
    [VerifyTargetFiles] and the part of [Process] that calls them.  Open files are numbered;
    the backend that multiplies and adds blocks is a parameter.  A result [None] means that
    the code goes through a null pointer or out of an array, or throws. *)

From stdpp Require Import gmap sorting.
From S2P Require Import Prelude Bytes GfCoeff GfMul RecMatrix Md5 Md5Single Hasher DiskFile CheckSummer HashTable Packets Parameters CreatorLayout SourceFile PacketScan RepairFiles RepairScan.

(** ** Files and their names *)

(** The files that were opened, their names, and the other names that exist.  A file whose
    name was given to another one has none. *)
Record World := { disks : list DiskFile; names : list (option (list Z)); others : list (list Z) }.

Definition set_disks (w : World) (ds : list DiskFile) : World := {| disks := ds; names := names w; others := others w |}.
Definition existing (w : World) : list (list Z) := omap id (names w) ++ others w.
Definition FileSizes (w : World) (i : nat) : Z := match disks w !! i with Some d => filesize d | None => 0 end.

(** [DiskFile::Rename] to a name; a file that has the name is replaced *)
Definition Rename (w : World) (i : nat) (name : list Z) : World :=
  {| disks := disks w; names := <[i := Some name]> ((λ n, if decide (n = Some name) then None else n) <$> names w);
     others := filter (λ n, n ≠ name) (others w) |}.

(** [DiskFile::Rename] to the name with the first free number *)
Definition numbered (name : list Z) (index : Z) : list Z := name ++ [46] ++ decimal 10 index.
Fixpoint free_name (fuel : nat) (taken : list (list Z)) (name : list Z) (index : Z) : option (option (list Z)) :=
  match fuel with
  | O => None
  | S fuel =>
      let newname := numbered name index in
      if 4095 <? Z.of_nat (length newname) then Some None else
      if bool_decide (newname ∈ taken) then free_name fuel taken name (wrap 32 (index + 1)) else Some (Some newname)
  end.
Definition Rename_numbered (w : World) (i : nat) : option (option World) :=
  name ← mjoin (names w !! i);
  r ← free_name (S (length (existing w))) (existing w) name 1;
  Some (match r with Some name => Some (Rename w i name) | None => None end).

(** ** [RenameTargetFiles] *)

(** The damaged target files get another name; a source file without packets is a null pointer *)
Fixpoint damaged_loop (total : nat) (sourcefiles : list (option Par2RepairerSourceFile)) (w : World)
    : option (bool * list (option Par2RepairerSourceFile) * World * list nat) :=
  match total, sourcefiles with
  | S total, f :: sourcefiles =>
      f ← f;
      '(ok, f, w, backup) ←
        (if targetexists f && bool_decide (targetfile f ≠ completefile f) then
           i ← targetfile f;
           r ← Rename_numbered w i;
           Some (match r with
                 | None => (false, f, w, [])
                 | Some w => (true, SetTarget f false None, w, [i])
                 end)
         else Some (true, f, w, []));
      if negb ok then Some (false, Some f :: sourcefiles, w, backup) else
      '(ok, sourcefiles, w, backups) ← damaged_loop total sourcefiles w;
      Some (ok, Some f :: sourcefiles, w, backup ++ backups)
  | _, _ => Some (true, sourcefiles, w, [])
  end.

(** The complete files get their own names; also the number of them *)
Fixpoint complete_loop (total : nat) (sourcefiles : list (option Par2RepairerSourceFile)) (w : World)
    : option (list (option Par2RepairerSourceFile) * World * Z) :=
  match total, sourcefiles with
  | S total, f :: sourcefiles =>
      f ← f;
      let '(f, w, count) :=
        match targetfile f, completefile f with
        | None, Some i => (SetTarget f true (Some i), Rename w i (targetfilename f), 1)
        | _, _ => (f, w, 0)
        end in
      '(sourcefiles, w, counts) ← complete_loop total sourcefiles w;
      Some (Some f :: sourcefiles, w, count + counts)
  | _, _ => Some (sourcefiles, w, 0)
  end.

(** [RenameTargetFiles]: the value returned, the files, [backuplist] and what is added to
    [completefilecount] *)
Definition RenameTargetFiles (main : MainPacket) (sourcefiles : list (option Par2RepairerSourceFile)) (w : World)
    : option (bool * list (option Par2RepairerSourceFile) * World * list nat * Z) :=
  let total := Z.to_nat (m_totalfilecount main) in
  '(ok, sourcefiles, w, backuplist) ← damaged_loop total sourcefiles w;
  if negb ok then Some (false, sourcefiles, w, backuplist, 0) else
  '(sourcefiles, w, count) ← complete_loop total sourcefiles w;
  Some (true, sourcefiles, w, backuplist, count).

(** ** [CreateTargetFiles] *)

(** The target blocks of a new file *)
Definition locate_targets (blocksize t : nat) (f : Par2RepairerSourceFile) (targetblocks : list DataBlock) : option (list DataBlock) :=
  let size := FileSizeOf f in
  if 0 <? size then
    first ← firstblock f;
    let n := Z.to_nat ((size + Z.of_nat blocksize - 1) / Z.of_nat blocksize) in
    if Nat.leb (first + n) (length targetblocks) then Some (locate_loop t blocksize n 0 first size targetblocks) else None
  else Some targetblocks.

(** The loop over the files, the first of which has number [i]: also the numbers of the files
    to be verified *)
Fixpoint create_loop (blocksize total i : nat) (sourcefiles : list (option Par2RepairerSourceFile)) (w : World) (targetblocks : list DataBlock)
    : option (bool * list (option Par2RepairerSourceFile) * World * list DataBlock * list nat) :=
  match total, sourcefiles with
  | S total, f :: sourcefiles =>
      f ← f;
      if targetexists f then
        '(ok, sourcefiles, w, targetblocks, verifylist) ← create_loop blocksize total (S i) sourcefiles w targetblocks;
        Some (ok, Some f :: sourcefiles, w, targetblocks, verifylist)
      else
        match Create (existing w) (targetfilename f) (FileSizeOf f) with
        | None => Some (false, Some f :: sourcefiles, w, targetblocks, [])
        | Some d =>
            let t := length (disks w) in
            let w := {| disks := disks w ++ [d]; names := names w ++ [Some (targetfilename f)]; others := others w |} in
            targetblocks ← locate_targets blocksize t f targetblocks;
            '(ok, sourcefiles, w, targetblocks, verifylist) ← create_loop blocksize total (S i) sourcefiles w targetblocks;
            Some (ok, Some (SetTarget f true (Some t)) :: sourcefiles, w, targetblocks, i :: verifylist)
        end
  | _, _ => Some (true, sourcefiles, w, targetblocks, [])
  end.
Definition CreateTargetFiles (blocksize : nat) (main : MainPacket) := create_loop blocksize (Z.to_nat (m_totalfilecount main)) 0.

(** ** [ComputeRSmatrix] *)

(** The loop over the blocks: which are present, and the blocks to be read, copied and computed *)
Fixpoint sort_blocks (FileSize : nat → Z) (sourceblocks targetblocks : list DataBlock)
    : option (list bool * list DataBlock * list DataBlock * list DataBlock) :=
  match sourceblocks, targetblocks with
  | [], _ => Some ([], [], [], [])
  | s :: sourceblocks, t :: targetblocks =>
      '(present, inputs, copies, outputs) ← sort_blocks FileSize sourceblocks targetblocks;
      Some (if IsSet FileSize s then (true :: present, s :: inputs, t :: copies, outputs) else (false :: present, inputs, copies, t :: outputs))
  | _ :: _, [] => None
  end.

(** [inputblocks], [copyblocks], [outputblocks], and the factors in [rs] *)
Record Matrix := { inputblocks : list DataBlock; copyblocks : list DataBlock; outputblocks : list DataBlock; factor : Z → Z → Z }.

(** [ComputeRSmatrix]; [Some None] when it returns false *)
Definition ComputeRSmatrix {M} (k : kernel M) (tables : gfmat_tables) (mat0 : M) (FileSize : nat → Z) (sourceblocks targetblocks : list DataBlock)
    (availableblockcount missingblockcount : Z) (recoverypacketmap : Zmap RecoveryPacket) : option (option Matrix) :=
  '(present, inputs, copies, outputs) ← sort_blocks FileSize sourceblocks targetblocks;
  if negb ((Z.of_nat (length copies) =? availableblockcount) && (Z.of_nat (length outputs) =? missingblockcount)) then None else
  if missingblockcount =? 0 then Some (Some {| inputblocks := inputs; copyblocks := copies; outputblocks := outputs; factor := λ _ _, 0 |}) else
  let recindex := wrap 16 <$> merge_sort Z.le (fst <$> map_to_list recoverypacketmap) in
  r ← Compute k tables mat0 present availableblockcount recindex;
  match r with
  | None => Some None
  | Some (m, recindex) =>
      recovery ← mapM (λ exponent, r_datablock <$> recoverypacketmap !! exponent) recindex;
      let sw16 := fst (stripe_layout k (Z.of_nat (length sourceblocks))) / 2 in
      Some (Some {| inputblocks := inputs ++ recovery; copyblocks := copies; outputblocks := outputs;
                    factor := GetFactor k missingblockcount sw16 m |})
  end.

(** [AllocateBuffers]: the size of a chunk *)
Definition AllocateBuffers (memorylimit blocksize missingblockcount sourceblockcount : Z) : option Z :=
  let blockoverhead := wrap 32 (2 + Z.min 24 (wrap 32 (sourceblockcount + 1))) in
  let total := wrap 32 (missingblockcount + blockoverhead) in
  chunksize ←
    (if memorylimit <? wrap 64 (blocksize * total) then quotient ← udiv memorylimit total; Some (Z.ldiff quotient 3)
     else Some blocksize);
  Some (if 33554432 <? chunksize then 33554432 else chunksize).

(** ** [ProcessData] *)

(** The backend: what it computes from the inputs, each sent with its factors, for an output *)
Class Backend := { getOutput : list (list Z * list Z) → nat → option (list Z) }.

Section Process.
Context `{Backend} (maxlength : Z).

(** A block that is written, to the file it is in *)
Definition write_block (b : DataBlock) (blockoffset : Z) (buffer : list Z) (ds : list DiskFile) : option (bool * list DiskFile) :=
  i ← b_diskfile b;
  d ← ds !! i;
  '(ok, d, _) ← WriteData b d blockoffset buffer maxlength;
  Some (ok, <[i := d]> ds).

(** A block that is read; another file than the one before is opened *)
Definition read_block (last : option nat) (b : DataBlock) (blockoffset blocklength : Z) (ds : list DiskFile) : option (bool * list Z * nat * list DiskFile) :=
  i ← b_diskfile b;
  d ← ds !! i;
  let d := if decide (last = Some i) then d else reopen d in
  '(ok, d, buffer) ← ReadData b d blockoffset blocklength maxlength;
  Some (ok, buffer, i, <[i := d]> ds).

Definition copy_block (copies : list DataBlock) (blockoffset : Z) (buffer : list Z) (FileSize : nat → Z) (ds : list DiskFile) : option (bool * list DiskFile) :=
  match copies with
  | c :: _ => if IsSet FileSize c then write_block c blockoffset buffer ds else Some (true, ds)
  | [] => Some (true, ds)
  end.

(** The loop over the input blocks when blocks are missing: what the backend gets *)
Fixpoint input_loop (m : Matrix) (missingblockcount : nat) (FileSize : nat → Z) (blockoffset blocklength : Z) (last : option nat) (inputindex : Z)
    (inputs copies : list DataBlock) (ds : list DiskFile) : option (bool * list (list Z * list Z) * list DiskFile) :=
  match inputs with
  | [] => Some (true, [], ds)
  | b :: inputs =>
      '(ok, buffer, i, ds) ← read_block last b blockoffset blocklength ds;
      if negb ok then Some (false, [], ds) else
      '(ok, ds) ← copy_block copies blockoffset buffer FileSize ds;
      if negb ok then Some (false, [], ds) else
      let factors := (λ outputindex, factor m inputindex (Z.of_nat outputindex)) <$> seq 0 missingblockcount in
      '(ok, sent, ds) ← input_loop m missingblockcount FileSize blockoffset blocklength (Some i) (inputindex + 1) inputs (tail copies) ds;
      Some (ok, (buffer, factors) :: sent, ds)
  end.

(** The loop when blocks are only copied *)
Fixpoint copy_loop (FileSize : nat → Z) (blockoffset blocklength : Z) (last : option nat) (inputs copies : list DataBlock) (ds : list DiskFile)
    : option (bool * list DiskFile) :=
  match copies with
  | [] => Some (true, ds)
  | c :: copies =>
      if IsSet FileSize c then
        b ← head inputs;
        '(ok, buffer, i, ds) ← read_block last b blockoffset blocklength ds;
        if negb ok then Some (false, ds) else
        '(ok, ds) ← write_block c blockoffset buffer ds;
        if negb ok then Some (false, ds) else
        copy_loop FileSize blockoffset blocklength (Some i) (tail inputs) copies ds
      else copy_loop FileSize blockoffset blocklength last (tail inputs) copies ds
  end.

(** The loop over the output blocks *)
Fixpoint output_loop (sent : list (list Z * list Z)) (blockoffset : Z) (outputindex : nat) (outputs : list DataBlock) (ds : list DiskFile)
    : option (bool * list DiskFile) :=
  match outputs with
  | [] => Some (true, ds)
  | b :: outputs =>
      match getOutput sent outputindex with
      | None => Some (false, ds)
      | Some buffer =>
          '(ok, ds) ← write_block b blockoffset buffer ds;
          if negb ok then Some (false, ds) else
          output_loop sent blockoffset (S outputindex) outputs ds
      end
  end.

Definition ProcessData (m : Matrix) (blockoffset blocklength : Z) (w : World) : option (bool * World) :=
  let missingblockcount := length (outputblocks m) in
  '(ok, ds) ←
    (if Nat.ltb 0 missingblockcount then
       '(ok, sent, ds) ← input_loop m missingblockcount (FileSizes w) blockoffset blocklength None 0 (inputblocks m) (copyblocks m) (disks w);
       if negb ok then Some (false, ds) else
       output_loop sent blockoffset 0 (outputblocks m) ds
     else copy_loop (FileSizes w) blockoffset blocklength None (inputblocks m) (copyblocks m) (disks w));
  Some (ok, set_disks w ds).

(** The loop of [Process] over the chunks of the blocks; without end for chunks of no bytes *)
Fixpoint process_chunks (fuel : nat) (m : Matrix) (blocksize chunksize blockoffset : Z) (w : World) : option (bool * World) :=
  if blockoffset <? blocksize then
    match fuel with
    | O => None
    | S fuel =>
        let blocklength := Z.min chunksize (blocksize - blockoffset) in
        '(ok, w) ← ProcessData m blockoffset blocklength w;
        if negb ok then Some (false, w) else
        process_chunks fuel m blocksize chunksize (blockoffset + blocklength) w
    end
  else Some (true, w).
End Process.

(** ** After the repair *)

(** [DiskFile::Delete] *)
Definition Delete (w : World) (i : nat) : World := {| disks := disks w; names := <[i := None]> (names w); others := others w |}.

(** [DeleteIncompleteTargetFiles] *)
Fixpoint DeleteIncompleteTargetFiles (verifylist : list nat) (sourcefiles : list (option Par2RepairerSourceFile)) (w : World)
    : option (list (option Par2RepairerSourceFile) * World) :=
  match verifylist with
  | [] => Some (sourcefiles, w)
  | i :: verifylist =>
      f ← mjoin (sourcefiles !! i);
      if targetexists f then
        t ← targetfile f;
        DeleteIncompleteTargetFiles verifylist (<[i := Some (SetTarget f false None)]> sourcefiles) (Delete w t)
      else DeleteIncompleteTargetFiles verifylist sourcefiles w
  end.

(** [RemoveBackupFiles] *)
Definition RemoveBackupFiles (backuplist : list nat) (w : World) : World := foldl Delete w backuplist.

Section Verify.
(** What the verification uses: the table and the parameters of the scan, and the memory of
    new objects and of uninitialised variables *)
Context (t : VerificationHashTable) (blocksize : nat) (windowtable : array) (maxlength : Z) (fresh : HasherInput) (scratch : MD5Single).
Context (newsummer : DiskFile → FileCheckSummer).
Context (blocksallocated skipdata : bool) (skipleaway : Z) (blockverifiable : bool) (unverifiablesourcefiles : list nat).
Context (matchtype0 : MatchType) (hashfull0 hash16k0 : list Z).

(** ** [VerifySourceFiles] and [VerifyExtraFiles] *)

(** What opening a file gives, if it exists *)
Context (open : list Z → option DiskFile).

(** One more file that is open *)
Definition add_file (w : World) (name : list Z) (d : DiskFile) : World :=
  {| disks := disks w ++ [d]; names := names w ++ [Some name]; others := others w |}.
Definition is_open (w : World) (name : list Z) : bool := bool_decide (Some name ∈ names w).

Definition verify_data (sourcefiles : list (option Par2RepairerSourceFile)) (w : World) (target : nat) (d : DiskFile) (renameonly : bool)
    (sourceblocks : list DataBlock) (sourcefile : option nat) : option (bool * list (option Par2RepairerSourceFile) * list DataBlock) :=
  VerifyDataFile t sourcefiles (FileSizes w) target blocksize (Z.to_nat (filesize d)) windowtable maxlength fresh scratch blocksallocated renameonly skipdata skipleaway
    blockverifiable unverifiablesourcefiles matchtype0 hashfull0 hash16k0 (newsummer d) d sourceblocks sourcefile.

(** The body of the loop of [VerifySourceFiles] for file [i] *)
Definition verify_source (i : nat) (sourcefiles : list (option Par2RepairerSourceFile)) (sourceblocks : list DataBlock) (w : World)
    : option (bool * list (option Par2RepairerSourceFile) * list DataBlock * World) :=
  f ← mjoin (sourcefiles !! i);
  let file := targetfilename f in
  if is_open w file then Some (false, sourcefiles, sourceblocks, w) else
  match open file with
  | Some d =>
      let target := length (disks w) in
      let w := add_file w file d in
      let sourcefiles := <[i := Some (SetTarget f true (Some target))]> sourcefiles in
      '(ok, sourcefiles, sourceblocks) ← verify_data sourcefiles w target d false sourceblocks (Some i);
      Some (ok, sourcefiles, sourceblocks, w)
  | None => Some (true, sourcefiles, sourceblocks, w)
  end.
Fixpoint verify_sources (order : list nat) (sourcefiles : list (option Par2RepairerSourceFile)) (sourceblocks : list DataBlock) (w : World)
    : option (bool * list (option Par2RepairerSourceFile) * list DataBlock * World) :=
  match order with
  | [] => Some (true, sourcefiles, sourceblocks, w)
  | i :: order =>
      '(ok, sourcefiles, sourceblocks, w) ← verify_source i sourcefiles sourceblocks w;
      '(finalresult, sourcefiles, sourceblocks, w) ← verify_sources order sourcefiles sourceblocks w;
      Some ((ok : bool) && finalresult, sourcefiles, sourceblocks, w)
  end.

(** [VerifySourceFiles], the files being taken in [order].  The number [filenumber] of a file
    without details stays 0, so that every such file counts as recoverable. *)
Definition VerifySourceFiles (main : MainPacket) (order : list nat) (sourcefiles : list (option Par2RepairerSourceFile)) (sourceblocks : list DataBlock) (w : World)
    : option (bool * list (option Par2RepairerSourceFile) * list DataBlock * World) :=
  let details := forallb (λ f, match f with Some _ => true | None => negb (0 <? m_recoverablefilecount main) end) sourcefiles in
  '(ok, sourcefiles, sourceblocks, w) ← verify_sources order sourcefiles sourceblocks w;
  Some (details && ok, sourcefiles, sourceblocks, w).

(** A name with [.par2] or [.PAR2] in it *)
Fixpoint contains (part name : list Z) : bool :=
  bool_decide (take (length part) name = part) || match name with [] => false | _ :: name => contains part name end.
Definition par2_name (name : list Z) : bool := contains [46; 112; 97; 114; 50] name || contains [46; 80; 65; 82; 50] name.

(** [VerifyExtraFiles], with [GetCanonicalPathname] *)
Fixpoint VerifyExtraFiles (canonical : list Z → list Z) (renameonly : bool) (extrafiles : list (list Z))
    (sourcefiles : list (option Par2RepairerSourceFile)) (sourceblocks : list DataBlock) (w : World)
    : option (list (option Par2RepairerSourceFile) * list DataBlock * World) :=
  match extrafiles with
  | [] => Some (sourcefiles, sourceblocks, w)
  | extrafile :: extrafiles =>
      let filename := canonical extrafile in
      '(sourcefiles, sourceblocks, w) ←
        (if par2_name extrafile || is_open w filename then Some (sourcefiles, sourceblocks, w) else
         match open filename with
         | None => Some (sourcefiles, sourceblocks, w)
         | Some d =>
             let target := length (disks w) in
             let w := add_file w filename d in
             '(_, sourcefiles, sourceblocks) ← verify_data sourcefiles w target d renameonly sourceblocks None;
             Some (sourcefiles, sourceblocks, w)
         end);
      VerifyExtraFiles canonical renameonly extrafiles sourcefiles sourceblocks w
  end.

(** ** [VerifyTargetFiles] *)

(** The blocks of a file become unknown: [n] blocks from number [first] on *)
Fixpoint clear_blocks (n first : nat) (sourceblocks : list DataBlock) : list DataBlock :=
  match n with
  | O => sourceblocks
  | S n => clear_blocks n (S first) (alter ClearLocation first sourceblocks)
  end.

(** The body of the loop of [VerifyTargetFiles] for one file *)
Definition verify_target (i : nat) (sourcefiles : list (option Par2RepairerSourceFile)) (sourceblocks : list DataBlock) (w : World)
    : option (bool * list (option Par2RepairerSourceFile) * list DataBlock) :=
  f ← mjoin (sourcefiles !! i);
  target ← targetfile f;
  d ← disks w !! target;
  sourceblocks ← (if 0 <? blockcount f then first ← firstblock f; Some (clear_blocks (Z.to_nat (blockcount f)) first sourceblocks) else Some sourceblocks);
  let sourcefiles := <[i := Some (SetCompleteFile f None)]> sourcefiles in
  verify_data sourcefiles w target (reopen d) false sourceblocks (Some i).

(** [VerifyTargetFiles], the files being verified in the order of [verifylist] *)
Fixpoint VerifyTargetFiles (verifylist : list nat) (sourcefiles : list (option Par2RepairerSourceFile)) (sourceblocks : list DataBlock) (w : World)
    : option (bool * list (option Par2RepairerSourceFile) * list DataBlock) :=
  match verifylist with
  | [] => Some (true, sourcefiles, sourceblocks)
  | i :: verifylist =>
      '(ok, sourcefiles, sourceblocks) ← verify_target i sourcefiles sourceblocks w;
      '(finalresult, sourcefiles, sourceblocks) ← VerifyTargetFiles verifylist sourcefiles sourceblocks w;
      Some ((ok : bool) && finalresult, sourcefiles, sourceblocks)
  end.

(** ** The repair in [Process] *)

Inductive Result := eSuccess | eRepairPossible | eRepairNotPossible | eInvalidCommandLineArguments | eInsufficientCriticalData | eRepairFailed
  | eFileIOError | eLogicError | eMemoryError.

Context `{Backend} {M : Type} (k : kernel M) (tables : gfmat_tables) (mat0 : M).
Context (main : MainPacket) (memorylimit : Z) (recoverypacketmap : Zmap RecoveryPacket).

(** From the creation of the target files on, with the numbers of blocks that were found and
    not found.  The threads that verify the repaired files take them in the order that
    [schedule] gives. *)
Definition repair_targets (schedule : list nat → list nat) (available missing : Z) (sourcefiles : list (option Par2RepairerSourceFile))
    (sourceblocks targetblocks : list DataBlock) (w : World) : option (Result * list (option Par2RepairerSourceFile) * World) :=
  '(ok, sourcefiles, w, targetblocks, verifylist) ← CreateTargetFiles blocksize main sourcefiles w targetblocks;
  if negb ok then Some (eFileIOError, sourcefiles, w) else
  let incomplete (r : Result) w := '(sourcefiles, w) ← DeleteIncompleteTargetFiles verifylist sourcefiles w; Some (r, sourcefiles, w) in
  m ← ComputeRSmatrix k tables mat0 (FileSizes w) sourceblocks targetblocks available missing recoverypacketmap;
  match m with
  | None => incomplete eFileIOError w
  | Some m =>
      chunksize ← AllocateBuffers memorylimit (Z.of_nat blocksize) missing (Z.of_nat (length sourceblocks));
      '(ok, w) ← process_chunks maxlength blocksize m (Z.of_nat blocksize) chunksize 0 w;
      if negb ok then incomplete eFileIOError w else
      '(ok, sourcefiles, sourceblocks) ← VerifyTargetFiles (schedule verifylist) sourcefiles sourceblocks w;
      if negb ok then '(sourcefiles, w) ← DeleteIncompleteTargetFiles verifylist sourcefiles w; Some (eFileIOError, sourcefiles, w) else
      results ← UpdateVerificationResults sourceblocks (FileSizes w) main (Z.of_nat (length sourceblocks)) sourcefiles;
      Some (if completefilecount results <? m_recoverablefilecount main then eRepairFailed else eSuccess, sourcefiles, w)
  end.

(** [Process] after the verification, with the results it gave: the result, the files and
    what is on the disk *)
Definition Repair (schedule : list nat → list nat) (dorepair : bool) (results : Results) (sourcefiles : list (option Par2RepairerSourceFile)) (sourceblocks targetblocks : list DataBlock) (w : World)
    : option (Result * list (option Par2RepairerSourceFile) * World) :=
  if negb (CheckVerificationResults main (size recoverypacketmap) results) then Some (eRepairNotPossible, sourcefiles, w) else
  if negb (completefilecount results <? m_recoverablefilecount main) then Some (eSuccess, sourcefiles, w) else
  if negb dorepair then Some (eRepairPossible, sourcefiles, w) else
  '(ok, sourcefiles, w, backuplist, renamed) ← RenameTargetFiles main sourcefiles w;
  if negb ok then Some (eFileIOError, sourcefiles, w) else
  if negb (completefilecount results + renamed <? m_recoverablefilecount main) then Some (eSuccess, sourcefiles, w) else
  repair_targets schedule (availableblockcount results) (missingblockcount results) sourcefiles sourceblocks targetblocks w.

(** [Process] from the verification on; [targetblocks] are new, and the extra files are those
    left when the target files were taken out of the list *)
Definition Process (schedule : list nat → list nat) (dorepair renameonly : bool) (canonical : list Z → list Z) (order : list nat) (extrafiles : list (list Z))
    (sourcefiles : list (option Par2RepairerSourceFile)) (sourceblocks targetblocks : list DataBlock) (w : World)
    : option (Result * list (option Par2RepairerSourceFile) * World) :=
  let update sourcefiles sourceblocks w := UpdateVerificationResults sourceblocks (FileSizes w) main (Z.of_nat (length sourceblocks)) sourcefiles in
  '(ok, sourcefiles, sourceblocks, w) ← VerifySourceFiles main order sourcefiles sourceblocks w;
  results ← update sourcefiles sourceblocks w;
  if negb ok then Some (eFileIOError, sourcefiles, w) else
  '(sourcefiles, sourceblocks, w) ←
    (if completefilecount results <? m_recoverablefilecount main
     then VerifyExtraFiles canonical renameonly extrafiles sourcefiles sourceblocks w
     else Some (sourcefiles, sourceblocks, w));
  results ← update sourcefiles sourceblocks w;
  Repair schedule dorepair results sourcefiles sourceblocks targetblocks w.
End Verify.
