(* ===== verification/RepairProcessSpec.v ===== *)
(** * RepairProcessSpec.v: the repair restores the files

    While a chunk is processed, the bytes that are already right stay right, and the bytes of
    every block that is copied or computed become right; the files the blocks are read from do
    not change. *)

From stdpp Require Import gmap sorting.
From S2P Require Import Prelude Bytes LinOp GfCoeff GfMul InputCols RecMatrix RecCompute GfLookup Md5 Md5Single Hasher DiskFile CheckSummer CheckSummerSpec HashTable Packets Parameters CreatorLayout SourceFile SourceFileSpec SourceBlocksSpec PacketScan RepairFiles RepairScan RepairProcess.

(** ** 16-bit words *)

Definition word_at (l : list Z) (w : nat) : Z := nth (2 * w) l 0 + 256 * nth (2 * w + 1) l 0.

Lemma nth_bytes l i : Forall (in_range 8) l → in_range 8 (nth i l 0).
Proof. intros H. rewrite nth_lookup. destruct (l !! i) as [x|] eqn:E; [|split; simpl; lia]. rewrite Forall_lookup in H. by eapply H. Qed.

Lemma word_at_range l w : Forall (in_range 8) l → u16 (word_at l w).
Proof. intros H. pose proof (nth_bytes l (2 * w) H) as [? ?]. pose proof (nth_bytes l (2 * w + 1) H) as [? ?]. unfold word_at. split; simpl in *; lia. Qed.

Lemma words_eq l1 l2 n : length l1 = (2 * n)%nat → length l2 = (2 * n)%nat → Forall (in_range 8) l1 → Forall (in_range 8) l2 →
  (∀ w, (w < n)%nat → word_at l1 w = word_at l2 w) → l1 = l2.
Proof.
  intros L1 L2 H1 H2 Hw. apply (nth_ext _ _ 0 0); [lia|]. intros i Hi. pose proof (Nat.div_mod_eq i 2) as Hd. pose proof (Nat.mod_upper_bound i 2 ltac:(lia)) as Hm.
  set (q := (i / 2)%nat) in *. set (r := (i mod 2)%nat) in *. clearbody q r. specialize (Hw q ltac:(lia)). unfold word_at in Hw.
  pose proof (nth_bytes l1 (2 * q) H1) as [? ?]. pose proof (nth_bytes l2 (2 * q) H2) as [? ?].
  pose proof (nth_bytes l1 (2 * q + 1) H1) as [? ?]. pose proof (nth_bytes l2 (2 * q + 1) H2) as [? ?]. change (2 ^ 8) with 256 in *.
  assert (i = 2 * q ∨ i = 2 * q + 1)%nat as [-> | ->] by lia; lia.
Qed.

Lemma word_at_slice l p n w : (2 * w + 1 < n)%nat → word_at (slice l (2 * p) n) w = word_at l (p + w).
Proof.
  intros Hw. unfold word_at. rewrite !nth_lookup. unfold slice. rewrite !lookup_take_lt, !lookup_drop by lia.
  by replace (2 * p + 2 * w)%nat with (2 * (p + w))%nat by lia; replace (2 * p + (2 * w + 1))%nat with (2 * (p + w) + 1)%nat by lia.
Qed.

(** ** The backend *)

(** What the backend promises: an output is the sum of the products of the inputs with their
    factors, word by word.  The buffers are as large as [AllocateBuffers] makes them at most, and
    every input comes with a factor for each of [r] outputs. *)
Class BackendLaws `{Backend} : Prop :=
  getOutput_ok sent k n r : sent ≠ [] → (0 < n)%nat → Z.of_nat n ≤ 16777216 → (k < r)%nat → Z.of_nat r ≤ 65535 →
    Forall (λ s, length s.1 = (2 * n)%nat ∧ Forall (in_range 8) s.1 ∧ length s.2 = r ∧ Forall (λ c, u16 c) s.2) sent →
    ∃ out, getOutput sent k = Some out ∧ length out = (2 * n)%nat ∧ Forall (in_range 8) out ∧
      ∀ w, (w < n)%nat → word_at out w = xsum (λ s, mul16 (nth k s.2 0) (word_at s.1 w)) sent.

(** A backend that computes every word by its definition *)
Definition split_word (v : Z) : list Z := [Z.land v 255; Z.shiftr v 8].
#[export] Instance direct_backend : Backend := {|
  getOutput sent k :=
    Some (mjoin ((λ w, split_word (xsum (λ s, mul16 (nth k s.2 0) (word_at s.1 w)) sent)) <$> seq 0 (Nat.div2 (length (default [] (fst <$> head sent))))))
|}.

Lemma nth_words (f : nat → Z) n : (∀ w, u16 (f w)) → let l := mjoin ((λ w, split_word (f w)) <$> seq 0 n) in
  length l = (2 * n)%nat ∧ Forall (in_range 8) l ∧ ∀ w, (w < n)%nat → word_at l w = f w.
Proof.
  intros Hf. cbn zeta. induction n as [|n (IL & IF & IW)].
  { split; [done|]. split; [constructor|lia]. }
  rewrite seq_S, fmap_app, join_app. cbn [fmap list_fmap mjoin list_join Nat.add]. rewrite app_nil_r. set (l := mjoin _) in *.
  destruct (Hf n) as [H0 H1]. pose proof (Z.land_ones (f n) 8 ltac:(lia)) as El. change (Z.ones 8) with 255 in El.
  pose proof (Z.shiftr_div_pow2 (f n) 8 ltac:(lia)) as Es. pose proof (Z.div_mod (f n) (2 ^ 8) ltac:(lia)) as Hd. pose proof (Z.mod_pos_bound (f n) (2 ^ 8) ltac:(lia)) as Hm.
  split; [rewrite length_app, IL; cbn [length split_word]; lia|]. split.
  - apply Forall_app. split; [done|]. unfold split_word. rewrite El, Es. apply Forall_cons_2; [exact Hm|]. apply Forall_cons_2; [|apply Forall_nil_2].
    split; [apply Z.div_pos; lia|apply Z.div_lt_upper_bound; [lia|]]. exact H1.
  - intros w Hw. destruct (decide (w = n)) as [->|Hne].
    + unfold word_at. rewrite !app_nth2, IL by lia. replace (2 * n - 2 * n)%nat with 0%nat by lia. replace (2 * n + 1 - 2 * n)%nat with 1%nat by lia.
      cbn [nth split_word]. rewrite El, Es. change 256 with (2 ^ 8). lia.
    + unfold word_at. rewrite !app_nth1 by lia. apply IW. lia.
Qed.

#[export] Instance direct_backend_laws : BackendLaws.
Proof.
  intros sent k n r Hne _ _ _ _ HF. cbn [getOutput direct_backend]. destruct sent as [|s sent]; [done|].
  pose proof HF as [(Hl & _) _]%Forall_cons. change (default [] (fst <$> head (s :: sent))) with s.1. rewrite Hl. replace (Nat.div2 (2 * n)) with n by (symmetry; apply Nat.div2_double).
  destruct (nth_words (λ w, xsum (λ s, mul16 (nth k s.2 0) (word_at s.1 w)) (s :: sent)) n) as (H1 & H2 & H3).
  { intros w. clear. induction (s :: sent) as [|x l IH]; [split; simpl; lia|]. rewrite xsum_cons. apply in_range_lxor; [lia|apply mul16_range|done]. }
  eexists. split; [reflexivity|]. done.
Qed.

(** ** Blocks that are read and written *)

(** The file of a block holds [v] there, padded with zeros to the block size *)
Definition stored (bs : nat) (ds : list DiskFile) (b : DataBlock) (v : list Z) : Prop :=
  ∃ i d, b_diskfile b = Some i ∧ ds !! i = Some d ∧ disk_ok d ∧ filesize d ≤ MaxOffset ∧
    0 ≤ b_offset b ∧ 0 < b_length b ≤ Z.of_nat bs ∧ b_offset b + b_length b ≤ filesize d ∧
    v = slice (contents d) (Z.to_nat (b_offset b)) (Z.to_nat (b_length b)) ++ replicate (bs - Z.to_nat (b_length b)) 0.

Section Blocks.
Context {backend : Backend} {laws : BackendLaws} (maxlength : Z) (bs : nat).
Hypothesis Hmax : 0 < maxlength.

Lemma stored_read ds b v last p n : stored bs ds b v → (p + n ≤ bs)%nat →
  ∃ i d d', b_diskfile b = Some i ∧ ds !! i = Some d ∧ disk_ok d' ∧ contents d' = contents d ∧
    read_block maxlength last b (Z.of_nat p) (Z.of_nat n) ds = Some (true, slice v p n, i, <[i := d']> ds).
Proof.
  intros (i & d & Hi & Hd & Hok & HM & Ho & Hl & Hin & ->) Hpn. pose proof (do_size _ Hok) as Hz.
  unfold read_block. rewrite Hi. cbn [mbind option_bind]. rewrite Hd. cbn [mbind option_bind]. set (d1 := if decide (last = Some i) then d else reopen d).
  assert (disk_ok d1 ∧ contents d1 = contents d ∧ filesize d1 = filesize d) as (Hok1 & Hc1 & Hf1).
  { unfold d1. destruct (decide _); [done|]. split; [|done]. by split. }
  clearbody d1. set (off := Z.to_nat (b_offset b)). set (len := Z.to_nat (b_length b)). set (blk := slice (contents d) off len).
  assert (length blk = len) as Lb by (apply length_slice; lia).
  destruct (Z.lt_ge_cases (Z.of_nat p) (b_length b)) as [Hlt|Hge].
  - destruct (ReadData_ok b d1 (Z.of_nat p) (Z.of_nat n) maxlength) as (d' & -> & Hok' & Hc'); [done|done|lia|lia|lia|lia|lia|lia|].
    exists i, d, d'. split; [done|]. split; [done|]. split; [done|]. split; [congruence|]. cbn [mbind option_bind]. do 4 f_equal.
    unfold block_chunk. rewrite Hc1, !Nat2Z.id. fold off len. rewrite slice_block by (rewrite Lb; lia). rewrite Lb.
    replace (Nat.min (Nat.min n (len - p)) (length (contents d) - (off + p))) with (Nat.min n (len - p)) by lia. unfold blk. by rewrite slice_slice by lia.
  - exists i, d, d1. split; [done|]. split; [done|]. split; [done|]. split; [done|]. unfold ReadData, read_data. rewrite (proj2 (Z.ltb_ge _ _)) by lia.
    cbn [mbind option_bind]. rewrite slice_zeros by (rewrite Lb; lia). by rewrite Nat2Z.id.
Qed.

(** The disk at the start, the files that are repaired, the target blocks and what they are to hold *)
Context (ds0 : list DiskFile) (T : list nat) (tgt : list DataBlock) (B : list (list Z)).

Record targets_ok : Prop := {
  tg_files : ∀ j b t, tgt !! j = Some b → b_diskfile b = Some t → t ∈ T ∧ ∃ d0, ds0 !! t = Some d0 ∧
    0 ≤ b_offset b ∧ 0 < b_length b ≤ Z.of_nat bs ∧ b_offset b + b_length b ≤ filesize d0 ≤ MaxOffset;
  tg_apart : ∀ j j' b b' t, j ≠ j' → tgt !! j = Some b → tgt !! j' = Some b' → b_diskfile b = Some t → b_diskfile b' = Some t →
    b_offset b + b_length b ≤ b_offset b' ∨ b_offset b' + b_length b' ≤ b_offset b;
  tg_unsized : ∀ j b, tgt !! j = Some b → b_filesize b = 0;
  tg_blocks : ∀ j v, B !! j = Some v → length v = bs ∧ Forall (in_range 8) v;
}.
Hypothesis Htgt : targets_ok.

(** The bytes [o] of the blocks [j] with [P j o] are right; other files are as at the start. *)
Record going (P : nat → nat → Prop) (ds : list DiskFile) : Prop := {
  go_length : length ds = length ds0;
  go_files : ∀ i d0 d, ds0 !! i = Some d0 → ds !! i = Some d → disk_ok d ∧ filesize d = filesize d0 ∧ (i ∉ T → contents d = contents d0);
  go_right : ∀ j b t d v o, tgt !! j = Some b → b_diskfile b = Some t → ds !! t = Some d → B !! j = Some v → (o < Z.to_nat (b_length b))%nat → P j o →
    contents d !! (Z.to_nat (b_offset b) + o)%nat = v !! o;
}.

Lemma going_weaken P Q ds : going P ds → (∀ j o, is_Some (B !! j) → Q j o → P j o) → going Q ds.
Proof. intros [H1 H2 H3] HQ. split; [done|done|]. intros. eapply H3; eauto. Qed.

(** A read changes nothing that matters. *)
Lemma going_read P ds i d d' : going P ds → ds !! i = Some d → disk_ok d' → contents d' = contents d → going P (<[i := d']> ds).
Proof.
  intros [H1 H2 H3] Hi Hd' Hc. split.
  - by rewrite length_insert.
  - intros i' d0 d1 H0 Hi'. destruct (decide (i = i')) as [<-|Hne].
    + rewrite list_lookup_insert_eq in Hi' by (by apply lookup_lt_Some in Hi). injection Hi' as <-. destruct (H2 i d0 d H0 Hi) as (Hk & Hf & Hcc).
      split; [done|]. split; [|intros HT; rewrite Hc; by apply Hcc]. rewrite (do_size _ Hd'), Hc, <- (do_size _ Hk). done.
    + rewrite list_lookup_insert_ne in Hi' by done. by apply (H2 i').
  - intros j b t d1 v o Hj Hb Ht. destruct (decide (i = t)) as [<-|Hne].
    + rewrite list_lookup_insert_eq in Ht by (by apply lookup_lt_Some in Hi). injection Ht as <-. rewrite Hc. by apply (H3 j b i).
    + rewrite list_lookup_insert_ne in Ht by done. by apply (H3 j b t).
Qed.

(** Blocks of other files stay readable. *)
Lemma going_stored P ds b v i : going P ds → stored bs ds0 b v → b_diskfile b = Some i → i ∉ T → stored bs ds b v.
Proof.
  intros [H1 H2 H3] (i' & d0 & Hi & Hd & Hok & HM & Ho & Hl & Hin & ->) Hi' HT. assert (i' = i) as -> by congruence.
  destruct (lookup_lt_is_Some_2 ds i) as [d Ed]; [rewrite H1; by apply lookup_lt_Some in Hd|]. destruct (H2 i d0 d Hd Ed) as (Hk & Hf & Hc).
  exists i, d. rewrite Hc, Hf by done. split_and!; done || lia.
Qed.

Lemma going_write P ds j b t v p n : going P ds → tgt !! j = Some b → b_diskfile b = Some t → B !! j = Some v → (p + n ≤ bs)%nat → (0 < n)%nat →
  ∃ ds', write_block maxlength b (Z.of_nat p) (slice v p n) ds = Some (true, ds') ∧ going (λ j' o, P j' o ∨ (j' = j ∧ (p ≤ o < p + n)%nat)) ds'.
Proof.
  intros Hg Hj Hb Hv Hpn Hn. pose proof Hg as [H1 H2 H3]. destruct (tg_files Htgt j b t Hj Hb) as (HT & d0 & Hd0 & Ho & Hl & Hin & HM).
  destruct (lookup_lt_is_Some_2 ds t) as [d Ed]; [rewrite H1; by apply lookup_lt_Some in Hd0|]. destruct (H2 t d0 d Hd0 Ed) as (Hk & Hf & _).
  destruct (tg_blocks Htgt j v Hv) as [Lv Hbytes]. unfold MaxOffset in HM. pose proof (do_size _ Hk) as Hz.
  unfold write_block. rewrite Hb. cbn [mbind option_bind]. rewrite Ed. cbn [mbind option_bind]. unfold WriteData, write_data.
  destruct (Z.ltb_spec (Z.of_nat p) (b_length b)) as [Hlt|Hge].
  2: { cbn [mbind option_bind]. eexists. split; [reflexivity|]. rewrite list_insert_id by done. split; [done|done|].
       intros j' b' t' d' v' o Hj' Hb' Ht' Hv' Hlo [HP|[-> Hpo]]; [by apply (H3 j' b' t')|]. assert (b' = b) as -> by congruence. lia. }
  assert (length (slice v p n) = n) as Ls by (apply length_slice; lia). rewrite Ls.
  set (have := Nat.min n (Z.to_nat (b_length b) - p)).
  assert (Z.to_nat (Z.min (Z.of_nat n) (b_length b - Z.of_nat p)) = have) as -> by lia. assert (0 < have ≤ n)%nat as Hhave by lia.
  rewrite wrap_small by (split; simpl; lia).
  assert (take have (slice v p n) = slice v p have) as -> by (unfold slice; rewrite take_take; f_equal; lia).
  assert (length (slice v p have) = have) as Lh by (apply length_slice; lia).
  destruct (Write_ok d (b_offset b + Z.of_nat p) (slice v p have) maxlength Hk Hmax) as [-> Hk']; [unfold MaxOffset; lia| |].
  { intros E. rewrite E in Lh. simpl in Lh. lia. }
  cbn [mbind option_bind negb]. eexists. split; [reflexivity|]. set (d' := after_write d _ _) in *.
  assert (filesize d' = filesize d) as Hf' by (unfold d'; simpl; rewrite Lh; lia).
  split.
  - by rewrite length_insert.
  - intros i' d1 d2 Hi1 Hi2. destruct (decide (t = i')) as [<-|Hne].
    + rewrite list_lookup_insert_eq in Hi2 by (by apply lookup_lt_Some in Ed). injection Hi2 as <-. split; [done|]. split; [congruence|done].
    + rewrite list_lookup_insert_ne in Hi2 by done. by apply (H2 i').
  - intros j' b' t' d2 v' o Hj' Hb' Ht' Hv' Hlo HP. destruct (decide (t = t')) as [<-|Hne].
    2: { rewrite list_lookup_insert_ne in Ht' by done. destruct HP as [HP|[-> _]]; [by apply (H3 j' b' t')|]. congruence. }
    rewrite list_lookup_insert_eq in Ht' by (by apply lookup_lt_Some in Ed). injection Ht' as <-. unfold d'. cbn [contents after_write].
    rewrite lookup_fwrite by lia. rewrite Lh. destruct (tg_files Htgt j' b' t Hj' Hb') as (_ & d0' & Hd0' & Ho' & Hl' & Hin' & _).
    assert (d0' = d0) as -> by congruence.
    destruct (decide (j' = j)) as [->|Hjj].
    + assert (b' = b) as -> by congruence. assert (v' = v) as -> by congruence. case_decide as Hd1.
      * unfold slice. rewrite lookup_take_lt, lookup_drop by lia. f_equal. lia.
      * rewrite decide_False by lia. destruct HP as [HP|[_ Hpo]]; [by apply (H3 j b t)|]. lia.
    + destruct HP as [HP|[-> _]]; [|done]. rewrite decide_False, decide_False.
      * by apply (H3 j' b' t).
      * lia.
      * destruct (tg_apart Htgt j' j b' b t Hjj Hj' Hj Hb' Hb); lia.
Qed.

(** ** The loops over the blocks *)

(** What a chunk of [n] bytes from byte [p] adds *)
Definition with_chunk (P : nat → nat → Prop) (js : list nat) (p n : nat) : nat → nat → Prop :=
  λ j o, P j o ∨ (j ∈ js ∧ (p ≤ o < p + n)%nat).

(** The block comes from a file that is not repaired, and holds [v]. *)
Definition input_ok (b : DataBlock) (v : list Z) : Prop := stored bs ds0 b v ∧ ∃ i, b_diskfile b = Some i ∧ i ∉ T.

Lemma read_ok P ds b v last p n : going P ds → input_ok b v → (p + n ≤ bs)%nat →
  ∃ i ds', read_block maxlength last b (Z.of_nat p) (Z.of_nat n) ds = Some (true, slice v p n, i, ds') ∧ going P ds'.
Proof.
  intros Hg [Hs (i & Hi & HT)] Hpn. destruct (stored_read ds b v last p n (going_stored P ds b v i Hg Hs Hi HT) Hpn) as (i' & d & d' & _ & Hd & Hd' & Hc & ->).
  exists i', (<[i' := d']> ds). split; [done|]. by apply (going_read P ds i' d).
Qed.

Section Chunk.
Context (p n : nat) (FileSize : nat → Z).
Hypothesis Hpn : (p + n ≤ bs)%nat.
Hypothesis Hn : (0 < n)%nat.

Lemma target_set j b : tgt !! j = Some b → IsSet FileSize b = match b_diskfile b with Some _ => true | None => false end.
Proof. intros Hj. unfold IsSet. by rewrite (tg_unsized Htgt j b Hj). Qed.

Lemma write_ok P ds j b v js : going (with_chunk P js p n) ds → tgt !! j = Some b → b_diskfile b ≠ None → B !! j = Some v →
  ∃ ds', write_block maxlength b (Z.of_nat p) (slice v p n) ds = Some (true, ds') ∧ going (with_chunk P (j :: js) p n) ds'.
Proof.
  intros Hg Hj Hb Hv. destruct (b_diskfile b) as [t|] eqn:Et; [|done].
  destruct (going_write _ ds j b t v p n Hg Hj Et Hv Hpn Hn) as (ds' & E & Hg'). exists ds'. split; [exact E|]. eapply going_weaken; [exact Hg'|].
  intros j' o _ [HP|[[->|Hj']%elem_of_cons Ho]]; unfold with_chunk; [auto| |]; [by right|left; by right].
Qed.

Lemma unset_ok P ds j b js : going (with_chunk P js p n) ds → tgt !! j = Some b → b_diskfile b = None → going (with_chunk P (j :: js) p n) ds.
Proof.
  intros [H1 H2 H3] Hj Hb. split; [done|done|]. intros j' b' t d v o Hj' Hb' Ht Hv Ho [HP|[[->|Hjs]%elem_of_cons Hpo]]; [|congruence|];
    apply (H3 j' b' t); unfold with_chunk; auto.
Qed.

Lemma copy_block_ok P ds c j copies v js : going (with_chunk P js p n) ds → tgt !! j = Some c → B !! j = Some v →
  ∃ ds', copy_block maxlength (c :: copies) (Z.of_nat p) (slice v p n) FileSize ds = Some (true, ds') ∧ going (with_chunk P (j :: js) p n) ds'.
Proof.
  intros Hg Hj Hv. unfold copy_block. rewrite (target_set j c Hj). destruct (b_diskfile c) as [t|] eqn:Et.
  - apply write_ok; [done|done|by rewrite Et|done].
  - exists ds. split; [done|]. by apply unset_ok with c.
Qed.

(** What the backend gets *)
Definition sent_inputs (m : Matrix) (missing : nat) (index : Z) (vs : list (list Z)) : list (list Z * list Z) :=
  imap (λ c v, (slice v p n, (λ k, factor m (index + Z.of_nat c) (Z.of_nat k)) <$> seq 0 missing)) vs.

Lemma sent_cons m missing index v vs : sent_inputs m missing index (v :: vs)
  = (slice v p n, (λ k, factor m index (Z.of_nat k)) <$> seq 0 missing) :: sent_inputs m missing (index + 1) vs.
Proof.
  unfold sent_inputs. rewrite imap_cons, Z.add_0_r. f_equal. apply imap_ext. intros c w _. cbn [compose]. f_equal. apply list_fmap_ext. intros _ k _. f_equal. lia.
Qed.

Lemma input_loop_ok m missing ins vs copies js js0 P ds last index : going (with_chunk P js0 p n) ds → Forall2 input_ok ins vs →
  Forall2 (λ c j, tgt !! j = Some c) copies js → (∀ k j, js !! k = Some j → ∃ v, vs !! k = Some v ∧ B !! j = Some v) →
  ∃ ds', input_loop maxlength m missing FileSize (Z.of_nat p) (Z.of_nat n) last index ins copies ds = Some (true, sent_inputs m missing index vs, ds') ∧
    going (with_chunk P (js ++ js0) p n) ds'.
Proof.
  intros Hg HI. revert copies js js0 ds last index Hg. induction HI as [|b v ins vs Hb HI IH]; intros copies js js0 ds last index Hg HC Hjs; cbn [input_loop].
  { destruct js as [|j js]; [by exists ds|]. destruct (Hjs 0%nat j eq_refl) as (? & ? & _). done. }
  destruct (read_ok _ ds b v last p n Hg Hb Hpn) as (i & ds1 & -> & Hg1). cbn [mbind option_bind negb].
  destruct HC as [|c j copies js Hc HC].
  - cbn [copy_block mbind option_bind negb tail]. destruct (IH [] [] js0 ds1 (Some i) (index + 1) Hg1 ltac:(constructor) ltac:(done)) as (ds2 & -> & Hg2).
    cbn [mbind option_bind]. rewrite sent_cons. by exists ds2.
  - destruct (Hjs 0%nat j eq_refl) as (v' & [= <-] & Hv). destruct (copy_block_ok P ds1 c j copies v js0 Hg1 Hc Hv) as (ds2 & -> & Hg2).
    cbn [mbind option_bind negb tail].
    destruct (IH copies js (j :: js0) ds2 (Some i) (index + 1) Hg2 HC) as (ds3 & -> & Hg3); [intros k; apply (Hjs (S k))|].
    cbn [mbind option_bind]. rewrite sent_cons. exists ds3. split; [done|]. eapply going_weaken; [exact Hg3|]. unfold with_chunk. set_solver.
Qed.

Lemma copy_loop_ok ins vs copies js js0 P ds last : going (with_chunk P js0 p n) ds → Forall2 input_ok ins vs →
  Forall2 (λ c j, tgt !! j = Some c) copies js → (∀ k j, js !! k = Some j → ∃ v, vs !! k = Some v ∧ B !! j = Some v) →
  ∃ ds', copy_loop maxlength FileSize (Z.of_nat p) (Z.of_nat n) last ins copies ds = Some (true, ds') ∧ going (with_chunk P (js ++ js0) p n) ds'.
Proof.
  intros Hg HI HC. revert ins vs js0 ds last Hg HI. induction HC as [|c j copies js Hc HC IH]; intros ins vs js0 ds last Hg HI Hjs; cbn [copy_loop]; [by exists ds|].
  destruct (Hjs 0%nat j eq_refl) as (v & Hv0 & Hv). destruct HI as [|b v' ins vs Hb HI]; [done|]. cbn in Hv0. injection Hv0 as ->.
  assert (∀ ds1, going (with_chunk P (j :: js0) p n) ds1 → ∀ last', ∃ ds', copy_loop maxlength FileSize (Z.of_nat p) (Z.of_nat n) last' ins copies ds1 = Some (true, ds') ∧
    going (with_chunk P ((j :: js) ++ js0) p n) ds') as Hnext.
  { intros ds1 Hg1 last'. destruct (IH ins vs (j :: js0) ds1 last' Hg1 HI) as (ds2 & -> & Hg2); [intros k; apply (Hjs (S k))|].
    exists ds2. split; [done|]. eapply going_weaken; [exact Hg2|]. unfold with_chunk. set_solver. }
  rewrite (target_set j c Hc). destruct (b_diskfile c) as [t|] eqn:Et.
  - cbn [head mbind option_bind tail]. destruct (read_ok _ ds b v last p n Hg Hb Hpn) as (i & ds1 & -> & Hg1). cbn [mbind option_bind negb].
    destruct (write_ok P ds1 j c v js0 Hg1 Hc ltac:(by rewrite Et) Hv) as (ds2 & -> & Hg2). cbn [mbind option_bind negb]. by apply Hnext.
  - cbn [tail]. apply Hnext. by apply unset_ok with c.
Qed.

Lemma output_loop_ok sent outputs js js0 P ds k0 : going (with_chunk P js0 p n) ds →
  Forall2 (λ c j, tgt !! j = Some c ∧ b_diskfile c ≠ None) outputs js →
  (∀ k j, js !! k = Some j → ∃ v, B !! j = Some v ∧ getOutput sent (k0 + k) = Some (slice v p n)) →
  ∃ ds', output_loop maxlength sent (Z.of_nat p) k0 outputs ds = Some (true, ds') ∧ going (with_chunk P (js ++ js0) p n) ds'.
Proof.
  intros Hg HC. revert js0 ds k0 Hg. induction HC as [|c j outputs js [Hc Hset] HC IH]; intros js0 ds k0 Hg Hjs; cbn [output_loop]; [by exists ds|].
  destruct (Hjs 0%nat j eq_refl) as (v & Hv & Ho). rewrite Nat.add_0_r in Ho. rewrite Ho.
  destruct (write_ok P ds j c v js0 Hg Hc Hset Hv) as (ds1 & -> & Hg1). cbn [mbind option_bind negb].
  destruct (IH (j :: js0) ds1 (S k0) Hg1) as (ds2 & -> & Hg2).
  { intros k j' Hk. destruct (Hjs (S k) j' Hk) as (v' & Hv' & Ho'). exists v'. split; [done|]. by rewrite Nat.add_succ_l, <- Nat.add_succ_r. }
  exists ds2. split; [done|]. eapply going_weaken; [exact Hg2|]. unfold with_chunk. set_solver.
Qed.
End Chunk.
End Blocks.

(** ** The blocks that are present and missing *)

Fixpoint indices (b : bool) (present : list bool) (start : nat) : list nat :=
  match present with
  | [] => []
  | x :: present => if Bool.eqb x b then start :: indices b present (S start) else indices b present (S start)
  end.

Lemma indices_with b (whole l : list bool) s : drop s whole = l → length whole = (s + length l)%nat →
  Z.of_nat <$> indices b l s = filter (λ i, is_valid whole i = b) (seqZ (Z.of_nat s) (Z.of_nat (length l))).
Proof.
  revert s. induction l as [|x l IH]; intros s Hd Hl; cbn [indices length]; [done|]. cbn [length] in Hl.
  assert (whole !! s = Some x) as Hx by (rewrite <- (Nat.add_0_r s), <- lookup_drop, Hd; done).
  assert (drop (S s) whole = l) as Hd' by (rewrite (drop_S _ x s Hx) in Hd; by injection Hd).
  rewrite seqZ_cons by lia. replace (Z.pred (Z.of_nat (S (length l)))) with (Z.of_nat (length l)) by lia.
  replace (Z.succ (Z.of_nat s)) with (Z.of_nat (S s)) by lia.
  rewrite filter_cons. assert (is_valid whole (Z.of_nat s) = x) as Ex by (unfold is_valid; by rewrite Nat2Z.id, Hx).
  destruct (decide (is_valid whole (Z.of_nat s) = b)) as [E|E]; rewrite Ex in E;
    destruct x, b; try done; cbn [Bool.eqb]; rewrite ?fmap_cons, (IH (S s)) by (done || lia); done.
Qed.

Lemma indices_inputs b present : Z.of_nat <$> indices b present 0 = inputs_with present b (Z.of_nat (length present)).
Proof. by apply indices_with. Qed.

Lemma indices_valid b present : length (inputs_with present b (Z.of_nat (length present))) = length (indices b present 0).
Proof. by rewrite <- indices_inputs, length_fmap. Qed.

Lemma indices_lt b present s j : j ∈ indices b present s → (s ≤ j < s + length present)%nat.
Proof.
  revert s. induction present as [|x present IH]; intros s; cbn [indices length]; [by intros Hj%elem_of_nil|].
  destruct (Bool.eqb x b); [intros [->|Hj]%elem_of_cons; [lia|]|intros Hj]; apply IH in Hj; lia.
Qed.

Lemma indices_count b present s : (length (indices b present s) ≤ length present)%nat.
Proof. revert s. induction present as [|x present IH]; intros s; cbn [indices length]; [lia|]. destruct (Bool.eqb x b); cbn [length]; specialize (IH (S s)); lia. Qed.

Lemma indices_all present s j : (s ≤ j < s + length present)%nat → j ∈ indices true present s ∨ j ∈ indices false present s.
Proof.
  revert s. induction present as [|x present IH]; intros s Hj; cbn [indices length] in *; [lia|].
  destruct (decide (j = s)) as [->|Hne]; [destruct x; cbn [Bool.eqb]; [left|right]; by left|].
  destruct (IH (S s) ltac:(lia)) as [H|H]; [left|right]; destruct x; cbn [Bool.eqb]; try by right. all: done.
Qed.

Lemma sort_blocks_ok FileSize (S T ss ts : list DataBlock) s : length ss = length ts → (∀ k, ss !! k = S !! (s + k)%nat) → (∀ k, ts !! k = T !! (s + k)%nat) →
  let present := IsSet FileSize <$> ss in
  ∃ ins copies outs, sort_blocks FileSize ss ts = Some (present, ins, copies, outs) ∧
    Forall2 (λ b j, S !! j = Some b ∧ IsSet FileSize b = true) ins (indices true present s) ∧
    Forall2 (λ c j, T !! j = Some c) copies (indices true present s) ∧
    Forall2 (λ c j, T !! j = Some c ∧ ∃ b, S !! j = Some b ∧ IsSet FileSize b = false) outs (indices false present s).
Proof.
  cbn zeta. revert ts s. induction ss as [|b ss IH]; intros [|c ts] s Hl HS HT; try discriminate; cbn [sort_blocks].
  { exists [], [], []. split; [done|]. repeat split; constructor. }
  pose proof (HS 0%nat) as Hb. pose proof (HT 0%nat) as Hc. rewrite Nat.add_0_r in Hb, Hc.
  destruct (IH ts (Datatypes.S s)) as (ins & copies & outs & -> & H1 & H2 & H3).
  - by injection Hl.
  - intros k. rewrite Nat.add_succ_l, <- Nat.add_succ_r. apply (HS (Datatypes.S k)).
  - intros k. rewrite Nat.add_succ_l, <- Nat.add_succ_r. apply (HT (Datatypes.S k)).
  - cbn [mbind option_bind fmap list_fmap]. change (list_fmap ?A ?B ?g ?l) with (g <$> l). cbn [indices].
    destruct (IsSet FileSize b) eqn:Es; cbn [Bool.eqb]; eexists _, _, _; (split; [reflexivity|]); split_and!; try done; constructor; try done.
    split; [done|]. by exists b.
Qed.

(** ** Sums over the inputs *)

Lemma xsum_imap {A C} (f : C → Z) (h : nat → A → C) (d : A) l : xsum f (imap h l) = xsum (λ i, f (h i (nth i l d))) (seq 0 (length l)).
Proof.
  revert h. induction l as [|x l IH]; intros h; [done|]. rewrite imap_cons, xsum_cons. cbn [length seq]. rewrite xsum_cons. f_equal.
  rewrite IH, <- seq_shift, xsum_map. done.
Qed.

(** ** A chunk *)

Section Chunks.
Context {backend : Backend} {laws : BackendLaws} (maxlength : Z) (bs : nat).
Hypothesis Hmax : 0 < maxlength.
Context (ds0 : list DiskFile) (T : list nat) (tgt : list DataBlock) (B : list (list Z)).
Hypothesis Htgt : targets_ok bs ds0 T tgt B.
Hypothesis Hcount : Z.of_nat (length B) ≤ 32768.

(** The matrix fits the blocks: [vs] are the contents of the inputs, first of the blocks that
    are present, then of the recovery blocks with exponents [exponents]. *)
Record matrix_ok (present : list bool) (m : Matrix) (vs : list (list Z)) (exponents : list Z) : Prop := {
  mo_present : length present = length B;
  mo_inputs : Forall2 (input_ok bs ds0 T) (inputblocks m) vs;
  mo_copies : Forall2 (λ c j, tgt !! j = Some c) (copyblocks m) (indices true present 0);
  mo_outputs : Forall2 (λ c j, tgt !! j = Some c ∧ b_diskfile c ≠ None) (outputblocks m) (indices false present 0);
  mo_values : ∀ k j, indices true present 0 !! k = Some j → vs !! k = B !! j;
  mo_length : (0 < length (indices false present 0))%nat → length vs = (length (indices true present 0) + length (indices false present 0))%nat;
  mo_recovery : ∀ r v, (r < length (indices false present 0))%nat → vs !! (length (indices true present 0) + r)%nat = Some v →
    length v = bs ∧ Forall (in_range 8) v ∧ ∀ w, (2 * w + 1 < bs)%nat →
      word_at v w = recovery_word present (λ i, word_at (default [] (B !! Z.to_nat i)) w) (default 0 (exponents !! r));
  mo_recovers : (0 < length (indices false present 0))%nat →
    recovers present (Z.of_nat (length (indices true present 0))) (Z.of_nat (length (indices false present 0))) (factor m) exponents;
  mo_factor : ∀ c r, u16 (factor m c r);
}.

Section Matrix.
Context (present : list bool) (m : Matrix) (vs : list (list Z)) (exponents : list Z).
Hypothesis Hm : matrix_ok present m vs exponents.
Local Abbreviation nval := (length (indices true present 0)).
Local Abbreviation nmiss := (length (indices false present 0)).

Lemma column_present c j : indices true present 0 !! c = Some j → column_input present (Z.of_nat c) = Z.of_nat j.
Proof.
  intros Hc. unfold column_input, column_inputs. rewrite Nat2Z.id, <- !indices_inputs, lookup_app_l.
  - by rewrite list_lookup_fmap, Hc.
  - rewrite length_fmap. by apply lookup_lt_Some in Hc.
Qed.

Lemma column_missing r j : indices false present 0 !! r = Some j → column_input present (Z.of_nat nval + Z.of_nat r) = Z.of_nat j.
Proof.
  intros Hr. unfold column_input, column_inputs. rewrite <- !indices_inputs, lookup_app_r; rewrite length_fmap; [|lia].
  replace (Z.to_nat (Z.of_nat nval + Z.of_nat r) - nval)%nat with r by lia. by rewrite list_lookup_fmap, Hr.
Qed.

Lemma nth_of {A} (l : list A) d i x : l !! i = Some x → nth i l d = x.
Proof. intros E. by rewrite nth_lookup, E. Qed.

Lemma block_bytes j : Forall (in_range 8) (default [] (B !! j)).
Proof. destruct (B !! j) as [v|] eqn:E; [|constructor]. exact (proj2 (tg_blocks _ _ _ _ _ Htgt j v E)). Qed.

Lemma input_value i v : vs !! i = Some v → (0 < nmiss)%nat → length v = bs ∧ Forall (in_range 8) v.
Proof.
  intros Hi Hpos. pose proof (lookup_lt_Some _ _ _ Hi) as Hlt. rewrite (mo_length _ _ _ _ Hm Hpos) in Hlt. destruct (decide (i < nval)%nat) as [Hlo|Hhi].
  - destruct (lookup_lt_is_Some_2 (indices true present 0) i Hlo) as [j Hj]. rewrite (mo_values _ _ _ _ Hm i j Hj) in Hi. by apply (tg_blocks _ _ _ _ _ Htgt) in Hi.
  - replace i with (nval + (i - nval))%nat in Hi by lia. by destruct (mo_recovery _ _ _ _ Hm (i - nval) v ltac:(lia) Hi) as (? & ? & _).
Qed.

Lemma missing_count : (nmiss ≤ length B)%nat.
Proof. rewrite <- (mo_present _ _ _ _ Hm). apply indices_count. Qed.

Lemma outputs_computed p n k j v : (0 < n)%nat → Z.of_nat n ≤ 16777216 → (2 * p + 2 * n ≤ bs)%nat → indices false present 0 !! k = Some j → B !! j = Some v →
  getOutput (sent_inputs (2 * p) (2 * n) m nmiss 0 vs) k = Some (slice v (2 * p) (2 * n)).
Proof.
  intros Hn Hn32 Hpn Hk Hv. pose proof missing_count as Hmc. pose proof (lookup_lt_Some _ _ _ Hk) as Hkn. assert (0 < nmiss)%nat as Hpos by lia. pose proof (mo_length _ _ _ _ Hm Hpos) as Hlen.
  destruct (tg_blocks _ _ _ _ _ Htgt j v Hv) as [Lv Hbytes].
  destruct (getOutput_ok (sent_inputs (2 * p) (2 * n) m nmiss 0 vs) k n nmiss) as (out & -> & Lout & Hout & Hw); [|done|done|done|lia| |].
  - unfold sent_inputs. intros E. apply (f_equal length) in E. rewrite length_imap in E. cbn [length] in E. lia.
  - apply Forall_lookup. intros i s Hs. unfold sent_inputs in Hs. rewrite list_lookup_imap in Hs. apply fmap_Some in Hs as (x & Hx & ->).
    destruct (input_value i x Hx Hpos) as [Lx Hxb]. cbn [fst snd]. split; [apply length_slice; lia|]. split; [by apply Forall_slice|].
    split; [by rewrite length_fmap, length_seq|]. apply Forall_fmap, Forall_true. intros r. apply (mo_factor _ _ _ _ Hm).
  - f_equal. apply (words_eq _ _ n); [done|apply length_slice; lia|done|by apply Forall_slice|]. intros w Hwn. rewrite (Hw w Hwn).
    rewrite word_at_slice by lia. unfold sent_inputs. rewrite (xsum_imap _ _ []), Hlen, seq_app, xsum_app.
    pose proof (mo_recovers _ _ _ _ Hm Hpos (λ i, word_at (default [] (B !! Z.to_nat i)) (p + w))) as Hr.
    specialize (Hr (λ i, word_at_range _ _ (block_bytes _)) (Z.of_nat k) ltac:(lia)). rewrite (column_missing k j Hk), Nat2Z.id, Hv in Hr. cbn [default from_option id] in Hr.
    rewrite Hr, !xsum_seqZ. symmetry. cbn [fst snd]. f_equal.
    + apply xsum_ext. intros c [_ Hc]%elem_of_seq. destruct (lookup_lt_is_Some_2 (indices true present 0) c ltac:(lia)) as [jc Hjc].
      rewrite (column_present c jc Hjc), Nat2Z.id. pose proof (indices_lt _ _ _ _ (list_elem_of_lookup_2 _ _ _ Hjc)) as Hlt. rewrite (mo_present _ _ _ _ Hm) in Hlt.
      destruct (lookup_lt_is_Some_2 B jc ltac:(lia)) as [x Hx]. rewrite Hx. cbn [default from_option id].
      pose proof (mo_values _ _ _ _ Hm c jc Hjc) as Hvc. rewrite Hx in Hvc.
      rewrite (nth_of vs [] c x Hvc), (nth_of _ 0 k (factor m (0 + Z.of_nat c) (Z.of_nat k))) by (rewrite list_lookup_fmap, lookup_seq_lt by done; done).
      rewrite word_at_slice by lia. done.
    + assert (seq (0 + nval) nmiss = Nat.add nval <$> seq 0 nmiss) as -> by (rewrite fmap_add_seq; f_equal; lia). rewrite xsum_map. apply xsum_ext. intros r [_ Hrn]%elem_of_seq.
      destruct (lookup_lt_is_Some_2 vs (nval + r) ltac:(lia)) as [x Hx]. destruct (mo_recovery _ _ _ _ Hm r x ltac:(lia) Hx) as (Lx & Hxb & Hxw).
      rewrite (nth_of vs [] _ x Hx), (nth_of _ 0 k (factor m (0 + Z.of_nat (nval + r)) (Z.of_nat k))) by (rewrite list_lookup_fmap, lookup_seq_lt by done; done).
      rewrite word_at_slice, (Hxw (p + w)%nat), Nat2Z.id by lia. f_equal. f_equal. lia.
Qed.

Lemma ProcessData_ok p n w : (0 < n)%nat → Z.of_nat n ≤ 16777216 → (2 * p + 2 * n ≤ bs)%nat → going ds0 T tgt B (λ _ o, (o < 2 * p)%nat) (disks w) →
  ∃ w', ProcessData maxlength m (Z.of_nat (2 * p)) (Z.of_nat (2 * n)) w = Some (true, w') ∧ names w' = names w ∧ others w' = others w ∧
    going ds0 T tgt B (λ _ o, (o < 2 * (p + n))%nat) (disks w').
Proof.
  intros Hn Hn32 Hpn Hg. set (P := λ (_ : nat) o, (o < 2 * p)%nat). pose proof Hm as [Hpres Hin Hcopy Hout Hval _ _ _ _].
  assert (going ds0 T tgt B (with_chunk P [] (2 * p) (2 * n)) (disks w)) as Hg0.
  { eapply going_weaken; [exact Hg|]. intros j o _ [HP|[Hj _]]; [done|]. by apply elem_of_nil in Hj. }
  assert (∀ k j, indices true present 0 !! k = Some j → ∃ v, vs !! k = Some v ∧ B !! j = Some v) as Hjs.
  { intros k j Hk. rewrite (Hval k j Hk). apply list_elem_of_lookup_2 in Hk as Hj. apply indices_lt in Hj.
    destruct (lookup_lt_is_Some_2 B j ltac:(lia)) as [v Hv]. by exists v. }
  assert (∀ js ds, going ds0 T tgt B (with_chunk P js (2 * p) (2 * n)) ds → (∀ j, is_Some (B !! j) → j ∈ js) → going ds0 T tgt B (λ _ o, (o < 2 * (p + n))%nat) ds) as Hend.
  { intros js ds Hgj Hall. eapply going_weaken; [exact Hgj|]. intros j o Hj Ho. destruct (decide (o < 2 * p)%nat); [by left|]. right. split; [by apply Hall|lia]. }
  assert (∀ j, is_Some (B !! j) → j ∈ indices true present 0 ∨ j ∈ indices false present 0) as Hcover.
  { intros j Hj%lookup_lt_is_Some. apply indices_all. lia. }
  unfold ProcessData. pose proof (Forall2_length _ _ _ Hout) as Hlo. rewrite Hlo. destruct (Nat.ltb_spec 0 nmiss) as [Hpos|Hzero].
  - destruct (input_loop_ok maxlength bs Hmax ds0 T tgt B Htgt (2 * p) (2 * n) (FileSizes w) Hpn ltac:(lia) m nmiss (inputblocks m) vs (copyblocks m)
      (indices true present 0) [] P (disks w) None 0 Hg0 Hin Hcopy Hjs) as (ds1 & -> & Hg1). cbn [mbind option_bind negb].
    destruct (output_loop_ok maxlength bs Hmax ds0 T tgt B Htgt (2 * p) (2 * n) (FileSizes w) Hpn ltac:(lia) (sent_inputs (2 * p) (2 * n) m nmiss 0 vs) (outputblocks m)
      (indices false present 0) _ P ds1 0 Hg1 Hout) as (ds2 & -> & Hg2).
    { intros k j Hk. pose proof (indices_lt _ _ _ _ (list_elem_of_lookup_2 _ _ _ Hk)) as Hj. destruct (lookup_lt_is_Some_2 B j ltac:(lia)) as [v Hv].
      exists v. split; [done|]. by apply (outputs_computed p n k j v). }
    cbn [mbind option_bind]. eexists. split; [reflexivity|]. split; [done|]. split; [done|]. cbn [disks set_disks]. eapply Hend; [exact Hg2|].
    intros j Hj. destruct (Hcover j Hj); set_solver.
  - destruct (copy_loop_ok maxlength bs Hmax ds0 T tgt B Htgt (2 * p) (2 * n) (FileSizes w) Hpn ltac:(lia) (inputblocks m) vs (copyblocks m)
      (indices true present 0) [] P (disks w) None Hg0 Hin Hcopy Hjs) as (ds1 & -> & Hg1). cbn [mbind option_bind].
    eexists. split; [reflexivity|]. split; [done|]. split; [done|]. cbn [disks set_disks]. eapply Hend; [exact Hg1|].
    intros j Hj. destruct (Hcover j Hj) as [H|H]; [set_solver|]. assert (indices false present 0 = []) as E by (apply nil_length_inv; lia). rewrite E in H. by apply elem_of_nil in H.
Qed.

Lemma process_chunks_ok fuel c p w : bs = (2 * Nat.div2 bs)%nat → (0 < c)%nat → Z.of_nat c ≤ 16777216 → (2 * p ≤ bs)%nat → (bs - 2 * p ≤ fuel)%nat →
  going ds0 T tgt B (λ _ o, (o < 2 * p)%nat) (disks w) →
  ∃ w', process_chunks maxlength fuel m (Z.of_nat bs) (Z.of_nat (2 * c)) (Z.of_nat (2 * p)) w = Some (true, w') ∧ names w' = names w ∧ others w' = others w ∧
    going ds0 T tgt B (λ _ o, (o < bs)%nat) (disks w').
Proof.
  intros Heven Hc Hc32. revert p w. induction fuel as [|fuel IH]; intros p w Hp Hf Hg; cbn [process_chunks]; destruct (Z.ltb_spec (Z.of_nat (2 * p)) (Z.of_nat bs)) as [Hlt|Hge].
  - lia.
  - exists w. split_and!; try done. by replace bs with (2 * p)%nat by lia.
  - set (n := Nat.min c (Nat.div2 bs - p)). assert (Z.min (Z.of_nat (2 * c)) (Z.of_nat bs - Z.of_nat (2 * p)) = Z.of_nat (2 * n)) as -> by lia.
    destruct (ProcessData_ok p n w ltac:(lia) ltac:(lia) ltac:(lia) Hg) as (w1 & -> & Hn1 & Ho1 & Hg1). cbn [mbind option_bind negb].
    replace (Z.of_nat (2 * p) + Z.of_nat (2 * n)) with (Z.of_nat (2 * (p + n))) by lia.
    destruct (IH (p + n)%nat w1 ltac:(lia) ltac:(lia) Hg1) as (w2 & -> & Hn2 & Ho2 & Hg2). exists w2. split_and!; congruence || done.
  - exists w. split_and!; try done. by replace bs with (2 * p)%nat by lia.
Qed.
End Matrix.
End Chunks.

(** ** The matrix *)

Lemma dropped_sub present valid l l' : dropped present valid l l' → ∀ e, e ∈ l' → e ∈ l.
Proof.
  induction 1 as [|l r l' _ _ IH]; intros e He; [done|]. apply IH in He. apply list_elem_of_lookup in He as [i Hi].
  apply list_elem_of_lookup. destruct (decide (i < Z.to_nat r)%nat).
  - exists i. by rewrite list_lookup_delete_lt in Hi.
  - exists (S i). by rewrite list_lookup_delete_ge in Hi by lia.
Qed.

Section ComputeMatrix.
Context {M : Type} (k : kernel M) (view : M → Z → Z) `{L : !KernelLaws k view} (tables : gfmat_tables) (mat0 : M).
Hypothesis Htables : tables_ok tables.
Context (bs : nat) (ds0 : list DiskFile) (T : list nat) (tgt : list DataBlock) (B : list (list Z)).
Context (FileSize : nat → Z) (sourceblocks : list DataBlock) (recoverypacketmap : Zmap RecoveryPacket).
Local Abbreviation present := (IsSet FileSize <$> sourceblocks).
Local Abbreviation nval := (length (indices true present 0)).
Local Abbreviation nmiss := (length (indices false present 0)).

(** What was found is right: every block that is present holds its data, every other block has a
    place in a file that is repaired, and every recovery packet holds the recovery block of
    its exponent. *)
Record found_right : Prop := {
  fr_blocks : length sourceblocks = length B ∧ length tgt = length B;
  fr_count : Z.of_nat (length B) ≤ 32768;
  fr_present : ∀ j b v, sourceblocks !! j = Some b → IsSet FileSize b = true → B !! j = Some v → input_ok bs ds0 T b v;
  fr_missing : ∀ j b c, sourceblocks !! j = Some b → IsSet FileSize b = false → tgt !! j = Some c → b_diskfile c ≠ None;
  fr_recovery : ∀ e p, recoverypacketmap !! e = Some p → 0 ≤ e ≤ 65535 ∧ ∃ v, input_ok bs ds0 T (r_datablock p) v ∧ length v = bs ∧ Forall (in_range 8) v ∧
    ∀ w, (2 * w + 1 < bs)%nat → word_at v w = recovery_word present (λ i, word_at (default [] (B !! Z.to_nat i)) w) e;
}.
Hypothesis Hright : found_right.

Lemma Forall2_values {A C} (R : A → C → Prop) (P : nat → A → Prop) l js : Forall2 (λ b j, P j b) l js → (∀ b j, P j b → ∃ v, R b v) → ∃ vs, Forall2 R l vs.
Proof. intros HF HP. induction HF as [|b j l js Hb _ (vs & IH)]; [by exists []|]. destruct (HP b j Hb) as [v Hv]. exists (v :: vs). by constructor. Qed.

Lemma present_values ins : Forall2 (λ b j, sourceblocks !! j = Some b ∧ IsSet FileSize b = true) ins (indices true present 0) →
  Forall2 (input_ok bs ds0 T) ins ((λ j, default [] (B !! j)) <$> indices true present 0).
Proof.
  intros HF. apply Forall2_fmap_r. eapply Forall2_impl; [exact HF|]. intros b j [Hb Hs]. destruct (fr_blocks Hright) as [Hl _].
  pose proof (lookup_lt_Some _ _ _ Hb) as Hlt. destruct (lookup_lt_is_Some_2 B j ltac:(lia)) as [v Hv]. cbn [compose]. rewrite Hv. by apply (fr_present Hright j).
Qed.

Lemma recovery_values exponents : Forall (λ e, is_Some (recoverypacketmap !! e)) exponents →
  ∃ blocks rv, mapM (λ exponent, r_datablock <$> recoverypacketmap !! exponent) exponents = Some blocks ∧ Forall2 (input_ok bs ds0 T) blocks rv ∧
    Forall2 (λ e v, length v = bs ∧ Forall (in_range 8) v ∧ ∀ w, (2 * w + 1 < bs)%nat →
      word_at v w = recovery_word present (λ i, word_at (default [] (B !! Z.to_nat i)) w) e) exponents rv.
Proof.
  induction 1 as [|e exponents [p Hp] _ (blocks & rv & E & H1 & H2)]; [by exists [], []|].
  destruct (fr_recovery Hright e p Hp) as (_ & v & Hv & Hlv & Hbv & Hw). exists (r_datablock p :: blocks), (v :: rv).
  split; [cbn; by rewrite Hp; cbn; rewrite E|]. split; by constructor.
Qed.

(** The exponents of the packets that were found, in order *)
Definition exponents_found : list Z := merge_sort Z.le (fst <$> map_to_list recoverypacketmap).

Lemma exponents_found_ok e : e ∈ exponents_found ↔ is_Some (recoverypacketmap !! e).
Proof.
  unfold exponents_found. rewrite (merge_sort_Permutation Z.le), list_elem_of_fmap. split.
  - intros ([e' p] & -> & Hp%elem_of_map_to_list). by exists p.
  - intros [p Hp]. exists (e, p). split; [done|]. by apply elem_of_map_to_list.
Qed.

Lemma exponents_wrap : wrap 16 <$> exponents_found = exponents_found ∧ Forall (λ e, 0 ≤ e ≤ 65535) exponents_found.
Proof.
  assert (Forall (λ e, 0 ≤ e ≤ 65535) exponents_found) as HF.
  { apply Forall_forall. intros e [p Hp]%exponents_found_ok. by apply (fr_recovery Hright e p). }
  split; [|done]. induction HF as [|e l He _ IH]; [done|]. rewrite fmap_cons, IH, wrap_small by (split; simpl; lia). done.
Qed.

Lemma repair_matrix_ok :
  ∃ r, ComputeRSmatrix k tables mat0 FileSize sourceblocks tgt (Z.of_nat nval) (Z.of_nat nmiss) recoverypacketmap = Some r ∧
    match r with
    | None => ∃ l, dropped present (Z.of_nat nval) exponents_found l ∧ (length l < nmiss)%nat
    | Some m => ∃ vs exponents, matrix_ok bs ds0 T tgt B present m vs exponents
    end.
Proof.
  destruct (fr_blocks Hright) as [Hls Hlt]. unfold ComputeRSmatrix.
  destruct (sort_blocks_ok FileSize sourceblocks tgt sourceblocks tgt 0 ltac:(lia) ltac:(done) ltac:(done)) as (ins & copies & outs & -> & Hins & Hcopies & Houts).
  cbn [mbind option_bind]. rewrite (Forall2_length _ _ _ Hcopies), (Forall2_length _ _ _ Houts), !Z.eqb_refl. cbn [andb negb].
  assert (Forall2 (λ c j, tgt !! j = Some c ∧ b_diskfile c ≠ None) outs (indices false present 0)) as Houts'.
  { eapply Forall2_impl; [exact Houts|]. intros c j [Hc (b & Hb & Hs)]. split; [done|]. by apply (fr_missing Hright j b). }
  pose proof (present_values ins Hins) as Hpv. assert (length present = length B) as Hlp by (by rewrite length_fmap).
  assert (∀ k0 j, indices true present 0 !! k0 = Some j → ((λ j, default [] (B !! j)) <$> indices true present 0) !! k0 = B !! j) as Hval.
  { intros k0 j Hj. rewrite list_lookup_fmap, Hj. cbn [fmap option_fmap option_map]. pose proof (indices_lt _ _ _ _ (list_elem_of_lookup_2 _ _ _ Hj)).
    destruct (lookup_lt_is_Some_2 B j ltac:(lia)) as [v Hv]. by rewrite Hv. }
  destruct (Z.eqb_spec (Z.of_nat nmiss) 0) as [E|E].
  { eexists. split; [reflexivity|]. cbn [inputblocks copyblocks outputblocks factor]. exists ((λ j, default [] (B !! j)) <$> indices true present 0), [].
    split; cbn [inputblocks copyblocks outputblocks factor]; try done; try lia. }
  destruct exponents_wrap as [Ew Hexp]. fold exponents_found. rewrite Ew.
  assert (Z.of_nat nmiss = Z.of_nat (length present) - Z.of_nat nval) as Enum.
  { pose proof (length_column_inputs present) as Hc. unfold column_inputs in Hc. rewrite length_app, !indices_valid in Hc. lia. }
  destruct (Compute_run k view tables Htables present (Z.of_nat nval) ltac:(rewrite Hlp; apply (fr_count Hright))
    ltac:(by rewrite indices_valid) ltac:(lia) mat0 exponents_found Hexp) as (res & -> & Hres).
  assert (merge_sort Z.le exponents_found = exponents_found) as Esort.
  { apply (Sorted_unique Z.le); [apply (Sorted_merge_sort Z.le)|apply (Sorted_merge_sort Z.le)|apply merge_sort_Permutation]. }
  rewrite Esort in Hres. cbn [mbind option_bind]. destruct res as [[mat exponents]|].
  2: { destruct Hres as (l & Hd & Hl). eexists. split; [reflexivity|]. exists l. split; [done|]. lia. }
  destruct Hres as (l & Hd & -> & Hl & Hrec). rewrite <- Enum in *. rewrite Nat2Z.id in *.
  destruct (recovery_values (take nmiss l)) as (blocks & rv & -> & Hblocks & Hrv).
  { apply Forall_forall. intros e (n & Hn)%list_elem_of_lookup. apply lookup_take_Some in Hn as [Hn _]. apply exponents_found_ok.
    eapply dropped_sub; [exact Hd|]. by eapply list_elem_of_lookup_2. }
  cbn [mbind option_bind]. eexists. split; [reflexivity|]. exists (((λ j, default [] (B !! j)) <$> indices true present 0) ++ rv), (take nmiss l).
  pose proof (Forall2_length _ _ _ Hrv) as Hlrv. rewrite length_take, Nat.min_l in Hlrv by lia.
  split; cbn [inputblocks copyblocks outputblocks factor]; try done.
  - by apply Forall2_app.
  - intros k0 j Hj. rewrite lookup_app_l; [by apply Hval|]. rewrite length_fmap. by apply lookup_lt_Some in Hj.
  - intros _. rewrite length_app, length_fmap. lia.
  - intros r v Hr Hv. rewrite lookup_app_r in Hv by (rewrite length_fmap; lia). rewrite length_fmap in Hv. replace (nval + r - nval)%nat with r in Hv by lia.
    destruct (Forall2_lookup_r _ _ _ _ _ Hrv Hv) as (e & He & H1 & H2 & H3). rewrite He. done.
  - intros _. by rewrite Hls, <- Hlp.
  - intros c r. unfold GetFactor. apply (kl_read_range (view := view)).
Qed.
End ComputeMatrix.
