(* ===== verification/RepairCreateSpec.v ===== *)
(** * RepairCreateSpec.v: the files that are repaired are created with their blocks *)

From S2P Require Import Prelude Bytes Md5 Md5Single DiskFile CheckSummer CheckSummerSpec HashTable Packets Parameters CreatorLayout SourceFile RepairFiles RepairFilesSpec RepairScan RepairVerifySpec RepairProcess.

(** The files have their runs of blocks from [first] on. *)
Fixpoint placed (first : nat) (files : list Par2RepairerSourceFile) : Prop :=
  match files with
  | [] => True
  | f :: files => firstblock f = Some first ∧ placed (first + count f) files
  end.

(** The number of new files before file [i] *)
Definition is_new (f : Par2RepairerSourceFile) : bool := negb (targetexists f).
Definition new_files (files : list Par2RepairerSourceFile) : list Par2RepairerSourceFile := filter (λ f, is_new f = true) files.
Definition new_index (files : list Par2RepairerSourceFile) (i : nat) : nat := length (new_files (take i files)).

Lemma new_files_cons f files : new_files (f :: files) = (if is_new f then [f] else []) ++ new_files files.
Proof. unfold new_files. rewrite filter_cons. by destruct (is_new f). Qed.

Lemma new_index_S f files i : new_index (f :: files) (S i) = ((if is_new f then 1 else 0) + new_index files i)%nat.
Proof. unfold new_index. cbn [take]. rewrite new_files_cons, length_app. by destruct (is_new f). Qed.

Lemma target_created_ok taken name size : 0 ≤ size ≤ MaxOffset → name ∉ taken → ∃ d, Create taken name size = Some d ∧ disk_ok d ∧ DiskFile.filesize d = size.
Proof.
  intros Hs Hn. unfold Create. rewrite (proj2 (Z.ltb_ge _ _)), bool_decide_eq_false_2 by (done || lia). eexists. split; [reflexivity|]. split; [|done].
  split; cbn [stream offset DiskFile.filesize contents]; [done|lia|]. destruct (Z.ltb_spec 0 size); cbn [length]; [|lia]. rewrite length_app, length_replicate. cbn [length]. lia.
Qed.

Section Create.
Context (bs : nat).
Hypothesis Hbs : (0 < bs)%nat.

Lemma block_count f : counted (Z.of_nat bs) f → Z.to_nat ((FileSizeOf f + Z.of_nat bs - 1) / Z.of_nat bs) = count f.
Proof.
  intros Hf. destruct (counted_bounds (Z.of_nat bs) f ltac:(lia) Hf) as (Hc & H1 & H2). unfold count. f_equal. symmetry.
  apply (Z.div_unique_pos _ _ _ (FileSizeOf f + Z.of_nat bs - 1 - Z.of_nat bs * blockcount f)); lia.
Qed.

Lemma locate_targets_ok t f first tb : counted (Z.of_nat bs) f → firstblock f = Some first → (first + count f ≤ length tb)%nat →
  ∃ tb', locate_targets bs t f tb = Some tb' ∧ length tb' = length tb ∧
    ∀ j, tb' !! j = if decide (first ≤ j < first + count f)%nat then at_block t bs (j - first) (FileSizeOf f) <$> tb !! j else tb !! j.
Proof.
  intros Hf Hfirst Hin. pose proof (block_count f Hf) as Hn. destruct (counted_bounds (Z.of_nat bs) f ltac:(lia) Hf) as (Hc & H1 & H2).
  destruct (ct_size _ _ Hf) as [S0 _]. unfold locate_targets. destruct (Z.ltb_spec 0 (FileSizeOf f)) as [Hpos|Hzero].
  - rewrite Hfirst, Hn. cbn [mbind option_bind]. rewrite (proj2 (Nat.leb_le _ _)) by done. eexists. split; [reflexivity|]. split; [apply length_locate_loop|].
    intros j. by rewrite locate_loop_ok, Nat.add_0_r.
  - exists tb. split; [done|]. split; [done|]. intros j. rewrite decide_False; [done|]. assert (FileSizeOf f = 0) as E by lia. rewrite E in H1.
    assert (blockcount f ≤ 0) by nia. unfold count. lia.
Qed.

(** The result of the creation *)
Record created (first : nat) (files files' : list Par2RepairerSourceFile) (w w' : World) (tb tb' : list DataBlock) : Prop := {
  cr_length : length tb' = length tb;
  cr_old : ∀ i d, disks w !! i = Some d → disks w' !! i = Some d;
  cr_disks : length (disks w') = (length (disks w) + length (new_files files))%nat;
  cr_names : names w' = names w ++ ((Some ∘ targetfilename) <$> new_files files) ∧ others w' = others w;
  cr_kept : ∀ i f, files !! i = Some f → is_new f = false → files' !! i = Some f ∧
    ∀ k, (k < count f)%nat → tb' !! (first + block_offset files i + k)%nat = tb !! (first + block_offset files i + k)%nat;
  cr_new : ∀ i f, files !! i = Some f → is_new f = true → let t := (length (disks w) + new_index files i)%nat in
    files' !! i = Some (SetTarget f true (Some t)) ∧
    (∃ d, disks w' !! t = Some d ∧ disk_ok d ∧ DiskFile.filesize d = FileSizeOf f) ∧
    ∀ k, (k < count f)%nat → tb' !! (first + block_offset files i + k)%nat = at_block t bs k (FileSizeOf f) <$> tb !! (first + block_offset files i + k)%nat;
  cr_outside : ∀ j, (j < first ∨ first + total_blocks files ≤ j)%nat → tb' !! j = tb !! j;
}.

Lemma create_loop_ok files total i0 first w tb : (length files ≤ total)%nat → Forall (λ f, counted (Z.of_nat bs) f ∧ FileSizeOf f ≤ MaxOffset) files →
  placed first files → (first + total_blocks files ≤ length tb)%nat →
  NoDup (targetfilename <$> new_files files) → Forall (λ f, targetfilename f ∉ existing w) (new_files files) →
  ∃ files' w' tb' vl, create_loop bs total i0 (Some <$> files) w tb = Some (true, Some <$> files', w', tb', vl) ∧
    length files' = length files ∧ created first files files' w w' tb tb' ∧ NoDup vl ∧
    ∀ j, j ∈ vl ↔ ∃ i f, j = (i0 + i)%nat ∧ files !! i = Some f ∧ is_new f = true.
Proof.
  intros Hn HF. revert total i0 first w tb Hn. induction HF as [|f files [Hf HM] _ IH]; intros total i0 first w tb Hn Hp Hin Hnd Hfresh.
  { exists [], w, tb, []. split; [destruct total; done|]. split; [done|]. split.
    - split; try done; cbn [new_files filter list_filter length fmap list_fmap]; rewrite ?Nat.add_0_r, ?app_nil_r; done.
    - split; [constructor|]. intros j. split; [by intros Hj%elem_of_nil|by intros (i & f & _ & Hi & _)]. }
  destruct total as [|total]; cbn [length] in Hn; [lia|]. destruct Hp as [Hfirst Hp]. unfold total_blocks in Hin. cbn [sum_list_with] in Hin. fold (total_blocks files) in Hin.
  change (Some <$> f :: files) with (Some f :: (Some <$> files)). cbn [create_loop mbind option_bind]. rewrite new_files_cons in Hnd, Hfresh. unfold is_new in Hnd, Hfresh.
  destruct (targetexists f) eqn:Et; cbn [negb app] in Hnd, Hfresh.
  - destruct (IH total (S i0) (first + count f)%nat w tb ltac:(lia) Hp ltac:(lia) Hnd Hfresh) as (files' & w' & tb' & vl & -> & Hl & [C1 C2 C3 C4 C5 C6 C7] & Hvnd & Hvl).
    cbn [mbind option_bind]. exists (f :: files'), w', tb', vl. split; [done|]. split; [cbn [length]; lia|]. split.
    + split; try done.
      * rewrite new_files_cons. unfold is_new. rewrite Et. done.
      * rewrite new_files_cons. unfold is_new. rewrite Et. done.
      * intros [|i] g Hi Hg; cbn [lookup list_lookup] in Hi |- *.
        -- injection Hi as <-. split; [done|]. intros k Hk. unfold block_offset. cbn [take sum_list_with]. apply C7. lia.
        -- destruct (C5 i g Hi Hg) as [H1 H2]. split; [done|]. intros k Hk. specialize (H2 k Hk). unfold block_offset in *. cbn [take sum_list_with].
           by rewrite !Nat.add_assoc in *.
      * intros [|i] g Hi Hg; cbn [lookup list_lookup] in Hi |- *.
        -- injection Hi as <-. unfold is_new in Hg. by rewrite Et in Hg.
        -- destruct (C6 i g Hi Hg) as (H1 & H2 & H3). cbn zeta. rewrite new_index_S. unfold is_new at 1 2 3. rewrite Et. cbn [negb Nat.add]. split; [done|]. split; [done|].
           intros k Hk. specialize (H3 k Hk). unfold block_offset in *. cbn [take sum_list_with]. by rewrite !Nat.add_assoc in *.
      * intros j Hj. unfold total_blocks in *. cbn [sum_list_with] in Hj. apply C7. lia.
    + split; [done|]. intros j. rewrite Hvl. split.
      * intros (i & g & -> & Hi & Hg). exists (S i), g. split_and!; [lia|done|done].
      * intros ([|i] & g & -> & Hi & Hg); cbn [lookup list_lookup] in Hi; [injection Hi as <-; unfold is_new in Hg; by rewrite Et in Hg|].
        exists i, g. split_and!; [lia|done|done].
  - destruct (ct_size _ _ Hf) as [S0 _]. apply Forall_cons in Hfresh as [Hfree Hfresh]. cbn [fmap list_fmap] in Hnd. apply NoDup_cons in Hnd as [Hno Hnd].
    destruct (target_created_ok (existing w) (targetfilename f) (FileSizeOf f) ltac:(lia) Hfree) as (d & -> & Hd & Hsize).
    set (t := length (disks w)). set (w1 := {| disks := disks w ++ [d]; names := names w ++ [Some (targetfilename f)]; others := others w |}).
    destruct (locate_targets_ok t f first tb Hf Hfirst ltac:(lia)) as (tb1 & -> & Hl1 & Htb1). cbn [mbind option_bind].
    destruct (IH total (S i0) (first + count f)%nat w1 tb1 ltac:(lia) Hp ltac:(lia) Hnd) as (files' & w' & tb' & vl & -> & Hl & [C1 C2 C3 C4 C5 C6 C7] & Hvnd & Hvl).
    { apply Forall_forall. intros g Hg. rewrite Forall_forall in Hfresh. unfold existing, w1. cbn [names others]. rewrite omap_app.
      intros [[Hx|Hx]%elem_of_app|Hx]%elem_of_app; [by apply (Hfresh g Hg), elem_of_app; left| |by apply (Hfresh g Hg), elem_of_app; right].
      cbn in Hx. apply list_elem_of_singleton in Hx. apply Hno. rewrite <- Hx. by apply list_elem_of_fmap_2. }
    assert (length (disks w1) = S t) as Lw1 by (unfold w1, t; cbn [disks]; rewrite length_app; cbn; lia).
    cbn [mbind option_bind]. exists (SetTarget f true (Some t) :: files'), w', tb', (i0 :: vl). split; [done|]. split; [cbn [length]; lia|]. split.
    + split.
      * congruence.
      * intros i d0 Hi. apply C2. unfold w1. cbn [disks]. by apply lookup_app_l_Some.
      * rewrite C3, Lw1, new_files_cons. unfold is_new. rewrite Et. cbn [negb app length]. fold t. lia.
      * rewrite new_files_cons. unfold is_new at 1. rewrite Et. cbn [negb app]. destruct C4 as [-> ->]. split; [|done]. unfold w1. cbn [names]. rewrite <- app_assoc. done.
      * intros [|i] g Hi Hg; cbn [lookup list_lookup] in Hi |- *; [injection Hi as <-; unfold is_new in Hg; by rewrite Et in Hg|].
        destruct (C5 i g Hi Hg) as [H1 H2]. split; [done|]. intros k Hk. specialize (H2 k Hk). unfold block_offset in *. cbn [take sum_list_with].
        rewrite !Nat.add_assoc in *. rewrite H2, Htb1, decide_False by lia. done.
      * intros [|i] g Hi Hg; cbn [lookup list_lookup] in Hi |- *.
        -- injection Hi as <-. unfold new_index. cbn [take new_files filter list_filter length]. cbn zeta. fold t. rewrite Nat.add_0_r. split; [done|]. split.
           { exists d. split; [|done]. apply C2. unfold w1, t. cbn [disks]. by rewrite list_lookup_middle by done. }
           intros k Hk. unfold block_offset. cbn [take sum_list_with]. rewrite Nat.add_0_r, C7, Htb1, decide_True by lia. do 2 f_equal. lia.
        -- destruct (C6 i g Hi Hg) as (H1 & H2 & H3). rewrite Lw1 in H1, H2, H3. cbn zeta. rewrite new_index_S. unfold is_new at 1 2 3. rewrite Et. cbn [negb]. fold t.
           replace (t + (1 + new_index files i))%nat with (S t + new_index files i)%nat by lia. split; [done|]. split; [done|].
           intros k Hk. specialize (H3 k Hk). unfold block_offset in *. cbn [take sum_list_with]. rewrite !Nat.add_assoc in *. rewrite H3, Htb1, decide_False by lia. done.
      * intros j Hj. unfold total_blocks in *. cbn [sum_list_with] in Hj. rewrite C7 by lia. rewrite Htb1, decide_False by lia. done.
    + split; [constructor; [|done]; intros Hi0; apply Hvl in Hi0 as (i & g & E & _); lia|]. intros j. split.
      * intros [->|Hj]%elem_of_cons; [exists 0%nat, f; split_and!; [lia|done|unfold is_new; by rewrite Et]|].
        apply Hvl in Hj as (i & g & -> & Hi & Hg). exists (S i), g. split_and!; [lia|done|done].
      * intros ([|i] & g & -> & Hi & Hg); [rewrite Nat.add_0_r; by left|]. right. apply Hvl. exists i, g. split_and!; [lia|done|done].
Qed.
End Create.
