(* ===== verification/RepairSpec.v ===== *)
(** * RepairSpec.v: a repair restores the files *)

From stdpp Require Import gmap sorting.
From S2P Require Import Prelude Bytes LinOp GfCoeff GfMul InputCols RecMatrix RecCompute GfLookup Md5 Md5Single Hasher DiskFile CheckSummer CheckSummerSpec HashTable Packets Parameters CreatorLayout SourceFile SourceFileSpec SourceBlocksSpec PacketScan RepairFiles RepairFilesSpec RepairScan RepairVerifySpec RepairProcess RepairProcessSpec RepairCreateSpec.

(** ** The blocks of the files *)

Definition file_blocks (bs : nat) (fx : Par2RepairerSourceFile * list Z) : list (list Z) := (λ k, source_block fx.2 bs k) <$> seq 0 (count fx.1).
(** All blocks of the set, with the zeros that follow the end of a file *)
Definition set_blocks (bs : nat) (files : list Par2RepairerSourceFile) (data : list (list Z)) : list (list Z) := mjoin (file_blocks bs <$> zip files data).

Lemma length_set_blocks bs files data : length files = length data → length (set_blocks bs files data) = total_blocks files.
Proof.
  revert data. induction files as [|f files IH]; intros [|x data] Hl; try discriminate; [done|]. unfold set_blocks, total_blocks in *. cbn [zip zip_with fmap list_fmap mjoin list_join sum_list_with].
  change (list_fmap ?A ?B ?g ?l) with (g <$> l). rewrite length_app, IH by (by injection Hl). unfold file_blocks. by rewrite length_fmap, length_seq.
Qed.

Lemma set_blocks_lookup bs files data i f x k : length files = length data → files !! i = Some f → data !! i = Some x → (k < count f)%nat →
  set_blocks bs files data !! (block_offset files i + k)%nat = Some (source_block x bs k).
Proof.
  revert data i. induction files as [|g files IH]; intros [|y data] i Hl Hi Hx Hk; try discriminate. unfold set_blocks in *.
  cbn [zip zip_with fmap list_fmap mjoin list_join]. change (list_fmap ?A ?B ?g ?l) with (g <$> l).
  assert (length (file_blocks bs (g, y)) = count g) as Hlg by (unfold file_blocks; by rewrite length_fmap, length_seq).
  destruct i as [|i]; cbn [lookup list_lookup] in Hi, Hx.
  - injection Hi as ->. injection Hx as ->. unfold block_offset. cbn [take sum_list_with Nat.add]. rewrite lookup_app_l by lia.
    unfold file_blocks. rewrite list_lookup_fmap, lookup_seq_lt by done. done.
  - unfold block_offset. cbn [take sum_list_with]. rewrite lookup_app_r by lia. rewrite Hlg.
    replace (count g + sum_list_with count (take i files) + k - count g)%nat with (block_offset files i + k)%nat by (unfold block_offset; lia).
    apply IH; [by injection Hl|done|done|done].
Qed.

(** Every block is block [k] of some file [i]. *)
Lemma block_split files j : (j < total_blocks files)%nat → ∃ i f k, files !! i = Some f ∧ (k < count f)%nat ∧ j = (block_offset files i + k)%nat.
Proof.
  revert j. induction files as [|f files IH]; intros j Hj; unfold total_blocks in *; cbn [sum_list_with] in Hj; [lia|].
  destruct (decide (j < count f)%nat) as [Hlt|Hge]; [exists 0%nat, f, j; split_and!; done|].
  destruct (IH (j - count f)%nat ltac:(lia)) as (i & g & k & Hi & Hk & E). exists (S i), g, k. split; [done|]. split; [done|]. unfold block_offset in *. cbn [take sum_list_with]. lia.
Qed.

(** Blocks of an earlier file come earlier. *)
Lemma block_offset_mono files i i' f : (i < i')%nat → files !! i = Some f → (block_offset files i + count f ≤ block_offset files i')%nat.
Proof.
  intros Hi Hf. unfold block_offset. replace (take i' files) with (take i files ++ f :: take (i' - S i) (drop (S i) files)).
  - rewrite sum_list_with_app. cbn [sum_list_with]. lia.
  - replace i' with (i + S (i' - S i))%nat at 2 by lia. rewrite <- take_take_drop. f_equal. rewrite (drop_S _ f i Hf). done.
Qed.

Lemma same_block files i f k i' f' k' : files !! i = Some f → (k < count f)%nat → files !! i' = Some f' → (k' < count f')%nat →
  (block_offset files i + k = block_offset files i' + k')%nat → i = i' ∧ k = k'.
Proof.
  intros Hi Hk Hi' Hk' E. destruct (Nat.lt_trichotomy i i') as [H|[->|H]]; [|split; lia|].
  - pose proof (block_offset_mono files i i' f H Hi). lia.
  - pose proof (block_offset_mono files i' i f' H Hi'). lia.
Qed.

Lemma new_index_mono files i i' f : (i < i')%nat → files !! i = Some f → is_new f = true → (new_index files i < new_index files i')%nat.
Proof.
  intros Hi Hf Hnew. unfold new_index. replace (take i' files) with (take i files ++ f :: take (i' - S i) (drop (S i) files)).
  - unfold new_files. rewrite filter_app, length_app, filter_cons_True by done. cbn [length]. lia.
  - replace i' with (i + S (i' - S i))%nat at 2 by lia. rewrite <- take_take_drop. f_equal. rewrite (drop_S _ f i Hf). done.
Qed.

Lemma new_index_lt files i f : files !! i = Some f → is_new f = true → (new_index files i < length (new_files files))%nat.
Proof.
  intros Hf Hnew. pose proof (lookup_lt_Some _ _ _ Hf) as Hlt. pose proof (new_index_mono files i (length files) f Hlt Hf Hnew) as H.
  unfold new_index at 2 in H. by rewrite firstn_all in H.
Qed.

Lemma source_block_lookup x bs k o : (k * bs + o < length x)%nat → (o < bs)%nat → source_block x bs k !! o = x !! (k * bs + o)%nat.
Proof.
  intros Hin Ho. unfold source_block. rewrite lookup_app_l.
  - unfold slice. rewrite lookup_take_lt, lookup_drop by lia. done.
  - unfold slice. rewrite length_take, length_drop. lia.
Qed.

Lemma located_indices FileSize l s : length (indices true (IsSet FileSize <$> l) s) = located FileSize l ∧
  length (indices false (IsSet FileSize <$> l) s) = (length l - located FileSize l)%nat.
Proof.
  revert s. induction l as [|b l IH]; intros s; [done|]. rewrite fmap_cons, located_cons. cbn [indices length]. destruct (IH (S s)) as [I1 I2].
  pose proof (located_le FileSize l). destruct (IsSet FileSize b); cbn [Bool.eqb length]; rewrite I1, I2; lia.
Qed.

(** ** The size of a chunk *)

Lemma AllocateBuffers_ok memorylimit bs missing total : (0 < bs)%nat → bs = (2 * Nat.div2 bs)%nat → 0 ≤ missing ≤ 32768 → 0 ≤ total ≤ 32768 →
  4 * (missing + 26) ≤ memorylimit → ∃ c, 0 < c ≤ 16777216 ∧ AllocateBuffers memorylimit (Z.of_nat bs) missing total = Some (2 * c).
Proof.
  intros Hbs Heven Hm Ht Hmem. unfold AllocateBuffers. rewrite (wrap_small 32 (total + 1)) by (split; simpl; lia).
  rewrite (wrap_small 32 (2 + _)) by (split; simpl; lia). set (over := 2 + Z.min 24 (total + 1)). assert (2 ≤ over ≤ 26) as Ho by lia. clearbody over.
  rewrite (wrap_small 32 (missing + over)) by (split; simpl; lia).
  assert (∀ x, 0 < x → ∃ c, 0 < c ≤ 16777216 ∧ Some (if 33554432 <? 2 * x then 33554432 else 2 * x) = Some (2 * c)) as Hfin.
  { intros x Hx. destruct (Z.ltb_spec 33554432 (2 * x)); [exists 16777216|exists x]; (split; [lia|done]). }
  destruct (memorylimit <? _).
  - unfold udiv. rewrite (proj2 (Z.eqb_neq _ 0)) by lia. cbn [mbind option_bind]. set (q := memorylimit / (missing + over)).
    assert (4 ≤ q) as Hq by (apply Z.div_le_lower_bound; lia). clearbody q.
    assert (Z.ldiff q 3 = 2 * (2 * (q / 4))) as ->.
    { change 3 with (Z.ones 2). rewrite Z.ldiff_ones_r, Z.shiftr_div_pow2, Z.shiftl_mul_pow2 by lia. change (2 ^ 2) with 4. lia. }
    apply Hfin. pose proof (Z.div_le_lower_bound q 4 1 ltac:(lia) ltac:(lia)). lia.
  - cbn [mbind option_bind]. replace (Z.of_nat bs) with (2 * Z.of_nat (Nat.div2 bs)) by lia. apply Hfin. lia.
Qed.

(** ** What a repair starts from *)

(** The recovery block with an exponent, of [n] blocks [B] *)
Definition recovery_block (n : nat) (B : list (list Z)) (e : Z) (w : nat) : Z :=
  xsum (λ i, mul16 (pow16 (input_constant i) (Z.to_nat e)) (word_at (default [] (B !! Z.to_nat i)) w)) (seqZ 0 (Z.of_nat n)).

(** The files of the set with the contents they are to have; the blocks that were found hold
    their data, the recovery packets theirs; the blocks of a file that needs no repair were
    all found; and the names of the files to be created are free. *)
Record repairable (bs : nat) (files : list Par2RepairerSourceFile) (data : list (list Z)) (w : World) (sourceblocks : list DataBlock)
    (recoverypacketmap : Zmap RecoveryPacket) : Prop := {
  rp_files : Forall2 (λ f x, counted (Z.of_nat bs) f ∧ FileSizeOf f = Z.of_nat (length x) ∧ Forall (in_range 8) x ∧ FileSizeOf f ≤ MaxOffset) files data;
  rp_placed : placed 0 files;
  rp_count : length sourceblocks = total_blocks files ∧ Z.of_nat (total_blocks files) ≤ 32768;
  rp_disks : Forall disk_ok (disks w);
  rp_names : NoDup (targetfilename <$> new_files files) ∧ Forall (λ f, targetfilename f ∉ existing w) (new_files files);
  rp_known : ∀ b i, b ∈ sourceblocks → b_diskfile b = Some i → (i < length (disks w))%nat;
  rp_found : ∀ j b v, sourceblocks !! j = Some b → IsSet (FileSizes w) b = true → set_blocks bs files data !! j = Some v → stored bs (disks w) b v;
  rp_complete : ∀ i f k b, files !! i = Some f → is_new f = false → (k < count f)%nat → sourceblocks !! (block_offset files i + k)%nat = Some b → IsSet (FileSizes w) b = true;
  rp_recovery : ∀ e p, recoverypacketmap !! e = Some p → 0 ≤ e ≤ 65535 ∧ ∃ v, stored bs (disks w) (r_datablock p) v ∧ length v = bs ∧ Forall (in_range 8) v ∧
    ∀ i, (2 * i + 1 < bs)%nat → word_at v i = recovery_block (total_blocks files) (set_blocks bs files data) e i;
}.

Section Repair.
Context {M : Type} (k : kernel M) (view : M → Z → Z) `{L : !KernelLaws k view} (tables : gfmat_tables) (mat0 : M).
Hypothesis Htables : tables_ok tables.
Context {backend : Backend} {laws : BackendLaws} (maxlength : Z) (bs : nat).
Hypothesis Hmax : 0 < maxlength.
Hypothesis Hbs : (0 < bs)%nat.
Hypothesis Heven : bs = (2 * Nat.div2 bs)%nat.
Context (files : list Par2RepairerSourceFile) (data : list (list Z)) (w : World) (sourceblocks : list DataBlock) (recoverypacketmap : Zmap RecoveryPacket).
Hypothesis Hrp : repairable bs files data w sourceblocks recoverypacketmap.
Context (files' : list Par2RepairerSourceFile) (w1 : World) (tgt : list DataBlock).
Hypothesis Hcr : created bs 0 files files' w w1 (replicate (total_blocks files) mkDataBlock) tgt.

Local Abbreviation B := (set_blocks bs files data).
Local Abbreviation T := (seq (length (disks w)) (length (new_files files))).

Lemma data_length : length files = length data.
Proof. by eapply Forall2_length, (rp_files _ _ _ _ _ _ Hrp). Qed.

Lemma file_data i f : files !! i = Some f → ∃ x, data !! i = Some x ∧ counted (Z.of_nat bs) f ∧ FileSizeOf f = Z.of_nat (length x) ∧ Forall (in_range 8) x ∧ FileSizeOf f ≤ MaxOffset.
Proof. intros Hi. destruct (Forall2_lookup_l _ _ _ _ _ (rp_files _ _ _ _ _ _ Hrp) Hi) as (x & Hx & H). by exists x. Qed.

(** The target block of a new file, and of another file *)
Lemma target_new i f kk : files !! i = Some f → (kk < count f)%nat → is_new f = true →
  tgt !! (block_offset files i + kk)%nat = Some (at_block (length (disks w) + new_index files i) bs kk (FileSizeOf f) mkDataBlock).
Proof.
  intros Hi Hk Hnew. destruct (cr_new _ _ _ _ _ _ _ _ Hcr i f Hi Hnew) as (_ & _ & H). specialize (H kk Hk). rewrite Nat.add_0_l in H. rewrite H. pose proof (block_offset_total files i f Hi).
  by rewrite lookup_replicate_2 by lia.
Qed.
Lemma target_kept i f kk : files !! i = Some f → (kk < count f)%nat → is_new f = false → tgt !! (block_offset files i + kk)%nat = Some mkDataBlock.
Proof.
  intros Hi Hk Hnew. destruct (cr_kept _ _ _ _ _ _ _ _ Hcr i f Hi Hnew) as (_ & H). specialize (H kk Hk). rewrite Nat.add_0_l in H. rewrite H. pose proof (block_offset_total files i f Hi).
  by rewrite lookup_replicate_2 by lia.
Qed.

Lemma tgt_length : length tgt = total_blocks files.
Proof. rewrite (cr_length _ _ _ _ _ _ _ _ Hcr). apply length_replicate. Qed.

(** What a target block that has a place is *)
Lemma target_inv j b t : tgt !! j = Some b → b_diskfile b = Some t → ∃ i f kk, files !! i = Some f ∧ (kk < count f)%nat ∧ is_new f = true ∧
  j = (block_offset files i + kk)%nat ∧ t = (length (disks w) + new_index files i)%nat ∧ b = at_block t bs kk (FileSizeOf f) mkDataBlock.
Proof.
  intros Hj Hb. pose proof (lookup_lt_Some _ _ _ Hj) as Hlt. rewrite tgt_length in Hlt. destruct (block_split files j Hlt) as (i & f & kk & Hi & Hk & ->).
  destruct (is_new f) eqn:En.
  - rewrite (target_new i f kk Hi Hk En) in Hj. injection Hj as <-. cbn in Hb. injection Hb as <-. by exists i, f, kk.
  - rewrite (target_kept i f kk Hi Hk En) in Hj. injection Hj as <-. done.
Qed.

Lemma block_range i f kk : files !! i = Some f → (kk < count f)%nat →
  Z.of_nat kk * Z.of_nat bs < FileSizeOf f ∧ FileSizeOf f ≤ MaxOffset ∧ 0 ≤ Z.of_nat kk * Z.of_nat bs.
Proof.
  intros Hi Hk. destruct (file_data i f Hi) as (x & _ & Hc & _ & _ & HM). destruct (counted_bounds (Z.of_nat bs) f ltac:(lia) Hc) as (H1 & H2 & _). unfold count in Hk.
  split; [nia|]. split; [done|lia].
Qed.

Lemma targets_fit : targets_ok bs (disks w1) T tgt B.
Proof.
  split.
  - intros j b t Hj Hb. destruct (target_inv j b t Hj Hb) as (i & f & kk & Hi & Hk & Hnew & -> & -> & ->). destruct (block_range i f kk Hi Hk) as (R1 & R2 & R3).
    split; [apply elem_of_seq; pose proof (new_index_lt files i f Hi Hnew); lia|]. destruct (cr_new _ _ _ _ _ _ _ _ Hcr i f Hi Hnew) as (_ & (d & Hd & _ & Hs) & _).
    exists d. split; [done|]. rewrite Hs. unfold at_block. cbn [b_offset b_length SetLength SetLocation]. lia.
  - intros j j' b b' t Hne Hj Hj' Hb Hb'. destruct (target_inv j b t Hj Hb) as (i & f & kk & Hi & Hk & Hnew & -> & Et & ->).
    destruct (target_inv j' b' t Hj' Hb') as (i' & f' & kk' & Hi' & Hk' & Hnew' & -> & Et' & ->).
    assert (i = i') as <-.
    { destruct (Nat.lt_trichotomy i i') as [H|[H|H]]; [|done|]; [pose proof (new_index_mono files i i' f H Hi Hnew)|pose proof (new_index_mono files i' i f' H Hi' Hnew')]; lia. }
    assert (f' = f) as -> by congruence. unfold at_block. cbn [b_offset b_length SetLength SetLocation]. nia.
  - intros j b Hj. destruct (b_diskfile b) as [t|] eqn:Eb.
    + destruct (target_inv j b t Hj Eb) as (i & f & kk & _ & _ & _ & _ & _ & ->). done.
    + pose proof (lookup_lt_Some _ _ _ Hj) as Hlt. rewrite tgt_length in Hlt. destruct (block_split files j Hlt) as (i & f & kk & Hi & Hk & ->).
      destruct (is_new f) eqn:En; [rewrite (target_new i f kk Hi Hk En) in Hj|rewrite (target_kept i f kk Hi Hk En) in Hj]; injection Hj as <-; done.
  - intros j v Hj. pose proof (lookup_lt_Some _ _ _ Hj) as Hlt. rewrite (length_set_blocks bs files data data_length) in Hlt.
    destruct (block_split files j Hlt) as (i & f & kk & Hi & Hk & ->). destruct (file_data i f Hi) as (x & Hx & _ & _ & Hbytes & _).
    rewrite (set_blocks_lookup bs files data i f x kk data_length Hi Hx Hk) in Hj. injection Hj as <-. split; [apply length_source_block|by apply source_block_bytes].
Qed.

Lemma old_stored b v : stored bs (disks w) b v → input_ok bs (disks w1) T b v.
Proof.
  intros (i & d & Hi & Hd & H). split.
  - exists i, d. split; [done|]. split; [by apply (cr_old _ _ _ _ _ _ _ _ Hcr)|done].
  - exists i. split; [done|]. rewrite elem_of_seq. apply lookup_lt_Some in Hd. lia.
Qed.

Lemma same_set b : b ∈ sourceblocks → IsSet (FileSizes w1) b = IsSet (FileSizes w) b.
Proof.
  intros Hb. unfold IsSet. destruct (b_diskfile b) as [i|] eqn:Ei; [|done]. pose proof (rp_known _ _ _ _ _ _ Hrp b i Hb Ei) as Hlt.
  destruct (lookup_lt_is_Some_2 _ _ Hlt) as [d Hd]. unfold FileSizes. by rewrite Hd, (cr_old _ _ _ _ _ _ _ _ Hcr i d Hd).
Qed.

Lemma same_present : IsSet (FileSizes w1) <$> sourceblocks = IsSet (FileSizes w) <$> sourceblocks.
Proof. apply list_fmap_ext. intros i b Hb. by apply same_set, (list_elem_of_lookup_2 _ i). Qed.

Lemma found_fits : found_right bs (disks w1) T tgt B (FileSizes w1) sourceblocks recoverypacketmap.
Proof.
  destruct (rp_count _ _ _ _ _ _ Hrp) as [Hl Hc]. pose proof (length_set_blocks bs files data data_length) as HlB. split.
  - by rewrite tgt_length, HlB.
  - by rewrite HlB.
  - intros j b v Hj Hs Hv. apply old_stored. apply (rp_found _ _ _ _ _ _ Hrp j); [done| |done]. rewrite <- same_set; [done|by eapply list_elem_of_lookup_2].
  - intros j b c Hj Hs Hc'. rewrite same_set in Hs by (by eapply list_elem_of_lookup_2). pose proof (lookup_lt_Some _ _ _ Hj) as Hlt. rewrite Hl in Hlt.
    destruct (block_split files j Hlt) as (i & f & kk & Hi & Hk & ->). destruct (is_new f) eqn:En.
    + rewrite (target_new i f kk Hi Hk En) in Hc'. injection Hc' as <-. done.
    + rewrite (rp_complete _ _ _ _ _ _ Hrp i f kk b Hi En Hk Hj) in Hs. done.
  - intros e p Hp. destruct (rp_recovery _ _ _ _ _ _ Hrp e p Hp) as (He & v & Hv & Hlv & Hbv & Hw). split; [done|]. exists v. split; [by apply old_stored|].
    split; [done|]. split; [done|]. intros i Hi. rewrite (Hw i Hi). unfold recovery_block, recovery_word. by rewrite length_fmap, Hl.
Qed.

Lemma going_start : going (disks w1) T tgt B (λ _ o, (o < 2 * 0)%nat) (disks w1).
Proof.
  split; [done| |lia]. intros i d0 d H0 H1. assert (d0 = d) as -> by congruence. split; [|done].
  destruct (decide (i < length (disks w))%nat) as [Hlt|Hge].
  - destruct (lookup_lt_is_Some_2 _ _ Hlt) as [d1 Hd1]. rewrite (cr_old _ _ _ _ _ _ _ _ Hcr i d1 Hd1) in H1. injection H1 as <-.
    pose proof (rp_disks _ _ _ _ _ _ Hrp) as HF. rewrite Forall_lookup in HF. by eapply HF.
  - apply lookup_lt_Some in H1 as Hlt. rewrite (cr_disks _ _ _ _ _ _ _ _ Hcr) in Hlt.
    destruct (lookup_lt_is_Some_2 (new_files files) (i - length (disks w)) ltac:(lia)) as [f Hf].
    assert (∃ i', files !! i' = Some f ∧ is_new f = true ∧ new_index files i' = (i - length (disks w))%nat) as (i' & Hi' & Hnew & Ei).
    { clear - Hf. revert Hf. generalize (i - length (disks w))%nat as r. induction files as [|g files0 IH]; intros r Hf; [done|]. rewrite new_files_cons in Hf.
      destruct (is_new g) eqn:Eg; cbn [app] in Hf.
      - destruct r as [|r]; cbn [lookup list_lookup] in Hf; [injection Hf as ->; by exists 0%nat|]. destruct (IH r Hf) as (i' & H1 & H2 & H3). exists (S i'). split; [done|]. split; [done|].
        rewrite new_index_S, Eg. lia.
      - destruct (IH r Hf) as (i' & H1 & H2 & H3). exists (S i'). split; [done|]. split; [done|]. rewrite new_index_S, Eg. lia. }
    destruct (cr_new _ _ _ _ _ _ _ _ Hcr i' f Hi' Hnew) as (_ & (d1 & Hd1 & Hok & _) & _). rewrite Ei in Hd1.
    replace (length (disks w) + (i - length (disks w)))%nat with i in Hd1 by lia. congruence.
Qed.

(** When all bytes of all blocks are right, the files have their contents. *)
Lemma going_end i f x w2 : going (disks w1) T tgt B (λ _ o, (o < bs)%nat) (disks w2) → files !! i = Some f → data !! i = Some x → is_new f = true →
  ∃ d, disks w2 !! (length (disks w) + new_index files i)%nat = Some d ∧ disk_ok d ∧ contents d = x.
Proof.
  intros [G1 G2 G3] Hi Hx Hnew. destruct (cr_new _ _ _ _ _ _ _ _ Hcr i f Hi Hnew) as (_ & (d1 & Hd1 & _ & Hs1) & _).
  set (t := (length (disks w) + new_index files i)%nat) in *. destruct (lookup_lt_is_Some_2 (disks w2) t) as [d Hd]; [rewrite G1; by apply lookup_lt_Some in Hd1|].
  destruct (G2 t d1 d Hd1 Hd) as (Hok & Hsz & _). exists d. split; [done|]. split; [done|].
  destruct (file_data i f Hi) as (x' & Hx' & Hc & Hfs & _ & _). assert (x' = x) as -> by congruence. pose proof (do_size _ Hok) as Hz.
  assert (length (contents d) = length x) as Hlen by lia.
  destruct (counted_bounds (Z.of_nat bs) f ltac:(lia) Hc) as (C1 & C2 & C3). apply list_eq_same_length with (length x); [done|done|].
  intros pos a b Hpos Ha Hb. pose proof (Nat.div_mod_eq pos bs) as Hdm. pose proof (Nat.mod_upper_bound pos bs ltac:(lia)) as Hm.
  set (kk := (pos / bs)%nat) in *. set (o := (pos mod bs)%nat) in *. clearbody kk o.
  assert (kk < count f)%nat as Hk by (unfold count; nia).
  pose proof (G3 (block_offset files i + kk)%nat _ t d _ o (target_new i f kk Hi Hk Hnew) eq_refl Hd (set_blocks_lookup bs files data i f x kk data_length Hi Hx Hk)) as Hr.
  unfold at_block in Hr. cbn [b_offset b_length SetLength SetLocation] in Hr. specialize (Hr ltac:(lia) Hm).
  rewrite source_block_lookup in Hr by lia. replace (Z.to_nat (Z.of_nat kk * Z.of_nat bs) + o)%nat with pos in Hr by lia. replace (kk * bs + o)%nat with pos in Hr by lia. congruence.
Qed.

Lemma going_others i d w2 : going (disks w1) T tgt B (λ _ o, (o < bs)%nat) (disks w2) → disks w !! i = Some d → ∃ d', disks w2 !! i = Some d' ∧ disk_ok d' ∧ contents d' = contents d.
Proof.
  intros [G1 G2 _] Hd. pose proof (cr_old _ _ _ _ _ _ _ _ Hcr i d Hd) as Hd1. destruct (lookup_lt_is_Some_2 (disks w2) i) as [d' Hd']; [rewrite G1; by apply lookup_lt_Some in Hd1|].
  exists d'. split; [done|]. destruct (G2 i d d' Hd1 Hd') as (Hok & _ & H). split; [done|]. apply H. rewrite elem_of_seq. apply lookup_lt_Some in Hd. lia.
Qed.
End Repair.

(** ** Properties *)

(** The new files have their contents *)
Definition restored (files files' : list Par2RepairerSourceFile) (data : list (list Z)) (w2 : World) : Prop :=
  ∀ i f x, files !! i = Some f → data !! i = Some x → targetexists f = false →
    ∃ t d, files' !! i = Some (SetTarget f true (Some t)) ∧ disks w2 !! t = Some d ∧ disk_ok d ∧ contents d = x.
(** The other files keep theirs *)
Definition kept (w w2 : World) : Prop := ∀ t d, disks w !! t = Some d → ∃ d', disks w2 !! t = Some d' ∧ disk_ok d' ∧ contents d' = contents d.

(** The repair, with what is known of the files that were created *)
Lemma repair_restores_ok {M} (k : kernel M) (view : M → Z → Z) `{!KernelLaws k view} (tables : gfmat_tables) (mat0 : M) (backend : Backend) `{!BackendLaws}
    (main : MainPacket) (memorylimit maxlength : Z) (bs : nat) (files : list Par2RepairerSourceFile) (data : list (list Z)) (w : World)
    (sourceblocks : list DataBlock) (recoverypacketmap : Zmap RecoveryPacket) :
  tables_ok tables → 0 < maxlength → (0 < bs)%nat → bs = (2 * Nat.div2 bs)%nat → m_totalfilecount main = Z.of_nat (length files) →
  repairable bs files data w sourceblocks recoverypacketmap →
  let available := located (FileSizes w) sourceblocks in
  let missing := (total_blocks files - available)%nat in
  4 * (Z.of_nat missing + 26) ≤ memorylimit →
  ∃ files' w1 targetblocks verifylist,
    CreateTargetFiles bs main (Some <$> files) w (replicate (total_blocks files) mkDataBlock) = Some (true, Some <$> files', w1, targetblocks, verifylist) ∧
    (∀ j, j ∈ verifylist ↔ ∃ f, files !! j = Some f ∧ targetexists f = false) ∧ NoDup verifylist ∧ length files' = length files ∧
    created bs 0 files files' w w1 (replicate (total_blocks files) mkDataBlock) targetblocks ∧
    ∃ r, ComputeRSmatrix k tables mat0 (FileSizes w1) sourceblocks targetblocks (Z.of_nat available) (Z.of_nat missing) recoverypacketmap = Some r ∧
    match r with
    | None => ∃ l, dropped (IsSet (FileSizes w) <$> sourceblocks) (Z.of_nat available) (exponents_found recoverypacketmap) l ∧ (length l < missing)%nat
    | Some m => ∃ chunksize w2, AllocateBuffers memorylimit (Z.of_nat bs) (Z.of_nat missing) (Z.of_nat (length sourceblocks)) = Some chunksize ∧
        process_chunks maxlength bs m (Z.of_nat bs) chunksize 0 w1 = Some (true, w2) ∧
        names w2 = names w1 ∧ restored files files' data w2 ∧ kept w w2
    end.
Proof.
  intros Htab Hmax Hbs Heven Hmain Hrp available missing Hmem. pose proof (rp_count _ _ _ _ _ _ Hrp) as [Hls Hn]. pose proof (rp_names _ _ _ _ _ _ Hrp) as [Hnd Hfree].
  destruct (create_loop_ok bs Hbs files (length files) 0 0 w (replicate (total_blocks files) mkDataBlock)) as (files' & w1 & tgt & vl & Ec & Hlf & Hcr & Hvnd & Hvl);
    [done| |apply (rp_placed _ _ _ _ _ _ Hrp)|by rewrite length_replicate|done|done|].
  { apply Forall_lookup. intros i f Hi. destruct (Forall2_lookup_l _ _ _ _ _ (rp_files _ _ _ _ _ _ Hrp) Hi) as (x & _ & Hc & _ & _ & HM). done. }
  exists files', w1, tgt, vl. split; [unfold CreateTargetFiles; by rewrite Hmain, Nat2Z.id|]. split.
  { intros j. rewrite Hvl. unfold is_new. setoid_rewrite negb_true_iff. split; [by intros (i & f & -> & H1 & H2); exists f|by intros (f & H1 & H2); exists j, f]. }
  split; [done|]. split; [done|]. split; [done|].
  pose proof (found_fits bs Hbs Heven files data w sourceblocks recoverypacketmap Hrp files' w1 tgt Hcr) as Hfound.
  destruct (repair_matrix_ok k view tables mat0 Htab _ _ _ _ _ _ _ _ Hfound) as (r & Er & Hr).
  rewrite (same_present bs files data w sourceblocks recoverypacketmap Hrp files' w1 tgt Hcr) in Er, Hr.
  destruct (located_indices (FileSizes w) sourceblocks 0) as [I1 I2]. rewrite I1, I2, Hls in Er, Hr. exists r. split; [exact Er|]. destruct r as [m|]; [|exact Hr].
  destruct Hr as (vs & exponents & Hm). pose proof (located_le (FileSizes w) sourceblocks) as Hle. rewrite Hls in Hle.
  destruct (AllocateBuffers_ok memorylimit bs (Z.of_nat missing) (Z.of_nat (length sourceblocks)) Hbs Heven) as (c & Hc & Ea); [unfold missing; lia|rewrite Hls; lia|done|].
  pose proof (going_start bs Hbs Heven files data w sourceblocks recoverypacketmap Hrp files' w1 tgt Hcr) as Hg0.
  destruct (process_chunks_ok maxlength bs Hmax _ _ _ _ (targets_fit bs Hbs Heven files data w sourceblocks recoverypacketmap Hrp files' w1 tgt Hcr) (fr_count _ _ _ _ _ _ _ _ Hfound) _ m vs exponents Hm
    bs (Z.to_nat c) 0 w1 Heven ltac:(lia) ltac:(lia) ltac:(lia) ltac:(lia) Hg0) as (w2 & Ep & Hn2 & _ & Hg).
  exists (2 * c), w2. split; [exact Ea|]. split; [by replace (2 * c) with (Z.of_nat (2 * Z.to_nat c)) by lia|]. split; [done|]. split.
  - intros i f x Hi Hx Ht. assert (is_new f = true) as Hnew by (unfold is_new; by rewrite Ht).
    destruct (going_end bs Hbs Heven files data w sourceblocks recoverypacketmap Hrp files' w1 tgt Hcr i f x w2 Hg Hi Hx Hnew) as (d & Hd & Hok & Hcont).
    destruct (cr_new _ _ _ _ _ _ _ _ Hcr i f Hi Hnew) as (Hf' & _). by exists (length (disks w) + new_index files i)%nat, d.
  - intros t d Hd. exact (going_others bs Hbs Heven files data w files' w1 tgt Hcr t d w2 Hg Hd).
Qed.

(** C2: a repair restores the files.  Let the blocks that were found hold their data, wherever
    they were found, and the recovery packets that were found the recovery blocks of their
    exponents.  Then the target files are created; the matrix is computed, unless rows of
    recovery blocks depend on each other so that too few are left; and whatever part of a
    block fits into the memory at a time, and whatever backend keeps its promise, after
    processing all parts every file that was created has exactly the contents of the source
    file, the files that were there before have not changed, and nothing ran into an error. *)
Theorem repair_restores {M} (k : kernel M) (view : M → Z → Z) `{!KernelLaws k view} (tables : gfmat_tables) (mat0 : M) (backend : Backend) `{!BackendLaws}
    (main : MainPacket) (memorylimit maxlength : Z) (bs : nat) (files : list Par2RepairerSourceFile) (data : list (list Z)) (w : World)
    (sourceblocks : list DataBlock) (recoverypacketmap : Zmap RecoveryPacket) :
  gfmat_init = Some tables → 0 < maxlength → (0 < bs)%nat → bs = (2 * Nat.div2 bs)%nat → m_totalfilecount main = Z.of_nat (length files) →
  repairable bs files data w sourceblocks recoverypacketmap →
  let available := located (FileSizes w) sourceblocks in
  let missing := (total_blocks files - available)%nat in
  4 * (Z.of_nat missing + 26) ≤ memorylimit →
  ∃ files' w1 targetblocks verifylist,
    CreateTargetFiles bs main (Some <$> files) w (replicate (total_blocks files) mkDataBlock) = Some (true, Some <$> files', w1, targetblocks, verifylist) ∧
    (∀ j, j ∈ verifylist ↔ ∃ f, files !! j = Some f ∧ targetexists f = false) ∧
    ∃ r, ComputeRSmatrix k tables mat0 (FileSizes w1) sourceblocks targetblocks (Z.of_nat available) (Z.of_nat missing) recoverypacketmap = Some r ∧
    match r with
    | None => ∃ l, dropped (IsSet (FileSizes w) <$> sourceblocks) (Z.of_nat available) (exponents_found recoverypacketmap) l ∧ (length l < missing)%nat
    | Some m => ∃ chunksize w2, AllocateBuffers memorylimit (Z.of_nat bs) (Z.of_nat missing) (Z.of_nat (length sourceblocks)) = Some chunksize ∧
        process_chunks maxlength bs m (Z.of_nat bs) chunksize 0 w1 = Some (true, w2) ∧
        names w2 = names w1 ∧ restored files files' data w2 ∧ kept w w2
    end.
Proof.
  intros Htab%gfmat_init_tables Hmax Hbs Heven Hmain Hrp available missing Hmem.
  destruct (repair_restores_ok k view tables mat0 backend main memorylimit maxlength bs files data w sourceblocks recoverypacketmap Htab Hmax Hbs Heven Hmain Hrp Hmem)
    as (files' & w1 & tgt & vl & Ec & Hvl & _ & _ & _ & Hr). by exists files', w1, tgt, vl.
Qed.

(** A set of two files in blocks of 4 bytes: one of 6 bytes, of which the first block was found
    in the middle of a damaged file, and one of 4 bytes, which is complete; and a recovery packet *)
Definition lost_file : Par2RepairerSourceFile :=
  {| descriptionpacket := example_description 6; verificationpacket := None; blockcount := 2; firstblock := Some 0%nat;
     targetexists := false; targetfile := None; completefile := None; targetfilename := [97] |}.
Definition whole_file : Par2RepairerSourceFile :=
  {| descriptionpacket := example_description 4; verificationpacket := None; blockcount := 1; firstblock := Some 2%nat;
     targetexists := true; targetfile := Some 0%nat; completefile := Some 0%nat; targetfilename := [98] |}.
Definition example_contents : list (list Z) := [[1; 2; 3; 4; 5; 6]; [9; 10; 11; 12]].
Definition file_with (c : list Z) : DiskFile := {| contents := c; stream := 0; offset := 0; DiskFile.filesize := Z.of_nat (length c) |}.
Definition example_world : World :=
  {| disks := [file_with [9; 10; 11; 12]; file_with [77; 1; 2; 3; 4]; file_with [0; 0; 13; 14; 8; 8]]; names := [Some [98]; Some [99]; Some [112]]; others := [] |}.
Definition example_found : list DataBlock :=
  [SetLocation (fresh_block 6 4 0) 1 1; fresh_block 6 4 1; SetLocation (fresh_block 4 4 0) 0 0].
Definition example_packet : RecoveryPacket :=
  {| r_packet := []; r_offset := 0; r_context := None; r_datablock := SetLength (SetLocation mkDataBlock 2 2) 4 |}.
Definition example_packets : Zmap RecoveryPacket := {[0 := example_packet]}.

Lemma example_repairable : repairable 4 [lost_file; whole_file] example_contents example_world example_found example_packets.
Proof.
  split.
  - repeat constructor; try (vm_compute; congruence).
  - done.
  - split; [done|vm_compute; congruence].
  - repeat constructor; vm_compute; congruence.
  - split; [apply NoDup_singleton|]. repeat constructor. vm_compute. set_solver.
  - intros b i Hb. unfold example_found in Hb. set_unfold in Hb. destruct Hb as [-> |[-> |[-> |[]]]]; cbn; intros [= <-]; lia.
  - intros [|[|[|j]]] b v Hb Hs Hv; cbn in Hb; try discriminate; injection Hb as <-; vm_compute in Hv; try (vm_compute in Hs; discriminate).
    + injection Hv as <-. eexists 1%nat, _. split; [done|]. split; [done|]. repeat (split; [vm_compute; congruence|]). split_and!; try done; vm_compute; congruence.
    + injection Hv as <-. eexists 0%nat, _. split; [done|]. split; [done|]. repeat (split; [vm_compute; congruence|]). split_and!; try done; vm_compute; congruence.
  - intros [|[|i]] f k b Hi Hnew Hk; cbn in Hi; try discriminate; injection Hi as <-; [discriminate|]. destruct k as [|k]; [|vm_compute in Hk; lia].
    intros Hb. vm_compute in Hb. injection Hb as <-. done.
  - intros e p Hp. unfold example_packets in Hp. apply lookup_singleton_Some in Hp as [<- <-]. split; [lia|]. exists [13; 14; 8; 8].
    split; [|split; [done|split; [repeat constructor; vm_compute; congruence|]]].
    + eexists 2%nat, _. split; [done|]. split; [done|]. repeat (split; [vm_compute; congruence|]). split_and!; try done; vm_compute; congruence.
    + intros [|[|i]] Hi; [vm_compute; reflexivity..|lia].
Qed.

Lemma repair_restores_witness : ∃ tables, gfmat_init = Some tables ∧
  let files := [lost_file; whole_file] in
  ∃ files' w1 targetblocks verifylist,
    CreateTargetFiles 4 (example_main 2 2) (Some <$> files) example_world (replicate (total_blocks files) mkDataBlock) = Some (true, Some <$> files', w1, targetblocks, verifylist) ∧
    (∀ j, j ∈ verifylist ↔ ∃ f, files !! j = Some f ∧ targetexists f = false) ∧
    ∃ r, ComputeRSmatrix lookup_kernel tables ∅ (FileSizes w1) example_found targetblocks (Z.of_nat (located (FileSizes example_world) example_found))
           (Z.of_nat (total_blocks files - located (FileSizes example_world) example_found)) example_packets = Some r ∧
    match r with
    | None => ∃ l, dropped (IsSet (FileSizes example_world) <$> example_found) (Z.of_nat (located (FileSizes example_world) example_found)) (exponents_found example_packets) l ∧
        (length l < total_blocks files - located (FileSizes example_world) example_found)%nat
    | Some m => ∃ chunksize w2,
        AllocateBuffers 1000 (Z.of_nat 4) (Z.of_nat (total_blocks files - located (FileSizes example_world) example_found)) (Z.of_nat (length example_found)) = Some chunksize ∧
        process_chunks 10 4 m (Z.of_nat 4) chunksize 0 w1 = Some (true, w2) ∧
        names w2 = names w1 ∧ restored files files' example_contents w2 ∧ kept example_world w2
    end.
Proof.
  destruct gfmat_init_ok as (tables & Ht & _). exists tables. split; [exact Ht|].
  apply (repair_restores lookup_kernel word tables ∅ direct_backend (example_main 2 2) 1000 10 4 [lost_file; whole_file] example_contents example_world example_found example_packets Ht).
  - lia.
  - lia.
  - reflexivity.
  - reflexivity.
  - exact example_repairable.
  - vm_compute. congruence.
Defined.
