(* ===== verification/RepairVerifiedSpec.v ===== *)
(** * RepairVerifiedSpec.v: sets that are intact, and repaired files, verify

    The entries that the packets of a set put into the table are those of the blocks of its
    files, so that a file with the right contents is found complete. *)

From stdpp Require Import gmap.
From S2P Require Import Prelude Bytes Crc HashCrc Md5 Md5Spec Md5Single Hasher HasherSpec DiskFile CheckSummer CheckSummerSpec HashTable HashTableSpec FileName Packets Parameters CreatorLayout SourceFile SourceFileSpec SourceBlocksSpec PacketScan RepairFiles RepairFilesSpec RepairScan RepairScanSpec RepairVerifySpec RepairProcess RepairProcessSpec RepairCreateSpec RepairSpec.

Lemma padded_block bs x kk : (kk * bs ≤ length x)%nat → padded bs x (kk * bs) = source_block x bs kk.
Proof.
  intros Hk. unfold padded, source_block, under, slice. rewrite length_take, length_drop.
  f_equal. destruct (Nat.le_ge_cases bs (length x - kk * bs)); [by rewrite Nat.min_l by done|]. rewrite Nat.min_r by done. rewrite !take_ge by (rewrite length_drop; lia). done.
Qed.

(** The packets of a file describe the contents [x]. *)
Record describes (bs : nat) (f : Par2RepairerSourceFile) (x : list Z) : Prop := {
  de_counted : counted (Z.of_nat bs) f;
  de_size : FileSizeOf f = Z.of_nat (length x);
  de_data : (0 < length x)%nat ∧ Z.of_nat (length x) ≤ MaxOffset ∧ Forall (in_range 8) x;
  de_full : DescriptionPacket_HashFull (descriptionpacket f) = md5 x;
  de_16k : DescriptionPacket_Hash16k (descriptionpacket f) = md5 (take k16 x);
  de_packet : ∃ v, verificationpacket f = Some v ∧ v_blockcount v = blockcount f ∧
    packet_entries v = (λ kk, (crc32 (source_block x bs kk), md5 (source_block x bs kk))) <$> seq 0 (count f);
}.

Lemma describes_blocks bs f x : (0 < bs)%nat → describes bs f x → (0 < count f)%nat ∧ ((count f - 1) * bs < length x ≤ count f * bs)%nat ∧ Z.of_nat (count f) = blockcount f.
Proof.
  intros Hbs [Hc Hs (Hp & HM & _) _ _ _]. destruct (counted_bounds (Z.of_nat bs) f ltac:(lia) Hc) as (C1 & C2 & C3). unfold count. nia.
Qed.

(** The entries of a set *)
Definition set_entries (files : list Par2RepairerSourceFile) : list VerificationHashEntry := files_entries 0 (table_files 0 0 files).

Section Entries.
Context (bs : nat).
Hypothesis Hbs : (0 < bs)%nat.

Lemma files_entries_lookup files data id i0 first i f x kk : Forall2 (describes bs) files data → files !! i = Some f → data !! i = Some x → (kk < count f)%nat →
  files_entries id (table_files i0 first files) !! (block_offset files i + kk)%nat
  = Some (new_entry (id + Z.of_nat (block_offset files i + kk)) (i0 + i) (first + (block_offset files i + kk)) (Nat.eqb kk 0)
      (crc32 (source_block x bs kk)) (md5 (source_block x bs kk))).
Proof.
  intros HF. revert id i0 first i. induction HF as [|g y files data Hg HF IH]; intros id i0 first i Hi Hx Hk; [done|].
  cbn [table_files]. destruct (de_packet _ _ _ Hg) as (v & Ev & Evn & Evp). rewrite Ev. cbn [files_entries].
  assert (length (file_entries id i0 first true (packet_entries v)) = count g) as Hl by (rewrite length_file_entries, Evp, length_fmap, length_seq; done).
  destruct i as [|i]; cbn [lookup list_lookup] in Hi, Hx.
  - injection Hi as ->. injection Hx as ->. unfold block_offset. cbn [take sum_list_with Nat.add]. rewrite lookup_app_l by lia.
    rewrite file_entries_lookup, Evp, list_lookup_fmap, lookup_seq_lt by done. cbn [fmap option_fmap option_map fst snd Nat.add]. rewrite Nat.add_0_r. do 2 f_equal. by destruct kk.
  - assert (block_offset (g :: files) (S i) = count g + block_offset files i)%nat as Eo by (unfold block_offset; done). rewrite Eo, lookup_app_r by lia.
    rewrite Hl. replace (count g + block_offset files i + kk - count g)%nat with (block_offset files i + kk)%nat by lia.
    assert (length (packet_entries v) = count g) as Hlp by (rewrite Evp, length_fmap, length_seq; done). rewrite Hlp.
    rewrite (IH _ _ _ i Hi Hx Hk). do 2 f_equal; lia.
Qed.

Lemma length_table_entries files data id i0 first : Forall2 (describes bs) files data → length (files_entries id (table_files i0 first files)) = total_blocks files.
Proof.
  intros HF. revert id i0 first. induction HF as [|g y files data Hg HF IH]; intros id i0 first; [done|]. cbn [table_files]. destruct (de_packet _ _ _ Hg) as (v & Ev & _ & Evp).
  rewrite Ev. cbn [files_entries]. rewrite length_app, length_file_entries, IH, Evp, length_fmap, length_seq. done.
Qed.

Lemma set_entry files data i f x kk : Forall2 (describes bs) files data → files !! i = Some f → data !! i = Some x → (kk < count f)%nat →
  set_entries files !! (block_offset files i + kk)%nat = Some (block_entry bs x i (block_offset files i) (block_offset files i) kk).
Proof.
  intros HF Hi Hx Hk. unfold set_entries. rewrite (files_entries_lookup files data 0 0 0 i f x kk HF Hi Hx Hk). unfold block_entry.
  destruct (Forall2_lookup_l _ _ _ _ _ HF Hi) as (x' & Hx' & Hd). assert (x' = x) as -> by congruence. destruct (describes_blocks bs f x Hbs Hd) as (_ & Hb & _).
  rewrite padded_block by nia. done.
Qed.

(** Every entry is that of block [kk] of some file *)
Lemma set_entry_inv files data j e : Forall2 (describes bs) files data → set_entries files !! j = Some e →
  ∃ i f x kk, files !! i = Some f ∧ data !! i = Some x ∧ (kk < count f)%nat ∧ j = (block_offset files i + kk)%nat ∧
    e = block_entry bs x i (block_offset files i) (block_offset files i) kk.
Proof.
  intros HF Hj. pose proof (lookup_lt_Some _ _ _ Hj) as Hlt. unfold set_entries in Hlt. rewrite (length_table_entries files data) in Hlt by done.
  destruct (block_split files j Hlt) as (i & f & kk & Hi & Hk & ->). destruct (Forall2_lookup_l _ _ _ _ _ HF Hi) as (x & Hx & _).
  rewrite (set_entry files data i f x kk HF Hi Hx Hk) in Hj. injection Hj as <-. by exists i, f, x, kk.
Qed.
End Entries.

(** ** One file *)

(** The same file of the set, whatever was found of it *)
Record same_packets (f0 f : Par2RepairerSourceFile) : Prop := {
  sp_description : descriptionpacket f = descriptionpacket f0;
  sp_verification : verificationpacket f = verificationpacket f0;
  sp_count : blockcount f = blockcount f0;
  sp_first : firstblock f = firstblock f0;
  sp_name : targetfilename f = targetfilename f0;
}.

Lemma same_packets_refl f : same_packets f f.
Proof. done. Qed.

(** The blocks have the lengths of those of the files *)
Definition blocks_sized (bs : nat) (files : list Par2RepairerSourceFile) (blocks : list DataBlock) : Prop :=
  length blocks = total_blocks files ∧
  ∀ i f kk b, files !! i = Some f → (kk < count f)%nat → blocks !! (block_offset files i + kk)%nat = Some b →
    b_length b = Z.min (Z.of_nat bs) (FileSizeOf f - Z.of_nat kk * Z.of_nat bs).

(** The blocks of file [i] are not located *)
Definition unlocated (files : list Par2RepairerSourceFile) (i : nat) (blocks : list DataBlock) : Prop :=
  ∀ f kk b, files !! i = Some f → (kk < count f)%nat → blocks !! (block_offset files i + kk)%nat = Some b → b_diskfile b = None.

Lemma placed_lookup first fl i f : placed first fl → fl !! i = Some f → firstblock f = Some (first + block_offset fl i)%nat.
Proof.
  revert first i. induction fl as [|g fl IH]; intros first [|i] Hp Hi; cbn [lookup list_lookup] in Hi; try done; destruct Hp as [Hg Hp]; unfold block_offset; cbn [take sum_list_with].
  - injection Hi as ->. by rewrite Nat.add_0_r.
  - rewrite Nat.add_assoc. by apply IH.
Qed.

Lemma length_clear_blocks n first blocks : length (clear_blocks n first blocks) = length blocks.
Proof. revert first blocks. induction n as [|n IH]; intros; cbn [clear_blocks]; [done|]. by rewrite IH, length_alter. Qed.

Lemma clear_blocks_lookup n first blocks j :
  clear_blocks n first blocks !! j = if decide (first ≤ j < first + n)%nat then ClearLocation <$> blocks !! j else blocks !! j.
Proof.
  revert first blocks. induction n as [|n IH]; intros first blocks; cbn [clear_blocks]; [by rewrite decide_False by lia|]. rewrite IH.
  destruct (decide (j = first)) as [->|Hne].
  - rewrite list_lookup_alter_eq, decide_False, decide_True by lia. done.
  - rewrite list_lookup_alter_ne by done. by repeat case_decide; try lia.
Qed.

(** What the verification is done with *)
Record verify_setting (bs : nat) (windowtable : array) (maxlength : Z) (fresh : HasherInput) (scratch : MD5Single) (newsummer : DiskFile → FileCheckSummer)
    (t : VerificationHashTable) (files : list Par2RepairerSourceFile) (data : list (list Z)) : Prop := {
  vs_blocksize : (0 < bs)%nat ∧ Z.of_nat bs < 2 ^ 64 - 64;
  vs_window : GenerateWindowTable (Z.of_nat bs) = Some windowtable;
  vs_read : 0 < maxlength;
  vs_fresh : length (h_tmp fresh) = 128%nat;
  vs_scratch : length (tmp scratch) = 64%nat;
  vs_summer : ∀ d x, disk_is x d → constructed bs x (newsummer d);
  vs_files : Forall2 (describes bs) files data;
  vs_total : Z.of_nat (total_blocks files) < 2 ^ 32;
  vs_table : table_ok t (set_entries files);
  vs_links : linked t (set_entries files);
}.

Section Verify.
Context (bs : nat) (windowtable : array) (maxlength : Z) (fresh : HasherInput) (scratch : MD5Single) (newsummer : DiskFile → FileCheckSummer).
Context (t : VerificationHashTable) (files : list Par2RepairerSourceFile) (data : list (list Z)).
Hypothesis Hset : verify_setting bs windowtable maxlength fresh scratch newsummer t files data.
Context (skipdata : bool) (skipleaway : Z) (unverifiable : list nat) (matchtype0 : MatchType) (hashfull0 hash16k0 : list Z).

Local Abbreviation verify_data := (verify_data t bs windowtable maxlength fresh scratch newsummer true skipdata skipleaway true unverifiable matchtype0 hashfull0 hash16k0).

Lemma entries_table blocks fl : blocks_sized bs files blocks → Forall2 same_packets files fl → table_setting bs t (set_entries files) blocks (Some <$> fl).
Proof.
  intros [Hlen Hb] Hfl. destruct (vs_blocksize _ _ _ _ _ _ _ _ _ Hset) as [Hbs _]. pose proof (vs_files _ _ _ _ _ _ _ _ _ Hset) as HF.
  split; [apply (vs_table _ _ _ _ _ _ _ _ _ Hset)| |apply (vs_links _ _ _ _ _ _ _ _ _ Hset)| | |].
  - apply Forall_lookup. intros j e Hj. destruct (set_entry_inv bs Hbs files data j e HF Hj) as (i & f & x & kk & _ & _ & _ & _ & ->). apply md5_hash_ok.
  - apply Forall_lookup. intros j e Hj. destruct (set_entry_inv bs Hbs files data j e HF Hj) as (i & f & x & kk & Hi & _ & Hk & _ & ->).
    unfold has_block. cbn [e_datablock block_entry new_entry]. rewrite Hlen. pose proof (block_offset_total files i f Hi). lia.
  - apply Forall_lookup. intros j b Hj. pose proof (lookup_lt_Some _ _ _ Hj) as Hlt. rewrite Hlen in Hlt. destruct (block_split files j Hlt) as (i & f & kk & Hi & Hk & ->).
    destruct (Forall2_lookup_l _ _ _ _ _ HF Hi) as (x & Hx & Hd). destruct (describes_blocks bs f x Hbs Hd) as (H1 & H2 & _). unfold block_fits.
    rewrite (Hb i f kk b Hi Hk Hj), (de_size _ _ _ Hd). nia.
  - apply Forall_lookup. intros j e Hj. destruct (set_entry_inv bs Hbs files data j e HF Hj) as (i & f & x & kk & Hi & Hx & Hk & _ & ->).
    cbn [e_sourcefile block_entry new_entry]. destruct (Forall2_lookup_l _ _ _ _ _ Hfl Hi) as (f' & Hf' & Hsame). destruct (Forall2_lookup_l _ _ _ _ _ HF Hi) as (x' & _ & Hd).
    destruct (de_packet _ _ _ Hd) as (v & Ev & _). exists f', v. rewrite list_lookup_fmap, Hf'. split; [done|]. by rewrite (sp_verification _ _ Hsame).
Qed.

Lemma file_intact fl blocks FileSize i f0 f x : blocks_sized bs files blocks → unlocated files i blocks →
  files !! i = Some f0 → data !! i = Some x → fl !! i = Some f → completefile f = None →
  intact bs x (set_entries files) (Some <$> fl) FileSize blocks i (block_offset files i) (count f0) (block_offset files i).
Proof.
  intros [Hlen Hb] Hun Hi Hx Hf Hcomp. destruct (vs_blocksize _ _ _ _ _ _ _ _ _ Hset) as [Hbs _]. pose proof (vs_files _ _ _ _ _ _ _ _ _ Hset) as HF.
  destruct (Forall2_lookup_l _ _ _ _ _ HF Hi) as (x' & Hx' & Hd). assert (x' = x) as -> by congruence. destruct (describes_blocks bs f0 x Hbs Hd) as (H1 & H2 & H3). split.
  - done.
  - intros kk Hk. by apply (set_entry bs Hbs files data i f0 x kk).
  - intros e He. destruct (set_entry_inv bs Hbs files data _ e HF He) as (i' & f' & x' & kk & Hi' & _ & Hk & E & ->).
    cbn [e_firstblock block_entry new_entry]. apply Nat.eqb_eq. destruct (Nat.lt_trichotomy i i') as [Hlt|[<-|Hlt]].
    + pose proof (block_offset_mono files i i' f0 Hlt Hi). assert (i' = S i ∨ (S i < i')%nat) as [->|Hlt'] by lia.
      * assert (block_offset files (S i) = block_offset files i + count f0)%nat as Eo.
        { unfold block_offset. rewrite (take_S_r _ _ f0 Hi), sum_list_with_app. cbn [sum_list_with]. lia. }
        lia.
      * destruct (lookup_lt_is_Some_2 files (S i)) as [g Hg]; [apply lookup_lt_Some in Hi'; lia|]. pose proof (block_offset_mono files (S i) i' g Hlt' Hg) as Hm.
        destruct (Forall2_lookup_l _ _ _ _ _ HF Hg) as (y & _ & Hdg). destruct (describes_blocks bs g y Hbs Hdg) as (Hg1 & _).
        assert (block_offset files (S i) = block_offset files i + count f0)%nat as Eo.
        { unfold block_offset. rewrite (take_S_r _ _ f0 Hi), sum_list_with_app. cbn [sum_list_with]. lia. }
        lia.
    + assert (f' = f0) as -> by congruence. lia.
    + pose proof (block_offset_mono files i' i f' Hlt Hi'). lia.
  - intros j e Hj Es. destruct (set_entry_inv bs Hbs files data _ e HF Hj) as (i' & f' & x' & kk & Hi' & _ & Hk & -> & ->). cbn in Es. subst i'. lia.
  - intros kk Hk. destruct (lookup_lt_is_Some_2 blocks (block_offset files i + kk)) as [b Hbk]; [rewrite Hlen; pose proof (block_offset_total files i f0 Hi); lia|].
    exists b. split; [done|]. split; [unfold IsSet; by rewrite (Hun f0 kk b Hi Hk Hbk)|]. rewrite (Hb i f0 kk b Hi Hk Hbk), (de_size _ _ _ Hd). nia.
  - unfold complete. rewrite list_lookup_fmap, Hf. cbn [fmap option_fmap option_map mjoin option_join]. rewrite Hcomp. by rewrite bool_decide_eq_false_2 by auto.
Qed.

Lemma verify_data_ok fl blocks w target d i f0 f x : blocks_sized bs files blocks → unlocated files i blocks → Forall2 same_packets files fl →
  files !! i = Some f0 → data !! i = Some x → fl !! i = Some f → completefile f = None → disk_is x d →
  verify_data (Some <$> fl) w target d false blocks (Some i)
  = Some (true, Some <$> <[i := SetCompleteFile f (Some target)]> fl, located_upto bs target true blocks (block_offset files i) (count f0)).
Proof.
  intros Hblocks Hun Hfl Hi Hx Hf Hcomp Hd. destruct (vs_blocksize _ _ _ _ _ _ _ _ _ Hset) as [Hbs Hbs64]. pose proof (vs_files _ _ _ _ _ _ _ _ _ Hset) as HF.
  destruct (Forall2_lookup_l _ _ _ _ _ HF Hi) as (x' & Hx' & Hdesc). assert (x' = x) as -> by congruence. destruct (describes_blocks bs f0 x Hbs Hdesc) as (H1 & H2 & H3).
  destruct (Forall2_lookup_l _ _ _ _ _ Hfl Hi) as (f' & Hf' & Hsame). assert (f' = f) as -> by congruence.
  destruct (de_packet _ _ _ Hdesc) as (v & Ev & Evn & _). destruct (de_data _ _ _ Hdesc) as (Hp & HM & Hbytes).
  unfold RepairProcess.verify_data, VerifyDataFile. destruct Hd as [Hdok Hdc]. rewrite (do_size _ Hdok), Nat2Z.id, Hdc.
  destruct (entries_table blocks fl Hblocks Hfl) as [T1 T2 T3 T4 T5 T6].
  rewrite (ScanDataFile_intact bs windowtable x maxlength fresh scratch Hbs Hbs64 (vs_window _ _ _ _ _ _ _ _ _ Hset) Hbytes HM (vs_read _ _ _ _ _ _ _ _ _ Hset)
    (vs_fresh _ _ _ _ _ _ _ _ _ Hset) (vs_scratch _ _ _ _ _ _ _ _ _ Hset) t (set_entries files) (Some <$> fl) (FileSizes w) target true false skipdata skipleaway blocks
    T1 T3 T4 i (block_offset files i) (count f0) (block_offset files i) (file_intact fl blocks (FileSizes w) i f0 f x Hblocks Hun Hi Hx Hf Hcomp) (newsummer d) 0 f v).
  - cbn [mbind option_bind r_result r_matchtype default from_option id r_sourcefile r_blocks negb]. rewrite list_lookup_fmap, Hf. cbn [fmap option_fmap option_map mjoin option_join mbind option_bind].
    by rewrite list_fmap_insert.
  - done.
  - pose proof (vs_total _ _ _ _ _ _ _ _ _ Hset). pose proof (block_offset_total files i f0 Hi). lia.
  - apply (vs_summer _ _ _ _ _ _ _ _ _ Hset). by split.
  - by rewrite list_lookup_fmap, Hf.
  - by rewrite (sp_verification _ _ Hsame).
  - by rewrite Evn, H3.
  - unfold FileSizeOf. rewrite (sp_description _ _ Hsame). apply (de_size _ _ _ Hdesc).
  - rewrite (sp_description _ _ Hsame). apply (de_full _ _ _ Hdesc).
  - rewrite (sp_description _ _ Hsame). apply (de_16k _ _ _ Hdesc).
Qed.
(** ** Loops over files *)

(** A block that was found, in a file that is open *)
Definition block_found (w : World) (b : DataBlock) : Prop := IsSet (FileSizes w) b = true ∧ ∃ t, b_diskfile b = Some t ∧ (t < length (disks w))%nat.

(** File [i] was found complete in its place with its contents, and so were all its blocks. *)
Definition file_done (w : World) (fl : list Par2RepairerSourceFile) (blocks : list DataBlock) (i : nat) : Prop :=
  ∃ f0 f t, files !! i = Some f0 ∧ fl !! i = Some f ∧ targetexists f = true ∧ targetfile f = Some t ∧ completefile f = Some t ∧
    (∃ x d, data !! i = Some x ∧ disks w !! t = Some d ∧ disk_is x d) ∧
    ∀ kk b, (kk < count f0)%nat → blocks !! (block_offset files i + kk)%nat = Some b → block_found w b.

(** File [i] has not been looked at. *)
Definition file_open (w : World) (fl : list Par2RepairerSourceFile) (blocks : list DataBlock) (i : nat) : Prop :=
  ∃ f, fl !! i = Some f ∧ completefile f = None ∧ unlocated files i blocks ∧ is_open w (targetfilename f) = false.

(** The parts of the state that belong to file [j] are the same. *)
Definition file_kept (fl fl' : list Par2RepairerSourceFile) (blocks blocks' : list DataBlock) (j : nat) : Prop :=
  fl' !! j = fl !! j ∧ ∀ f kk, files !! j = Some f → (kk < count f)%nat → blocks' !! (block_offset files j + kk)%nat = blocks !! (block_offset files j + kk)%nat.

Lemma block_found_add w name d b : block_found w b → block_found (add_file w name d) b.
Proof.
  intros [Hs (q & Et & Ht)]. split; [|exists q; split; [done|]; unfold add_file; cbn [disks]; rewrite length_app; lia].
  unfold IsSet, FileSizes in *. rewrite Et in *. unfold add_file. cbn [disks]. by rewrite lookup_app_l.
Qed.

Lemma file_done_add w name d fl blocks i : file_done w fl blocks i → file_done (add_file w name d) fl blocks i.
Proof.
  intros (f0 & f & q & H1 & H2 & H3 & H4 & H5 & Ht & Hb). exists f0, f, q. destruct Ht as (x & d' & Hx & Hd & Hc). split_and!; try done; [exists x, d'; split_and!; try done; by apply lookup_app_l_Some|].
  intros kk b Hk Hbk. by apply block_found_add, (Hb kk).
Qed.

Lemma file_done_kept w fl fl' blocks blocks' j : file_kept fl fl' blocks blocks' j → file_done w fl blocks j → file_done w fl' blocks' j.
Proof.
  intros [K1 K2] (f0 & f & q & H1 & H2 & H3 & H4 & H5 & Ht & Hb). exists f0, f, q. split_and!; try done; [congruence|].
  intros kk b Hk Hbk. rewrite (K2 f0 kk H1 Hk) in Hbk. by apply (Hb kk).
Qed.

Lemma unlocated_kept fl fl' blocks blocks' j : file_kept fl fl' blocks blocks' j → unlocated files j blocks → unlocated files j blocks'.
Proof. intros [_ K2] Hu f kk b Hf Hk Hb. rewrite (K2 f kk Hf Hk) in Hb. by apply (Hu f kk). Qed.

Lemma located_upto_sized target first n blocks : blocks_sized bs files blocks → blocks_sized bs files (located_upto bs target true blocks first n).
Proof.
  intros [Hl Hb]. split; [unfold located_upto; by rewrite length_imap|]. intros i f kk b Hi Hk Hbk. unfold located_upto in Hbk. rewrite list_lookup_imap in Hbk.
  apply fmap_Some in Hbk as (b' & Hb' & ->). rewrite <- (Hb i f kk b' Hi Hk Hb'). by destruct (_ && _).
Qed.

(** One file that is intact *)
Lemma verify_data_done fl blocks w target d i f0 f x : blocks_sized bs files blocks → unlocated files i blocks → Forall2 same_packets files fl →
  files !! i = Some f0 → data !! i = Some x → fl !! i = Some f → completefile f = None → targetexists f = true → targetfile f = Some target →
  disk_is x d → (∃ d', disks w !! target = Some d' ∧ disk_is x d') →
  ∃ fl' blocks', verify_data (Some <$> fl) w target d false blocks (Some i) = Some (true, Some <$> fl', blocks') ∧
    Forall2 same_packets files fl' ∧ blocks_sized bs files blocks' ∧ file_done w fl' blocks' i ∧ targetfile <$> fl' = targetfile <$> fl ∧
    ∀ j, j ≠ i → file_kept fl fl' blocks blocks' j.
Proof.
  intros Hblocks Hun Hfl Hi Hx Hf Hcomp Hex Htf Hd (d' & Hd' & Hc'). rewrite (verify_data_ok fl blocks w target d i f0 f x) by done.
  eexists _, _. split; [reflexivity|]. pose proof (vs_files _ _ _ _ _ _ _ _ _ Hset) as HF. destruct (vs_blocksize _ _ _ _ _ _ _ _ _ Hset) as [Hbs _].
  destruct (Forall2_lookup_l _ _ _ _ _ HF Hi) as (x' & Hx' & Hdesc). assert (x' = x) as -> by congruence. destruct (describes_blocks bs f0 x Hbs Hdesc) as (H1 & H2 & H3).
  destruct (Forall2_lookup_l _ _ _ _ _ Hfl Hi) as (f' & Hf' & Hsame). assert (f' = f) as -> by congruence. split; [|split; [by apply located_upto_sized|split]].
  - replace files with (<[i:=f0]> files) by (by apply list_insert_id). apply Forall2_insert; [done|]. by destruct Hsame.
  - exists f0, (SetCompleteFile f (Some target)), target. rewrite list_lookup_insert_eq by (by apply lookup_lt_Some in Hf). split_and!; try done; [by exists x, d'|].
    intros kk b Hk Hb. unfold located_upto in Hb. rewrite list_lookup_imap in Hb. apply fmap_Some in Hb as (b0 & Hb0 & ->).
    rewrite (proj2 (Nat.leb_le _ _)), (proj2 (Nat.ltb_lt _ _)) by lia. cbn [andb]. split; [|exists target; split; [done|by apply lookup_lt_Some in Hd']].
    destruct Hblocks as [_ Hb]. specialize (Hb i f0 kk b0 Hi Hk Hb0). rewrite (de_size _ _ _ Hdesc) in Hb. destruct (de_data _ _ _ Hdesc) as (_ & HM & _).
    unfold IsSet. cbn [b_diskfile SetLocation b_filesize b_offset b_length]. destruct (0 <? b_filesize b0); [|done].
    replace (block_offset files i + kk - block_offset files i)%nat with kk by lia. unfold MaxOffset in HM. unfold FileSizes. rewrite Hd', Hb, wrap_small by (split; nia).
    destruct Hc' as [Hok Hc]. rewrite (do_size _ Hok), Hc, (proj2 (Z.ltb_ge _ _)) by nia. done.
  - split; [rewrite list_fmap_insert; apply list_insert_id; by rewrite list_lookup_fmap, Hf|].
    intros j Hj. split; [by rewrite list_lookup_insert_ne by done|]. intros g kk Hg Hk. unfold located_upto. rewrite list_lookup_imap.
    destruct (blocks !! (block_offset files j + kk)%nat); [|done]. cbn [fmap option_fmap option_map].
    destruct (Nat.leb_spec (block_offset files i) (block_offset files j + kk)); [|done]. destruct (Nat.ltb_spec (block_offset files j + kk) (block_offset files i + count f0)); [|done].
    exfalso. apply Hj. destruct (same_block files j g kk i f0 (block_offset files j + kk - block_offset files i)%nat Hg Hk Hi ltac:(lia) ltac:(lia)). done.
Qed.

Context (open : list Z → option DiskFile).
Hypothesis Hnames : NoDup (targetfilename <$> files).

Local Abbreviation verify_source := (verify_source t bs windowtable maxlength fresh scratch newsummer true skipdata skipleaway true unverifiable matchtype0 hashfull0 hash16k0 open).
Local Abbreviation verify_sources := (verify_sources t bs windowtable maxlength fresh scratch newsummer true skipdata skipleaway true unverifiable matchtype0 hashfull0 hash16k0 open).

(** File [i] exists under its name with its contents. *)
Definition file_present (i : nat) : Prop := ∃ f x d, files !! i = Some f ∧ data !! i = Some x ∧ open (targetfilename f) = Some d ∧ disk_is x d.

(** File [i] is opened under its name; what the world is when files have been opened, and
    nothing else has changed *)
Definition opens (i : nat) (new : list Z * DiskFile) : Prop := ∃ f, files !! i = Some f ∧ new.1 = targetfilename f ∧ open new.1 = Some new.2.
Definition with_opened (w : World) (new : list (list Z * DiskFile)) : World :=
  {| disks := disks w ++ new.*2; names := names w ++ (Some <$> new.*1); others := others w |}.

Lemma with_opened_cons w name d new : with_opened (add_file w name d) new = with_opened w ((name, d) :: new).
Proof. unfold with_opened, add_file. cbn [disks names others fmap list_fmap fst snd]. by rewrite <- !app_assoc. Qed.

Lemma same_insert fl i f f' : Forall2 same_packets files fl → fl !! i = Some f → same_packets f f' → Forall2 same_packets files (<[i := f']> fl).
Proof.
  intros Hfl Hi Hs. destruct (Forall2_lookup_r _ _ _ _ _ Hfl Hi) as (f0 & Hf0 & Hs0). replace files with (<[i:=f0]> files) by (by apply list_insert_id).
  apply Forall2_insert; [done|]. destruct Hs, Hs0. split; congruence.
Qed.

Lemma other_name fl i j f g : Forall2 same_packets files fl → fl !! i = Some f → fl !! j = Some g → i ≠ j → targetfilename f ≠ targetfilename g.
Proof.
  intros Hfl Hi Hj Hne E. destruct (Forall2_lookup_r _ _ _ _ _ Hfl Hi) as (f0 & Hf0 & S1), (Forall2_lookup_r _ _ _ _ _ Hfl Hj) as (g0 & Hg0 & S2).
  apply Hne. eapply (NoDup_lookup _ _ _ (targetfilename f)); [exact Hnames| |]; rewrite list_lookup_fmap; [rewrite Hf0|rewrite Hg0]; cbn; f_equal; [by destruct S1|].
  rewrite E. by destruct S2.
Qed.

Lemma verify_source_ok fl blocks w i : blocks_sized bs files blocks → Forall2 same_packets files fl → file_open w fl blocks i → file_present i →
  ∃ fl' blocks' name d, verify_source i (Some <$> fl) blocks w = Some (true, Some <$> fl', blocks', add_file w name d) ∧
    Forall2 same_packets files fl' ∧ blocks_sized bs files blocks' ∧ file_done (add_file w name d) fl' blocks' i ∧ opens i (name, d) ∧
    ∀ j, j ≠ i → file_kept fl fl' blocks blocks' j ∧ (file_open w fl blocks j → file_open (add_file w name d) fl' blocks' j).
Proof.
  intros Hb Hfl (f & Hf & Hcomp & Hun & Hopen) (f0 & x & d & Hf0 & Hx & Hod & Hd). destruct (Forall2_lookup_l _ _ _ _ _ Hfl Hf0) as (f' & Hf' & Hs).
  assert (f' = f) as -> by congruence. unfold RepairProcess.verify_source. rewrite list_lookup_fmap, Hf. cbn [fmap option_fmap option_map mjoin option_join mbind option_bind].
  rewrite Hopen. rewrite (sp_name _ _ Hs), Hod. rewrite <- list_fmap_insert. set (name := targetfilename f0) in *. set (target := length (disks w)).
  set (f1 := SetTarget f true (Some target)). pose proof (lookup_lt_Some _ _ _ Hf) as Hlt.
  destruct (verify_data_done (<[i:=f1]> fl) blocks (add_file w name d) target d i f0 f1 x) as (fl' & blocks' & -> & H1 & H2 & H3 & _ & H4); try done.
  - by apply (same_insert fl i f).
  - by rewrite list_lookup_insert_eq.
  - exists d. split; [|done]. unfold add_file. cbn [disks]. by apply list_lookup_middle.
  - cbn [mbind option_bind]. exists fl', blocks', name, d. split; [done|]. split; [done|]. split; [done|]. split; [done|]. split; [by exists f0|]. intros j Hj. destruct (H4 j Hj) as [K1 K2].
    assert (file_kept fl fl' blocks blocks' j) as Hk by (split; [rewrite K1; by apply list_lookup_insert_ne|done]). split; [done|].
    intros (g & Hg & Gc & Gu & Go). exists g. split; [by rewrite (proj1 Hk)|]. split; [done|]. split; [by eapply unlocated_kept|].
    unfold is_open in Go |- *. apply bool_decide_eq_false in Go. apply bool_decide_eq_false. unfold add_file. cbn [names]. intros [Hin|Hin%list_elem_of_singleton]%elem_of_app; [done|].
    injection Hin as Hin. apply (other_name fl j i g f Hfl Hg Hf Hj). rewrite Hin. by rewrite (sp_name _ _ Hs).
Qed.

Lemma verify_sources_ok order fl blocks w : NoDup order → blocks_sized bs files blocks → Forall2 same_packets files fl →
  (∀ i, i ∈ order → file_open w fl blocks i ∧ file_present i) →
  ∃ fl' blocks' w', verify_sources order (Some <$> fl) blocks w = Some (true, Some <$> fl', blocks', w') ∧
    Forall2 same_packets files fl' ∧ blocks_sized bs files blocks' ∧ (∀ i, i ∈ order → file_done w' fl' blocks' i) ∧
    (∀ j, j ∉ order → file_done w fl blocks j → file_done w' fl' blocks' j) ∧
    ∃ new, w' = with_opened w new ∧ Forall2 opens order new.
Proof.
  intros Hnd. revert fl blocks w. induction Hnd as [|i order Hi Hnd IH]; intros fl blocks w Hb Hfl Hall.
  { exists fl, blocks, w. split; [done|]. split; [done|]. split; [done|]. split; [by intros i Hi%elem_of_nil|]. split; [done|]. exists []. split; [|done]. unfold with_opened. cbn. rewrite !app_nil_r. by destruct w. }
  destruct (Hall i ltac:(by left)) as [Ho Hp]. destruct (verify_source_ok fl blocks w i Hb Hfl Ho Hp) as (fl1 & blocks1 & name & d & E & H1 & H2 & H3 & Hopens & H4).
  destruct (IH fl1 blocks1 (add_file w name d) H2 H1) as (fl2 & blocks2 & w2 & E2 & H5 & H6 & H7 & H8 & new & Hn1 & Hn2).
  { intros j Hj. assert (j ≠ i) as Hne by (by intros ->). destruct (Hall j ltac:(by right)) as [Hoj Hpj]. split; [|done]. by apply H4. }
  cbn [RepairProcess.verify_sources]. rewrite E. cbn [mbind option_bind]. rewrite E2. cbn [mbind option_bind andb]. exists fl2, blocks2, w2. split; [done|]. split; [done|]. split; [done|]. split; [|split].
  - intros j [->|Hj]%elem_of_cons; [by apply H8|by apply H7].
  - intros j [Hne Hj]%not_elem_of_cons Hdone. apply H8; [done|]. eapply file_done_kept; [by apply (H4 j)|]. by apply file_done_add.
  - exists ((name, d) :: new). split; [by rewrite <- with_opened_cons|by constructor].
Qed.

(** ** The repaired files *)

Local Abbreviation verify_target := (verify_target t bs windowtable maxlength fresh scratch newsummer true skipdata skipleaway true unverifiable matchtype0 hashfull0 hash16k0).
Local Abbreviation VerifyTargetFiles := (VerifyTargetFiles t bs windowtable maxlength fresh scratch newsummer true skipdata skipleaway true unverifiable matchtype0 hashfull0 hash16k0).
Hypothesis Hplaced : placed 0 files.

(** The target file of file [i] has its contents. *)
Definition target_right (w : World) (fl : list Par2RepairerSourceFile) (i : nat) : Prop :=
  ∃ f q x d, fl !! i = Some f ∧ targetexists f = true ∧ targetfile f = Some q ∧ data !! i = Some x ∧ disks w !! q = Some d ∧ disk_is x d.

Lemma verify_target_ok fl blocks w i : blocks_sized bs files blocks → Forall2 same_packets files fl → target_right w fl i →
  ∃ fl' blocks', verify_target i (Some <$> fl) blocks w = Some (true, Some <$> fl', blocks') ∧
    Forall2 same_packets files fl' ∧ blocks_sized bs files blocks' ∧ file_done w fl' blocks' i ∧ targetfile <$> fl' = targetfile <$> fl ∧
    ∀ j, j ≠ i → file_kept fl fl' blocks blocks' j.
Proof.
  intros [Hl Hb] Hfl (f & q & x & d & Hf & Hex & Hq & Hx & Hd & Hc). destruct (Forall2_lookup_r _ _ _ _ _ Hfl Hf) as (f0 & Hf0 & Hs).
  pose proof (vs_files _ _ _ _ _ _ _ _ _ Hset) as HF. destruct (vs_blocksize _ _ _ _ _ _ _ _ _ Hset) as [Hbs _].
  destruct (Forall2_lookup_l _ _ _ _ _ HF Hf0) as (x' & Hx' & Hdesc). assert (x' = x) as -> by congruence. destruct (describes_blocks bs f0 x Hbs Hdesc) as (H1 & H2 & H3).
  unfold RepairProcess.verify_target. rewrite list_lookup_fmap, Hf. cbn [fmap option_fmap option_map mjoin option_join mbind option_bind].
  rewrite Hq. cbn [mbind option_bind]. rewrite Hd. cbn [mbind option_bind]. rewrite (sp_count _ _ Hs), <- H3, (proj2 (Z.ltb_lt 0 _)), Nat2Z.id by lia.
  rewrite (sp_first _ _ Hs), (placed_lookup 0 files i f0 Hplaced Hf0). cbn [mbind option_bind Nat.add]. rewrite <- list_fmap_insert.
  set (f1 := SetCompleteFile f None). set (blocks1 := clear_blocks _ _ _). pose proof (lookup_lt_Some _ _ _ Hf) as Hlt.
  assert (∀ j g kk, j ≠ i → files !! j = Some g → (kk < count g)%nat → blocks1 !! (block_offset files j + kk)%nat = blocks !! (block_offset files j + kk)%nat) as Hother.
  { intros j g kk Hj Hg Hk. unfold blocks1. rewrite clear_blocks_lookup. case_decide as Hin; [|done]. exfalso. apply Hj.
    by destruct (same_block files j g kk i f0 (block_offset files j + kk - block_offset files i)%nat Hg Hk Hf0 ltac:(lia) ltac:(lia)). }
  destruct (verify_data_done (<[i:=f1]> fl) blocks1 w q (reopen d) i f0 f1 x) as (fl' & blocks' & -> & G1 & G2 & G3 & G5 & G4); try done.
  - split; [unfold blocks1; by rewrite length_clear_blocks|]. intros j g kk b Hg Hk Hbk. unfold blocks1 in Hbk. rewrite clear_blocks_lookup in Hbk.
    case_decide; [apply fmap_Some in Hbk as (b' & Hb' & ->); by apply (Hb j g kk b')|by apply (Hb j g kk b)].
  - intros g kk b Hg Hk Hbk. unfold blocks1 in Hbk. rewrite clear_blocks_lookup in Hbk. assert (g = f0) as -> by congruence. rewrite decide_True in Hbk by lia.
    by apply fmap_Some in Hbk as (b' & _ & ->).
  - by apply (same_insert fl i f).
  - by rewrite list_lookup_insert_eq.
  - destruct Hc as [Hok Hc]. split; [|done]. split; cbn; [done|lia|apply Hok].
  - by exists d.
  - exists fl', blocks'. split; [done|]. split; [done|]. split; [done|]. split; [done|]. split.
    { rewrite G5, list_fmap_insert. apply list_insert_id. by rewrite list_lookup_fmap, Hf. }
    intros j Hj. destruct (G4 j Hj) as [K1 K2]. split.
    + rewrite K1. by apply list_lookup_insert_ne.
    + intros g kk Hg Hk. rewrite (K2 g kk Hg Hk). by apply Hother with g.
Qed.

Lemma VerifyTargetFiles_ok vl fl blocks w : NoDup vl → blocks_sized bs files blocks → Forall2 same_packets files fl → (∀ i, i ∈ vl → target_right w fl i) →
  ∃ fl' blocks', VerifyTargetFiles vl (Some <$> fl) blocks w = Some (true, Some <$> fl', blocks') ∧
    Forall2 same_packets files fl' ∧ blocks_sized bs files blocks' ∧ (∀ i, i ∈ vl → file_done w fl' blocks' i) ∧
    (∀ j, j ∉ vl → file_done w fl blocks j → file_done w fl' blocks' j) ∧ targetfile <$> fl' = targetfile <$> fl.
Proof.
  intros Hnd. revert fl blocks. induction Hnd as [|i vl Hi Hnd IH]; intros fl blocks Hb Hfl Hall.
  { exists fl, blocks. split; [done|]. split; [done|]. split; [done|]. split; [by intros i Hi%elem_of_nil|done]. }
  destruct (verify_target_ok fl blocks w i Hb Hfl (Hall i ltac:(by left))) as (fl1 & blocks1 & E & H1 & H2 & H3 & H9 & H4).
  destruct (IH fl1 blocks1 H2 H1) as (fl2 & blocks2 & E2 & H5 & H6 & H7 & H8 & H10).
  { intros j Hj. assert (j ≠ i) as Hne by (by intros ->). destruct (Hall j ltac:(by right)) as (f & q & x & d & Hf & Hrest). exists f, q, x, d. split; [|done]. by rewrite (proj1 (H4 j Hne)). }
  cbn [RepairProcess.VerifyTargetFiles]. rewrite E. cbn [mbind option_bind]. rewrite E2. cbn [mbind option_bind andb]. exists fl2, blocks2. split; [done|]. split; [done|]. split; [done|]. split; [|split].
  - intros j [->|Hj]%elem_of_cons; [by apply H8|by apply H7].
  - intros j [Hne Hj]%not_elem_of_cons Hdone. apply H8; [done|]. eapply file_done_kept; [by apply (H4 j)|done].
  - by rewrite H10.
Qed.

(** ** The results *)

Lemma same_counts fl fl' : Forall2 same_packets fl fl' → count <$> fl' = count <$> fl.
Proof. induction 1 as [|f f' fl fl' Hs _ IH]; [done|]. cbn [fmap list_fmap]. f_equal; [|done]. unfold count. by rewrite (sp_count _ _ Hs). Qed.

Lemma same_placed first fl fl' : Forall2 same_packets fl fl' → placed first fl → placed first fl'.
Proof.
  intros HF. revert first. induction HF as [|f f' fl fl' Hs _ IH]; intros first; [done|]. intros [Hf Hp]. split; [by rewrite (sp_first _ _ Hs)|].
  unfold count. rewrite (sp_count _ _ Hs). by apply IH.
Qed.

Lemma sum_counts (l : list Par2RepairerSourceFile) : sum_list_with count l = sum_list (count <$> l).
Proof. induction l as [|f l IH]; [done|]. cbn. by rewrite IH. Qed.

Lemma same_offset fl i : Forall2 same_packets files fl → block_offset fl i = block_offset files i.
Proof. intros HF. unfold block_offset. rewrite !sum_counts, !fmap_take. by rewrite (same_counts files fl HF). Qed.

Lemma blocks_of_lookup w first fl blocks : placed first fl → Forall (λ f, 0 ≤ blockcount f) fl →
  (∀ i f kk b, fl !! i = Some f → completefile f ≠ None → (kk < count f)%nat → blocks !! (first + block_offset fl i + kk)%nat = Some b → IsSet (FileSizes w) b = true) →
  blocks_of blocks (FileSizes w) first fl.
Proof.
  revert first. induction fl as [|f fl IH]; intros first Hp HF Hb; [done|]. destruct Hp as [Hf Hp]. apply Forall_cons in HF as [H0 HF]. cbn [blocks_of]. split_and!; [done|done| |].
  - intros Hc kk b Hk Hbk. apply (Hb 0%nat f kk b eq_refl Hc Hk). unfold block_offset. cbn [take sum_list_with]. by rewrite Nat.add_0_r.
  - apply IH; [done|done|]. intros i g kk b Hi Hc Hk Hbk. apply (Hb (S i) g kk b Hi Hc Hk). unfold block_offset in *. cbn [take sum_list_with]. by rewrite Nat.add_assoc in *.
Qed.

(** All files were found. *)
Lemma all_done_results main fl blocks w : m_totalfilecount main = Z.of_nat (length files) → blocks_sized bs files blocks → Forall2 same_packets files fl →
  (∀ i, (i < length files)%nat → file_done w fl blocks i) →
  UpdateVerificationResults blocks (FileSizes w) main (Z.of_nat (length blocks)) (Some <$> fl)
  = Some {| availableblockcount := Z.of_nat (length blocks); missingblockcount := 0; completefilecount := Z.of_nat (length files);
            renamedfilecount := 0; damagedfilecount := 0; missingfilecount := 0 |}.
Proof.
  intros Hm [Hl Hb] Hfl Hall. pose proof (Forall2_length _ _ _ Hfl) as Hlen. pose proof (vs_total _ _ _ _ _ _ _ _ _ Hset) as H32.
  assert (total_blocks fl = total_blocks files) as Ht by (unfold total_blocks; by rewrite !sum_counts, (same_counts files fl Hfl)).
  assert (∀ j f0 kk b, files !! j = Some f0 → (kk < count f0)%nat → blocks !! (block_offset files j + kk)%nat = Some b → IsSet (FileSizes w) b = true) as Hset'.
  { intros j f0 kk b Hj Hk Hbk. destruct (Hall j ltac:(by apply lookup_lt_Some in Hj)) as (g & _ & _ & Hg & _ & _ & _ & _ & _ & Hfound).
    assert (g = f0) as -> by congruence. by apply (Hfound kk b). }
  assert (located (FileSizes w) blocks = length blocks) as Hall_located.
  { apply located_all. intros j b Hj. pose proof (lookup_lt_Some _ _ _ Hj) as Hlt. rewrite Hl in Hlt. destruct (block_split files j Hlt) as (i & f & kk & Hi & Hk & ->).
    by apply (Hset' i f kk b). }
  assert (Forall (λ f, complete_here f = true) fl) as Hhere.
  { apply Forall_lookup. intros i f Hi. destruct (Hall i ltac:(rewrite Hlen; by apply lookup_lt_Some in Hi)) as (f0 & f' & q & _ & Hf' & _ & Eq & Ec & _).
    assert (f' = f) as -> by congruence. apply bool_decide_eq_true. rewrite Ec, Eq. done. }
  assert (blocks_of blocks (FileSizes w) 0 fl) as Hof.
  { apply blocks_of_lookup; [by eapply same_placed| |].
    - apply Forall_lookup. intros i f Hi. destruct (Forall2_lookup_r _ _ _ _ _ Hfl Hi) as (f0 & Hf0 & Hs). rewrite (sp_count _ _ Hs).
      destruct (Forall2_lookup_l _ _ _ _ _ (vs_files _ _ _ _ _ _ _ _ _ Hset) Hf0) as (x & _ & Hd). destruct (vs_blocksize _ _ _ _ _ _ _ _ _ Hset) as [Hbs _].
      destruct (describes_blocks bs f0 x Hbs Hd). lia.
    - intros i f kk b Hi _ Hk Hbk. destruct (Forall2_lookup_r _ _ _ _ _ Hfl Hi) as (f0 & Hf0 & Hs). rewrite (same_offset fl i Hfl) in Hbk.
      apply (Hset' i f0 kk b Hf0); [unfold count in *; by rewrite <- (sp_count _ _ Hs)|done]. }
  rewrite (UpdateVerificationResults_ok blocks (FileSizes w) main fl) by (congruence || lia). rewrite Hall_located, Nat.sub_diag.
  pose proof (proj2 (tally_all complete_here fl) Hhere) as Hh. pose proof (tally_classes fl) as Hcl. rewrite Hh in Hcl |- *. rewrite <- Hlen in Hcl |- *.
  pose proof (tally_nonneg complete_elsewhere fl). pose proof (tally_nonneg damaged fl). pose proof (tally_nonneg missing fl). do 2 f_equal; lia.
Qed.
End Verify.
