(* ===== verification/RepairIntactSpec.v ===== *)
(** * RepairIntactSpec.v: a set whose files are intact needs no repair *)

From stdpp Require Import gmap sorting.
From S2P Require Import Prelude Bytes GfCoeff GfMul GfLookup Crc HashCrc Md5 Md5Spec Md5Single Hasher HasherSpec DiskFile CheckSummer CheckSummerSpec HashTable HashTableSpec FileName Packets Parameters CreatorLayout SourceFile SourceFileSpec SourceBlocksSpec PacketScan RepairFiles RepairFilesSpec RepairScan RepairScanSpec RepairVerifySpec RepairProcess RepairProcessSpec RepairCreateSpec RepairSpec RepairVerifiedSpec.

(** What the packets say about the files is loaded, and nothing has been verified. *)
Record set_loaded (bs : nat) (main : MainPacket) (files : list Par2RepairerSourceFile) (blocks : list DataBlock) (w : World) : Prop := {
  sl_total : m_totalfilecount main = Z.of_nat (length files);
  sl_recoverable : m_recoverablefilecount main = Z.of_nat (length files);
  sl_placed : placed 0 files;
  sl_blocks : blocks_sized bs files blocks;
  sl_unlocated : ∀ i, unlocated files i blocks;
  sl_incomplete : Forall (λ f, completefile f = None) files;
  sl_names : NoDup (targetfilename <$> files);
  sl_closed : Forall (λ f, is_open w (targetfilename f) = false) files;
}.

(** All files were found complete in their places, with their contents. *)
Definition all_found (data : list (list Z)) (fl : list Par2RepairerSourceFile) (w : World) : Prop :=
  ∀ i x, data !! i = Some x → ∃ f t d, fl !! i = Some f ∧ complete_here f = true ∧ targetfile f = Some t ∧ disks w !! t = Some d ∧ contents d = x.

Lemma same_packets_all files : Forall2 same_packets files files.
Proof. induction files as [|f files IH]; constructor; [apply same_packets_refl|done]. Qed.

Lemma dones_found files data w fl blocks : length files = length data → (∀ i, (i < length files)%nat → file_done files data w fl blocks i) → all_found data fl w.
Proof.
  intros Hl Hall i x Hx. destruct (Hall i ltac:(rewrite Hl; by apply lookup_lt_Some in Hx)) as (f0 & f & t & _ & Hf & _ & Et & Ec & (x' & d & Hx' & Hd & Hok & Hc) & _).
  exists f, t, d. split_and!; try done; [|congruence]. apply bool_decide_eq_true. by rewrite Et, Ec.
Qed.

Section Intact.
Context (bs : nat) (windowtable : array) (maxlength : Z) (fresh : HasherInput) (scratch : MD5Single) (newsummer : DiskFile → FileCheckSummer).
Context (t : VerificationHashTable) (files : list Par2RepairerSourceFile) (data : list (list Z)).
Context (skipdata : bool) (skipleaway : Z) (unverifiable : list nat) (matchtype0 : MatchType) (hashfull0 hash16k0 : list Z).

End Intact.

(** ** Files with their packets *)

(** The packets that describe contents in [n] blocks *)
Definition description_for (name x : list Z) : DescriptionPacket :=
  {| d_data := replicate 80 0 ++ md5 x ++ md5 (take k16 x) ++ le_split 8 (Z.of_nat (length x)); d_filename := name |}.
Definition block_entry_of (bs : nat) (x : list Z) (kk : nat) : Z * list Z := (crc32 (source_block x bs kk), md5 (source_block x bs kk)).
Definition verification_for (bs : nat) (x : list Z) (n : nat) : VerificationPacket :=
  {| v_data := replicate 80 0 ++ mjoin ((λ kk, (block_entry_of bs x kk).2 ++ le_split 4 (block_entry_of bs x kk).1) <$> seq 0 n); v_blockcount := Z.of_nat n |}.
Definition described_file (bs : nat) (name x : list Z) (n first : nat) : Par2RepairerSourceFile :=
  {| descriptionpacket := description_for name x; verificationpacket := Some (verification_for bs x n); blockcount := Z.of_nat n; firstblock := Some first;
     targetexists := false; targetfile := None; completefile := None; targetfilename := name |}.

Lemma slice_pieces (pre : list Z) (g : nat → list Z) l (m i j off n : nat) : Forall (λ k, length (g k) = m) l → l !! i = Some j → (off + n ≤ m)%nat →
  ∀ p, p = (length pre + m * i + off)%nat → slice (pre ++ mjoin (g <$> l)) p n = slice (g j) off n.
Proof.
  intros HF Hi Hin p ->. revert pre i Hi. induction HF as [|k l Hk HF IH]; intros pre [|i] Hi; cbn [lookup list_lookup] in Hi; try done.
  - injection Hi as ->. cbn [fmap list_fmap mjoin list_join]. unfold slice. rewrite Nat.mul_0_r, Nat.add_0_r, drop_app_ge by lia.
    replace (length pre + off - length pre)%nat with off by lia. rewrite drop_app_le, take_app_le by (rewrite ?length_drop; lia). done.
  - cbn [fmap list_fmap mjoin list_join]. change (list_fmap ?A ?B ?g ?l) with (g <$> l). rewrite app_assoc. rewrite <- (IH (pre ++ g k) i Hi). f_equal. rewrite length_app. lia.
Qed.

Lemma verification_for_ok bs x n : Forall (in_range 8) x → packet_entries (verification_for bs x n) = block_entry_of bs x <$> seq 0 n.
Proof.
  intros Hx. unfold packet_entries, verification_for. cbn [v_blockcount]. rewrite Nat2Z.id. apply list_fmap_ext. intros i kk Hkk.
  set (g := λ kk, (block_entry_of bs x kk).2 ++ le_split 4 (block_entry_of bs x kk).1).
  assert (Forall (λ k, length (g k) = 20%nat) (seq 0 n)) as HF.
  { apply Forall_true. intros k. unfold g, block_entry_of. cbn [fst snd]. by rewrite length_app, length_md5. }
  apply lookup_seq in Hkk as [-> Hlt]. assert (seq 0 n !! i = Some i) as Hi by (by rewrite lookup_seq_lt).
  unfold VerificationEntry. cbn [v_data fst snd]. rewrite !Nat.add_0_l.
  rewrite (slice_pieces _ g _ 20 i i 16 4 HF Hi), (slice_pieces _ g _ 20 i i 0 16 HF Hi) by (rewrite ?length_replicate; lia).
  unfold g, slice, block_entry_of. cbn [fst snd]. rewrite drop_app_length' by (by rewrite length_md5). cbn [drop]. rewrite ?drop_0, take_app_length' by (by rewrite length_md5).
  rewrite take_ge by done. f_equal. apply le_join_split. by apply crc32_range, source_block_bytes.
Qed.

Lemma described_ok bs name x n first : SetBlockCount (Z.of_nat (length x)) (Z.of_nat bs) = Some (Z.of_nat n) →
  (0 < length x)%nat → Z.of_nat (length x) ≤ MaxOffset → Forall (in_range 8) x → describes bs (described_file bs name x n first) x.
Proof.
  intros Hc H0 HM Hx. assert (FileSizeOf (described_file bs name x n first) = Z.of_nat (length x)) as Hsize.
  { unfold FileSizeOf, DescriptionPacket_FileSize, slice. cbn [descriptionpacket described_file description_for d_data].
    rewrite !app_assoc, drop_app_length', take_ge by (done || by rewrite !length_app, !length_md5). apply le_join_split. unfold MaxOffset in HM. split; simpl; lia. }
  assert (DescriptionPacket_HashFull (description_for name x) = md5 x ∧ DescriptionPacket_Hash16k (description_for name x) = md5 (take k16 x)) as [Hf H16].
  { unfold DescriptionPacket_HashFull, DescriptionPacket_Hash16k, slice, description_for. cbn [d_data]. split.
    - rewrite drop_app_length', take_app_length' by (done || apply length_md5). done.
    - rewrite app_assoc, drop_app_length', take_app_length' by (rewrite ?length_app, ?length_md5; done). done. }
  split; [|exact Hsize|done|exact Hf|exact H16|].
  - split; rewrite Hsize; [done|]. unfold MaxOffset in HM. split; simpl; lia.
  - exists (verification_for bs x n). split; [done|]. split; [done|]. rewrite verification_for_ok by done. unfold count. cbn [described_file blockcount]. by rewrite Nat2Z.id.
Qed.

(** A set of two files in blocks of 16 bytes *)
Definition pair_data : list (list Z) := [example_data; [1; 2; 3; 4; 5]].
Definition pair_files : list Par2RepairerSourceFile := [described_file 16 [97] example_data 3 0; described_file 16 [98] [1; 2; 3; 4; 5] 1 3].
Definition pair_blocks : list DataBlock := [fresh_block 40 16 0; fresh_block 40 16 1; fresh_block 40 16 2; fresh_block 5 16 0].

Lemma pair_described : Forall2 (describes 16) pair_files pair_data.
Proof.
  constructor; [|constructor; [|constructor]]; apply described_ok; try (unfold MaxOffset, example_data; rewrite ?length_seqZ; cbn [length]; lia).
  - by vm_compute.
  - exact example_bytes.
  - by vm_compute.
  - repeat constructor; simpl; lia.
Qed.

Lemma example_summer d x : disk_is x d → constructed 16 x (example_checksummer 16 d).
Proof. intros Hd. split; [exact Hd| | | |]; try done. apply Forall_replicate. split; simpl; lia. Qed.

Lemma pair_setting : ∃ t b u, PrepareVerificationHashTable 4 (Some <$> pair_files) = Some (t, b, u) ∧
  verify_setting 16 (default ∅ (GenerateWindowTable 16)) 1000 example_hasher example_single (example_checksummer 16) t pair_files pair_data.
Proof.
  assert (Forall verifiable pair_files) as Hv.
  { apply Forall_lookup. intros i f Hi v Ev. destruct (Forall2_lookup_l _ _ _ _ _ pair_described Hi) as (x & _ & Hd). destruct (de_packet _ _ _ Hd) as (v' & Ev' & En & Ep).
    assert (v' = v) as -> by congruence. split; [done|]. rewrite Ep. apply Forall_fmap, Forall_true. intros kk. apply md5_hash_ok. }
  destruct (prepare_loop_ok pair_files (SetLimit 4) [] 0 0 (SetLimit_ok _) (linked_empty _) Hv) as (t & b & u & E & Ht & Hk & _).
  rewrite (eq_refl : place 0 pair_files = pair_files) in E. exists t, b, u. split; [exact E|]. split; [lia|exact example_table|lia|done|done| |exact pair_described|done|exact Ht|exact Hk].
  exact example_summer.
Qed.

Lemma pair_sized : blocks_sized 16 pair_files pair_blocks.
Proof.
  split; [done|]. intros i f kk b Hi Hk Hb. destruct (Forall2_lookup_l _ _ _ _ _ pair_described Hi) as (x & Hx & Hd). rewrite (de_size _ _ _ Hd).
  destruct i as [|[|i]]; [| |done]; injection Hi as <-; injection Hx as <-; unfold count in Hk; cbn [blockcount described_file] in Hk; rewrite Nat2Z.id in Hk.
  - destruct kk as [|[|[|kk]]]; [| | |lia]; injection Hb as <-; done.
  - destruct kk as [|kk]; [|lia]; injection Hb as <-; done.
Qed.

Definition pair_open (name : list Z) : option DiskFile :=
  if decide (name = [97]) then Some example_disk else if decide (name = [98]) then Some (file_with [1; 2; 3; 4; 5]) else None.
Definition empty_world : World := {| disks := []; names := []; others := [[97]; [98]] |}.

Lemma pair_loaded : set_loaded 16 (example_main 2 2) pair_files pair_blocks empty_world.
Proof.
  split; [done|done|done|exact pair_sized| |by repeat constructor| |by repeat constructor].
  - intros i f kk b' _ _ Hb. apply list_elem_of_lookup_2 in Hb. unfold pair_blocks in Hb. set_unfold in Hb. by destruct Hb as [-> |[-> |[-> |[-> |[]]]]].
  - cbn. repeat constructor; set_solver.
Qed.

Lemma pair_present i : (i < length pair_files)%nat → file_present pair_files pair_data pair_open i.
Proof.
  destruct i as [|[|i]]; intros Hi; [| |cbn in Hi; lia].
  - eexists _, _, example_disk. split; [done|]. split; [done|]. split; [done|]. split; [split|]; done.
  - eexists _, _, (file_with [1; 2; 3; 4; 5]). split; [done|]. split; [done|]. split; [done|]. split; [split|]; done.
Qed.

