(* ===== verification/RepairRenameSpec.v ===== *)
(** * RepairRenameSpec.v: the target files get the names under which they are repaired *)

From stdpp Require Import gmap.
From S2P Require Import Prelude Bytes DiskFile Packets CreatorLayout CreatorNamesSpec RepairFiles RepairFilesSpec RepairProcess.

(** ** Free names *)

Lemma length_decimal fuel t : (length (decimal fuel t) ≤ S fuel)%nat.
Proof.
  revert t. induction fuel as [|fuel IH]; intros t; cbn [decimal]; [done|]. rewrite length_app. cbn [length]. destruct (t <? 10); cbn [length]; [lia|].
  specialize (IH (t / 10)). lia.
Qed.

Lemma numbered_inj name i j : 0 ≤ i < 10 ^ 11 → 0 ≤ j < 10 ^ 11 → numbered name i = numbered name j → i = j.
Proof.
  intros Hi Hj E. unfold numbered in E. apply app_inv_head, app_inv_head in E.
  destruct (decimal_ok 10 i Hi) as [<- _], (decimal_ok 10 j Hj) as [<- _]. by rewrite E.
Qed.

Lemma free_name_ok fuel taken name index : (length name + 12 ≤ 4095)%nat →
  0 ≤ index → index + Z.of_nat fuel ≤ 2 ^ 32 → (∃ k, index ≤ k < index + Z.of_nat fuel ∧ numbered name k ∉ taken) →
  ∃ k, index ≤ k ∧ free_name fuel taken name index = Some (Some (numbered name k)) ∧ numbered name k ∉ taken.
Proof.
  intros Hn. revert index. induction fuel as [|fuel IH]; intros index H0 H32 (k & Hk & Hfree); [lia|]. cbn [free_name].
  assert (Z.of_nat (length (numbered name index)) ≤ 4095) as Hl.
  { unfold numbered. rewrite !length_app. cbn [length]. pose proof (length_decimal 10 index). lia. }
  rewrite (proj2 (Z.ltb_ge _ _)) by done. case_bool_decide as Hin; [|by exists index].
  assert (index ≠ k) by (by intros ->). rewrite wrap_small by (split; lia).
  destruct (IH (index + 1)) as (k' & Hk' & E & Hf'); [lia|lia| |exists k'; split_and!; [lia|done|done]].
  exists k. split; [lia|done].
Qed.

Lemma free_number taken name : Z.of_nat (length taken) < 2 ^ 32 - 2 → ∃ k, 1 ≤ k < 1 + Z.of_nat (S (length taken)) ∧ numbered name k ∉ taken.
Proof.
  intros Hl. destruct (decide (Forall (λ k, numbered name k ∈ taken) (seqZ 1 (Z.of_nat (S (length taken)))))) as [HF|HF].
  - exfalso. assert (NoDup (numbered name <$> seqZ 1 (Z.of_nat (S (length taken))))) as Hnd.
    { apply NoDup_fmap_2_strong; [|apply NoDup_seqZ]. intros i j Hi%elem_of_seqZ Hj%elem_of_seqZ. apply numbered_inj; lia. }
    assert (numbered name <$> seqZ 1 (Z.of_nat (S (length taken))) ⊆+ taken) as Hsub.
    { apply NoDup_submseteq; [done|]. intros x (k & -> & Hk)%list_elem_of_fmap. rewrite Forall_forall in HF. by apply HF. }
    apply submseteq_length in Hsub. rewrite length_fmap, length_seqZ in Hsub. lia.
  - apply not_Forall_Exists in HF; [|apply _]. apply Exists_exists in HF as (k & Hk%elem_of_seqZ & Hf). by exists k.
Qed.

(** ** One file *)

(** No two files have the same name. *)
Record names_unique (w : World) : Prop := {
  nu_files : ∀ i j n, names w !! i = Some (Some n) → names w !! j = Some (Some n) → i = j;
  nu_others : ∀ i n, names w !! i = Some (Some n) → n ∉ others w;
}.

Lemma existing_spec w n : n ∈ existing w ↔ (∃ i, names w !! i = Some (Some n)) ∨ n ∈ others w.
Proof.
  unfold existing. rewrite elem_of_app, list_elem_of_omap. split; (intros [H|H]; [left|by right]).
  - destruct H as (x & Hx & E). cbn in E. subst x. by apply list_elem_of_lookup in Hx.
  - destruct H as [i Hi]. exists (Some n). split; [by eapply list_elem_of_lookup_2|done].
Qed.

Definition renamed_to (w : World) (i : nat) (name : list Z) : World := {| disks := disks w; names := <[i := Some name]> (names w); others := others w |}.

Lemma Rename_fresh w i name : name ∉ existing w → Rename w i name = renamed_to w i name.
Proof.
  intros Hn. unfold Rename, renamed_to. rewrite existing_spec in Hn. f_equal.
  - f_equal. rewrite <- (list_fmap_id (names w)) at 2. apply list_fmap_ext. intros j x Hj. case_decide as E; [|done]. subst x. exfalso. apply Hn. left. by exists j.
  - induction (others w) as [|x l IH]; [done|]. rewrite filter_cons, decide_True by (intros ->; apply Hn; right; by left). f_equal. apply IH.
    intros [H|H]; apply Hn; [by left|right; by right].
Qed.

Lemma renamed_lookup w i name j : (i < length (names w))%nat → names (renamed_to w i name) !! j = if decide (j = i) then Some (Some name) else names w !! j.
Proof. intros Hi. unfold renamed_to. cbn [names]. case_decide as E; [subst j; by rewrite list_lookup_insert_eq|by rewrite list_lookup_insert_ne]. Qed.

Lemma renamed_unique w i name : names_unique w → (i < length (names w))%nat → name ∉ existing w → names_unique (renamed_to w i name).
Proof.
  intros [U1 U2] Hi Hn. rewrite existing_spec in Hn. split.
  - intros j k n. rewrite !renamed_lookup by done. repeat case_decide; subst; intros Hj Hk; simplify_eq; try done; [exfalso; apply Hn; eauto..|]. by eapply U1.
  - intros j n. rewrite renamed_lookup by done. unfold renamed_to. cbn [others]. case_decide; intros Hj; simplify_eq; [intros Ho; apply Hn; by right|by eapply U2].
Qed.

(** What the names leave room for *)
Definition few_names (w : World) : Prop := Z.of_nat (length (names w) + length (others w)) < 2 ^ 32 - 2.

Lemma length_existing w : (length (existing w) ≤ length (names w) + length (others w))%nat.
Proof.
  unfold existing. rewrite length_app. assert (length (omap id (names w)) ≤ length (names w))%nat; [|lia].
  induction (names w) as [|[n|] l IH]; cbn in *; lia.
Qed.

Lemma Rename_numbered_ok w i name : few_names w → (length name + 12 ≤ 4095)%nat → names w !! i = Some (Some name) →
  ∃ k, 1 ≤ k ∧ numbered name k ∉ existing w ∧ Rename_numbered w i = Some (Some (renamed_to w i (numbered name k))).
Proof.
  intros Hf Hn Hi. unfold few_names in Hf. pose proof (length_existing w) as Hl. unfold Rename_numbered. rewrite Hi. cbn [mjoin option_join mbind option_bind].
  destruct (free_name_ok (S (length (existing w))) (existing w) name 1 Hn ltac:(lia) ltac:(lia) (free_number (existing w) name ltac:(lia))) as (k & Hk & -> & Hfree).
  cbn [mbind option_bind]. exists k. split; [done|]. split; [done|]. by rewrite Rename_fresh.
Qed.

(** ** The two loops *)

(** A file whose target file is not the complete version *)
Definition misplaced (f : Par2RepairerSourceFile) : bool := targetexists f && bool_decide (targetfile f ≠ completefile f).
Definition drop_damaged (f : Par2RepairerSourceFile) : Par2RepairerSourceFile := if misplaced f then SetTarget f false None else f.

Record damaged_names (l : list Par2RepairerSourceFile) (w : World) : Prop := {
  dn_unique : names_unique w;
  dn_few : few_names w;
  dn_distinct : NoDup (targetfilename <$> l);
  dn_short : Forall (λ f, length (targetfilename f) + 12 ≤ 4095)%nat l;
  dn_target : ∀ f, f ∈ l → misplaced f = true → ∃ t, targetfile f = Some t ∧ names w !! t = Some (Some (targetfilename f));
}.

(** The names of other files stay, the misplaced files get numbers. *)
Record damaged_renamed (l : list Par2RepairerSourceFile) (w w' : World) : Prop := {
  dr_disks : disks w' = disks w;
  dr_others : others w' = others w;
  dr_length : length (names w') = length (names w);
  dr_unique : names_unique w';
  dr_numbered : ∀ f t, f ∈ l → misplaced f = true → targetfile f = Some t → ∃ k, 1 ≤ k ∧ names w' !! t = Some (Some (numbered (targetfilename f) k));
  dr_kept : ∀ i, (∀ f, f ∈ l → misplaced f = true → targetfile f ≠ Some i) → names w' !! i = names w !! i;
}.

Lemma damaged_loop_ok l n w : (length l ≤ n)%nat → damaged_names l w →
  ∃ w' backups, damaged_loop n (Some <$> l) w = Some (true, Some <$> (drop_damaged <$> l), w', backups) ∧ damaged_renamed l w w'.
Proof.
  revert n w. induction l as [|f l IH]; intros n w Hn [U Few Hd Hs Ht].
  { exists w, []. split; [by destruct n|]. split; try done; intros f t Hf; by apply elem_of_nil in Hf. }
  destruct n as [|n]; cbn [length] in Hn; [lia|]. cbn [fmap list_fmap] in Hd. apply NoDup_cons in Hd as [Hno Hd]. apply Forall_cons in Hs as [Hsf Hs].
  rewrite !fmap_cons. cbn [damaged_loop mbind option_bind]. unfold drop_damaged at 1. fold (misplaced f). destruct (misplaced f) eqn:Em.
  - destruct (Ht f ltac:(by left) Em) as (t & Et & Hnt). pose proof (lookup_lt_Some _ _ _ Hnt) as Hlt. rewrite Et. cbn [mbind option_bind].
    destruct (Rename_numbered_ok w t (targetfilename f) Few Hsf Hnt) as (k & Hk & Hfree & ->). cbn [mbind option_bind negb]. set (w1 := renamed_to w t _).
    assert (∀ g t', g ∈ l → targetfile g = Some t' → names w !! t' = Some (Some (targetfilename g)) → t' ≠ t) as Hne.
    { intros g t' Hg _ Hg' ->. apply Hno. rewrite Hnt in Hg'. injection Hg' as ->. by apply list_elem_of_fmap_2. }
    destruct (IH n w1 ltac:(lia)) as (w' & backups & -> & [D1 D2 D3 D4 D5 D6]).
    { split; [by apply renamed_unique|unfold few_names, w1, renamed_to in *; cbn [names others]; by rewrite length_insert|done|done|].
      intros g Hg Hgm. destruct (Ht g ltac:(by right) Hgm) as (t' & Et' & Hn'). exists t'. split; [done|]. unfold w1. rewrite renamed_lookup, decide_False; eauto. }
    cbn [mbind option_bind]. exists w', (t :: backups). split; [done|]. split; [done|done|rewrite D3; apply length_insert|done| |].
    + intros g t' [->|Hg]%elem_of_cons Hgm Et'; [|by apply D5]. rewrite Et in Et'. injection Et' as <-. exists k. split; [done|]. rewrite D6.
      * unfold w1. by rewrite renamed_lookup, decide_True.
      * intros g Hg Hgm' Eg. destruct (Ht g ltac:(by right) Hgm') as (t' & Et' & Hn'). assert (t' = t) as -> by congruence. by apply (Hne g t).
    + intros i Hi. rewrite D6 by (intros g Hg; apply Hi; by right). unfold w1. rewrite renamed_lookup by done. rewrite decide_False; [done|].
      intros ->. by apply (Hi f ltac:(by left) Em).
  - cbn [mbind option_bind negb]. destruct (IH n w ltac:(lia)) as (w' & backups & -> & [D1 D2 D3 D4 D5 D6]).
    { split; try done. intros g Hg. apply Ht. by right. }
    cbn [mbind option_bind app]. exists w', backups. split; [done|]. split; try done.
    + intros g t' [->|Hg]%elem_of_cons Hgm; [congruence|by apply D5].
    + intros i Hi. apply D6. intros g Hg. apply Hi. by right.
Qed.

(** A file that was found complete under another name *)
Definition misnamed (f : Par2RepairerSourceFile) : bool := bool_decide (targetfile f = None) && bool_decide (is_Some (completefile f)).
Definition take_name (f : Par2RepairerSourceFile) : Par2RepairerSourceFile :=
  match targetfile f, completefile f with None, Some i => SetTarget f true (Some i) | _, _ => f end.

Lemma misnamed_spec f : misnamed f = true ↔ targetfile f = None ∧ ∃ i, completefile f = Some i.
Proof. unfold misnamed. rewrite andb_true_iff, !bool_decide_eq_true. done. Qed.

Record misnamed_names (l : list Par2RepairerSourceFile) (w : World) : Prop := {
  mn_unique : names_unique w;
  mn_distinct : NoDup (targetfilename <$> l);
  mn_complete : NoDup (omap completefile l);
  mn_free : ∀ f, f ∈ l → misnamed f = true → targetfilename f ∉ existing w;
  mn_open : ∀ f i, f ∈ l → misnamed f = true → completefile f = Some i → (i < length (names w))%nat;
}.

Record misnamed_renamed (l : list Par2RepairerSourceFile) (w w' : World) : Prop := {
  mr_disks : disks w' = disks w;
  mr_others : others w' = others w;
  mr_length : length (names w') = length (names w);
  mr_named : ∀ f i, f ∈ l → misnamed f = true → completefile f = Some i → names w' !! i = Some (Some (targetfilename f));
  mr_kept : ∀ i, (∀ f, f ∈ l → misnamed f = true → completefile f ≠ Some i) → names w' !! i = names w !! i;
}.

Lemma complete_loop_ok l n w : (length l ≤ n)%nat → misnamed_names l w →
  ∃ w', complete_loop n (Some <$> l) w = Some (Some <$> (take_name <$> l), w', tally misnamed l) ∧ misnamed_renamed l w w'.
Proof.
  revert n w. induction l as [|f l IH]; intros n w Hn [U Hd Hc Hf Ho].
  { exists w. split; [by destruct n|]. split; try done; intros f t Hf'; by apply elem_of_nil in Hf'. }
  destruct n as [|n]; cbn [length] in Hn; [lia|]. cbn [fmap list_fmap] in Hd. apply NoDup_cons in Hd as [Hno Hd].
  rewrite !fmap_cons. cbn [complete_loop mbind option_bind]. rewrite tally_cons. destruct (misnamed f) eqn:Em.
  - pose proof Em as Em'. apply misnamed_spec in Em' as (Et & i & Ei). unfold take_name at 1. rewrite Et, Ei. cbn [omap list_omap] in Hc. rewrite Ei in Hc. apply NoDup_cons in Hc as [Hci Hc].
    pose proof (Hf f ltac:(by left) Em) as Hfree. pose proof (Ho f i ltac:(by left) Em Ei) as Hlt. rewrite Rename_fresh by done. set (w1 := renamed_to w i _).
    assert (∀ g, g ∈ l → completefile g ≠ Some i) as Hne.
    { intros g Hg Eg. apply Hci. apply list_elem_of_omap. by exists g. }
    destruct (IH n w1 ltac:(lia)) as (w' & -> & [D1 D2 DL D3 D4]).
    { split; [by apply renamed_unique|done|done| |].
      - intros g Hg Hgm. specialize (Hf g ltac:(by right) Hgm). rewrite existing_spec in Hf |- *. intros [[j Hj]|Hin]; [|apply Hf; by right].
        unfold w1 in Hj. rewrite renamed_lookup in Hj by done. case_decide; [|apply Hf; left; eauto]. injection Hj as Hj. apply Hno. rewrite Hj. by apply list_elem_of_fmap_2.
      - intros g j Hg Hgm Ej. unfold w1, renamed_to. cbn [names]. rewrite length_insert. by apply (Ho g j ltac:(by right)). }
    cbn [mbind option_bind]. exists w'. split; [done|]. split; [done|done|rewrite DL; apply length_insert| |].
    + intros g j [->|Hg]%elem_of_cons Hgm Ej; [|by apply D3]. assert (j = i) as -> by congruence. rewrite D4 by (intros g Hg _; by apply Hne).
      unfold w1. by rewrite renamed_lookup, decide_True.
    + intros j Hj. rewrite D4 by (intros g Hg; apply Hj; by right). unfold w1. rewrite renamed_lookup by done. rewrite decide_False; [done|].
      intros ->. by apply (Hj f ltac:(by left) Em).
  - destruct (IH n w ltac:(lia)) as (w' & E & [D1 D2 DL D3 D4]).
    { split; [done|done| |intros g Hg; apply Hf; by right|intros g j Hg; apply Ho; by right]. cbn [omap list_omap] in Hc. destruct (completefile f); [by apply NoDup_cons in Hc as [_ Hc]|done]. }
    assert (match targetfile f, completefile f with None, Some i => (SetTarget f true (Some i), Rename w i (targetfilename f), 1) | _, _ => (f, w, 0) end = (f, w, 0)) as ->.
    { unfold misnamed in Em. destruct (targetfile f), (completefile f); done. }
    rewrite E. cbn [mbind option_bind]. exists w'. split.
    + do 3 f_equal. f_equal. unfold take_name. unfold misnamed in Em. destruct (targetfile f), (completefile f); done.
    + split; [done|done|done| |].
      * intros g j [->|Hg]%elem_of_cons Hgm; [congruence|by apply D3].
      * intros j Hj. apply D4. intros g Hg. apply Hj. by right.
Qed.

(** ** [RenameTargetFiles] *)

(** The names of the files, before and after the verification: the target files have the
    names of the set, every complete file has a name, and no name of the set is the backup
    name of another one. *)
Record renamable (files : list Par2RepairerSourceFile) (w : World) : Prop := {
  rn_unique : names_unique w;
  rn_few : few_names w;
  rn_distinct : NoDup (targetfilename <$> files);
  rn_short : Forall (λ f, length (targetfilename f) + 12 ≤ 4095)%nat files;
  rn_exists : Forall (λ f, targetexists f = bool_decide (is_Some (targetfile f))) files;
  rn_target : ∀ f t, f ∈ files → targetfile f = Some t → names w !! t = Some (Some (targetfilename f));
  rn_absent : ∀ f, f ∈ files → targetfile f = None → targetfilename f ∉ existing w;
  rn_open : ∀ f i, f ∈ files → completefile f = Some i → (i < length (names w))%nat;
  rn_complete : NoDup (omap completefile files);
  rn_backup : ∀ f g k, f ∈ files → g ∈ files → 1 ≤ k → targetfilename g ≠ numbered (targetfilename f) k;
}.

(** The file that is the target file from then on *)
Definition settle (f : Par2RepairerSourceFile) : Par2RepairerSourceFile :=
  match completefile f with Some i => SetTarget f true (Some i) | None => SetTarget f false None end.

Lemma settle_ok f : targetexists f = bool_decide (is_Some (targetfile f)) → take_name (drop_damaged f) = settle f.
Proof.
  unfold take_name, drop_damaged, misplaced, settle. destruct f as [? ? ? ? e tf cf ?]. cbn [targetexists targetfile completefile]. intros ->.
  destruct tf as [t|]; cbn [andb].
  - rewrite (bool_decide_eq_true_2 (is_Some _)) by done. cbn [andb]. case_bool_decide as Hne; [by destruct cf|]. destruct (decide (Some t = cf)) as [<-|]; [done|done].
  - rewrite (bool_decide_eq_false_2 (is_Some _)) by (by intros [? ?]). cbn [andb targetfile completefile]. by destruct cf.
Qed.

Lemma misnamed_dropped f : targetexists f = bool_decide (is_Some (targetfile f)) → misnamed (drop_damaged f) = complete_elsewhere f.
Proof.
  unfold misnamed, drop_damaged, misplaced, complete_elsewhere. destruct f as [? ? ? ? e tf cf ?]. cbn [targetexists targetfile completefile]. intros ->.
  destruct tf as [t|], cf as [i|]; cbn [andb]; repeat (case_bool_decide || case_match); cbn in *; naive_solver.
Qed.

Lemma name_inj files f g : NoDup (targetfilename <$> files) → f ∈ files → g ∈ files → targetfilename f = targetfilename g → f = g.
Proof.
  intros Hnd [i Hi]%list_elem_of_lookup [j Hj]%list_elem_of_lookup E.
  assert (i = j) as <-; [|congruence]. eapply (NoDup_lookup _ _ _ (targetfilename f)); [exact Hnd| |]; rewrite list_lookup_fmap; [by rewrite Hi|by rewrite Hj, E].
Qed.

Section Rename.
Context (files : list Par2RepairerSourceFile) (w : World).
Hypothesis Hrn : renamable files w.

Lemma misplaced_spec f : f ∈ files → misplaced f = true ↔ targetfile f ≠ None ∧ targetfile f ≠ completefile f.
Proof.
  intros Hf. pose proof (rn_exists _ _ Hrn) as He. rewrite Forall_forall in He. unfold misplaced. rewrite (He f Hf), andb_true_iff, !bool_decide_eq_true.
  rewrite <- not_eq_None_Some. done.
Qed.

(** After the first loop the name of a file that is not complete in place is free. *)
Lemma name_freed w1 f : damaged_renamed files w w1 → f ∈ files → complete_here f = false → targetfilename f ∉ existing w1.
Proof.
  intros [D1 D2 D3 D4 D5 D6] Hf Hc. rewrite existing_spec, D2. intros [[i Hi]|Ho].
  - destruct (decide (Exists (λ g, misplaced g = true ∧ targetfile g = Some i) files)) as [(g & Hg & Hm & Ht)%Exists_exists|Hno].
    + destruct (D5 g i Hg Hm Ht) as (k & Hk & E). rewrite E in Hi. injection Hi as Hi. by apply (rn_backup _ _ Hrn g f k Hg Hf Hk).
    + rewrite D6 in Hi by (intros g Hg Hm Ht; apply Hno, Exists_exists; eauto). destruct (targetfile f) as [t|] eqn:Et.
      * pose proof (rn_target _ _ Hrn f t Hf Et) as Ht. assert (i = t) as -> by (by eapply (nu_files _ (rn_unique _ _ Hrn))).
        apply Hno, Exists_exists. exists f. split_and!; [done| |done]. apply misplaced_spec; [done|]. rewrite Et. split; [done|].
        intros E. apply bool_decide_eq_false in Hc. apply Hc. by rewrite Et, <- E.
      * apply (rn_absent _ _ Hrn f Hf Et). apply existing_spec. left. by exists i.
  - destruct (targetfile f) as [t|] eqn:Et.
    + by apply (nu_others _ (rn_unique _ _ Hrn) t (targetfilename f)); [apply (rn_target _ _ Hrn)|].
    + apply (rn_absent _ _ Hrn f Hf Et), existing_spec. by right.
Qed.

Lemma dropped_name f : targetfilename (drop_damaged f) = targetfilename f.
Proof. unfold drop_damaged. by destruct (misplaced f). Qed.
Lemma dropped_complete f : completefile (drop_damaged f) = completefile f.
Proof. unfold drop_damaged. by destruct (misplaced f). Qed.

Lemma complete_here_spec f i : completefile f = Some i → complete_here f = true ↔ targetfile f = Some i.
Proof. intros E. unfold complete_here. rewrite bool_decide_eq_true, E. naive_solver. Qed.

Lemma RenameTargetFiles_ok main : m_totalfilecount main = Z.of_nat (length files) →
  ∃ w' backups, RenameTargetFiles main (Some <$> files) w = Some (true, Some <$> (settle <$> files), w', backups, tally complete_elsewhere files) ∧
    disks w' = disks w ∧ length (names w') = length (names w) ∧
    (∀ f i, f ∈ files → completefile f = Some i → names w' !! i = Some (Some (targetfilename f))) ∧
    (∀ f, f ∈ files → completefile f = None → targetfilename f ∉ existing w').
Proof.
  intros Hm. destruct Hrn as [U Few Hd Hs He Ht Ha Ho Hc Hb]. rewrite Forall_forall in He. unfold RenameTargetFiles. rewrite Hm, Nat2Z.id.
  destruct (damaged_loop_ok files (length files) w ltac:(lia)) as (w1 & backups & -> & Hdr).
  { split; try done. intros f Hf [Hne _]%(misplaced_spec f Hf). destruct (targetfile f) as [t|] eqn:Et; [|done]. exists t. split; [done|by apply Ht]. }
  cbn [mbind option_bind negb]. pose proof Hdr as [D1 D2 D3 D4 D5 D6].
  assert (∀ f, f ∈ files → misnamed (drop_damaged f) = true → complete_here f = false) as Hnot.
  { intros f Hf. rewrite misnamed_dropped by (by apply He). unfold complete_elsewhere, complete_here. rewrite bool_decide_eq_true, bool_decide_eq_false. naive_solver. }
  destruct (complete_loop_ok (drop_damaged <$> files) (length files) w1 ltac:(by rewrite length_fmap)) as (w2 & -> & [M1 M2 ML M3 M4]).
  { split; [done| | | |].
    - rewrite <- list_fmap_compose. erewrite list_fmap_ext; [exact Hd|]. intros i f _. apply dropped_name.
    - replace (omap completefile (drop_damaged <$> files)) with (omap completefile files); [done|]. clear. induction files as [|f l IH]; [done|].
      rewrite fmap_cons. cbn [omap list_omap]. by rewrite dropped_complete, IH.
    - intros g (f & -> & Hf)%list_elem_of_fmap Hg. rewrite dropped_name. by apply name_freed, Hnot.
    - intros g i (f & -> & Hf)%list_elem_of_fmap Hg. rewrite dropped_complete, D3. by apply Ho. }
  cbn [mbind option_bind]. exists w2, backups. split; [|split; [congruence|split; [congruence|split]]].
  - assert (take_name <$> (drop_damaged <$> files) = settle <$> files) as ->.
    { rewrite <- (list_fmap_compose drop_damaged take_name). apply list_fmap_ext. intros i f Hi. apply settle_ok, He. by eapply list_elem_of_lookup_2. }
    f_equal. f_equal. clear -He. induction files as [|f l IH]; [done|]. rewrite fmap_cons, !tally_cons, misnamed_dropped by (apply He; by left). f_equal. apply IH. intros g Hg. apply He. by right.
  - intros f i Hf Ei. destruct (misnamed (drop_damaged f)) eqn:Em.
    + specialize (M3 (drop_damaged f) i ltac:(by apply list_elem_of_fmap_2) Em). rewrite dropped_complete, dropped_name in M3. by apply M3.
    + rewrite misnamed_dropped in Em by (by apply He). unfold complete_elsewhere in Em. apply bool_decide_eq_false in Em.
      assert (targetfile f = Some i) as Et by (destruct (decide (completefile f = targetfile f)) as [E|E]; [congruence|exfalso; apply Em; by rewrite Ei in *]).
      rewrite M4, D6; [by apply Ht| |].
      * intros g Hg [_ Hgm]%(misplaced_spec g Hg) Egt. assert (f = g) as <-; [|congruence]. apply (name_inj files f g Hd Hf Hg).
        pose proof (Ht f i Hf Et). pose proof (Ht g i Hg Egt). congruence.
      * intros h (g & -> & Hg)%list_elem_of_fmap Hgm Eg. rewrite dropped_complete in Eg. pose proof (Hnot g Hg Hgm) as Hng.
        assert (f = g) as <-; [|rewrite (proj2 (complete_here_spec f i Ei)) in Hng by done; done].
        clear -Hc Hf Hg Ei Eg. induction files as [|x l IH]; [by apply elem_of_nil in Hf|]. cbn [omap list_omap] in Hc.
        apply elem_of_cons in Hf as [->|Hf]; apply elem_of_cons in Hg as [->|Hg]; [done| | |].
        -- rewrite Ei in Hc. apply NoDup_cons in Hc as [Hc _]. exfalso. apply Hc, list_elem_of_omap. by exists g.
        -- rewrite Eg in Hc. apply NoDup_cons in Hc as [Hc _]. exfalso. apply Hc, list_elem_of_omap. by exists f.
        -- apply IH; [|done|done]. destruct (completefile x); [by apply NoDup_cons in Hc as [_ Hc]|done].
  - intros f Hf En. rewrite existing_spec, M2. pose proof (name_freed w1 f Hdr Hf) as Hfree. rewrite existing_spec in Hfree.
    assert (complete_here f = false) as Hcf by (unfold complete_here; apply bool_decide_eq_false; rewrite En; by intros [? _]). specialize (Hfree Hcf).
    intros [[i Hi]|Hin]; [|apply Hfree; by right].
    destruct (decide (Exists (λ g, misnamed g = true ∧ completefile g = Some i) (drop_damaged <$> files))) as [(h & Hh & Hm1 & Hm2)%Exists_exists|Hno].
    + pose proof (M3 h i Hh Hm1 Hm2) as E. rewrite E in Hi. injection Hi as Hi. apply list_elem_of_fmap in Hh as (g & -> & Hg). rewrite dropped_name in Hi.
      assert (g = f) as -> by (by apply (name_inj files)). rewrite dropped_complete in Hm2. congruence.
    + apply Hfree. left. exists i. rewrite <- M4; [done|]. intros g Hg Hgm Eg. apply Hno, Exists_exists. eauto.
Qed.
End Rename.
