(* ===== verification/RepairWholeSpec.v ===== *)
(** * RepairWholeSpec.v: the repair of a damaged set, from the results of its verification to
    the result of [Process] *)

From stdpp Require Import gmap sorting.
From S2P Require Import Prelude Bytes LinOp GfCoeff GfMul InputCols RecMatrix RecCompute GfLookup Crc HashCrc Md5 Md5Spec Md5Single Hasher HasherSpec DiskFile CheckSummer CheckSummerSpec HashTable HashTableSpec FileName Packets Parameters CreatorLayout SourceFile SourceFileSpec SourceBlocksSpec PacketScan RepairFiles RepairFilesSpec RepairScan RepairScanSpec RepairVerifySpec RepairProcess RepairProcessSpec RepairCreateSpec RepairSpec RepairVerifiedSpec RepairIntactSpec RepairRenameSpec.

(** ** What the verification leaves *)

(** Blocks that were found hold their data, files that were found complete their contents,
    and the recovery packets the recovery blocks of their exponents. *)
Record damaged_set (bs : nat) (files : list Par2RepairerSourceFile) (data : list (list Z)) (w : World) (sourceblocks : list DataBlock)
    (recoverypacketmap : Zmap RecoveryPacket) : Prop := {
  ds_placed : placed 0 files;
  ds_count : Z.of_nat (total_blocks files) ≤ 32768;
  ds_blocks : blocks_sized bs files sourceblocks;
  ds_disks : Forall disk_ok (disks w);
  ds_names : length (names w) = length (disks w);
  ds_known : ∀ b i, b ∈ sourceblocks → b_diskfile b = Some i → (i < length (disks w))%nat;
  ds_found : ∀ i f x kk b, files !! i = Some f → data !! i = Some x → (kk < count f)%nat → sourceblocks !! (block_offset files i + kk)%nat = Some b →
    IsSet (FileSizes w) b = true → stored bs (disks w) b (source_block x bs kk);
  ds_complete : ∀ i f x t, files !! i = Some f → data !! i = Some x → completefile f = Some t →
    (∃ d, disks w !! t = Some d ∧ contents d = x) ∧
    ∀ kk b, (kk < count f)%nat → sourceblocks !! (block_offset files i + kk)%nat = Some b → IsSet (FileSizes w) b = true;
  ds_recovery : ∀ e p, recoverypacketmap !! e = Some p → 0 ≤ e ≤ 65535 ∧ ∃ v, stored bs (disks w) (r_datablock p) v ∧ length v = bs ∧ Forall (in_range 8) v ∧
    ∀ i, (2 * i + 1 < bs)%nat → word_at v i = recovery_block (total_blocks files) (set_blocks bs files data) e i;
}.

(** ** The files after [RenameTargetFiles] *)

Lemma settle_same f : same_packets f (settle f).
Proof. unfold settle. by destruct (completefile f). Qed.

Lemma settled_same files : Forall2 same_packets files (settle <$> files).
Proof. induction files as [|f files IH]; [done|]. rewrite fmap_cons. constructor; [apply settle_same|done]. Qed.

Lemma settle_new f : is_new (settle f) = bool_decide (completefile f = None).
Proof. unfold settle, is_new. by destruct (completefile f). Qed.

Lemma same_set_blocks bs files fl data : Forall2 same_packets files fl → set_blocks bs fl data = set_blocks bs files data.
Proof.
  intros HF. revert data. induction HF as [|f g files fl Hs _ IH]; intros [|x data]; try done. unfold set_blocks in *. cbn [zip zip_with]. rewrite !fmap_cons. cbn [mjoin list_join].
  rewrite IH. f_equal. unfold file_blocks, count. cbn [fst snd]. by rewrite (sp_count _ _ Hs).
Qed.

Lemma same_total files fl : Forall2 same_packets files fl → total_blocks fl = total_blocks files.
Proof. intros HF. unfold total_blocks. by rewrite !sum_counts, (same_counts files fl HF). Qed.

Lemma new_names_distinct files : NoDup (targetfilename <$> files) → NoDup (targetfilename <$> new_files files).
Proof.
  induction files as [|f files IH]; [done|]. rewrite new_files_cons, fmap_cons. intros [Hf Hnd]%NoDup_cons. destruct (is_new f); cbn [app]; [|by apply IH].
  rewrite fmap_cons. constructor; [|by apply IH]. intros (g & E & [_ Hg]%list_elem_of_filter)%list_elem_of_fmap. apply Hf. rewrite E. by apply list_elem_of_fmap_2.
Qed.

Section Whole.
Context (bs : nat) (windowtable : array) (maxlength : Z) (fresh : HasherInput) (scratch : MD5Single) (newsummer : DiskFile → FileCheckSummer).
Context (t : VerificationHashTable) (files : list Par2RepairerSourceFile) (data : list (list Z)) (w : World) (sourceblocks : list DataBlock) (recoverypacketmap : Zmap RecoveryPacket).
Hypothesis Hset : verify_setting bs windowtable maxlength fresh scratch newsummer t files data.
Hypothesis Hds : damaged_set bs files data w sourceblocks recoverypacketmap.

Local Abbreviation sizes := (FileSizes w).

Lemma file_described i f : files !! i = Some f → ∃ x, data !! i = Some x ∧ describes bs f x.
Proof. intros Hi. destruct (Forall2_lookup_l _ _ _ _ _ (vs_files _ _ _ _ _ _ _ _ _ Hset) Hi) as (x & Hx & Hd). by exists x. Qed.

Lemma all_data : length files = length data.
Proof. apply (Forall2_length _ _ _ (vs_files _ _ _ _ _ _ _ _ _ Hset)). Qed.

Lemma settled_repairable w0 : disks w0 = disks w → NoDup (targetfilename <$> files) →
  (∀ f, f ∈ files → completefile f = None → targetfilename f ∉ existing w0) → repairable bs (settle <$> files) data w0 sourceblocks recoverypacketmap.
Proof.
  intros Hd Hnd Hfree. pose proof (settled_same files) as Hsame. destruct (ds_blocks _ _ _ _ _ _ Hds) as [Hl Hb].
  assert (FileSizes w0 = sizes) as Hfs by (unfold FileSizes; by rewrite Hd). split.
  - apply Forall2_fmap_l. eapply Forall2_impl; [apply (vs_files _ _ _ _ _ _ _ _ _ Hset)|]. intros f x Hdesc. cbn beta.
    destruct (de_data _ _ _ Hdesc) as (_ & HM & Hx). pose proof (de_size _ _ _ Hdesc) as Hsz. destruct (de_counted _ _ _ Hdesc) as [Hc Hr].
    assert (FileSizeOf (settle f) = FileSizeOf f ∧ blockcount (settle f) = blockcount f) as [E1 E2] by (unfold settle; by destruct (completefile f)).
    split; [split; by rewrite E1, ?E2|]. rewrite E1. split_and!; [done|done|lia].
  - by apply (same_placed 0 files), (ds_placed _ _ _ _ _ _ Hds).
  - rewrite (same_total files _ Hsame). split; [done|apply (ds_count _ _ _ _ _ _ Hds)].
  - rewrite Hd. apply (ds_disks _ _ _ _ _ _ Hds).
  - assert (∀ l : list Par2RepairerSourceFile, targetfilename <$> (settle <$> l) = targetfilename <$> l) as Hn.
    { induction l as [|f l IH]; [done|]. rewrite !fmap_cons, IH. f_equal. apply (sp_name _ _ (settle_same f)). }
    split.
    + apply new_names_distinct. by rewrite Hn.
    + apply Forall_forall. intros g [Hnew Hg]%list_elem_of_filter. apply list_elem_of_fmap in Hg as (f & -> & Hf). rewrite settle_new in Hnew. apply bool_decide_eq_true in Hnew.
      rewrite (sp_name _ _ (settle_same f)). by apply Hfree.
  - intros b i. rewrite Hd. apply (ds_known _ _ _ _ _ _ Hds).
  - intros j b v Hj Hs Hv. rewrite Hfs in Hs. rewrite Hd. rewrite (same_set_blocks bs files _ data Hsame) in Hv. pose proof (lookup_lt_Some _ _ _ Hj) as Hlt. rewrite Hl in Hlt.
    destruct (block_split files j Hlt) as (i & f & kk & Hi & Hk & ->). destruct (file_described i f Hi) as (x & Hx & _).
    rewrite (set_blocks_lookup bs files data i f x kk all_data Hi Hx Hk) in Hv. injection Hv as <-. by apply (ds_found _ _ _ _ _ _ Hds i f x kk b).
  - intros i f' kk b Hi Hnew Hk Hbk. rewrite list_lookup_fmap in Hi. apply fmap_Some in Hi as (f & Hi & ->). rewrite settle_new in Hnew. apply bool_decide_eq_false in Hnew.
    rewrite (same_offset files _ i Hsame) in Hbk. destruct (completefile f) as [q|] eqn:Ec; [|done]. destruct (file_described i f Hi) as (x & Hx & _). rewrite Hfs.
    destruct (ds_complete _ _ _ _ _ _ Hds i f x q Hi Hx Ec) as [_ Hall]. apply (Hall kk b); [|done]. unfold count in *. by rewrite (sp_count _ _ (settle_same f)) in Hk.
  - intros e p Hp. rewrite Hd, (same_total files _ Hsame), (same_set_blocks bs files _ data Hsame). by apply (ds_recovery _ _ _ _ _ _ Hds).
Qed.

(** ** After the repair *)

(** Every file has its name and, in [w2], its contents. *)
Definition repaired (fl : list Par2RepairerSourceFile) (w2 : World) : Prop :=
  ∀ i f0 x, files !! i = Some f0 → data !! i = Some x →
    ∃ f q d, fl !! i = Some f ∧ complete_here f = true ∧ targetfile f = Some q ∧ disks w2 !! q = Some d ∧ contents d = x ∧
      names w2 !! q = Some (Some (targetfilename f0)).

Section Repaired.
Context (w0 w1 w2 : World) (files' : list Par2RepairerSourceFile) (tgt : list DataBlock).
Hypothesis Hd0 : disks w0 = disks w.
Hypothesis Hn0 : length (names w0) = length (names w).
Hypothesis Hnamed : ∀ f i, f ∈ files → completefile f = Some i → names w0 !! i = Some (Some (targetfilename f)).
Hypothesis Hlen : length files' = length (settle <$> files).
Hypothesis Hcr : created bs 0 (settle <$> files) files' w0 w1 (replicate (total_blocks (settle <$> files)) mkDataBlock) tgt.
Hypothesis Hn2 : names w2 = names w1.
Hypothesis Hrest : restored (settle <$> files) files' data w2.
Hypothesis Hkept : kept w0 w2.

Lemma settled_lookup i f : files !! i = Some f → (settle <$> files) !! i = Some (settle f).
Proof. intros Hi. by rewrite list_lookup_fmap, Hi. Qed.

(** A file that was complete, and one that was created *)
Lemma complete_kept i f q : files !! i = Some f → completefile f = Some q → files' !! i = Some (SetTarget f true (Some q)).
Proof.
  intros Hi Hq. pose proof (settled_lookup i f Hi) as Hi'. assert (is_new (settle f) = false) as Hnew by (by rewrite settle_new, Hq).
  destruct (cr_kept _ _ _ _ _ _ _ _ Hcr i _ Hi' Hnew) as [H _]. rewrite H. unfold settle. by rewrite Hq.
Qed.
Lemma lost_created i f x : files !! i = Some f → data !! i = Some x → completefile f = None →
  ∃ d, let q := (length (disks w0) + new_index (settle <$> files) i)%nat in
    files' !! i = Some (SetTarget (settle f) true (Some q)) ∧ disks w2 !! q = Some d ∧ disk_is x d ∧ names w2 !! q = Some (Some (targetfilename f)).
Proof.
  intros Hi Hx Hq. pose proof (settled_lookup i f Hi) as Hi'. assert (is_new (settle f) = true) as Hnew by (by rewrite settle_new, Hq).
  destruct (cr_new _ _ _ _ _ _ _ _ Hcr i _ Hi' Hnew) as (Hf' & _). destruct (Hrest i (settle f) x Hi' Hx) as (q & d & Hf2 & Hd & Hok & Hc).
  { unfold settle. by rewrite Hq. }
  rewrite Hf' in Hf2. injection Hf2 as Eq. subst q. exists d. cbn zeta. split; [done|]. split; [done|]. split; [by split|].
  destruct (cr_names _ _ _ _ _ _ _ _ Hcr) as [Hnm _]. rewrite Hn2, Hnm, lookup_app_r by (rewrite Hn0, (ds_names _ _ _ _ _ _ Hds), Hd0; lia).
  rewrite Hn0, (ds_names _ _ _ _ _ _ Hds), <- Hd0. replace (length (disks w0) + _ - length (disks w0))%nat with (new_index (settle <$> files) i) by lia.
  rewrite list_lookup_fmap. assert (new_files (settle <$> files) !! new_index (settle <$> files) i = Some (settle f)) as ->.
  { revert Hi' Hnew. generalize (settle f) as g. clear. generalize (settle <$> files) as l. intros l. revert i. induction l as [|h l IH]; intros [|i] g Hi Hg; cbn [lookup list_lookup] in Hi; try done.
    - injection Hi as ->. rewrite new_files_cons, Hg. done.
    - rewrite new_index_S, new_files_cons. destruct (is_new h); [rewrite lookup_app_r by (cbn [length]; lia); cbn [length]; replace (1 + new_index l i - 1)%nat with (new_index l i) by lia|]; by apply IH. }
  unfold compose. cbn [fmap option_fmap option_map]. by rewrite (sp_name _ _ (settle_same f)).
Qed.

Lemma repaired_same : Forall2 same_packets files files'.
Proof.
  apply Forall2_same_length_lookup. split; [rewrite Hlen; by rewrite length_fmap|]. intros i f g Hi Hg. destruct (file_described i f Hi) as (x & Hx & _).
  destruct (completefile f) as [q|] eqn:Ec.
  - rewrite (complete_kept i f q Hi Ec) in Hg. by injection Hg as <-.
  - destruct (lost_created i f x Hi Hx Ec) as (d & H & _). rewrite H in Hg. injection Hg as <-. unfold settle. by rewrite Ec.
Qed.

Lemma kept_disk q d x : disks w !! q = Some d → contents d = x → ∃ d', disks w2 !! q = Some d' ∧ disk_is x d' ∧ filesize d' = filesize d.
Proof.
  intros Hd Hc. rewrite <- Hd0 in Hd. destruct (Hkept q d Hd) as (d' & Hd' & Hok' & Hc'). exists d'. split; [done|]. split; [split; congruence|].
  pose proof (ds_disks _ _ _ _ _ _ Hds) as HF. rewrite <- Hd0, Forall_lookup in HF. rewrite (do_size _ Hok'), (do_size _ (HF q d Hd)). by rewrite Hc'.
Qed.

(** What was complete is still found. *)
Lemma complete_done i f q : files !! i = Some f → completefile f = Some q → file_done files data w2 files' sourceblocks i.
Proof.
  intros Hi Hq. destruct (file_described i f Hi) as (x & Hx & _). destruct (ds_complete _ _ _ _ _ _ Hds i f x q Hi Hx Hq) as [(d & Hd & Hc) Hall].
  destruct (kept_disk q d x Hd Hc) as (d' & Hd' & Hx' & _). exists f, (SetTarget f true (Some q)), q. split; [done|]. split; [by apply complete_kept|].
  split_and!; try done; [by exists x, d'|]. intros kk b Hk Hb. specialize (Hall kk b Hk Hb).
  assert (b ∈ sourceblocks) as Hin by (by eapply list_elem_of_lookup_2). destruct (b_diskfile b) as [r|] eqn:Er; [|unfold IsSet in Hall; by rewrite Er in Hall].
  pose proof (ds_known _ _ _ _ _ _ Hds b r Hin Er) as Hlt. destruct (lookup_lt_is_Some_2 _ _ Hlt) as [dr Hdr].
  destruct (kept_disk r dr _ Hdr eq_refl) as (dr' & Hdr' & _ & Es). split; [|exists r; split; [done|by apply lookup_lt_Some in Hdr']].
  unfold IsSet, FileSizes in *. rewrite Er in *. rewrite Hdr in Hall. by rewrite Hdr', Es.
Qed.

(** What was created has its contents. *)
Lemma created_right i f : files !! i = Some f → completefile f = None → target_right data w2 files' i.
Proof.
  intros Hi Hq. destruct (file_described i f Hi) as (x & Hx & _). destruct (lost_created i f x Hi Hx Hq) as (d & Hf & Hd & Hc & _).
  eexists _, _, x, d. split; [exact Hf|]. split; [done|]. split; [done|]. split; [done|]. split; [done|exact Hc].
Qed.

(** The target files do not change when they are verified. *)
Lemma all_repaired fl blocks : (∀ i, (i < length files)%nat → file_done files data w2 fl blocks i) →
  (∀ i f' g, files' !! i = Some f' → fl !! i = Some g → targetfile g = targetfile f') → repaired fl w2.
Proof.
  intros Hall Htf i f0 x Hi Hx. destruct (Hall i ltac:(by apply lookup_lt_Some in Hi)) as (f & g & q & Hf & Hg & Hex & Etq & Ecq & (x' & d & Hx' & Hd & Hok & Hc) & _).
  exists g, q, d. split; [done|]. split; [apply bool_decide_eq_true; by rewrite Etq, Ecq|]. split; [done|]. split; [done|]. split; [congruence|].
  destruct (completefile f0) as [r|] eqn:Er.
  - pose proof (Htf i _ g (complete_kept i f0 r Hi Er) Hg) as E. rewrite Etq in E. injection E as ->. destruct (cr_names _ _ _ _ _ _ _ _ Hcr) as [Hnm _].
    rewrite Hn2, Hnm. apply lookup_app_l_Some, Hnamed; [by eapply list_elem_of_lookup_2|done].
  - destruct (lost_created i f0 x Hi Hx Er) as (d' & Hf' & _ & _ & Hname). pose proof (Htf i _ g Hf' Hg) as E. rewrite Etq in E. injection E as ->. done.
Qed.
End Repaired.

(** ** The results, and files that are given up *)

Lemma found_results main : m_totalfilecount main = Z.of_nat (length files) →
  UpdateVerificationResults sourceblocks sizes main (Z.of_nat (length sourceblocks)) (Some <$> files)
  = Some {| availableblockcount := Z.of_nat (located sizes sourceblocks); missingblockcount := Z.of_nat (total_blocks files - located sizes sourceblocks);
            completefilecount := tally complete_here files; renamedfilecount := tally complete_elsewhere files;
            damagedfilecount := tally damaged files; missingfilecount := tally missing files |}.
Proof.
  intros Hm. destruct (ds_blocks _ _ _ _ _ _ Hds) as [Hl _]. pose proof (vs_total _ _ _ _ _ _ _ _ _ Hset) as H32. pose proof (located_le sizes sourceblocks) as Hle.
  assert (blocks_of sourceblocks sizes 0 files) as Hof.
  { apply blocks_of_lookup; [apply (ds_placed _ _ _ _ _ _ Hds)| |].
    - apply Forall_lookup. intros i f Hi. destruct (file_described i f Hi) as (x & _ & Hd). destruct (vs_blocksize _ _ _ _ _ _ _ _ _ Hset) as [Hbs _].
      destruct (describes_blocks bs f x Hbs Hd). lia.
    - intros i f kk b Hi Hc Hk Hb. destruct (completefile f) as [q|] eqn:Eq; [|done]. destruct (file_described i f Hi) as (x & Hx & _).
      destruct (ds_complete _ _ _ _ _ _ Hds i f x q Hi Hx Eq) as [_ H]. by apply (H kk). }
  rewrite <- Hl. apply UpdateVerificationResults_ok; done || lia.
Qed.

Lemma delete_incomplete_ok vl fl w1 : (∀ i, i ∈ vl → ∃ f, fl !! i = Some f ∧ (targetexists f = true → is_Some (targetfile f))) →
  ∃ fl' w', DeleteIncompleteTargetFiles vl (Some <$> fl) w1 = Some (Some <$> fl', w') ∧ disks w' = disks w1.
Proof.
  revert fl w1. induction vl as [|i vl IH]; intros fl w1 Hall; [by exists fl, w1|]. destruct (Hall i ltac:(by left)) as (f & Hf & Ht).
  cbn [DeleteIncompleteTargetFiles]. rewrite list_lookup_fmap, Hf. cbn [fmap option_fmap option_map mjoin option_join mbind option_bind].
  destruct (targetexists f) eqn:Ex; [|by apply IH; intros j Hj; apply Hall; right]. destruct (Ht eq_refl) as [q ->]. cbn [mbind option_bind].
  rewrite <- list_fmap_insert. destruct (IH (<[i:=SetTarget f false None]> fl) (Delete w1 q)) as (fl' & w' & E & Hd); [|by exists fl', w'].
  intros j Hj. destruct (decide (j = i)) as [->|Hne].
  - exists (SetTarget f false None). rewrite list_lookup_insert_eq by (by apply lookup_lt_Some in Hf). done.
  - rewrite list_lookup_insert_ne by done. apply Hall. by right.
Qed.

(** The files that were found complete somewhere *)
Definition found_complete (f : Par2RepairerSourceFile) : bool := bool_decide (is_Some (completefile f)).
Lemma tally_complete l : tally complete_here l + tally complete_elsewhere l = tally found_complete l.
Proof.
  induction l as [|f l IH]; [done|]. rewrite !tally_cons.
  assert ((if complete_here f then 1 else 0) + (if complete_elsewhere f then 1 else 0) = if found_complete f then 1 else 0); [|lia].
  unfold complete_here, complete_elsewhere, found_complete. destruct (completefile f) as [q|]; repeat case_bool_decide; naive_solver.
Qed.

Lemma kept_same w' : disks w' = disks w → kept w w'.
Proof. intros E q d Hd. exists d. rewrite E. split; [done|]. split; [|done]. pose proof (ds_disks _ _ _ _ _ _ Hds) as HF. rewrite Forall_lookup in HF. by eapply HF. Qed.

(** All files were complete. *)
Lemma complete_repaired fl w' : disks w' = disks w → Forall (λ f, found_complete f = true) files →
  (∀ i f q, files !! i = Some f → completefile f = Some q → ∃ g, fl !! i = Some g ∧ completefile g = Some q ∧ targetfile g = Some q ∧ names w' !! q = Some (Some (targetfilename f))) →
  repaired fl w'.
Proof.
  intros Hd HF Hfl i f x Hi Hx. rewrite Forall_lookup in HF. specialize (HF i f Hi). apply bool_decide_eq_true in HF as [q Hq].
  destruct (Hfl i f q Hi Hq) as (g & Hg & Hc & Ht & Hn). destruct (ds_complete _ _ _ _ _ _ Hds i f x q Hi Hx Hq) as [(d & Hdq & Hcont) _].
  exists g, q, d. split; [done|]. split; [apply bool_decide_eq_true; by rewrite Hc, Ht|]. rewrite Hd. done.
Qed.
End Whole.

(** ** Properties *)

(** The sizes and memory a repair needs *)
Record repair_setting (bs : nat) (main : MainPacket) (memorylimit : Z) (missing : nat) (files : list Par2RepairerSourceFile) : Prop := {
  rs_even : bs = (2 * Nat.div2 bs)%nat;
  rs_total : m_totalfilecount main = Z.of_nat (length files);
  rs_recoverable : m_recoverablefilecount main = Z.of_nat (length files);
  rs_memory : 4 * (Z.of_nat missing + 26) ≤ memorylimit;
}.

Section Outcome.
Context (bs : nat) (windowtable : array) (maxlength : Z) (fresh : HasherInput) (scratch : MD5Single) (newsummer : DiskFile → FileCheckSummer).
Context (t : VerificationHashTable) (files : list Par2RepairerSourceFile) (data : list (list Z)) (w : World) (sourceblocks : list DataBlock) (recoverypacketmap : Zmap RecoveryPacket).
Context (skipdata : bool) (skipleaway : Z) (unverifiable : list nat) (matchtype0 : MatchType) (hashfull0 hash16k0 : list Z).
Context {M : Type} (k : kernel M) (view : M → Z → Z) `{L : !KernelLaws k view} (tables : gfmat_tables) (mat0 : M) {backend : Backend} {laws : BackendLaws}.
Context (main : MainPacket) (memorylimit : Z) (schedule : list nat → list nat).
Hypothesis Htables : tables_ok tables.
Hypothesis Hset : verify_setting bs windowtable maxlength fresh scratch newsummer t files data.
Hypothesis Hds : damaged_set bs files data w sourceblocks recoverypacketmap.
Hypothesis Hrn : renamable files w.
Hypothesis Hschedule : ∀ l, Permutation (schedule l) l.

Local Abbreviation sizes := (FileSizes w).
Local Abbreviation missing := (total_blocks files - located sizes sourceblocks)%nat.
Hypothesis Hrs : repair_setting bs main memorylimit missing files.

Local Abbreviation Repair := (Repair t bs windowtable maxlength fresh scratch newsummer true skipdata skipleaway true unverifiable matchtype0 hashfull0 hash16k0
  k tables mat0 main memorylimit recoverypacketmap schedule true).

(** What the recovery blocks can fail to determine *)
Definition dependent_rows : Prop :=
  ∃ l, dropped (IsSet sizes <$> sourceblocks) (Z.of_nat (located sizes sourceblocks)) (exponents_found recoverypacketmap) l ∧ (length l < missing)%nat.

(** From the creation of the target files on *)
Lemma repair_targets_ok w0 : disks w0 = disks w → length (names w0) = length (names w) →
  (∀ f i, f ∈ files → completefile f = Some i → names w0 !! i = Some (Some (targetfilename f))) →
  (∀ f, f ∈ files → completefile f = None → targetfilename f ∉ existing w0) →
  ∃ r fl w', repair_targets t bs windowtable maxlength fresh scratch newsummer true skipdata skipleaway true unverifiable matchtype0 hashfull0 hash16k0
      k tables mat0 main memorylimit recoverypacketmap schedule (Z.of_nat (located sizes sourceblocks)) (Z.of_nat missing) (Some <$> (settle <$> files)) sourceblocks
      (replicate (total_blocks files) mkDataBlock) w0
    = Some (r, Some <$> fl, w') ∧ kept w w' ∧ ((r = eSuccess ∧ repaired files data fl w') ∨ (r = eFileIOError ∧ dependent_rows)).
Proof.
  intros Hd0 Hn0 Hnamed Hfree. unfold repair_targets. destruct Hrs as [Heven Htot Hrec Hmem]. destruct (vs_blocksize _ _ _ _ _ _ _ _ _ Hset) as [Hbs _].
  pose proof (settled_same files) as Hsame. assert (FileSizes w0 = sizes) as Hfs by (unfold FileSizes; by rewrite Hd0).
  pose proof (settled_repairable bs windowtable maxlength fresh scratch newsummer t files data w sourceblocks recoverypacketmap Hset Hds w0 Hd0 (rn_distinct _ _ Hrn) Hfree) as Hrp.
  destruct (repair_restores_ok k view tables mat0 backend main memorylimit maxlength bs (settle <$> files) data w0 sourceblocks recoverypacketmap Htables
    (vs_read _ _ _ _ _ _ _ _ _ Hset) Hbs Heven) as (files' & w1 & tgt & vl & Ec & Hvl & Hvnd & Hlen & Hcr & r & Er & Hr).
  { by rewrite length_fmap. }
  { exact Hrp. }
  { by rewrite Hfs, (same_total files _ Hsame). }
  pose proof Hcr as Hcr'. rewrite (same_total files _ Hsame) in Ec. rewrite Hfs, (same_total files _ Hsame) in Er, Hr. rewrite Ec. cbn [mbind option_bind negb].
  rewrite Er. cbn [mbind option_bind].
  assert (∀ i f, files !! i = Some f → completefile f = None ↔ i ∈ vl) as Hin.
  { intros i f Hi. rewrite Hvl. split.
    - intros Hc. exists (settle f). rewrite list_lookup_fmap, Hi. split; [done|]. unfold settle. by rewrite Hc.
    - intros (g & Hg & Ht). rewrite list_lookup_fmap, Hi in Hg. injection Hg as <-. unfold settle in Ht. by destruct (completefile f). }
  destruct r as [m|].
  - destruct Hr as (chunksize & w2 & -> & E2 & Hn2 & Hrest & Hkept). cbn [mbind option_bind]. rewrite E2. cbn [mbind option_bind negb].
    pose proof (repaired_same bs windowtable maxlength fresh scratch newsummer t files data w sourceblocks recoverypacketmap Hset Hds w0 w1 w2 files' tgt Hd0 Hn0 Hlen Hcr Hn2 Hrest) as Hfl.
    destruct (VerifyTargetFiles_ok bs windowtable maxlength fresh scratch newsummer t files data Hset skipdata skipleaway unverifiable matchtype0 hashfull0 hash16k0
      (ds_placed _ _ _ _ _ _ Hds) (schedule vl) files' sourceblocks w2) as (fl & blocks & E3 & G1 & G2 & G3 & G4 & G5).
    { by rewrite Hschedule. }
    { apply (ds_blocks _ _ _ _ _ _ Hds). }
    { done. }
    { intros i Hi. rewrite Hschedule in Hi. apply Hvl in Hi as Hi'. destruct Hi' as (g & Hg & _). rewrite list_lookup_fmap in Hg. apply fmap_Some in Hg as (f & Hf & _).
      apply (created_right bs windowtable maxlength fresh scratch newsummer t files data w sourceblocks recoverypacketmap Hset Hds w0 w1 w2 files' tgt Hd0 Hn0 Hlen Hcr Hn2 Hrest i f Hf).
      by apply Hin with i. }
    rewrite E3. cbn [mbind option_bind negb].
    assert (∀ i, (i < length files)%nat → file_done files data w2 fl blocks i) as Hall.
    { intros i Hi. destruct (lookup_lt_is_Some_2 _ _ Hi) as [f Hf]. destruct (completefile f) as [q|] eqn:Eq.
      - apply G4; [rewrite Hschedule; intros Hi'%(Hin i f Hf); congruence|].
        by apply (complete_done bs windowtable maxlength fresh scratch newsummer t files data w sourceblocks recoverypacketmap Hset Hds w0 w1 w2 files' tgt Hd0 Hcr Hkept i f q).
      - apply G3. rewrite Hschedule. by apply (Hin i f Hf). }
    rewrite (all_done_results bs windowtable maxlength fresh scratch newsummer t files data Hset (ds_placed _ _ _ _ _ _ Hds) main fl blocks w2 Htot G2 G1 Hall).
    cbn [mbind option_bind completefilecount]. rewrite Hrec, Z.ltb_irrefl. exists eSuccess, fl, w2. split; [done|]. split; [|left; split; [done|]].
    + intros q d Hd. apply Hkept. by rewrite Hd0.
    + apply (all_repaired bs files data w sourceblocks recoverypacketmap Hds w0 w1 w2 files' tgt Hd0 Hn0 Hnamed Hlen Hcr Hn2 Hrest fl blocks Hall).
      intros i f' g Hf' Hg. apply (f_equal (.!! i)) in G5. rewrite !list_lookup_fmap, Hf', Hg in G5. by injection G5.
  - destruct (delete_incomplete_ok vl files' w1) as (fl & w' & -> & Hdw).
    { intros i Hi. apply Hvl in Hi as (g & Hg & Ht). assert (is_new g = true) as Hnew by (unfold is_new; by rewrite Ht).
      destruct (cr_new _ _ _ _ _ _ _ _ Hcr' i g Hg Hnew) as (Hf' & _). eexists. split; [exact Hf'|]. done. }
    cbn [mbind option_bind]. exists eFileIOError, fl, w'. split; [done|]. split; [|by right].
    intros q d Hd. rewrite <- Hd0 in Hd. exists d. rewrite Hdw. split; [by apply (cr_old _ _ _ _ _ _ _ _ Hcr')|]. split; [|done].
    pose proof (ds_disks _ _ _ _ _ _ Hds) as HF. rewrite <- Hd0, Forall_lookup in HF. by eapply HF.
Qed.

Lemma Repair_ok : ∃ results, UpdateVerificationResults sourceblocks sizes main (Z.of_nat (length sourceblocks)) (Some <$> files) = Some results ∧
  ∃ r fl w', Repair results (Some <$> files) sourceblocks (replicate (total_blocks files) mkDataBlock) w = Some (r, Some <$> fl, w') ∧ kept w w' ∧
    ((r = eSuccess ∧ repaired files data fl w') ∨
     (r = eRepairNotPossible ∧ fl = files ∧ w' = w ∧ (size recoverypacketmap < missing)%nat) ∨
     (r = eFileIOError ∧ dependent_rows)).
Proof.
  pose proof Hrs as [Heven Htot Hrec Hmem]. eexists. split; [by apply (found_results bs windowtable maxlength fresh scratch newsummer t files data w sourceblocks recoverypacketmap Hset Hds)|].
  unfold RepairProcess.Repair, CheckVerificationResults, repair_required. cbn [missingblockcount completefilecount renamedfilecount damagedfilecount missingfilecount availableblockcount].
  rewrite Hrec. pose proof (tally_classes files) as Hcl. pose proof (tally_nonneg complete_here files). pose proof (tally_nonneg complete_elsewhere files).
  pose proof (tally_nonneg damaged files). pose proof (tally_nonneg RepairFilesSpec.missing files).
  destruct (Z.ltb_spec (tally complete_here files) (Z.of_nat (length files))) as [Hlt|Hge]; cbn [orb negb].
  - destruct (Z.leb_spec (Z.of_nat missing) (Z.of_nat (size recoverypacketmap))) as [Hle|Hgt]; cbn [negb].
    2: { exists eRepairNotPossible, files, w. split; [done|]. split; [by apply (kept_same bs files data w sourceblocks recoverypacketmap Hds)|]. right. left. split_and!; try done. lia. }
    destruct (RenameTargetFiles_ok files w Hrn main Htot) as (w0 & backups & -> & Hd0 & Hn0 & Hnamed & Hfree). cbn [mbind option_bind negb].
    rewrite tally_complete. destruct (Z.ltb_spec (tally found_complete files) (Z.of_nat (length files))) as [Hlt2|Hge2]; cbn [negb].
    + destruct (repair_targets_ok w0 Hd0 Hn0 Hnamed Hfree) as (r & fl & w' & E & Hk & Hr).
      exists r, fl, w'. split; [exact E|]. split; [done|]. destruct Hr as [Hr|Hr]; [by left|by right; right].
    + exists eSuccess, (settle <$> files), w0. split; [done|]. split; [by apply (kept_same bs files data w sourceblocks recoverypacketmap Hds)|]. left. split; [done|].
      assert (tally found_complete files = Z.of_nat (length files)) as Hall by (rewrite <- tally_complete in *; lia). apply tally_all in Hall.
      apply (complete_repaired bs files data w sourceblocks recoverypacketmap Hds (settle <$> files) w0 Hd0 Hall).
      intros i f q Hi Hq. exists (settle f). rewrite list_lookup_fmap, Hi. split; [done|]. unfold settle. rewrite Hq. split; [done|]. split; [done|].
      apply Hnamed; [by eapply list_elem_of_lookup_2|done].
  - rewrite !(proj2 (Z.ltb_ge 0 _)) by lia. cbn [orb negb]. exists eSuccess, files, w. split; [done|].
    split; [by apply (kept_same bs files data w sourceblocks recoverypacketmap Hds)|]. left. split; [done|].
    assert (tally complete_here files = Z.of_nat (length files)) as Hall by lia. apply tally_all in Hall. rewrite Forall_lookup in Hall.
    apply (complete_repaired bs files data w sourceblocks recoverypacketmap Hds files w eq_refl).
    + apply Forall_lookup. intros i f Hi. specialize (Hall i f Hi). apply bool_decide_eq_true in Hall as [Hc _]. apply bool_decide_eq_true. by destruct (completefile f).
    + intros i f q Hi Hq. specialize (Hall i f Hi). apply bool_decide_eq_true in Hall as [_ Hc]. exists f. rewrite <- Hc, Hq. split_and!; try done.
      apply (rn_target _ _ Hrn); [by eapply list_elem_of_lookup_2|congruence].
Qed.
End Outcome.

(** C1: a repair succeeds whenever there is enough of the set.  After a verification that found
    blocks with their data, complete files with their contents, and recovery packets, the
    repair gives one of three results and keeps every file that was open: it succeeds, and
    then every file of the set is complete under its own name with exactly its contents;
    or fewer recovery packets than missing blocks were found, and nothing is changed; or rows
    of the recovery blocks depend on each other, so that too few are left.  Damaged files are
    renamed to backups, complete ones under other names renamed back, the others created,
    computed, and verified again in any order; any chunk size and any backend that keeps its
    promise will do. *)
Theorem repair_succeeds {M} (k : kernel M) (view : M → Z → Z) `{!KernelLaws k view} (tables : gfmat_tables) (mat0 : M) (backend : Backend) `{!BackendLaws}
    (bs : nat) (windowtable : array) (maxlength : Z) (fresh : HasherInput) (scratch : MD5Single) (newsummer : DiskFile → FileCheckSummer) (t : VerificationHashTable)
    (skipdata : bool) (skipleaway : Z) (unverifiable : list nat) (matchtype0 : MatchType) (hashfull0 hash16k0 : list Z)
    (main : MainPacket) (memorylimit : Z) (schedule : list nat → list nat) (files : list Par2RepairerSourceFile) (data : list (list Z)) (w : World)
    (sourceblocks : list DataBlock) (recoverypacketmap : Zmap RecoveryPacket) :
  gfmat_init = Some tables → (∀ l, Permutation (schedule l) l) →
  verify_setting bs windowtable maxlength fresh scratch newsummer t files data →
  damaged_set bs files data w sourceblocks recoverypacketmap → renamable files w →
  let missing := (total_blocks files - located (FileSizes w) sourceblocks)%nat in
  repair_setting bs main memorylimit missing files →
  ∃ results, UpdateVerificationResults sourceblocks (FileSizes w) main (Z.of_nat (length sourceblocks)) (Some <$> files) = Some results ∧
  ∃ r fl w', Repair t bs windowtable maxlength fresh scratch newsummer true skipdata skipleaway true unverifiable matchtype0 hashfull0 hash16k0
      k tables mat0 main memorylimit recoverypacketmap schedule true results (Some <$> files) sourceblocks (replicate (total_blocks files) mkDataBlock) w
    = Some (r, Some <$> fl, w') ∧ kept w w' ∧
    ((r = eSuccess ∧ repaired files data fl w') ∨
     (r = eRepairNotPossible ∧ fl = files ∧ w' = w ∧ (size recoverypacketmap < missing)%nat) ∨
     (r = eFileIOError ∧ dependent_rows files w sourceblocks recoverypacketmap)).
Proof. intros Htab%gfmat_init_tables Hs Hset Hds Hrn missing Hrs. by eapply (Repair_ok _ _ _ _ _ _ _ files data w). Qed.

(** *** An example: of two files one is damaged and the other intact *)

Lemma describes_same bs f g x : same_packets f g → describes bs f x → describes bs g x.
Proof.
  intros [S1 S2 S3 S4 S5] [[C1 C2] D2 D3 D4 D5 D6]. assert (FileSizeOf g = FileSizeOf f) as E by (unfold FileSizeOf; by rewrite S1).
  split; rewrite ?S1, ?E; try done; [split; rewrite E; [by rewrite S3|done]|]. destruct D6 as (v & V1 & V2 & V3). exists v. rewrite S2, S3. unfold count in *. by rewrite S3.
Qed.

Lemma same_table files fl i first : Forall2 same_packets files fl → table_files i first fl = table_files i first files.
Proof.
  intros HF. revert i first. induction HF as [|f g files fl Hs _ IH]; intros i first; [done|]. cbn [table_files]. unfold count. rewrite (sp_verification _ _ Hs), (sp_count _ _ Hs).
  destruct (verificationpacket f); by rewrite IH.
Qed.

Lemma same_setting bs windowtable maxlength fresh scratch newsummer t files fl data : Forall2 same_packets files fl →
  verify_setting bs windowtable maxlength fresh scratch newsummer t files data → verify_setting bs windowtable maxlength fresh scratch newsummer t fl data.
Proof.
  intros Hs [V1 V2 V3 V4 V5 V6 V7 V8 V9 V10]. assert (set_entries fl = set_entries files) as E by (unfold set_entries; by rewrite (same_table files fl)).
  split; rewrite ?E, ?(same_total files fl Hs); try done. clear - Hs V7. revert data V7. induction Hs as [|f g files fl Hfg _ IH]; intros data V7; inversion V7; subst; constructor; [|by apply IH].
  by apply (describes_same bs f).
Qed.

Definition torn_files : list Par2RepairerSourceFile :=
  [SetTarget (described_file 16 [97] example_data 3 0) true (Some 1%nat);
   SetCompleteFile (SetTarget (described_file 16 [98] [1; 2; 3; 4; 5] 1 3) true (Some 0%nat)) (Some 0%nat)].
Definition torn_blocks : list DataBlock :=
  [SetLocation (fresh_block 40 16 0) 1 0; SetLocation (fresh_block 40 16 1) 1 16; fresh_block 40 16 2; SetLocation (fresh_block 5 16 0) 0 0].
(** The exclusive or of all blocks *)
Definition torn_recovery : list Z := foldr (zip_with Z.lxor) (replicate 16 0) (set_blocks 16 torn_files pair_data).
Definition torn_world : World :=
  {| disks := [file_with [1; 2; 3; 4; 5]; file_with (seqZ 7 32 ++ [0; 0; 0]); file_with (replicate 68 80 ++ torn_recovery)];
     names := [Some [98]; Some [97]; Some [112]]; others := [[113]] |}.
Definition torn_packets : Zmap RecoveryPacket :=
  {[0 := {| r_packet := []; r_offset := 0; r_context := None; r_datablock := SetLength (SetLocation mkDataBlock 2 68) 16 |}]}.

Lemma torn_same : Forall2 same_packets pair_files torn_files.
Proof. by repeat constructor. Qed.

Lemma torn_renamable : renamable torn_files torn_world.
Proof.
  split.
  - split.
    + intros [|[|[|i]]] [|[|[|j]]] n Hi Hj; try (by destruct i); try (by destruct j); cbn in Hi, Hj; congruence.
    + intros [|[|[|i]]] n Hi; try (by destruct i); cbn in Hi; injection Hi as <-; cbn; set_solver.
  - by vm_compute.
  - cbn. repeat constructor; set_solver.
  - repeat constructor; cbn; lia.
  - by repeat constructor.
  - intros f q Hf. unfold torn_files in Hf. set_unfold in Hf. destruct Hf as [-> |[-> |[]]]; by intros [= <-].
  - intros f Hf. unfold torn_files in Hf. set_unfold in Hf. by destruct Hf as [-> |[-> |[]]].
  - intros f q Hf. unfold torn_files in Hf. set_unfold in Hf. destruct Hf as [-> |[-> |[]]]; intros [= <-]. cbn. lia.
  - cbn. apply NoDup_singleton.
  - intros f g j Hf Hg _. unfold torn_files in Hf, Hg. set_unfold in Hf. set_unfold in Hg. destruct Hf as [-> |[-> |[]]], Hg as [-> |[-> |[]]]; done.
Qed.

Lemma torn_damaged : damaged_set 16 torn_files pair_data torn_world torn_blocks torn_packets.
Proof.
  split.
  - by split_and!.
  - by vm_compute.
  - split; [done|]. intros i f kk b Hi Hk Hb.
    assert (blocks_sized 16 torn_files pair_blocks) as [_ Hs].
    { destruct pair_sized as [H1 H2]. split; [done|]. intros i' f' kk' b' Hi' Hk' Hb'. destruct (Forall2_lookup_r _ _ _ _ _ torn_same Hi') as (g & Hg & Hs).
      rewrite (same_offset pair_files torn_files i' torn_same) in Hb'. unfold count, FileSizeOf in *. rewrite (sp_count _ _ Hs) in Hk'. rewrite (sp_description _ _ Hs). by apply (H2 i' g kk'). }
    assert (∃ b', pair_blocks !! (block_offset torn_files i + kk)%nat = Some b' ∧ b_length b' = b_length b) as (b' & Hb' & <-); [|by apply (Hs i f kk)].
    revert Hb. generalize (block_offset torn_files i + kk)%nat as j. intros [|[|[|[|j]]]] Hb; try (by destruct j); cbn in Hb; injection Hb as <-; by eexists.
  - by repeat constructor.
  - done.
  - intros b i Hb. unfold torn_blocks in Hb. set_unfold in Hb. destruct Hb as [-> |[-> |[-> |[-> |[]]]]]; cbn; intros [= <-]; lia.
  - intros [|[|i]] f x kk b Hi Hx Hk Hb Hs; try (by destruct i); cbn in Hi, Hx; injection Hi as <-; injection Hx as <-; unfold count in Hk; cbn [blockcount SetTarget SetCompleteFile described_file] in Hk; rewrite Nat2Z.id in Hk.
    + destruct kk as [|[|[|kk]]]; [| | |lia]; cbn in Hb; injection Hb as <-; [| |by vm_compute in Hs];
        (eexists 1%nat, _; split; [done|]; split; [done|]; repeat (split; [vm_compute; congruence|]); split_and!; try done; vm_compute; congruence).
    + destruct kk as [|kk]; [|lia]; cbn in Hb; injection Hb as <-.
      eexists 0%nat, _; split; [done|]; split; [done|]; repeat (split; [vm_compute; congruence|]); split_and!; try done; vm_compute; congruence.
  - intros [|[|i]] f x q Hi Hx Hq; try (by destruct i); cbn in Hi, Hx; injection Hi as <-; injection Hx as <-; cbn in Hq; [done|]. injection Hq as <-. split; [by eexists|].
    intros [|kk] b Hk Hb; [|unfold count in Hk; cbn [blockcount SetTarget SetCompleteFile described_file] in Hk; lia]. cbn in Hb. by injection Hb as <-.
  - intros e p Hp. unfold torn_packets in Hp. apply lookup_singleton_Some in Hp as [<- <-]. split; [lia|]. exists torn_recovery.
    split; [|split; [done|split; [repeat constructor; vm_compute; congruence|]]].
    + eexists 2%nat, _. split; [done|]. split; [done|]. repeat (split; [vm_compute; congruence|]). split_and!; try done; vm_compute; congruence.
    + intros [|[|[|[|[|[|[|[|i]]]]]]]] Hi; [vm_compute; reflexivity..|lia].
Qed.

Lemma repair_succeeds_witness : ∃ tb b u, PrepareVerificationHashTable 4 (Some <$> pair_files) = Some (tb, b, u) ∧ ∃ tables, gfmat_init = Some tables ∧
  let missing := (total_blocks torn_files - located (FileSizes torn_world) torn_blocks)%nat in
  ∃ results, UpdateVerificationResults torn_blocks (FileSizes torn_world) (example_main 2 2) (Z.of_nat (length torn_blocks)) (Some <$> torn_files) = Some results ∧
  ∃ r fl w', Repair tb 16 (default ∅ (GenerateWindowTable 16)) 1000 example_hasher example_single (example_checksummer 16) true false 64 true u eNoMatch [] []
      lookup_kernel tables ∅ (example_main 2 2) 1000 torn_packets id true results (Some <$> torn_files) torn_blocks (replicate (total_blocks torn_files) mkDataBlock) torn_world
    = Some (r, Some <$> fl, w') ∧ kept torn_world w' ∧
    ((r = eSuccess ∧ repaired torn_files pair_data fl w') ∨
     (r = eRepairNotPossible ∧ fl = torn_files ∧ w' = torn_world ∧ (size torn_packets < missing)%nat) ∨
     (r = eFileIOError ∧ dependent_rows torn_files torn_world torn_blocks torn_packets)).
Proof.
  destruct pair_setting as (tb & b & u & E & Hset). exists tb, b, u. split; [exact E|]. destruct gfmat_init_ok as (tables & Ht & _). exists tables. split; [exact Ht|].
  apply (repair_succeeds lookup_kernel word tables ∅ direct_backend 16 (default ∅ (GenerateWindowTable 16)) 1000 example_hasher example_single (example_checksummer 16) tb
    false 64 u eNoMatch [] [] (example_main 2 2) 1000 id torn_files pair_data torn_world torn_blocks torn_packets Ht).
  - intros l. reflexivity.
  - exact (same_setting _ _ _ _ _ _ _ _ _ _ torn_same Hset).
  - exact torn_damaged.
  - exact torn_renamable.
  - split; [reflexivity|reflexivity|reflexivity|vm_compute; congruence].
Defined.
