(* ===== verification/GfChecksum.v ===== *)
(** * GfChecksum.v: the checksum of a region, include/par2/gf16/gf16_checksum_generic.h

    A 64-bit value is four lanes of GF(2^16).  The checksum of a sequence of 8-byte blocks is,
    in every lane, the polynomial of the words of that lane at 2: a block is absorbed by doubling
    the lanes and adding it, [n] blocks of zeros by one multiplication with 2^n, and the blocks
    that were absorbed are taken back by a multiplication with the inverse.  The 64-bit
    little-endian build is modelled. *)

From Stdlib Require Import Btauto.
From S2P Require Import Prelude LinOp GF GfCoeff GfLookup.

(** ** The operations *)

(** [gf16_multi_mul2] on a 64-bit [uintptr_t] *)
Definition gf16_multi_mul2 (v : Z) : Z :=
  let mask := 0x0001000100010001 in
  Z.land (wrap 64 (v * 2)) (wrap 64 (Z.lnot mask))
  ⊕ wrap 64 (Z.land (Z.shiftr v 15) mask * Z.land 0x1100b 0xffff).

(** [memcpy(&dataPart, _src, n)] into a 64-bit variable that is zero *)
Definition read_part (m : array) (p n : Z) : Z :=
  for_loop 0 n (λ k v, Z.lor v (Z.shiftl (byte m (p + k)) (8 * k))) 0.

(** [gf16_checksum_blocku_generic] *)
Definition gf16_checksum_blocku_generic (m : array) (src amount checksum : Z) : Z :=
  let remaining := Z.land amount 7 in
  let amount := amount ⊕ remaining in
  let data := for_loop 0 (amount / 8) (λ i data, data ⊕ read64 m (src + 8 * i)) 0 in
  let data := if remaining =? 0 then data else data ⊕ read_part m (src + amount) remaining in
  gf16_multi_mul2 checksum ⊕ data.

(** [gf16_checksum_block_generic] *)
Definition gf16_checksum_block_generic (m : array) (src checksum blockLen : Z) : Z :=
  gf16_checksum_blocku_generic m src blockLen checksum.

(** One round of [gf16_checksum_exp_generic]: [-(uint64_t)(coeff>>15) & _checksum] is added *)
Definition exp_select (coeff checksum : Z) : Z := Z.land (wrap 64 (- Z.shiftr coeff 15)) checksum.

(** [gf16_checksum_exp_generic] *)
Definition gf16_checksum_exp_generic (checksum exp : Z) : Z :=
  fst (for_loop 0 15 (λ _ '(res, coeff),
         let res := gf16_multi_mul2 res in
         let coeff := wrap 16 (Z.shiftl coeff 1) in
         (res ⊕ exp_select coeff checksum, coeff))
       (exp_select exp checksum, exp)).

(** ** Lanes *)

Abbreviation u64 v := (in_range 64 v).

Lemma lanes_decompose v : u64 v → v = slice16 v 0 + slice16 v 1 * 2 ^ 16 + slice16 v 2 * 2 ^ 32 + slice16 v 3 * 2 ^ 48.
Proof. intros [H1 H2]. unfold slice16. rewrite !land_65535, !Z.shiftr_div_pow2 by lia. simpl in *. Z.div_mod_to_equations. lia. Qed.

Lemma lanes_ext a b : u64 a → u64 b → (∀ k, 0 ≤ k < 4 → slice16 a k = slice16 b k) → a = b.
Proof. intros Ha Hb H. rewrite (lanes_decompose a), (lanes_decompose b) by done. by rewrite !H by lia. Qed.

Lemma slice16_0 k : slice16 0 k = 0.
Proof. unfold slice16. by rewrite Z.shiftr_0_l. Qed.

(** The top bit of a lane, and the lane doubled without it *)
Lemma slice16_top v k : 0 ≤ k < 4 → slice16 (Z.land (Z.shiftr v 15) 0x0001000100010001) k = Z.b2z (Z.testbit (slice16 v k) 15).
Proof.
  intros Hk. rewrite slice16_land by lia.
  assert (slice16 0x0001000100010001 k = 1) as ->.
  { assert (k = 0 ∨ k = 1 ∨ k = 2 ∨ k = 3) as [->|[->|[->| ->]]] by lia; reflexivity. }
  apply Z.bits_inj'. intros i Hi. rewrite Z.land_spec, slice16_testbit, Z.shiftr_spec by lia.
  destruct (decide (i = 0)) as [->|].
  - rewrite slice16_testbit, Z.b2z_bit0 by lia. simpl. rewrite andb_true_r. f_equal. lia.
  - rewrite (Z.bits_above_log2 1 i) by (simpl; lia). rewrite andb_false_r. symmetry. apply (testbit_above 1); [|lia]. destruct (Z.testbit _ 15); split; simpl; lia.
Qed.

Lemma slice16_low v k : 0 ≤ k < 4 → slice16 (Z.land (wrap 64 (v * 2)) (wrap 64 (Z.lnot 0x0001000100010001))) k = wrap 16 (Z.shiftl (slice16 v k) 1).
Proof.
  intros Hk. rewrite slice16_land by lia.
  assert (slice16 (wrap 64 (Z.lnot 0x0001000100010001)) k = 0xfffe) as ->.
  { assert (k = 0 ∨ k = 1 ∨ k = 2 ∨ k = 3) as [->|[->|[->| ->]]] by lia; reflexivity. }
  replace (v * 2) with (Z.shiftl v 1) by (rewrite Z.shiftl_mul_pow2 by lia; lia).
  apply Z.bits_inj'. intros i Hi. rewrite Z.land_spec, slice16_testbit by lia. unfold wrap at 2.
  destruct (Z.lt_ge_cases i 16).
  - unfold wrap. rewrite (proj2 (Z.ltb_lt i 16)), !Z.mod_pow2_bits_low, !Z.shiftl_spec by lia.
    destruct (decide (i = 0)) as [->|].
    + rewrite (Z.testbit_neg_r (slice16 v k)) by lia. apply andb_false_r.
    + rewrite slice16_testbit, (proj2 (Z.ltb_lt (i - 1) 16)) by lia. change 0xfffe with (Z.shiftl (Z.ones 15) 1).
      rewrite Z.shiftl_spec, Z.ones_spec_low by lia. rewrite andb_true_r. simpl. f_equal. lia.
  - rewrite (proj2 (Z.ltb_ge i 16)), Z.mod_pow2_bits_high by lia. done.
Qed.

Lemma bit_times b : 0 ≤ b ≤ 1 → u16 (b * 4107).
Proof. intros H. split; [lia|]. change (2 ^ 16) with 65536. lia. Qed.

Lemma lanes_times a b c d : 0 ≤ a ≤ 1 → 0 ≤ b ≤ 1 → 0 ≤ c ≤ 1 → 0 ≤ d ≤ 1 →
  wrap 64 ((a + b * 2 ^ 16 + c * 2 ^ 32 + d * 2 ^ 48) * 4107) = a * 4107 + b * 4107 * 2 ^ 16 + c * 4107 * 2 ^ 32 + d * 4107 * 2 ^ 48.
Proof.
  intros. assert (a = 0 ∨ a = 1) as [->| ->] by lia; assert (b = 0 ∨ b = 1) as [->| ->] by lia;
    assert (c = 0 ∨ c = 1) as [->| ->] by lia; assert (d = 0 ∨ d = 1) as [->| ->] by lia; reflexivity.
Qed.

(** [gf16_multi_mul2] doubles every lane. *)
Lemma gf16_multi_mul2_range v : u64 (gf16_multi_mul2 v).
Proof. apply in_range_lxor; [lia| |apply in_range_wrap; lia]. apply in_range_land; [lia|apply in_range_wrap; lia]. Qed.

Lemma gf16_multi_mul2_slice v k : 0 ≤ k < 4 → slice16 (gf16_multi_mul2 v) k = T16 (slice16 v k).
Proof.
  intros Hk. unfold gf16_multi_mul2. rewrite slice16_lxor, slice16_low by done.
  set (X := Z.land (Z.shiftr v 15) _). change (Z.land 0x1100b 0xffff) with 0x100b.
  assert (u64 X) as HX by (apply in_range_land; [lia|split; [done|reflexivity]]).
  assert (∀ k, 0 ≤ k < 4 → slice16 X k = Z.b2z (Z.testbit (slice16 v k) 15)) as Hs by apply slice16_top.
  assert (slice16 (wrap 64 (X * 0x100b)) k = Z.b2z (Z.testbit (slice16 v k) 15) * 0x100b) as ->.
  { rewrite (lanes_decompose X HX), !Hs by lia.
    assert (∀ j, 0 ≤ Z.b2z (Z.testbit (slice16 v j) 15) ≤ 1) as Hb by (intros j; destruct (Z.testbit _ _); simpl; lia).
    rewrite lanes_times by apply Hb. rewrite slice16_lanes by first [apply bit_times, Hb | exact Hk].
    assert (k = 0 ∨ k = 1 ∨ k = 2 ∨ k = 3) as [->|[->|[->| ->]]] by lia; reflexivity. }
  pose proof (slice16_range v k) as Hr. set (w := slice16 v k) in *. unfold multby_two. change (Z.of_nat 16) with 16.
  rewrite Z.shiftl_spec by lia. change (16 - 1) with 15. destruct (Z.testbit w 15) eqn:E; simpl Z.b2z.
  - rewrite Z.mul_1_l. assert (Z.shiftl w 1 = wrap 16 (Z.shiftl w 1) ⊕ 0x10000) as E1.
    { apply Z.bits_inj'. intros i Hi. rewrite Z.lxor_spec. unfold wrap. change 0x10000 with (2 ^ 16). destruct (Z.lt_ge_cases i 16).
      - rewrite Z.mod_pow2_bits_low, (Z.pow2_bits_false 16 i) by lia. by rewrite xorb_false_r.
      - rewrite Z.mod_pow2_bits_high by lia. rewrite Z.shiftl_spec by lia. destruct (decide (i = 16)) as [->|].
        + by rewrite Z.pow2_bits_true by lia.
        + rewrite Z.pow2_bits_false by lia. apply (testbit_above 16); [done|lia]. }
    transitivity (wrap 16 (Z.shiftl w 1) ⊕ (0x10000 ⊕ 0x1100b)); [done|]. by rewrite <- Z.lxor_assoc, <- E1.
  - rewrite Z.mul_0_l, Z.lxor_0_r. apply wrap_small. apply in_range_bits; [lia|apply Z.shiftl_nonneg; destruct Hr; lia|].
    intros i Hi. rewrite Z.shiftl_spec by lia. destruct (decide (i = 16)) as [->|]; [done|]. apply (testbit_above 16); [done|lia].
Qed.

(** ** Multiplying the lanes by a constant *)

Lemma exp_select_ok coeff checksum : u16 coeff → u64 checksum → exp_select coeff checksum = if Z.testbit coeff 15 then checksum else 0.
Proof.
  intros Hc Hs. unfold exp_select. assert (Z.shiftr coeff 15 = Z.b2z (Z.testbit coeff 15)) as ->.
  { apply Z.bits_inj'. intros i Hi. rewrite Z.shiftr_spec by lia. destruct (decide (i = 0)) as [->|].
    - by rewrite Z.b2z_bit0.
    - rewrite (testbit_above 16) by (done || lia). symmetry. apply (testbit_above 1); [|lia]. destruct (Z.testbit coeff 15); split; simpl; lia. }
  destruct (Z.testbit coeff 15); simpl Z.b2z.
  - replace (wrap 64 (- (1))) with (Z.ones 64) by reflexivity. rewrite Z.land_comm, Z.land_ones by lia. by apply wrap_small.
  - done.
Qed.

Lemma shiftr_next e i : 0 ≤ e → 0 ≤ i → Z.shiftr e i = 2 * Z.shiftr e (i + 1) ⊕ Z.b2z (Z.testbit e i).
Proof.
  intros He Hi. rewrite (split_high_low 1 (Z.shiftr e i)) at 1 by lia. rewrite Z.shiftr_shiftr, Z.shiftl_mul_pow2 by lia. f_equal; [lia|].
  change (2 ^ 1) with 2. rewrite <- Z.bit0_mod, Z.shiftr_spec by lia. f_equal.
Qed.

Lemma mul16_next a b w : 0 ≤ a < 2 ^ 15 → u16 w → mul16 (2 * a ⊕ Z.b2z b) w = T16 (mul16 a w) ⊕ (if b then w else 0).
Proof.
  intros Ha Hw. rewrite (gf_mul_xor_l 16 poly16). f_equal.
  - rewrite (gf_mul_comm 16 poly16), (gf_mul_comm 16 poly16 a). symmetry. apply mul16_double; [lia|]. change (2 ^ 16) with (2 * 2 ^ 15). lia.
  - destruct b; [by apply (gf_mul_1_l 16 poly16)|apply (gf_mul_0_l 16 poly16)].
Qed.

(** [gf16_checksum_exp_generic] multiplies every lane by the coefficient. *)
Lemma gf16_checksum_exp_slice c e k : u64 c → u16 e → 0 ≤ k < 4 → slice16 (gf16_checksum_exp_generic c e) k = mul16 e (slice16 c k).
Proof.
  intros Hc He Hk. unfold gf16_checksum_exp_generic. pose proof (slice16_range c k) as Hw. assert (0 ≤ e) as He0 by (destruct He; lia).
  assert (∀ b : bool, slice16 (if b then c else 0) k = if b then slice16 c k else 0) as Hif by (intros []; [done|apply slice16_0]).
  match goal with |- slice16 (fst (for_loop 0 15 ?body ?s0)) k = _ =>
    destruct (for_loop_ind (λ i st, st.2 = wrap 16 (Z.shiftl e i) ∧ slice16 st.1 k = mul16 (Z.shiftr e (15 - i)) (slice16 c k)) 0 15 body s0) as [_ ->]
  end; [lia| | |by rewrite Z.shiftr_0_r].
  - split; [by rewrite Z.shiftl_0_r, wrap_small|]. cbn [fst]. rewrite exp_select_ok, Hif by done. change (15 - 0) with 15.
    rewrite shiftr_next by lia. rewrite mul16_next by (done || (rewrite Z.shiftr_div_pow2 by lia; change (15 + 1) with 16; rewrite Z.div_small by done; done)).
    rewrite Z.shiftr_div_pow2, Z.div_small, (gf_mul_0_l 16 poly16) by (done || lia). rewrite (multby_two_small 16 poly16) by done. by rewrite Z.lxor_0_l.
  - intros i [res coeff] Hi [E IH]. cbn [snd fst] in *. subst coeff.
    assert (wrap 16 (Z.shiftl (wrap 16 (Z.shiftl e i)) 1) = wrap 16 (Z.shiftl e (i + 1))) as Ew.
    { rewrite <- Z.shiftl_shiftl by lia. rewrite !(Z.shiftl_mul_pow2 _ 1) by lia. unfold wrap. by rewrite Zmult_mod_idemp_l. }
    cbn zeta. rewrite Ew. split; [done|]. rewrite slice16_lxor, gf16_multi_mul2_slice, IH by done.
    rewrite exp_select_ok, Hif by (apply in_range_wrap || exact Hc || lia; lia).
    replace (15 - (i + 1)) with (14 - i) by lia. rewrite (shiftr_next e (14 - i)) by lia. replace (14 - i + 1) with (15 - i) by lia.
    rewrite mul16_next by (done || (rewrite Z.shiftr_div_pow2 by lia; split; [apply Z.div_pos; lia|];
      apply Z.div_lt_upper_bound; [lia|]; destruct He as [_ He]; rewrite <- Z.pow_add_r by lia; eapply Z.lt_le_trans; [exact He|]; apply Z.pow_le_mono_r; lia)).
    do 2 f_equal. unfold wrap. rewrite Z.mod_pow2_bits_low, Z.shiftl_spec by lia. by replace (15 - (i + 1)) with (14 - i) by lia.
Qed.

Lemma gf16_checksum_exp_range c e : u64 c → u16 e → u64 (gf16_checksum_exp_generic c e).
Proof.
  intros Hc He. unfold gf16_checksum_exp_generic.
  assert (∀ coeff, u16 coeff → u64 (exp_select coeff c)) as Hs by (intros coeff Hf; rewrite exp_select_ok by done; destruct (Z.testbit _ _); [done|apply in_range_0; lia]).
  apply (for_loop_ind (λ i st, u64 st.1 ∧ u16 st.2) 0 15); [lia|split; [by apply Hs|done]|].
  intros i [res coeff] _ [_ _]. cbn [fst snd]. pose proof (in_range_wrap 16 (Z.shiftl coeff 1) ltac:(lia)). split; [|done].
  apply in_range_lxor; [lia|apply gf16_multi_mul2_range|by apply Hs].
Qed.

(** ** Absorbing a block *)

Lemma read_part_bits m p n i : 0 ≤ n ≤ 8 → 0 ≤ i → Z.testbit (read_part m p n) i = (i <? 8 * n) && Z.testbit (byte m (p + i / 8)) (i mod 8).
Proof.
  intros Hn Hi. unfold read_part.
  apply (for_loop_ind (λ n v, Z.testbit v i = (i <? 8 * n) && Z.testbit (byte m (p + i / 8)) (i mod 8)) 0 n); [lia| |].
  - rewrite Z.bits_0. destruct (Z.ltb_spec i (8 * 0)); [lia|done].
  - intros k v Hk IH. rewrite Z.lor_spec, IH. destruct (Z.lt_ge_cases i (8 * k)).
    + rewrite (Z.shiftl_spec_low _ _ i) by lia. rewrite orb_false_r. do 2 rewrite (proj2 (Z.ltb_lt i _)) by lia. done.
    + rewrite Z.shiftl_spec by lia. rewrite (proj2 (Z.ltb_ge i (8 * k))) by lia. simpl orb. destruct (Z.ltb_spec i (8 * (k + 1))).
      * assert (i / 8 = k) as -> by (Z.div_mod_to_equations; lia). assert (i mod 8 = i - 8 * k) as -> by (Z.div_mod_to_equations; lia). done.
      * apply (testbit_above 8); [apply byte_range|lia].
Qed.

Lemma word_bits m a i : 0 ≤ i < 16 → Z.testbit (word m a) i = Z.testbit (byte m (2 * a + i / 8)) (i mod 8).
Proof.
  intros Hi. unfold word. pose proof (byte_range m (2 * a)) as Hb. replace (256 * byte m (2 * a + 1)) with (byte m (2 * a + 1) * 2 ^ 8) by lia.
  rewrite <- (lxor_disjoint 8) by (done || lia). rewrite Z.lxor_spec. destruct (Z.lt_ge_cases i 8).
  - rewrite Z.shiftl_spec_low by lia. rewrite Z.div_small, Z.mod_small, Z.add_0_r by lia. apply xorb_false_r.
  - rewrite (testbit_above 8) by (exact Hb || lia). rewrite Z.shiftl_spec by lia. assert (i / 8 = 1) as -> by (Z.div_mod_to_equations; lia).
    assert (i mod 8 = i - 8) as -> by (Z.div_mod_to_equations; lia). done.
Qed.

Lemma read_part_slice m p n k : 0 ≤ n ≤ 4 → 0 ≤ k < 4 → slice16 (read_part m (2 * p) (2 * n)) k = if k <? n then word m (p + k) else 0.
Proof.
  intros Hn Hk. apply Z.bits_inj'. intros i Hi. rewrite slice16_testbit, read_part_bits by lia. destruct (Z.ltb_spec i 16) as [H16|H16]; cbn [andb].
  - destruct (Z.ltb_spec k n).
    + rewrite word_bits, (proj2 (Z.ltb_lt _ _)) by lia. cbn [andb].
      replace ((16 * k + i) / 8) with (2 * k + i / 8) by (Z.div_mod_to_equations; lia). replace ((16 * k + i) mod 8) with (i mod 8) by (Z.div_mod_to_equations; lia).
      by replace (2 * p + (2 * k + i / 8)) with (2 * (p + k) + i / 8) by lia.
    + rewrite (proj2 (Z.ltb_ge _ _)) by lia. by rewrite Z.bits_0.
  - destruct (Z.ltb_spec k n); [|by rewrite Z.bits_0]. symmetry. apply (testbit_above 16); [apply word_range|lia].
Qed.

Lemma read_part_range m p n : 0 ≤ n ≤ 8 → u64 (read_part m p n).
Proof.
  intros Hn. apply in_range_bits; [lia| |].
  - unfold read_part. apply (for_loop_ind (λ _ v, 0 ≤ v) 0 n); [lia|lia|]. intros k v Hk Hv. apply Z.lor_nonneg. split; [done|]. apply Z.shiftl_nonneg. apply byte_range.
  - intros i Hi. rewrite read_part_bits by lia. by rewrite (proj2 (Z.ltb_ge _ _)) by lia.
Qed.

Lemma read64_part m p : read64 m p = read_part m p 8.
Proof. done. Qed.

(** A block of at most eight bytes, at even addresses *)
Lemma gf16_checksum_blocku_slice m p n c k : 0 ≤ n ≤ 4 → 0 ≤ k < 4 →
  slice16 (gf16_checksum_blocku_generic m (2 * p) (2 * n) c) k = T16 (slice16 c k) ⊕ (if k <? n then word m (p + k) else 0).
Proof.
  intros Hn Hk. unfold gf16_checksum_blocku_generic. rewrite slice16_lxor, gf16_multi_mul2_slice by done. f_equal.
  destruct (decide (n = 4)) as [->|Hne].
  - change (Z.land (2 * 4) 7) with 0. change (2 * 4 ⊕ 0) with 8. change (0 =? 0) with true. cbv iota. change (8 / 8) with 1.
    rewrite for_loop_cons, for_loop_nil by lia. rewrite Z.lxor_0_l, read64_part. replace (2 * p + 8 * 0) with (2 * p) by lia. by apply (read_part_slice m p 4 k).
  - assert (Z.land (2 * n) 7 = 2 * n) as -> by (rewrite (Z.land_ones _ 3) by lia; apply Z.mod_small; change (2 ^ 3) with 8; lia).
    rewrite Z.lxor_nilpotent. change (0 / 8) with 0. rewrite for_loop_nil, Z.add_0_r by lia. destruct (Z.eqb_spec (2 * n) 0) as [E|].
    + rewrite slice16_0. by rewrite (proj2 (Z.ltb_ge k n)) by lia.
    + rewrite Z.lxor_0_l. by apply read_part_slice.
Qed.

Lemma gf16_checksum_blocku_range m p n c : 0 ≤ n ≤ 8 → u64 (gf16_checksum_blocku_generic m p n c).
Proof.
  intros Hn. unfold gf16_checksum_blocku_generic. apply in_range_lxor; [lia|apply gf16_multi_mul2_range|].
  set (r := Z.land n 7). assert (0 ≤ r < 8) as Hr by (unfold r; rewrite (Z.land_ones _ 3) by lia; apply Z.mod_pos_bound; lia).
  assert (u64 (for_loop 0 ((n ⊕ r) / 8) (λ i data, data ⊕ read64 m (p + 8 * i)) 0)) as Hf.
  { destruct (Z.lt_ge_cases ((n ⊕ r) / 8) 0); [rewrite for_loop_nil by lia; apply in_range_0; lia|].
    apply (for_loop_ind (λ _ d, u64 d)); [lia|apply in_range_0; lia|]. intros i d _ Hd. apply in_range_lxor; [lia|done|]. rewrite read64_part. apply read_part_range. lia. }
  destruct (Z.eqb_spec r 0); [done|]. apply in_range_lxor; [lia|done|]. apply read_part_range. lia.
Qed.

(** ** The checksum of a sequence of blocks *)

(** The lane of the checksum of [n] blocks whose words in that lane are [f 0], [f 1], ... *)
Definition horner (f : nat → Z) (n : nat) : Z := foldl (λ v b, T16 v ⊕ f b) 0 (seq 0 n).

Lemma horner_S f n : horner f (S n) = T16 (horner f n) ⊕ f n.
Proof. unfold horner. by rewrite seq_S, foldl_app. Qed.

Lemma horner_ext f g n : (∀ b, (b < n)%nat → f b = g b) → horner f n = horner g n.
Proof. induction n as [|n IH]; intros H; [done|]. rewrite !horner_S, (H n) by lia. by rewrite IH by (intros; apply H; lia). Qed.

Lemma horner_lxor f g n : horner (λ b, f b ⊕ g b) n = horner f n ⊕ horner g n.
Proof. induction n as [|n IH]; [done|]. rewrite !horner_S, IH, (multby_two_xor 16 poly16). xor_solve. Qed.

Lemma horner_range f n : (∀ b, u16 (f b)) → u16 (horner f n).
Proof. intros Hf. induction n as [|n IH]; [split; [done|reflexivity]|]. rewrite horner_S. apply in_range_lxor; [lia|by apply (multby_two_range 16 poly16)|done]. Qed.

Lemma horner_zero n : horner (λ _, 0) n = 0.
Proof. induction n as [|n IH]; [done|]. by rewrite horner_S, IH. Qed.

Lemma horner_mul c f n : (∀ b, u16 (f b)) → horner (λ b, mul16 c (f b)) n = mul16 c (horner f n).
Proof.
  intros Hf. induction n as [|n IH]; [symmetry; apply (gf_mul_0_r 16 poly16)|]. rewrite !horner_S, (gf_mul_xor_r 16 poly16), IH. f_equal.
  rewrite !(gf_mul_comm 16 poly16 c). symmetry. apply (gmul_T_l 16 T16 1 bit_of). by apply horner_range.
Qed.

Lemma horner_xsum {A} (f : A → nat → Z) l n : horner (λ b, xsum (λ x, f x b) l) n = xsum (λ x, horner (f x) n) l.
Proof. induction l as [|x l IH]; [apply horner_zero|]. rewrite xsum_cons, <- IH, <- horner_lxor. done. Qed.

(** Blocks of zeros *)
Lemma horner_zeros f n k : (∀ b, (n ≤ b < n + k)%nat → f b = 0) → horner f (n + k) = Nat.iter k T16 (horner f n).
Proof.
  induction k as [|k IH]; intros H; [by rewrite Nat.add_0_r|]. rewrite Nat.add_succ_r, horner_S, (H (n + k)%nat), Z.lxor_0_r by lia. by rewrite IH by (intros; apply H; lia).
Qed.

(** Starting from a value, as the check at the end does *)
Lemma horner_from v f n : foldl (λ v b, T16 v ⊕ f b) v (seq 0 n) = Nat.iter n T16 v ⊕ horner f n.
Proof.
  induction n as [|n IH]; [symmetry; apply Z.lxor_0_r|]. rewrite seq_S, foldl_app. cbn [foldl Nat.add]. rewrite IH, horner_S, (multby_two_xor 16 poly16).
  change (Nat.iter (S n) T16 v) with (T16 (Nat.iter n T16 v)). xor_solve.
Qed.
