(* ===== verification/GfPacked.v ===== *)
(** * GfPacked.v: the packed layout of regions

    The inputs of a batch, and the outputs, lie in one buffer: the slices are cut into chunks, a
    chunk of all slices lies before the next chunk, and after the data of a slice comes one more
    block with its checksum.  This file models the functions of include/par2/gf16/gf16_global.h
    that put a slice into that layout and take it out, with the checksum, as gf16_lookup.c
    instantiates them in the 64-bit little-endian build: blocks of 8 bytes, no interleaving,
    whole slices (an offset of 0 and the length of the slice: the number of bytes that are left
    never becomes 0 before the end, so no early return is taken), and the operations on packed
    regions of gf16mul.h and gf_add_generic.c. *)

From S2P Require Import Prelude LinOp GF GfCoeff GfLookup GfChecksum.

(** ** Blocks *)

(** [memcpy] from another buffer, and [memset] to 0 *)
Definition copy_bytes (d : array) (dst : Z) (s : array) (src n : Z) : array := for_loop 0 n (λ k d, <[dst + k := byte s (src + k)]> d) d.
Definition set_bytes (d : array) (dst n : Z) : array := for_loop 0 n (λ k d, <[dst + k := 0]> d) d.

(** [gf16_lookup_copy_block], [gf16_lookup_prepare_blocku], [gf16_copy_blocku] *)
Definition gf16_lookup_copy_block (d : array) (dst : Z) (s : array) (src : Z) : array := copy_bytes d dst s src gf16_lookup_stride.
Definition gf16_lookup_prepare_blocku (d : array) (dst : Z) (s : array) (src remaining : Z) : array :=
  set_bytes (copy_bytes d dst s src remaining) (dst + remaining) (gf16_lookup_stride - remaining).
Definition gf16_copy_blocku (d : array) (dst : Z) (s : array) (src len : Z) : array := copy_bytes d dst s src len.

(** [gf16_lookup_checksum_prepare] *)
Definition gf16_lookup_checksum_prepare (d : array) (dst checksum : Z) : array := write64 (set_bytes d dst gf16_lookup_stride) dst checksum.

(** [for(pos = lo; pos < hi; pos += blockLen)], [lo] and [hi] multiples of [blockLen] *)
Definition block_loop {S} (lo hi : Z) (body : Z → S → S) (s : S) : S :=
  for_loop (lo / gf16_lookup_stride) (hi / gf16_lookup_stride) (λ i, body (gf16_lookup_stride * i)) s.

(** ** [gf16_checksum_ptr] *)

Definition interleaving (numSlices index interleaveSize : Z) : Z :=
  if numSlices - numSlices mod interleaveSize <=? index then numSlices mod interleaveSize else interleaveSize.

Definition gf16_checksum_ptr (ptr sliceLen blockLen numSlices index chunkLen interleaveSize : Z) : Z :=
  let effectiveLastChunkLen := (sliceLen + blockLen) mod chunkLen in
  let effectiveLastChunkLen := if effectiveLastChunkLen =? 0 then chunkLen else effectiveLastChunkLen in
  let interleaveBy := interleaving numSlices index interleaveSize in
  let fullChunks := wrap 32 (sliceLen / chunkLen) in
  let chunkStride := chunkLen * numSlices in
  ptr + index mod interleaveSize * blockLen + chunkStride * fullChunks + index / interleaveSize * effectiveLastChunkLen * interleaveSize
  + effectiveLastChunkLen * interleaveBy - blockLen * interleaveBy.

(** ** [gf16_prepare_packed] *)

(** The memory of the destination, and the checksum *)
Abbreviation packing := (array * Z)%type.

(** [checksumBlock(_src + pos, checksum, blockLen, 0); prepareBlock(_dst + pos*interleaveBy, _src + pos);] *)
Definition prepare_block (src : array) (_dst _src : Z) (st : packing) : packing :=
  (gf16_lookup_copy_block (fst st) _dst src _src, gf16_checksum_block_generic src _src (snd st) gf16_lookup_stride).

(** The handling of the misaligned part *)
Definition prepare_blocku (src : array) (_dst _src remaining : Z) (st : packing) : packing :=
  (gf16_lookup_prepare_blocku (fst st) _dst src _src remaining, gf16_checksum_blocku_generic src _src remaining (snd st)).

Definition zero_block (_dst : Z) (m : array) : array := set_bytes m _dst gf16_lookup_stride.

(** [checksumExp(checksum, gf16_exp((len / blockLen) % 65535))] *)
Definition skip_zeros (t : gfmat_tables) (len checksum : Z) : option Z :=
  e ← gf16_exp t (len / gf16_lookup_stride mod 65535);
  Some (gf16_checksum_exp_generic checksum e).

Section Prepare.
Context (t : gfmat_tables) (dst : Z) (src : array) (srcLen sliceLen inputPackSize inputNum chunkLen interleaveSize : Z).

Let blockLen := gf16_lookup_stride.
Let dataChunkLen := if sliceLen <? chunkLen then sliceLen else chunkLen.
Let interleaveBy := interleaving inputPackSize inputNum interleaveSize.
Let chunkStride := chunkLen * inputPackSize.
Let effectiveSliceLen := sliceLen + blockLen.
(* the place of the slice in a chunk of which [len] bytes of every slice are used *)
Let place (len : Z) : Z := dst + inputNum / interleaveSize * len * interleaveSize + inputNum mod interleaveSize * blockLen.

(** The full chunks *)
Definition prepare_full (st : packing) : packing :=
  for_loop 0 (wrap 32 (srcLen / dataChunkLen)) (λ chunk,
    block_loop 0 dataChunkLen (λ pos,
      prepare_block src (place chunkLen + chunkStride * chunk + pos * interleaveBy) (dataChunkLen * chunk + pos))) st.

(** The final (partial) chunk; the number of the next chunk *)
Definition prepare_partial (st : packing) : option (packing * Z) :=
  let fullChunks := wrap 32 (srcLen / dataChunkLen) in
  let remaining := srcLen mod dataChunkLen in
  if remaining =? 0 then Some (st, fullChunks) else
  let len := remaining - remaining mod blockLen in
  let lastChunkLen := if sliceLen / dataChunkLen * dataChunkLen <? srcLen then sliceLen mod dataChunkLen else dataChunkLen in
  let effectiveLastChunkLen := if effectiveSliceLen / chunkLen * chunkLen <? srcLen then effectiveSliceLen mod chunkLen else chunkLen in
  let _src := dataChunkLen * fullChunks in
  let _dst := place effectiveLastChunkLen + chunkStride * fullChunks in
  let st := block_loop 0 len (λ pos, prepare_block src (_dst + pos * interleaveBy) (_src + pos)) st in
  let st := if len <? remaining then prepare_blocku src (_dst + len * interleaveBy) (_src + len) (remaining - len) st else st in
  let pos := if len <? remaining then len + blockLen else len in
  checksum ← skip_zeros t (lastChunkLen - pos) (snd st);
  Some ((block_loop pos lastChunkLen (λ pos, zero_block (_dst + pos * interleaveBy)) (fst st), checksum), fullChunks + 1).

(** The remaining chunks are zero filled. *)
Definition prepare_rest (chunk : Z) (st : packing) : option packing :=
  if chunk * dataChunkLen <? sliceLen then
    checksum ← skip_zeros t (sliceLen - chunk * dataChunkLen) (snd st);
    let effectiveLastChunkLen := effectiveSliceLen mod chunkLen in
    let effectiveLastChunkLen := if effectiveLastChunkLen =? 0 then chunkLen else effectiveLastChunkLen in
    let fullChunks := wrap 32 (sliceLen / dataChunkLen) in
    let m := for_loop chunk fullChunks (λ chunk,
               block_loop 0 dataChunkLen (λ pos, zero_block (place chunkLen + chunkStride * chunk + pos * interleaveBy))) (fst st) in
    let remaining := sliceLen mod dataChunkLen in
    let m := block_loop 0 remaining (λ pos, zero_block (place effectiveLastChunkLen + chunkStride * fullChunks + pos * interleaveBy)) m in
    Some (m, checksum)
  else Some st.

Definition gf16_prepare_packed (m : array) (checksum : Z) : option array :=
  '(st, chunk) ← prepare_partial (prepare_full (m, checksum));
  '(m, checksum) ← prepare_rest chunk st;
  Some (gf16_lookup_checksum_prepare m (gf16_checksum_ptr dst sliceLen blockLen inputPackSize inputNum chunkLen interleaveSize) checksum).
End Prepare.

(** [GF_PREPARE_PACKED_CKSUM_FUNCS(gf16_lookup, _generic, gf16_lookup_stride(), ..., 1, ...)] *)
Definition gf16_lookup_prepare_packed_cksum_generic (t : gfmat_tables) (m : array) (dst : Z) (src : array) (srcLen sliceLen inputPackSize inputNum chunkLen : Z) : option array :=
  gf16_prepare_packed t dst src srcLen sliceLen inputPackSize inputNum chunkLen 1 m 0.

(** ** [gf16_finish_packed] *)

(** [finishBlock(_dst + pos, _src + pos*interleaveBy); checksumBlock(_dst + pos, checksum, blockLen, 0);] *)
Definition finish_block (src : array) (_dst _src : Z) (st : packing) : packing :=
  let dst := gf16_lookup_copy_block (fst st) _dst src _src in
  (dst, gf16_checksum_block_generic dst _dst (snd st) gf16_lookup_stride).

Definition finish_blocku (src : array) (_dst _src remaining : Z) (st : packing) : packing :=
  let dst := gf16_copy_blocku (fst st) _dst src _src remaining in
  (dst, gf16_checksum_blocku_generic dst _dst remaining (snd st)).

Section Finish.
Context (t : gfmat_tables) (m : array) (src sliceLen numOutputs outputNum chunkLen interleaveSize : Z).

Let blockLen := gf16_lookup_stride.
Let alignedSliceLen := let l := sliceLen + blockLen - 1 in l - l mod blockLen.
Let dataChunkLen := if alignedSliceLen <? chunkLen then alignedSliceLen else chunkLen.
Let interleaveBy := interleaving numOutputs outputNum interleaveSize.
Let chunkStride := chunkLen * numOutputs.
Let fullChunks := wrap 32 (alignedSliceLen / dataChunkLen).
Let place (len : Z) : Z := src + outputNum / interleaveSize * len * interleaveSize + outputNum mod interleaveSize * blockLen.

(** The checksum that was stored, rewound *)
Definition stored_checksum : option Z :=
  let checksum := read64 m (gf16_checksum_ptr src alignedSliceLen blockLen numOutputs outputNum chunkLen interleaveSize) in
  e ← gf16_exp t (65535 - alignedSliceLen / blockLen mod 65535);
  Some (gf16_checksum_exp_generic checksum e).

(** The full chunks; in the last one a block may not be full *)
Definition finish_full (st : packing * Z) : packing * Z :=
  for_loop 0 fullChunks (λ chunk '(st, remaining),
    let _src := place chunkLen + chunkStride * chunk in
    let _dst := dataChunkLen * chunk in
    if sliceLen <? dataChunkLen * (chunk + 1) then
      let pos := dataChunkLen - blockLen in
      let st := block_loop 0 pos (λ pos, finish_block m (_dst + pos) (_src + pos * interleaveBy)) st in
      let remaining := sliceLen - dataChunkLen * chunk - pos in
      (finish_blocku m (_dst + pos) (_src + pos * interleaveBy) remaining st, 0)
    else (block_loop 0 dataChunkLen (λ pos, finish_block m (_dst + pos) (_src + pos * interleaveBy)) st, remaining)) st.

(** The final chunk *)
Definition finish_last (st : packing) (remaining : Z) : packing :=
  let effectiveLastChunkLen := (alignedSliceLen + blockLen) mod chunkLen in
  let effectiveLastChunkLen := if effectiveLastChunkLen =? 0 then chunkLen else effectiveLastChunkLen in
  if remaining =? 0 then st else
  let _src := place effectiveLastChunkLen + chunkStride * fullChunks in
  let _dst := dataChunkLen * fullChunks in
  let pos := remaining - remaining mod blockLen in
  let st := block_loop 0 pos (λ pos, finish_block m (_dst + pos) (_src + pos * interleaveBy)) st in
  if pos <? remaining then finish_blocku m (_dst + pos) (_src + pos * interleaveBy) (remaining - pos) st else st.

(** Whether the checksum is right, and the slice *)
Definition gf16_finish_packed (dst : array) : option (bool * array) :=
  checksum ← stored_checksum;
  let '(st, remaining) := finish_full ((dst, checksum), wrap 64 (sliceLen - fullChunks * dataChunkLen)) in
  let '(dst, checksum) := finish_last st remaining in
  Some (checksum =? 0, dst).
End Finish.

(** [GF_FINISH_PACKED_FUNCS(gf16_lookup, _generic, gf16_lookup_stride(), ..., 1, ...)] *)
Definition gf16_lookup_finish_packed_cksum_generic (t : gfmat_tables) (dst m : array) (src sliceLen numOutputs outputNum chunkLen : Z) : option (bool * array) :=
  gf16_finish_packed t m src sliceLen numOutputs outputNum chunkLen 1 dst.

(** ** Operations on packed regions *)

(** [Galois16Mul::mul_add_multi_packed] for a method that has only [_mul_add] *)
Definition mul_add_multi_packed (regions : Z) (m : array) (dst src len : Z) (coefficients : Z → option Z) : option array :=
  for_loopM 0 regions (λ region m, c ← coefficients region; gf16_lookup_muladd m dst (src + region * len) len c) m.

(** [Galois16Mul::mul_add_multi_packpf]: without [_mul_add_pf] nothing is prefetched. *)
Definition mul_add_multi_packpf (regions : Z) (m : array) (dst src len : Z) (coefficients : Z → option Z) : option array :=
  mul_add_multi_packed regions m dst src len coefficients.

(** [gf_add_x_generic] on [srcCount] sources, [len] a multiple of 8 *)
Definition gf_add_x_generic (m : array) (dst src srcCount len : Z) : array :=
  for_loop 0 (len / 8) (λ i m,
    let data := for_loop 1 srcCount (λ j data, data ⊕ read64 m (src + j * len + 8 * i)) (read64 m (src + 8 * i)) in
    write64 m (dst + 8 * i) (read64 m (dst + 8 * i) ⊕ data)) m.

(** [gf_add_multi_packpf_generic]: [gf16_muladd_multi_packed] with four regions a call *)
Definition gf_add_multi_packpf_generic (regions : Z) (m : array) (dst src len : Z) : array :=
  let m := for_loop 0 (regions / 4) (λ g m, gf_add_x_generic m dst (src + 4 * g * len) 4 len) m in
  let region := 4 * (regions / 4) in
  let remaining := regions - region in
  if 1 <=? remaining then gf_add_x_generic m dst (src + region * len) remaining len else m.
