(* ===== verification/GfPackedSpec.v ===== *)
(** * GfPackedSpec.v: a slice that is packed comes back

    Packing writes every block of the slice, padded with zeros, and the checksum to their places
    and nothing else, and unpacking reads them back and accepts the checksum if and only if it is
    the one of the blocks. *)

From S2P Require Import Prelude LinOp GF GfCoeff GfLookup GfChecksum GfPacked.

(** ** Copying *)

Lemma byte_stored m a v b : in_range 8 v → byte (<[a := v]> m) b = if decide (b = a) then v else byte m b.
Proof.
  intros Hv. unfold byte. destruct (decide (b = a)) as [->|].
  - rewrite lookup_insert_eq. by apply wrap_small.
  - by rewrite lookup_insert_ne.
Qed.

Lemma copy_bytes_byte d dst s src n a : 0 ≤ n → byte (copy_bytes d dst s src n) a = if decide (dst ≤ a < dst + n) then byte s (src + (a - dst)) else byte d a.
Proof.
  intros Hn. unfold copy_bytes.
  apply (for_loop_ind (λ n d', byte d' a = if decide (dst ≤ a < dst + n) then byte s (src + (a - dst)) else byte d a) 0 n); [done|by rewrite decide_False by lia|].
  intros i d' Hi IH. rewrite byte_stored by apply byte_range. destruct (decide (a = dst + i)) as [->|].
  - rewrite decide_True by lia. f_equal. lia.
  - rewrite IH. repeat case_decide; (done || lia).
Qed.

Lemma set_bytes_byte d dst n a : 0 ≤ n → byte (set_bytes d dst n) a = if decide (dst ≤ a < dst + n) then 0 else byte d a.
Proof.
  intros Hn. unfold set_bytes.
  apply (for_loop_ind (λ n d', byte d' a = if decide (dst ≤ a < dst + n) then 0 else byte d a) 0 n); [done|by rewrite decide_False by lia|].
  intros i d' Hi IH. rewrite byte_stored by (split; [done|reflexivity]). rewrite IH. repeat case_decide; (done || lia).
Qed.

Lemma copy_bytes_word d q s p n a : 0 ≤ n → word (copy_bytes d (2 * q) s (2 * p) (2 * n)) a = if decide (q ≤ a < q + n) then word s (p + (a - q)) else word d a.
Proof.
  intros Hn. unfold word. rewrite !copy_bytes_byte by lia. repeat case_decide; try lia. f_equal; [f_equal; lia|do 2 f_equal; lia].
Qed.

Lemma set_bytes_word d q n a : 0 ≤ n → word (set_bytes d (2 * q) (2 * n)) a = if decide (q ≤ a < q + n) then 0 else word d a.
Proof. intros Hn. unfold word. rewrite !set_bytes_byte by lia. repeat case_decide; try lia. Qed.

(** What the operations on blocks write, in words *)
Lemma copy_block_word d q s p a : word (gf16_lookup_copy_block d (2 * q) s (2 * p)) a = if decide (q ≤ a < q + 4) then word s (p + (a - q)) else word d a.
Proof. apply (copy_bytes_word d q s p 4). lia. Qed.

Lemma prepare_blocku_word d q s p n a : 0 ≤ n ≤ 4 →
  word (gf16_lookup_prepare_blocku d (2 * q) s (2 * p) (2 * n)) a = if decide (q ≤ a < q + 4) then if a - q <? n then word s (p + (a - q)) else 0 else word d a.
Proof.
  intros Hn. unfold gf16_lookup_prepare_blocku. change gf16_lookup_stride with 8. replace (2 * q + 2 * n) with (2 * (q + n)) by lia. replace (8 - 2 * n) with (2 * (4 - n)) by lia.
  rewrite set_bytes_word, copy_bytes_word by lia. destruct (Z.ltb_spec (a - q) n); repeat case_decide; (done || lia).
Qed.

Lemma zero_block_word d q a : word (zero_block (2 * q) d) a = if decide (q ≤ a < q + 4) then 0 else word d a.
Proof. apply (set_bytes_word d q 4). lia. Qed.

Lemma checksum_prepare_word d q c a : word (gf16_lookup_checksum_prepare d (2 * q) c) a = if decide (q ≤ a < q + 4) then slice16 c (a - q) else word d a.
Proof.
  unfold gf16_lookup_checksum_prepare. rewrite write64_word. case_decide; [done|]. change gf16_lookup_stride with (2 * 4). rewrite set_bytes_word by lia.
  by rewrite decide_False by lia.
Qed.

(** ** The places of the blocks *)

(** Block [b] of slice [idx], in blocks from the start of the buffer: [N] slices of [SB] blocks
    (with the checksum), in chunks of [C] blocks *)
Definition packed_block (N C SB idx b : Z) : Z := N * C * (b / C) + idx * Z.min C (SB - C * (b / C)) + b mod C.

Section Places.
Context (N C SB : Z).
Hypothesis HC : 0 < C.

Lemma packed_block_at idx q i : 0 ≤ i < C → packed_block N C SB idx (q * C + i) = N * C * q + idx * Z.min C (SB - C * q) + i.
Proof.
  intros Hi. unfold packed_block. replace ((q * C + i) / C) with q by (apply (Z.div_unique (q * C + i) C q i); lia).
  replace ((q * C + i) mod C) with i by (apply (Z.mod_unique (q * C + i) C q i); lia). done.
Qed.

Lemma packed_block_eq idx b : ∃ q i, b = q * C + i ∧ 0 ≤ i < C ∧ packed_block N C SB idx b = N * C * q + idx * Z.min C (SB - C * q) + i.
Proof.
  exists (b / C), (b mod C). pose proof (Z.div_mod b C ltac:(lia)). pose proof (Z.mod_pos_bound b C HC). split_and!; [lia|lia|lia|done].
Qed.

Lemma packed_block_bounds idx b : 0 ≤ idx < N → 0 ≤ b < SB → 0 ≤ packed_block N C SB idx b < N * SB.
Proof.
  intros Hidx Hb. destruct (packed_block_eq idx b) as (q & i & -> & Hi & ->).
  assert (0 ≤ q) by nia. set (w := Z.min C (SB - C * q)). assert (i < w) by lia. assert (w ≤ SB - C * q) by lia. split; [nia|].
  assert (idx * w + i < N * w) by nia. assert (N * w ≤ N * (SB - C * q)) by nia. nia.
Qed.

Lemma packed_block_inj idx b idx' b' : 0 ≤ idx < N → 0 ≤ idx' < N → 0 ≤ b < SB → 0 ≤ b' < SB →
  packed_block N C SB idx b = packed_block N C SB idx' b' → idx = idx' ∧ b = b'.
Proof.
  intros Hx Hx' Hb Hb'. destruct (packed_block_eq idx b) as (q & i & -> & Hi & ->), (packed_block_eq idx' b') as (q' & i' & -> & Hi' & ->). intros E.
  assert (0 ≤ q) by nia. assert (0 ≤ q') by nia. set (w := Z.min C (SB - C * q)) in *. set (w' := Z.min C (SB - C * q')) in *.
  assert (0 ≤ idx * w + i < N * w) by (unfold w in *; nia). assert (0 ≤ idx' * w' + i' < N * w') by (unfold w' in *; nia).
  assert (N * w ≤ N * C) by nia. assert (N * w' ≤ N * C) by nia.
  assert (q = q') as <-.
  { assert (q = (N * C * q + (idx * w + i)) / (N * C)) as -> by (apply Z.div_unique with (idx * w + i); [left; lia|lia]).
    assert (q' = (N * C * q' + (idx' * w' + i')) / (N * C)) as -> by (apply Z.div_unique with (idx' * w' + i'); [left; lia|lia]). f_equal. lia. }
  fold w in w'. subst w'.
  assert (idx = (w * idx + i) / w) as E1 by (apply Z.div_unique with i; [left; lia|lia]).
  assert (idx' = (w * idx' + i') / w) as E2 by (apply Z.div_unique with i'; [left; lia|lia]).
  assert (idx = idx') as <- by (rewrite E1, E2; f_equal; lia). split; [done|lia].
Qed.
End Places.

(** ** Chunks of data *)

Section Chunks.
Context (N C SL idx : Z).
Hypothesis HC : 0 < C ≤ SL + 1.
Hypothesis HSL : 0 < SL.

(** The chunks of data are the chunks, or the data when that is smaller. *)
Definition data_chunk : Z := if SL <? C then SL else C.
Abbreviation Cd := data_chunk.
Abbreviation place b := (packed_block N C (SL + 1) idx b).
Abbreviation width q := (Z.min C (SL + 1 - C * q)).

Lemma data_chunk_pos : 0 < Cd ≤ C ∧ Cd ≤ SL ∧ (Cd = C ∨ Cd = SL ∧ C = SL + 1).
Proof. unfold data_chunk. destruct (Z.ltb_spec SL C); lia. Qed.

Lemma data_place q i : 0 ≤ q → 0 ≤ i < Cd → q * Cd + i < SL → place (q * Cd + i) = N * C * q + idx * width q + i.
Proof.
  intros Hq Hi Hlt. destruct data_chunk_pos as (H1 & H2 & [->|(E & E')]).
  - by apply packed_block_at; lia.
  - rewrite E in *. assert (q = 0) as -> by nia. pose proof (packed_block_at N C (SL + 1) idx 0 i ltac:(lia)) as Hp. by rewrite Z.mul_0_l in *.
Qed.

Lemma full_width q : 0 ≤ q → (q + 1) * Cd ≤ SL → width q = C.
Proof.
  intros Hq Hle. destruct data_chunk_pos as (H1 & H2 & [E|(E & E')]); rewrite E in *.
  - nia.
  - assert (q = 0) as -> by nia. lia.
Qed.

Lemma last_width q : 0 ≤ q → q * Cd < SL < (q + 1) * Cd → width q = if (SL + 1) mod C =? 0 then C else (SL + 1) mod C.
Proof.
  intros Hq Hlt. destruct data_chunk_pos as (H1 & H2 & [E|(E & E')]); rewrite E in *; [|exfalso; assert (q = 0 ∨ 1 ≤ q) as [->|] by lia; nia].
  destruct (decide (SL + 1 = (q + 1) * C)) as [Ee|Hne].
  - rewrite Ee, Z_mod_mult. change (0 =? 0) with true. cbv iota. lia.
  - assert ((SL + 1) mod C = SL + 1 - C * q) as -> by (symmetry; apply (Z.mod_unique _ _ q); [left; nia|lia]).
    rewrite (proj2 (Z.eqb_neq _ _)) by nia. nia.
Qed.

(** The chunk of the end of the data is never longer than what is left for it. *)
Lemma end_width q W : 0 ≤ q → 4 * (q * Cd) < W → W < 4 * ((q + 1) * Cd) → W ≤ 4 * SL →
  width q = if 4 * ((SL + 1) / C * C) <? W then (SL + 1) mod C else C.
Proof.
  intros Hq Hn Hn' Hle. pose proof (Z.div_mod (SL + 1) C ltac:(lia)) as Hd. pose proof (Z.mod_pos_bound (SL + 1) C ltac:(lia)) as Hm.
  set (s := (SL + 1) / C) in *. destruct data_chunk_pos as (H1 & H2 & [E|(E & E')]); rewrite E in *.
  - destruct (Z.ltb_spec (4 * (s * C)) W).
    + assert (q = s) as -> by nia. nia.
    + assert (q < s) by nia. nia.
  - assert (q = 0) as -> by nia. rewrite E' in *. assert (s = 1) as -> by nia. rewrite (proj2 (Z.ltb_ge _ W)) by lia. lia.
Qed.

Lemma end_data q W : 0 ≤ q → 4 * (q * Cd) < W → W < 4 * ((q + 1) * Cd) → W ≤ 4 * SL →
  Z.min Cd (SL - q * Cd) = if 4 * (SL / Cd * Cd) <? W then SL mod Cd else Cd.
Proof.
  intros Hq Hn Hn' Hle. destruct data_chunk_pos as (H1 & H2 & _). pose proof (Z.div_mod SL Cd ltac:(lia)) as Hd. pose proof (Z.mod_pos_bound SL Cd ltac:(lia)) as Hm.
  set (s := SL / Cd) in *. destruct (Z.ltb_spec (4 * (s * Cd)) W).
  - assert (q = s) as -> by nia. nia.
  - assert (q < s) by nia. nia.
Qed.

(** The place of the checksum *)
Lemma checksum_place : place SL = N * C * (SL / C) + idx * (if (SL + 1) mod C =? 0 then C else (SL + 1) mod C) + (if (SL + 1) mod C =? 0 then C else (SL + 1) mod C) - 1.
Proof.
  unfold packed_block. pose proof (Z.div_mod SL C ltac:(lia)) as Hd. pose proof (Z.mod_pos_bound SL C ltac:(lia)) as Hm.
  set (q := SL / C) in *. set (r := SL mod C) in *.
  assert ((if (SL + 1) mod C =? 0 then C else (SL + 1) mod C) = r + 1) as ->; [|nia].
  destruct (decide (r + 1 = C)) as [E|Hne].
  - replace (SL + 1) with ((q + 1) * C) by nia. rewrite Z_mod_mult. change (0 =? 0) with true. cbv iota. lia.
  - assert ((SL + 1) mod C = r + 1) as -> by (symmetry; apply (Z.mod_unique _ _ q); [left; lia|lia]). by rewrite (proj2 (Z.eqb_neq _ _)) by lia.
Qed.
End Chunks.

(** ** The loops *)

Lemma block_loop_ok {S} (P : Z → S → Prop) lo hi body s : lo ≤ hi → P lo s → (∀ i s, lo ≤ i < hi → P i s → P (i + 1) (body (8 * i) s)) →
  P hi (block_loop (8 * lo) (8 * hi) body s).
Proof.
  intros Hle H0 Hs. unfold block_loop. change gf16_lookup_stride with 8.
  rewrite (Z.mul_comm 8 lo), (Z.mul_comm 8 hi), !Z.div_mul by lia. by apply for_loop_ind.
Qed.

Lemma x16_mul n a : u16 a → mul16 (x16 (Z.of_nat n)) a = Nat.iter n T16 a.
Proof. intros Ha. rewrite Nat2Z.id. by apply (gmul_iter_unit 16 T16 1 bit_of). Qed.

Section Layout.
Context (d N C SL idx : Z).
Hypothesis HC : 0 < C ≤ SL + 1.
Hypothesis HSL : 0 < SL < 2 ^ 32.
Hypothesis Hidx : 0 ≤ idx < N.

Abbreviation Cd := (data_chunk C SL).
Abbreviation width q := (Z.min C (SL + 1 - C * q)).

(** The word address of a block *)
Definition block_at (b : Z) : Z := d + 4 * packed_block N C (SL + 1) idx b.

Lemma interleaving_one : interleaving N idx 1 = 1.
Proof. unfold interleaving. rewrite Z.mod_1_r. by rewrite (proj2 (Z.leb_gt _ _)) by lia. Qed.

Lemma place_address w q i : 2 * d + idx / 1 * (8 * w) * 1 + idx mod 1 * 8 + 8 * C * N * q + 8 * i * interleaving N idx 1 = 2 * (d + 4 * (N * C * q + idx * w + i)).
Proof. rewrite interleaving_one, Z.mod_1_r, Z.div_1_r. nia. Qed.

Lemma data_address q i : 0 ≤ q → 0 ≤ i < Cd → q * Cd + i < SL →
  2 * d + idx / 1 * (8 * width q) * 1 + idx mod 1 * 8 + 8 * C * N * q + 8 * i * interleaving N idx 1 = 2 * block_at (q * Cd + i).
Proof. intros. rewrite place_address. unfold block_at. by rewrite data_place by lia. Qed.

Lemma checksum_address : gf16_checksum_ptr (2 * d) (8 * SL) 8 N idx (8 * C) 1 = 2 * block_at SL.
Proof.
  unfold gf16_checksum_ptr, block_at. rewrite interleaving_one, Z.mod_1_r, Z.div_1_r, checksum_place by lia.
  replace (8 * SL + 8) with (8 * (SL + 1)) by lia. rewrite Z.div_mul_cancel_l, Z.mul_mod_distr_l by lia.
  rewrite wrap_small by (split; [apply Z.div_pos; lia|apply Z.div_lt_upper_bound; [lia|]; nia]).
  set (e := (SL + 1) mod C). destruct (Z.eqb_spec e 0) as [->|Hne]; [change (8 * 0 =? 0) with true; cbv iota; nia|]. rewrite (proj2 (Z.eqb_neq _ _)) by lia. nia.
Qed.

Lemma data_chunk_bytes : (if 8 * SL <? 8 * C then 8 * SL else 8 * C) = 8 * Cd.
Proof. unfold data_chunk. destruct (Z.ltb_spec (8 * SL) (8 * C)), (Z.ltb_spec SL C); lia. Qed.

Lemma chunk_count n : 0 ≤ n ≤ 8 * SL → wrap 32 (n / (8 * Cd)) = n / (8 * Cd).
Proof.
  intros Hn. destruct (data_chunk_pos C SL HC ltac:(lia)) as (Hc & _). apply wrap_small. split; [apply Z.div_pos; lia|]. apply Z.div_lt_upper_bound; [lia|]. nia.
Qed.

(** The blocks before [n] are written, and nothing else. *)
Record written (val : Z → Z → Z) (n : Z) (m m' : array) : Prop := {
  wr_in : ∀ b k, 0 ≤ b < n → 0 ≤ k < 4 → word m' (block_at b + k) = val b k;
  wr_out : ∀ a, (∀ b k, 0 ≤ b < n → 0 ≤ k < 4 → a ≠ block_at b + k) → word m' a = word m a;
}.

Lemma written_0 val m : written val 0 m m.
Proof. split; [lia|done]. Qed.

Lemma written_next val n m m1 m2 : 0 ≤ n ≤ SL → written val n m m1 →
  (∀ a, word m2 a = if decide (block_at n ≤ a < block_at n + 4) then val n (a - block_at n) else word m1 a) → written val (n + 1) m m2.
Proof.
  intros Hn [H1 H2] Hw. split.
  - intros b k Hb Hk. rewrite Hw. destruct (decide (b = n)) as [->|Hne].
    + rewrite decide_True by lia. f_equal. lia.
    + rewrite decide_False; [apply H1; lia|]. intros Hin. unfold block_at in Hin.
      assert (packed_block N C (SL + 1) idx b = packed_block N C (SL + 1) idx n) as E by lia. apply packed_block_inj in E as [_ E]; lia.
  - intros a Ha. rewrite Hw. rewrite decide_False; [apply H2; intros; apply Ha; lia|]. intros Hin. apply (Ha n (a - block_at n)); lia.
Qed.

Lemma written_ext val val' n m m' : (∀ b k, 0 ≤ b < n → 0 ≤ k < 4 → val b k = val' b k) → written val n m m' → written val' n m m'.
Proof. intros He [H1 H2]. split; [|done]. intros b k Hb Hk. rewrite <- He by done. by apply H1. Qed.

(** The checksum is that of the blocks before [n]. *)
Definition summed (val : Z → Z → Z) (n c : Z) : Prop := u64 c ∧ ∀ k, 0 ≤ k < 4 → slice16 c k = horner (λ b, val (Z.of_nat b) k) (Z.to_nat n).

Lemma summed_0 val : summed val 0 0.
Proof. split; [apply in_range_0; lia|]. intros k _. apply slice16_0. Qed.

Lemma summed_next val n c c' : 0 ≤ n → u64 c' → summed val n c → (∀ k, 0 ≤ k < 4 → slice16 c' k = T16 (slice16 c k) ⊕ val n k) → summed val (n + 1) c'.
Proof.
  intros Hn Hc' [Hc H] Hs. split; [done|]. intros k Hk. rewrite Hs, H by done. replace (Z.to_nat (n + 1)) with (S (Z.to_nat n)) by lia.
  rewrite horner_S. by rewrite Z2Nat.id by lia.
Qed.

Lemma skip_zeros_ok t val n n' c : exp_table (gf_exp t) → 0 ≤ n ≤ n' → summed val n c → (∀ b k, n ≤ b < n' → 0 ≤ k < 4 → val b k = 0) →
  ∃ c', skip_zeros t (8 * (n' - n)) c = Some c' ∧ summed val n' c'.
Proof.
  intros Ht Hn [Hc H] Hz. unfold skip_zeros. change gf16_lookup_stride with 8. rewrite (Z.mul_comm 8), Z.div_mul by lia.
  rewrite gf16_exp_ok by (done || pose proof (Z.mod_pos_bound (n' - n) 65535); lia). cbn [mbind option_bind]. eexists. split; [reflexivity|].
  rewrite <- x16_mod by lia. assert (u16 (x16 (n' - n))) as He by apply x16_range. split; [by apply gf16_checksum_exp_range|].
  intros k Hk. rewrite gf16_checksum_exp_slice by done. pose proof (slice16_range c k) as Hr.
  replace (Z.to_nat (n' - n)) with (Z.to_nat (Z.of_nat (Z.to_nat (n' - n)))) by lia. rewrite x16_mul by done. rewrite H by done.
  replace (Z.to_nat n') with (Z.to_nat n + Z.to_nat (n' - n))%nat by lia. symmetry. apply horner_zeros. intros b Hb. apply Hz; lia.
Qed.
End Layout.

(** ** Packing *)

Section Preparing.
Context (t : gfmat_tables) (d N C SL idx : Z) (src : array) (W : Z) (m0 : array).
Hypothesis Ht : exp_table (gf_exp t).
Hypothesis HC : 0 < C ≤ SL + 1.
Hypothesis HSL : 0 < SL < 2 ^ 32.
Hypothesis Hidx : 0 ≤ idx < N.
Hypothesis HW : 0 ≤ W ≤ 4 * SL.

Abbreviation Cd := (data_chunk C SL).
Abbreviation width q := (Z.min C (SL + 1 - C * q)).
Abbreviation at_block := (block_at d N C SL idx).

(** The words of the slice, padded with zeros *)
Definition padded (b k : Z) : Z := if 4 * b + k <? W then word src (4 * b + k) else 0.

(** The first [n] blocks are packed. *)
Definition packed (n : Z) (st : packing) : Prop := written d N C SL idx padded n m0 (fst st) ∧ summed padded n (snd st).

Lemma prepare_block_next n q i st : packed n st → n = q * Cd + i → 0 ≤ q → 0 ≤ i < Cd → n < SL → 4 * n + 4 ≤ W →
  packed (n + 1) (prepare_block src (2 * at_block n) (8 * Cd * q + 8 * i) st).
Proof.
  intros [Hw Hs] En Hq Hi Hn Hfull. assert (0 ≤ n) by nia. unfold prepare_block. cbn [fst snd].
  replace (8 * Cd * q + 8 * i) with (2 * (4 * n)) by nia. split.
  - apply (written_next d N C SL idx HC Hidx padded n m0 (fst st)); [lia|done|]. cbn [fst]. intros a. rewrite copy_block_word. case_decide; [|done].
    unfold padded. rewrite (proj2 (Z.ltb_lt _ _)) by lia. done.
  - apply (summed_next padded n (snd st)); [lia| |done|]; unfold gf16_checksum_block_generic; change gf16_lookup_stride with (2 * 4); cbn [snd].
    + apply gf16_checksum_blocku_range. lia.
    + intros k Hk. rewrite gf16_checksum_blocku_slice by lia. rewrite (proj2 (Z.ltb_lt k 4)) by lia. f_equal. unfold padded. by rewrite (proj2 (Z.ltb_lt _ _)) by lia.
Qed.

Lemma prepare_blocku_next n e st : packed n st → 0 ≤ n < SL → 0 < e < 4 → W = 4 * n + e →
  packed (n + 1) (prepare_blocku src (2 * at_block n) (8 * n) (2 * e) st).
Proof.
  intros [Hw Hs] Hn He EW. unfold prepare_blocku. cbn [fst snd]. replace (8 * n) with (2 * (4 * n)) by lia. split.
  - apply (written_next d N C SL idx HC Hidx padded n m0 (fst st)); [lia|done|]. cbn [fst]. intros a. rewrite prepare_blocku_word by lia. case_decide; [|done].
    unfold padded. destruct (Z.ltb_spec (a - at_block n) e); [rewrite (proj2 (Z.ltb_lt _ _)) by lia|rewrite (proj2 (Z.ltb_ge _ _)) by lia]; done.
  - apply (summed_next padded n (snd st)); [lia| |done|]; cbn [snd]; [apply gf16_checksum_blocku_range; lia|].
    intros k Hk. rewrite gf16_checksum_blocku_slice by lia. f_equal. unfold padded.
    destruct (Z.ltb_spec k e); [rewrite (proj2 (Z.ltb_lt (4 * n + k) W)) by lia|rewrite (proj2 (Z.ltb_ge (4 * n + k) W)) by lia]; done.
Qed.

Lemma zero_block_next n m : written d N C SL idx padded n m0 m → 0 ≤ n < SL → W ≤ 4 * n → written d N C SL idx padded (n + 1) m0 (zero_block (2 * at_block n) m).
Proof.
  intros Hw Hn HWn. apply (written_next d N C SL idx HC Hidx padded n m0 m); [lia|done|]. intros a. rewrite zero_block_word. case_decide; [|done].
  unfold padded. by rewrite (proj2 (Z.ltb_ge _ _)) by lia.
Qed.

Abbreviation srcLen := (2 * W).

Lemma prepare_full_ok : packed (srcLen / (8 * Cd) * Cd) (prepare_full (2 * d) src srcLen (8 * SL) N idx (8 * C) 1 (m0, 0)).
Proof.
  destruct (data_chunk_pos C SL HC ltac:(lia)) as (Hc & Hc2 & _). pose proof (Z.div_mod srcLen (8 * Cd) ltac:(lia)) as Hd. pose proof (Z.mod_pos_bound srcLen (8 * Cd) ltac:(lia)) as Hm.
  unfold prepare_full. cbv zeta. rewrite data_chunk_bytes. rewrite chunk_count by (done || lia).
  set (q0 := srcLen / (8 * Cd)) in *. assert (0 ≤ q0) by (apply Z.div_pos; lia).
  apply (for_loop_ind (λ q st, packed (q * Cd) st) 0 q0); [done|split; [apply written_0|apply summed_0]|].
  intros q st Hq Hst. replace ((q + 1) * Cd) with (q * Cd + Cd) by lia. change 0 with (8 * 0).
  apply (block_loop_ok (λ i st, packed (q * Cd + i) st)); [lia|by rewrite Z.add_0_r|]. intros i s Hi Hs.
  assert ((q + 1) * Cd ≤ SL) by nia. rewrite Z.add_assoc.
  replace (8 * C) with (8 * width q) at 1 by (rewrite full_width by (done || lia); done).
  replace (2 * d + _ + _ + _ + _) with (2 * at_block (q * Cd + i)) by (symmetry; apply data_address; (done || lia || nia)).
  apply (prepare_block_next _ q i); (done || lia || nia).
Qed.

(** The blocks of zeros of chunk [q], from block [i] to block [j] of it *)
Lemma zero_loop q i j m : 0 ≤ q → 0 ≤ i ≤ j → j ≤ Cd → q * Cd + j ≤ SL → W ≤ 4 * (q * Cd + i) → written d N C SL idx padded (q * Cd + i) m0 m →
  written d N C SL idx padded (q * Cd + j) m0
    (block_loop (8 * i) (8 * j) (λ pos, zero_block (2 * d + idx / 1 * (8 * width q) * 1 + idx mod 1 * 8 + 8 * C * N * q + pos * interleaving N idx 1)) m).
Proof.
  intros Hq Hi Hj Hlt HWi Hm. apply (block_loop_ok (λ x m, written d N C SL idx padded (q * Cd + x) m0 m)); [lia|done|]. intros x m' Hx Hm'.
  rewrite data_address by (done || lia). rewrite Z.add_assoc. apply zero_block_next; [done|nia|nia].
Qed.

(** The last chunk of the source, when it is not full *)
Lemma prepare_partial_ok st : packed (srcLen / (8 * Cd) * Cd) st →
  ∃ st' chunk, prepare_partial t (2 * d) src srcLen (8 * SL) N idx (8 * C) 1 st = Some (st', chunk) ∧
    0 ≤ chunk ∧ packed (Z.min (chunk * Cd) SL) st' ∧ W ≤ 4 * Z.min (chunk * Cd) SL.
Proof.
  intros Hst. destruct (data_chunk_pos C SL HC ltac:(lia)) as (Hc & Hc2 & _).
  pose proof (Z.div_mod srcLen (8 * Cd) ltac:(lia)) as Hd. pose proof (Z.mod_pos_bound srcLen (8 * Cd) ltac:(lia)) as Hm.
  unfold prepare_partial. cbv zeta. rewrite data_chunk_bytes. rewrite chunk_count by (done || lia). change gf16_lookup_stride with 8.
  set (q := srcLen / (8 * Cd)) in *. set (rem := srcLen mod (8 * Cd)) in *. assert (0 ≤ q) as Hq by (apply Z.div_pos; lia).
  destruct (Z.eqb_spec rem 0) as [E|Hne].
  { exists st, q. assert (Z.min (q * Cd) SL = q * Cd) as -> by nia. split_and!; [done|done|done|nia]. }
  set (F := rem / 8). set (e := rem mod 8 / 2). pose proof (Z.div_mod rem 8 ltac:(lia)) as HF. pose proof (Z.mod_pos_bound rem 8 ltac:(lia)) as HF8. fold F in HF.
  assert (rem mod 8 = 2 * e) as He by (unfold e, rem; Z.div_mod_to_equations; lia). rewrite He in *. replace (rem - 2 * e) with (8 * F) by lia.
  assert (0 ≤ F) by (apply Z.div_pos; lia). assert (0 ≤ e < 4) by lia. set (o := if 8 * F <? rem then 1 else 0).
  assert ((if 8 * F <? rem then 8 * F + 8 else 8 * F) = 8 * (F + o)) as -> by (unfold o; destruct (8 * F <? rem); lia).
  assert (o = if e =? 0 then 0 else 1) as Eo by (unfold o; destruct (Z.ltb_spec (8 * F) rem), (Z.eqb_spec e 0); lia).
  set (L := Z.min Cd (SL - q * Cd)).
  assert ((if 8 * SL / (8 * Cd) * (8 * Cd) <? srcLen then 8 * SL mod (8 * Cd) else 8 * Cd) = 8 * L) as ->.
  { unfold L. rewrite (end_data C SL HC ltac:(lia) q W) by nia. rewrite Z.div_mul_cancel_l, Z.mul_mod_distr_l by lia.
    destruct (Z.ltb_spec (SL / Cd * (8 * Cd)) srcLen), (Z.ltb_spec (4 * (SL / Cd * Cd)) W); lia. }
  assert ((if (8 * SL + 8) / (8 * C) * (8 * C) <? srcLen then (8 * SL + 8) mod (8 * C) else 8 * C) = 8 * width q) as ->.
  { rewrite (end_width C SL HC ltac:(lia) q W) by nia. replace (8 * SL + 8) with (8 * (SL + 1)) by lia. rewrite Z.div_mul_cancel_l, Z.mul_mod_distr_l by lia.
    destruct (Z.ltb_spec ((SL + 1) / C * (8 * C)) srcLen), (Z.ltb_spec (4 * ((SL + 1) / C * C)) W); lia. }
  assert (F + o ≤ L ∧ 0 ≤ o) as [HFo Ho] by (unfold L; rewrite Eo; destruct (Z.eqb_spec e 0); nia).
  set (st1 := block_loop 0 (8 * F) _ st).
  assert (packed (q * Cd + F) st1) as H1.
  { unfold st1. change 0 with (8 * 0) at 1. apply (block_loop_ok (λ i st, packed (q * Cd + i) st)); [done|by rewrite Z.add_0_r|]. intros i s Hi Hs.
    rewrite data_address by (done || lia). rewrite Z.add_assoc. apply (prepare_block_next _ q i); (done || lia || nia). }
  set (st2 := if 8 * F <? rem then _ else st1).
  assert (packed (q * Cd + (F + o)) st2) as H2.
  { unfold st2. unfold o in *. destruct (Z.ltb_spec (8 * F) rem); [|by rewrite Z.add_0_r].
    replace (8 * F) with (8 * F) by done. rewrite data_address by (done || lia). replace (rem - 8 * F) with (2 * e) by lia. rewrite Z.add_assoc.
    replace (8 * Cd * q + 8 * F) with (8 * (q * Cd + F)) by nia. apply prepare_blocku_next; [done|nia|lia|nia]. }
  assert (W ≤ 4 * (q * Cd + (F + o))) as HWo by (rewrite Eo; destruct (Z.eqb_spec e 0); nia).
  destruct (skip_zeros_ok t padded (q * Cd + (F + o)) (q * Cd + L) (snd st2) Ht ltac:(nia) (proj2 H2)) as (c & Ec & Hsum).
  { intros b k Hb Hk. unfold padded. by rewrite (proj2 (Z.ltb_ge _ _)) by lia. }
  replace (8 * L - 8 * (F + o)) with (8 * (q * Cd + L - (q * Cd + (F + o)))) by lia. rewrite Ec. cbn [mbind option_bind].
  eexists _, (q + 1). split; [reflexivity|]. assert (Z.min ((q + 1) * Cd) SL = q * Cd + L) as -> by (unfold L; nia).
  split_and!; [lia| |lia]. split; [|done]. cbn [fst]. apply zero_loop; [done|lia|unfold L; lia|unfold L; lia|done|]. apply H2.
Qed.

(** The chunks that no byte of the source reaches *)
Lemma prepare_rest_ok chunk st : 0 ≤ chunk → packed (Z.min (chunk * Cd) SL) st → W ≤ 4 * Z.min (chunk * Cd) SL →
  ∃ st', prepare_rest t (2 * d) (8 * SL) N idx (8 * C) 1 chunk st = Some st' ∧ packed SL st'.
Proof.
  intros Hch Hst HWn. destruct (data_chunk_pos C SL HC ltac:(lia)) as (Hc & Hc2 & _).
  unfold prepare_rest. cbv zeta. rewrite data_chunk_bytes. rewrite chunk_count by (done || lia). change gf16_lookup_stride with 8.
  destruct (Z.ltb_spec (chunk * (8 * Cd)) (8 * SL)) as [Hlt|Hge]; [|exists st; split; [done|by rewrite Z.min_r in Hst by nia]].
  rewrite Z.min_l in Hst, HWn by nia. destruct Hst as [Hw Hs].
  destruct (skip_zeros_ok t padded (chunk * Cd) SL (snd st) Ht ltac:(nia) Hs) as (c & Ec & Hsum).
  { intros b k Hb Hk. unfold padded. by rewrite (proj2 (Z.ltb_ge _ _)) by lia. }
  replace (8 * SL - chunk * (8 * Cd)) with (8 * (SL - chunk * Cd)) by lia. rewrite Ec. cbn [mbind option_bind].
  eexists. split; [reflexivity|]. split; [|done]. cbn [fst]. replace (8 * SL + 8) with (8 * (SL + 1)) by lia. rewrite Z.div_mul_cancel_l, !Z.mul_mod_distr_l by lia.
  pose proof (Z.div_mod SL Cd ltac:(lia)) as Hd. pose proof (Z.mod_pos_bound SL Cd ltac:(lia)) as Hm. set (s := SL / Cd) in *.
  set (m1 := for_loop chunk s _ (fst st)). assert (written d N C SL idx padded (s * Cd) m0 m1) as H1.
  { unfold m1. apply (for_loop_ind (λ q m, written d N C SL idx padded (q * Cd) m0 m)); [nia|done|]. intros q m Hq Hmq.
    replace ((q + 1) * Cd) with (q * Cd + Cd) by lia.
    pose proof (zero_loop q 0 Cd m ltac:(lia) ltac:(lia) ltac:(lia) ltac:(nia) ltac:(nia)) as Hz. rewrite full_width in Hz by (done || nia).
    apply Hz. by rewrite Z.add_0_r. }
  set (m2 := block_loop _ _ _ m1). cut (written d N C SL idx padded (s * Cd + SL mod Cd) m0 m2); [intros H2; by replace (s * Cd + SL mod Cd) with SL in H2 by lia|]. unfold m2.
  destruct (decide (SL mod Cd = 0)) as [E0|Hne].
  - rewrite E0, Z.add_0_r. done.
  - assert ((if 8 * ((SL + 1) mod C) =? 0 then 8 * C else 8 * ((SL + 1) mod C)) = 8 * width s) as ->.
    { rewrite (last_width C SL HC ltac:(lia) s) by nia. destruct (Z.eqb_spec ((SL + 1) mod C) 0) as [->|]; [done|]. by rewrite (proj2 (Z.eqb_neq _ _)) by lia. }
    apply (zero_loop s 0 (SL mod Cd)); [nia|lia|lia|lia|assert (chunk ≤ s) by nia; nia|by rewrite Z.add_0_r].
Qed.

(** The values of the blocks of a packed slice: the words, and the checksum at the end *)
Definition slice_value (b k : Z) : Z := if b <? SL then padded b k else horner (λ b, padded (Z.of_nat b) k) (Z.to_nat SL).

Lemma prepare_packed_ok : ∃ m', gf16_lookup_prepare_packed_cksum_generic t m0 (2 * d) src srcLen (8 * SL) N idx (8 * C) = Some m' ∧ written d N C SL idx slice_value (SL + 1) m0 m'.
Proof.
  unfold gf16_lookup_prepare_packed_cksum_generic, gf16_prepare_packed.
  destruct (prepare_partial_ok _ prepare_full_ok) as (st1 & chunk & -> & Hch & Hp & HWn). cbn [mbind option_bind].
  destruct (prepare_rest_ok chunk st1 Hch Hp HWn) as ([m2 c2] & -> & [Hw Hs]). cbn [mbind option_bind fst snd] in *.
  eexists. split; [reflexivity|]. change gf16_lookup_stride with 8. rewrite checksum_address by (done || lia).
  apply (written_next d N C SL idx HC Hidx slice_value SL m0 m2); [lia| |].
  - apply (written_ext d N C SL idx padded); [|done]. intros b k Hb _. unfold slice_value. by rewrite (proj2 (Z.ltb_lt _ _)) by lia.
  - intros a. rewrite checksum_prepare_word. case_decide; [|done]. unfold slice_value. rewrite Z.ltb_irrefl. apply Hs. lia.
Qed.
End Preparing.

(** ** Unpacking *)

Lemma aligned_length SL W : 4 * SL - 4 < W ≤ 4 * SL → 2 * W + 8 - 1 - (2 * W + 8 - 1) mod 8 = 8 * SL.
Proof. intros H. Z.div_mod_to_equations. lia. Qed.

Section Finishing.
Context (t : gfmat_tables) (s N C SL idx : Z) (m : array) (W : Z).
Hypothesis Ht : exp_table (gf_exp t).
Hypothesis HC : 0 < C ≤ SL + 1.
Hypothesis HSL : 0 < SL < 2 ^ 32.
Hypothesis Hidx : 0 ≤ idx < N.
Hypothesis HW : 4 * SL - 4 < W ≤ 4 * SL.

Abbreviation Cd := (data_chunk C SL).
Abbreviation width q := (Z.min C (SL + 1 - C * q)).
Abbreviation at_block := (block_at s N C SL idx).

(** The words of the slice as they are packed, and as the check sees them *)
Definition packed_word (b k : Z) : Z := word m (at_block b + k).
Definition seen (b k : Z) : Z := if 4 * b + k <? W then packed_word b k else 0.

Context (r : Z → Z).

(** The first [n] blocks are taken out; the checksum started as [r]. *)
Record unpacked (n : Z) (st : packing) : Prop := {
  un_words : ∀ b k, 0 ≤ b < n → 0 ≤ k < 4 → 4 * b + k < W → word (fst st) (4 * b + k) = packed_word b k;
  un_range : u64 (snd st);
  un_sum : ∀ k, 0 ≤ k < 4 → slice16 (snd st) k = foldl (λ v b, T16 v ⊕ seen (Z.of_nat b) k) (r k) (seq 0 (Z.to_nat n));
}.

Lemma unpacked_next n e st dst' : unpacked n st → 0 ≤ n → 0 < e ≤ 4 → (e = 4 ∨ W = 4 * n + e) → 4 * n + e ≤ W →
  (∀ a, word dst' a = if decide (4 * n ≤ a < 4 * n + e) then word m (at_block n + (a - 4 * n)) else word (fst st) a) →
  unpacked (n + 1) (dst', gf16_checksum_blocku_generic dst' (2 * (4 * n)) (2 * e) (snd st)).
Proof.
  intros [H1 H2 H3] Hn He HeW HnW Hd. split; cbn [fst snd].
  - intros b k Hb Hk Hlt. rewrite Hd. destruct (decide (b = n)) as [->|Hne].
    + rewrite decide_True by lia. unfold packed_word. f_equal. lia.
    + rewrite decide_False by lia. apply H1; lia.
  - apply gf16_checksum_blocku_range. lia.
  - intros k Hk. rewrite gf16_checksum_blocku_slice, H3 by lia. replace (Z.to_nat (n + 1)) with (S (Z.to_nat n)) by lia.
    rewrite seq_S, foldl_app. cbn [foldl Nat.add]. f_equal. rewrite Z2Nat.id by lia. unfold seen. destruct (Z.ltb_spec k e).
    + rewrite Hd, decide_True, (proj2 (Z.ltb_lt _ _)) by lia. unfold packed_word. f_equal. lia.
    + by rewrite (proj2 (Z.ltb_ge _ _)) by lia.
Qed.

Lemma finish_block_next n st : unpacked n st → 0 ≤ n → 4 * n + 4 ≤ W → unpacked (n + 1) (finish_block m (8 * n) (2 * at_block n) st).
Proof.
  intros Hst Hn HnW. unfold finish_block, gf16_checksum_block_generic. change gf16_lookup_stride with (2 * 4). replace (8 * n) with (2 * (4 * n)) by lia.
  apply (unpacked_next n 4 st); [done|done|lia|by left|lia|]. intros a. apply copy_block_word.
Qed.

Lemma finish_blocku_next n e st : unpacked n st → 0 ≤ n → 0 < e ≤ 4 → W = 4 * n + e → unpacked (n + 1) (finish_blocku m (8 * n) (2 * at_block n) (2 * e) st).
Proof.
  intros Hst Hn He HnW. unfold finish_blocku. replace (8 * n) with (2 * (4 * n)) by lia.
  apply (unpacked_next n e st); [done|done|lia|by right|lia|]. intros a. apply (copy_bytes_word _ (4 * n)). lia.
Qed.

(** Full blocks of chunk [q] *)
Lemma finish_loop q j st : 0 ≤ q → 0 ≤ j ≤ Cd → 4 * (q * Cd + j) ≤ W → unpacked (q * Cd) st →
  unpacked (q * Cd + j) (block_loop 0 (8 * j) (λ pos, finish_block m (8 * Cd * q + pos) (2 * s + idx / 1 * (8 * width q) * 1 + idx mod 1 * 8 + 8 * C * N * q + pos * interleaving N idx 1)) st).
Proof.
  intros Hq Hj Hlt Hst. change 0 with (8 * 0) at 1. apply (block_loop_ok (λ i st, unpacked (q * Cd + i) st)); [lia|by rewrite Z.add_0_r|]. intros i st' Hi Hst'.
  rewrite data_address by (done || lia || nia). rewrite Z.add_assoc. replace (8 * Cd * q + 8 * i) with (8 * (q * Cd + i)) by nia.
  apply finish_block_next; [done|nia|nia].
Qed.

Lemma finish_full_ok st : unpacked 0 st →
  let q := SL / Cd in
  ∃ st' rem, finish_full m (2 * s) (2 * W) N idx (8 * C) 1 (st, wrap 64 (2 * W - wrap 32 (8 * SL / (8 * Cd)) * (8 * Cd))) = (st', rem) ∧
    (rem = 0 ∧ q * Cd = SL ∨ rem = 2 * W - q * Cd * 8 ∧ 0 < rem ∧ q * Cd < SL) ∧ unpacked (q * Cd) st'.
Proof.
  intros Hst q. destruct (data_chunk_pos C SL HC ltac:(lia)) as (Hc & Hc2 & _). pose proof (Z.div_mod SL Cd ltac:(lia)) as Hd. pose proof (Z.mod_pos_bound SL Cd ltac:(lia)) as Hm. fold q in Hd.
  assert (0 ≤ q) by nia. unfold finish_full. cbv zeta. change gf16_lookup_stride with 8. rewrite (aligned_length SL W HW), data_chunk_bytes, !chunk_count by (done || lia). rewrite Z.div_mul_cancel_l by lia. fold q.
  set (R := wrap 64 (2 * W - q * (8 * Cd))).
  match goal with |- context [for_loop 0 q ?body _] => pose proof (for_loop_ind (λ x p, unpacked (x * Cd) (fst p) ∧ snd p = if 2 * W <? 8 * Cd * x then 0 else R) 0 q body (st, R)) as Hl end.
  destruct Hl as [H1 H2]; [done|split; [by rewrite Z.mul_0_l|]; cbn [snd]; rewrite (proj2 (Z.ltb_ge _ _)) by lia; done| |].
  - intros x [st1 rem1] Hx [Hs Hr1]. cbn [fst snd] in *. assert ((x + 1) * Cd ≤ SL) by nia.
    replace ((x + 1) * Cd) with (x * Cd + Cd) by lia.
    destruct (Z.ltb_spec (2 * W) (8 * Cd * (x + 1))) as [Hlt|Hge]; cbn [fst snd]; (split; [|first [done|rewrite Hr1; by rewrite (proj2 (Z.ltb_ge _ _)) by nia]]).
    + assert (x * Cd + Cd = SL) as Ex by nia. replace (8 * Cd - 8) with (8 * (Cd - 1)) by lia.
      pose proof (finish_loop x (Cd - 1) st1 ltac:(lia) ltac:(lia) ltac:(nia) Hs) as Hf. pose proof (data_address s N C SL idx HC HSL Hidx x (Cd - 1) ltac:(lia) ltac:(lia) ltac:(lia)) as Ha.
      rewrite full_width in Hf, Ha by (done || lia). rewrite Ha. replace (8 * Cd * x + 8 * (Cd - 1)) with (8 * (x * Cd + (Cd - 1))) by nia.
      replace (2 * W - 8 * Cd * x - 8 * (Cd - 1)) with (2 * (W - 4 * (SL - 1))) by nia. replace (x * Cd + Cd) with (x * Cd + (Cd - 1) + 1) by lia.
      apply finish_blocku_next; [done|nia|lia|nia].
    + pose proof (finish_loop x Cd st1 ltac:(lia) ltac:(lia) ltac:(nia) Hs) as Hf. rewrite full_width in Hf by (done || lia). exact Hf.
  - destruct (for_loop _ _ _ _) as [st' rem]. cbn [fst snd] in *. exists st', rem. split; [done|]. split; [|done].
    assert (2 * W < 2 ^ 36) by (change (2 ^ 36) with (16 * 2 ^ 32); lia). subst rem. destruct (Z.ltb_spec (2 * W) (8 * Cd * q)); [left; split; [done|nia]|].
    unfold R. rewrite wrap_small by (split; [nia|]; apply Z.lt_trans with (2 ^ 36); [nia|reflexivity]). destruct (decide (q * Cd = SL)); [left; split; [nia|done]|right; split_and!; nia].
Qed.

Lemma finish_last_ok st rem : let q := SL / Cd in
  (rem = 0 ∧ q * Cd = SL ∨ rem = 2 * W - q * Cd * 8 ∧ 0 < rem ∧ q * Cd < SL) → unpacked (q * Cd) st →
  unpacked SL (finish_last m (2 * s) (2 * W) N idx (8 * C) 1 st rem).
Proof.
  intros q Hrem Hst. destruct (data_chunk_pos C SL HC ltac:(lia)) as (Hc & Hc2 & _). pose proof (Z.div_mod SL Cd ltac:(lia)) as Hd. pose proof (Z.mod_pos_bound SL Cd ltac:(lia)) as Hm. fold q in Hd.
  assert (0 ≤ q) by nia. unfold finish_last. cbv zeta. change gf16_lookup_stride with 8. rewrite (aligned_length SL W HW), data_chunk_bytes, !chunk_count by (done || lia). rewrite Z.div_mul_cancel_l by lia. fold q.
  destruct Hrem as [[-> E]|(Erem & Hpos & Hlt)]; [change (0 =? 0) with true; cbv iota; by rewrite <- E|]. rewrite (proj2 (Z.eqb_neq _ _)) by lia.
  replace (8 * SL + 8) with (8 * (SL + 1)) by lia. rewrite Z.mul_mod_distr_l by lia.
  assert ((if 8 * ((SL + 1) mod C) =? 0 then 8 * C else 8 * ((SL + 1) mod C)) = 8 * width q) as ->.
  { rewrite (last_width C SL HC ltac:(lia) q) by nia. destruct (Z.eqb_spec ((SL + 1) mod C) 0) as [->|]; [done|]. by rewrite (proj2 (Z.eqb_neq _ _)) by lia. }
  set (F := rem / 8). pose proof (Z.div_mod rem 8 ltac:(lia)) as HF. pose proof (Z.mod_pos_bound rem 8 ltac:(lia)) as HF8. fold F in HF.
  assert (0 ≤ F) by (apply Z.div_pos; lia). replace (rem - rem mod 8) with (8 * F) by lia.
  pose proof (finish_loop q F st ltac:(lia) ltac:(nia) ltac:(nia) Hst) as H1. destruct (Z.ltb_spec (8 * F) rem) as [Hl|Hl].
  - assert (SL = q * Cd + F + 1) as E by lia. rewrite data_address by (done || lia). replace (8 * Cd * q + 8 * F) with (8 * (q * Cd + F)) by nia.
    replace (rem - 8 * F) with (2 * (W - 4 * (q * Cd + F))) by lia. rewrite E at 1. apply finish_blocku_next; [done|nia|lia|lia].
  - assert (SL = q * Cd + F) as E by lia. by rewrite E at 1.
Qed.
End Finishing.

Lemma rewind_ok SL c : 0 ≤ SL → u16 c → Nat.iter (Z.to_nat SL) T16 (mul16 (x16 (65535 - SL mod 65535)) c) = c.
Proof.
  intros HSL Hc. pose proof (Z.mod_pos_bound SL 65535 ltac:(lia)). rewrite <- x16_mul by apply (gf_mul_range 16 poly16). rewrite Z2Nat.id by lia.
  rewrite (gf_mul_assoc 16 poly16), x16_add by lia. rewrite x16_mod by lia.
  replace (SL + (65535 - SL mod 65535)) with ((SL / 65535 + 1) * 65535) by (pose proof (Z.div_mod SL 65535 ltac:(lia)); lia).
  rewrite Z_mod_mult. change (x16 0) with 1. by apply (gf_mul_1_l 16 poly16).
Qed.

(** Unpacking takes the words out, and accepts the checksum exactly when it is that of the words. *)
Lemma finish_packed_ok t s N C SL idx m W out0 : exp_table (gf_exp t) → 0 < C ≤ SL + 1 → 0 < SL < 2 ^ 32 → 0 ≤ idx < N → 4 * SL - 4 < W ≤ 4 * SL →
  ∃ ok out, gf16_lookup_finish_packed_cksum_generic t out0 m (2 * s) (2 * W) N idx (8 * C) = Some (ok, out) ∧
    (ok = true ↔ ∀ k, 0 ≤ k < 4 → packed_word s N C SL idx m SL k = horner (λ b, seen s N C SL idx m W (Z.of_nat b) k) (Z.to_nat SL)) ∧
    (∀ b k, 0 ≤ k < 4 → 0 ≤ 4 * b + k < W → word out (4 * b + k) = packed_word s N C SL idx m b k).
Proof.
  intros Ht HC HSL Hidx HW. unfold gf16_lookup_finish_packed_cksum_generic, gf16_finish_packed, stored_checksum. change gf16_lookup_stride with 8. cbv zeta.
  rewrite (aligned_length SL W HW). rewrite checksum_address by (done || lia). rewrite (Z.mul_comm 8 SL), Z.div_mul, (Z.mul_comm SL 8) by lia.
  rewrite gf16_exp_ok by (done || pose proof (Z.mod_pos_bound SL 65535); lia). cbn [mbind option_bind]. set (c := gf16_checksum_exp_generic _ _).
  assert (u64 (read64 m (2 * block_at s N C SL idx SL))) as Hr by (rewrite read64_part; apply read_part_range; lia).
  assert (u16 (x16 (65535 - SL mod 65535))) as Hx by apply x16_range.
  assert (∀ k, 0 ≤ k < 4 → slice16 c k = mul16 (x16 (65535 - SL mod 65535)) (packed_word s N C SL idx m SL k)) as Hc.
  { intros k Hk. unfold c. rewrite gf16_checksum_exp_slice by done. by rewrite read64_word. }
  assert (unpacked s N C SL idx m W (λ k, slice16 c k) 0 (out0, c)) as H0 by (split; [lia|by apply gf16_checksum_exp_range|done]).
  rewrite data_chunk_bytes.
  destruct (finish_full_ok s N C SL idx m W HC HSL Hidx HW (λ k, slice16 c k) (out0, c) H0) as (st' & rem & -> & Hrem & Hst').
  pose proof (finish_last_ok s N C SL idx m W HC HSL Hidx HW (λ k, slice16 c k) st' rem Hrem Hst') as [H1 H2 H3].
  destruct (finish_last _ _ _ _ _ _ _ st' rem) as [out c']. cbn [fst snd] in *. eexists _, out. split; [reflexivity|]. split.
  - rewrite Z.eqb_eq. assert (∀ k, 0 ≤ k < 4 → slice16 c' k = packed_word s N C SL idx m SL k ⊕ horner (λ b, seen s N C SL idx m W (Z.of_nat b) k) (Z.to_nat SL)) as H4.
    { intros k Hk. rewrite H3, horner_from, Hc, rewind_ok by (done || lia || apply word_range). done. }
    split.
    + intros -> k Hk. specialize (H4 k Hk). rewrite slice16_0 in H4. by apply Z.lxor_eq.
    + intros He. apply lanes_ext; [done|apply in_range_0; lia|]. intros k Hk. rewrite H4, He, slice16_0 by done. apply Z.lxor_nilpotent.
  - intros b k Hk Hlt. apply H1; lia.
Qed.

(** ** The round trip *)

Lemma packed_roundtrip_ok t d N C SL idx src W m0 out0 : exp_table (gf_exp t) → 0 < C ≤ SL + 1 → 0 < SL < 2 ^ 32 → 0 ≤ idx < N → 4 * SL - 4 < W ≤ 4 * SL →
  ∃ m out, gf16_lookup_prepare_packed_cksum_generic t m0 (2 * d) src (2 * W) (8 * SL) N idx (8 * C) = Some m ∧
    (∀ idx' b k, 0 ≤ idx' < N → idx' ≠ idx → 0 ≤ b ≤ SL → 0 ≤ k < 4 → word m (block_at d N C SL idx' b + k) = word m0 (block_at d N C SL idx' b + k)) ∧
    gf16_lookup_finish_packed_cksum_generic t out0 m (2 * d) (2 * W) N idx (8 * C) = Some (true, out) ∧
    ∀ w, 0 ≤ w < W → word out w = word src w.
Proof.
  intros Ht HC HSL Hidx HW. destruct (prepare_packed_ok t d N C SL idx src W m0 Ht HC HSL Hidx ltac:(lia)) as (m & Em & [Hin Hout]).
  destruct (finish_packed_ok t d N C SL idx m W out0 Ht HC HSL Hidx HW) as (ok & out & Ef & Hok & Hw). exists m, out. split; [done|]. split_and!.
  - intros idx' b k Hidx' Hne Hb Hk. apply Hout. intros b' k' Hb' Hk' E. unfold block_at in E.
    assert (packed_block N C (SL + 1) idx' b = packed_block N C (SL + 1) idx b') as [? _]%packed_block_inj by lia; [done|lia..].
  - rewrite Ef. do 2 f_equal. apply Hok. intros k Hk. unfold packed_word at 1. rewrite Hin by lia. unfold slice_value. rewrite Z.ltb_irrefl.
    apply horner_ext. intros b Hb. unfold seen, packed_word, padded. destruct (_ <? _) eqn:E; [|done]. rewrite Hin by lia. unfold slice_value, padded. by rewrite (proj2 (Z.ltb_lt _ _)), E by lia.
  - intros w Hwr. pose proof (Z.div_mod w 4 ltac:(lia)) as E. pose proof (Z.mod_pos_bound w 4 ltac:(lia)). rewrite E, Hw by lia. unfold packed_word. rewrite Hin by lia.
    unfold slice_value, padded. by rewrite (proj2 (Z.ltb_lt _ SL)), (proj2 (Z.ltb_lt _ W)) by lia.
Qed.

(** C9: A slice that is packed among the others of a batch comes back: [gf16_finish_packed] after [gf16_prepare_packed] gives the words of
    the slice and accepts its checksum, whatever the sizes of the chunks, and packing changes no block of another slice of the batch. *)
Theorem packed_slice_roundtrip d N C SL idx src W m0 out0 : 0 < C ≤ SL + 1 → 0 < SL < 2 ^ 32 → 0 ≤ idx < N → 4 * SL - 4 < W ≤ 4 * SL →
  ∃ t m out, gfmat_init = Some t ∧ gf16_lookup_prepare_packed_cksum_generic t m0 (2 * d) src (2 * W) (8 * SL) N idx (8 * C) = Some m ∧
    (∀ idx' b k, 0 ≤ idx' < N → idx' ≠ idx → 0 ≤ b ≤ SL → 0 ≤ k < 4 → word m (block_at d N C SL idx' b + k) = word m0 (block_at d N C SL idx' b + k)) ∧
    gf16_lookup_finish_packed_cksum_generic t out0 m (2 * d) (2 * W) N idx (8 * C) = Some (true, out) ∧
    ∀ w, 0 ≤ w < W → word out w = word src w.
Proof.
  intros HC HSL Hidx HW. destruct gfmat_init_ok as (t & Et & Ht). exists t.
  destruct (packed_roundtrip_ok t d N C SL idx src W m0 out0 (tables_exp t Ht) HC HSL Hidx HW) as (m & out & H). exists m, out. split; [exact Et|exact H].
Qed.

Lemma packed_slice_roundtrip_witness : ∃ t m out, gfmat_init = Some t ∧
  gf16_lookup_prepare_packed_cksum_generic t ∅ 0 (<[3 := 7]> ∅) 10 16 3 1 16 = Some m ∧ gf16_lookup_finish_packed_cksum_generic t ∅ m 0 10 3 1 16 = Some (true, out) ∧ word out 1 = 1792.
Proof.
  destruct (packed_slice_roundtrip 0 3 2 2 1 (<[3 := 7]> ∅) 5 ∅ ∅) as (t & m & out & H1 & H2 & _ & H3 & H4); [lia|split; [lia|reflexivity]|lia|lia|].
  exists t, m, out. split; [exact H1|]. split; [exact H2|]. split; [exact H3|]. rewrite H4; [vm_compute; reflexivity|lia].
Defined.
