(* ===== verification/BackendCpu.v ===== *)
(** * BackendCpu.v: the processing backend, parpar/gf16/controller_cpu.cpp

    [PAR2ProcCPU] collects inputs in staging areas, in batches; a transfer thread packs them, and
    when a batch is complete it cuts the work into requests for the worker threads, which multiply
    and add into the output slices.  The state of the class is a record, the memory it allocates
    an array of bytes; [ALIGN_ALLOC] gives out the areas one after the other.  The method is
    [GF16_LOOKUP] of the 64-bit little-endian build, without libuv. *)

From S2P Require Import Prelude LinOp GF GfCoeff GfLookup GfChecksum GfPacked.

(** ** Data *)

(** [PAR2ProcCPUStaging] *)
Record PAR2ProcCPUStaging := {
  src : option Z;
  procCoeffs : list Z;
  procRefs : Z;
  isActive : bool;
}.

(** [PAR2ProcCPU], with the fields of [IPAR2ProcBackend] *)
Record PAR2ProcCPU := {
  sliceSize : Z;
  alignedSliceSize : Z;
  currentSliceSize : Z;
  alignedCurrentSliceSize : Z;
  numThreads : Z;
  chunkLen : Z;
  numChunks : Z;
  staging : list PAR2ProcCPUStaging;
  memProcessing : option Z;
  outputExponents : list Z;
  processingAdd : bool;
  currentStagingArea : nat;
  currentStagingInputs : Z;
  inputBatchSize : Z;
  minInBatchSize : Z;
  stagingActiveCount : Z;
}.

(** [transfer_data]: an input to prepare, with a buffer or as a signal to flush, or an output to finish *)
Inductive transfer_data :=
  | Prepare (buffer : option array) (size dst dstLen numBufs index chunkLen submitInBufs : Z) (inBufId : nat)
  | Finish (src size numBufs index chunkLen : Z).

(** [compute_req]; the coefficients are a place in those of the staging area, [outNonZero] in the exponents. *)
Record compute_req := {
  numInputs : Z;
  procIdx : nat;
  inputGrouping : Z;
  numOutputs : Z;
  outNonZero : Z;
  coeffs : Z;
  req_len : Z;
  chunkSize : Z;
  req_numChunks : Z;
  input : Z;
  output : Z;
  add : bool;
}.

(** ** Updates of fields *)

Definition set_src (p : option Z) (a : PAR2ProcCPUStaging) : PAR2ProcCPUStaging := {| src := p; procCoeffs := procCoeffs a; procRefs := procRefs a; isActive := isActive a |}.
Definition set_procCoeffs (l : list Z) (a : PAR2ProcCPUStaging) : PAR2ProcCPUStaging := {| src := src a; procCoeffs := l; procRefs := procRefs a; isActive := isActive a |}.
Definition set_procRefs (n : Z) (a : PAR2ProcCPUStaging) : PAR2ProcCPUStaging := {| src := src a; procCoeffs := procCoeffs a; procRefs := n; isActive := isActive a |}.
(** [setIsActive] *)
Definition setIsActive (v : bool) (a : PAR2ProcCPUStaging) : PAR2ProcCPUStaging := {| src := src a; procCoeffs := procCoeffs a; procRefs := procRefs a; isActive := v |}.

Definition set_staging (l : list PAR2ProcCPUStaging) (c : PAR2ProcCPU) : PAR2ProcCPU :=
  {| sliceSize := sliceSize c; alignedSliceSize := alignedSliceSize c; currentSliceSize := currentSliceSize c; alignedCurrentSliceSize := alignedCurrentSliceSize c;
     numThreads := numThreads c; chunkLen := chunkLen c; numChunks := numChunks c; staging := l; memProcessing := memProcessing c; outputExponents := outputExponents c;
     processingAdd := processingAdd c; currentStagingArea := currentStagingArea c; currentStagingInputs := currentStagingInputs c; inputBatchSize := inputBatchSize c;
     minInBatchSize := minInBatchSize c; stagingActiveCount := stagingActiveCount c |}.
Definition set_area (i : nat) (f : PAR2ProcCPUStaging → PAR2ProcCPUStaging) (c : PAR2ProcCPU) : PAR2ProcCPU := set_staging (alter f i (staging c)) c.
Definition set_processingAdd (b : bool) (c : PAR2ProcCPU) : PAR2ProcCPU :=
  {| sliceSize := sliceSize c; alignedSliceSize := alignedSliceSize c; currentSliceSize := currentSliceSize c; alignedCurrentSliceSize := alignedCurrentSliceSize c;
     numThreads := numThreads c; chunkLen := chunkLen c; numChunks := numChunks c; staging := staging c; memProcessing := memProcessing c; outputExponents := outputExponents c;
     processingAdd := b; currentStagingArea := currentStagingArea c; currentStagingInputs := currentStagingInputs c; inputBatchSize := inputBatchSize c;
     minInBatchSize := minInBatchSize c; stagingActiveCount := stagingActiveCount c |}.
Definition set_position (a : nat) (n : Z) (c : PAR2ProcCPU) : PAR2ProcCPU :=
  {| sliceSize := sliceSize c; alignedSliceSize := alignedSliceSize c; currentSliceSize := currentSliceSize c; alignedCurrentSliceSize := alignedCurrentSliceSize c;
     numThreads := numThreads c; chunkLen := chunkLen c; numChunks := numChunks c; staging := staging c; memProcessing := memProcessing c; outputExponents := outputExponents c;
     processingAdd := processingAdd c; currentStagingArea := a; currentStagingInputs := n; inputBatchSize := inputBatchSize c;
     minInBatchSize := minInBatchSize c; stagingActiveCount := stagingActiveCount c |}.
Definition set_activeCount (n : Z) (c : PAR2ProcCPU) : PAR2ProcCPU :=
  {| sliceSize := sliceSize c; alignedSliceSize := alignedSliceSize c; currentSliceSize := currentSliceSize c; alignedCurrentSliceSize := alignedCurrentSliceSize c;
     numThreads := numThreads c; chunkLen := chunkLen c; numChunks := numChunks c; staging := staging c; memProcessing := memProcessing c; outputExponents := outputExponents c;
     processingAdd := processingAdd c; currentStagingArea := currentStagingArea c; currentStagingInputs := currentStagingInputs c; inputBatchSize := inputBatchSize c;
     minInBatchSize := minInBatchSize c; stagingActiveCount := n |}.

(** ** Sizes *)

Definition stride : Z := gf16_lookup_stride.

(** [Galois16Mul::alignToStride] *)
Definition alignToStride (len : Z) : Z := let alignMask := stride - 1 in Z.land (wrap 64 (len + alignMask)) (wrap 64 (Z.lnot alignMask)).

Definition CEIL_DIV (a b : Z) : Z := (a + b - 1) / b.
Definition ROUND_DIV (a b : Z) : Z := (a + Z.shiftr b 1) / b.

(** [idealChunkSize] of [GF16_LOOKUP]; its [idealInputMultiple] is 1. *)
Definition idealChunkSize : Z := 32 * 1024.
Definition idealInputMultiple : Z := 1.

(** [calcChunkSize]: the length and the number of the chunks *)
Definition calcChunkSize (alignedCurrentSliceSize numThreads chunkLen : Z) : Z * Z :=
  let targetThreadChunk := CEIL_DIV alignedCurrentSliceSize numThreads in
  let numChunks :=
    if targetThreadChunk <=? chunkLen / 2 then
      let numChunks := ROUND_DIV alignedCurrentSliceSize chunkLen in
      if numChunks <? 1 then 1 else numChunks
    else
      let numChunks := ROUND_DIV targetThreadChunk chunkLen in
      (if numChunks <? 1 then 1 else numChunks) * numThreads in
  let chunkLen := alignToStride (CEIL_DIV alignedCurrentSliceSize numChunks) in
  (chunkLen, CEIL_DIV alignedCurrentSliceSize chunkLen).

(** ** Initialisation *)

(** [reallocMemInput]: area [i] is the [i]-th block of [inputBatchSize * alignedSliceSize] bytes. *)
Definition reallocMemInput (c : PAR2ProcCPU) : PAR2ProcCPU :=
  set_staging (imap (λ i a, set_src (Some (Z.of_nat i * (inputBatchSize c * alignedSliceSize c))) a) (staging c)) c.

(** The outputs come after the areas. *)
Definition alloc_outputs (c : PAR2ProcCPU) : Z := Z.of_nat (length (staging c)) * (inputBatchSize c * alignedSliceSize c).

Definition set_slice (slice aligned : Z) (mp : option Z) (c : PAR2ProcCPU) : PAR2ProcCPU :=
  {| sliceSize := slice; alignedSliceSize := aligned; currentSliceSize := currentSliceSize c; alignedCurrentSliceSize := alignedCurrentSliceSize c;
     numThreads := numThreads c; chunkLen := chunkLen c; numChunks := numChunks c; staging := staging c; memProcessing := mp; outputExponents := outputExponents c;
     processingAdd := processingAdd c; currentStagingArea := currentStagingArea c; currentStagingInputs := currentStagingInputs c; inputBatchSize := inputBatchSize c;
     minInBatchSize := minInBatchSize c; stagingActiveCount := stagingActiveCount c |}.

Definition set_current (slice aligned chunk chunks : Z) (c : PAR2ProcCPU) : PAR2ProcCPU :=
  {| sliceSize := sliceSize c; alignedSliceSize := alignedSliceSize c; currentSliceSize := slice; alignedCurrentSliceSize := aligned;
     numThreads := numThreads c; chunkLen := chunk; numChunks := chunks; staging := staging c; memProcessing := memProcessing c; outputExponents := outputExponents c;
     processingAdd := processingAdd c; currentStagingArea := currentStagingArea c; currentStagingInputs := currentStagingInputs c; inputBatchSize := inputBatchSize c;
     minInBatchSize := minInBatchSize c; stagingActiveCount := stagingActiveCount c |}.

(** [setCurrentSliceSize]; a size above the slice size allocates again. *)
Definition setCurrentSliceSize (newSliceSize : Z) (c : PAR2ProcCPU) : PAR2ProcCPU :=
  let aligned := alignToStride newSliceSize + stride in
  let c :=
    if sliceSize c <? newSliceSize then
      let c := reallocMemInput (set_slice newSliceSize aligned (memProcessing c) c) in
      match memProcessing c, outputExponents c with
      | None, _ => c
      | Some _, [] => set_slice newSliceSize aligned None c
      | Some _, _ => set_slice newSliceSize aligned (Some (alloc_outputs c)) c
      end
    else c in
  let '(chunkLen, numChunks) := calcChunkSize aligned (numThreads c) (chunkLen c) in
  set_current newSliceSize aligned chunkLen numChunks c.

(** [init] with [GF16_LOOKUP], after [setSliceSize] and [setNumThreads], with [stagingAreas] areas *)
Definition init (slice threads inputGrouping : Z) (stagingAreas : nat) : PAR2ProcCPU :=
  let batch := if inputGrouping =? 0 then
                 let b := 12 + idealInputMultiple / 2 in
                 let b := b - b mod idealInputMultiple in
                 if b <? idealInputMultiple then idealInputMultiple else b
               else inputGrouping in
  setCurrentSliceSize slice (reallocMemInput
    {| sliceSize := slice; alignedSliceSize := alignToStride slice + stride; currentSliceSize := 0; alignedCurrentSliceSize := 0;
       numThreads := threads; chunkLen := idealChunkSize; numChunks := 0;
       staging := replicate stagingAreas {| src := None; procCoeffs := []; procRefs := 0; isActive := false |};
       memProcessing := None; outputExponents := []; processingAdd := false; currentStagingArea := 0; currentStagingInputs := 0;
       inputBatchSize := batch; minInBatchSize := batch; stagingActiveCount := 0 |}).

(** [setRecoverySlices]; without exponents they are all 1. *)
Definition resize (n : nat) (l : list Z) : list Z := take n l ++ replicate (n - length l) 0.

Definition setRecoverySlices (numSlices : nat) (exponents : option (list Z)) (c : PAR2ProcCPU) : PAR2ProcCPU :=
  let exps := match exponents with Some l => take numSlices l | None => replicate numSlices 1 end in
  let areas := match numSlices with O => staging c | _ => (λ a, set_procCoeffs (resize (numSlices * Z.to_nat (inputBatchSize c)) (procCoeffs a)) a) <$> staging c end in
  let mp := match numSlices, memProcessing c with
            | O, p => p
            | _, Some p => Some p
            | _, None => Some (alloc_outputs c)
            end in
  {| sliceSize := sliceSize c; alignedSliceSize := alignedSliceSize c; currentSliceSize := currentSliceSize c; alignedCurrentSliceSize := alignedCurrentSliceSize c;
     numThreads := numThreads c; chunkLen := chunkLen c; numChunks := numChunks c; staging := areas; memProcessing := mp; outputExponents := exps;
     processingAdd := processingAdd c; currentStagingArea := currentStagingArea c; currentStagingInputs := currentStagingInputs c; inputBatchSize := inputBatchSize c;
     minInBatchSize := minInBatchSize c; stagingActiveCount := stagingActiveCount c |}.

(** [discardOutput], [processing_finished] *)
Definition discardOutput : PAR2ProcCPU → PAR2ProcCPU := set_processingAdd false.
Definition processing_finished (c : PAR2ProcCPU) : PAR2ProcCPU := set_staging (set_src None <$> staging c) c.

(** ** Adding inputs *)

Section Operations.
Context (t : gfmat_tables).

(** [set_coeffs]: with the coefficients of the input, or with its number *)
Definition put_coeffs (c : PAR2ProcCPU) (area : nat) (idx : Z) (value : Z → option Z) : option PAR2ProcCPU :=
  a ← staging c !! area;
  l ← for_loopM 0 (Z.of_nat (length (outputExponents c))) (λ out l,
        v ← value out;
        let i := Z.to_nat (idx + out * inputBatchSize c) in
        if decide (i < length l)%nat then Some (<[i := v]> l) else None) (procCoeffs a);
  Some (set_area area (set_procCoeffs l) c).

Definition set_coeffs (c : PAR2ProcCPU) (area : nat) (idx : Z) (inputCoeffs : list Z) : option PAR2ProcCPU :=
  put_coeffs c area idx (λ out, inputCoeffs !! Z.to_nat out).

Definition set_coeffs_num (c : PAR2ProcCPU) (area : nat) (idx inputNum : Z) : option PAR2ProcCPU :=
  inputLog ← gfmat_input_log t inputNum;
  put_coeffs c area idx (λ out, e ← outputExponents c !! Z.to_nat out; gfmat_coeff_from_log t inputLog e).

(** The submission of a batch: the area is locked, the next one is current. *)
Definition submit (c : PAR2ProcCPU) : PAR2ProcCPU :=
  let area := currentStagingArea c in
  let c := set_area area (setIsActive true) (set_activeCount (stagingActiveCount c + 1) c) in
  let next := S area in
  set_position (if decide (next = length (staging c)) then O else next) 0 c.

(** [_addInput], given how the coefficients are set; an area that is active is an error. *)
Definition _addInput (c : PAR2ProcCPU) (buffer : array) (size : Z) (set : PAR2ProcCPU → nat → Z → option PAR2ProcCPU) (flush : bool) : option (PAR2ProcCPU * transfer_data) :=
  let area := currentStagingArea c in
  a ← staging c !! area;
  if isActive a then None else
  first ← head (staging c);
  let c := match src first with None => reallocMemInput c | Some _ => c end in
  c ← set c area (currentStagingInputs c);
  a ← staging c !! area;
  dst ← src a;
  let index := currentStagingInputs c in
  let inputs := index + 1 in
  let early := (stagingActiveCount c =? 0) && bool_decide (1 < length (staging c))%nat && (minInBatchSize c <=? inputs) in
  let submitInBufs := if flush || (inputs =? inputBatchSize c) || early then inputs else 0 in
  let data := Prepare (Some buffer) size dst (alignedCurrentSliceSize c - stride) (inputBatchSize c) index (chunkLen c) submitInBufs area in
  let c := set_position area inputs c in
  Some (if submitInBufs =? 0 then c else submit c, data).

(** [addInput] with coefficients, and with the number of the input *)
Definition addInput (c : PAR2ProcCPU) (buffer : array) (size : Z) (inputCoeffs : list Z) (flush : bool) : option (PAR2ProcCPU * transfer_data) :=
  _addInput c buffer size (λ c area idx, set_coeffs c area idx inputCoeffs) flush.
Definition addInput_num (c : PAR2ProcCPU) (buffer : array) (size inputNum : Z) (flush : bool) : option (PAR2ProcCPU * transfer_data) :=
  _addInput c buffer size (λ c area idx, set_coeffs_num c area idx inputNum) flush.

(** [flush]: a batch that is not full is submitted with a message that has no buffer. *)
Definition flush (c : PAR2ProcCPU) : PAR2ProcCPU * list transfer_data :=
  if currentStagingInputs c =? 0 then (c, []) else
  let data := Prepare None 0 0 0 0 0 0 (currentStagingInputs c) (currentStagingArea c) in
  (submit c, [data]).

(** [getOutput] *)
Definition getOutput_data (c : PAR2ProcCPU) (index : Z) : option transfer_data :=
  p ← memProcessing c;
  Some (Finish p (currentSliceSize c) (Z.of_nat (length (outputExponents c))) index (chunkLen c)).

(** ** [run_kernel] *)

(** A quotient as a [float], in units of 2^-23, for values of at least 1: 24 significant bits, to
    nearest, ties to even *)
Definition round_even (n d : Z) : Z :=
  let q := n / d in
  let r := n mod d in
  if 2 * r <? d then q else if d <? 2 * r then q + 1 else if Z.even q then q else q + 1.
Definition float_round (n d : Z) : Z := let e := Z.log2 (n / d) - 23 in round_even n (d * 2 ^ e) * 2 ^ e.

(** [(unsigned)(outputsPerThread*(tc+1) + 0.5)] where [outputsPerThread = (float)outputs / threadsPerChunk];
    the sum, a [double], is exact. *)
Definition outputs_before (outputs threadsPerChunk k : Z) : Z :=
  let outputsPerThread := float_round (outputs * 2 ^ 23) threadsPerChunk in
  (2 * float_round (outputsPerThread * k) 1 + 2 ^ 23) / 2 ^ 24.

(** [makeReq] *)
Definition makeReq (c : PAR2ProcCPU) (areaSrc : Z) (oldProcessingAdd : bool) (inBuf : nat) (numInputs : Z) (sliceOffset outNonZero coeffs numOutputs len chunks output : Z) : compute_req :=
  {| numInputs := wrap 16 numInputs; procIdx := inBuf; inputGrouping := inputBatchSize c; numOutputs := wrap 16 numOutputs; outNonZero := outNonZero; coeffs := coeffs;
     req_len := len; chunkSize := chunkLen c; req_numChunks := chunks; input := areaSrc + sliceOffset * inputBatchSize c; output := output; add := oldProcessingAdd |}.

Section Kernel.
Context (c : PAR2ProcCPU) (areaSrc mem : Z) (add : bool) (inBuf : nat) (inputs : Z).

Let outputs := Z.of_nat (length (outputExponents c)).
Let fullChunksPerThread := numChunks c / numThreads c.
Let leftoverChunks := numChunks c mod numThreads c.

(** One of the remaining chunks, its outputs split among the threads: the variables are [outputIdx], [thread] and the requests *)
Definition leftover_chunk (threadsPerChunk usedThreads chunk : Z) (st : Z * list (Z * compute_req)) : option (Z * list (Z * compute_req)) :=
  let sliceOffset := chunk * chunkLen c in
  let reqLen := Z.min (alignedCurrentSliceSize c - sliceOffset) (chunkLen c) in
  let outputBase := mem + sliceOffset * outputs in
  '(thread, outputIdx, reqs) ← for_loopM 0 threadsPerChunk (λ tc '(thread, outputIdx, reqs),
    if usedThreads <=? thread then None else
    let n := wrap 32 (outputs_before outputs threadsPerChunk (tc + 1) - outputIdx) in
    if n <? 1 then None else
    let req := makeReq c areaSrc add inBuf inputs sliceOffset outputIdx (outputIdx * inputBatchSize c) n reqLen 1 (outputBase + outputIdx * reqLen) in
    let outputIdx := outputIdx + n in
    if (tc =? threadsPerChunk - 1) && negb (outputIdx =? outputs) then None else
    Some (thread + 1, outputIdx, reqs ++ [(thread, req)])) (fst st, 0, snd st);
  Some (thread, reqs).

Definition leftover_requests : option (Z * list (Z * compute_req)) :=
  if leftoverChunks =? 0 then Some (numThreads c, []) else
  let threadsPerChunk := Z.min (numThreads c / leftoverChunks) outputs in
  if threadsPerChunk <? 1 then None else
  if float_round (outputs * 2 ^ 23) threadsPerChunk <? 2 ^ 23 then None else
  let usedThreads := threadsPerChunk * leftoverChunks in
  if numThreads c <? usedThreads then None else
  '(_, reqs) ← for_loopM 0 leftoverChunks (leftover_chunk threadsPerChunk usedThreads) (0, []);
  Some ((if fullChunksPerThread =? 0 then 0 else numThreads c) + usedThreads, reqs).

(** The chunks that are distributed evenly *)
Definition full_requests : list (Z * compute_req) :=
  if fullChunksPerThread =? 0 then [] else
  (λ thread, let sliceOffset := (leftoverChunks + thread * fullChunksPerThread) * chunkLen c in
     (thread, makeReq c areaSrc add inBuf inputs sliceOffset 0 0 outputs
                (Z.min (alignedCurrentSliceSize c - sliceOffset) (chunkLen c * fullChunksPerThread)) fullChunksPerThread (mem + sliceOffset * outputs)))
  <$> seqZ 0 (numThreads c).
End Kernel.

(** [run_kernel]: the requests, each with its thread *)
Definition run_kernel (c : PAR2ProcCPU) (inBuf : nat) (inputs : Z) : option (PAR2ProcCPU * list (Z * compute_req)) :=
  match outputExponents c with
  | [] => Some (c, [])
  | _ =>
    area ← staging c !! inBuf;
    areaSrc ← src area;
    mem ← memProcessing c;
    let oldProcessingAdd := processingAdd c in
    '(refs, reqs) ← leftover_requests c areaSrc mem oldProcessingAdd inBuf inputs;
    Some (set_area inBuf (set_procRefs refs) (set_processingAdd true c), reqs ++ full_requests c areaSrc mem oldProcessingAdd inBuf inputs)
  end.

(** ** The threads *)

(** The round of [compute_worker] over one chunk and one output *)
Definition compute_output (c : PAR2ProcCPU) (req : compute_req) (round out : Z) (m : array) : option array :=
  area ← staging c !! procIdx req;
  nonZero ← outputExponents c !! Z.to_nat (outNonZero req + out);
  let procSize := Z.min (req_len req - round * chunkSize req) (chunkSize req) in
  let srcPtr := input req + round * chunkSize req * inputGrouping req in
  let vals := λ i, procCoeffs area !! Z.to_nat (coeffs req + out * inputGrouping req + i) in
  let dstPtr := output req + out * procSize + round * numOutputs req * chunkSize req in
  let m := if add req then m else set_bytes m dstPtr procSize in
  if (round =? req_numChunks req - 1) && (numOutputs req <=? out + 1) then mul_add_multi_packed (numInputs req) m dstPtr srcPtr procSize vals
  else if nonZero =? 0 then Some (gf_add_multi_packpf_generic (numInputs req) m dstPtr srcPtr procSize)
  else mul_add_multi_packpf (numInputs req) m dstPtr srcPtr procSize vals.

(** The work of [compute_worker] on a request *)
Definition compute (c : PAR2ProcCPU) (req : compute_req) (m : array) : option array :=
  for_loopM 0 (req_numChunks req) (λ round, for_loopM 0 (numOutputs req) (λ out, compute_output c req round out)) m.

(** The end of a request: the last one of the batch makes the area available. *)
Definition request_done (c : PAR2ProcCPU) (req : compute_req) : option PAR2ProcCPU :=
  area ← staging c !! procIdx req;
  let c' := set_area (procIdx req) (set_procRefs (procRefs area - 1)) c in
  Some (if procRefs area <=? 1 then set_area (procIdx req) (setIsActive false) (set_activeCount (stagingActiveCount c - 1) c') else c').
End Operations.
