(* ===== verification/BackendThreads.v ===== *)
(** * BackendThreads.v: the threads of the backend

    The main thread, the transfer thread and the worker threads, each a partial function on the
    state they share: the fields of the class, the memory, and the message queues.  The main thread
    runs the commands of [ProcessData] (src/par2repairer.cpp, src/par2creator.cpp): it adds the
    inputs, waits for the end and gets the outputs.  A thread that takes a message handles it in
    one step; a run is any interleaving of steps of the threads.  The buffers that are passed are
    values: the caller keeps its buffer until the transfer thread has signalled the end of the
    copy. *)

From stdpp Require Import relations.
From S2P Require Import Prelude LinOp GF GfCoeff GfLookup GfChecksum GfPacked BackendCpu.

(** What the main thread does: [waitForAdd] and [addInput], [endInput] ([flush], then the wait for
    all areas), [getOutput] *)
Inductive command :=
  | AddInput (buffer : array) (size : Z) (inputNumOrCoeffs : Z + list Z)
  | EndInput
  | AwaitEnd
  | GetOutput (index : Z).

Record system := {
  cpu : PAR2ProcCPU;
  memory : array;
  transferThread : list transfer_data;
  thWorkers : list (list compute_req);
  futures : list (Z * bool * array);
  todo : list command;
}.

Inductive thread := Main | Transfer | Worker (i : nat).

(** The messages of [run_kernel] to the workers *)
Definition send (reqs : list (Z * compute_req)) (queues : list (list compute_req)) : list (list compute_req) :=
  foldl (λ qs r, alter (λ q, q ++ [r.2]) (Z.to_nat r.1) qs) queues reqs.

Section Threads.
Context (t : gfmat_tables).

(** A message of the transfer thread, [transfer_slice] *)
Definition transfer (data : transfer_data) (s : system) : option system :=
  match data with
  | Finish p size numBufs index chunk =>
      '(ok, out) ← gf16_lookup_finish_packed_cksum_generic t ∅ (memory s) p size numBufs index chunk;
      Some {| cpu := cpu s; memory := memory s; transferThread := transferThread s; thWorkers := thWorkers s;
              futures := futures s ++ [(index, ok, out)]; todo := todo s |}
  | Prepare buffer size dst dstLen numBufs index chunk submitInBufs inBufId =>
      m ← match buffer with
          | Some b => gf16_lookup_prepare_packed_cksum_generic t (memory s) dst b size dstLen numBufs index chunk
          | None => Some (memory s)
          end;
      '(c, reqs) ← (if submitInBufs =? 0 then Some (cpu s, []) else run_kernel (cpu s) inBufId submitInBufs);
      Some {| cpu := c; memory := m; transferThread := transferThread s; thWorkers := send reqs (thWorkers s); futures := futures s; todo := todo s |}
  end.

Definition transfer_step (s : system) : option system :=
  match transferThread s with
  | [] => None
  | data :: q => transfer data {| cpu := cpu s; memory := memory s; transferThread := q; thWorkers := thWorkers s; futures := futures s; todo := todo s |}
  end.

(** A message of a worker, [compute_worker] *)
Definition worker_step (i : nat) (s : system) : option system :=
  q ← thWorkers s !! i;
  match q with
  | [] => None
  | req :: q =>
      m ← compute (cpu s) req (memory s);
      c ← request_done (cpu s) req;
      Some {| cpu := c; memory := m; transferThread := transferThread s; thWorkers := <[i := q]> (thWorkers s); futures := futures s; todo := todo s |}
  end.

(** A command of the main thread; it waits while [waitForAdd] or the end do. *)
Definition main_step (s : system) : option system :=
  match todo s with
  | [] => None
  | AddInput buffer size inputNumOrCoeffs :: rest =>
      '(c, data) ← match inputNumOrCoeffs with
                   | inl inputNum => addInput_num t (cpu s) buffer size inputNum false
                   | inr inputCoeffs => addInput (cpu s) buffer size inputCoeffs false
                   end;
      Some {| cpu := c; memory := memory s; transferThread := transferThread s ++ [data]; thWorkers := thWorkers s; futures := futures s; todo := rest |}
  | EndInput :: rest =>
      let '(c, data) := flush (cpu s) in
      Some {| cpu := c; memory := memory s; transferThread := transferThread s ++ data; thWorkers := thWorkers s; futures := futures s; todo := rest |}
  | AwaitEnd :: rest =>
      if existsb isActive (staging (cpu s)) then None else
      Some {| cpu := processing_finished (cpu s); memory := memory s; transferThread := transferThread s; thWorkers := thWorkers s; futures := futures s; todo := rest |}
  | GetOutput index :: rest =>
      data ← getOutput_data (cpu s) index;
      Some {| cpu := cpu s; memory := memory s; transferThread := transferThread s ++ [data]; thWorkers := thWorkers s; futures := futures s; todo := rest |}
  end.

Definition step (th : thread) (s : system) : option system :=
  match th with Main => main_step s | Transfer => transfer_step s | Worker i => worker_step i s end.

(** A run: any thread that can take a step does. *)
Definition steps : relation system := rtc (λ s s', ∃ th, step th s = Some s').

(** Nothing is left to do. *)
Definition finished (s : system) : Prop := todo s = [] ∧ transferThread s = [] ∧ Forall (λ q, q = []) (thWorkers s).

(** The commands for a chunk of the blocks: [sent] inputs with their numbers or coefficients, and [outputs] outputs *)
Definition commands (size : Z) (sent : list (array * (Z + list Z))) (outputs : nat) : list command :=
  ((λ s, AddInput s.1 size s.2) <$> sent) ++ [EndInput; AwaitEnd] ++ ((λ k, GetOutput (Z.of_nat k)) <$> seq 0 outputs).

(** The state at the start of a chunk: [discardOutput], and nothing in the queues *)
Definition start (c : PAR2ProcCPU) (m : array) (todo : list command) : system :=
  {| cpu := discardOutput c; memory := m; transferThread := []; thWorkers := replicate (Z.to_nat (numThreads c)) []; futures := []; todo := todo |}.
End Threads.
