(* ===== verification/BackendWorkSpec.v ===== *)
(** * BackendWorkSpec.v: the work of a request

    A request covers tiles: pairs of a chunk and an output.  On every tile of the request the
    products of the inputs of the batch with their coefficients are added to the output, or
    replace it in the first batch, and nothing else changes. *)

From S2P Require Import Prelude LinOp GF GfCoeff GfLookup GfChecksum GfPacked GfPackedSpec BackendCpu.

(** ** Multiplying and adding packed regions *)

Lemma seqZ_one x : seqZ x 1 = [x].
Proof. rewrite seqZ_cons, seqZ_nil by lia. done. Qed.

Lemma xsum_seqZ_snoc (f : Z → Z) n : 0 ≤ n → xsum f (seqZ 0 (n + 1)) = xsum f (seqZ 0 n) ⊕ f n.
Proof.
  intros Hn. rewrite seqZ_app, xsum_app by lia. f_equal. rewrite Z.add_0_l, seqZ_one. apply Z.lxor_0_r.
Qed.

(** A region [d .. d + n) has got the sum over [regions] regions from [s] on. *)
Definition added (m m' : array) (d s n regions : Z) (c : Z → Z) : Prop :=
  ∀ a, word m' a = if decide (d ≤ a < d + n) then word m a ⊕ xsum (λ i, mul16 (c i) (word m (s + i * n + (a - d)))) (seqZ 0 regions) else word m a.

Lemma mul_add_multi_packed_ok m d s n regions coefficients c : 0 ≤ n → n mod 4 = 0 → 0 ≤ regions → (d + n ≤ s ∨ s + regions * n ≤ d) →
  (∀ i, 0 ≤ i < regions → coefficients i = Some (c i) ∧ u16 (c i)) →
  ∃ m', mul_add_multi_packed regions m (2 * d) (2 * s) (2 * n) coefficients = Some m' ∧ added m m' d s n regions c.
Proof.
  intros Hn Hn4 Hr Hdisj Hc. unfold mul_add_multi_packed.
  apply (for_loopM_ind (λ k m', added m m' d s n k c) 0 regions); [done| |].
  - intros a. case_decide; [|done]. by rewrite seqZ_nil, Z.lxor_0_r by lia.
  - intros i m1 Hi IH. destruct (Hc i Hi) as [-> Hci]. cbn [mbind option_bind].
    destruct (gf16_lookup_muladd_ok m1 d (s + i * n) n (c i)) as (m2 & E & Hw); [done|done|done|nia|].
    replace (2 * s + i * (2 * n)) with (2 * (s + i * n)) by lia. rewrite E. exists m2. split; [done|]. intros a. rewrite Hw. case_decide as Ha.
    + rewrite (IH a), (IH (s + i * n + (a - d))). rewrite decide_False by nia. rewrite decide_True, xsum_seqZ_snoc by lia. xor_solve.
    + rewrite (IH a). by rewrite decide_False by done.
Qed.

Lemma set_region_ok (b : bool) m d n a : 0 ≤ n →
  word (if b then m else set_bytes m (2 * d) (2 * n)) a = if decide (d ≤ a < d + n) then (if b then word m a else 0) else word m a.
Proof. intros Hn. destruct b; [by case_decide|]. rewrite set_bytes_word by done. done. Qed.

(** ** Adding packed regions *)

Lemma slice16_loop (f : Z → Z) v lo hi k : lo ≤ hi → slice16 (for_loop lo hi (λ j data, data ⊕ f j) v) k = slice16 v k ⊕ xsum (λ j, slice16 (f j) k) (seqZ lo (hi - lo)).
Proof.
  intros H. apply (for_loop_ind (λ h w, slice16 w k = slice16 v k ⊕ xsum (λ j, slice16 (f j) k) (seqZ lo (h - lo))) lo hi); [done|by rewrite seqZ_nil, Z.lxor_0_r by lia|].
  intros i w Hi IH. rewrite slice16_lxor, IH. replace (i + 1 - lo) with (i - lo + 1) by lia. rewrite seqZ_app, xsum_app by lia. rewrite seqZ_one.
  replace (lo + (i - lo)) with i by lia. change (xsum ?g [i]) with (g i ⊕ 0). rewrite Z.lxor_0_r. xor_solve.
Qed.

Lemma gf_add_x_generic_ok m d s n count : 0 ≤ n → n mod 4 = 0 → 1 ≤ count → (d + n ≤ s ∨ s + count * n ≤ d) →
  added m (gf_add_x_generic m (2 * d) (2 * s) count (2 * n)) d s n count (λ _, 1).
Proof.
  intros Hn Hn4 Hc Hdisj. unfold gf_add_x_generic. replace (2 * n / 8) with (n / 4) by (Z.div_mod_to_equations; lia).
  match goal with |- added _ (for_loop 0 (n / 4) ?body ?m0) _ _ _ _ _ =>
    enough (∀ a, word (for_loop 0 (n / 4) body m0) a = if decide (d ≤ a < d + 4 * (n / 4)) then word m a ⊕ xsum (λ i, mul16 1 (word m (s + i * n + (a - d)))) (seqZ 0 count) else word m a) as H
      by (intros a; rewrite H; replace (4 * (n / 4)) with n by (Z.div_mod_to_equations; lia); done);
    refine (for_loop_ind (λ x m', ∀ a, word m' a = if decide (d ≤ a < d + 4 * x) then word m a ⊕ xsum (λ i, mul16 1 (word m (s + i * n + (a - d)))) (seqZ 0 count) else word m a) 0 (n / 4) body m0 _ _ _)
  end.
  - apply Z.div_pos; lia.
  - intros a. by rewrite decide_False by lia.
  - intros x m1 Hx IH a. cbv zeta. assert (4 * (x + 1) ≤ n) by (Z.div_mod_to_equations; lia).
    replace (2 * d + 8 * x) with (2 * (d + 4 * x)) by lia. rewrite write64_word. case_decide as Ha.
    + set (k := a - (d + 4 * x)). assert (0 ≤ k < 4) as Hk by (unfold k; lia). rewrite slice16_lxor, slice16_loop, read64_word by lia.
      replace (2 * s + 8 * x) with (2 * (s + 4 * x)) by lia. rewrite read64_word by done.
      rewrite decide_True by lia. replace (d + 4 * x + k) with a by (unfold k; lia). rewrite (IH a), decide_False by lia. f_equal.
      rewrite (seqZ_cons 0 count), xsum_cons by lia. replace (Z.succ 0) with 1 by lia. replace (Z.pred count) with (count - 1) by lia. f_equal.
      * rewrite IH, decide_False by nia. rewrite (gf_mul_1_l 16 poly16) by apply word_range. f_equal. unfold k. lia.
      * apply xsum_ext. intros j Hj%elem_of_seqZ. replace (2 * s + j * (2 * n) + 8 * x) with (2 * (s + j * n + 4 * x)) by lia.
        rewrite read64_word by done. rewrite IH, decide_False by nia. rewrite (gf_mul_1_l 16 poly16) by apply word_range. f_equal. unfold k. lia.
    + rewrite IH. repeat case_decide; (done || lia).
Qed.

Lemma added_trans m m1 m2 d s n r1 r2 c : 0 ≤ r1 → 0 ≤ r2 → 0 ≤ n → (d + n ≤ s ∨ s + (r1 + r2) * n ≤ d) →
  added m m1 d s n r1 c → added m1 m2 d (s + r1 * n) n r2 (λ i, c (r1 + i)) → added m m2 d s n (r1 + r2) c.
Proof.
  intros Hr1 Hr2 Hn Hd H1 H2 a. rewrite H2. case_decide as Ha; [|rewrite H1; by rewrite decide_False by done].
  rewrite H1, decide_True by done. rewrite seqZ_app, xsum_app by done. rewrite Z.lxor_assoc. f_equal. f_equal. rewrite Z.add_0_l.
  rewrite (xsum_seqZ_shift _ r1). apply xsum_ext. intros i Hi%elem_of_seqZ. rewrite H1, decide_False by nia. do 2 f_equal. lia.
Qed.

Lemma gf_add_multi_packpf_generic_ok m d s n regions : 0 ≤ n → n mod 4 = 0 → 0 ≤ regions → (d + n ≤ s ∨ s + regions * n ≤ d) →
  added m (gf_add_multi_packpf_generic regions m (2 * d) (2 * s) (2 * n)) d s n regions (λ _, 1).
Proof.
  intros Hn Hn4 Hr Hdisj. unfold gf_add_multi_packpf_generic. cbv zeta. pose proof (Z.div_mod regions 4 ltac:(lia)) as Hd. pose proof (Z.mod_pos_bound regions 4 ltac:(lia)) as Hm.
  set (g := regions / 4) in *. assert (0 ≤ g) by (apply Z.div_pos; lia). set (m1 := for_loop 0 g _ m).
  assert (added m m1 d s n (4 * g) (λ _, 1)) as H1.
  { unfold m1. apply (for_loop_ind (λ x m', added m m' d s n (4 * x) (λ _, 1)) 0 g); [done| |].
    - intros a. case_decide; [|done]. by rewrite seqZ_nil, Z.lxor_0_r by lia.
    - intros x m' Hx IH. replace (2 * s + 4 * x * (2 * n)) with (2 * (s + 4 * x * n)) by lia. replace (4 * (x + 1)) with (4 * x + 4) by lia.
      apply (added_trans m m'); [lia|lia|done|nia|done|]. apply (gf_add_x_generic_ok m' d (s + 4 * x * n) n 4); [done|done|lia|nia]. }
  destruct (Z.leb_spec 1 (regions - 4 * g)).
  - replace (2 * s + 4 * g * (2 * n)) with (2 * (s + 4 * g * n)) by lia. replace regions with (4 * g + (regions - 4 * g)) at 2 by lia.
    apply (added_trans m m1); [lia|lia|done|nia|done|]. apply (gf_add_x_generic_ok m1 d (s + 4 * g * n) n (regions - 4 * g)); [done|done|lia|nia].
  - by replace regions with (4 * g) at 1 by lia.
Qed.

(** ** Tiles *)

Section Tiles.
Context (N O C SL : Z) (pO : Z) (pI : nat → Z).
Hypothesis HC : 0 < C.
Hypothesis HN : 0 < N.
Hypothesis HO : 0 < O.

Abbreviation SB := (SL + 1).
Abbreviation width q := (Z.min C (SB - C * q)).

(** The word addresses of chunk [q] of input [i] of area [a], and of output [o] *)
Definition in_at (a : nat) (q i : Z) : Z := pI a + 4 * (N * C * q + i * width q).
Definition out_at (q o : Z) : Z := pO + 4 * (O * C * q + o * width q).

(** The number of chunks *)
Context (K : Z).
Hypothesis HK : (K - 1) * C < SB ≤ K * C.

Lemma width_pos q : 0 ≤ q < K → 0 < width q ≤ C.
Proof. intros Hq. split; [|lia]. assert (C * q ≤ (K - 1) * C) by nia. lia. Qed.

Lemma out_at_block q o j : 0 ≤ j < C → block_at pO O C SL o (q * C + j) = out_at q o + 4 * j.
Proof. intros Hj. unfold block_at, out_at. rewrite packed_block_at by done. lia. Qed.

Lemma in_at_block a q i j : 0 ≤ j < C → block_at (pI a) N C SL i (q * C + j) = in_at a q i + 4 * j.
Proof. intros Hj. unfold block_at, in_at. rewrite packed_block_at by done. lia. Qed.

(** The tiles are apart and within the outputs. *)
Lemma tile_bounds q o x : 0 ≤ q < K → 0 ≤ o < O → 0 ≤ x < 4 * width q → pO ≤ out_at q o + x < pO + 4 * (O * SB).
Proof.
  intros Hq Ho Hx. pose proof (width_pos q Hq). pose proof (out_at_block q o (x / 4) ltac:(Z.div_mod_to_equations; lia)) as E.
  pose proof (packed_block_bounds O C SB HC o (q * C + x / 4) Ho) as Hb. unfold block_at in E. Z.div_mod_to_equations. nia.
Qed.

Lemma tile_inj q o x q' o' x' : 0 ≤ q < K → 0 ≤ o < O → 0 ≤ x < 4 * width q → 0 ≤ q' < K → 0 ≤ o' < O → 0 ≤ x' < 4 * width q' →
  out_at q o + x = out_at q' o' + x' → q = q' ∧ o = o' ∧ x = x'.
Proof.
  intros Hq Ho Hx Hq' Ho' Hx' E. pose proof (width_pos q Hq). pose proof (width_pos q' Hq').
  assert (0 ≤ x / 4 < width q) as Hj by (Z.div_mod_to_equations; lia). assert (0 ≤ x' / 4 < width q') as Hj' by (Z.div_mod_to_equations; lia).
  pose proof (out_at_block q o (x / 4) ltac:(lia)) as E1. pose proof (out_at_block q' o' (x' / 4) ltac:(lia)) as E2. unfold block_at in E1, E2.
  assert (packed_block O C SB o (q * C + x / 4) = packed_block O C SB o' (q' * C + x' / 4)) as E3 by (Z.div_mod_to_equations; lia).
  apply packed_block_inj in E3 as [-> E4]; [|done|done|done|nia|nia].
  assert (q = q') as -> by nia. split_and!; [done|done|lia].
Qed.

Lemma input_bounds a q i x : 0 ≤ q < K → 0 ≤ i < N → 0 ≤ x < 4 * width q → pI a ≤ in_at a q i + x < pI a + 4 * (N * SB).
Proof.
  intros Hq Hi Hx. pose proof (width_pos q Hq). pose proof (in_at_block a q i (x / 4) ltac:(Z.div_mod_to_equations; lia)) as E.
  pose proof (packed_block_bounds N C SB HC i (q * C + x / 4) Hi) as Hb. unfold block_at in E. Z.div_mod_to_equations. nia.
Qed.

(** The area lies before the outputs. *)
Definition before_outputs (a : nat) : Prop := pI a + 4 * (N * SB) ≤ pO.

(** What a request does to a tile, for inputs with coefficients [cf i o] *)
Definition tile_value (m : array) (a : nat) (n : Z) (cf : Z → Z → Z) (q o x : Z) : Z :=
  xsum (λ i, mul16 (cf i o) (word m (in_at a q i + x))) (seqZ 0 n).

Definition tile_done (keep : bool) (m m' : array) (a : nat) (n : Z) (cf : Z → Z → Z) (q o : Z) : Prop :=
  ∀ x, 0 ≤ x < 4 * width q → word m' (out_at q o + x) = (if keep then word m (out_at q o + x) else 0) ⊕ tile_value m a n cf q o x.

Definition outside (P : Z → Z → Prop) (a : Z) : Prop := ∀ q o x, P q o → 0 ≤ x < 4 * width q → a ≠ out_at q o + x.

(** The request for the chunks [q0 ..] and the outputs [o0 ..] *)
Definition request (a : nat) (n : Z) (keep : bool) (q0 nq o0 no : Z) : compute_req :=
  let reqLen := Z.min (8 * SB - q0 * (8 * C)) (8 * C * nq) in
  {| numInputs := n; procIdx := a; inputGrouping := N; numOutputs := no; outNonZero := o0; coeffs := o0 * N; req_len := reqLen; chunkSize := 8 * C; req_numChunks := nq;
     input := 2 * pI a + q0 * (8 * C) * N; output := 2 * pO + q0 * (8 * C) * O + o0 * reqLen; add := keep |}.

Record good_request (q0 nq o0 no : Z) : Prop := {
  gr_chunks : 0 ≤ q0 ∧ 0 < nq ∧ q0 + nq ≤ K;
  gr_outputs : 0 ≤ o0 ∧ 0 < no ∧ o0 + no ≤ O;
  gr_shape : nq = 1 ∨ o0 = 0 ∧ no = O;
}.

(** The coefficients of the batch are in place. *)
Record coeffs_ok (c : PAR2ProcCPU) (a : nat) (n : Z) (cf : Z → Z → Z) : Prop := {
  co_area : ∃ area, staging c !! a = Some area ∧ ∀ i o, 0 ≤ i < n → 0 ≤ o < O → procCoeffs area !! Z.to_nat (o * N + i) = Some (cf i o) ∧ u16 (cf i o);
  co_exps : ∀ o, 0 ≤ o < O → ∃ e, outputExponents c !! Z.to_nat o = Some e ∧ (e = 0 → ∀ i, 0 ≤ i < n → cf i o = 1);
}.

Lemma request_address r q0 nq o0 no out : good_request q0 nq o0 no → 0 ≤ r < nq → 0 ≤ out < no →
  let reqLen := Z.min (8 * SB - q0 * (8 * C)) (8 * C * nq) in
  let procSize := Z.min (reqLen - r * (8 * C)) (8 * C) in
  procSize = 2 * (4 * width (q0 + r)) ∧ 2 * pO + q0 * (8 * C) * O + o0 * reqLen + out * procSize + r * no * (8 * C) = 2 * out_at (q0 + r) (o0 + out).
Proof.
  intros [(H1 & H2 & H3) (H4 & H5 & H6) Hs] Hr Ho reqLen procSize.
  assert (procSize = 8 * width (q0 + r)) as E by (unfold procSize, reqLen; assert (8 * C ≤ 8 * C * nq - r * (8 * C)) by nia; lia).
  split; [lia|]. rewrite E. unfold out_at. destruct Hs as [->|[-> ->]]; [|nia].
  assert (r = 0) as -> by lia. assert (reqLen = 8 * width (q0 + 0)) as -> by (unfold reqLen; lia). nia.
Qed.

Lemma compute_output_ok c a n keep q0 nq o0 no r out m cf : good_request q0 nq o0 no → 0 ≤ r < nq → 0 ≤ out < no → 0 ≤ n ≤ N → before_outputs a → coeffs_ok c a n cf →
  ∃ m', compute_output c (request a n keep q0 nq o0 no) r out m = Some m' ∧ tile_done keep m m' a n cf (q0 + r) (o0 + out) ∧
    ∀ b, outside (λ q o, q = q0 + r ∧ o = o0 + out) b → word m' b = word m b.
Proof.
  intros Hg Hr Hout Hn Hbef [(area & Ha & Hcf) Hexp]. pose proof Hg as [(H1 & H2 & H3) (H4 & H5 & H6) _].
  destruct (request_address r q0 nq o0 no out Hg Hr Hout) as [Eps Edst]. cbv zeta in Eps, Edst.
  set (q := q0 + r) in *. set (o := o0 + out) in *. assert (0 ≤ q < K) as Hq by (unfold q; lia). assert (0 ≤ o < O) as Ho by (unfold o; lia).
  pose proof (width_pos q Hq) as Hwp. destruct (Hexp o Ho) as (e & Ee & He).
  unfold compute_output. cbn [procIdx outNonZero req_len chunkSize input inputGrouping coeffs output numOutputs add req_numChunks numInputs request]. rewrite Ha. cbn [mbind option_bind].
  fold o. rewrite Ee. cbn [mbind option_bind]. cbv zeta. rewrite Eps in *. rewrite Edst.
  replace (2 * pI a + q0 * (8 * C) * N + r * (8 * C) * N) with (2 * in_at a q 0) by (unfold in_at, q; lia).
  set (m1 := if keep then m else _).
  assert (∀ b, word m1 b = if decide (out_at q o ≤ b < out_at q o + 4 * width q) then (if keep then word m b else 0) else word m b) as Hm1 by (intros b; apply set_region_ok; lia).
  assert (∀ i x, 0 ≤ i < n → 0 ≤ x < 4 * width q → in_at a q 0 + i * (4 * width q) + x = in_at a q i + x) as Hin by (intros; unfold in_at; lia).
  assert (∀ i x, 0 ≤ i < n → 0 ≤ x < 4 * width q → word m1 (in_at a q 0 + i * (4 * width q) + x) = word m (in_at a q i + x)) as Hsrc.
  { intros i x Hi Hx. rewrite Hm1, Hin by done. rewrite decide_False; [done|]. pose proof (input_bounds a q i x Hq ltac:(lia) Hx). pose proof (tile_bounds q o 0 Hq Ho ltac:(lia)). unfold before_outputs in Hbef. lia. }
  assert (out_at q o + 4 * width q ≤ in_at a q 0 ∨ in_at a q 0 + n * (4 * width q) ≤ out_at q o) as Hdisj.
  { right. pose proof (tile_bounds q o 0 Hq Ho ltac:(lia)). unfold before_outputs in Hbef. pose proof (input_bounds a q (N - 1) (4 * width q - 1) Hq ltac:(lia) ltac:(lia)).
    assert (in_at a q (N - 1) + 4 * width q = in_at a q 0 + N * (4 * width q)) by (unfold in_at; lia).
    assert (n * (4 * width q) ≤ N * (4 * width q)) by (apply Z.mul_le_mono_nonneg_r; lia). lia. }
  assert (∀ m', added m1 m' (out_at q o) (in_at a q 0) (4 * width q) n (λ i, cf i o) →
    tile_done keep m m' a n cf q o ∧ ∀ b, outside (λ q' o', q' = q ∧ o' = o) b → word m' b = word m b) as Hfin.
  { intros m' Had. split.
    - intros x Hx. rewrite Had, decide_True by lia. rewrite Hm1, decide_True by lia. f_equal. apply xsum_ext. intros i Hi%elem_of_seqZ. f_equal. rewrite <- (Hsrc i x) by lia. f_equal. lia.
    - intros b Hb. assert (¬ out_at q o ≤ b < out_at q o + 4 * width q) as Hnb by (intros Hbb; apply (Hb q o (b - out_at q o)); [done|lia|lia]).
      rewrite Had, decide_False by done. by rewrite Hm1, decide_False. }
  assert (0 ≤ 4 * width q ∧ (4 * width q) mod 4 = 0) as [Hw0 Hw4] by (split; [lia|]; rewrite Z.mul_comm; apply Z_mod_mult).
  destruct (mul_add_multi_packed_ok m1 (out_at q o) (in_at a q 0) (4 * width q) n (λ i, procCoeffs area !! Z.to_nat (o0 * N + out * N + i)) (λ i, cf i o)) as (m' & Em & Had); [done|done|lia|done| |].
  { intros i Hi. replace (o0 * N + out * N + i) with (o * N + i) by (unfold o; lia). by apply Hcf. }
  unfold mul_add_multi_packpf. destruct (_ && _); [rewrite Em; exists m'; split; [done|by apply Hfin]|].
  destruct (Z.eqb_spec e 0) as [E0|]; [|rewrite Em; exists m'; split; [done|by apply Hfin]].
  eexists. split; [reflexivity|]. apply Hfin. pose proof (gf_add_multi_packpf_generic_ok m1 (out_at q o) (in_at a q 0) (4 * width q) n Hw0 Hw4 ltac:(lia) Hdisj) as Hadd.
  intros b. rewrite Hadd. case_decide; [|done]. f_equal. apply xsum_ext. intros i Hi%elem_of_seqZ. rewrite He by (done || lia). done.
Qed.

(** The tiles in [P] are done, and nothing else changed. *)
Record tiles_done (keep : bool) (a : nat) (n : Z) (cf : Z → Z → Z) (P : Z → Z → Prop) (m m' : array) : Prop := {
  td_range : ∀ q o, P q o → 0 ≤ q < K ∧ 0 ≤ o < O;
  td_in : ∀ q o, P q o → tile_done keep m m' a n cf q o;
  td_out : ∀ b, outside P b → word m' b = word m b;
}.

Lemma tiles_done_ext keep a n cf (P Q : Z → Z → Prop) m m' : (∀ q o, P q o ↔ Q q o) → tiles_done keep a n cf P m m' → tiles_done keep a n cf Q m m'.
Proof.
  intros E [H1 H2 H3]. split; [intros q o ?; by apply H1, E|intros q o ?; by apply H2, E|]. intros b Hb. apply H3. intros q o x HP. apply Hb. by apply E.
Qed.

Lemma tiles_done_nil keep a n cf (P : Z → Z → Prop) m : (∀ q o, ¬ P q o) → tiles_done keep a n cf P m m.
Proof. intros HP. split; [intros q o H; by apply HP in H..|done]. Qed.

Lemma other_tile P q o x : (∀ q o, P q o → 0 ≤ q < K ∧ 0 ≤ o < O) → ¬ P q o → 0 ≤ q < K → 0 ≤ o < O → 0 ≤ x < 4 * width q → outside P (out_at q o + x).
Proof.
  intros HP Hn Hq Ho Hx q' o' x' HP' Hx' E. destruct (HP q' o' HP'). destruct (tile_inj q o x q' o' x') as (-> & -> & _); done.
Qed.

Lemma input_outside P a q i x : before_outputs a → (∀ q o, P q o → 0 ≤ q < K ∧ 0 ≤ o < O) → 0 ≤ q < K → 0 ≤ i < N → 0 ≤ x < 4 * width q → outside P (in_at a q i + x).
Proof.
  intros Hb HP Hq Hi Hx q' o' x' HP' Hx' E. destruct (HP q' o' HP'). pose proof (tile_bounds q' o' x'). pose proof (input_bounds a q i x Hq Hi Hx). unfold before_outputs in Hb. lia.
Qed.

Lemma tiles_done_next keep a n cf P m m1 m2 q o : before_outputs a → 0 ≤ n ≤ N → tiles_done keep a n cf P m m1 → ¬ P q o → 0 ≤ q < K → 0 ≤ o < O →
  tile_done keep m1 m2 a n cf q o → (∀ b, outside (λ q' o', q' = q ∧ o' = o) b → word m2 b = word m1 b) → tiles_done keep a n cf (λ q' o', P q' o' ∨ q' = q ∧ o' = o) m m2.
Proof.
  intros Hb Hn [H1 H2 H3] Hnp Hq Ho Hd Hf. split.
  - intros q' o' [HP|[-> ->]]; [by apply H1|done].
  - intros q' o' [HP|[-> ->]] x Hx.
    + rewrite Hf, H2 by done || (destruct (H1 q' o' HP); apply other_tile; [by intros ?? [-> ->]|intros [-> ->]; done|done..]). done.
    + rewrite Hd by done. f_equal.
      * destruct keep; [|done]. apply H3. by apply other_tile.
      * apply xsum_ext. intros i Hi%elem_of_seqZ. f_equal. apply H3. apply input_outside; [done|done|done|lia|done].
  - intros b Hout. rewrite Hf, H3; [done| |].
    + intros q' o' x HP. apply Hout. by left.
    + intros q' o' x HP. apply Hout. by right.
Qed.

(** A request does its tiles. *)
Definition request_tiles (q0 nq o0 no q o : Z) : Prop := q0 ≤ q < q0 + nq ∧ o0 ≤ o < o0 + no.

Lemma compute_ok c a n keep q0 nq o0 no m cf : good_request q0 nq o0 no → 0 ≤ n ≤ N → before_outputs a → coeffs_ok c a n cf →
  ∃ m', compute c (request a n keep q0 nq o0 no) m = Some m' ∧ tiles_done keep a n cf (request_tiles q0 nq o0 no) m m'.
Proof.
  intros Hg Hn Hb Hc. pose proof Hg as [(H1 & H2 & H3) (H4 & H5 & H6) _]. unfold compute. cbn [req_numChunks numOutputs request].
  apply (for_loopM_ind (λ r m1, tiles_done keep a n cf (request_tiles q0 r o0 no) m m1) 0 nq); [lia|apply tiles_done_nil; intros q o [? ?]; lia|].
  intros r m1 Hr Hm1.
  destruct (for_loopM_ind (λ out m2, tiles_done keep a n cf (λ q o, request_tiles q0 r o0 no q o ∨ q = q0 + r ∧ o0 ≤ o < o0 + out) m m2) 0 no
    (λ out, compute_output c (request a n keep q0 nq o0 no) r out) m1) as (m2 & E & Hm2); [lia| | |].
  - eapply tiles_done_ext; [|exact Hm1]. intros q o. split; [by left|]. intros [?|[? ?]]; [done|lia].
  - intros out m2 Hout Hm2. destruct (compute_output_ok c a n keep q0 nq o0 no r out m2 cf Hg Hr Hout Hn Hb Hc) as (m3 & E & Hd & Hf). exists m3. split; [done|].
    eapply tiles_done_ext; [|apply (tiles_done_next keep a n cf _ m m2 m3 (q0 + r) (o0 + out) Hb Hn Hm2); [|lia|lia|done|done]].
    + intros q o. unfold request_tiles. cbn. lia.
    + unfold request_tiles. lia.
  - exists m2. split; [exact E|]. eapply tiles_done_ext; [|exact Hm2]. intros q o. unfold request_tiles. cbn. lia.
Qed.
End Tiles.
