(* ===== verification/BackendPlanSpec.v ===== *)
(** * BackendPlanSpec.v: how the work is cut into requests

    The requests of [run_kernel] cover every chunk of every output exactly once, whatever the
    number of threads; the outputs of a chunk that is split among threads are cut with a
    single-precision quotient, whose rounding errors do not matter. *)

From S2P Require Import Prelude LinOp GF GfCoeff GfLookup GfChecksum GfPacked GfPackedSpec BackendCpu BackendWorkSpec.

(** ** Single precision *)

Lemma round_even_bound n d : 0 < d → 0 ≤ n → Z.abs (2 * (round_even n d * d - n)) ≤ d.
Proof.
  intros Hd Hn. unfold round_even. pose proof (Z.div_mod n d ltac:(lia)) as Hdm. pose proof (Z.mod_pos_bound n d Hd). set (q := n / d) in *. set (r := n mod d) in *.
  destruct (Z.ltb_spec (2 * r) d); [nia|]. destruct (Z.ltb_spec d (2 * r)); [nia|]. destruct (Z.even q); nia.
Qed.

Lemma round_even_exact n d q : 0 < d → n = q * d → round_even n d = q.
Proof.
  intros Hd ->. unfold round_even. rewrite Z.div_mul, Z_mod_mult by lia. rewrite (proj2 (Z.ltb_lt _ _)) by lia. done.
Qed.

Lemma float_round_bound n d : 0 < d → 2 ^ 23 * d ≤ n → 2 ^ 24 * Z.abs (float_round n d * d - n) ≤ n.
Proof.
  intros Hd Hn. unfold float_round. cbv zeta. set (e := Z.log2 (n / d) - 23).
  assert (2 ^ 23 ≤ n / d) as Hq by (apply Z.div_le_lower_bound; lia).
  assert (0 ≤ e) as He by (unfold e; pose proof (Z.log2_le_mono (2 ^ 23) (n / d) Hq) as Hl; rewrite Z.log2_pow2 in Hl by lia; lia).
  assert (2 ^ e * 2 ^ 23 ≤ n / d) as Hp by (rewrite <- Z.pow_add_r by lia; replace (e + 23) with (Z.log2 (n / d)) by (unfold e; lia); apply Z.log2_spec; lia).
  assert (2 ^ e * 2 ^ 23 * d ≤ n) as Hpd by (pose proof (Z.mul_div_le n d Hd); nia).
  assert (0 < 2 ^ e) by (apply Z.pow_pos_nonneg; lia).
  pose proof (round_even_bound n (d * 2 ^ e) ltac:(nia) ltac:(nia)) as Hr. replace (round_even n (d * 2 ^ e) * 2 ^ e * d) with (round_even n (d * 2 ^ e) * (d * 2 ^ e)) by lia.
  change (2 ^ 24) with (2 * 2 ^ 23). nia.
Qed.

Lemma float_round_exact k : 1 ≤ k < 2 ^ 24 → float_round (2 ^ 23 * k) 1 = 2 ^ 23 * k.
Proof.
  intros Hk. unfold float_round. cbv zeta. rewrite Z.div_1_r, Z.mul_1_l.
  assert (Z.log2 (2 ^ 23 * k) - 23 = Z.log2 k) as -> by (rewrite (Z.mul_comm (2 ^ 23)), Z.log2_mul_pow2 by lia; lia).
  assert (0 ≤ Z.log2 k ≤ 23) as Hl by (split; [apply Z.log2_nonneg|]; assert (Z.log2 k < 24) by (apply Z.log2_lt_pow2; lia); lia).
  rewrite (round_even_exact _ _ (2 ^ (23 - Z.log2 k) * k)).
  - rewrite <- Z.mul_assoc, (Z.mul_comm k), Z.mul_assoc, <- Z.pow_add_r by lia. do 2 f_equal. lia.
  - apply Z.pow_pos_nonneg; lia.
  - rewrite <- Z.mul_assoc, (Z.mul_comm k), Z.mul_assoc, <- Z.pow_add_r by lia. do 2 f_equal. lia.
Qed.

Lemma part_bound P V k : 1 ≤ P ≤ 1024 → 0 ≤ k < P → 0 ≤ V → (P + 1) * 16777215 ≤ 2 * (V * P) → 2 * 8388608 * 8388608 ≤ V * (16777216 - 2 * k - 1).
Proof.
  intros HP Hk HV H. set (D := 16777216 - 2 * k - 1). assert (16777217 - 2 * P ≤ D) as HD by (unfold D; lia). clearbody D.
  assert (281474976710656 * P ≤ (P + 1) * 16777215 * (16777217 - 2 * P)) as H1 by nia.
  assert ((P + 1) * 16777215 * (16777217 - 2 * P) ≤ (P + 1) * 16777215 * D) as H2 by nia.
  assert ((P + 1) * 16777215 * D ≤ 2 * (V * P) * D) as H3 by (apply Z.mul_le_mono_nonneg_r; lia).
  assert (P * (2 * (2 * 8388608 * 8388608)) ≤ P * (2 * (V * D))) as H4 by lia. nia.
Qed.

(** ** The outputs of a chunk *)

Section Split.
Context (O P : Z).
Hypothesis HO : O ≤ 65535.
Hypothesis HP : 1 ≤ P ≤ 1024.
Hypothesis HPO : P ≤ O.

Abbreviation V := (float_round (O * 2 ^ 23) P).

Lemma per_thread_bound : 2 ^ 24 * Z.abs (V * P - O * 2 ^ 23) ≤ O * 2 ^ 23.
Proof. apply float_round_bound; nia. Qed.

Lemma per_thread_equal : O = P → V = 2 ^ 23.
Proof.
  intros ->. unfold float_round. cbv zeta. rewrite (Z.mul_comm P), Z.div_mul by lia. rewrite Z.log2_pow2 by lia. change (2 ^ (23 - 23)) with 1. rewrite !Z.mul_1_r.
  apply round_even_exact; lia.
Qed.

Lemma per_thread_pos : 2 ^ 23 ≤ V.
Proof.
  destruct (decide (O = P)) as [E|Hne]; [by rewrite per_thread_equal|]. pose proof per_thread_bound as Hb. change (2 ^ 24) with 16777216 in *. change (2 ^ 23) with 8388608 in *. nia.
Qed.

(** The outputs before part [k] *)
Definition first_output (k : Z) : Z := if k =? 0 then 0 else outputs_before O P k.

Lemma product_bound k : 1 ≤ k → 2 ^ 24 * Z.abs (float_round (V * k) 1 - V * k) ≤ V * k.
Proof. intros Hk. pose proof per_thread_pos. pose proof (float_round_bound (V * k) 1 ltac:(lia)) as Hb. rewrite !Z.mul_1_r in Hb. apply Hb. nia. Qed.

Lemma first_output_last : first_output P = O.
Proof.
  unfold first_output. rewrite (proj2 (Z.eqb_neq _ _)) by lia. unfold outputs_before. cbv zeta.
  pose proof per_thread_bound as H1. pose proof (product_bound P ltac:(lia)) as H2. set (p := float_round (V * P) 1) in *.
  change (2 ^ 24) with 16777216 in *. change (2 ^ 23) with 8388608 in *. symmetry. apply Z.div_unique with (2 * p + 8388608 - 16777216 * O); lia.
Qed.

Lemma first_output_next k : 0 ≤ k < P → first_output k + 1 ≤ first_output (k + 1).
Proof.
  intros Hk. unfold first_output. rewrite (proj2 (Z.eqb_neq (k + 1) 0)) by lia. unfold outputs_before. cbv zeta.
  pose proof per_thread_bound as H1. pose proof per_thread_pos as H2. pose proof (product_bound (k + 1) ltac:(lia)) as H3.
  assert (0 ≤ k + 1 < 2 ^ 24) as Hk24 by (change (2 ^ 24) with 16777216; lia).
  destruct (decide (O = P)) as [E|Hne].
  { rewrite per_thread_equal by done. rewrite (float_round_exact (k + 1)) by lia. destruct (Z.eqb_spec k 0) as [->|].
    - reflexivity.
    - rewrite (float_round_exact k) by lia. change (2 ^ 24) with 16777216. change (2 ^ 23) with 8388608. Z.div_mod_to_equations. lia. }
  assert (∀ k, 1 ≤ k → 2 ^ 24 * Z.abs (float_round (V * k) 1 - V * k) ≤ V * k) as H5 by apply product_bound. set (v := V) in *. clearbody v.
  set (p := float_round (v * (k + 1)) 1) in *. change (2 ^ 24) with 16777216 in *. change (2 ^ 23) with 8388608 in *.
  assert ((P + 1) * 16777215 ≤ 2 * (v * P)) as HVP by (clear H3; set (X := v * P) in *; lia).
  destruct (Z.eqb_spec k 0) as [->|Hk0].
  - apply Z.div_le_lower_bound; lia.
  - assert (2 * 8388608 * 8388608 ≤ v * (16777216 - 2 * k - 1)) as HD by (apply (part_bound P v k); lia). pose proof (H5 k ltac:(lia)) as H4. set (p' := float_round (v * k) 1) in *.
    assert (p' + 8388608 ≤ p) by nia. Z.div_mod_to_equations. lia.
Qed.
End Split.

Lemma first_output_0 O P : first_output O P 0 = 0.
Proof. done. Qed.

Lemma first_output_mono O P i j : O ≤ 65535 → 1 ≤ P ≤ 1024 → P ≤ O → 0 ≤ i ≤ j → j ≤ P → first_output O P i + (j - i) ≤ first_output O P j.
Proof.
  intros HO HP HPO Hi Hj. replace j with (i + Z.of_nat (Z.to_nat (j - i))) in * by lia. induction (Z.to_nat (j - i)) as [|n IH]; [rewrite Z.add_0_r; lia|].
  pose proof (first_output_next O P HO HP HPO (i + Z.of_nat n) ltac:(lia)). replace (i + Z.of_nat (S n)) with (i + Z.of_nat n + 1) by lia. lia.
Qed.

Lemma first_output_find O P o : O ≤ 65535 → 1 ≤ P ≤ 1024 → P ≤ O → 0 ≤ o < O → ∃ k, 0 ≤ k < P ∧ first_output O P k ≤ o < first_output O P (k + 1).
Proof.
  intros HO HP HPO Ho. assert (∀ n : nat, Z.of_nat n ≤ P → o < first_output O P (Z.of_nat n) → ∃ k, 0 ≤ k < Z.of_nat n ∧ first_output O P k ≤ o < first_output O P (k + 1)) as Hn.
  { induction n as [|n IH]; intros Hn Hlt; [pose proof (first_output_0 O P : first_output O P (Z.of_nat 0) = 0); lia|].
    destruct (Z.lt_ge_cases o (first_output O P (Z.of_nat n))) as [H|H].
    - destruct (IH ltac:(lia) H) as (k & ? & ?). exists k. split; [lia|done].
    - exists (Z.of_nat n). replace (Z.of_nat n + 1) with (Z.of_nat (S n)) by lia. split; [lia|done]. }
  destruct (Hn (Z.to_nat P)) as (k & Hk & Hko); [lia|rewrite Z2Nat.id, first_output_last by lia; lia|]. exists k. split; [lia|done].
Qed.

(** ** The plan *)

(** The chunks and outputs of a request, and its thread *)
Record piece := { pc_thread : Z; pc_q0 : Z; pc_nq : Z; pc_o0 : Z; pc_no : Z }.

Section Plan.
Context (O K T : Z).
Hypothesis HO : 1 ≤ O ≤ 65535.
Hypothesis HT : 1 ≤ T ≤ 1024.
Hypothesis HK : 1 ≤ K.

Definition left_chunks : Z := K mod T.
Definition full_chunks : Z := K / T.
Definition threads_per_chunk : Z := Z.min (T / left_chunks) O.
Abbreviation P := threads_per_chunk.

Definition left_piece (chunk tc : Z) : piece :=
  {| pc_thread := chunk * P + tc; pc_q0 := chunk; pc_nq := 1; pc_o0 := first_output O P tc; pc_no := first_output O P (tc + 1) - first_output O P tc |}.
Definition full_piece (th : Z) : piece := {| pc_thread := th; pc_q0 := left_chunks + th * full_chunks; pc_nq := full_chunks; pc_o0 := 0; pc_no := O |}.

Definition left_pieces (chunks : Z) : list piece := seqZ 0 chunks ≫= (λ chunk, left_piece chunk <$> seqZ 0 P).
Definition plan : list piece := left_pieces left_chunks ++ (if full_chunks =? 0 then [] else full_piece <$> seqZ 0 T).

Lemma chunk_numbers : 0 ≤ left_chunks < T ∧ 0 ≤ full_chunks ∧ left_chunks + T * full_chunks = K.
Proof. unfold left_chunks, full_chunks. pose proof (Z.div_mod K T ltac:(lia)). pose proof (Z.mod_pos_bound K T ltac:(lia)). split_and!; [lia|lia|apply Z.div_pos; lia|lia]. Qed.

Lemma threads_bound : 0 < left_chunks → 1 ≤ P ≤ 1024 ∧ P ≤ O ∧ P * left_chunks ≤ T.
Proof.
  intros H. destruct chunk_numbers as (Hl & _). unfold threads_per_chunk. assert (1 ≤ T / left_chunks) by (apply Z.div_le_lower_bound; lia).
  assert (T / left_chunks ≤ T) by (apply Z.div_le_upper_bound; nia). pose proof (Z.mul_div_le T left_chunks H). split_and!; try lia. nia.
Qed.

Lemma elem_of_plan p : p ∈ plan ↔ (∃ chunk tc, p = left_piece chunk tc ∧ 0 ≤ chunk < left_chunks ∧ 0 ≤ tc < P) ∨ (∃ th, p = full_piece th ∧ 0 ≤ th < T ∧ full_chunks ≠ 0).
Proof.
  unfold plan, left_pieces. rewrite elem_of_app, list_elem_of_bind. split.
  - intros [(chunk & Hp & Hc%elem_of_seqZ)|H].
    + apply list_elem_of_fmap in Hp as (tc & -> & Htc%elem_of_seqZ). left. exists chunk, tc. split_and!; [done|lia..].
    + right. destruct (Z.eqb_spec full_chunks 0); [by apply elem_of_nil in H|]. apply list_elem_of_fmap in H as (th & -> & Hth%elem_of_seqZ). exists th. split_and!; [done|lia..|done].
  - intros [(chunk & tc & -> & Hc & Htc)|(th & -> & Hth & Hne)].
    + left. exists chunk. split; [|by apply elem_of_seqZ; lia]. apply list_elem_of_fmap. exists tc. split; [done|]. apply elem_of_seqZ. lia.
    + right. rewrite (proj2 (Z.eqb_neq _ _)) by done. apply list_elem_of_fmap. exists th. split; [done|]. apply elem_of_seqZ. lia.
Qed.

Definition piece_tiles (p : piece) (q o : Z) : Prop := request_tiles (pc_q0 p) (pc_nq p) (pc_o0 p) (pc_no p) q o.

Lemma plan_good p : p ∈ plan → good_request O K (pc_q0 p) (pc_nq p) (pc_o0 p) (pc_no p) ∧ 0 ≤ pc_thread p < T.
Proof.
  destruct chunk_numbers as (Hl & Hf & E). intros [(chunk & tc & -> & Hc & Htc)|(th & -> & Hth & Hne)]%elem_of_plan; cbn.
  - destruct threads_bound as (HP & HPO & HPT); [lia|].
    pose proof (first_output_mono O P 0 tc ltac:(lia) HP HPO ltac:(lia) ltac:(lia)) as H1. pose proof (first_output_mono O P tc (tc + 1) ltac:(lia) HP HPO ltac:(lia) ltac:(lia)) as H2.
    pose proof (first_output_mono O P (tc + 1) P ltac:(lia) HP HPO ltac:(lia) ltac:(lia)) as H3. rewrite first_output_last in H3 by lia. rewrite first_output_0 in H1.
    split; [|nia]. split; [nia|lia|by left].
  - split; [|lia]. split; [nia|lia|by right].
Qed.

(** Every tile is in a piece, *)
Lemma plan_covers q o : 0 ≤ q < K → 0 ≤ o < O → ∃ p, p ∈ plan ∧ piece_tiles p q o.
Proof.
  intros Hq Ho. destruct chunk_numbers as (Hl & Hf & E). destruct (Z.lt_ge_cases q left_chunks) as [Hlt|Hge].
  - destruct threads_bound as (HP & HPO & HPT); [lia|]. destruct (first_output_find O P o ltac:(lia) HP HPO Ho) as (tc & Htc & Hto).
    exists (left_piece q tc). split; [apply elem_of_plan; left; exists q, tc; split_and!; [done|lia..]|]. unfold piece_tiles, request_tiles. cbn. lia.
  - assert (full_chunks ≠ 0) as Hne by nia. exists (full_piece ((q - left_chunks) / full_chunks)).
    pose proof (Z.div_mod (q - left_chunks) full_chunks Hne). pose proof (Z.mod_pos_bound (q - left_chunks) full_chunks ltac:(lia)).
    split; [apply elem_of_plan; right; eexists; split_and!; [done| |..|done]|unfold piece_tiles, request_tiles; cbn; nia].
    + apply Z.div_pos; lia.
    + apply Z.div_lt_upper_bound; nia.
Qed.

(** in one only. *)
Lemma plan_apart p p' q o : p ∈ plan → p' ∈ plan → piece_tiles p q o → piece_tiles p' q o → p = p'.
Proof.
  destruct chunk_numbers as (Hl & Hf & E). unfold piece_tiles, request_tiles.
  intros [(chunk & tc & -> & Hc & Htc)|(th & -> & Hth & Hne)]%elem_of_plan [(chunk' & tc' & -> & Hc' & Htc')|(th' & -> & Hth' & Hne')]%elem_of_plan; cbn; intros [Hq Ho] [Hq' Ho'].
  - assert (chunk = chunk') as <- by lia. destruct threads_bound as (HP & HPO & HPT); [lia|]. destruct (Z.lt_trichotomy tc tc') as [H|[<-|H]]; [|done|].
    + pose proof (first_output_mono O P (tc + 1) tc' ltac:(lia) HP HPO ltac:(lia) ltac:(lia)). lia.
    + pose proof (first_output_mono O P (tc' + 1) tc ltac:(lia) HP HPO ltac:(lia) ltac:(lia)). lia.
  - nia.
  - nia.
  - f_equal. nia.
Qed.

Lemma plan_nodup : NoDup plan.
Proof.
  unfold plan, left_pieces. apply NoDup_app. split_and!.
  - apply NoDup_bind.
    + intros x1 x2 p Hx1 Hx2 Hp1 Hp2. apply list_elem_of_fmap in Hp1 as (t1 & -> & _). apply list_elem_of_fmap in Hp2 as (t2 & Heq & _). by injection Heq.
    + intros x _. apply NoDup_fmap_2_strong; [|apply NoDup_seqZ]. intros a b Ha Hb [= ? ? ?]. lia.
    + apply NoDup_seqZ.
  - intros p Hp Hp2. destruct (Z.eqb_spec full_chunks 0); [by apply elem_of_nil in Hp2|]. apply list_elem_of_fmap in Hp2 as (th & -> & Hth%elem_of_seqZ).
    apply list_elem_of_bind in Hp as (chunk & Hp & Hc%elem_of_seqZ). apply list_elem_of_fmap in Hp as (tc & Heq & _). injection Heq as _ Hq _ _ _. destruct chunk_numbers as (? & ? & _). nia.
  - destruct (Z.eqb_spec full_chunks 0); [apply NoDup_nil_2|]. apply NoDup_fmap_2_strong; [|apply NoDup_seqZ]. intros a b _ _ [= ->]. done.
Qed.
End Plan.

(** ** [run_kernel] *)

Lemma length_left_pieces O K T n : 0 ≤ n → 0 ≤ threads_per_chunk O K T → Z.of_nat (length (left_pieces O K T n)) = n * threads_per_chunk O K T.
Proof.
  intros Hn HP. unfold left_pieces. replace n with (Z.of_nat (Z.to_nat n)) by lia. induction (Z.to_nat n) as [|m IH]; [done|].
  rewrite Nat2Z.inj_succ, <- Z.add_1_r, seqZ_app by lia. rewrite bind_app, length_app, Nat2Z.inj_add, IH, seqZ_one. cbn [mbind list_bind]. rewrite app_nil_r, length_fmap, length_seqZ. lia.
Qed.

(** The dimensions of the backend, as the fields hold them (the output and input memory in words), and the area of the first batch *)
Record dims := { d_N : Z; d_O : Z; d_C : Z; d_SL : Z; d_K : Z; d_T : Z; d_pO : Z; d_pI : nat → Z; d_slice : Z; d_aligned : Z; d_first : nat }.

Definition piece_request (D : dims) (a : nat) (n : Z) (keep : bool) (p : piece) : compute_req :=
  request (d_N D) (d_O D) (d_C D) (d_SL D) (d_pO D) (d_pI D) a n keep (pc_q0 p) (pc_nq p) (pc_o0 p) (pc_no p).
Definition D_plan (D : dims) : list piece := plan (d_O D) (d_K D) (d_T D).

Record dims_of (D : dims) (c : PAR2ProcCPU) : Prop := {
  do_N : inputBatchSize c = d_N D;
  do_O : Z.of_nat (length (outputExponents c)) = d_O D;
  do_chunkLen : chunkLen c = 8 * d_C D;
  do_aligned : alignedCurrentSliceSize c = 8 * (d_SL D + 1);
  do_K : numChunks c = d_K D;
  do_T : numThreads c = d_T D;
  do_mem : memProcessing c = Some (2 * d_pO D);
}.

Section Kernel.
Context (D : dims) (c : PAR2ProcCPU) (a : nat) (n : Z) (keep : bool).
Hypothesis Hc : dims_of D c.
Hypothesis HO : 1 ≤ d_O D ≤ 65535.
Hypothesis HT : 1 ≤ d_T D ≤ 1024.
Hypothesis HK : 1 ≤ d_K D.
Hypothesis Hn : u16 n.

Abbreviation P := (threads_per_chunk (d_O D) (d_K D) (d_T D)).
Abbreviation left := (left_chunks (d_K D) (d_T D)).
Abbreviation full := (full_chunks (d_K D) (d_T D)).
Abbreviation to_request p := (pc_thread p, piece_request D a n keep p).
Abbreviation fo k := (first_output (d_O D) P k).

Lemma leftover_chunk_ok chunk reqs : 0 ≤ chunk < left →
  leftover_chunk c (2 * d_pI D a) (2 * d_pO D) keep a n P (P * left) chunk (chunk * P, reqs)
  = Some ((chunk + 1) * P, reqs ++ ((λ tc, to_request (left_piece (d_O D) (d_K D) (d_T D) chunk tc)) <$> seqZ 0 P)).
Proof.
  intros Hchunk. destruct Hc as [EN EO EC EA EK ET EM]. destruct (threads_bound (d_O D) (d_K D) (d_T D) HO HT HK ltac:(lia)) as (HP & HPO & HPT).
  unfold leftover_chunk. cbv zeta. rewrite EO, EC, EA. cbn [fst snd].
  match goal with |- context [for_loopM 0 P ?body ?s0] =>
    destruct (for_loopM_ind (λ k st, st = (chunk * P + k, fo k, reqs ++ ((λ tc, to_request (left_piece (d_O D) (d_K D) (d_T D) chunk tc)) <$> seqZ 0 k))) 0 P body s0) as (st & Est & ->)
  end; [lia| | |].
  - rewrite seqZ_nil, fmap_nil, app_nil_r, Z.add_0_r by lia. done.
  - intros tc st Htc ->. rewrite (proj2 (Z.leb_gt _ _)) by nia.
    pose proof (first_output_mono (d_O D) P tc (tc + 1) ltac:(lia) HP HPO ltac:(lia) ltac:(lia)) as H2. pose proof (first_output_mono (d_O D) P 0 tc ltac:(lia) HP HPO ltac:(lia) ltac:(lia)) as H1.
    pose proof (first_output_mono (d_O D) P (tc + 1) P ltac:(lia) HP HPO ltac:(lia) ltac:(lia)) as H3. rewrite first_output_last in H3 by lia. rewrite first_output_0 in H1.
    assert (outputs_before (d_O D) P (tc + 1) = fo (tc + 1)) as -> by (unfold first_output; by rewrite (proj2 (Z.eqb_neq _ _)) by lia).
    assert (in_range 32 (fo (tc + 1) - fo tc)) as Hr by (split; [lia|]; change (2 ^ 32) with 4294967296; lia). rewrite (wrap_small 32 _ Hr). rewrite (proj2 (Z.ltb_ge _ _)) by lia.
    replace (fo tc + (fo (tc + 1) - fo tc)) with (fo (tc + 1)) by lia.
    assert ((tc =? P - 1) && negb (fo (tc + 1) =? d_O D) = false) as ->.
    { destruct (Z.eqb_spec tc (P - 1)) as [->|]; [|done]. replace (P - 1 + 1) with P by lia. rewrite first_output_last by lia. by rewrite Z.eqb_refl. }
    eexists. split; [reflexivity|]. rewrite seqZ_app, fmap_app, app_assoc by lia. rewrite Z.add_0_l, seqZ_one. cbn [fmap list_fmap].
    assert (u16 (fo (tc + 1) - fo tc)) as Hr16 by (split; [lia|]; change (2 ^ 16) with 65536; lia).
    f_equal; [f_equal; lia|]. f_equal. f_equal. unfold left_piece, piece_request, request, makeReq. cbn [pc_thread pc_q0 pc_nq pc_o0 pc_no]. rewrite EN, EC, !wrap_small by done.
    rewrite Z.mul_1_r. done.
  - rewrite Est. cbn [mbind option_bind]. do 2 f_equal. lia.
Qed.

Lemma leftover_requests_ok : leftover_requests c (2 * d_pI D a) (2 * d_pO D) keep a n
  = Some (Z.of_nat (length (D_plan D)), (λ p, to_request p) <$> left_pieces (d_O D) (d_K D) (d_T D) left).
Proof.
  destruct Hc as [EN EO EC EA EK ET EM]. destruct (chunk_numbers (d_K D) (d_T D) HT HK) as (Hl & Hf & E).
  unfold leftover_requests. cbv zeta. rewrite EO, EK, ET. fold left full. fold P. unfold D_plan, plan. rewrite length_app, Nat2Z.inj_add.
  destruct (Z.eqb_spec left 0) as [E0|Hne].
  - rewrite E0. assert (full ≠ 0) as Hfne by nia. rewrite (proj2 (Z.eqb_neq _ _)) by done. rewrite length_fmap, length_seqZ. unfold left_pieces. rewrite (seqZ_nil 0 0) by lia. cbn [mbind list_bind fmap list_fmap length]. rewrite Z2Nat.id by lia. done.
  - destruct (threads_bound (d_O D) (d_K D) (d_T D) HO HT HK ltac:(lia)) as (HP & HPO & HPT).
    rewrite (proj2 (Z.ltb_ge P 1)) by lia. pose proof (per_thread_pos (d_O D) P ltac:(lia) HP HPO) as Hpos. rewrite (proj2 (Z.ltb_ge _ (2 ^ 23))) by exact Hpos.
    rewrite (proj2 (Z.ltb_ge (d_T D) _)) by lia.
    destruct (for_loopM_ind (λ k st, st = (k * P, (λ p, to_request p) <$> left_pieces (d_O D) (d_K D) (d_T D) k)) 0 left
      (leftover_chunk c (2 * d_pI D a) (2 * d_pO D) keep a n P (P * left)) (0, [])) as (st & -> & ->); [lia| | |].
    + unfold left_pieces. by rewrite (seqZ_nil 0 0) by lia.
    + intros chunk st Hchunk ->. rewrite leftover_chunk_ok by done. eexists. split; [reflexivity|]. unfold left_pieces. rewrite seqZ_app, bind_app, fmap_app by lia. rewrite Z.add_0_l, seqZ_one.
      cbn [mbind list_bind]. rewrite app_nil_r, <- list_fmap_compose. done.
    + cbn [mbind option_bind]. rewrite length_left_pieces by lia. do 2 f_equal. destruct (Z.eqb_spec full 0); [cbn; lia|]. rewrite length_fmap, length_seqZ. lia.
Qed.

Lemma full_requests_ok : full_requests c (2 * d_pI D a) (2 * d_pO D) keep a n = (λ p, to_request p) <$> (if full =? 0 then [] else full_piece (d_O D) (d_K D) (d_T D) <$> seqZ 0 (d_T D)).
Proof.
  destruct Hc as [EN EO EC EA EK ET EM]. unfold full_requests. cbv zeta. rewrite EO, EK, ET, EC, EA. fold left full. destruct (full =? 0); [done|]. rewrite <- list_fmap_compose. apply list_fmap_ext. intros i th _.
  cbn. unfold piece_request, request, makeReq. cbn [pc_q0 pc_nq pc_o0 pc_no full_piece]. f_equal. rewrite EN, EC, !wrap_small by (done || (split; [lia|]; change (2 ^ 16) with 65536; lia)). f_equal; lia.
Qed.

Lemma run_kernel_ok area : staging c !! a = Some area → src area = Some (2 * d_pI D a) → processingAdd c = keep →
  run_kernel c a n = Some (set_area a (set_procRefs (Z.of_nat (length (D_plan D)))) (set_processingAdd true c), (λ p, to_request p) <$> D_plan D).
Proof.
  intros Ha Hs Hk. pose proof (do_O _ _ Hc) as EO. pose proof (do_mem _ _ Hc) as EM. unfold run_kernel. destruct (outputExponents c) as [|e l]; [cbn in EO; lia|].
  rewrite Ha. cbn [mbind option_bind]. rewrite Hs, EM. cbn [mbind option_bind]. rewrite Hk, leftover_requests_ok. cbn [mbind option_bind]. rewrite full_requests_ok. unfold D_plan, plan. by rewrite fmap_app.
Qed.
End Kernel.
