(* ===== verification/BackendStepSpec.v ===== *)
(** * BackendStepSpec.v: the invariant of a run, and the steps that keep it

    An invariant of the state that the threads share: the batches pass through the staging areas,
    an area is used again only when its batch is complete, and every piece of the plan adds the
    batches to its tiles in order.  Then one lemma for every kind of step of the main thread and
    the transfer thread: an input is added, the end is announced, a message is handled. *)

From stdpp Require Import relations.
From S2P Require Import Prelude LinOp GF GfCoeff GfLookup GfChecksum GfPacked GfPackedSpec BackendCpu BackendThreads BackendWorkSpec BackendPlanSpec.

#[export] Instance piece_eq_dec : EqDecision piece.
Proof. solve_decision. Defined.

(** ** Batches *)

Section Batches.
Context (Nn total : nat).
Hypothesis HNn : (0 < Nn)%nat.

(** The batches, the messages to the transfer thread, and the batches that the first [e] messages submit *)
Definition batches : nat := (total / Nn + if decide (total mod Nn = 0%nat) then 0 else 1)%nat.
Definition messages : nat := (total + if decide (total mod Nn = 0%nat) then 0 else 1)%nat.
Definition submitted (e : nat) : nat := if decide (e ≤ total)%nat then (e / Nn)%nat else batches.
Definition batch_size (b : nat) : nat := Nat.min Nn (total - b * Nn).

Lemma div_range a b : (a / Nn = b ↔ b * Nn ≤ a < S b * Nn)%nat.
Proof.
  pose proof (Nat.div_mod_eq a Nn) as E. pose proof (Nat.mod_upper_bound a Nn ltac:(lia)) as Hm. split; [intros <-; nia|].
  intros H. symmetry. apply (Nat.div_unique a Nn b (a - b * Nn)); lia.
Qed.

Lemma div_same b i : (i < Nn)%nat → ((b * Nn + i) / Nn = b)%nat.
Proof. intros Hi. apply div_range. lia. Qed.

Lemma submitted_mono e e' : (e ≤ e')%nat → (e' ≤ messages)%nat → (submitted e ≤ submitted e')%nat.
Proof.
  intros H Hm. unfold submitted, batches. destruct (decide (e' ≤ total)%nat) as [H'|H'].
  - rewrite decide_True by lia. apply Nat.Div0.div_le_mono. lia.
  - destruct (decide (e ≤ total)%nat); [|done]. assert (e / Nn ≤ total / Nn)%nat by (apply Nat.Div0.div_le_mono; lia). lia.
Qed.

Lemma submitted_messages : submitted messages = batches.
Proof. unfold submitted, messages, batches. destruct (decide (total mod Nn = 0)%nat); [rewrite !Nat.add_0_r, decide_True by lia; done|by rewrite decide_False by lia]. Qed.

(** A message submits the batch of its input when it is the last one of the batch. *)
Lemma submitted_S e : (e < total)%nat → submitted (S e) = if decide (S e mod Nn = 0)%nat then S (e / Nn) else (e / Nn)%nat.
Proof.
  intros He. unfold submitted. rewrite decide_True by lia. pose proof (Nat.div_mod_eq e Nn) as E1. pose proof (Nat.mod_upper_bound e Nn ltac:(lia)) as H1.
  pose proof (Nat.div_mod_eq (S e) Nn) as E2. pose proof (Nat.mod_upper_bound (S e) Nn ltac:(lia)) as H2. case_decide as Hd.
  - apply div_range. rewrite Hd in *. set (q1 := (e / Nn)%nat) in *. set (q2 := (S e / Nn)%nat) in *. clearbody q1 q2. assert (q2 = S q1) by nia. nia.
  - apply div_range. set (q1 := (e / Nn)%nat) in *. set (q2 := (S e / Nn)%nat) in *. clearbody q1 q2. assert (q2 = q1) by nia. nia.
Qed.

Lemma submitted_at e : (e ≤ total)%nat → submitted e = (e / Nn)%nat.
Proof. intros He. unfold submitted. by rewrite decide_True. Qed.

Lemma batch_size_full e : (e < total)%nat → (S e mod Nn = 0)%nat → batch_size (e / Nn) = Nn.
Proof.
  intros He Hd. unfold batch_size. pose proof (Nat.div_mod_eq e Nn) as E1. pose proof (Nat.mod_upper_bound e Nn ltac:(lia)). pose proof (Nat.div_mod_eq (S e) Nn) as E2. rewrite Hd in E2.
  set (q1 := (e / Nn)%nat) in *. set (q2 := (S e / Nn)%nat) in *. clearbody q1 q2. assert (q2 = S q1) by nia. nia.
Qed.

Lemma batch_size_last : (total mod Nn ≠ 0)%nat → batch_size (total / Nn) = (total mod Nn)%nat.
Proof. intros H. unfold batch_size. pose proof (Nat.div_mod_eq total Nn). pose proof (Nat.mod_upper_bound total Nn ltac:(lia)). nia. Qed.

Lemma batch_of_lt e : (e < total)%nat → (e / Nn < batches)%nat.
Proof.
  intros He. unfold batches. assert (e / Nn ≤ total / Nn)%nat by (apply Nat.Div0.div_le_mono; lia). case_decide as Hd; [|lia].
  pose proof (Nat.div_mod_eq total Nn) as E. rewrite Hd in E. assert (e / Nn < total / Nn)%nat; [|lia]. apply Nat.Div0.div_lt_upper_bound. lia.
Qed.

Lemma batch_start b : (b < batches)%nat → (b * Nn < total)%nat.
Proof.
  unfold batches. pose proof (Nat.div_mod_eq total Nn). pose proof (Nat.mod_upper_bound total Nn ltac:(lia)). case_decide; nia.
Qed.

Lemma batch_end b : (b < batches)%nat → (Nat.min (S b * Nn) total = b * Nn + batch_size b)%nat.
Proof. intros Hb. unfold batch_size. pose proof (batch_start b Hb). lia. Qed.
End Batches.

(** ** The invariant *)

(** What an input is added with: its coefficients, or the number from which they are computed *)
Definition resolves (t : gfmat_tables) (exps : list Z) (arg : Z + list Z) (coeffs : list Z) : Prop :=
  match arg with
  | inr l => l = coeffs
  | inl num => ∃ inputLog, gfmat_input_log t num = Some inputLog ∧ ∀ o e, exps !! o = Some e → ∃ v, gfmat_coeff_from_log t inputLog e = Some v ∧ coeffs !! o = Some v
  end.

Section Run.
Context (t : gfmat_tables) (D : dims) (A : nat) (W : Z) (sent : list (array * list Z)) (exps : list Z).

Abbreviation N := (d_N D).
Abbreviation O := (d_O D).
Abbreviation C := (d_C D).
Abbreviation SL := (d_SL D).
Abbreviation K := (d_K D).
Abbreviation pO := (d_pO D).
Abbreviation pI := (d_pI D).
Abbreviation width q := (Z.min C (SL + 1 - C * q)).
Abbreviation Nn := (Z.to_nat N).
Abbreviation total := (length sent).
Abbreviation area_of b := ((d_first D + b) mod A)%nat.
Abbreviation pieces := (D_plan D).

(** What the backend is set up for *)
Record setting : Prop := {
  st_exp : exp_table (gf_exp t);
  st_C : 0 < C ≤ SL + 1;
  st_SL : 0 < SL < 2 ^ 32;
  st_W : 4 * SL - 4 < W ≤ 4 * SL;
  st_N : 1 ≤ N ≤ 65535;
  st_O : 1 ≤ O ≤ 65535;
  st_T : 1 ≤ d_T D ≤ 1024;
  st_K : (K - 1) * C < SL + 1 ≤ K * C;
  st_A : (0 < A)%nat;
  st_places : ∀ a, (a < A)%nat → 2 * pI a = Z.of_nat a * (N * d_aligned D);
  st_areas : ∀ a a', a ≠ a' → (a < A)%nat → (a' < A)%nat → pI a + 4 * (N * (SL + 1)) ≤ pI a' ∨ pI a' + 4 * (N * (SL + 1)) ≤ pI a;
  st_before : ∀ a, (a < A)%nat → before_outputs N SL pO pI a;
  st_sent : ∀ s, s ∈ sent → (Z.to_nat O ≤ length s.2)%nat ∧ Forall (λ c, u16 c) s.2;
  st_exps : Z.of_nat (length exps) = O ∧ ∀ o s, exps !! o = Some 0 → s ∈ sent → s.2 !! o = Some 1;
}.
Hypothesis Hset : setting.

(** Input [e]: its buffer, its coefficients, and the words of its packed blocks *)
Definition input_at (e : nat) : array * list Z := default (∅, []) (sent !! e).
Definition coef (e : nat) (o : Z) : Z := nth (Z.to_nat o) (input_at e).2 0.
Definition value (e : nat) (b k : Z) : Z := slice_value SL (input_at e).1 W b k.

(** The sum of the first [n] inputs in a tile *)
Definition tile_sum (n : nat) (q o x : Z) : Z := xsum (λ e, mul16 (coef e o) (value e (q * C + x / 4) (x mod 4))) (seq 0 n).

(** The fields that do not change *)
Record cpu_ok (c : PAR2ProcCPU) : Prop := {
  ck_dims : dims_of D c;
  ck_areas : length (staging c) = A;
  ck_exps : outputExponents c = exps;
  ck_min : minInBatchSize c = N;
  ck_size : currentSliceSize c = 2 * W;
  ck_slice : sliceSize c = d_slice D ∧ alignedSliceSize c = d_aligned D;
  ck_coeffs : ∀ a area, staging c !! a = Some area → length (procCoeffs area) = (Z.to_nat O * Nn)%nat;
}.

(** Message [e] to the transfer thread *)
Definition message (e : nat) : transfer_data :=
  if decide (e < total)%nat then
    Prepare (Some (input_at e).1) (2 * W) (2 * pI (area_of (e / Nn)%nat)) (8 * SL) N (Z.of_nat (e mod Nn)) (8 * C) (if decide (S e mod Nn = 0)%nat then N else 0) (area_of (e / Nn)%nat)
  else Prepare None 0 0 0 0 0 0 (Z.of_nat (total mod Nn)) (area_of (total / Nn)%nat).

Definition worker_message (bp : nat * piece) : compute_req :=
  piece_request D (area_of bp.1) (Z.of_nat (batch_size Nn total bp.1)) (negb (bool_decide (bp.1 = 0%nat))) bp.2.

Definition complete (dn : piece → nat) (b : nat) : Prop := ∀ p, p ∈ pieces → (b < dn p)%nat.
Definition pending (dn : piece → nat) (b : nat) : list piece := filter (λ p, (dn p ≤ b)%nat) pieces.

(** The areas have their memory; it is given out with the first input. *)
Definition memory_ok (se : nat) (c : PAR2ProcCPU) : Prop :=
  (∀ a area, staging c !! a = Some area → src area = Some (2 * pI a)) ∨ se = 0%nat ∧ ∀ a area, staging c !! a = Some area → src area = None.

(** [pe] messages are handled of the [se] that were sent, [sb] batches are with the workers, and
    piece [p] has done [dn p] batches. *)
Record inv (pe se sb : nat) (dn : piece → nat) (Q : nat → list (nat * piece)) (s : system) : Prop := {
  iv_cpu : cpu_ok (cpu s);
  iv_memory : memory_ok se (cpu s);
  iv_order : (pe ≤ se)%nat ∧ (se ≤ messages Nn total)%nat ∧ (sb ≤ submitted Nn total pe)%nat;
  iv_queue : transferThread s = message <$> seq pe (se - pe);
  iv_futures : futures s = [];
  iv_position : currentStagingArea (cpu s) = area_of (submitted Nn total se) ∧
    currentStagingInputs (cpu s) = Z.of_nat (Nat.min se total - submitted Nn total se * Nn);
  iv_adding : processingAdd (cpu s) = negb (bool_decide (sb = 0%nat));
  iv_workers : length (thWorkers s) = Z.to_nat (d_T D) ∧ ∀ i q, thWorkers s !! i = Some q → q = worker_message <$> Q i;
  iv_owner : ∀ i b p, (b, p) ∈ Q i → p ∈ pieces ∧ pc_thread p = Z.of_nat i;
  iv_work : ∀ p, p ∈ pieces → (dn p ≤ sb)%nat ∧ filter (λ bp, bp.2 = p) (Q (Z.to_nat (pc_thread p))) = (λ b, (b, p)) <$> seq (dn p) (sb - dn p);
  iv_reuse : ∀ e b, (e < se)%nat → (e < total)%nat → (b < e / Nn)%nat → area_of b = area_of (e / Nn)%nat → complete dn b;
  iv_active : ∀ a area, staging (cpu s) !! a = Some area → isActive area = true ↔ ∃ b, (b < submitted Nn total se)%nat ∧ area_of b = a ∧ ¬ complete dn b;
  iv_refs : ∀ b area, (b < sb)%nat → ¬ complete dn b → staging (cpu s) !! area_of b = Some area → procRefs area = Z.of_nat (length (pending dn b));
  iv_coeffs : ∀ e area, (e < se)%nat → (e < total)%nat → ¬ complete dn (e / Nn)%nat → staging (cpu s) !! area_of (e / Nn)%nat = Some area →
    ∀ o, 0 ≤ o < O → procCoeffs area !! Z.to_nat (o * N + Z.of_nat (e mod Nn)) = Some (coef e o);
  iv_inputs : ∀ e, (e < pe)%nat → (e < total)%nat → ¬ complete dn (e / Nn)%nat → ∀ b k, 0 ≤ b < SL + 1 → 0 ≤ k < 4 →
    word (memory s) (block_at (pI (area_of (e / Nn)%nat)) N C SL (Z.of_nat (e mod Nn)) b + k) = value e b k;
  iv_outputs : ∀ p q o x, p ∈ pieces → (0 < dn p)%nat → piece_tiles p q o → 0 ≤ x < 4 * width q →
    word (memory s) (out_at O C SL pO q o + x) = tile_sum (Nat.min (dn p * Nn) total) q o x;
}.

(** ** Facts about the setting *)

Lemma Nn_pos : (0 < Nn)%nat.
Proof. destruct Hset. lia. Qed.

Lemma K_pos : 1 ≤ K.
Proof. destruct Hset. nia. Qed.

Lemma area_lt b : (area_of b < A)%nat.
Proof. destruct Hset. apply Nat.mod_upper_bound. lia. Qed.

Lemma coef_lookup e o : (e < total)%nat → 0 ≤ o < O → (input_at e).2 !! Z.to_nat o = Some (coef e o) ∧ u16 (coef e o).
Proof.
  intros He Ho. destruct Hset. unfold coef, input_at. destruct (lookup_lt_is_Some_2 sent e He) as [s Hs]. rewrite Hs. cbn [default].
  destruct (st_sent0 s) as [Hl Hf]; [by eapply list_elem_of_lookup_2|]. destruct (lookup_lt_is_Some_2 s.2 (Z.to_nat o)) as [c Hc]; [lia|].
  rewrite (nth_lookup_Some _ _ _ _ Hc). split; [done|]. rewrite Forall_lookup in Hf. by eapply Hf.
Qed.

Lemma piece_good p : p ∈ pieces → good_request O K (pc_q0 p) (pc_nq p) (pc_o0 p) (pc_no p) ∧ 0 ≤ pc_thread p < d_T D.
Proof. intros Hp. pose proof K_pos. destruct Hset. by apply plan_good. Qed.

Lemma complete_not dn b : ¬ complete dn b → ∃ p, p ∈ pieces ∧ (dn p ≤ b)%nat.
Proof.
  intros H. destruct (pending dn b) as [|p l] eqn:E.
  - exfalso. apply H. intros p Hp. destruct (decide (dn p ≤ b)%nat) as [Hle|]; [|lia]. assert (p ∈ pending dn b) as Hin by (apply list_elem_of_filter; done). rewrite E in Hin. by apply elem_of_nil in Hin.
  - exists p. assert (p ∈ pending dn b) as [? ?]%list_elem_of_filter by (rewrite E; left). done.
Qed.

Lemma complete_decision dn b : {complete dn b} + {¬ complete dn b}.
Proof.
  destruct (decide (Forall (λ p, b < dn p)%nat pieces)) as [H|H]; [left|right].
  - intros p Hp. rewrite Forall_forall in H. by apply H.
  - intros Hc. apply H. apply Forall_forall. exact Hc.
Qed.

Lemma submitted_bound b se : (se ≤ messages Nn total)%nat → (b < submitted Nn total se)%nat → (b * Nn < Nat.min se total)%nat.
Proof.
  intros Hse Hb. pose proof Nn_pos. unfold submitted in Hb. case_decide as Hd.
  - pose proof (Nat.div_mod_eq se Nn). nia.
  - pose proof (batch_start Nn total Nn_pos b Hb). lia.
Qed.

Lemma submitted_batches se : (se ≤ messages Nn total)%nat → (submitted Nn total se ≤ batches Nn total)%nat.
Proof. intros H. pose proof (submitted_mono Nn total Nn_pos se (messages Nn total) H (le_n _)) as Hm. rewrite submitted_messages in Hm; [exact Hm|exact Nn_pos]. Qed.

(** The inputs of a batch that is submitted are among the messages. *)
Lemma submitted_input b i pe : (pe ≤ messages Nn total)%nat → (b < submitted Nn total pe)%nat → (i < batch_size Nn total b)%nat → (b * Nn + i < pe)%nat ∧ (b * Nn + i < total)%nat.
Proof.
  intros Hpe Hb Hi. pose proof Nn_pos. unfold batch_size in Hi. split; [|lia]. unfold submitted in Hb. case_decide as Hd; [|lia].
  pose proof (Nat.div_mod_eq pe Nn). nia.
Qed.

Section Invariant.
Context (pe se sb : nat) (dn : piece → nat) (Q : nat → list (nat * piece)) (s : system).
Hypothesis Hi : inv pe se sb dn Q s.

(** An area is used by one batch at a time. *)
Lemma earlier_complete b b' : (b < b')%nat → (b' < submitted Nn total se)%nat → area_of b = area_of b' → complete dn b.
Proof.
  intros Hlt Hb' Ha. destruct Hi. destruct iv_order0 as (_ & Hm & _). pose proof (submitted_bound b' se Hm Hb') as Hb.
  pose proof (div_same Nn Nn_pos b' 0 Nn_pos) as E. rewrite Nat.add_0_r in E. apply (iv_reuse0 (b' * Nn)%nat b); rewrite ?E; (done || lia).
Qed.

Lemma incomplete_unique b b' : (b < submitted Nn total se)%nat → (b' < submitted Nn total se)%nat → area_of b = area_of b' → ¬ complete dn b → ¬ complete dn b' → b = b'.
Proof.
  intros Hb Hb' Ha Hc Hc'. destruct (Nat.lt_trichotomy b b') as [H|[H|H]]; [|done|].
  - destruct Hc. by apply (earlier_complete b b').
  - destruct Hc'. by apply (earlier_complete b' b).
Qed.

Lemma submitted_le : (submitted Nn total pe ≤ submitted Nn total se)%nat.
Proof. destruct Hi. apply submitted_mono; [apply Nn_pos|lia|lia]. Qed.

Lemma area_lookup b : is_Some (staging (cpu s) !! area_of b).
Proof. destruct Hi. destruct iv_cpu0. apply lookup_lt_is_Some. rewrite ck_areas0. apply area_lt. Qed.

(** A batch that is not with the workers yet is not complete. *)
Lemma later_incomplete b : (sb ≤ b)%nat → ¬ complete dn b.
Proof.
  intros Hb Hc. pose proof K_pos. destruct (plan_covers O K (d_T D) ltac:(destruct Hset; lia) ltac:(destruct Hset; lia) ltac:(lia) 0 0) as (p & Hp & _); [lia|destruct Hset; lia|].
  specialize (Hc p Hp). destruct (iv_work _ _ _ _ _ _ Hi p Hp) as [? _]. lia.
Qed.
End Invariant.
End Run.

(** ** Updates *)

Lemma set_area_lookup i f c j : staging (set_area i f c) !! j = if decide (j = i) then f <$> staging c !! i else staging c !! j.
Proof. unfold set_area. cbn [staging set_staging]. case_decide as E; [subst; apply list_lookup_alter_eq|by apply list_lookup_alter_ne]. Qed.

Lemma length_set_area i f c : length (staging (set_area i f c)) = length (staging c).
Proof. apply length_alter. Qed.

(** [put_coeffs] fills the column of the input, and nothing else. *)
Lemma put_coeffs_ok c i a N O idx value v : staging c !! i = Some a → inputBatchSize c = N → Z.of_nat (length (outputExponents c)) = O → 0 ≤ idx < N →
  length (procCoeffs a) = (Z.to_nat O * Z.to_nat N)%nat → (∀ o, 0 ≤ o < O → value o = Some (v o)) →
  ∃ l, put_coeffs c i idx value = Some (set_area i (set_procCoeffs l) c) ∧ length l = length (procCoeffs a) ∧
    (∀ o, 0 ≤ o < O → l !! Z.to_nat (o * N + idx) = Some (v o)) ∧
    ∀ o j, 0 ≤ o < O → 0 ≤ j < N → j ≠ idx → l !! Z.to_nat (o * N + j) = procCoeffs a !! Z.to_nat (o * N + j).
Proof.
  intros Ha EN EO Hidx Hl Hv. unfold put_coeffs. rewrite Ha, EN, EO. cbn [mbind option_bind].
  match goal with |- context [for_loopM 0 O ?body ?l0] =>
    destruct (for_loopM_ind (λ k l, length l = length (procCoeffs a) ∧ (∀ o, 0 ≤ o < k → l !! Z.to_nat (o * N + idx) = Some (v o)) ∧
      ∀ o j, 0 ≤ o < O → 0 ≤ j < N → j ≠ idx → l !! Z.to_nat (o * N + j) = procCoeffs a !! Z.to_nat (o * N + j)) 0 O body l0) as (l & E & H1 & H2 & H3)
  end; [lia|split_and!; [done|lia|done]| |].
  - intros o l Ho (H1 & H2 & H3). rewrite (Hv o Ho). cbn [mbind option_bind].
    assert (Z.to_nat (idx + o * N) < length l)%nat as Hlt by (rewrite H1, Hl, <- Z2Nat.inj_mul by lia; apply Z2Nat.inj_lt; nia).
    rewrite decide_True by done. eexists. split; [reflexivity|]. rewrite length_insert. split_and!; [done| |].
    + intros o' Ho'. destruct (decide (o' = o)) as [->|Hne].
      * replace (o * N + idx) with (idx + o * N) by lia. by apply list_lookup_insert_eq.
      * rewrite list_lookup_insert_ne; [apply H2; lia|]. intros E%Z2Nat.inj; nia.
    + intros o' j Ho' Hj Hne. rewrite list_lookup_insert_ne; [by apply H3|]. intros E%Z2Nat.inj; [|nia..]. assert (o' = o) by nia. nia.
  - rewrite E. by exists l.
Qed.

Lemma for_loop_ext {S} lo hi (f g : Z → S → S) s : (∀ i s, lo ≤ i < hi → f i s = g i s) → for_loop lo hi f s = for_loop lo hi g s.
Proof.
  intros H. unfold for_loop. assert (∀ i, i ∈ seqZ lo (hi - lo) → ∀ s, f i s = g i s) as H' by (intros i Hi%elem_of_seqZ s'; apply H; lia). clear H.
  revert s H'. induction (seqZ lo (hi - lo)) as [|i l IH]; intros s H'; [done|]. cbn [foldl]. rewrite H' by left. apply IH. intros j Hj. apply H'. by right.
Qed.

Lemma put_coeffs_ext c i idx value value' : (∀ o, 0 ≤ o < Z.of_nat (length (outputExponents c)) → value o = value' o) → put_coeffs c i idx value = put_coeffs c i idx value'.
Proof.
  intros H. unfold put_coeffs. destruct (staging c !! i) as [a|]; [|done]. cbn [mbind option_bind]. unfold for_loopM. erewrite for_loop_ext; [reflexivity|]. intros o os Ho. cbn beta. by rewrite H.
Qed.

(** The messages a worker gets *)
Lemma send_lookup reqs queues i : send reqs queues !! i = (λ q, q ++ (snd <$> filter (λ r, Z.to_nat r.1 = i) reqs)) <$> queues !! i.
Proof.
  revert queues. unfold send. induction reqs as [|r reqs IH]; intros queues; cbn [foldl].
  - destruct (queues !! i); cbn; [|done]. by rewrite app_nil_r.
  - rewrite IH, filter_cons. case_decide as E.
    + rewrite E, list_lookup_alter_eq. destruct (queues !! i); cbn; [|done]. by rewrite <- app_assoc.
    + by rewrite list_lookup_alter_ne by congruence.
Qed.

Lemma length_send reqs queues : length (send reqs queues) = length queues.
Proof. revert queues. unfold send. induction reqs as [|r reqs IH]; intros queues; cbn [foldl]; [done|]. by rewrite IH, length_alter. Qed.

Lemma filter_requests {B} (f : piece → Z) (g : piece → B) i (l : list piece) : snd <$> filter (λ r : Z * B, Z.to_nat r.1 = i) ((λ p, (f p, g p)) <$> l) = g <$> filter (λ p, Z.to_nat (f p) = i) l.
Proof. induction l as [|p l IH]; [done|]. rewrite fmap_cons, !filter_cons. cbn [fst]. destruct (decide _); cbn; by rewrite IH. Qed.

Lemma filter_absent (b : nat) (p : piece) l : p ∉ l → filter (λ bp, bp.2 = p) ((λ p, (b, p)) <$> l) = [].
Proof.
  induction l as [|p' l IH]; [done|]. intros [Hne Hn]%not_elem_of_cons. rewrite fmap_cons, filter_cons. cbn [snd]. rewrite decide_False by congruence. by apply IH.
Qed.

Lemma filter_piece (b : nat) (p : piece) l : NoDup l → p ∈ l → filter (λ bp, bp.2 = p) ((λ p, (b, p)) <$> l) = [(b, p)].
Proof.
  induction 1 as [|p' l Hn _ IH]; [by intros ?%elem_of_nil|]. rewrite fmap_cons, filter_cons. cbn [snd]. intros Hp. case_decide as E.
  - subst p'. by rewrite filter_absent.
  - apply elem_of_cons in Hp as [->|Hp]; [done|]. by apply IH.
Qed.

Section Steps.
Context (t : gfmat_tables) (D : dims) (A : nat) (W : Z) (sent : list (array * list Z)) (exps : list Z).
Hypothesis Hset : setting t D A W sent exps.

Abbreviation N := (d_N D).
Abbreviation O := (d_O D).
Abbreviation C := (d_C D).
Abbreviation SL := (d_SL D).
Abbreviation K := (d_K D).
Abbreviation pO := (d_pO D).
Abbreviation pI := (d_pI D).
Abbreviation width q := (Z.min C (SL + 1 - C * q)).
Abbreviation Nn := (Z.to_nat N).
Abbreviation total := (length sent).
Abbreviation area_of b := ((d_first D + b) mod A)%nat.
Abbreviation pieces := (D_plan D).
Abbreviation inv := (inv D A W sent exps).
Abbreviation submitted e := (submitted Nn total e).
Abbreviation complete := (complete D).

(** ** An input is added *)

Lemma next_area b : (if decide (S (area_of b) = A) then 0%nat else S (area_of b)) = area_of (S b).
Proof.
  pose proof (st_A _ _ _ _ _ _ Hset). rewrite Nat.add_succ_r. set (n := (d_first D + b)%nat). pose proof (Nat.div_mod_eq n A) as Hd. pose proof (Nat.mod_upper_bound n A ltac:(lia)).
  case_decide as E.
  - apply (Nat.mod_unique (S n) A (S (n / A)) 0); nia.
  - apply (Nat.mod_unique (S n) A (n / A) (S (n mod A))); nia.
Qed.

(** The fields that no operation of a run changes *)
Definition setup (c : PAR2ProcCPU) :=
  (inputBatchSize c, outputExponents c, chunkLen c, alignedCurrentSliceSize c, (numChunks c, numThreads c), (memProcessing c, minInBatchSize c, currentSliceSize c, sliceSize c, alignedSliceSize c)).

Lemma cpu_ok_setup c c' : cpu_ok D A W exps c → setup c' = setup c → length (staging c') = A →
  (∀ a area, staging c' !! a = Some area → length (procCoeffs area) = (Z.to_nat O * Nn)%nat) → cpu_ok D A W exps c'.
Proof.
  intros [[]] E Hl Hco. unfold setup in E. injection E as E1 E2 E3 E4 E5 E6 E7 E8 E9 E10 E11. split; rewrite ?E1, ?E2, ?E8, ?E9, ?E10, ?E11; try done. split; congruence.
Qed.

Lemma submit_ok c b : length (staging c) = A → currentStagingArea c = area_of b →
  setup (submit c) = setup c ∧ length (staging (submit c)) = A ∧ processingAdd (submit c) = processingAdd c ∧
  currentStagingArea (submit c) = area_of (S b) ∧ currentStagingInputs (submit c) = 0 ∧
  ∀ a, staging (submit c) !! a = if decide (a = area_of b) then setIsActive true <$> staging c !! a else staging c !! a.
Proof.
  intros Hl Hb. unfold submit. rewrite Hb. set (c1 := set_area (area_of b) (setIsActive true) _). assert (length (staging c1) = A) as Hl1 by (unfold c1; by rewrite length_set_area).
  rewrite Hl1. cbn [currentStagingArea currentStagingInputs set_position staging]. split_and!; [done|done|done|apply next_area|done|].
  intros a. unfold c1. rewrite set_area_lookup. case_decide as E; [by subst|done].
Qed.

(** The memory of the areas *)
Definition fill (c : PAR2ProcCPU) : PAR2ProcCPU := set_staging (imap (λ i a, set_src (Some (2 * pI i)) a) (staging c)) c.

Lemma fill_lookup c j : staging (fill c) !! j = set_src (Some (2 * pI j)) <$> staging c !! j.
Proof. unfold fill. cbn [staging set_staging]. by rewrite list_lookup_imap. Qed.

Lemma reallocMemInput_fill c : cpu_ok D A W exps c → reallocMemInput c = fill c.
Proof.
  intros [[EN _ _ _ _ _ _] Hl _ _ _ [_ Hp] _]. unfold reallocMemInput, fill. f_equal. apply imap_ext. intros i a Ha. f_equal. f_equal. rewrite EN, Hp. symmetry. apply (st_places _ _ _ _ _ _ Hset). rewrite <- Hl. by eapply lookup_lt_Some.
Qed.

Lemma fill_memory se c : cpu_ok D A W exps c → memory_ok D se c → ∃ first, head (staging c) = Some first ∧ (match src first with None => reallocMemInput c | Some _ => c end) = fill c.
Proof.
  intros Hc Hm. pose proof Hc as [_ Hl _ _ _ _ _]. pose proof (st_A _ _ _ _ _ _ Hset) as HA. destruct (staging c) as [|first l] eqn:El; [cbn in Hl; lia|]. exists first. split; [done|].
  assert (staging c !! 0%nat = Some first) as H0 by by rewrite El. destruct Hm as [Hm|[_ Hm]]; rewrite (Hm 0%nat first H0); [|by apply reallocMemInput_fill].
  unfold fill. assert (imap (λ i a, set_src (Some (2 * pI i)) a) (staging c) = staging c) as ->; [|by destruct c].
  apply list_eq. intros i. rewrite list_lookup_imap. destruct (staging c !! i) as [a|] eqn:Ea; [|done]. cbn. f_equal. pose proof (Hm i a Ea) as Hs. destruct a. cbn in *. by rewrite Hs.
Qed.

(** What adding input [e] does to the fields *)
Record input_added (e : nat) (c c' : PAR2ProcCPU) : Prop := {
  ia_cpu : cpu_ok D A W exps c';
  ia_adding : processingAdd c' = processingAdd c;
  ia_position : currentStagingArea c' = area_of (submitted (S e)) ∧ currentStagingInputs c' = Z.of_nat (Nat.min (S e) total - submitted (S e) * Nn);
  ia_area : ∀ a area', staging c' !! a = Some area' → ∃ area, staging c !! a = Some area ∧ src area' = Some (2 * pI a) ∧ procRefs area' = procRefs area ∧
    isActive area' = (if decide (a = area_of (e / Nn)%nat ∧ submitted (S e) ≠ submitted e) then true else isActive area) ∧
    (if decide (a = area_of (e / Nn)%nat) then
       (∀ o, 0 ≤ o < O → procCoeffs area' !! Z.to_nat (o * N + Z.of_nat (e mod Nn)) = Some (coef sent e o)) ∧
       ∀ o j, 0 ≤ o < O → 0 ≤ j < N → j ≠ Z.of_nat (e mod Nn) → procCoeffs area' !! Z.to_nat (o * N + j) = procCoeffs area !! Z.to_nat (o * N + j)
     else procCoeffs area' = procCoeffs area);
}.

Definition positioned (e : nat) (c : PAR2ProcCPU) : Prop :=
  currentStagingArea c = area_of (submitted e) ∧ currentStagingInputs c = Z.of_nat (Nat.min e total - submitted e * Nn).

Lemma positioned_at e c : (e < total)%nat → positioned e c → currentStagingArea c = area_of (e / Nn)%nat ∧ currentStagingInputs c = Z.of_nat (e mod Nn) ∧ 0 ≤ Z.of_nat (e mod Nn) < N.
Proof.
  intros He [-> ->]. pose proof (Nn_pos _ _ _ _ _ _ Hset) as Hn. rewrite submitted_at by lia. pose proof (Nat.div_mod_eq e Nn). pose proof (Nat.mod_upper_bound e Nn ltac:(lia)).
  split_and!; [done|f_equal; lia|lia|lia].
Qed.

(** The batch is full when its last input is added. *)
Lemma batch_full e : (e < total)%nat → (Z.of_nat (e mod Nn) + 1 =? N) = bool_decide (S e mod Nn = 0)%nat ∧ (bool_decide (S e mod Nn = 0)%nat = true ↔ submitted (S e) ≠ submitted e).
Proof.
  intros He. pose proof (Nn_pos _ _ _ _ _ _ Hset) as Hn. rewrite submitted_S, (submitted_at Nn total e) by (done || lia). rewrite bool_decide_eq_true.
  pose proof (Nat.div_mod_eq e Nn) as E1. pose proof (Nat.mod_upper_bound e Nn ltac:(lia)) as H1. pose proof (Nat.div_mod_eq (S e) Nn) as E2. pose proof (Nat.mod_upper_bound (S e) Nn ltac:(lia)) as H2.
  set (q1 := (e / Nn)%nat) in *. set (q2 := (S e / Nn)%nat) in *. set (r1 := (e mod Nn)%nat) in *. set (r2 := (S e mod Nn)%nat) in *. clearbody q1 q2 r1 r2.
  split; [|case_decide; lia]. destruct (Z.eqb_spec (Z.of_nat r1 + 1) N); symmetry; [apply bool_decide_eq_true|apply bool_decide_eq_false]; [assert (q2 = S q1) by nia|intros E; assert (q2 = S q1) by nia]; nia.
Qed.

Lemma addInput_ok e c a0 : (e < total)%nat → cpu_ok D A W exps c → memory_ok D e c → positioned e c → staging c !! area_of (e / Nn)%nat = Some a0 → isActive a0 = false →
  ∃ c', addInput c (input_at sent e).1 (2 * W) (input_at sent e).2 false = Some (c', message D A W sent e) ∧ input_added e c c'.
Proof.
  intros He Hc Hm Hp Ha0 Hact. pose proof (Nn_pos _ _ _ _ _ _ Hset) as Hn. pose proof Hc as [Hd Hl Hexp Hmin Hsize Hpl Hco]. pose proof Hd as [EN EO EC EA EK ET EM].
  destruct (positioned_at e c He Hp) as (Ec & Ei & Hidx). destruct (batch_full e He) as [Hfull Hsub].
  unfold addInput, _addInput. rewrite Ec, Ha0. cbn [mbind option_bind]. rewrite Hact.
  destruct (fill_memory e c Hc Hm) as (first & Hf & Hfill). rewrite Hf. cbn [mbind option_bind]. rewrite Hfill.
  change (currentStagingInputs (fill c)) with (currentStagingInputs c). rewrite Ei.
  destruct (put_coeffs_ok (fill c) (area_of (e / Nn)%nat) (set_src (Some (2 * pI (area_of (e / Nn)%nat))) a0) N O (Z.of_nat (e mod Nn)) (λ out, (input_at sent e).2 !! Z.to_nat out) (coef sent e))
    as (l & Epc & Hll & Hl1 & Hl2); [by rewrite fill_lookup, Ha0|exact EN|exact EO|lia|by apply (Hco _ _ Ha0)|intros o Ho; by apply (coef_lookup _ _ _ _ _ _ Hset e o He Ho)|].
  unfold set_coeffs. rewrite Epc. cbn [mbind option_bind]. rewrite set_area_lookup, decide_True by done. rewrite fill_lookup, Ha0. cbn [fmap option_fmap option_map mbind option_bind src set_src set_procCoeffs].
  set (cur := area_of (e / Nn)%nat) in *. set (c1 := set_area cur (set_procCoeffs l) (fill c)).
  change (inputBatchSize c1) with (inputBatchSize c). change (minInBatchSize c1) with (minInBatchSize c). change (chunkLen c1) with (chunkLen c).
  change (alignedCurrentSliceSize c1) with (alignedCurrentSliceSize c). change (currentStagingInputs c1) with (currentStagingInputs c). rewrite EN, Hmin, EC, EA, Ei. cbn [orb].
  match goal with |- context [(?x =? N) || (?b && (N <=? ?y))] =>
    assert ((x =? N) || (b && (N <=? y)) = bool_decide (S e mod Nn = 0)%nat) as -> by (rewrite <- Hfull; destruct b, (Z.eqb_spec x N), (Z.leb_spec N x); (done || lia)) end.
  set (full := bool_decide (S e mod Nn = 0)%nat) in *.
  assert (∀ a area, staging c1 !! a = Some area → ∃ area0, staging c !! a = Some area0 ∧ src area = Some (2 * pI a) ∧ procRefs area = procRefs area0 ∧ isActive area = isActive area0 ∧
    (if decide (a = cur) then procCoeffs area = l ∧ area0 = a0 else procCoeffs area = procCoeffs area0)) as Hc1.
  { intros a area. unfold c1. rewrite set_area_lookup, !fill_lookup. case_decide as E.
    - subst a. rewrite Ha0. intros [= <-]. by exists a0.
    - destruct (staging c !! a) as [area0|]; [|done]. intros [= <-]. by exists area0. }
  assert (∀ a area, staging c1 !! a = Some area → length (procCoeffs area) = (Z.to_nat O * Nn)%nat) as Hlen.
  { intros a area Ha. destruct (Hc1 a area Ha) as (area0 & H0 & _ & _ & _ & H). case_decide as E; [destruct H as [-> ->]; rewrite Hll; by apply (Hco _ _ Ha0)|rewrite H; by eapply Hco]. }
  assert (length (staging c1) = A) as Hlc1 by (unfold c1; rewrite length_set_area; unfold fill; cbn [staging set_staging]; by rewrite length_imap).
  pose proof (Nat.div_mod_eq e Nn) as Edm. assert (stride = 8) as -> by done. replace (8 * (SL + 1) - 8) with (8 * SL) by lia.
  unfold message. rewrite (decide_True _ _ He). fold cur.
  destruct full eqn:Efull.
  - apply bool_decide_eq_true in Efull. rewrite (decide_True _ _ Efull). rewrite (proj2 (Z.eqb_neq _ 0)) by lia. apply Z.eqb_eq in Hfull. rewrite Hfull.
    set (c2 := set_position cur N c1). destruct (submit_ok c2 (e / Nn) Hlc1 eq_refl) as (S1 & S2 & S3 & S4 & S5 & S6). fold cur in S6.
    assert (submitted (S e) = S (e / Nn)) as Esub by (rewrite submitted_S by done; by rewrite decide_True).
    eexists. split; [reflexivity|]. split.
    + apply (cpu_ok_setup c); [done|by rewrite S1|done|]. intros a area. rewrite S6. change (staging c2) with (staging c1). destruct (staging c1 !! a) as [area1|] eqn:E1; [|by case_decide].
      pose proof (Hlen a area1 E1). by case_decide; intros [= <-].
    + by rewrite S3.
    + rewrite S4, S5, Esub. split; [done|]. assert (Nat.min (S e) total - S (e / Nn) * Nn = 0)%nat as ->; [|done]. assert (e mod Nn + 1 = Nn)%nat by lia. nia.
    + intros a area. fold cur. rewrite S6. change (staging c2) with (staging c1). destruct (staging c1 !! a) as [area1|] eqn:E1; [|by case_decide].
      destruct (Hc1 a area1 E1) as (area0 & H0 & H1 & H2 & H3 & H4). assert (submitted (S e) ≠ submitted e) as Hne by by apply Hsub.
      intros Ha. exists area0. destruct (decide (a = cur)) as [E|E].
      * injection Ha as <-. cbn [src procRefs isActive procCoeffs setIsActive]. rewrite decide_True by done. destruct H4 as [-> ->]. split_and!; done.
      * injection Ha as <-. rewrite decide_False by (by intros [? _]). split_and!; done.
  - apply bool_decide_eq_false in Efull. rewrite (decide_False _ _ Efull). change (0 =? 0) with true. cbv iota.
    assert (submitted (S e) = (e / Nn)%nat) as Esub by (rewrite submitted_S by done; by rewrite decide_False).
    eexists. split; [reflexivity|]. split.
    + apply (cpu_ok_setup c); done.
    + done.
    + rewrite Esub. cbn [currentStagingArea currentStagingInputs set_position]. split; [done|]. lia.
    + intros a area. fold cur. intros E1. destruct (Hc1 a area E1) as (area0 & H0 & H1 & H2 & H3 & H4). exists area0.
      rewrite (decide_False (P := a = cur ∧ _)) by (intros [_ Hne]; rewrite Esub, (submitted_at Nn total e) in Hne by lia; done).
      destruct (decide (a = cur)) as [E|E]; [destruct H4 as [-> ->]|]; split_and!; done.
Qed.

Lemma messages_total : (total ≤ messages Nn total)%nat.
Proof. unfold messages. lia. Qed.

(** A batch of the area of the next input is complete when the area is not active. *)
Lemma inactive_complete pe se sb dn Q s a area b : inv pe se sb dn Q s → staging (cpu s) !! a = Some area → isActive area = false → (b < submitted se)%nat → area_of b = a → complete dn b.
Proof.
  intros Hi Ha Hact Hb Hba. destruct (complete_decision D dn b) as [H|H]; [done|]. assert (isActive area = true) as E by (apply (iv_active _ _ _ _ _ _ _ _ _ _ _ Hi a area Ha); by exists b). congruence.
Qed.

(** The coefficients of an input that is added with its number *)
Lemma add_resolved e c arg : cpu_ok D A W exps c → memory_ok D e c → resolves t exps arg (input_at sent e).2 →
  match arg with
  | inl inputNum => addInput_num t c (input_at sent e).1 (2 * W) inputNum false
  | inr inputCoeffs => addInput c (input_at sent e).1 (2 * W) inputCoeffs false
  end = addInput c (input_at sent e).1 (2 * W) (input_at sent e).2 false.
Proof.
  intros Hc Hm Hr. destruct arg as [num|l]; [|by simpl in Hr; subst l]. destruct Hr as (inputLog & El & Hr). unfold addInput_num, addInput, _addInput.
  destruct (staging c !! currentStagingArea c) as [a|]; [|done]. cbn [mbind option_bind]. destruct (isActive a); [done|]. destruct (fill_memory e c Hc Hm) as (first & -> & Hfill). cbn [mbind option_bind]. rewrite Hfill.
  assert (∀ area idx, set_coeffs_num t (fill c) area idx num = set_coeffs (fill c) area idx (input_at sent e).2) as ->; [|done].
  intros area idx. unfold set_coeffs_num, set_coeffs. rewrite El. cbn [mbind option_bind]. apply put_coeffs_ext. intros o Ho. change (outputExponents (fill c)) with (outputExponents c) in *. rewrite (ck_exps _ _ _ _ _ Hc) in *.
  destruct (lookup_lt_is_Some_2 exps (Z.to_nat o)) as [x Hx]; [lia|]. rewrite Hx. cbn [mbind option_bind]. by destruct (Hr _ x Hx) as (v & -> & ->).
Qed.

Lemma add_ok pe se sb dn Q s rest a0 arg : inv pe se sb dn Q s → (se < total)%nat → todo s = AddInput (input_at sent se).1 (2 * W) arg :: rest → resolves t exps arg (input_at sent se).2 →
  staging (cpu s) !! area_of (se / Nn)%nat = Some a0 → isActive a0 = false →
  ∃ s', main_step t s = Some s' ∧ todo s' = rest ∧ thWorkers s' = thWorkers s ∧ length (transferThread s') = S (length (transferThread s)) ∧ inv pe (S se) sb dn Q s'.
Proof.
  intros Hi Hse Htodo Harg Ha0 Hact. pose proof (Nn_pos _ _ _ _ _ _ Hset) as Hn. pose proof (submitted_le _ _ _ _ _ _ Hset _ _ _ _ _ _ Hi) as Hle.
  assert (∀ b, (b < submitted se)%nat → area_of b = area_of (se / Nn)%nat → complete dn b) as Hdone by (intros b Hb Hba; by apply (inactive_complete pe se sb dn Q s (area_of (se / Nn)%nat) a0)).
  pose proof (later_incomplete _ _ _ _ _ _ Hset _ _ _ _ _ _ Hi) as Hlater.
  pose proof Hi as [Hcpu Hmem (Ho1 & Ho2 & Ho3) Hqueue Hfut Hpos Hadd Hwk Hown Hwork Hreuse Hactive Hrefs Hcoeffs Hin Hout].
  destruct (addInput_ok se (cpu s) a0 Hse Hcpu Hmem Hpos Ha0 Hact) as (c' & E & [I1 I2 I3 I4]).
  unfold main_step. rewrite Htodo. rewrite (add_resolved se (cpu s) arg Hcpu Hmem Harg), E. cbn [mbind option_bind]. eexists. split; [reflexivity|]. split; [done|]. split; [done|]. split; [cbn; rewrite length_app; cbn; lia|].
  pose proof (submitted_at Nn total se ltac:(lia)) as Hat.
  assert (submitted (S se) = submitted se ∨ submitted (S se) = S (se / Nn)) as Hsub.
  { rewrite (submitted_S Nn total Hn se Hse), Hat. destruct (decide _); [by right|by left]. }
  split; cbn [cpu memory transferThread thWorkers futures]; try done.
  - left. intros a area Ha. by destruct (I4 a area Ha) as (? & _ & ? & _).
  - pose proof messages_total. lia.
  - rewrite Hqueue. replace (S se - pe)%nat with (S (se - pe)) by lia. rewrite seq_S, fmap_app. by replace (pe + (se - pe))%nat with se by lia.
  - by rewrite I2.
  - intros e b He Het Hb Ha. destruct (decide (e = se)) as [->|Hne]; [|apply (Hreuse e b); (done || lia)]. apply Hdone; [lia|done].
  - intros a area Ha. destruct (I4 a area Ha) as (area0 & Ha' & _ & _ & -> & _). specialize (Hactive a area0 Ha'). destruct (decide (a = area_of (se / Nn)%nat ∧ submitted (S se) ≠ submitted se)) as [Hd|Hd].
    + destruct Hd as [-> Hne]. destruct Hsub as [|Hsub]; [done|]. split; [|done]. intros _. exists (se / Nn)%nat. rewrite Hsub. split_and!; [lia|done|]. apply Hlater. lia.
    + rewrite Hactive. split; intros (b & Hb & Hba & Hc); exists b; (split_and!; [|done|done]).
      * destruct Hsub as [-> | ->]; lia.
      * destruct Hsub as [E1|E1]; rewrite E1 in Hb; [done|]. rewrite Hat. destruct (decide (b = se / Nn)%nat) as [->|]; [|lia]. destruct Hd. split; [done|lia].
  - intros b area Hb Hc Ha. destruct (I4 _ area Ha) as (area0 & Ha' & _ & -> & _). by apply (Hrefs b).
  - intros e area He Het Hc Ha o Ho. destruct (I4 _ area Ha) as (area0 & Ha' & _ & _ & _ & Hco). destruct (decide (e = se)) as [->|Hne].
    + rewrite decide_True in Hco by done. by apply Hco.
    + case_decide as Harea; [|rewrite Hco; apply (Hcoeffs e); (done || lia)]. destruct Hco as [_ Hco].
      assert (e / Nn = se / Nn)%nat as Eb.
      { destruct (decide (e / Nn = se / Nn)%nat) as [|Hnb]; [done|]. destruct Hc. apply Hdone; [|done]. rewrite Hat. assert (e / Nn ≤ se / Nn)%nat by (apply Nat.Div0.div_le_mono; lia). lia. }
      pose proof (Nat.div_mod_eq e Nn). pose proof (Nat.div_mod_eq se Nn). pose proof (Nat.mod_upper_bound e Nn ltac:(lia)).
      rewrite Hco by lia. apply (Hcoeffs e); (done || lia).
Qed.

(** ** The end of the inputs *)

Lemma endInput_ok pe sb dn Q s rest : inv pe total sb dn Q s → todo s = EndInput :: rest →
  ∃ s', main_step t s = Some s' ∧ todo s' = rest ∧ thWorkers s' = thWorkers s ∧ (length (transferThread s') ≤ S (length (transferThread s)))%nat ∧ inv pe (messages Nn total) sb dn Q s'.
Proof.
  intros Hi Htodo. pose proof (Nn_pos _ _ _ _ _ _ Hset) as Hn. pose proof (later_incomplete _ _ _ _ _ _ Hset _ _ _ _ _ _ Hi) as Hlater. pose proof (submitted_le _ _ _ _ _ _ Hset _ _ _ _ _ _ Hi) as Hle.
  pose proof (Nat.div_mod_eq total Nn) as Edm. pose proof (Nat.mod_upper_bound total Nn ltac:(lia)) as Hm. pose proof (submitted_at Nn total total (le_n _)) as Hat.
  pose proof Hi as [Hcpu Hmem (Ho1 & Ho2 & Ho3) Hqueue Hfut [Hp1 Hp2] Hadd Hwk Hown Hwork Hreuse Hactive Hrefs Hcoeffs Hin Hout].
  unfold main_step. rewrite Htodo. unfold flush. rewrite Hp2, Hat, Nat.min_id. destruct (decide (total mod Nn = 0)%nat) as [E0|Hne].
  - assert (total - total / Nn * Nn = 0)%nat as -> by lia. change (Z.of_nat 0 =? 0) with true. cbv iota. eexists. split; [reflexivity|].
    assert (messages Nn total = total) as -> by (unfold messages; rewrite decide_True by done; lia).
    split_and!; [done|done|cbn; rewrite app_nil_r; lia|]. split; cbn [cpu memory transferThread thWorkers futures]; try done. by rewrite app_nil_r.
  - assert (total - total / Nn * Nn = total mod Nn)%nat as -> by lia. rewrite (proj2 (Z.eqb_neq _ 0)) by lia. eexists. split; [reflexivity|]. split; [done|]. split; [done|].
    split; [cbn; rewrite length_app; cbn; lia|]. pose proof Hcpu as [Hd Hl _ _ _ _ Hco].
    destruct (submit_ok (cpu s) (total / Nn)) as (S1 & S2 & S3 & S4 & S5 & S6); [done|by rewrite Hp1, Hat|].
    assert (messages Nn total = S total) as Em by (unfold messages; rewrite decide_False by done; lia).
    assert (submitted (messages Nn total) = S (total / Nn)) as Esub by (rewrite submitted_messages by done; unfold batches; rewrite decide_False by done; lia).
    assert (∀ a area, staging (submit (cpu s)) !! a = Some area → ∃ area0, staging (cpu s) !! a = Some area0 ∧ src area = src area0 ∧ procRefs area = procRefs area0 ∧ procCoeffs area = procCoeffs area0 ∧
      isActive area = if decide (a = area_of (total / Nn)) then true else isActive area0) as Hst.
    { intros a area. rewrite S6. destruct (staging (cpu s) !! a) as [area0|]; [|by destruct (decide _)]. destruct (decide _); intros [= <-]; by exists area0. }
    split; cbn [cpu memory transferThread thWorkers futures]; try done.
    + apply (cpu_ok_setup (cpu s)); [done|done|done|]. intros a area Ha. destruct (Hst a area Ha) as (area0 & Ha0 & _ & _ & -> & _). by apply (Hco a).
    + destruct Hmem as [Hmem|[E Hmem]]; [left|exfalso; rewrite E in Hne; rewrite Nat.Div0.mod_0_l in Hne; done].
      intros a area Ha. destruct (Hst a area Ha) as (area0 & Ha0 & -> & _). by apply Hmem.
    + split_and!; [lia|lia|done].
    + rewrite Hqueue, Em. replace (S total - pe)%nat with (S (total - pe)) by lia. rewrite seq_S, fmap_app. replace (pe + (total - pe))%nat with total by lia. f_equal. cbn [fmap list_fmap].
      unfold message. rewrite decide_False by lia. rewrite Hp1, Hat. done.
    + rewrite S4, S5, Esub. split; [done|]. assert (Nat.min (messages Nn total) total - S (total / Nn) * Nn = 0)%nat as ->; [|done]. nia.
    + intros e b He Het Hb Ha. apply (Hreuse e b); (done || lia).
    + intros a area Ha. destruct (Hst a area Ha) as (area0 & Ha0 & _ & _ & _ & ->). specialize (Hactive a area0 Ha0). rewrite Esub. rewrite Hat in *. destruct (decide (a = area_of (total / Nn))) as [->|Hna].
      * split; [|done]. intros _. exists (total / Nn)%nat. split_and!; [lia|done|apply Hlater; lia].
      * rewrite Hactive. split; intros (b & Hb & Hba & Hc); exists b; (split_and!; [|done|done]); [lia|]. destruct (decide (b = total / Nn)%nat) as [->|]; [done|lia].
    + intros b area Hb Hc Ha. destruct (Hst _ area Ha) as (area0 & Ha0 & _ & -> & _). by apply (Hrefs b).
    + intros e area He Het Hc Ha. destruct (Hst _ area Ha) as (area0 & Ha0 & _ & _ & -> & _). by apply (Hcoeffs e).
Qed.

(** ** The transfer thread *)

Lemma pieces_nodup : NoDup pieces.
Proof. pose proof (K_pos _ _ _ _ _ _ Hset). destruct Hset. by apply plan_nodup. Qed.

Lemma all_pending sb dn : (∀ p, p ∈ pieces → (dn p ≤ sb)%nat) → pending D dn sb = pieces.
Proof.
  unfold pending. intros H. induction (D_plan D) as [|p l IH]; [done|]. rewrite filter_cons, decide_True by (apply H; left). f_equal. apply IH. intros p' Hp'. apply H. by right.
Qed.

(** A batch goes to the workers. *)
Lemma kernel_ok pe se sb dn Q s : inv pe se sb dn Q s → (sb < submitted pe)%nat →
  ∃ c reqs Q', run_kernel (cpu s) (area_of sb) (Z.of_nat (batch_size Nn total sb)) = Some (c, reqs) ∧ length reqs = length pieces ∧
    inv pe se (S sb) dn Q' {| cpu := c; memory := memory s; transferThread := transferThread s; thWorkers := send reqs (thWorkers s); futures := futures s; todo := todo s |}.
Proof.
  intros Hi Hsb. pose proof (Nn_pos _ _ _ _ _ _ Hset) as Hn. pose proof (submitted_le _ _ _ _ _ _ Hset _ _ _ _ _ _ Hi) as Hle. pose proof (later_incomplete _ _ _ _ _ _ Hset _ _ _ _ _ _ Hi) as Hlater.
  pose proof (area_lookup _ _ _ _ _ _ Hset _ _ _ _ _ _ Hi sb) as [area Ha]. pose proof (incomplete_unique _ _ _ _ _ _ Hset _ _ _ _ _ _ Hi) as Huniq.
  pose proof (submitted_bound _ _ _ _ _ _ Hset) as Hbound.
  pose proof Hi as [Hcpu Hmem (Ho1 & Ho2 & Ho3) Hqueue Hfut Hpos Hadd [Hwk1 Hwk2] Hown Hwork Hreuse Hactive Hrefs Hcoeffs Hin Hout].
  pose proof Hcpu as [Hd Hl _ _ _ _ Hco]. pose proof (K_pos _ _ _ _ _ _ Hset) as HK. pose proof Hset as [_ _ _ _ HN HO HT _ _ _ _ _ _ _].
  assert (src area = Some (2 * pI (area_of sb))) as Hsrc by (destruct Hmem as [Hmem|[-> _]]; [by apply Hmem|unfold submitted in Hsb; assert (pe = 0%nat) as -> by lia; rewrite decide_True in Hsb by lia; rewrite Nat.Div0.div_0_l in Hsb; lia]).
  pose proof (run_kernel_ok D (cpu s) (area_of sb) (Z.of_nat (batch_size Nn total sb)) (negb (bool_decide (sb = 0%nat))) Hd HO HT HK ltac:(unfold batch_size; split; [lia|]; change (2 ^ 16) with 65536; lia) area Ha Hsrc Hadd) as Erk.
  set (reqs := _ <$> pieces) in Erk. exists (set_area (area_of sb) (set_procRefs (Z.of_nat (length pieces))) (set_processingAdd true (cpu s))), reqs.
  exists (λ i, Q i ++ ((λ p, (sb, p)) <$> filter (λ p, Z.to_nat (pc_thread p) = i) pieces)).
  split; [exact Erk|]. split; [by unfold reqs; rewrite length_fmap|].
  assert (∀ a area', staging (set_area (area_of sb) (set_procRefs (Z.of_nat (length pieces))) (set_processingAdd true (cpu s))) !! a = Some area' → ∃ area0, staging (cpu s) !! a = Some area0 ∧
    src area' = src area0 ∧ procCoeffs area' = procCoeffs area0 ∧ isActive area' = isActive area0 ∧ procRefs area' = if decide (a = area_of sb) then Z.of_nat (length pieces) else procRefs area0) as Hst.
  { intros a area'. rewrite set_area_lookup. change (staging (set_processingAdd true (cpu s))) with (staging (cpu s)). destruct (decide (a = area_of sb)) as [->|]; [|intros ->; by exists area'].
    rewrite Ha. intros [= <-]. by exists area. }
  split; cbn [cpu memory transferThread thWorkers futures]; try done.
  - apply (cpu_ok_setup (cpu s)); [done|done|by rewrite length_set_area|]. intros a area' Ha'. destruct (Hst a area' Ha') as (area0 & H0 & _ & -> & _). by apply (Hco a).
  - destruct Hmem as [Hmem|[E Hmem]]; [left|right; split; [done|]]; intros a area' Ha'; destruct (Hst a area' Ha') as (area0 & H0 & -> & _); by apply (Hmem a).
  - rewrite length_send. split; [done|]. intros i q. rewrite send_lookup. destruct (thWorkers s !! i) as [q0|] eqn:Eq; [|done]. intros [= <-]. rewrite (Hwk2 i q0 Eq), fmap_app. f_equal.
    unfold reqs. rewrite filter_requests, <- list_fmap_compose. done.
  - intros i b p [Hq|Hq]%elem_of_app; [by apply (Hown i b)|]. apply list_elem_of_fmap in Hq as (p' & [= -> ->] & [Ht Hp]%list_elem_of_filter). split; [done|].
    destruct (piece_good _ _ _ _ _ _ Hset p' Hp) as [_ ?]. lia.
  - intros p Hp. destruct (Hwork p Hp) as [H1 H2]. split; [lia|]. rewrite filter_app, H2. replace (S sb - dn p)%nat with (S (sb - dn p)) by lia. rewrite seq_S, fmap_app. f_equal.
    rewrite filter_piece; [cbn; do 2 f_equal; lia|apply NoDup_filter, pieces_nodup|by apply list_elem_of_filter].
  - intros a area' Ha'. destruct (Hst a area' Ha') as (area0 & H0 & _ & _ & -> & _). by apply Hactive.
  - intros b area' Hb Hc Ha'. destruct (Hst _ area' Ha') as (area0 & H0 & _ & _ & _ & ->). destruct (decide (area_of b = area_of sb)) as [E|E].
    + assert (b = sb) as -> by (apply Huniq; [lia|lia|done|done|by apply Hlater]). f_equal. rewrite all_pending; [done|]. intros p Hp. by apply (Hwork p Hp).
    + destruct (decide (b = sb)) as [->|]; [done|]. apply Hrefs; [lia|done|done].
  - intros e area' He Het Hc Ha'. destruct (Hst _ area' Ha') as (area0 & H0 & _ & -> & _). by apply (Hcoeffs e).
Qed.

(** Where the blocks of the inputs are *)
Lemma input_address a i b k : 0 ≤ i < N → 0 ≤ b < SL + 1 → 0 ≤ k < 4 → pI a ≤ block_at (pI a) N C SL i b + k < pI a + 4 * (N * (SL + 1)).
Proof. intros Hi Hb Hk. destruct Hset. unfold block_at. pose proof (packed_block_bounds N C (SL + 1) ltac:(lia) i b Hi Hb). lia. Qed.

Lemma input_apart a i b k a' i' b' k' : (a < A)%nat → (a' < A)%nat → 0 ≤ i < N → 0 ≤ b < SL + 1 → 0 ≤ k < 4 → 0 ≤ i' < N → 0 ≤ b' < SL + 1 → 0 ≤ k' < 4 →
  block_at (pI a) N C SL i b + k = block_at (pI a') N C SL i' b' + k' → a = a' ∧ i = i'.
Proof.
  intros Ha Ha' Hi Hb Hk Hi' Hb' Hk' E. destruct (decide (a = a')) as [->|Hne].
  - split; [done|]. unfold block_at in E. assert (packed_block N C (SL + 1) i b = packed_block N C (SL + 1) i' b') as E' by lia.
    destruct Hset. by apply packed_block_inj in E' as [-> _]; [|lia..].
  - pose proof (input_address a i b k Hi Hb Hk). pose proof (input_address a' i' b' k' Hi' Hb' Hk'). destruct (st_areas _ _ _ _ _ _ Hset a a' Hne Ha Ha'); lia.
Qed.

Lemma tile_address p q o x : p ∈ pieces → piece_tiles p q o → 0 ≤ x < 4 * width q → pO ≤ out_at O C SL pO q o + x.
Proof.
  intros Hp Hpt Hx. destruct (piece_good _ _ _ _ _ _ Hset p Hp) as [[Hg1 Hg2 _] _]. destruct Hpt as [Hq Ho]. destruct Hset.
  eapply (tile_bounds O C SL pO ltac:(lia) K); (eassumption || lia).
Qed.

Lemma mod_Nn e : 0 ≤ Z.of_nat (e mod Nn) < N.
Proof. pose proof (Nn_pos _ _ _ _ _ _ Hset) as Hn. pose proof (Nat.mod_upper_bound e Nn ltac:(lia)). lia. Qed.

(** The memory when input [e] is packed *)
Lemma packed_ok pe se sb dn Q s m' : inv pe se sb dn Q s → (pe < se)%nat → (pe < total)%nat →
  written (pI (area_of (pe / Nn))) N C SL (Z.of_nat (pe mod Nn)) (value D W sent pe) (SL + 1) (memory s) m' →
  (∀ e, (e < S pe)%nat → (e < total)%nat → ¬ complete dn (e / Nn)%nat → ∀ b k, 0 ≤ b < SL + 1 → 0 ≤ k < 4 →
    word m' (block_at (pI (area_of (e / Nn)%nat)) N C SL (Z.of_nat (e mod Nn)) b + k) = value D W sent e b k) ∧
  (∀ p q o x, p ∈ pieces → (0 < dn p)%nat → piece_tiles p q o → 0 ≤ x < 4 * width q →
    word m' (out_at O C SL pO q o + x) = tile_sum D W sent (Nat.min (dn p * Nn) total) q o x).
Proof.
  intros Hi Hpe Ht [Hw1 Hw2]. pose proof (area_lt _ _ _ _ _ _ Hset) as Harea. split.
  - intros e He Het Hc b k Hb Hk. destruct (decide (e = pe)) as [->|Hne]; [by apply Hw1|].
    rewrite Hw2; [apply (iv_inputs _ _ _ _ _ _ _ _ _ _ _ Hi); (done || lia)|]. intros b' k' Hb' Hk' E.
    apply input_apart in E as [Ea Em]; [|apply Harea|apply Harea|apply mod_Nn|done|done|apply mod_Nn|done|done].
    assert (e / Nn = pe / Nn)%nat as Eb.
    { destruct (decide (e / Nn = pe / Nn)%nat) as [|Hnb]; [done|]. destruct Hc. apply (iv_reuse _ _ _ _ _ _ _ _ _ _ _ Hi pe); [done|done| |done].
      assert (e / Nn ≤ pe / Nn)%nat by (apply Nat.Div0.div_le_mono; lia). lia. }
    pose proof (Nat.div_mod_eq e Nn). pose proof (Nat.div_mod_eq pe Nn). rewrite Eb in *. lia.
  - intros p q o x Hp Hdn Hpt Hx. rewrite Hw2; [by apply (iv_outputs _ _ _ _ _ _ _ _ _ _ _ Hi)|]. intros b k Hb Hk E.
    pose proof (tile_address p q o x Hp Hpt Hx). pose proof (input_address (area_of (pe / Nn)) (Z.of_nat (pe mod Nn)) b k (mod_Nn pe) Hb Hk).
    pose proof (st_before _ _ _ _ _ _ Hset (area_of (pe / Nn)) (Harea _)) as Hbef. unfold before_outputs in Hbef. lia.
Qed.

(** A message is taken from the queue, the memory as it is then *)
Lemma next_message pe se sb dn Q s m' : inv pe se sb dn Q s → (pe < se)%nat → ((pe < total)%nat → written (pI (area_of (pe / Nn))) N C SL (Z.of_nat (pe mod Nn)) (value D W sent pe) (SL + 1) (memory s) m') →
  ((total ≤ pe)%nat → m' = memory s) → (submitted pe ≤ submitted (S pe))%nat →
  inv (S pe) se sb dn Q {| cpu := cpu s; memory := m'; transferThread := tail (transferThread s); thWorkers := thWorkers s; futures := futures s; todo := todo s |}.
Proof.
  intros Hi Hpe Hwr Hsame Hsub. pose proof (packed_ok pe se sb dn Q s m' Hi Hpe) as Hpk.
  pose proof Hi as [Hcpu Hmem (Ho1 & Ho2 & Ho3) Hqueue Hfut Hpos Hadd Hwk Hown Hwork Hreuse Hactive Hrefs Hcoeffs Hin Hout].
  split; cbn [cpu memory transferThread thWorkers futures]; try done.
  - lia.
  - rewrite Hqueue. replace (se - pe)%nat with (S (se - S pe)) by lia. done.
  - intros e He Het. destruct (decide (pe < total)%nat) as [Hlt|Hge].
    + destruct (Hpk Hlt (Hwr Hlt)) as [H1 _]. by apply H1.
    + rewrite Hsame by lia. apply Hin; lia.
  - intros p q o x. destruct (decide (pe < total)%nat) as [Hlt|Hge].
    + destruct (Hpk Hlt (Hwr Hlt)) as [_ H2]. by apply H2.
    + rewrite Hsame by lia. apply Hout.
Qed.

Lemma transfer_ok pe se dn Q s : inv pe se (submitted pe) dn Q s → (pe < se)%nat →
  ∃ s' Q' reqs, transfer_step t s = Some s' ∧ todo s' = todo s ∧ thWorkers s' = send reqs (thWorkers s) ∧ (length reqs ≤ length pieces)%nat ∧
    length (transferThread s) = S (length (transferThread s')) ∧ inv (S pe) se (submitted (S pe)) dn Q' s'.
Proof.
  intros Hi Hpe. pose proof (Nn_pos _ _ _ _ _ _ Hset) as Hn. pose proof Hi as [_ _ (Ho1 & Ho2 & Ho3) Hqueue _ _ _ _ _ _ _ _ _ _ _ _].
  assert (transferThread s = message D A W sent pe :: (message D A W sent <$> seq (S pe) (se - S pe))) as Eq by (rewrite Hqueue; replace (se - pe)%nat with (S (se - S pe)) by lia; done).
  assert (submitted pe ≤ submitted (S pe))%nat as Hmono by (apply submitted_mono; [done|lia|lia]).
  unfold transfer_step. rewrite Eq. set (s1 := {| cpu := cpu s |}). unfold message. destruct (decide (pe < total)%nat) as [Ht|Ht].
  - unfold transfer. cbn [memory s1].
    destruct (prepare_packed_ok t (pI (area_of (pe / Nn))) N C SL (Z.of_nat (pe mod Nn)) (input_at sent pe).1 W (memory s)) as (m' & -> & Hw); [apply Hset..|apply mod_Nn|destruct Hset; lia|].
    cbn [mbind option_bind]. pose proof (next_message pe se (submitted pe) dn Q s m' Hi Hpe (λ _, Hw) ltac:(lia) Hmono) as Hnext. rewrite (submitted_S Nn total Hn pe Ht), (submitted_at Nn total pe) in * by lia.
    cbn [cpu s1]. rewrite Eq in Hnext. cbn [tail] in Hnext. destruct (decide (S pe mod Nn = 0)%nat) as [E0|E0].
    + rewrite (proj2 (Z.eqb_neq N 0)) by lia. destruct (kernel_ok (S pe) se (pe / Nn) dn Q _ Hnext) as (c & reqs & Q' & Erk & Hlr & Hi').
      { rewrite (submitted_S Nn total Hn pe Ht), decide_True by done. lia. }
      rewrite batch_size_full, Z2Nat.id in Erk by (done || lia). cbn [cpu] in Erk. rewrite Erk. cbn [mbind option_bind]. eexists _, Q', reqs. split; [reflexivity|]. split; [done|]. split; [done|]. split; [lia|].
      split; [done|exact Hi'].
    + change (0 =? 0) with true. cbv iota. cbn [mbind option_bind]. eexists _, Q, []. split; [reflexivity|]. split; [done|]. split; [done|]. split; [cbn; lia|].
      split; [done|exact Hnext].
  - assert (pe = total ∧ total mod Nn ≠ 0%nat ∧ messages Nn total = S total)%nat as (-> & Hm & Em) by (unfold messages in *; destruct (decide (total mod Nn = 0)%nat); lia).
    pose proof (next_message total se (submitted total) dn Q s (memory s) Hi Hpe ltac:(lia) ltac:(done) Hmono) as Hnext. rewrite Eq in Hnext. cbn [tail] in Hnext. rewrite (submitted_at Nn total total) in * by lia.
    assert (submitted (S total) = S (total / Nn)) as Esub by (rewrite <- Em, submitted_messages by done; unfold batches; rewrite decide_False by done; lia). rewrite Esub.
    unfold transfer. cbn [mbind option_bind]. rewrite (proj2 (Z.eqb_neq _ 0)) by lia.
    destruct (kernel_ok (S total) se (total / Nn) dn Q _ Hnext) as (c & reqs & Q' & Erk & Hlr & Hi'); [lia|].
    rewrite batch_size_last in Erk by done. cbn [cpu s1] in *. rewrite Erk. cbn [mbind option_bind]. eexists _, Q', reqs. split; [reflexivity|]. split; [done|]. split; [done|]. split; [lia|].
    split; [done|exact Hi'].
Qed.
End Steps.
