(* ===== verification/BackendSpec.v ===== *)
(** * BackendSpec.v: what the backend computes, whatever the threads do

    A worker that handles a request keeps the invariant.  Every run of the threads ends, none gets stuck, and when it has ended the outputs are the sums
    of the products of the inputs with their coefficients, with their checksums right. *)

From stdpp Require Import relations.
From S2P Require Import Prelude LinOp GF GfCoeff GfLookup GfChecksum GfPacked GfPackedSpec BackendCpu BackendThreads BackendWorkSpec BackendPlanSpec BackendStepSpec.

(** ** The workers *)

Section Worker.
Context (t : gfmat_tables) (D : dims) (A : nat) (W : Z) (sent : list (array * list Z)) (exps : list Z).
Hypothesis Hset : setting t D A W sent exps.

Abbreviation N := (d_N D).
Abbreviation O := (d_O D).
Abbreviation C := (d_C D).
Abbreviation SL := (d_SL D).
Abbreviation K := (d_K D).
Abbreviation pO := (d_pO D).
Abbreviation pI := (d_pI D).
Abbreviation width q := (Z.min C (SL + 1 - C * q)).
Abbreviation Nn := (Z.to_nat N).
Abbreviation total := (length sent).
Abbreviation area_of b := ((d_first D + b) mod A)%nat.
Abbreviation pieces := (D_plan D).
Abbreviation inv := (inv D A W sent exps).
Abbreviation submitted e := (submitted Nn total e).
Abbreviation complete := (complete D).
Abbreviation batch b := (batch_size Nn total b).

(** The coefficients of input [i] of batch [b] *)
Definition batch_coef (b : nat) (i o : Z) : Z := coef sent (b * Nn + Z.to_nat i) o.

Lemma batch_input b i : (i < batch b)%nat → ((b * Nn + i) / Nn = b ∧ (b * Nn + i) mod Nn = i ∧ b * Nn + i < total)%nat.
Proof.
  intros Hi. unfold batch_size in Hi. pose proof (Nn_pos _ _ _ _ _ _ Hset) as Hn. pose proof (div_same Nn Hn b i ltac:(lia)) as E. split_and!; [done| |lia].
  pose proof (Nat.div_mod_eq (b * Nn + i) Nn). rewrite E in *. lia.
Qed.

Section Message.
Context (pe se : nat) (dn : piece → nat) (Q : nat → list (nat * piece)) (s : system).
Hypothesis Hi : inv pe se (submitted pe) dn Q s.
Context (b : nat).
Hypothesis Hb : (b < submitted pe)%nat.
Hypothesis Hc : ¬ complete dn b.

Lemma message_coeffs : coeffs_ok N O (cpu s) (area_of b) (Z.of_nat (batch b)) (batch_coef b).
Proof.
  pose proof (iv_order _ _ _ _ _ _ _ _ _ _ _ Hi) as (Ho1 & Ho2 & _). pose proof (iv_cpu _ _ _ _ _ _ _ _ _ _ _ Hi) as Hcpu. split.
  - destruct (area_lookup _ _ _ _ _ _ Hset _ _ _ _ _ _ Hi b) as [area Ha]. exists area. split; [done|]. intros i o Hio Ho. unfold batch_coef.
    destruct (batch_input b (Z.to_nat i) ltac:(lia)) as (E1 & E2 & Ht). destruct (submitted_input _ _ _ _ _ _ Hset b (Z.to_nat i) pe ltac:(lia) Hb ltac:(lia)) as [Hpe _].
    split; [|by apply (coef_lookup _ _ _ _ _ _ Hset)]. pose proof (iv_coeffs _ _ _ _ _ _ _ _ _ _ _ Hi (b * Nn + Z.to_nat i) area ltac:(lia) Ht) as Hco. rewrite E1, E2 in Hco.
    rewrite Z2Nat.id in Hco by lia. by apply Hco.
  - intros o Ho. destruct (st_exps _ _ _ _ _ _ Hset) as [Hle H0]. rewrite (ck_exps _ _ _ _ _ Hcpu). destruct (lookup_lt_is_Some_2 exps (Z.to_nat o)) as [e He]; [lia|].
    exists e. split; [done|]. intros -> i Hin. unfold batch_coef. destruct (batch_input b (Z.to_nat i) ltac:(lia)) as (_ & _ & Ht).
    destruct (coef_lookup _ _ _ _ _ _ Hset _ o Ht Ho) as [Hl _]. unfold input_at in Hl. destruct (lookup_lt_is_Some_2 sent _ Ht) as [x Hx]. rewrite Hx in Hl. change (default (∅, []) (Some x)) with x in Hl.
    rewrite (H0 _ x He) in Hl by (by eapply list_elem_of_lookup_2). by injection Hl.
Qed.

(** The sum of the inputs of the batch in a tile *)
Lemma batch_sum q o x : 0 ≤ q < K → 0 ≤ o < O → 0 ≤ x < 4 * width q →
  tile_value N C SL pI (memory s) (area_of b) (Z.of_nat (batch b)) (batch_coef b) q o x =
  xsum (λ e, mul16 (coef sent e o) (value D W sent e (q * C + x / 4) (x mod 4))) (seq (b * Nn) (batch b)).
Proof.
  intros Hq Ho Hx. pose proof (iv_order _ _ _ _ _ _ _ _ _ _ _ Hi) as (Ho1 & Ho2 & _). unfold tile_value. rewrite xsum_seqZ.
  assert (seq (b * Nn) (batch b) = Nat.add (b * Nn) <$> seq 0 (batch b)) as -> by (rewrite fmap_add_seq; f_equal; lia). rewrite xsum_map. apply xsum_ext. intros i [_ Hib]%elem_of_seq.
  destruct (batch_input b i ltac:(lia)) as (E1 & E2 & Ht). destruct (submitted_input _ _ _ _ _ _ Hset b i pe ltac:(lia) Hb ltac:(lia)) as [Hpe _].
  unfold batch_coef. rewrite Nat2Z.id. f_equal. destruct Hset. assert (0 ≤ x / 4 < width q ∧ 0 ≤ x mod 4 < 4) as [Hx4 Hxm] by (Z.div_mod_to_equations; lia).
  assert (0 ≤ q * C + x / 4 < SL + 1) as Hblk by nia.
  pose proof (iv_inputs _ _ _ _ _ _ _ _ _ _ _ Hi (b * Nn + i) Hpe Ht) as Hin. rewrite E1, E2 in Hin. rewrite <- (Hin Hc (q * C + x / 4) (x mod 4) Hblk Hxm).
  rewrite in_at_block by lia. f_equal. Z.div_mod_to_equations. lia.
Qed.
End Message.

(** ** The pieces that a batch waits for *)

Definition piece_done (dn : piece → nat) (p : piece) (b : nat) (p' : piece) : nat := if decide (p' = p) then S b else dn p'.

Lemma complete_other dn p b b' : p ∈ pieces → dn p = b → b' ≠ b → complete (piece_done dn p b) b' ↔ complete dn b'.
Proof.
  intros Hp Hd Hne. unfold BackendStepSpec.complete, piece_done. split; intros H p' Hp'; specialize (H p' Hp'); revert H; case_decide as E; subst; lia.
Qed.

Lemma complete_still dn p b b' : dn p = b → complete dn b' → complete (piece_done dn p b) b'.
Proof. intros Hd H p' Hp'. specialize (H p' Hp'). unfold piece_done. case_decide; subst; lia. Qed.

Lemma pending_other dn p b b' : dn p = b → b' ≠ b → pending D (piece_done dn p b) b' = pending D dn b'.
Proof.
  intros Hd Hne. unfold pending. induction (D_plan D) as [|p' l IH]; [done|]. rewrite !filter_cons, IH. unfold piece_done. destruct (decide (p' = p)) as [->|]; [|done]. rewrite Hd.
  do 2 case_decide; (done || lia).
Qed.

Lemma pending_done dn p b : p ∈ pieces → dn p = b → length (pending D dn b) = S (length (pending D (piece_done dn p b) b)).
Proof.
  intros Hp Hd. change (S ?n) with (length (p :: pending D (piece_done dn p b) b)). apply Permutation_length. pose proof (pieces_nodup _ _ _ _ _ _ Hset) as Hnd.
  apply NoDup_Permutation; [by apply NoDup_filter| |].
  - constructor; [|by apply NoDup_filter]. intros [H _]%list_elem_of_filter. unfold piece_done in H. rewrite decide_True in H by done. lia.
  - intros p'. rewrite elem_of_cons. unfold pending. rewrite !list_elem_of_filter. unfold piece_done. destruct (decide (p' = p)) as [->|Hne].
    + split; [by left|]. intros _. split; [lia|done].
    + split; [by right|]. intros [|]; done.
Qed.

Lemma no_pending dn b : pending D dn b = [] ↔ complete dn b.
Proof.
  split.
  - intros E. destruct (complete_decision D dn b) as [|H]; [done|]. apply complete_not in H as (p & Hp & Hd). assert (p ∈ pending D dn b) as H by by apply list_elem_of_filter. rewrite E in H. by apply elem_of_nil in H.
  - intros H. destruct (pending D dn b) as [|p l] eqn:E; [done|]. assert (p ∈ pending D dn b) as [Hd Hp]%list_elem_of_filter by (rewrite E; left). specialize (H p Hp). lia.
Qed.

(** The end of a request *)
Lemma request_done_ok c req area : staging c !! procIdx req = Some area →
  ∃ c', request_done c req = Some c' ∧ setup c' = setup c ∧ length (staging c') = length (staging c) ∧ processingAdd c' = processingAdd c ∧
    currentStagingArea c' = currentStagingArea c ∧ currentStagingInputs c' = currentStagingInputs c ∧
    ∀ a area', staging c' !! a = Some area' → ∃ area0, staging c !! a = Some area0 ∧ src area' = src area0 ∧ procCoeffs area' = procCoeffs area0 ∧
      if decide (a = procIdx req) then area0 = area ∧ procRefs area' = procRefs area - 1 ∧ isActive area' = (if procRefs area <=? 1 then false else isActive area)
      else procRefs area' = procRefs area0 ∧ isActive area' = isActive area0.
Proof.
  intros Ha. unfold request_done. rewrite Ha. cbn [mbind option_bind]. set (c1 := set_area (procIdx req) (set_procRefs (procRefs area - 1)) c).
  assert (∀ a, staging c1 !! a = if decide (a = procIdx req) then Some (set_procRefs (procRefs area - 1) area) else staging c !! a) as H1
    by (intros a; unfold c1; rewrite set_area_lookup; case_decide; [by rewrite Ha|done]).
  assert (length (staging c1) = length (staging c)) as L1 by apply length_set_area. eexists. split; [reflexivity|]. destruct (procRefs area <=? 1); (split; [done|]).
  - split; [by rewrite length_set_area|]. split_and!; [done..|]. intros a area'. rewrite set_area_lookup. change (staging (set_activeCount (stagingActiveCount c - 1) c1)) with (staging c1). rewrite !H1.
    rewrite (decide_True _ _ (eq_refl (procIdx req))). destruct (decide (a = procIdx req)) as [->|]; [intros [= <-]|intros Ha']; [by exists area|by exists area'].
  - split_and!; [done..|]. intros a area'. rewrite H1. destruct (decide (a = procIdx req)) as [->|]; [intros [= <-]|intros Ha']; [by exists area|by exists area'].
Qed.

(** The tiles after a request *)
Lemma message_tiles pe se dn Q s b p m' : inv pe se (submitted pe) dn Q s → (b < submitted pe)%nat → p ∈ pieces → dn p = b →
  tiles_done N O C SL pO pI K (negb (bool_decide (b = 0%nat))) (area_of b) (Z.of_nat (batch b)) (batch_coef b) (piece_tiles p) (memory s) m' →
  (∀ p' q o x, p' ∈ pieces → (0 < piece_done dn p b p')%nat → piece_tiles p' q o → 0 ≤ x < 4 * width q →
    word m' (out_at O C SL pO q o + x) = tile_sum D W sent (Nat.min (piece_done dn p b p' * Nn) total) q o x) ∧
  ∀ a, a < pO → word m' a = word (memory s) a.
Proof.
  intros Hi Hb Hp Hd [T1 T2 T3]. pose proof (iv_order _ _ _ _ _ _ _ _ _ _ _ Hi) as (Ho1 & Ho2 & _). pose proof (iv_outputs _ _ _ _ _ _ _ _ _ _ _ Hi) as Hout.
  assert (¬ complete dn b) as Hc by (intros Hc; specialize (Hc p Hp); lia). pose proof Hset as [_ HC _ _ HN HO _ HK _ _ _ _ _ _]. pose proof (K_pos _ _ _ _ _ _ Hset) as HK1. split.
  - intros p' q o x Hp' Hdn Hpt Hx. unfold piece_done in *. destruct (decide (p' = p)) as [->|Hne].
    + destruct (T1 q o Hpt) as [Hq Ho]. rewrite (T2 q o Hpt x Hx), (batch_sum pe se dn Q s Hi b Hb Hc) by done.
      assert (b < batches Nn total)%nat as Hbb by (pose proof (submitted_batches _ _ _ _ _ _ Hset pe ltac:(lia)); lia). pose proof (batch_start Nn total (Nn_pos _ _ _ _ _ _ Hset) b Hbb) as Hbs.
      rewrite (batch_end Nn total (Nn_pos _ _ _ _ _ _ Hset) b Hbb). unfold tile_sum at 1. rewrite seq_app, xsum_app. f_equal.
      destruct (decide (b = 0%nat)) as [E0|E0]; [rewrite bool_decide_eq_true_2 by done; rewrite E0; done|]. rewrite bool_decide_eq_false_2 by done. cbn [negb].
      rewrite (Hout p q o x Hp ltac:(lia) Hpt Hx), Hd, Nat.min_l by lia. done.
    + rewrite T3; [by apply Hout|]. destruct (piece_good _ _ _ _ _ _ Hset p' Hp') as [[Hg1 Hg2 _] _]. pose proof Hpt as Hpt'. destruct Hpt' as [Hq Ho].
      apply (other_tile O C SL pO ltac:(lia) K HK); [done| |lia|lia|done]. intros Hpt2. destruct Hne. destruct Hset. by apply (plan_apart O K (d_T D) ltac:(lia) ltac:(lia) ltac:(lia) p' p q o).
  - intros a Hlt. apply T3. intros q o x Hpt Hx E. pose proof (tile_address _ _ _ _ _ _ Hset p q o x Hp Hpt Hx). lia.
Qed.

Lemma worker_ok pe se dn Q s i req q : inv pe se (submitted pe) dn Q s → thWorkers s !! i = Some (req :: q) →
  ∃ s' dn' Q', worker_step i s = Some s' ∧ todo s' = todo s ∧ transferThread s' = transferThread s ∧ thWorkers s' = <[i := q]> (thWorkers s) ∧ inv pe se (submitted pe) dn' Q' s'.
Proof.
  intros Hi Hq. pose proof (submitted_le _ _ _ _ _ _ Hset _ _ _ _ _ _ Hi) as Hle. pose proof (incomplete_unique _ _ _ _ _ _ Hset _ _ _ _ _ _ Hi) as Huniq.
  pose proof Hi as [Hcpu Hmem (Ho1 & Ho2 & Ho3) Hqueue Hfut Hpos Hadd [Hwk1 Hwk2] Hown Hwork Hreuse Hactive Hrefs Hcoeffs Hin Hout].
  pose proof (Hwk2 i _ Hq) as Ew. destruct (Q i) as [|[b p] Q0] eqn:EQ; [done|]. injection Ew as -> Eq0.
  destruct (Hown i b p) as [Hp Ht]; [rewrite EQ; left|]. destruct (Hwork p Hp) as [Hd1 Hd2]. rewrite Ht, Nat2Z.id, EQ, filter_cons_True in Hd2 by done.
  destruct (submitted pe - dn p)%nat as [|left] eqn:El; [done|]. cbn [seq fmap list_fmap] in Hd2. injection Hd2 as Eb Hrest.
  assert (b < submitted pe)%nat as Hb by lia. assert (¬ complete dn b) as Hc by (intros Hc; specialize (Hc p Hp); lia).
  destruct (area_lookup _ _ _ _ _ _ Hset _ _ _ _ _ _ Hi b) as [area Ha]. pose proof (Hrefs b area Hb Hc Ha) as Hr. rewrite (pending_done dn p b Hp (eq_sym Eb)) in Hr.
  destruct (piece_good _ _ _ _ _ _ Hset p Hp) as [Hg _]. pose proof Hset as [_ HC _ _ HN HO _ HK _ _ _ Hbef _ _].
  destruct (compute_ok N O C SL pO pI ltac:(lia) ltac:(lia) ltac:(lia) K HK (cpu s) (area_of b) (Z.of_nat (batch b)) (negb (bool_decide (b = 0%nat))) (pc_q0 p) (pc_nq p) (pc_o0 p) (pc_no p) (memory s)
    (batch_coef b) Hg ltac:(unfold batch_size; lia) (Hbef _ (area_lt _ _ _ _ _ _ Hset b)) (message_coeffs pe se dn Q s Hi b Hb Hc)) as (m' & Em & Htd).
  destruct (message_tiles pe se dn Q s b p m' Hi Hb Hp (eq_sym Eb) Htd) as [Hout' Hin'].
  set (req := worker_message D A sent (b, p)) in *. destruct (request_done_ok (cpu s) req area Ha) as (c' & Ec & R1 & R2 & R3 & R4 & R5 & R6). change (procIdx req) with (area_of b) in R6.
  unfold worker_step. rewrite Hq. cbn [mbind option_bind]. change (compute (cpu s) req (memory s) = Some m') in Em. rewrite Em. cbn [mbind option_bind]. rewrite Ec. cbn [mbind option_bind].
  eexists _, (piece_done dn p b), (λ j, if decide (j = i) then Q0 else Q j). do 4 (split; [reflexivity|]).
  assert (∀ b', ¬ complete (piece_done dn p b) b' → ¬ complete dn b') as Hmono by (intros b' H1 H2; apply H1; by apply complete_still).
  pose proof Hcpu as [_ Hl _ _ _ _ Hco].
  split; cbn [cpu memory transferThread thWorkers futures].
  - apply (cpu_ok_setup D A W exps (cpu s)); [done|done|by rewrite R2|]. intros a area' Ha'. destruct (R6 a area' Ha') as (area0 & H0 & _ & -> & _). by apply (Hco a).
  - destruct Hmem as [Hmem|[E Hmem]]; [left|right; split; [done|]]; intros a area' Ha'; destruct (R6 a area' Ha') as (area0 & H0 & -> & _); by apply (Hmem a).
  - done.
  - done.
  - done.
  - by rewrite R4, R5.
  - by rewrite R3.
  - split; [by rewrite length_insert|]. intros j q'. destruct (decide (j = i)) as [->|Hne]; [|rewrite list_lookup_insert_ne by done; apply Hwk2].
    rewrite list_lookup_insert_eq by (by eapply lookup_lt_Some). intros [= <-]. exact Eq0.
  - intros j b' p'. destruct (decide (j = i)) as [->|Hne]; [|apply Hown]. intros Hin0. apply (Hown i b'). rewrite EQ. by right.
  - intros p' Hp'. destruct (Hwork p' Hp') as [H1 H2]. unfold piece_done. destruct (decide (p' = p)) as [->|Hne].
    + split; [lia|]. rewrite Ht, Nat2Z.id, decide_True by done. rewrite Hrest. do 2 f_equal; lia.
    + split; [done|]. destruct (decide (Z.to_nat (pc_thread p') = i)) as [E|E]; [|done]. rewrite E, EQ in H2. by rewrite filter_cons_False in H2 by (intros E'; by apply Hne).
  - intros e b' He Het Hb' Hba. apply complete_still; [done|]. by apply (Hreuse e).
  - intros a area' Ha'. destruct (R6 a area' Ha') as (area0 & H0 & _ & _ & Hst). specialize (Hactive a area0 H0). destruct (decide (a = area_of b)) as [->|Hna].
    + destruct Hst as (-> & _ & ->). destruct (Z.leb_spec (procRefs area) 1) as [Hle1|Hgt1].
      * split; [done|]. intros (b' & Hb' & Hba & Hc'). assert (b' = b) as -> by (apply Huniq; [done|lia|done|by apply Hmono|done]).
        destruct Hc'. apply no_pending. apply nil_length_inv. lia.
      * rewrite Hactive. split; [|intros (b' & Hb' & Hba & Hc'); exists b'; split_and!; [done|done|by apply Hmono]].
        intros _. exists b. split_and!; [lia|done|]. intros Hc'%no_pending. rewrite Hc' in Hr. cbn in Hr. lia.
    + destruct Hst as [_ ->]. rewrite Hactive. assert (∀ b', area_of b' = a → complete (piece_done dn p b) b' ↔ complete dn b') as Hother by (intros b' Hba; apply complete_other; [done|done|congruence]).
      split; intros (b' & Hb' & Hba & Hc'); exists b'; (split_and!; [done|done|]); by rewrite ?Hother in * by done.
  - intros b' area' Hb' Hc' Ha'. destruct (R6 _ area' Ha') as (area0 & H0 & _ & _ & Hst). destruct (decide (area_of b' = area_of b)) as [E|E].
    + assert (b' = b) as -> by (apply Huniq; [lia|lia|done|by apply Hmono|done]). destruct Hst as (_ & -> & _). lia.
    + destruct Hst as [-> _]. rewrite pending_other by (done || congruence). apply Hrefs; [done|by apply Hmono|done].
  - intros e area' He Het Hc' Ha'. destruct (R6 _ area' Ha') as (area0 & H0 & _ & -> & _). apply (Hcoeffs e); [done|done|by apply Hmono|done].
  - intros e He Het Hc' b' k Hb' Hk. rewrite Hin'; [apply Hin; [done|done|by apply Hmono|done|done]|].
    pose proof (input_address _ _ _ _ _ _ Hset (area_of (e / Nn)) (Z.of_nat (e mod Nn)) b' k (mod_Nn _ _ _ _ _ _ Hset e) Hb' Hk).
    pose proof (Hbef (area_of (e / Nn)) (area_lt _ _ _ _ _ _ Hset _)) as Hbf. unfold before_outputs in Hbf. lia.
  - exact Hout'.
Qed.
End Worker.

Section Whole.
Context (t : gfmat_tables) (D : dims) (A : nat) (W : Z) (sent : list (array * list Z)) (exps : list Z).
Hypothesis Hset : setting t D A W sent exps.
Hypothesis Hsent : sent ≠ [].
Context (given : list (array * (Z + list Z))).
Hypothesis Hgiven : Forall2 (λ g x, g.1 = x.1 ∧ resolves t exps g.2 x.2) given sent.

Abbreviation N := (d_N D).
Abbreviation O := (d_O D).
Abbreviation C := (d_C D).
Abbreviation SL := (d_SL D).
Abbreviation K := (d_K D).
Abbreviation pO := (d_pO D).
Abbreviation pI := (d_pI D).
Abbreviation width q := (Z.min C (SL + 1 - C * q)).
Abbreviation Nn := (Z.to_nat N).
Abbreviation total := (length sent).
Abbreviation area_of b := ((d_first D + b) mod A)%nat.
Abbreviation pieces := (D_plan D).
Abbreviation inv := (inv D A W sent exps).
Abbreviation submitted e := (submitted Nn total e).
Abbreviation complete := (complete D).
Abbreviation messages := (messages Nn total).

(** ** The phases of a run *)

Definition gets (k : nat) : list command := (λ k, GetOutput (Z.of_nat k)) <$> seq k (Z.to_nat O - k).

Record adding (pe se : nat) (dn : piece → nat) (Q : nat → list (nat * piece)) (s : system) : Prop := {
  ad_inv : inv pe se (submitted pe) dn Q s;
  ad_count : (se ≤ total)%nat;
  ad_todo : todo s = ((λ x, AddInput x.1 (2 * W) x.2) <$> drop se given) ++ [EndInput; AwaitEnd] ++ gets 0;
}.

Record waiting (pe : nat) (dn : piece → nat) (Q : nat → list (nat * piece)) (s : system) : Prop := {
  wa_inv : inv pe messages (submitted pe) dn Q s;
  wa_todo : todo s = AwaitEnd :: gets 0;
}.

(** The backend between two chunks: nothing is active, and no memory is given out for inputs, or all of it. *)
Record ready (c : PAR2ProcCPU) : Prop := {
  rd_cpu : cpu_ok D A W exps c;
  rd_memory : memory_ok D 0 c;
  rd_area : (currentStagingArea c < A)%nat;
  rd_inputs : currentStagingInputs c = 0;
  rd_idle : ∀ a area, staging c !! a = Some area → isActive area = false;
}.

(** An output is the sum of the products of the inputs with their coefficients, word by word. *)
Definition right_output (o : nat) (out : array) : Prop :=
  ∀ w, 0 ≤ w < W → word out w = xsum (λ s, mul16 (nth o s.2 0) (word s.1 w)) sent.

(** The checksum is right, and so is the output. *)
Definition right_future (o : nat) (f : Z * bool * array) : Prop := f.1 = (Z.of_nat o, true) ∧ right_output o f.2.

(** [k] outputs are asked for, [j] are there. *)
Record fetching (k j : nat) (s : system) : Prop := {
  fe_ready : ready (cpu s);
  fe_count : (j ≤ k)%nat ∧ (k ≤ Z.to_nat O)%nat;
  fe_todo : todo s = gets k;
  fe_queue : transferThread s = (λ o, Finish (2 * pO) (2 * W) O (Z.of_nat o) (8 * C)) <$> seq j (k - j);
  fe_workers : Forall (λ q, q = []) (thWorkers s);
  fe_futures : length (futures s) = j ∧ ∀ o f, futures s !! o = Some f → right_future o f;
  fe_outputs : ∀ q o x, 0 ≤ q < K → 0 ≤ o < O → 0 ≤ x < 4 * width q → word (memory s) (out_at O C SL pO q o + x) = tile_sum D W sent total q o x;
}.

(** ** An output is right *)

Lemma tile_word q o x : 0 ≤ q < K → 0 ≤ o < O → 0 ≤ x < 4 * width q → q * C + x / 4 < SL →
  tile_sum D W sent total q o x = xsum (λ e, mul16 (coef sent e o) (padded (input_at sent e).1 W (q * C + x / 4) (x mod 4))) (seq 0 total).
Proof. intros Hq Ho Hx Hlt. apply xsum_ext. intros e _. unfold value, slice_value. by rewrite (proj2 (Z.ltb_lt _ _)). Qed.

Lemma output_word m o b k : (∀ q o x, 0 ≤ q < K → 0 ≤ o < O → 0 ≤ x < 4 * width q → word m (out_at O C SL pO q o + x) = tile_sum D W sent total q o x) →
  0 ≤ o < O → 0 ≤ b < SL + 1 → 0 ≤ k < 4 → packed_word pO O C SL o m b k = xsum (λ e, mul16 (coef sent e o) (value D W sent e b k)) (seq 0 total).
Proof.
  intros Hm Ho Hb Hk. pose proof Hset as [_ HC _ _ _ _ _ HK _ _ _ _ _ _]. pose proof (Z.div_mod b C ltac:(lia)) as Hdm. pose proof (Z.mod_pos_bound b C ltac:(lia)) as Hr.
  set (q := b / C) in *. set (j := b mod C) in *. assert (0 ≤ q) by (apply Z.div_pos; lia). assert (q < K) by nia. unfold packed_word.
  replace b with (q * C + j) at 1 by lia. rewrite out_at_block, <- Z.add_assoc by lia. rewrite Hm by lia. unfold tile_sum. apply xsum_ext. intros e _. do 2 f_equal; Z.div_mod_to_equations; lia.
Qed.

Lemma sum_inputs (f : array * list Z → Z) : xsum (λ e, f (input_at sent e)) (seq 0 total) = xsum f sent.
Proof.
  assert (sent = input_at sent <$> seq 0 total) as E; [|rewrite <- (xsum_map (input_at sent) f), <- E; done]. apply list_eq. intros i. rewrite list_lookup_fmap. destruct (decide (i < total)%nat) as [H|H].
  - rewrite lookup_seq_lt by done. destruct (lookup_lt_is_Some_2 sent i H) as [x Hx]. unfold input_at. cbn [fmap option_fmap option_map Nat.add]. by rewrite Hx.
  - rewrite lookup_ge_None_2 by lia. by rewrite lookup_seq_ge by lia.
Qed.

Lemma padded_range x b k : u16 (padded x W b k).
Proof. unfold padded. destruct (_ <? _); [apply word_range|apply in_range_0; lia]. Qed.

Lemma finish_ok m o : (∀ q o x, 0 ≤ q < K → 0 ≤ o < O → 0 ≤ x < 4 * width q → word m (out_at O C SL pO q o + x) = tile_sum D W sent total q o x) → 0 ≤ o < O →
  ∃ out, gf16_lookup_finish_packed_cksum_generic t ∅ m (2 * pO) (2 * W) O o (8 * C) = Some (true, out) ∧ right_output (Z.to_nat o) out.
Proof.
  intros Hm Ho. pose proof Hset as [Ht HC HSL HW _ _ _ _ _ _ _ _ _ _]. destruct (finish_packed_ok t pO O C SL o m W ∅ Ht HC HSL Ho HW) as (ok & out & E & Hok & Hw).
  assert (∀ b k, 0 ≤ b < SL → 0 ≤ k < 4 → packed_word pO O C SL o m b k = xsum (λ e, mul16 (coef sent e o) (padded (input_at sent e).1 W b k)) (seq 0 total)) as Hpw.
  { intros b k Hb Hk. rewrite (output_word m o b k Hm Ho ltac:(lia) Hk). apply xsum_ext. intros e _. unfold value, slice_value. by rewrite (proj2 (Z.ltb_lt _ _)) by lia. }
  assert (ok = true) as ->.
  { apply Hok. intros k Hk. rewrite (output_word m o SL k Hm Ho ltac:(lia) Hk).
    rewrite (horner_ext _ (λ b, xsum (λ e, mul16 (coef sent e o) (padded (input_at sent e).1 W (Z.of_nat b) k)) (seq 0 total))).
    - rewrite (horner_xsum (λ e b, mul16 (coef sent e o) (padded (input_at sent e).1 W (Z.of_nat b) k))). apply xsum_ext. intros e _. rewrite horner_mul by (intros; apply padded_range).
      unfold value, slice_value. by rewrite Z.ltb_irrefl.
    - intros b Hb. unfold seen. destruct (Z.ltb_spec (4 * Z.of_nat b + k) W) as [|Hge]; [by apply Hpw; lia|]. symmetry. apply xsum_zeros. intros e _. unfold padded.
      rewrite (proj2 (Z.ltb_ge _ _)) by lia. apply (gf_mul_0_r 16 poly16). }
  exists out. split; [done|]. intros w Hwr. assert (w = 4 * (w / 4) + w mod 4 ∧ 0 ≤ w mod 4 < 4 ∧ 0 ≤ w / 4 < SL) as (Ew & Hk & Hb) by (Z.div_mod_to_equations; lia).
  rewrite Ew, Hw by lia. rewrite Hpw by lia. rewrite <- (sum_inputs (λ s, mul16 (nth (Z.to_nat o) s.2 0) (word s.1 (4 * (w / 4) + w mod 4)))). apply xsum_ext. intros e _.
  unfold padded. by rewrite (proj2 (Z.ltb_lt _ _)) by lia.
Qed.

(** ** The steps *)

Lemma total_pos : (0 < total)%nat.
Proof. clear Hset. destruct sent; [done|cbn; lia]. Qed.

Lemma idle_complete pe se dn Q s : inv pe se (submitted pe) dn Q s → transferThread s = [] → Forall (λ q, q = []) (thWorkers s) → pe = se ∧ ∀ b, (b < submitted se)%nat → complete dn b.
Proof.
  intros Hi Ht Hw. destruct Hi as [_ _ (Ho1 & _ & _) Hqueue _ _ _ [Hwk1 Hwk2] _ Hwork _ _ _ _ _ _].
  assert (pe = se) as -> by (rewrite Ht in Hqueue; apply (f_equal length) in Hqueue; rewrite length_fmap, length_seq in Hqueue; cbn in Hqueue; lia).
  split; [done|]. intros b Hb p Hp. destruct (Hwork p Hp) as [Hd Hf]. destruct (piece_good _ _ _ _ _ _ Hset p Hp) as [_ Hth].
  destruct (lookup_lt_is_Some_2 (thWorkers s) (Z.to_nat (pc_thread p))) as [q Hq]; [lia|]. pose proof (Hwk2 _ q Hq) as E. rewrite Forall_lookup in Hw. rewrite (Hw _ q Hq) in E.
  symmetry in E. apply fmap_nil_inv in E. rewrite E in Hf. destruct (submitted se - dn p)%nat eqn:El; [lia|done].
Qed.

(** All batches are complete when no area is active. *)
Lemma inactive_finished pe dn Q s : inv pe messages (submitted pe) dn Q s → existsb isActive (staging (cpu s)) = false →
  pe = messages ∧ (∀ p, p ∈ pieces → dn p = batches Nn total) ∧ Forall (λ q, q = []) (thWorkers s).
Proof.
  intros Hi Hact. pose proof (Nn_pos _ _ _ _ _ _ Hset) as Hn. pose proof (submitted_messages Nn total Hn) as Em. pose proof (submitted_le _ _ _ _ _ _ Hset _ _ _ _ _ _ Hi) as Hle.
  assert (∀ b, (b < batches Nn total)%nat → complete dn b) as Hall.
  { intros b Hb. destruct (area_lookup _ _ _ _ _ _ Hset _ _ _ _ _ _ Hi b) as [area Ha]. apply (inactive_complete D A W sent exps pe messages (submitted pe) dn Q s (area_of b) area); [done|done| |by rewrite Em|done].
    destruct (isActive area) eqn:E; [|done]. rewrite <- Hact. symmetry. apply existsb_exists. exists area. split; [|done]. apply list_elem_of_In. by eapply list_elem_of_lookup_2. }
  assert (0 < batches Nn total)%nat as Hb0 by (pose proof (batch_of_lt Nn total Hn 0 total_pos); lia).
  pose proof Hi as [_ _ (Ho1 & _ & _) Hqueue _ _ _ [Hwk1 Hwk2] Hown Hwork _ _ _ _ _ _].
  assert (∀ p, p ∈ pieces → dn p = batches Nn total ∧ submitted pe = batches Nn total) as Hdn.
  { intros p Hp. destruct (Hwork p Hp) as [Hd _]. pose proof (Hall (batches Nn total - 1)%nat ltac:(lia) p Hp). rewrite Em in Hle. lia. }
  split_and!.
  - pose proof (K_pos _ _ _ _ _ _ Hset) as HK. destruct (plan_covers O K (d_T D) ltac:(destruct Hset; lia) ltac:(destruct Hset; lia) ltac:(lia) 0 0) as (p & Hp & _); [lia|destruct Hset; lia|].
    destruct (Hdn p Hp) as [_ E]. destruct (decide (pe = messages)) as [|Hne]; [done|]. exfalso. revert E Ho1 Hne. unfold BackendStepSpec.submitted, BackendStepSpec.messages, batches.
    pose proof (Nat.div_mod_eq total Nn). destruct (decide (total mod Nn = 0)%nat) as [E0|E0]; intros E Ho1 Hne.
    + rewrite decide_True in E by lia. pose proof (Nat.div_mod_eq pe Nn). pose proof (Nat.mod_upper_bound pe Nn ltac:(lia)). nia.
    + rewrite decide_True in E by lia. assert (pe / Nn ≤ total / Nn)%nat by (apply Nat.Div0.div_le_mono; lia). lia.
  - intros p Hp. by apply Hdn.
  - apply Forall_lookup. intros i q Hq. pose proof (Hwk2 i q Hq) as ->. destruct (Q i) as [|[b p] l] eqn:EQ; [done|]. exfalso. destruct (Hown i b p) as [Hp Hth]; [rewrite EQ; left|].
    destruct (Hwork p Hp) as [_ Hf]. destruct (Hdn p Hp) as [E1 E2]. rewrite E1, E2 in Hf. rewrite Hth, Nat2Z.id, EQ, Nat.sub_diag in Hf. by rewrite filter_cons_True in Hf.
Qed.

Lemma processing_finished_lookup c a area : staging (processing_finished c) !! a = Some area → ∃ area0, staging c !! a = Some area0 ∧ area = set_src None area0.
Proof. cbn [staging processing_finished set_staging]. rewrite list_lookup_fmap. intros (area0 & Ha & ->)%fmap_Some. by exists area0. Qed.

Lemma await_ok pe dn Q s s' : waiting pe dn Q s → main_step t s = Some s' → fetching 0 0 s' ∧ thWorkers s' = thWorkers s ∧ transferThread s' = transferThread s ∧ S (length (todo s')) = length (todo s).
Proof.
  intros [Hi Htodo] E. pose proof (Nn_pos _ _ _ _ _ _ Hset) as Hn. unfold main_step in E. rewrite Htodo in E. destruct (existsb isActive (staging (cpu s))) eqn:Hact; [done|]. injection E as <-.
  destruct (inactive_finished pe dn Q s Hi Hact) as (-> & Hdn & Hw). pose proof Hi as [Hcpu _ _ Hqueue Hfut [Hp1 Hp2] _ _ _ _ _ _ _ _ _ Hout].
  split; [|by rewrite Htodo]. split; cbn [cpu todo transferThread thWorkers futures memory]; try done.
  - split.
    + apply (cpu_ok_setup D A W exps (cpu s)); [done|done|cbn; rewrite length_fmap; by destruct Hcpu|]. intros a area (area0 & Ha & ->)%processing_finished_lookup. exact (ck_coeffs _ _ _ _ _ Hcpu a area0 Ha).
    + right. split; [done|]. by intros a area (area0 & Ha & ->)%processing_finished_lookup.
    + cbn. rewrite Hp1. apply Nat.mod_upper_bound. destruct Hset; lia.
    + cbn. rewrite Hp2, submitted_messages by done. apply (f_equal Z.of_nat (y := 0%nat)). pose proof (Nat.div_mod_eq total Nn). pose proof (Nat.mod_upper_bound total Nn ltac:(lia)). unfold batches. case_decide; nia.
    + intros a area (area0 & Ha & ->)%processing_finished_lookup. cbn. destruct (isActive area0) eqn:E; [|done]. rewrite <- Hact. symmetry. apply existsb_exists. exists area0. split; [|done].
      apply list_elem_of_In. by eapply list_elem_of_lookup_2.
  - lia.
  - by rewrite Hqueue, Nat.sub_diag.
  - rewrite Hfut. split; [done|]. intros o f Hf. by rewrite lookup_nil in Hf.
  - intros q o x Hq Ho Hx. destruct (plan_covers O K (d_T D) ltac:(destruct Hset; lia) ltac:(destruct Hset; lia) ltac:(lia) q o Hq Ho) as (p & Hp & Hpt).
    assert (total ≤ batches Nn total * Nn)%nat as Hle by (unfold batches; pose proof (Nat.div_mod_eq total Nn); pose proof (Nat.mod_upper_bound total Nn ltac:(lia)); case_decide; nia).
    pose proof total_pos. rewrite (Hout p q o x Hp ltac:(rewrite (Hdn p Hp); nia) Hpt Hx), (Hdn p Hp). by rewrite Nat.min_r by done.
Qed.

Lemma gets_S k : (k < Z.to_nat O)%nat → gets k = GetOutput (Z.of_nat k) :: gets (S k).
Proof. intros H. unfold gets. by replace (Z.to_nat O - k)%nat with (S (Z.to_nat O - S k)) by lia. Qed.

Lemma get_ok k j s : fetching k j s → (k < Z.to_nat O)%nat →
  ∃ s', main_step t s = Some s' ∧ fetching (S k) j s' ∧ thWorkers s' = thWorkers s ∧ length (transferThread s') = S (length (transferThread s)) ∧ S (length (todo s')) = length (todo s).
Proof.
  intros [Hr [Hc1 Hc2] Htodo Hq Hw Hf Ho] Hk. pose proof (rd_cpu _ Hr) as [[EN EO EC EA EK ET EM] _ Hexp _ Hsize _ _]. unfold main_step. rewrite Htodo, gets_S by done.
  unfold getOutput_data. rewrite EM, EO, EC, Hsize. cbn [mbind option_bind]. eexists. split; [reflexivity|]. split; [|cbn; rewrite length_app; cbn; split_and!; [done|lia|done]].
  split; cbn [cpu todo transferThread thWorkers futures memory]; try done; [lia|].
  rewrite Hq. replace (S k - j)%nat with (S (k - j)) by lia. rewrite seq_S, fmap_app. by replace (j + (k - j))%nat with k by lia.
Qed.

Lemma future_ok k j s : fetching k j s → (j < k)%nat →
  ∃ s', transfer_step t s = Some s' ∧ fetching k (S j) s' ∧ thWorkers s' = thWorkers s ∧ length (transferThread s) = S (length (transferThread s')) ∧ todo s' = todo s.
Proof.
  intros [Hr [Hc1 Hc2] Htodo Hq Hw [Hf1 Hf2] Ho] Hk. unfold transfer_step. assert (transferThread s = Finish (2 * pO) (2 * W) O (Z.of_nat j) (8 * C) :: ((λ o, Finish (2 * pO) (2 * W) O (Z.of_nat o) (8 * C)) <$> seq (S j) (k - S j))) as Eq
    by (rewrite Hq; by replace (k - j)%nat with (S (k - S j)) by lia).
  rewrite Eq. unfold transfer. cbn [memory]. destruct (finish_ok (memory s) (Z.of_nat j) Ho ltac:(lia)) as (out & -> & Hout). cbn [mbind option_bind]. eexists. split; [reflexivity|].
  split; [|cbn; split_and!; (done || lia)]. split; cbn [cpu todo transferThread thWorkers futures memory]; try done. rewrite length_app, Hf1. split; [cbn; lia|]. intros o f Hof.
  apply lookup_app_Some in Hof as [Hof|[Hge Hof]]; [by apply Hf2|]. rewrite Hf1 in *. destruct (o - j)%nat eqn:E; [|done]. injection Hof as <-. assert (o = j) as -> by lia.
  split; [done|]. by rewrite Nat2Z.id in Hout.
Qed.

(** ** Runs *)

(** What holds in every state that is reached *)
Inductive good (s : system) : Prop :=
  | good_adding pe se dn Q : adding pe se dn Q s → good s
  | good_waiting pe dn Q : waiting pe dn Q s → good s
  | good_fetching k j : fetching k j s → good s.

(** What is left to do: a command is at most one message to the transfer thread, a message at
    most one request for every piece of the plan. *)
Definition work (s : system) : nat :=
  length (todo s) * (length pieces + 2) + length (transferThread s) * (length pieces + 1) + sum_list (length <$> thWorkers s).

Lemma work_send reqs queues : (sum_list (length <$> send reqs queues) ≤ sum_list (length <$> queues) + length reqs)%nat.
Proof.
  unfold send. revert queues. induction reqs as [|r reqs IH]; intros queues; cbn [foldl]; [lia|]. etrans; [apply IH|]. cbn [length].
  assert (∀ i (x : compute_req) qs, sum_list (length <$> alter (λ q, q ++ [x]) i qs) ≤ sum_list (length <$> qs) + 1)%nat as H.
  { intros i x qs. revert i. induction qs as [|q qs IHq]; intros [|i]; cbn; [lia|lia|rewrite length_app; cbn; lia|]. specialize (IHq i). cbn in IHq. lia. }
  specialize (H (Z.to_nat r.1) r.2 queues). lia.
Qed.

Lemma work_pop i (req : compute_req) q (queues : list (list compute_req)) : queues !! i = Some (req :: q) → S (sum_list (length <$> <[i := q]> queues)) = sum_list (length <$> queues).
Proof.
  intros H. rewrite <- (take_drop_middle queues i (req :: q) H) at 2. rewrite (insert_take_drop queues i q) by (by eapply lookup_lt_Some).
  rewrite !fmap_app, !fmap_cons, !sum_list_with_app. cbn. lia.
Qed.

Lemma inv_main_transfer pe se dn Q s s' : inv pe se (submitted pe) dn Q s → transfer_step t s = Some s' →
  ∃ pe' Q', inv pe' se (submitted pe') dn Q' s' ∧ todo s' = todo s ∧ (work s' < work s)%nat.
Proof.
  intros Hi E. pose proof (iv_order _ _ _ _ _ _ _ _ _ _ _ Hi) as (Ho1 & _ & _). pose proof (iv_queue _ _ _ _ _ _ _ _ _ _ _ Hi) as Hq.
  destruct (decide (pe = se)) as [->|Hne].
  - rewrite Nat.sub_diag in Hq. unfold transfer_step in E. by rewrite Hq in E.
  - destruct (transfer_ok _ _ _ _ _ _ Hset pe se dn Q s Hi ltac:(lia)) as (s1 & Q' & reqs & E1 & Ht & Hw & Hl & Hlen & Hi'). rewrite E in E1. injection E1 as <-.
    exists (S pe), Q'. split; [done|]. split; [done|]. unfold work. rewrite Ht, Hw, Hlen. pose proof (work_send reqs (thWorkers s)). lia.
Qed.

Lemma inv_worker pe se dn Q s s' i : inv pe se (submitted pe) dn Q s → worker_step i s = Some s' →
  ∃ dn' Q', inv pe se (submitted pe) dn' Q' s' ∧ todo s' = todo s ∧ (work s' < work s)%nat.
Proof.
  intros Hi E. pose proof E as E0. unfold worker_step in E0. destruct (thWorkers s !! i) as [[|req q]|] eqn:Hq; [done| |done]. clear E0.
  destruct (worker_ok _ _ _ _ _ _ Hset pe se dn Q s i req q Hi Hq) as (s1 & dn' & Q' & E1 & Ht & Htr & Hw & Hi'). rewrite E in E1. injection E1 as <-.
  exists dn', Q'. split; [done|]. split; [done|]. unfold work. rewrite Ht, Htr, Hw. pose proof (work_pop i req q (thWorkers s) Hq). lia.
Qed.

(** The next input *)
Lemma next_given se : (se ≤ total)%nat →
  drop se given = [] ∧ se = total ∨ ∃ g, drop se given = g :: drop (S se) given ∧ (se < total)%nat ∧ g.1 = (input_at sent se).1 ∧ resolves t exps g.2 (input_at sent se).2.
Proof.
  intros Hse. pose proof (Forall2_length _ _ _ Hgiven) as Hl. destruct (drop se given) as [|g rest] eqn:Ed.
  - left. split; [done|]. apply (f_equal length) in Ed. rewrite length_drop in Ed. cbn in Ed. lia.
  - right. assert (given !! se = Some g) as Hg by (rewrite <- (Nat.add_0_r se), <- lookup_drop, Ed; done). destruct (Forall2_lookup_l _ _ _ _ _ Hgiven Hg) as (x & Hx & H1 & H2).
    exists g. assert (drop (S se) given = rest) as -> by (rewrite <- Nat.add_1_r, <- drop_drop, Ed; done). split; [done|]. split; [by eapply lookup_lt_Some|]. unfold input_at. by rewrite Hx.
Qed.

Lemma adding_step pe se dn Q s s' : adding pe se dn Q s → main_step t s = Some s' → good s' ∧ (work s' < work s)%nat.
Proof.
  intros [Hi Hse Htodo] E. destruct (next_given se Hse) as [[Ed ->]|(g & Ed & Hlt & Hg1 & Hg2)]; rewrite Ed in Htodo; cbn [fmap list_fmap app] in Htodo.
  - destruct (endInput_ok _ _ _ _ _ _ Hset pe _ dn Q s _ Hi Htodo) as (s1 & E1 & Ht & Hw & Hl & Hi'). rewrite E in E1. injection E1 as <-. split; [eapply good_waiting; by split|].
    unfold work. rewrite Ht, Hw, Htodo. cbn [length app]. pose proof (Nat.mul_le_mono_r _ _ (length pieces + 1) Hl). lia.
  - rewrite Hg1 in Htodo. assert (∃ a0, staging (cpu s) !! area_of (se / Nn)%nat = Some a0 ∧ isActive a0 = false) as (a0 & Ha0 & Hact).
    { destruct (area_lookup _ _ _ _ _ _ Hset _ _ _ _ _ _ Hi (se / Nn)%nat) as [a0 Ha0]. exists a0. split; [done|]. destruct (isActive a0) eqn:Ea; [|done]. exfalso. revert E.
      destruct (iv_position _ _ _ _ _ _ _ _ _ _ _ Hi) as [Hp _]. unfold main_step. rewrite Htodo.
      rewrite (add_resolved t D A W sent exps Hset se (cpu s) g.2 (iv_cpu _ _ _ _ _ _ _ _ _ _ _ Hi) (iv_memory _ _ _ _ _ _ _ _ _ _ _ Hi) Hg2).
      unfold addInput, _addInput. rewrite Hp, submitted_at by lia. rewrite Ha0. cbn [mbind option_bind]. by rewrite Ea. }
    destruct (add_ok _ _ _ _ _ _ Hset pe se _ dn Q s _ a0 g.2 Hi Hlt Htodo Hg2 Ha0 Hact) as (s1 & E1 & Ht & Hw & Hl & Hi'). rewrite E in E1. injection E1 as <-.
    split; [eapply good_adding; split; [done|done|by rewrite Ht]|]. unfold work. rewrite Ht, Hw, Hl, Htodo. cbn [length]. lia.
Qed.

Lemma good_step th s s' : good s → step t th s = Some s' → good s' ∧ (work s' < work s)%nat.
Proof.
  intros [pe se dn Q H|pe dn Q H|k j H] E.
  - destruct th as [| |i]; cbn [step] in E; [by eapply adding_step| |].
    + pose proof H as [Hi Hse Htodo]. destruct (inv_main_transfer pe se dn Q s s' Hi E) as (pe' & Q' & Hi' & Ht & Hlt). split; [|done]. eapply good_adding. split; [done|done|by rewrite Ht].
    + pose proof H as [Hi Hse Htodo]. destruct (inv_worker pe se dn Q s s' i Hi E) as (dn' & Q' & Hi' & Ht & Hlt). split; [|done]. eapply good_adding. split; [done|done|by rewrite Ht].
  - pose proof H as [Hi Htodo]. destruct th as [| |i]; cbn [step] in E.
    + destruct (await_ok pe dn Q s s' H E) as (Hf & Hw & Ht & Hl). split; [by eapply good_fetching|]. unfold work. rewrite Hw, Ht. lia.
    + destruct (inv_main_transfer pe messages dn Q s s' Hi E) as (pe' & Q' & Hi' & Ht & Hlt). split; [|done]. eapply good_waiting. split; [done|by rewrite Ht].
    + destruct (inv_worker pe messages dn Q s s' i Hi E) as (dn' & Q' & Hi' & Ht & Hlt). split; [|done]. eapply good_waiting. split; [done|by rewrite Ht].
  - pose proof H as [Hr [Hc1 Hc2] Htodo Hq Hw Hf Ho]. destruct th as [| |i]; cbn [step] in E.
    + destruct (decide (k < Z.to_nat O)%nat) as [Hk|Hk].
      * destruct (get_ok k j s H Hk) as (s1 & E1 & Hf' & Hw' & Hl & Ht). rewrite E in E1. injection E1 as <-. split; [by eapply good_fetching|]. unfold work. rewrite Hw', Hl, <- Ht. lia.
      * unfold main_step in E. rewrite Htodo in E. unfold gets in E. by replace (Z.to_nat O - k)%nat with 0%nat in E by lia.
    + destruct (decide (j < k)%nat) as [Hk|Hk].
      * destruct (future_ok k j s H Hk) as (s1 & E1 & Hf' & Hw' & Hl & Ht). rewrite E in E1. injection E1 as <-. split; [by eapply good_fetching|]. unfold work. rewrite Hw', Hl, <- Ht. lia.
      * unfold transfer_step in E. rewrite Hq in E. by replace (k - j)%nat with 0%nat in E by lia.
    + unfold worker_step in E. destruct (thWorkers s !! i) as [q|] eqn:Eq; [|done]. rewrite Forall_lookup in Hw. by rewrite (Hw i q Eq) in E.
Qed.

(** A state that is reached is finished, or a thread can take a step. *)
Lemma queues_dec (queues : list (list compute_req)) : Forall (λ q, q = []) queues ∨ ∃ i req q, queues !! i = Some (req :: q).
Proof.
  induction queues as [|[|req q] queues [IH|(i & req' & q' & IH)]]; [left; constructor|left; by constructor|right; by exists (S i), req', q'|right; by exists 0%nat, req, q..].
Qed.

Lemma inv_progress pe se dn Q s : inv pe se (submitted pe) dn Q s → (∃ th s', step t th s = Some s') ∨ transferThread s = [] ∧ Forall (λ q, q = []) (thWorkers s).
Proof.
  intros Hi. pose proof (iv_order _ _ _ _ _ _ _ _ _ _ _ Hi) as (Ho1 & _ & _). destruct (decide (pe < se)%nat) as [Hlt|Hge].
  - left. destruct (transfer_ok _ _ _ _ _ _ Hset pe se dn Q s Hi Hlt) as (s1 & Q' & reqs & E1 & _). by exists Transfer, s1.
  - destruct (queues_dec (thWorkers s)) as [Hw|(i & req & q & Hq)].
    + right. split; [|done]. rewrite (iv_queue _ _ _ _ _ _ _ _ _ _ _ Hi). by replace (se - pe)%nat with 0%nat by lia.
    + left. destruct (worker_ok _ _ _ _ _ _ Hset pe se dn Q s i req q Hi Hq) as (s1 & dn' & Q' & E1 & _). by exists (Worker i), s1.
Qed.

Lemma good_progress s : good s → finished s ∨ ∃ th s', step t th s = Some s'.
Proof.
  intros [pe se dn Q [Hi Hse Htodo]|pe dn Q [Hi Htodo]|k j H].
  - destruct (inv_progress pe se dn Q s Hi) as [|[Ht Hw]]; [by right|]. right. exists Main. cbn [step]. destruct (idle_complete pe se dn Q s Hi Ht Hw) as [-> Hall].
    destruct (next_given se Hse) as [[Ed ->]|(g & Ed & Hlt & Hg1 & Hg2)]; rewrite Ed in Htodo; cbn [fmap list_fmap app] in Htodo.
    + destruct (endInput_ok _ _ _ _ _ _ Hset total _ dn Q s _ Hi Htodo) as (s1 & E1 & _). by exists s1.
    + rewrite Hg1 in Htodo. destruct (area_lookup _ _ _ _ _ _ Hset _ _ _ _ _ _ Hi (se / Nn)%nat) as [a0 Ha0]. destruct (isActive a0) eqn:Ea.
      * exfalso. apply (iv_active _ _ _ _ _ _ _ _ _ _ _ Hi _ a0 Ha0) in Ea as (b & Hb & _ & Hc). apply Hc. by apply Hall.
      * destruct (add_ok _ _ _ _ _ _ Hset se se _ dn Q s _ a0 g.2 Hi Hlt Htodo Hg2 Ha0 Ea) as (s1 & E1 & _). by exists s1.
  - destruct (inv_progress pe messages dn Q s Hi) as [|[Ht Hw]]; [by right|]. right. exists Main. cbn [step]. destruct (idle_complete pe messages dn Q s Hi Ht Hw) as [-> Hall].
    unfold main_step. rewrite Htodo. destruct (existsb isActive (staging (cpu s))) eqn:Hact; [|by eexists]. exfalso. apply existsb_exists in Hact as (area & Hin & Ha). apply list_elem_of_In, list_elem_of_lookup in Hin as [a Hin].
    apply (iv_active _ _ _ _ _ _ _ _ _ _ _ Hi a area Hin) in Ha as (b & Hb & _ & Hc). apply Hc. by apply Hall.
  - pose proof H as [Hr [Hc1 Hc2] Htodo Hq Hw Hf Ho]. destruct (decide (j < k)%nat) as [Hj|Hj].
    + right. destruct (future_ok k j s H Hj) as (s1 & E1 & _). by exists Transfer, s1.
    + destruct (decide (k < Z.to_nat O)%nat) as [Hk|Hk].
      * right. destruct (get_ok k j s H Hk) as (s1 & E1 & _). by exists Main, s1.
      * left. split_and!; [|rewrite Hq; by replace (k - j)%nat with 0%nat by lia|done]. rewrite Htodo. unfold gets. by replace (Z.to_nat O - k)%nat with 0%nat by lia.
Qed.

Lemma good_finished s : good s → finished s → ready (cpu s) ∧ length (futures s) = Z.to_nat O ∧ ∀ o f, futures s !! o = Some f → right_future o f.
Proof.
  intros [pe se dn Q [Hi Hse Htodo]|pe dn Q [Hi Htodo]|k j H] (F1 & F2 & F3).
  - rewrite F1 in Htodo. by destruct (drop se given).
  - by rewrite F1 in Htodo.
  - destruct H as [Hr [Hc1 Hc2] Htodo Hq Hw [Hf1 Hf2] Ho]. split; [done|]. split; [|done]. rewrite Hf1.
    rewrite F1 in Htodo. unfold gets in Htodo. symmetry in Htodo. apply fmap_nil_inv, (f_equal length) in Htodo. rewrite length_seq in Htodo. cbn in Htodo.
    rewrite F2 in Hq. symmetry in Hq. apply fmap_nil_inv, (f_equal length) in Hq. rewrite length_seq in Hq. cbn in Hq. lia.
Qed.

(** The start *)
Lemma submitted_start : submitted 0 = 0%nat.
Proof. rewrite submitted_at by lia. apply Nat.Div0.div_0_l. Qed.

Lemma good_start c m : ready c → currentStagingArea c = d_first D → good (start c m (commands (2 * W) given (Z.to_nat O))).
Proof.
  intros [Hcpu Hmem Hpos Hin Hidle] Hfirst. pose proof submitted_start as E0. apply (good_adding _ 0 0 (λ _, 0%nat) (λ _, [])).
  split; [|lia|cbn [todo start]; unfold commands, gets; by rewrite drop_0, Nat.sub_0_r]. rewrite E0.
  split; cbn [start cpu memory transferThread thWorkers futures]; rewrite ?E0; try done.
  - apply (cpu_ok_setup D A W exps c); [done|done|by destruct Hcpu|]. by destruct Hcpu.
  - lia.
  - cbn. rewrite Hin, Hfirst, Nat.add_0_r. split; [|done]. symmetry. apply Nat.mod_small. lia.
  - rewrite length_replicate. split; [by destruct Hcpu as [[_ _ _ _ _ -> _] _ _ _ _ _ _]|]. intros i q Hq. by apply lookup_replicate in Hq as [-> _].
  - intros i b p Hq. by apply elem_of_nil in Hq.
  - intros e b He. lia.
  - intros a area Ha. change (staging (discardOutput c)) with (staging c) in Ha. rewrite (Hidle a area Ha). split; [done|]. intros (b & Hb & _). lia.
  - intros b area Hb. lia.
  - intros e area He. lia.
  - intros e He. lia.
  - intros p q o x _ Hd. lia.
Qed.

Lemma good_steps s s' : good s → steps t s s' → good s'.
Proof. intros Hg Hs. induction Hs as [|s s1 s2 (th & E) _ IH]; [done|]. apply IH. by destruct (good_step th s s1 Hg E). Qed.

Lemma good_terminates s : good s → sn (λ s s', ∃ th, step t th s = Some s') s.
Proof.
  remember (work s) as n eqn:E. revert s E. induction (lt_wf n) as [n _ IH]. intros s -> Hg. constructor. intros s' (th & Hst). destruct (good_step th s s' Hg Hst) as [Hg' Hlt]. by apply (IH (work s')).
Qed.
End Whole.
