(* ===== verification/BackendSetupSpec.v ===== *)
(** * BackendSetupSpec.v: the sizes and the memory of the backend

    [init] and the setters leave the fields well formed: the chunks cover the slice, the areas and
    the outputs are apart in memory.  A well-formed backend is ready for a run. *)

From S2P Require Import Prelude LinOp GF GfCoeff GfLookup GfChecksum GfPacked GfPackedSpec BackendCpu BackendWorkSpec BackendPlanSpec BackendThreads BackendStepSpec BackendSpec.

(** ** Sizes *)

Lemma alignToStride_blocks len : 0 ≤ len < 2 ^ 63 → alignToStride len = 8 * ((len + 7) / 8).
Proof.
  intros Hlen. unfold alignToStride. change (stride - 1) with 7. cbv zeta. assert (in_range 64 (len + 7)) as Hr by (split; [lia|]; apply Z.lt_trans with (2 ^ 63 + 7); [lia|reflexivity]). rewrite (wrap_small 64 _ Hr).
  replace (8 * ((len + 7) / 8)) with (Z.shiftl (Z.shiftr (len + 7) 3) 3) by (rewrite Z.shiftl_mul_pow2, Z.shiftr_div_pow2 by lia; change (2 ^ 3) with 8; lia).
  apply Z.bits_inj'. intros i Hi. rewrite Z.land_spec, (Z.shiftl_spec _ _ i) by lia. unfold wrap. destruct (Z.lt_ge_cases i 3).
  - rewrite (Z.testbit_neg_r (Z.shiftr _ _)) by lia. rewrite Z.mod_pow2_bits_low, Z.lnot_spec by lia. change 7 with (Z.ones 3). rewrite (Z.ones_spec_low 3) by lia. apply andb_false_r.
  - rewrite Z.shiftr_spec by lia. replace (i - 3 + 3) with i by lia. destruct (Z.lt_ge_cases i 64).
    + rewrite Z.mod_pow2_bits_low, Z.lnot_spec by lia. change 7 with (Z.ones 3) at 2. rewrite (Z.ones_spec_high 3) by lia. apply andb_true_r.
    + by rewrite (testbit_above 64 (len + 7)) by (done || lia).
Qed.

Lemma CEIL_DIV_bounds a b : 0 < b → 0 ≤ a → (CEIL_DIV a b - 1) * b < a ≤ CEIL_DIV a b * b ∨ a = 0 ∧ CEIL_DIV a b = 0.
Proof.
  intros Hb Ha. unfold CEIL_DIV. pose proof (Z.div_mod (a + b - 1) b ltac:(lia)). pose proof (Z.mod_pos_bound (a + b - 1) b Hb). destruct (decide (a = 0)) as [->|]; [right; split; [done|apply Z.div_small; lia]|left; nia].
Qed.

(** The chunks are whole blocks, and cover the slice. *)
Lemma calcChunkSize_ok aligned threads chunk : 0 < aligned < 2 ^ 62 → aligned mod 8 = 0 → 1 ≤ threads → 1 ≤ chunk →
  ∃ len chunks, calcChunkSize aligned threads chunk = (len, chunks) ∧ len mod 8 = 0 ∧ 8 ≤ len ≤ aligned ∧ (chunks - 1) * len < aligned ≤ chunks * len.
Proof.
  intros Ha Ha8 Ht Hc. unfold calcChunkSize. set (n := if _ <=? _ then _ else _). assert (1 ≤ n) as Hn.
  { unfold n. cbv zeta. destruct (_ <=? _); [destruct (Z.ltb_spec (ROUND_DIV aligned chunk) 1); lia|]. destruct (Z.ltb_spec (ROUND_DIV (CEIL_DIV aligned threads) chunk) 1); nia. }
  clearbody n. cbv zeta. change (2 ^ 62) with 4611686018427387904 in *. assert (1 ≤ CEIL_DIV aligned n ≤ aligned) as Hcd by (destruct (CEIL_DIV_bounds aligned n ltac:(lia) ltac:(lia)) as [H|[? _]]; [nia|lia]).
  rewrite alignToStride_blocks by (change (2 ^ 63) with 9223372036854775808; lia). set (len := 8 * _).
  assert (len mod 8 = 0) as Hl8 by (unfold len; rewrite Z.mul_comm; apply Z_mod_mult). assert (8 ≤ len ≤ aligned) as Hl by (unfold len; Z.div_mod_to_equations; lia).
  exists len, (CEIL_DIV aligned len). split_and!; [done|done|lia|lia|..]; destruct (CEIL_DIV_bounds aligned len ltac:(lia) ltac:(lia)) as [H|[? _]]; lia.
Qed.

(** ** Well-formed backends *)

Abbreviation area_bytes c := (inputBatchSize c * alignedSliceSize c).

Record well_formed (c : PAR2ProcCPU) : Prop := {
  wf_batch : 1 ≤ inputBatchSize c ≤ 65535 ∧ minInBatchSize c = inputBatchSize c;
  wf_outputs : 1 ≤ Z.of_nat (length (outputExponents c)) ≤ 65535;
  wf_threads : 1 ≤ numThreads c ≤ 1024;
  wf_size : 0 < currentSliceSize c ≤ sliceSize c ∧ sliceSize c < 2 ^ 34 ∧ currentSliceSize c mod 2 = 0;
  wf_aligned : alignedSliceSize c = alignToStride (sliceSize c) + stride ∧ alignedCurrentSliceSize c = alignToStride (currentSliceSize c) + stride;
  wf_chunk : chunkLen c mod 8 = 0 ∧ 8 ≤ chunkLen c ≤ alignedCurrentSliceSize c;
  wf_chunks : (numChunks c - 1) * chunkLen c < alignedCurrentSliceSize c ≤ numChunks c * chunkLen c;
  wf_mem : memProcessing c = Some (alloc_outputs c);
  wf_coeffs : ∀ a area, staging c !! a = Some area → length (procCoeffs area) = (length (outputExponents c) * Z.to_nat (inputBatchSize c))%nat;
  wf_src : (∀ a area, staging c !! a = Some area → src area = Some (Z.of_nat a * area_bytes c)) ∨ ∀ a area, staging c !! a = Some area → src area = None;
  wf_position : (currentStagingArea c < length (staging c))%nat ∧ currentStagingInputs c = 0;
  wf_idle : ∀ a area, staging c !! a = Some area → isActive area = false;
}.

(** The dimensions *)
Definition dims_for (c : PAR2ProcCPU) : dims :=
  {| d_N := inputBatchSize c; d_O := Z.of_nat (length (outputExponents c)); d_C := chunkLen c / 8; d_SL := alignedCurrentSliceSize c / 8 - 1; d_K := numChunks c; d_T := numThreads c;
     d_pO := alloc_outputs c / 2; d_pI := λ a, Z.of_nat a * area_bytes c / 2; d_slice := sliceSize c; d_aligned := alignedSliceSize c; d_first := currentStagingArea c |}.

(** The inputs and their coefficients: an output with exponent 0 is the sum of the inputs. *)
Definition inputs_ok (exps : list Z) (sent : list (array * list Z)) : Prop :=
  ∀ s, s ∈ sent → (length exps ≤ length s.2)%nat ∧ Forall (λ c, u16 c) s.2 ∧ ∀ o, exps !! o = Some 0 → s.2 !! o = Some 1.

Lemma aligned_blocks size : 0 < size < 2 ^ 34 → alignToStride size + stride = 8 * ((size + 7) / 8 + 1).
Proof. intros H. rewrite alignToStride_blocks by (change (2 ^ 34) with 17179869184 in *; change (2 ^ 63) with 9223372036854775808; lia). change stride with 8. lia. Qed.

Lemma dims_setting t c sent : exp_table (gf_exp t) → well_formed c → inputs_ok (outputExponents c) sent →
  setting t (dims_for c) (length (staging c)) (currentSliceSize c / 2) sent (outputExponents c).
Proof.
  intros Ht [[Hb1 Hb2] Ho Hth (Hs1 & Hs2 & Hs3) [Ha1 Ha2] [Hc1 Hc2] Hk Hm Hco Hsrc [Hp1 Hp2] Hid] Hin. rewrite aligned_blocks in Ha1, Ha2 by lia. change (2 ^ 34) with 17179869184 in *.
  assert (chunkLen c = 8 * (chunkLen c / 8)) as Ec by (Z.div_mod_to_equations; lia). set (C := chunkLen c / 8) in *.
  set (SL := (currentSliceSize c + 7) / 8) in *. set (SS := (sliceSize c + 7) / 8) in *. assert (SL ≤ SS) by (apply Z.div_le_mono; lia).
  assert (0 < SL) as HSL by (unfold SL; Z.div_mod_to_equations; lia). assert (SS < 4294967296) as HSS by (unfold SS; Z.div_mod_to_equations; lia).
  assert (∀ x, Z.of_nat x * (inputBatchSize c * (8 * (SS + 1))) / 2 = Z.of_nat x * (inputBatchSize c * (4 * (SS + 1)))) as E.
  { intros x. replace (Z.of_nat x * (inputBatchSize c * (8 * (SS + 1)))) with (Z.of_nat x * (inputBatchSize c * (4 * (SS + 1))) * 2) by lia. by rewrite Z.div_mul by lia. }
  split; cbn [dims_for d_N d_O d_C d_SL d_K d_T d_pO d_pI d_slice d_aligned d_first]; unfold alloc_outputs, before_outputs; rewrite ?Ha1, ?Ha2; try done.
  all: rewrite ?(Z.mul_comm 8 (SL + 1)), ?Z.div_mul by lia.
  - lia.
  - change (2 ^ 32) with 4294967296. lia.
  - unfold SL. Z.div_mod_to_equations. lia.
  - rewrite Ec, Ha2 in Hk. lia.
  - lia.
  - intros a _. rewrite E. lia.
  - intros a a' Hne HaA HaA'. rewrite !E. set (B := inputBatchSize c * (4 * (SS + 1))). assert (4 * (inputBatchSize c * (SL + 1 - 1 + 1)) ≤ B) by (unfold B; nia).
    destruct (Nat.lt_trichotomy a a') as [Hlt|[Heq|Hlt]]; [left|done|right]; nia.
  - intros a HaA. rewrite !E. set (B := inputBatchSize c * (4 * (SS + 1))). assert (4 * (inputBatchSize c * (SL + 1 - 1 + 1)) ≤ B) by (unfold B; nia). nia.
  - intros s Hs. destruct (Hin s Hs) as (H1 & H2 & _). rewrite Nat2Z.id. done.
  - split; [done|]. intros o s Hexp Hs. destruct (Hin s Hs) as (_ & _ & H3). by apply H3.
Qed.

Lemma area_even c a : well_formed c → 2 * (Z.of_nat a * area_bytes c / 2) = Z.of_nat a * area_bytes c.
Proof.
  intros [_ _ _ (Hs1 & Hs2 & Hs3) [Ha1 _] _ _ _ _ _ _ _]. rewrite aligned_blocks in Ha1 by lia. rewrite Ha1.
  replace (Z.of_nat a * (inputBatchSize c * (8 * ((sliceSize c + 7) / 8 + 1)))) with (Z.of_nat a * (inputBatchSize c * (4 * ((sliceSize c + 7) / 8 + 1))) * 2) by lia. rewrite Z.div_mul; lia.
Qed.

Lemma dims_ready c : well_formed c → ready (dims_for c) (length (staging c)) (currentSliceSize c / 2) (outputExponents c) c.
Proof.
  intros Hwf. pose proof (λ a, area_even c a Hwf) as E. destruct Hwf as [[Hb1 Hb2] Ho Hth (Hs1 & Hs2 & Hs3) [Ha1 Ha2] [Hc1 Hc2] Hk Hm Hco Hsrc [Hp1 Hp2] Hid].
  rewrite aligned_blocks in Ha1, Ha2 by lia.
  split; [|unfold memory_ok|done|done|done].
  - split; cbn [dims_for d_N d_O d_C d_SL d_K d_T d_pO d_pI d_slice d_aligned d_first]; try done.
    + split; cbn [dims_for d_N d_O d_C d_SL d_K d_T d_pO d_pI d_slice d_aligned d_first]; try done.
      * Z.div_mod_to_equations. lia.
      * rewrite Ha2, (Z.mul_comm 8), Z.div_mul by lia. lia.
      * rewrite Hm. f_equal. symmetry. apply E.
    + Z.div_mod_to_equations. lia.
    + intros a area Ha. rewrite Nat2Z.id. by apply (Hco a).
  - destruct Hsrc as [Hsrc|Hsrc]; [left|right; by split]. intros a area Ha. rewrite (Hsrc a area Ha). cbn [dims_for d_pI]. by rewrite E.
Qed.

(** A run leaves the backend well formed. *)
Lemma ready_well_formed c c' : well_formed c → ready (dims_for c) (length (staging c)) (currentSliceSize c / 2) (outputExponents c) c' → well_formed c'.
Proof.
  intros Hwf Hr. pose proof (λ a, area_even c a Hwf) as Hev. destruct (dims_ready c Hwf) as [[[F1 F2 F3 F4 F5 F6 F7] F8 F9 F10 F11 [F12 F13] F14] _ _ _ _].
  destruct Hr as [[[E1 E2 E3 E4 E5 E6 E7] E8 E9 E10 E11 [E12 E13] E14] Hmem Hpos Hin Hidle].
  destruct Hwf as [[Hb1 Hb2] Ho Hth (Hs1 & Hs2 & Hs3) [Ha1 Ha2] [Hc1 Hc2] Hk Hm Hco Hsrc [Hp1 Hp2] Hid].
  rewrite <- F1 in E1. rewrite <- F3 in E3. rewrite <- F4 in E4. rewrite <- F5 in E5. rewrite <- F6 in E6. rewrite <- F7 in E7. rewrite <- F10 in E10. rewrite <- F11 in E11. rewrite <- F12 in E12. rewrite <- F13 in E13.
  split; rewrite ?E1, ?E3, ?E4, ?E5, ?E6, ?E9, ?E12, ?E13; try done.
  - by rewrite E10.
  - by rewrite E11.
  - by rewrite E11.
  - rewrite E7, Hm. unfold alloc_outputs. by rewrite E1, E8, E13.
  - intros a area Ha. rewrite (E14 a area Ha). cbn [dims_for d_O d_N]. by rewrite Nat2Z.id.
  - destruct Hmem as [Hmem|[_ Hmem]]; [left|by right]. intros a area Ha. rewrite (Hmem a area Ha). cbn [dims_for d_pI]. by rewrite Hev.
  - by rewrite E8.
Qed.

(** ** Initialisation *)

Lemma setCurrentSliceSize_fields size c : 0 < size < 2 ^ 34 → 1 ≤ chunkLen c → 1 ≤ numThreads c → size ≤ sliceSize c →
  ∃ len chunks, setCurrentSliceSize size c = set_current size (alignToStride size + stride) len chunks c ∧ len mod 8 = 0 ∧ 8 ≤ len ≤ alignToStride size + stride ∧
    (chunks - 1) * len < alignToStride size + stride ≤ chunks * len.
Proof.
  intros Hs Hc Ht Hle. unfold setCurrentSliceSize. cbv zeta. rewrite (proj2 (Z.ltb_ge (sliceSize c) size)) by lia. rewrite aligned_blocks by lia. change (2 ^ 34) with 17179869184 in *.
  destruct (calcChunkSize_ok (8 * ((size + 7) / 8 + 1)) (numThreads c) (chunkLen c)) as (len & chunks & -> & H); [change (2 ^ 62) with 4611686018427387904; Z.div_mod_to_equations; lia|rewrite Z.mul_comm; apply Z_mod_mult|done|done|].
  by exists len, chunks.
Qed.

Lemma even_aligned size : 0 < size < 2 ^ 34 → size ≤ alignToStride size + stride.
Proof. intros H. rewrite aligned_blocks by done. Z.div_mod_to_equations. lia. Qed.

Lemma init_batch g : 0 ≤ g ≤ 65535 → let b := if g =? 0 then (let b := 12 + idealInputMultiple / 2 in let b := b - b mod idealInputMultiple in if b <? idealInputMultiple then idealInputMultiple else b) else g in 1 ≤ b ≤ 65535.
Proof. intros H. cbv zeta. destruct (Z.eqb_spec g 0); [change (1 ≤ 12 ≤ 65535); lia|lia]. Qed.

Lemma init_ok slice threads grouping areas R exps : 0 < slice < 2 ^ 34 → slice mod 2 = 0 → 1 ≤ threads ≤ 1024 → 0 ≤ grouping ≤ 65535 → (0 < areas)%nat →
  1 ≤ Z.of_nat R ≤ 65535 → (∀ l, exps = Some l → R ≤ length l)%nat →
  let c := setRecoverySlices R exps (init slice threads grouping areas) in
  well_formed c ∧ outputExponents c = (match exps with Some l => take R l | None => replicate R 1 end) ∧ currentSliceSize c = slice.
Proof.
  intros Hs He Ht Hg Ha HR Hl. pose proof (init_batch grouping Hg) as Hb. cbv zeta in Hb. unfold init. set (b := if grouping =? 0 then _ else _) in *. set (c0 := {| sliceSize := slice |}).
  destruct (setCurrentSliceSize_fields slice (reallocMemInput c0)) as (len & chunks & E & H8 & Hlen & Hch); [done|by vm_compute|cbn; lia|cbn; lia|].
  cbv zeta in *. rewrite E. set (c1 := set_current _ _ _ _ _). set (c := setRecoverySlices R exps c1).
  assert (outputExponents c = (match exps with Some l => take R l | None => replicate R 1 end)) as Ee by done.
  assert (length (outputExponents c) = R) as Elen by (rewrite Ee; destruct exps as [l|]; [rewrite length_take; specialize (Hl l eq_refl); lia|by rewrite length_replicate]).
  destruct R as [|R]; [lia|].
  assert (∀ a area, staging c !! a = Some area → src area = Some (Z.of_nat a * (b * (alignToStride slice + stride))) ∧ isActive area = false ∧ length (procCoeffs area) = (S R * Z.to_nat b)%nat) as Hst.
  { intros a area. unfold c, c1. cbn [staging setRecoverySlices set_current]. rewrite list_lookup_fmap. unfold reallocMemInput. cbn [staging set_staging]. rewrite list_lookup_imap. cbn [staging c0].
    destruct (replicate areas _ !! a) as [area0|] eqn:E0; [|done]. apply lookup_replicate in E0 as [-> _]. intros [= <-]. cbn [src set_src set_procCoeffs isActive procCoeffs inputBatchSize alignedSliceSize c0].
    split_and!; [done|done|]. unfold resize. rewrite length_app, length_take, length_replicate. cbn [length]. unfold set_current, set_staging. cbn [inputBatchSize c0]. lia. }
  split; [|done]. split; rewrite ?Elen; try done.
  - cbn. lia.
  - unfold c. cbn [memProcessing setRecoverySlices]. change (memProcessing c1) with (@None Z). cbv iota. f_equal. unfold alloc_outputs. cbn [staging inputBatchSize alignedSliceSize setRecoverySlices]. by rewrite length_fmap.
  - intros a area Ha'. by destruct (Hst a area Ha') as (_ & _ & ->).
  - left. intros a area Ha'. by destruct (Hst a area Ha') as (-> & _).
  - split; [|done]. change (currentStagingArea c) with 0%nat. unfold c, c1. cbn [staging setRecoverySlices set_current]. unfold reallocMemInput. cbn [staging set_staging c0].
    by rewrite length_fmap, length_imap, length_replicate.
  - intros a area Ha'. by destruct (Hst a area Ha') as (_ & -> & _).
Qed.

(** A new size that is larger: the memory is given out again. *)
Definition grow (size : Z) (c : PAR2ProcCPU) : PAR2ProcCPU :=
  let c := reallocMemInput (set_slice size (alignToStride size + stride) (memProcessing c) c) in
  set_slice size (alignToStride size + stride) (Some (alloc_outputs c)) c.

Lemma setCurrentSliceSize_grow size c : well_formed c → sliceSize c < size → setCurrentSliceSize size c = setCurrentSliceSize size (grow size c).
Proof.
  intros [_ Ho _ _ _ _ _ Hm _ _ _ _] Hlt. unfold setCurrentSliceSize at 1. cbv zeta. rewrite (proj2 (Z.ltb_lt _ _) Hlt).
  change (memProcessing (reallocMemInput (set_slice size (alignToStride size + stride) (memProcessing c) c))) with (memProcessing c). rewrite Hm.
  change (outputExponents (reallocMemInput (set_slice size (alignToStride size + stride) (Some (alloc_outputs c)) c))) with (outputExponents c).
  unfold setCurrentSliceSize. cbv zeta. change (sliceSize (grow size c)) with size. rewrite Z.ltb_irrefl. unfold grow. cbv zeta. rewrite Hm. destruct (outputExponents c) as [|x l] eqn:E; [cbn in Ho; lia|]. done.
Qed.

Lemma set_current_well_formed size len chunks c : well_formed c → 0 < size ≤ sliceSize c → size mod 2 = 0 → len mod 8 = 0 → 8 ≤ len ≤ alignToStride size + stride →
  (chunks - 1) * len < alignToStride size + stride ≤ chunks * len → well_formed (set_current size (alignToStride size + stride) len chunks c).
Proof.
  intros [Hb Ho Hth (Hs1 & Hs2 & Hs3) [Ha1 Ha2] Hc Hk Hm Hco Hsrc Hp Hid] Hs He H8 Hl Hch. split; done.
Qed.

Lemma grow_well_formed size c : well_formed c → sliceSize c < size < 2 ^ 34 → well_formed (grow size c).
Proof.
  intros [Hb Ho Hth (Hs1 & Hs2 & Hs3) [Ha1 Ha2] Hc Hk Hm Hco Hsrc Hp Hid] Hs.
  assert (∀ a area, staging (grow size c) !! a = Some area → ∃ area0, staging c !! a = Some area0 ∧ area = set_src (Some (Z.of_nat a * area_bytes (grow size c))) area0) as Hst.
  { intros a area. unfold grow, reallocMemInput. cbn [staging set_slice set_staging]. rewrite list_lookup_imap. destruct (staging c !! a) as [area0|]; [|done]. intros [= <-]. by exists area0. }
  split; try done.
  - split; [change (currentSliceSize (grow size c)) with (currentSliceSize c); change (sliceSize (grow size c)) with size; lia|]. split; [|done]. change (sliceSize (grow size c)) with size. lia.
  - intros a area Ha. destruct (Hst a area Ha) as (area0 & H0 & ->). exact (Hco a area0 H0).
  - left. intros a area Ha. by destruct (Hst a area Ha) as (area0 & _ & ->).
  - destruct Hp as [Hp1 Hp2]. split; [|done]. unfold grow, reallocMemInput. cbn [currentStagingArea staging set_slice set_staging]. by rewrite length_imap.
  - intros a area Ha. destruct (Hst a area Ha) as (area0 & H0 & ->). exact (Hid a area0 H0).
Qed.

Lemma setCurrentSliceSize_ok size c : well_formed c → 0 < size < 2 ^ 34 → size mod 2 = 0 →
  well_formed (setCurrentSliceSize size c) ∧ outputExponents (setCurrentSliceSize size c) = outputExponents c ∧ currentSliceSize (setCurrentSliceSize size c) = size.
Proof.
  assert (∀ c, well_formed c → 0 < size ≤ sliceSize c → size < 2 ^ 34 → size mod 2 = 0 →
    well_formed (setCurrentSliceSize size c) ∧ outputExponents (setCurrentSliceSize size c) = outputExponents c ∧ currentSliceSize (setCurrentSliceSize size c) = size) as Hle.
  { clear c. intros c Hwf Hs H34 He. pose proof (wf_chunk c Hwf). pose proof (wf_threads c Hwf). destruct (setCurrentSliceSize_fields size c) as (len & chunks & -> & H8 & Hlen & Hch); [lia..|].
    split; [by apply set_current_well_formed|done]. }
  intros Hwf Hs He. destruct (Z.lt_ge_cases (sliceSize c) size) as [Hlt|Hge]; [|apply Hle; (done || lia)].
  rewrite setCurrentSliceSize_grow by done. change (outputExponents c) with (outputExponents (grow size c)).
  apply Hle; [apply grow_well_formed; [done|lia]|change (sliceSize (grow size c)) with size; lia|lia|done].
Qed.

(** ** Requests *)

(** The chunks and outputs of a request, as its fields give them *)
Definition req_covers (c : PAR2ProcCPU) (areaSrc : Z) (req : compute_req) (chunk out : Z) : Prop :=
  outNonZero req ≤ out < outNonZero req + numOutputs req ∧ ∃ q0, input req = areaSrc + q0 * chunkLen c * inputBatchSize c ∧ q0 ≤ chunk < q0 + req_numChunks req.

Lemma piece_covers c D a n keep p q o : well_formed c → dims_of D c → req_covers c (2 * d_pI D a) (piece_request D a n keep p) q o ↔ piece_tiles p q o.
Proof.
  intros Hwf [EN EO EC EA EK ET EM]. pose proof (wf_batch c Hwf) as [HB _]. pose proof (wf_chunk c Hwf) as [_ HC]. unfold req_covers, piece_tiles, request_tiles. cbn [outNonZero numOutputs input req_numChunks piece_request request].
  rewrite <- EN, <- EC. split.
  - intros (Ho & q0 & E & Hq). split; [|done]. assert (pc_q0 p * (chunkLen c * inputBatchSize c) = q0 * (chunkLen c * inputBatchSize c)) as E'%Z.mul_cancel_r by nia; [by subst q0|nia].
  - intros [Hq Ho]. split; [done|]. exists (pc_q0 p). split; [lia|done].
Qed.

Lemma area_source c a area p : well_formed c → staging c !! a = Some area → src area = Some p → p = 2 * d_pI (dims_for c) a.
Proof. intros Hwf Ha Hp. cbn [dims_for d_pI]. rewrite area_even by done. destruct (wf_src c Hwf) as [H|H]; specialize (H a area Ha); congruence. Qed.

Lemma requests_ok c a area p n : well_formed c → staging c !! a = Some area → src area = Some p → u16 n →
  ∃ c' reqs, run_kernel c a n = Some (c', reqs) ∧ procRefs <$> staging c' !! a = Some (Z.of_nat (length reqs)) ∧
    (∀ i th req, reqs !! i = Some (th, req) → 0 ≤ th < numThreads c) ∧
    ∀ q o, 0 ≤ q < numChunks c → 0 ≤ o < Z.of_nat (length (outputExponents c)) → ∃ i th req, reqs !! i = Some (th, req) ∧ req_covers c p req q o ∧
      ∀ i' th' req', reqs !! i' = Some (th', req') → req_covers c p req' q o → i' = i.
Proof.
  intros Hwf Ha Hp Hn. pose proof (area_source c a area p Hwf Ha Hp) as ->. pose proof (wf_outputs c Hwf) as HO. pose proof (wf_threads c Hwf) as HT. pose proof (wf_chunks c Hwf) as HK. pose proof (wf_chunk c Hwf) as [_ HC].
  assert (1 ≤ numChunks c) as HK1 by nia. pose proof (dims_ready c Hwf) as [[Hd] _ _ _ _]. set (D := dims_for c) in *. change (Z.of_nat (length (outputExponents c))) with (d_O D) in *. change (numThreads c) with (d_T D) in *. change (numChunks c) with (d_K D) in *.
  assert (∀ i th req, ((λ pc, (pc_thread pc, piece_request D a n (processingAdd c) pc)) <$> D_plan D) !! i = Some (th, req) → ∃ pc, D_plan D !! i = Some pc ∧ th = pc_thread pc ∧ req = piece_request D a n (processingAdd c) pc) as Hl.
  { intros i th req. rewrite list_lookup_fmap. destruct (D_plan D !! i) as [pc|]; [|done]. intros [= <- <-]. by exists pc. }
  rewrite (run_kernel_ok D c a n (processingAdd c) Hd HO HT HK1 Hn area Ha Hp eq_refl). eexists _, _. split; [reflexivity|]. split_and!.
  - unfold set_area. cbn [staging set_staging]. rewrite list_lookup_alter_eq. change (staging (set_processingAdd true c)) with (staging c). rewrite Ha, length_fmap. done.
  - intros i th req Hi. destruct (Hl i th req Hi) as (pc & Hpc & -> & _). apply (plan_good (d_O D) (d_K D) (d_T D) HO HT HK1 pc). by eapply list_elem_of_lookup_2.
  - intros q o Hq Ho. destruct (plan_covers (d_O D) (d_K D) (d_T D) HO HT HK1 q o Hq Ho) as (pc & Hpc & Ht). apply list_elem_of_lookup_1 in Hpc as [i Hi]. fold (D_plan D) in Hi.
    exists i, (pc_thread pc), (piece_request D a n (processingAdd c) pc). split; [by rewrite list_lookup_fmap, Hi|]. split; [by apply piece_covers|].
    intros i' th' req' Hi' Hc'. destruct (Hl i' th' req' Hi') as (pc' & Hpc' & _ & ->). apply piece_covers in Hc'; [|done..].
    assert (pc' = pc) as -> by (eapply (plan_apart (d_O D) (d_K D) (d_T D)); try done; by eapply list_elem_of_lookup_2). by eapply NoDup_lookup; [apply (plan_nodup (d_O D) (d_K D) (d_T D))|..].
Qed.

(** C8: [run_kernel] cuts the work of a batch into requests without gap or overlap: whatever the numbers of chunks, outputs and threads and the
    rounding of the [float]s, every output of every chunk is in exactly one request, requests go to threads that exist, and the area
    waits for as many requests as there are. *)
Theorem requests_partition c a area p n : well_formed c → staging c !! a = Some area → src area = Some p → u16 n →
  ∃ c' reqs, run_kernel c a n = Some (c', reqs) ∧ procRefs <$> staging c' !! a = Some (Z.of_nat (length reqs)) ∧
    (∀ i th req, reqs !! i = Some (th, req) → 0 ≤ th < numThreads c) ∧
    ∀ q o, 0 ≤ q < numChunks c → 0 ≤ o < Z.of_nat (length (outputExponents c)) → ∃ i th req, reqs !! i = Some (th, req) ∧ req_covers c p req q o ∧
      ∀ i' th' req', reqs !! i' = Some (th', req') → req_covers c p req' q o → i' = i.
Proof. apply requests_ok. Qed.

Lemma requests_partition_witness : let c := setRecoverySlices 3 (Some [0; 1; 2]) (init 65536 2 0 2) in
  ∃ c' reqs i th req, run_kernel c 1 5 = Some (c', reqs) ∧ reqs !! i = Some (th, req) ∧ 0 ≤ th < 2 ∧ req_covers c 786528 req 0 2.
Proof.
  intros c. destruct (init_ok 65536 2 0 2 3 (Some [0; 1; 2])) as (Hwf & _ & _); [by vm_compute|done|lia|lia|lia|lia|by intros l [= <-]|].
  destruct (requests_partition c 1 {| src := Some 786528; procCoeffs := replicate 36 0; procRefs := 0; isActive := false |} 786528 5 Hwf) as (c' & reqs & H1 & _ & H2 & H3); [vm_compute; reflexivity|done|done|].
  destruct (H3 0 2) as (i & th & req & Hi & Hc & _); [vm_compute; split; congruence|vm_compute; split; congruence|].
  exists c', reqs, i, th, req. split; [exact H1|]. split; [exact Hi|]. split; [exact (H2 _ _ _ Hi)|exact Hc].
Defined.
