(* ===== verification/BackendInstance.v ===== *)
(** * BackendInstance.v: the backend of the repairer

    The theorems about every run of the backend from a well-formed state, a scheduler that runs
    the threads in any order, and the instance of the interface that the repairer uses. *)

From stdpp Require Import relations.
From S2P Require Import Prelude LinOp GF GfCoeff GfLookup GfChecksum GfPacked GfPackedSpec BackendCpu BackendWorkSpec BackendPlanSpec BackendThreads BackendStepSpec BackendSpec BackendSetupSpec RepairProcess RepairProcessSpec.

(** ** Every run *)

(** The outputs of a run, with their checksums *)
Definition right_futures (size : Z) (sent : list (array * list Z)) (outputs : nat) (fs : list (Z * bool * array)) : Prop :=
  length fs = outputs ∧ ∀ o f, fs !! o = Some f → f.1 = (Z.of_nat o, true) ∧ ∀ w, 0 ≤ w < size / 2 → word f.2 w = xsum (λ s, mul16 (nth o s.2 0) (word s.1 w)) sent.

Section Runs.
Context (t : gfmat_tables) (c : PAR2ProcCPU) (sent : list (array * list Z)) (m : array).
Hypothesis Ht : exp_table (gf_exp t).
Hypothesis Hc : well_formed c.
Hypothesis Hin : inputs_ok (outputExponents c) sent.
Hypothesis Hne : sent ≠ [].
Context (given : list (array * (Z + list Z))).
Hypothesis Hgiven : Forall2 (λ g x, g.1 = x.1 ∧ resolves t (outputExponents c) g.2 x.2) given sent.

Definition begin : system := start c m (commands (currentSliceSize c) given (length (outputExponents c))).
Abbreviation D := (dims_for c).
Abbreviation good := (good D (length (staging c)) (currentSliceSize c / 2) sent (outputExponents c) given).

Lemma good_begin : good begin.
Proof.
  pose proof (dims_ready c Hc) as Hr. pose proof (good_start D _ _ sent _ given c m Hr eq_refl) as Hg.
  cbn [dims_for d_O] in Hg. rewrite Nat2Z.id in Hg. destruct (wf_size c Hc) as (_ & _ & He). unfold begin. replace (2 * (currentSliceSize c / 2)) with (currentSliceSize c) in Hg by (Z.div_mod_to_equations; lia). exact Hg.
Qed.

Lemma run_outputs s : steps t begin s → finished s →
  (well_formed (cpu s) ∧ outputExponents (cpu s) = outputExponents c) ∧ right_futures (currentSliceSize c) sent (length (outputExponents c)) (futures s).
Proof.
  intros Hs Hf. pose proof (dims_setting t c sent Ht Hc Hin) as Hset. pose proof (good_steps t D _ _ sent _ Hset Hne given Hgiven _ _ good_begin Hs) as Hg.
  destruct (good_finished D _ _ sent _ given s Hg Hf) as (Hr & Hl & Hfut). split; [split; [by apply (ready_well_formed c)|by apply (ck_exps _ _ _ _ _ (rd_cpu _ _ _ _ _ Hr))]|]. split; [rewrite Hl; cbn; lia|exact Hfut].
Qed.

Lemma run_progress s : steps t begin s → finished s ∨ ∃ th s', step t th s = Some s'.
Proof.
  intros Hs. pose proof (dims_setting t c sent Ht Hc Hin) as Hset. pose proof (good_steps t D _ _ sent _ Hset Hne given Hgiven _ _ good_begin Hs) as Hg. by apply (good_progress t D _ _ sent _ Hset given Hgiven).
Qed.

Lemma run_terminates : sn (λ s s', ∃ th, step t th s = Some s') begin.
Proof. pose proof (dims_setting t c sent Ht Hc Hin) as Hset. apply (good_terminates t D _ _ sent _ Hset Hne given Hgiven), good_begin. Qed.
End Runs.

(** ** A scheduler *)

Section Scheduler.
Context (t : gfmat_tables) (oracle : nat → nat).

(** The first thread of a list that can take a step takes it. *)
Fixpoint first_step (ths : list thread) (s : system) : option system :=
  match ths with
  | [] => None
  | th :: ths => match step t th s with Some s' => Some s' | None => first_step ths s end
  end.

Definition threads (s : system) : list thread := Main :: Transfer :: (Worker <$> seq 0 (length (thWorkers s))).
Definition rotate (n : nat) (l : list thread) : list thread := drop n l ++ take n l.

(** The threads run in the order that the oracle chooses, until none can take a step. *)
Fixpoint run (fuel : nat) (s : system) : option system :=
  match first_step (rotate (oracle fuel) (threads s)) s with
  | None => Some s
  | Some s' => match fuel with O => None | S fuel => run fuel s' end
  end.

Lemma first_step_some ths s s' : first_step ths s = Some s' → ∃ th, step t th s = Some s'.
Proof. induction ths as [|th ths IH]; cbn [first_step]; [done|]. destruct (step t th s) as [s1|] eqn:E; [|done]. intros [= <-]. by exists th. Qed.

Lemma first_step_none ths s : first_step ths s = None → ∀ th, th ∈ ths → step t th s = None.
Proof.
  induction ths as [|th ths IH]; cbn [first_step]; [by intros _ th ?%elem_of_nil|]. destruct (step t th s) as [s1|] eqn:E; [done|]. intros Hn th' [->|Hin]%elem_of_cons; [done|by apply IH].
Qed.

Lemma threads_all s th s' : step t th s = Some s' → th ∈ threads s.
Proof.
  intros E. unfold threads. destruct th as [| |i]; [left|right; left|]. right. right. apply list_elem_of_fmap. exists i. split; [done|]. apply elem_of_seq. cbn [step] in E. unfold worker_step in E.
  destruct (thWorkers s !! i) as [q|] eqn:Eq; [|done]. apply lookup_lt_Some in Eq. lia.
Qed.

Lemma rotate_elem n l th : th ∈ l → th ∈ rotate n l.
Proof. intros H. rewrite <- (take_drop n l) in H. unfold rotate. rewrite elem_of_app in *. tauto. Qed.

(** Enough fuel runs to the end. *)
Lemma run_ok (D : dims) A W sent exps given fuel s : setting t D A W sent exps → sent ≠ [] → Forall2 (λ g x, g.1 = x.1 ∧ resolves t exps g.2 x.2) given sent → good D A W sent exps given s → (work D s ≤ fuel)%nat → ∃ s', run fuel s = Some s' ∧ steps t s s' ∧ finished s'.
Proof.
  intros Hset Hne Hgiven. revert s. induction fuel as [|fuel IH]; intros s Hg Hf; cbn [run]; destruct (first_step _ s) as [s1|] eqn:E.
  - apply first_step_some in E as (th & E). destruct (good_step t D A W sent exps Hset Hne given Hgiven th s s1 Hg E). lia.
  - exists s. split; [done|]. split; [apply rtc_refl|]. destruct (good_progress t D A W sent exps Hset given Hgiven s Hg) as [|(th & s' & E')]; [done|]. pose proof (first_step_none _ _ E th (rotate_elem _ _ _ (threads_all _ _ _ E'))). congruence.
  - apply first_step_some in E as (th & E). destruct (good_step t D A W sent exps Hset Hne given Hgiven th s s1 Hg E) as [Hg' Hlt]. destruct (IH s1 Hg' ltac:(lia)) as (s' & Er & Hs & Hfin).
    exists s'. split; [done|]. split; [|done]. eapply rtc_l; [by exists th|done].
  - exists s. split; [done|]. split; [apply rtc_refl|]. destruct (good_progress t D A W sent exps Hset given Hgiven s Hg) as [|(th & s' & E')]; [done|]. pose proof (first_step_none _ _ E th (rotate_elem _ _ _ (threads_all _ _ _ E'))). congruence.
Qed.
End Scheduler.

(** The plan has at most two requests for a thread. *)
Lemma plan_length O K T : 1 ≤ O ≤ 65535 → 1 ≤ T ≤ 1024 → 1 ≤ K → Z.of_nat (length (plan O K T)) ≤ 2 * T.
Proof.
  intros HO HT HK. destruct (chunk_numbers K T HT HK) as (Hl & Hf & E). unfold plan. rewrite length_app, Nat2Z.inj_add.
  assert (Z.of_nat (length (left_pieces O K T (left_chunks K T))) ≤ T) as H1.
  { destruct (decide (left_chunks K T = 0)) as [E0|Hne]; [rewrite E0; unfold left_pieces; rewrite (seqZ_nil 0 0) by lia; cbn; lia|]. destruct (threads_bound O K T HO HT HK ltac:(lia)) as (HP & HPO & HPT). rewrite length_left_pieces by lia. lia. }
  destruct (full_chunks K T =? 0); [cbn; lia|]. rewrite length_fmap, length_seqZ. lia.
Qed.

(** Enough fuel for any order *)
Definition enough (s : system) : nat := length (todo s) * (2 * Z.to_nat (numThreads (cpu s)) + 2).

Lemma begin_enough c given m : well_formed c → (work (dims_for c) (begin c m given) ≤ enough (begin c m given))%nat.
Proof.
  intros Hc. pose proof (wf_outputs c Hc) as HO. pose proof (wf_threads c Hc) as HT. pose proof (wf_chunks c Hc) as HK. pose proof (wf_chunk c Hc) as [_ HC].
  assert (1 ≤ numChunks c) as HK1 by nia. pose proof (plan_length _ _ _ HO HT HK1) as Hp. unfold work, enough, begin, start. cbn [todo transferThread thWorkers cpu].
  change (numThreads (discardOutput c)) with (numThreads c). change (D_plan (dims_for c)) with (plan (Z.of_nat (length (outputExponents c))) (numChunks c) (numThreads c)).
  assert (∀ n, sum_list (length <$> replicate n (@nil compute_req)) = 0%nat) as -> by (intros n; induction n; cbn; done). cbn [length]. set (l := length (plan _ _ _)) in *. nia.
Qed.

(** ** The interface of the repairer *)

(** A buffer of the caller *)
Definition buffer_of (l : list Z) : array := list_to_map (zip (seqZ 0 (Z.of_nat (length l))) l).

Lemma buffer_lookup l i : buffer_of l !! Z.of_nat i = l !! i.
Proof.
  unfold buffer_of. destruct (l !! i) as [x|] eqn:E.
  - apply elem_of_list_to_map_1.
    + rewrite fst_zip by (rewrite length_seqZ; lia). apply NoDup_seqZ.
    + apply list_elem_of_lookup. exists i. apply lookup_zip_with_Some. exists (Z.of_nat i), x. split; [done|]. split; [|done]. apply lookup_lt_Some in E. apply lookup_seqZ. lia.
  - apply not_elem_of_list_to_map_1. rewrite fst_zip by (rewrite length_seqZ; lia). intros H%elem_of_seqZ. apply lookup_ge_None in E. lia.
Qed.

Lemma buffer_byte l i : Forall (in_range 8) l → byte (buffer_of l) (Z.of_nat i) = nth i l 0.
Proof.
  intros Hl. unfold byte. rewrite buffer_lookup, nth_lookup. destruct (l !! i) as [x|] eqn:E; [|done]. rewrite Forall_lookup in Hl. apply wrap_small. by eapply Hl.
Qed.

Lemma buffer_word l w : Forall (in_range 8) l → word (buffer_of l) (Z.of_nat w) = word_at l w.
Proof.
  intros Hl. unfold word, word_at. replace (2 * Z.of_nat w) with (Z.of_nat (2 * w)) by lia. replace (Z.of_nat (2 * w) + 1) with (Z.of_nat (2 * w + 1)) by lia. by rewrite !buffer_byte.
Qed.

Definition bytes_of (m : array) (n : nat) : list Z := (λ i, byte m (Z.of_nat i)) <$> seq 0 n.

Lemma bytes_of_ok m n : length (bytes_of m (2 * n)) = (2 * n)%nat ∧ Forall (in_range 8) (bytes_of m (2 * n)) ∧ ∀ w, (w < n)%nat → word_at (bytes_of m (2 * n)) w = word m (Z.of_nat w).
Proof.
  unfold bytes_of. split; [by rewrite length_fmap, length_seq|]. split; [apply Forall_fmap, Forall_true; intros i; apply byte_range|]. intros w Hw. unfold word_at, word.
  rewrite !nth_lookup, !list_lookup_fmap, !lookup_seq_lt by lia. cbn [fmap option_fmap option_map default from_option id Nat.add]. f_equal; [f_equal; lia|do 2 f_equal; lia].
Qed.

Section Instance.
Context (t : gfmat_tables) (numthreads grouping : Z) (areas : nat) (oracle : nat → nat).

(** One chunk: [init] with the size of the buffers, [setRecoverySlices] with the number of outputs,
    and a run, for which the oracle chooses the order. *)
Definition cpu_backend : Backend := {|
  getOutput sent k :=
    first ← head sent;
    let size := length first.1 in
    let outputs := length first.2 in
    let c := setRecoverySlices outputs None (init (Z.of_nat size) numthreads grouping areas) in
    let s := start c ∅ (commands (Z.of_nat size) ((λ x, (buffer_of x.1, inr x.2)) <$> sent) outputs) in
    s ← run t oracle (enough s) s;
    '(_, ok, out) ← futures s !! k;
    if ok : bool then Some (bytes_of out size) else None
|}.

Hypothesis Ht : exp_table (gf_exp t).
Hypothesis Hthreads : 1 ≤ numthreads ≤ 1024.
Hypothesis Hgrouping : 0 ≤ grouping ≤ 65535.
Hypothesis Hareas : (0 < areas)%nat.

Lemma cpu_backend_laws : @BackendLaws cpu_backend.
Proof.
  intros sent k n r Hne Hn Hn32 Hk Hr HF. destruct sent as [|x0 rest]; [done|]. set (sent := x0 :: rest) in *. pose proof HF as HF0. apply Forall_cons in HF0 as [(L1 & _ & L2 & _) _].
  cbn [getOutput cpu_backend head sent]. cbn [mbind option_bind]. rewrite L1, L2. set (c := setRecoverySlices r None _).
  destruct (init_ok (Z.of_nat (2 * n)) numthreads grouping areas r None) as (Hwf & Hexp & Hsize); [change (2 ^ 34) with 17179869184; lia|Z.div_mod_to_equations; lia|done|done|done|lia|done|]. fold c in Hwf, Hexp, Hsize.
  set (inputs := (λ x, (buffer_of x.1, x.2)) <$> sent).
  assert (length (outputExponents c) = r) as Hlen by (rewrite Hexp; apply length_replicate).
  assert (inputs_ok (outputExponents c) inputs) as Hin.
  { intros s Hs. apply list_elem_of_fmap in Hs as (x & -> & Hx). rewrite Forall_forall in HF. destruct (HF x Hx) as (_ & _ & H3 & H4). cbn [snd]. split; [lia|]. split; [done|].
    intros o Ho. rewrite Hexp in Ho. by apply lookup_replicate in Ho as [? _]. }
  assert (inputs ≠ []) as Hine by done. set (given := (λ x, (buffer_of x.1, inr x.2)) <$> sent).
  assert (Forall2 (λ g x, g.1 = x.1 ∧ resolves t (outputExponents c) g.2 x.2) given inputs) as Hgiven by (apply Forall2_fmap, Forall_Forall2_diag, Forall_true; by intros x).
  pose proof (good_begin c inputs ∅ Hwf given) as Hg. pose proof (begin_enough c given ∅ Hwf) as Hf.
  assert (begin c ∅ given = start c ∅ (commands (Z.of_nat (2 * n)) given r)) as Eb by (unfold begin; by rewrite Hsize, Hlen).
  destruct (run_ok t oracle _ _ _ _ _ _ _ _ (dims_setting t c inputs Ht Hwf Hin) Hine Hgiven Hg Hf) as (s & Er & Hs & Hfin).
  destruct (run_outputs t c inputs ∅ Ht Hwf Hin Hine given Hgiven s Hs Hfin) as [_ [Hfl Hfo]]. rewrite Eb in Er. rewrite Er. cbn [mbind option_bind].
  destruct (lookup_lt_is_Some_2 (futures s) k) as [[[o ok] out] Ho]; [rewrite Hfl; lia|]. rewrite Ho. cbn [mbind option_bind]. destruct (Hfo k _ Ho) as [[= -> ->] Hw]. cbn [snd] in Hw.
  destruct (bytes_of_ok out n) as (B1 & B2 & B3). eexists. split; [reflexivity|]. split; [done|]. split; [done|]. intros w Hwn. rewrite B3, Hw by (done || (rewrite Hsize; Z.div_mod_to_equations; lia)).
  unfold inputs. rewrite xsum_map. apply xsum_ext. intros x Hx. cbn [fst snd]. rewrite Forall_forall in HF. destruct (HF x Hx) as (_ & Hb & _ & _). by rewrite buffer_word.
Qed.
End Instance.

(** ** Backends in use *)

(** How the caller comes to a backend: [init] and [setRecoverySlices] once, then [setCurrentSliceSize] and runs *)
Inductive usable (t : gfmat_tables) : PAR2ProcCPU → Prop :=
  | usable_init slice threads grouping areas R exps : 0 < slice < 2 ^ 34 → slice mod 2 = 0 → 1 ≤ threads ≤ 1024 → 0 ≤ grouping ≤ 65535 → (0 < areas)%nat →
      1 ≤ Z.of_nat R ≤ 65535 → (∀ l, exps = Some l → R ≤ length l)%nat → usable t (setRecoverySlices R exps (init slice threads grouping areas))
  | usable_size size c : usable t c → 0 < size < 2 ^ 34 → size mod 2 = 0 → usable t (setCurrentSliceSize size c)
  | usable_run c m sent given s : usable t c → sent ≠ [] → inputs_ok (outputExponents c) sent → Forall2 (λ g x, g.1 = x.1 ∧ resolves t (outputExponents c) g.2 x.2) given sent →
      steps t (begin c m given) s → finished s → usable t (cpu s).

Lemma usable_ok t c : exp_table (gf_exp t) → usable t c → well_formed c.
Proof.
  intros Ht. induction 1 as [slice threads grouping areas R exps H1 H2 H3 H4 H5 H6 H7|size c _ IH H1 H2|c m sent given s _ IH H1 H2 H3 H4 H5].
  - by destruct (init_ok slice threads grouping areas R exps H1 H2 H3 H4 H5 H6 H7) as [Hwf _].
  - by destruct (setCurrentSliceSize_ok size c IH H1 H2) as [Hwf _].
  - by destruct (run_outputs t c sent m Ht IH H2 H1 given H3 s H4 H5) as [[Hwf _] _].
Qed.

(** Some run reaches the end. *)
Lemma run_reaches t oracle c m sent given : exp_table (gf_exp t) → well_formed c → sent ≠ [] → inputs_ok (outputExponents c) sent →
  Forall2 (λ g x, g.1 = x.1 ∧ resolves t (outputExponents c) g.2 x.2) given sent →
  ∃ s, run t oracle (enough (begin c m given)) (begin c m given) = Some s ∧ steps t (begin c m given) s ∧ finished s.
Proof.
  intros Ht Hwf Hne Hin Hgiven. apply (run_ok t oracle _ _ _ _ _ _ _ _ (dims_setting t c sent Ht Hwf Hin) Hne Hgiven); [by apply good_begin|by apply begin_enough].
Qed.

(** ** Properties *)

(** C6: The backend on CPU threads keeps what the repairer relies on: whatever the numbers of threads and staging areas, the size of the batches
    and the order in which the threads run, the outputs of a chunk are the sums of the products of the inputs with their factors. *)
Theorem cpu_backend_keeps_promise t numthreads grouping areas oracle : gfmat_init = Some t → 1 ≤ numthreads ≤ 1024 → 0 ≤ grouping ≤ 65535 → (0 < areas)%nat →
  @BackendLaws (cpu_backend t numthreads grouping areas oracle).
Proof. intros Ht%gfmat_init_tables. apply cpu_backend_laws, Ht. Qed.

Lemma cpu_backend_keeps_promise_witness : ∃ t out, gfmat_init = Some t ∧ @getOutput (cpu_backend t 3 0 2 (λ n, n)) [([1; 2], [5; 7]); ([3; 4], [6; 8])] 1 = Some out ∧
  word_at out 0 = xsum (λ s, mul16 (nth 1 s.2 0) (word_at s.1 0)) [([1; 2], [5; 7]); ([3; 4], [6; 8])].
Proof.
  destruct gfmat_init_ok as (t & Ht & _). exists t.
  destruct (cpu_backend_keeps_promise t 3 0 2 (λ n, n) Ht ltac:(lia) ltac:(lia) ltac:(lia) [([1; 2], [5; 7]); ([3; 4], [6; 8])] 1%nat 1%nat 2%nat) as (out & E & _ & _ & Hw); [done|lia|lia|lia|lia| |].
  - repeat (apply Forall_cons; split; [split_and!; [done|by repeat constructor|done|by repeat constructor]|]). apply Forall_nil. exact I.
  - exists out. split; [exact Ht|]. split; [exact E|]. apply Hw. lia.
Defined.

(** C5: However the steps of the main thread, the transfer thread and the workers are interleaved, a run that has ended has given every output, in order,
    with a checksum that is accepted, and every word of it is the sum of the products of the inputs with their coefficients. *)
Theorem backend_outputs t c sent given m s : gfmat_init = Some t → usable t c → sent ≠ [] → inputs_ok (outputExponents c) sent →
  Forall2 (λ g x, g.1 = x.1 ∧ resolves t (outputExponents c) g.2 x.2) given sent → steps t (begin c m given) s → finished s →
  right_futures (currentSliceSize c) sent (length (outputExponents c)) (futures s).
Proof.
  intros Ht%gfmat_init_tables Hc Hne Hin Hgiven Hs Hf. destruct Ht as [Ht _ _]. by destruct (run_outputs t c sent m Ht (usable_ok t c Ht Hc) Hin Hne given Hgiven s Hs Hf).
Qed.

Definition example_backend : PAR2ProcCPU := setRecoverySlices 2 None (init 8 3 1 2).
Definition example_sent : list (array * list Z) := [(buffer_of [1; 2; 3; 4; 5; 6; 7; 8], [5; 7]); (buffer_of [8; 7; 6; 5; 4; 3; 2; 1], [6; 8])].
Definition example_given : list (array * (Z + list Z)) := (λ x, (x.1, inr x.2)) <$> example_sent.

Lemma example_usable t : usable t example_backend.
Proof. apply usable_init; [by vm_compute|done|lia|lia|lia|lia|done]. Qed.

Lemma example_inputs : inputs_ok (outputExponents example_backend) example_sent.
Proof.
  intros s Hs. assert (length s.2 = 2%nat ∧ Forall (λ c, u16 c) s.2) as [H1 H2].
  { apply list_elem_of_In in Hs. destruct Hs as [<-|[<-|[]]]; (split; [done|by repeat constructor]). }
  split; [change (length (outputExponents example_backend)) with 2%nat; lia|]. split; [done|]. intros o Ho. change (outputExponents example_backend) with [1; 1] in Ho. destruct o as [|[|o]]; done.
Qed.

Lemma example_resolves t : Forall2 (λ g x, g.1 = x.1 ∧ resolves t (outputExponents example_backend) g.2 x.2) example_given example_sent.
Proof. apply Forall2_fmap_l, Forall_Forall2_diag, Forall_true. by intros x. Qed.

Lemma backend_outputs_witness : ∃ t s, gfmat_init = Some t ∧ steps t (begin example_backend ∅ example_given) s ∧ finished s ∧
  right_futures 8 example_sent 2 (futures s).
Proof.
  destruct gfmat_init_ok as (t & Et & Ht). destruct (run_reaches t (λ n, n) example_backend ∅ example_sent example_given (tables_exp t Ht)) as (s & _ & Hs & Hf);
    [apply (usable_ok t _ (tables_exp t Ht) (example_usable t))|done|apply example_inputs|apply example_resolves|].
  exists t, s. split; [exact Et|]. split; [exact Hs|]. split; [exact Hf|].
  exact (backend_outputs t example_backend example_sent example_given ∅ s Et (example_usable t) ltac:(done) example_inputs (example_resolves t) Hs Hf).
Defined.

(** C7: The threads do not block each other and do not run for ever: in every state that a run can reach some thread can take a step unless all is done,
    and there is no infinite run. *)
Theorem backend_runs_end t c sent given m : gfmat_init = Some t → usable t c → sent ≠ [] → inputs_ok (outputExponents c) sent →
  Forall2 (λ g x, g.1 = x.1 ∧ resolves t (outputExponents c) g.2 x.2) given sent →
  sn (λ s s', ∃ th, step t th s = Some s') (begin c m given) ∧ ∀ s, steps t (begin c m given) s → finished s ∨ ∃ th s', step t th s = Some s'.
Proof.
  intros Ht%gfmat_init_tables Hc Hne Hin Hgiven. destruct Ht as [Ht _ _]. pose proof (usable_ok t c Ht Hc) as Hwf. split; [by apply (run_terminates t c sent)|]. intros s. by apply (run_progress t c sent).
Qed.

Lemma backend_runs_end_witness : ∃ t, gfmat_init = Some t ∧ sn (λ s s', ∃ th, step t th s = Some s') (begin example_backend ∅ example_given).
Proof.
  destruct gfmat_init_ok as (t & Et & _). exists t. split; [exact Et|].
  exact (proj1 (backend_runs_end t example_backend example_sent example_given ∅ Et (example_usable t) ltac:(done) example_inputs (example_resolves t))).
Defined.

(** C10: Every backend that the caller can come to is well formed: the chunks are whole blocks that cover the slice, the staging areas and the
    outputs have room for the slice size that was set and lie apart in memory, and between runs no area is active. *)
Theorem usable_well_formed t c : gfmat_init = Some t → usable t c → well_formed c.
Proof. intros Ht%gfmat_init_tables. apply usable_ok, Ht. Qed.

Lemma usable_well_formed_witness : ∃ t, gfmat_init = Some t ∧ well_formed (setCurrentSliceSize 20 example_backend).
Proof.
  destruct gfmat_init_ok as (t & Et & _). exists t. split; [exact Et|]. apply (usable_well_formed t); [exact Et|]. apply usable_size; [apply example_usable|split; reflexivity|reflexivity].
Defined.
