(* ===== verification/CreatorProcess.v ===== *)
(** * CreatorProcess.v: the creator computes the recovery blocks

    The part of [Par2Creator::Process] and [ProcessData] (src/par2creator.cpp) that sets up the
    backend, reads the blocks part by part, passes them to the backend with their numbers, and
    gets the recovery blocks back.  The source writes the outputs of a part before it reads
    the next part; here the parts are collected, and [process_loop] of CreatorWrite.v writes
    them: the files that are written are not among those that are read, so that neither loop
    sees what the other does.  The waiting for transfer buffers is not modelled. *)

From stdpp Require Import relations.
From S2P Require Import Prelude LinOp GF GfCoeff GfLookup Bytes Md5 Md5Spec Md5Single Hasher HasherSpec DiskFile CheckSummer CheckSummerSpec HashTable FileName Packets PacketsSpec Parameters CreatorLayout CreatorAllocSpec CreatorPlanSpec CreatorWrite CreatorWriteSpec CreatorSpec SourceFile SourceFileSpec SourceBlocksSpec CreatorRoundtrip RepairProcess RepairProcessSpec RepairSpec GfChecksum GfPacked GfPackedSpec BackendCpu BackendThreads BackendWorkSpec BackendPlanSpec BackendStepSpec BackendSpec BackendSetupSpec BackendInstance.

(** ** The operations *)

(** [NUM_PARPAR_BUFFERS], src/libpar2internal.h *)
Definition NUM_PARPAR_BUFFERS : Z := 12.

(** The size of the batches that [Process] asks for *)
Definition inputbatch (sourceblockcount : Z) : Z :=
  if sourceblockcount <? NUM_PARPAR_BUFFERS * 2 then wrap 32 (sourceblockcount + 1) / 2 else 0.

(** The exponents; the counter of the source has 16 bits, so that its loop ends only for fewer
    than 65536 blocks *)
Definition recoveryindices (firstrecoveryblock recoveryblockcount : Z) : list Z :=
  (λ i, wrap 16 (i + firstrecoveryblock)) <$> seqZ 0 recoveryblockcount.

(** The backend as [Process] sets it up, with [areas] staging areas *)
Definition parparcpu (chunksize nthreads sourceblockcount firstrecoveryblock recoveryblockcount : Z) (areas : nat) : PAR2ProcCPU :=
  setRecoverySlices (Z.to_nat recoveryblockcount) (Some (recoveryindices firstrecoveryblock recoveryblockcount))
    (init chunksize nthreads (inputbatch sourceblockcount) areas).

(** The inputs, each with its number *)
Definition numbered (buffers : list (list Z)) : list (array * (Z + list Z)) := imap (λ i b, (buffer_of b, inl (Z.of_nat i))) buffers.

(** The outputs; none when a checksum is wrong *)
Definition outputs_of (blocklength : Z) (fs : list (Z * bool * array)) : option (list (list Z)) :=
  mapM (λ f : Z * bool * array, if f.1.2 then Some (bytes_of f.2 (Z.to_nat blocklength)) else None) fs.

Section Process.
Context (t : gfmat_tables) (maxlength : Z) (oracle : nat → nat → nat) (blocksize chunksize recoveryblockcount : Z) (deferhashcomputation : bool) (sourceblocks : list DataBlock).

(** [ProcessData] up to the writing of the outputs; part [part] is run in the order that the oracle chooses. *)
Definition ProcessData (part : nat) (blockoffset blocklength : Z) (files : list Par2CreatorSourceFile) (c : PAR2ProcCPU) (m : array)
    : option (option (list (list Z)) * list Par2CreatorSourceFile * PAR2ProcCPU * array) :=
  '(ok, buffers, files) ← process_inputs maxlength blockoffset blocklength deferhashcomputation {| lastopenfile := None; c_sourcefile := 0; c_sourceindex := 0 |} sourceblocks files;
  if negb ok then Some (None, files, c, m) else
  let s := start c m (commands blocklength (numbered buffers) (Z.to_nat recoveryblockcount)) in
  s ← run t (oracle part) (enough s) s;
  Some (outputs_of blocklength (futures s), files, cpu s, memory s).

(** The loop of [Process] over the parts of a block; [None] for the outputs is an error. *)
Fixpoint process_parts (fuel part : nat) (blockoffset : Z) (files : list Par2CreatorSourceFile) (c : PAR2ProcCPU) (m : array)
    : option (option (list (list (list Z))) * list Par2CreatorSourceFile) :=
  if blockoffset <? blocksize then
    match fuel with
    | O => None
    | S fuel =>
        let blocklength := Z.min chunksize (blocksize - blockoffset) in
        '(outputs, files, c, m) ← ProcessData part blockoffset blocklength files (setCurrentSliceSize blocklength c) m;
        match outputs with
        | None => Some (None, files)
        | Some outputs =>
            '(rest, files) ← process_parts fuel (S part) (blockoffset + blocklength) files c m;
            Some (option_map (cons outputs) rest, files)
        end
    end
  else Some (Some [], files).
End Process.

(** What is written: part [blockoffset / chunksize] of an output *)
Definition part_of (chunksize : Z) (parts : list (list (list Z))) (blockoffset blocklength : Z) (outputblock : nat) : list Z :=
  default [] (outputs ← parts !! Z.to_nat (blockoffset / chunksize); outputs !! outputblock).

(** ** The specification *)

(** The blocks of the source files, padded with zeros *)
Definition all_blocks (blocksize : nat) (sources : list source) : list (list Z) :=
  mjoin ((λ s, source_block s.2 blocksize <$> seq 0 (block_count blocksize s)) <$> sources).

(** The recovery block with an exponent, as bytes *)
Definition recovery_bytes_of (blocksize : nat) (B : list (list Z)) (e : Z) : list Z :=
  mjoin ((λ w, split_word (recovery_block (length B) B e w)) <$> seq 0 (Nat.div2 blocksize)).

Lemma recovery_block_range n B e w : u16 (recovery_block n B e w).
Proof.
  unfold recovery_block. apply xsum_in_range; [lia|]. intros i _. apply (gf_mul_range 16 poly16).
Qed.

Lemma recovery_bytes_of_ok blocksize B e : (blocksize mod 2 = 0)%nat →
  length (recovery_bytes_of blocksize B e) = blocksize ∧ Forall (in_range 8) (recovery_bytes_of blocksize B e) ∧
  ∀ w, (2 * w < blocksize)%nat → word_at (recovery_bytes_of blocksize B e) w = recovery_block (length B) B e w.
Proof.
  intros H2. assert (blocksize = (2 * Nat.div2 blocksize)%nat) as E by (pose proof (Nat.div2_odd blocksize) as Ho; rewrite <- Nat.bit0_odd, Nat.bit0_mod, H2 in Ho; cbn in Ho; lia).
  destruct (nth_words (recovery_block (length B) B e) (Nat.div2 blocksize)) as (L1 & L2 & L3); [intros w; apply recovery_block_range|].
  unfold recovery_bytes_of. split; [by rewrite L1, <- E|]. split; [done|]. intros w Hw. apply L3. lia.
Qed.

(** Lists of bytes with the same words are the same. *)
Lemma words_ext l l' n : length l = (2 * n)%nat → length l' = (2 * n)%nat → Forall (in_range 8) l → Forall (in_range 8) l' →
  (∀ w, (w < n)%nat → word_at l w = word_at l' w) → l = l'.
Proof.
  intros Hl Hl' HF HF' Hw. apply list_eq. intros i. destruct (decide (i < 2 * n)%nat) as [Hi|Hi]; [|rewrite !lookup_ge_None_2 by lia; done].
  assert (∀ l i, Forall (in_range 8) l → 0 ≤ nth i l 0 < 256) as Hb.
  { clear. intros l i HF. rewrite nth_lookup. destruct (l !! i) as [x|] eqn:E; [|cbn; lia]. exact (Forall_lookup_1 _ _ _ _ HF E). }
  specialize (Hw (Nat.div2 i)). unfold word_at in Hw. pose proof (Nat.div2_odd i) as E.
  pose proof (Hb l (2 * Nat.div2 i)%nat HF). pose proof (Hb l (2 * Nat.div2 i + 1)%nat HF). pose proof (Hb l' (2 * Nat.div2 i)%nat HF'). pose proof (Hb l' (2 * Nat.div2 i + 1)%nat HF').
  assert (Nat.div2 i < n)%nat as Hlt by lia. specialize (Hw Hlt). assert (nth i l 0 = nth i l' 0) as En.
  { destruct (Nat.odd i); cbn [Nat.b2n] in E; rewrite E; [lia|rewrite Nat.add_0_r; lia]. }
  rewrite !nth_lookup in En. destruct (lookup_lt_is_Some_2 l i) as [x Hx]; [lia|]. destruct (lookup_lt_is_Some_2 l' i) as [x' Hx']; [lia|]. rewrite Hx, Hx' in *. cbn in En. by subst.
Qed.

(** A part of the blocks gives the part of the recovery block. *)
Lemma recovery_block_slice B p len e w : (2 * w + 1 < len)%nat →
  recovery_block (length B) ((λ b, slice b (2 * p) len) <$> B) e w = recovery_block (length B) B e (p + w).
Proof.
  intros Hw. unfold recovery_block. apply xsum_ext. intros i Hi%elem_of_seqZ. f_equal. rewrite list_lookup_fmap.
  destruct (B !! Z.to_nat i) as [b|] eqn:E; [|apply lookup_ge_None in E; lia]. by apply word_at_slice.
Qed.

(** ** One part *)

(** The coefficients that the backend computes from the number of an input *)
Definition coefficients (exps : list Z) (i : nat) : list Z := (λ e, pow16 (input_constant (Z.of_nat i)) (Z.to_nat e)) <$> exps.
Definition with_coefficients (exps : list Z) (buffers : list (list Z)) : list (array * list Z) := imap (λ i b, (buffer_of b, coefficients exps i)) buffers.

Section Part.
Context (t : gfmat_tables) (exps : list Z) (buffers : list (list Z)).
Hypothesis Ht : tables_ok t.
Hypothesis Hexps : Forall (λ e, 0 ≤ e ≤ 65535) exps.
Hypothesis Hcount : Z.of_nat (length buffers) ≤ 32768.
Hypothesis Hbytes : Forall (Forall (in_range 8)) buffers.

Lemma numbered_resolves : Forall2 (λ g x, g.1 = x.1 ∧ resolves t exps g.2 x.2) (numbered buffers) (with_coefficients exps buffers).
Proof.
  apply Forall2_same_length_lookup_2; [unfold numbered, with_coefficients; by rewrite !length_imap|]. intros i g x. unfold numbered, with_coefficients. rewrite !list_lookup_imap.
  destruct (buffers !! i) as [b|] eqn:E; [|done]. apply lookup_lt_Some in E. intros [= <-] [= <-]. split; [done|]. cbn [snd resolves].
  exists (elog (Z.to_nat (Z.of_nat i + 1))). pose proof (elog_bounds (Z.to_nat (Z.of_nat i + 1)) ltac:(lia)). split; [apply gfmat_input_log_ok; [done|lia]|].
  intros o e He. rewrite Forall_lookup in Hexps. specialize (Hexps o e He). exists (pow16 (input_constant (Z.of_nat i)) (Z.to_nat e)).
  split; [apply gfmat_coeff_from_log_ok; [done|lia|done]|]. unfold coefficients. by rewrite list_lookup_fmap, He.
Qed.

Lemma coefficients_ok : inputs_ok exps (with_coefficients exps buffers).
Proof.
  intros s Hs. apply list_elem_of_lookup in Hs as [i Hi]. unfold with_coefficients in Hi. rewrite list_lookup_imap in Hi. destruct (buffers !! i) as [b|]; [|done]. injection Hi as <-. cbn [snd]. unfold coefficients.
  split; [by rewrite length_fmap|]. split; [apply Forall_fmap, Forall_true; intros e; apply (gf_pow_range 16 poly16)|]. intros o Ho. by rewrite list_lookup_fmap, Ho.
Qed.

Lemma sum_with_coefficients o e w : exps !! o = Some e →
  xsum (λ s, mul16 (nth o s.2 0) (word s.1 (Z.of_nat w))) (with_coefficients exps buffers) = recovery_block (length buffers) buffers e w.
Proof.
  intros Ho. unfold recovery_block. rewrite xsum_seqZ. assert (with_coefficients exps buffers = (λ i, (buffer_of (default [] (buffers !! i)), coefficients exps i)) <$> seq 0 (length buffers)) as ->.
  { apply list_eq. intros i. unfold with_coefficients. rewrite list_lookup_imap, list_lookup_fmap. destruct (buffers !! i) as [b|] eqn:E.
    - rewrite lookup_seq_lt by (by eapply lookup_lt_Some). cbn [fmap option_fmap option_map Nat.add]. by rewrite E.
    - rewrite lookup_seq_ge by (by apply lookup_ge_None). done. }
  rewrite xsum_map. apply xsum_ext. intros i [_ Hi]%elem_of_seq. cbn [fst snd]. rewrite Nat2Z.id. destruct (lookup_lt_is_Some_2 buffers i Hi) as [b Hb]. rewrite Hb. cbn [default from_option id].
  rewrite buffer_word by exact (Forall_lookup_1 _ _ _ _ Hbytes Hb). f_equal. unfold coefficients. by rewrite nth_lookup, list_lookup_fmap, Ho.
Qed.
End Part.

Section Runs.
Context (t : gfmat_tables) (Ht : tables_ok t).

Lemma outputs_of_ok size sent outputs fs : 0 < size → size mod 2 = 0 → right_futures size sent outputs fs →
  ∃ outs, outputs_of size fs = Some outs ∧ length outs = outputs ∧ ∀ o out, outs !! o = Some out →
    length out = Z.to_nat size ∧ Forall (in_range 8) out ∧ ∀ w, (2 * w + 1 < Z.to_nat size)%nat → word_at out w = xsum (λ s, mul16 (nth o s.2 0) (word s.1 (Z.of_nat w))) sent.
Proof.
  intros Hs He [Hl Hf]. exists ((λ f : Z * bool * array, bytes_of f.2 (Z.to_nat size)) <$> fs). split; [|split; [by rewrite length_fmap|]].
  - unfold outputs_of. apply mapM_Some. apply Forall2_fmap_r, Forall2_same_length_lookup_2; [done|]. intros i f f' Hi Hi'. rewrite Hi in Hi'. injection Hi' as <-. destruct (Hf i f Hi) as [E _]. by rewrite E.
  - intros o out Ho. rewrite list_lookup_fmap in Ho. destruct (fs !! o) as [f|] eqn:E; [|done]. injection Ho as <-. destruct (Hf o f E) as [_ Hw].
    replace (Z.to_nat size) with (2 * Z.to_nat (size / 2))%nat by (Z.div_mod_to_equations; lia). destruct (bytes_of_ok f.2 (Z.to_nat (size / 2))) as (H1 & H2 & H3). split; [done|]. split; [done|].
    intros w Hlt. rewrite H3, Hw by (Z.div_mod_to_equations; lia). done.
Qed.

(** A run of the backend on the buffers of a part *)
Lemma run_part_ok oracle c m buffers : well_formed c → Forall (λ e, 0 ≤ e ≤ 65535) (outputExponents c) → buffers ≠ [] → Z.of_nat (length buffers) ≤ 32768 → Forall (Forall (in_range 8)) buffers →
  let s0 := start c m (commands (currentSliceSize c) (numbered buffers) (length (outputExponents c))) in
  ∃ s outs, run t oracle (enough s0) s0 = Some s ∧ well_formed (cpu s) ∧ outputExponents (cpu s) = outputExponents c ∧ outputs_of (currentSliceSize c) (futures s) = Some outs ∧
    length outs = length (outputExponents c) ∧ ∀ o e out, outputExponents c !! o = Some e → outs !! o = Some out →
      length out = Z.to_nat (currentSliceSize c) ∧ Forall (in_range 8) out ∧ ∀ w, (2 * w + 1 < Z.to_nat (currentSliceSize c))%nat → word_at out w = recovery_block (length buffers) buffers e w.
Proof.
  intros Hwf He Hne Hcount Hb s0. pose proof (numbered_resolves t (outputExponents c) buffers Ht He Hcount) as Hg. pose proof (coefficients_ok (outputExponents c) buffers) as Hin.
  assert (with_coefficients (outputExponents c) buffers ≠ []) as Hne' by (by destruct buffers).
  destruct (run_reaches t oracle c m _ _ (tables_exp t Ht) Hwf Hne' Hin Hg) as (s & Er & Hs & Hf). change (begin c m (numbered buffers)) with s0 in *.
  destruct (run_outputs t c _ m (tables_exp t Ht) Hwf Hin Hne' _ Hg s Hs Hf) as [[H1 H2] H3]. destruct (wf_size c Hwf) as (Hs1 & _ & Hs2).
  destruct (outputs_of_ok _ _ _ _ (proj1 Hs1) Hs2 H3) as (outs & Eo & Hl & Ho). exists s, outs. split_and!; try done. intros o e out Hoe Hout. destruct (Ho o out Hout) as (L1 & L2 & L3).
  split; [done|]. split; [done|]. intros w Hw. rewrite L3 by done. by apply sum_with_coefficients.
Qed.
End Runs.

(** ** All parts *)

Section Parts.
Context (scratch : MD5Single) (fresh : HasherInput) (maxlength : Z) (basepath : list Z) (blocksize : nat).
Hypothesis Hscratch : length (tmp scratch) = 64%nat.
Hypothesis Hfresh : length (h_tmp fresh) = 128%nat.
Hypothesis Hmax : 0 < maxlength.
Hypothesis Hbs : (0 < blocksize)%nat.
Hypothesis Hbs63 : Z.of_nat blocksize ≤ MaxOffset.
Hypothesis Heven : (blocksize mod 2 = 0)%nat.
Context (t : gfmat_tables) (Ht : tables_ok t) (oracle : nat → nat → nat).
Context (sources : list source) (defer : bool).
Hypothesis Hsources : Forall (source_ok basepath blocksize) sources.
Hypothesis Hne : sources ≠ [].
Abbreviation B := (all_blocks blocksize sources).
Hypothesis Hcount : Z.of_nat (length B) ≤ 32768.
Context (chunk : nat).
Hypothesis Hchunk : (0 < chunk ≤ blocksize)%nat ∧ (chunk mod 2 = 0)%nat ∧ Z.of_nat chunk ≤ 33554432.
Hypothesis Hdefer : defer = true → chunk = blocksize.
Context (exps : list Z).
Hypothesis Hexps : Forall (λ e, 0 ≤ e ≤ 65535) exps.

Abbreviation status_of k := (λ s f, status basepath blocksize defer s f (k s)).
Abbreviation done_count := (block_count blocksize).

Lemma source_count s : s ∈ sources → (0 < block_count blocksize s)%nat.
Proof.
  intros Hs. rewrite Forall_forall in Hsources. destruct (Hsources s Hs) as [H1 H2 H3 H4 _ _ _]. by destruct (count_ok scratch fresh s.2 blocksize Hscratch Hfresh H1 H2 H3 Hbs Hbs63 H4) as ((Hc & _) & _).
Qed.

Lemma all_blocks_nonempty : B ≠ [].
Proof.
  enough (∀ l, l ≠ [] → (∀ s, s ∈ l → (0 < block_count blocksize s)%nat) → all_blocks blocksize l ≠ []) as H by (apply (H _ Hne), source_count).
  intros [|s l] Hl H; [done|]. pose proof (H s ltac:(left)) as Hc. unfold all_blocks. cbn [fmap list_fmap mjoin list_join]. destruct (block_count blocksize s) as [|k]; [lia|]. done.
Qed.

Lemma all_blocks_bytes : Forall (Forall (in_range 8)) B.
Proof.
  apply Forall_forall. intros b Hb. unfold all_blocks in Hb. apply list_elem_of_join in Hb as (bs & Hb & Hin). apply list_elem_of_fmap in Hin as (s & -> & Hs). apply list_elem_of_fmap in Hb as (k & -> & _).
  rewrite Forall_forall in Hsources. apply source_block_bytes, (so_bytes _ _ _ (Hsources s Hs)).
Qed.

Lemma part_inputs position size : mjoin ((λ s, input_part blocksize position size s <$> seq 0 (block_count blocksize s)) <$> sources) = (λ b, slice b position size) <$> B.
Proof.
  clear. unfold all_blocks. induction sources as [|s rest IH]; [done|]. cbn [fmap list_fmap mjoin list_join]. rewrite fmap_app. f_equal; [|exact IH]. by rewrite <- list_fmap_compose.
Qed.

(** The source blocks do not change. *)
Lemma source_blocks_same k k' files files' : Forall2 (status_of k) sources files → Forall2 (status_of k') sources files' →
  CreateSourceBlocks (Z.of_nat blocksize) files = CreateSourceBlocks (Z.of_nat blocksize) files'.
Proof.
  intros H1 H2. unfold CreateSourceBlocks. f_equal. apply list_eq. intros i. rewrite !list_lookup_imap. destruct (sources !! i) as [s|] eqn:E.
  - destruct (Forall2_lookup_l _ _ _ _ _ H1 E) as (f & -> & Hf). destruct (Forall2_lookup_l _ _ _ _ _ H2 E) as (f' & -> & Hf'). cbn [fmap option_fmap option_map]. f_equal.
    destruct (status_disk _ _ _ _ _ _ Hf) as (_ & _ & Ez & Ec). destruct (status_disk _ _ _ _ _ _ Hf') as (_ & _ & Ez' & Ec'). unfold InitialiseSourceBlocks. by rewrite Ez, Ez', Ec, Ec'.
  - apply lookup_ge_None in E. rewrite !lookup_ge_None_2; [done|rewrite <- (Forall2_length _ _ _ H2)|rewrite <- (Forall2_length _ _ _ H1)]; done.
Qed.

(** The outputs of the parts from position [p] *)
Definition parts_right (p : nat) (parts : list (list (list Z))) : Prop :=
  ∀ j o e, (p + j * chunk < blocksize)%nat → exps !! o = Some e →
    (outs ← parts !! j; outs !! o) = Some (slice (recovery_bytes_of blocksize B e) (p + j * chunk) (Nat.min chunk (blocksize - (p + j * chunk)))).

Abbreviation len p := (Nat.min chunk (blocksize - p)).

Lemma part_even p : (p mod 2 = 0)%nat → (p < blocksize)%nat → ∃ h n, p = (2 * h)%nat ∧ len p = (2 * n)%nat ∧ (0 < n)%nat.
Proof.
  intros Hp Hlt. exists (p / 2)%nat, (len p / 2)%nat. destruct Hchunk as ((H1 & _) & H2 & _). pose proof (Nat.div_mod p 2 ltac:(lia)). pose proof (Nat.div_mod blocksize 2 ltac:(lia)). pose proof (Nat.div_mod chunk 2 ltac:(lia)).
  pose proof (Nat.div_mod (len p) 2 ltac:(lia)). pose proof (Nat.mod_upper_bound (len p) 2 ltac:(lia)).
  destruct (Nat.min_spec chunk (blocksize - p)) as [[? E]|[? E]]; rewrite E in *; lia.
Qed.

(** The words of the part of a recovery block *)
Lemma recovery_part e p out : (p mod 2 = 0)%nat → (p < blocksize)%nat → length out = len p → Forall (in_range 8) out →
  (∀ w, (2 * w + 1 < len p)%nat → word_at out w = recovery_block (length ((λ b, slice b p (len p)) <$> B)) ((λ b, slice b p (len p)) <$> B) e w) →
  out = slice (recovery_bytes_of blocksize B e) p (len p).
Proof.
  intros Hp Hlt Hl Hb Hw. destruct (part_even p Hp Hlt) as (h & n & Eh & En & Hn). destruct (recovery_bytes_of_ok blocksize B e Heven) as (R1 & R2 & R3).
  apply (words_ext _ _ n); [lia|rewrite length_slice by (rewrite R1; lia); lia|done|by apply Forall_slice|]. intros w Hwn.
  rewrite Hw by lia. subst p. rewrite length_fmap, recovery_block_slice, word_at_slice by lia. symmetry. apply R3. lia.
Qed.

Lemma process_parts_ok fuel part p files c m k : (blocksize ≤ fuel + p)%nat → (p mod 2 = 0)%nat → (p ≤ blocksize)%nat → (defer = true → p = 0%nat ∨ p = blocksize) →
  Forall2 (status_of (λ s, if decide (p < blocksize)%nat then 0%nat else done_count s)) sources files →
  CreateSourceBlocks (Z.of_nat blocksize) files = k → well_formed c → outputExponents c = exps →
  ∃ parts files', process_parts t maxlength oracle (Z.of_nat blocksize) (Z.of_nat chunk) (Z.of_nat (length exps)) defer k fuel part (Z.of_nat p) files c m = Some (Some parts, files') ∧
    Forall2 (status_of done_count) sources files' ∧ parts_right p parts.
Proof.
  revert part p files c m. induction fuel as [|fuel IH]; intros part p files c m Hfuel Hp Hle Hd Hst Hk Hwf Hc; cbn [process_parts]; (destruct (Z.ltb_spec (Z.of_nat p) (Z.of_nat blocksize)) as [Hlt|Hge]; [|exists [], files; split; [done|]; split; [eapply Forall2_impl; [exact Hst|]; cbn beta; intros s f Hf; by rewrite decide_False in Hf by lia|]; intros j o e Hj; nia]); [lia|].
  destruct Hchunk as ((Hc1 & Hc2) & Hc3 & Hc4). destruct (part_even p Hp ltac:(lia)) as (h & n & Eh & En & Hn). assert (Forall2 (status_of (λ _, 0%nat)) sources files) as Hst0 by (eapply Forall2_impl; [exact Hst|]; cbn beta; intros s f Hf; by rewrite decide_True in Hf by lia).
  replace (Z.min (Z.of_nat chunk) (Z.of_nat blocksize - Z.of_nat p)) with (Z.of_nat (len p)) by lia. set (l := len p) in *.
  destruct (setCurrentSliceSize_ok (Z.of_nat l) c Hwf) as (Hwf1 & He1 & Hs1); [change (2 ^ 34) with 17179869184; lia|rewrite En, Nat2Z.inj_mul, Z.mul_comm; apply Z_mod_mult|].
  set (c1 := setCurrentSliceSize _ _) in *. rewrite Hc in He1.
  assert (defer = true → p = 0%nat ∧ l = blocksize) as Hdl by (intros E; specialize (Hd E); specialize (Hdefer E); lia).
  destruct (process_files_ok scratch fresh maxlength basepath blocksize Hscratch Hfresh Hmax Hbs Hbs63 defer p l ltac:(lia) Hdl sources files [] 0 None Hsources Hst0 eq_refl) as (files1 & Hst1 & Ep). cbn [app] in Ep.
  rewrite part_inputs in Ep. assert (mjoin (imap (λ j f, InitialiseSourceBlocks f (0 + j) (Z.of_nat blocksize)) files) = k) as Ek by done. rewrite Ek in Ep. set (buffers := (λ b, slice b p l) <$> B) in *.
  unfold ProcessData. rewrite Ep. cbn [mbind option_bind negb].
  destruct (run_part_ok t Ht (oracle part) c1 m buffers Hwf1) as (s & outs & Er & Hwf2 & He2 & Eo & Hl & Hout); [by rewrite He1|unfold buffers; pose proof all_blocks_nonempty; by destruct B|unfold buffers; by rewrite length_fmap| |].
  { apply Forall_fmap. eapply Forall_impl; [apply all_blocks_bytes|]. intros b Hb. by apply Forall_slice. }
  rewrite Hs1, He1 in *. rewrite Nat2Z.id. rewrite Er. cbn [mbind option_bind]. rewrite Eo.
  assert ((l mod 2 = 0)%nat) as Hl2 by (rewrite En, Nat.mul_comm; apply Nat.Div0.mod_mul).
  destruct (IH (S part) (p + l)%nat files1 (cpu s) (memory s)) as (parts & files2 & E2 & Hst2 & Hr2); [lia| |lia| | |..].
  - rewrite Nat.Div0.add_mod, Hp, Hl2. done.
  - intros E. specialize (Hdl E). lia.
  - eapply Forall2_impl; [exact Hst1|]. cbn beta. intros s' f Hf. destruct (decide (p + l < blocksize)%nat) as [Hlast|]; [|done]. unfold status in *. destruct defer; [|done]. specialize (Hdl eq_refl). lia.
  - rewrite <- Hk. by apply (source_blocks_same done_count (λ _, 0%nat)).
  - done.
  - done.
  - rewrite <- Nat2Z.inj_add, E2. cbn [mbind option_bind option_map]. exists (outs :: parts), files2. split; [done|]. split; [done|].
    intros j o e Hj He. destruct j as [|j].
    + cbn [lookup list_lookup mbind option_bind]. rewrite Nat.add_0_r. destruct (lookup_lt_is_Some_2 outs o) as [out Ho]; [rewrite Hl; by eapply lookup_lt_Some|]. rewrite Ho. f_equal.
      destruct (Hout o e out He Ho) as (L1 & L2 & L3). rewrite Nat2Z.id in *. apply recovery_part; [done|lia|done|done|exact L3].
    + cbn [lookup list_lookup]. assert (l = chunk) as El by (unfold l; lia). specialize (Hr2 j o e ltac:(lia) He). rewrite El in Hr2.
      replace (p + S j * chunk)%nat with (p + chunk + j * chunk)%nat in * by lia. exact Hr2.
Qed.
End Parts.

(** ** The setup *)

Lemma recoveryindices_ok first R : 0 ≤ first → first + R < 65536 → recoveryindices first R = seqZ first R.
Proof.
  intros Hf Hl. unfold recoveryindices. apply list_eq. intros i. rewrite list_lookup_fmap. destruct (decide (Z.of_nat i < R)) as [Hi|Hi].
  - rewrite !(proj2 (lookup_seqZ _ _ _ _)) by (split; [reflexivity|lia]). cbn [fmap option_fmap option_map]. f_equal. rewrite wrap_small by (split; [lia|change (2 ^ 16) with 65536; lia]). lia.
  - rewrite !lookup_ge_None_2; [done|rewrite length_seqZ; lia..].
Qed.

Lemma inputbatch_ok sbc : 0 ≤ sbc ≤ 32768 → 0 ≤ inputbatch sbc ≤ 65535.
Proof.
  intros H. unfold inputbatch, NUM_PARPAR_BUFFERS. destruct (Z.ltb_spec sbc (12 * 2)); [|lia]. rewrite wrap_small by (split; [lia|change (2 ^ 32) with 4294967296; lia]). Z.div_mod_to_equations. lia.
Qed.

Lemma parparcpu_ok chunksize nthreads sbc first R areas : 0 < chunksize ≤ 33554432 → chunksize mod 2 = 0 → 1 ≤ nthreads ≤ 1024 → 0 ≤ sbc ≤ 32768 → (0 < areas)%nat →
  0 ≤ first → 0 < R → first + R < 65536 → let c := parparcpu chunksize nthreads sbc first R areas in well_formed c ∧ outputExponents c = seqZ first R.
Proof.
  intros Hc H2 Ht Hs Ha Hf HR Hl c. unfold c, parparcpu. rewrite recoveryindices_ok by done. pose proof (inputbatch_ok sbc Hs).
  destruct (init_ok chunksize nthreads (inputbatch sbc) areas (Z.to_nat R) (Some (seqZ first R))) as (H1 & H3 & _); try done; [change (2 ^ 34) with 17179869184; lia|lia|by intros l [= <-]; rewrite length_seqZ|].
  split; [done|]. rewrite H3. apply take_ge. rewrite length_seqZ. done.
Qed.

(** The parts are what is written. *)
Lemma part_of_ok bs B chunk R exps parts first : (0 < chunk)%nat → (bs mod 2 = 0)%nat → exps = seqZ first R →
  (∀ j o e, (j * chunk < bs)%nat → exps !! o = Some e →
    (outs ← parts !! j; outs !! o) = Some (slice (recovery_bytes_of bs B e) (j * chunk) (Nat.min chunk (bs - j * chunk)))) →
  gives_output chunk (Z.of_nat bs) R (λ i, recovery_bytes_of bs B (first + Z.of_nat i)) (part_of (Z.of_nat chunk) parts).
Proof.
  intros Hc He -> Hp q i Hq Hi len. unfold part_of. unfold len. rewrite !Nat2Z.id in *. rewrite Nat2Z.inj_mul, Z.div_mul, Nat2Z.id by lia.
  rewrite (Hp q i (first + Z.of_nat i)); [done|lia|]. apply lookup_seqZ. lia.
Qed.

(** ** Properties *)


